(* ===== verification/_CoqProject ===== *)
-Q . S2P
Prelude.v
Machine.v
Shadow.v
Strategy.v
Pages.v
SwQueue.v
SpecQueue.v
Packet.v
State.v
Communicate.v
Malloc.v
Separation.v
Speculation.v
Protection.v
Prediction.v
Units.v
Messages.v
Commit.v
TryCommit.v
Validate.v
Text.v
ProcMaps.v
Control.v
LoopEvent.v
BeginIter.v
Forward.v
Posted.v
EndIter.v
Iteration.v
Doall.v
Spawn.v
Exec.v
Privacy.v
Distill.v
Heaps.v
Redux.v
DeferredIO.v
Checkpoint.v
Invocation.v
Privatize.v
Clique.v
MinCut.v
Pipeline.v
Partition.v
Estimate.v
Critic.v
Dswp.v
PsDswp.v
Orchestrator.v
Planner.v
BoundMalloc.v
Slamp.v
SlampTrace.v
SlampValues.v
