(* ===== verification/Prelude.v ===== *)
(** * The profiler, the planner and the speculative runtimes of CPF

    CPF parallelises loops by speculation.  The compiler plans which loops to
    parallelise and how, and turns them into code that calls a runtime library; at
    run time the library forks worker processes,
    runs the iterations of the loop on them, records which bytes they read and
    write, validates the speculation and commits validated iterations to the
    memory of the main process.  The repository has two such libraries, and this
    development models both and proves them correct, part by part and then
    composed:

    - the pipeline runtime in C++, [src/liberty/support/specpriv-smtx-executive],
      in which workers send the pages they touched to a try-commit unit and a
      commit unit;
    - the checkpoint runtime in C, [src/liberty/support/specpriv-executive], in
      which workers keep private copies of memory and merge them into
      checkpoints.

    It also models the part of the compiler that decides: the planner, the
    orchestrator and its critics, in [src/liberty/lib/Planner],
    [lib/Orchestration], [lib/Strategy] and [lib/GraphAlgorithms]; and the memory
    profiler whose log tells the compiler which dependences it may speculate on,
    [lib/SLAMP/SLAMPlib/hooks].

    ** The pipeline runtime

    Every byte of user memory has a metadata byte at a fixed distance, its
    shadow.  Compiled code calls a hook for each access, which records loads,
    stores and loads that come before the first store.  A worker that runs an
    iteration first merges what the earlier stages did in it, and at its end
    sends the touched pages through queues in shared memory to one worker of
    every later stage and to a try-commit unit, a process that replays all stages
    of an iteration in order and rejects it when a stage has read a byte that a
    stage after it in the sequential order had already overwritten, or when a
    predicted value was wrong.  Accepted work goes to the commit unit in the main
    process.  A rejected iteration is recorded in the parallel control block and
    ends the parallel execution.  Supporting parts allocate memory at addresses
    on which all processes agree, protect pages so that touched ones are known,
    predict loop-invariant and linear values, and fork and join the processes.

    ** The checkpoint runtime

    Data is kept in heaps at fixed addresses.  A worker maps the private heap of
    the main process copy on write, so that it works on a private copy, and gives
    every private byte a shadow code: live-in, read live-in, written before the
    last checkpoint, or written in a certain iteration since then.  The hooks of
    private accesses check and update the codes, and report misspeculation when a
    byte is read live-in that an earlier iteration wrote, or the other way round.
    After a group of iterations a worker merges its written bytes, its reduction
    values and its deferred output into the checkpoint object of that group in
    shared memory, where conflicts between workers are found.  When all workers
    have merged, the checkpoint is complete; older complete checkpoints are
    combined into newer ones.  After the join the main process adopts the complete
    checkpoints: it copies their private bytes, adds the reductions and writes the
    deferred output in the order of the iterations.

    ** The planner

    For every hot loop there is a graph of the dependences between its
    instructions; speculation modules mark those that can be removed, at a cost, by
    a remedy.  Critics propose plans: one parallel stage (DOALL), a pipeline of
    sequential stages (DSWP), or a pipeline with a parallel stage (PS-DSWP), for
    which the components that must not share the parallel stage are found by a
    minimum cut.  The criticisms of a plan are the dependences that run against it.
    The orchestrator adds up the cheapest remedies for the criticisms and keeps the
    plan that saves most.  The planner builds the graph of the loops that are never
    active at the same time and takes a clique that saves most.

    ** The memory profiler

    Instrumented programs call a hook for every load, store, allocation and loop
    event.  Every byte has a shadow word with the instruction, the iteration and the
    invocation of the last store to it.  A load logs a dependence on every store it
    finds there that belongs to the same invocation.  Objects come from a heap that
    never reuses addresses, so that a timestamp stays with its object, and gives
    pages back when their last object is freed.  Other modules record constant and
    linear loads, points-to sets and traces.

    ** Files of the pipeline runtime

    - [Prelude]: the error and state monad [M], loops ([for_], [rounds],
      [fold_opt]), their lemmas and the tactics of the development; shared by
      both runtimes.
    - [Machine]: fixed-width integers, byte memory, [constants.h].
    - [Shadow]: the access hooks of [smtx/memops.cpp].
    - [Strategy]: [strategy.cpp], [strategy.h], [run_iteration].
    - [Pages]: the SSE page routines of [utils.cpp], [smtx/units.cpp] and
      [loopevent.cpp].
    - [SwQueue]: [sw_queue/sw_queue.cpp], alone and as two interleaved threads.
    - [SpecQueue]: [specpriv_queue.cpp], over the interface [Channel] of queues.
    - [Packet]: [smtx/packet.cpp].
    - [State]: the globals of the runtime, as the record [proc] of one process,
      the record [shared] of shared memory and the record [env] of what the
      platform fixes; [world] has one of each.  Operations have type [W A].
    - [Communicate]: [smtx/communicate.cpp].
    - [Malloc]: [smtx/malloc.cpp].  [Separation]: [smtx/separation.cpp].
    - [Speculation]: [private.cpp], [pcb.cpp], [speculation.cpp].
    - [Protection]: [smtx/protection.cpp].
    - [Prediction]: [smtx/prediction.cpp].
    - [Units]: the rest of [smtx/units.cpp].  [Messages], [Commit], [TryCommit]
      and [Validate] abstract packets to messages and specify the three
      receivers: workers, commit unit and try-commit unit.
    - [Text], [ProcMaps]: [include/internals/smtx/procmapsinfo.h].
    - [Control]: [control.cpp], [smtx/smtx.cpp], and the finalisation of
      [smtx/malloc.cpp], [smtx/packet.cpp] and [smtx/separation.cpp].
    - [LoopEvent]: begin and end of an iteration in [loopevent.cpp].  [BeginIter]
      proves what the begin does, for workers of all stages and all iterations; [Forward], [Posted], [EndIter] and [Iteration]
      prove what the end sends; [Doall] composes a worker, the try-commit unit and the commit unit.
    - [Spawn]: spawning and joining.

    ** Files of the checkpoint runtime

    - [Exec]: the constants, the structures and the globals of all C files, as
      the record [World] with one process and the shared memory, and the queries
      and the misspeculation of [api.c].  Operations have type [X A].
    - [Privacy]: the access hooks and the iteration codes of [private.c].
    - [Distill]: the merges of [private.c], worker into checkpoint, older into
      newer checkpoint, checkpoint into main memory.
    - [Heaps]: [heap.c] and [fiveheaps.c].  [Redux]: [redux.c].  [DeferredIO]:
      [io.c].
    - [Checkpoint]: [checkpoint.c] and [pcb.c].
    - [Invocation]: [api.c], the life of an invocation and of a worker.
    - [Privatize]: the parts composed, workers from start to commit.

    ** Files of the planner

    - [Clique]: [Ebk.cpp].  [MinCut]: [EdmondsKarp.cpp].
    - [Pipeline]: stages, plans and their updates, [PipelineStrategy.cpp].
    - [Estimate]: run times in doubles, [PerformanceEstimator.h] and [.cpp].
    - [Critic]: [Critic.cpp] with the DOALL critic.  [Dswp]: [DSWPCritic.cpp].
    - [Partition] and [PsDswp]: the two halves of [PSDSWPCritic.cpp].
    - [Orchestrator]: [Orchestrator.cpp].  [Planner]: [Planner.cpp].

    What NOELLE, LLVM and SCAF provide are classes: [Noelle] (components and their
    order), [Subgraphs] (copies of dependence graphs), [Remedies] (costs),
    [Program] (call graph and loop nests), [PerformanceEstimator].  Their documented
    behaviour is stated in the classes [NoelleLaws], [DagLaws], [SubgraphLaws] and
    [ProgramLaws], each with a concrete instance.  The class [SoundCritic] is the
    contract between critics and orchestrator, which the DOALL and the PS-DSWP
    critic meet.

    ** Files of the memory profiler

    - [BoundMalloc]: [slamp_bound_malloc.cpp], the heap and its invariant [heap_ok].
    - [Slamp]: [slamp_timestamp.h], [slamp_shadow_mem.h], [slamp_logger.cpp],
      the hooks of [slamp_hooks.cpp], and the copies, fills and allocations of
      [slamp_ext_hooks.cpp].
    - [SlampTrace]: runs of the profiler as traces of events, and the log against
      the flow dependences of the trace.  [SlampValues]: constant and linear loads.

    Definitions keep the names of the source.  A function that may fail an
    assertion, fault, exit or wait for another process returns [Stop] with the
    reason and the state at that point.

    ** Theorems

    - End to end: [Doall.doall_iteration] (one stage, one try-commit unit, any
      iteration), [Iteration.end_iter_sends],
      [Validate.try_commit_validates], [Validate.iteration_commits],
      [BeginIter.begin_iter_merges], [Commit.commit_applies],
      [Units.commit_barrier] (all interleavings of the units' packets).
    - Access history: [Shadow.memops_trace_history], for the bytes that no ranged
      load hook covers, and the equivalence of wide and bytewise hooks.
    - Vector code: the SSE loops of [Pages] equal their byte loops, and their
      verdicts are characterised byte by byte; [Forward.words_equal_page] shows
      that the two encodings of a page are interchangeable.
    - Queues: refinement of a bounded FIFO list, order and absence of deadlock
      under all interleavings, and the same for replicated queues.
    - Allocation: disjoint parts, fresh aligned blocks, agreement of replay,
      disjoint separation heaps, safe packet pools.
    - Prediction, protection, misspeculation, strategy, memory maps, and the life
      cycle of the processes.
    - The checkpoint runtime: [Privatize.privatized_loop_sequential] shows that
      workers that run their iterations on private copies and merge leave the
      memory of a sequential run.  Under it, the hooks check every byte of an
      access and the wide ones equal bytewise ones ([Privacy]); the merge keeps the
      newest write in any order of the workers, and combining checkpoints before
      the commit changes nothing ([Distill]); heap objects are disjoint ([Heaps]);
      vectorised reductions equal elementwise ones ([Redux]); output is written in
      order ([DeferredIO]); the linked lists of checkpoints implement sequences
      ordered by iteration ([Checkpoint]); a worker starts from the state of the
      main process ([Invocation]).
    - The planner: [PsDswp.psdswp_critic_correct] shows that the PS-DSWP critic
      returns a plan whose criticisms are exactly the dependences that run against
      it, all of them removable, or fails because of an instruction that it moved for
      a loop-carried register dependence, on top of [Partition.psdswp_pipeline] and
      [MinCut.min_cut_minimum]; [Dswp.dswp_pipeline] and
      [Critic.doall_critic_exact] are its counterparts for the other critics;
      [Orchestrator.chosen_plan_safe] and [Orchestrator.best_strategy_maximal] show
      that the chosen plan is covered by its remedies and the best one;
      [Planner.planner_best_loops], over [Clique.ebk_maximum_clique], that the loops
      chosen are compatible and save most; [Pipeline.updates_keep_partition] that
      later passes keep the stages disjoint.
    - The memory profiler: [SlampTrace.slamp_log_exact] shows that the log has
      exactly the flow dependences of the trace, [SlampTrace.slamp_objects_kept] that
      live objects are disjoint, on pages of the heap, and covered by shadow;
      [SlampValues.constant_values_exact] and [SlampValues.linear_later_samples] say
      when a load is reported as constant or linear.
    - Counterexamples of the profiler: [SlampTrace.invocations_alias],
      [SlampTrace.retry_loses_alignment], [SlampValues.linear_ignores_samples].
    - Counterexamples of the planner: [Clique.ebk_overflow],
      [MinCut.antiparallel_edges_overflow], [Pipeline.delete_leaves_dependences],
      [Partition.carried_pair_no_stage], [Partition.thread_budget_underflow],
      [PsDswp.register_move_fails], [Dswp.dswp_no_criticisms],
      [Orchestrator.dswp_chosen_unsafe], [Orchestrator.unprofitable_plan_chosen].
    - Counterexamples of the runtimes: [Privatize.unchecked_write_loses_update] and
      [Privatize.merge_conflict_ignored] are loops on which a check is skipped,
      [Invocation.late_worker_blocks_join] a join that waits for ever, and
      [DeferredIO.first_iteration_overruns] output that is not bounded by its list.

    ** Bounds

    Loops of the source that have no static bound are given a number of rounds
    that covers every terminating run; [rounds n] stands for [2^n] rounds.
    Loops that empty a queue have [2^14], more than the [2^13] entries of a
    queue: when they are used up the code waits for another process, which is
    the result [Spinning].  The search of a pool has [2^19], its size.  The
    growth of a heap has [2^31], the number of pages of the address range; the
    loops of the commit unit and of [begin_iter] that wait for other processes
    have [2^31] and take what the others do in every round as a parameter.
    In the checkpoint runtime the loops over linked lists are bounded by the
    number of objects, the events of one iteration by [2^32] and all events of a
    checkpoint by [2^38], which is the range of the counters for 64 workers.
    [privatized_loop_sequential] covers the iterations of one checkpoint group, with
    every hook; the 4- and 8-byte writes that skip their check must not hit bytes that
    were read as live-in.
    In the planner, [2^33] rounds of a search over vertices cover the vertex
    numbers of an [unsigned], and [2^64] augmentations cover the total flow, which
    grows with each; the clique search, the call-graph search and the filling of a
    stage recurse on fuel that the number of vertices, functions and components
    bounds.
    A timestamp has 20 bits for the instruction, 40 for the iteration and 4 for the
    invocation; [slamp_log_exact] covers traces within these ranges, accesses to
    the ranges of user addresses of [SlampTrace.user_span], which the shadow mapping
    keeps apart, pages of 4096 bytes, and an [mmap] that does not fail.
    Theorems show that the result is reached, not only that it is right when it
    is reached.  The results about the end of an iteration assume one try-commit
    unit, which is what [num_available_workers] sets up, and room in the queues
    and pools for 16 packets per touched page; without room the sender waits.

    ** Not modelled

    Profiling and debug builds ([profile.cpp], [debug.cpp], code under
    [PROFILE], [DEBUG_ON] and [#if 0], except the byte loops used as reference),
    processor affinity, the registration of signal handlers (the handlers are
    modelled), process ids, the stack trace of the fault handler, and functions
    that only return memory to the system ([__sw_queue_free], [free_queue],
    [cleanup_strategy]).  [mmap], [mprotect] and [fork] are parameters.  Of the
    checkpoint runtime: [timer.c], [debug.c], affinity, signals, the transfer of
    arguments through pipes, and the files that repeat the queues and the strategy
    of the pipeline runtime ([strategy.c], [sw_queue.c], [specpriv_queue.c]) and
    the loop and replica ids they use.  Of the planner:
    printing, the set-up of passes and remediators, the profile-guided estimator,
    and the functions of [PSDSWPCritic.cpp] that are not called.  Of the memory
    profiler: timers and statistics, the format of the profile files, the callbacks of
    the log (none is registered), and the other wrappers of library calls, which
    announce to the hooks what the library function accesses.  The other
    directories of the repository hold LLVM passes that are defined by the
    interfaces of LLVM and NOELLE, other profilers and vendored libraries. *)
From stdpp Require Export base list list_numbers gmap sets relations.
From Stdlib Require Export ZArith Lia.

#[global] Open Scope Z_scope.

(** ** Notation scope and hint databases of the development *)

Declare Scope exec_scope.
Delimit Scope exec_scope with exec.

Create HintDb smtx discriminated.
Create Rewrite HintDb smtx_bits.

(** ** Outcomes of a step of the runtime

    The runtime leaves a function early in five ways: it fails an [assert], it
    ends its process with [_exit] or [exit], it waits in a spin loop for another
    process, it touches memory that is not mapped, or it jumps with
    [siglongjmp].  [Stop] carries the reason and the state at that point. *)

Inductive stop : Type :=
| AssertFail
| Exited (code : Z)
| Spinning
| Fault
| Jumped (code : Z).

Inductive res (S A : Type) : Type :=
| Ok (a : A) (s : S)
| Stop (why : stop) (s : S).
Arguments Ok {S A} a s.
Arguments Stop {S A} why s.

Definition M (S A : Type) : Type := S → res S A.

Definition ret {S A} (a : A) : M S A := λ s, Ok a s.
Definition bind {S A B} (c : M S A) (k : A → M S B) : M S B :=
  λ s, match c s with Ok a s' => k a s' | Stop w s' => Stop w s' end.
Definition halt {S A} (w : stop) : M S A := λ s, Stop w s.
Definition gets {S A} (f : S → A) : M S A := λ s, Ok (f s) s.
Definition modify {S} (f : S → S) : M S unit := λ s, Ok tt (f s).
Definition assert_ {S} (b : bool) : M S unit :=
  if b then ret tt else halt AssertFail.
Definition when {S} (b : bool) (c : M S unit) : M S unit :=
  if b then c else ret tt.

Notation "'let!' x ':=' c 'in' k" := (bind c (λ x, k))
  (at level 10, x pattern, c at level 100, k at level 200)
  : exec_scope.
Notation "c1 ;;; c2" := (bind c1 (λ _, c2))
  (at level 199, right associativity) : exec_scope.
#[global] Open Scope exec_scope.

(** A C [for] loop over the indices [l]. *)
Fixpoint for_ {S A} (l : list A) (body : A → M S unit) : M S unit :=
  match l with
  | [] => ret tt
  | x :: l' => body x ;;; for_ l' body
  end.

(** The indices of [for (i = 0; i < n; i += s)], given the number of rounds. *)
Definition strided (n s : Z) : list Z := (λ k, s * k) <$> seqZ 0 n.

(** Loop with early exit: [None] is the early [return]. *)
Fixpoint fold_opt {A S} (f : S → A → option S) (l : list A) (s : S) : option S :=
  match l with
  | [] => Some s
  | x :: l' => match f s x with Some s' => fold_opt f l' s' | None => None end
  end.

(** [2 ^ n] rounds of a loop body that either goes on ([inl]) or leaves the
    loop ([inr]). *)
Fixpoint rounds {S R} (n : nat) (step : S → S + R) (s : S) : S + R :=
  match n with
  | O => step s
  | Datatypes.S n' =>
      match rounds n' step s with
      | inl s' => rounds n' step s'
      | inr r => inr r
      end
  end.

(** [k] rounds, counted in unary: the specification of [rounds]. *)
Fixpoint rounds_lin {S R} (k : nat) (step : S → S + R) (s : S) : S + R :=
  match k with
  | O => inl s
  | Datatypes.S k' =>
      match step s with inl s' => rounds_lin k' step s' | inr r => inr r end
  end.

Lemma rounds_lin_add {S R} (step : S → S + R) j k s :
  rounds_lin (j + k) step s =
  match rounds_lin j step s with inl s' => rounds_lin k step s' | inr r => inr r end.
Proof.
  revert s; induction j as [|j IH]; intros s; simpl; [done|].
  destruct (step s); [apply IH|done].
Qed.

Lemma rounds_spec {S R} (step : S → S + R) n s :
  rounds n step s = rounds_lin (2 ^ n) step s.
Proof.
  revert s; induction n as [|n IH]; intros s; simpl.
  - by destruct (step s).
  - rewrite Nat.add_0_r, rounds_lin_add, <-IH.
    destruct (rounds n step s); [apply IH|done].
Qed.

Lemma rounds_now {S R} (step : S → S + R) n s r : step s = inr r → rounds n step s = inr r.
Proof. intros E. induction n as [|n IH]; simpl; [done|]. by rewrite IH. Qed.

(** An invariant of the rounds, and a property of how they end. *)
Lemma rounds_lin_inv {S R} (I : S → Prop) (Q : R → Prop) (step : S → S + R) :
  (∀ s, I s → match step s with inl s' => I s' | inr r => Q r end) →
  ∀ k s, I s → match rounds_lin k step s with inl s' => I s' | inr r => Q r end.
Proof.
  intros Hstep k. induction k as [|k IH]; intros s Hs; simpl; [done|].
  specialize (Hstep s Hs). destruct (step s) as [s'|r]; [by apply IH|done].
Qed.

(** A measure that every round decreases bounds their number. *)
Lemma rounds_measure {S R} (I : S → Prop) (Q : R → Prop) (mu : S → Z) (step : S → S + R) :
  (∀ s, I s → 0 ≤ mu s ∧ match step s with inl s' => I s' ∧ mu s' < mu s | inr r => Q r end) →
  ∀ n s, I s → mu s < 2 ^ Z.of_nat n → ∃ r, rounds n step s = inr r ∧ Q r.
Proof.
  intros Hstep n s Hs Hmu.
  assert (∀ n s, I s → match rounds n step s with inl s' => I s' ∧ mu s' + 2 ^ Z.of_nat n ≤ mu s | inr r => Q r end) as H.
  { clear n s Hs Hmu. induction n as [|n IH]; intros s Hs; cbn [rounds].
    - destruct (Hstep s Hs) as [_ H]. destruct (step s); [|done]. destruct H. split; [done|]. change (2 ^ Z.of_nat 0) with 1. lia.
    - specialize (IH s Hs) as H1. destruct (rounds n step s) as [s1|]; [|done]. destruct H1 as [Hs1 H1].
      specialize (IH s1 Hs1) as H2. destruct (rounds n step s1) as [s2|]; [|done]. destruct H2 as [Hs2 H2].
      split; [done|]. rewrite Nat2Z.inj_succ, Z.pow_succ_r by lia. lia. }
  specialize (H n s Hs). destruct (rounds n step s) as [s'|r]; [|by exists r].
  destruct H as [Hs' H]. destruct (Hstep s' Hs') as [H0 _]. lia.
Qed.

(** ** Reasoning about [bind] and [for_] *)

Lemma bind_ok {S A B} (c : M S A) (k : A → M S B) s b s' :
  bind c k s = Ok b s' ↔ ∃ a t, c s = Ok a t ∧ k a t = Ok b s'.
Proof.
  unfold bind. destruct (c s) as [a t|w t]; split; [eauto| |done|].
  - by intros (?&?&[= <- <-]&?).
  - by intros (?&?&[=]&?).
Qed.

Lemma bind_bind {S A B C} (c : M S A) (k : A → M S B) (h : B → M S C) s :
  bind (bind c k) h s = bind c (λ a, bind (k a) h) s.
Proof. unfold bind. by destruct (c s). Qed.

Lemma for_app {S A} (l1 l2 : list A) (body : A → M S unit) s :
  for_ (l1 ++ l2) body s = (for_ l1 body ;;; for_ l2 body) s.
Proof.
  revert s; induction l1 as [|x l IH]; intros s; simpl; [done|].
  unfold bind in *. destruct (body x s); [apply IH|done].
Qed.

Lemma for_fmap {S A B} (h : A → B) (body : B → M S unit) l s :
  for_ (h <$> l) body s = for_ l (λ x, body (h x)) s.
Proof.
  revert s; induction l as [|x l IH]; intros s; simpl; [done|].
  unfold bind. destruct (body (h x) s); [apply IH|done].
Qed.

Lemma for_ext {S A} (f g : A → M S unit) l s :
  (∀ x t, f x t = g x t) → for_ l f s = for_ l g s.
Proof.
  intros H. revert s; induction l as [|x l IH]; intros s; simpl; [done|].
  unfold bind. rewrite H. destruct (g x s); [apply IH|done].
Qed.

(** Nested loops run over the concatenation. *)
Lemma for_bind {S A B} (h : A → list B) (body : B → M S unit) l s :
  for_ (l ≫= h) body s = for_ l (λ x, for_ (h x) body) s.
Proof.
  revert s; induction l as [|x l IH]; intros s; simpl; [done|].
  rewrite for_app. unfold bind. destruct (for_ (h x) body s); [apply IH|done].
Qed.

(** A predicate on states that every round keeps is kept by the loop. *)
Lemma for_inv {S A} (I : S → Prop) (body : A → M S unit) l :
  (∀ x s u s', x ∈ l → I s → body x s = Ok u s' → I s') →
  ∀ s u s', I s → for_ l body s = Ok u s' → I s'.
Proof.
  induction l as [|x l IH]; simpl; intros Hstep s u s' HI.
  - by intros [= _ <-].
  - intros ([] & t & Hx & Hl)%bind_ok.
    eapply IH; [| |exact Hl].
    + intros y ????. eapply Hstep. set_solver.
    + eapply Hstep; [|exact HI|exact Hx]. set_solver.
Qed.

(** The same for states in which the loop stopped early. *)
Definition holds {S A} (P : S → Prop) (r : res S A) : Prop :=
  match r with Ok _ s => P s | Stop _ s => P s end.

Lemma holds_bind {S A B} (P : S → Prop) (c : M S A) (k : A → M S B) s :
  holds P (c s) → (∀ a t, P t → holds P (k a t)) → holds P (bind c k s).
Proof. unfold bind, holds. destruct (c s) as [a t|w t]; intros ? Hk; [by apply Hk|done]. Qed.

Lemma holds_for {S A} (P : S → Prop) (body : A → M S unit) l s :
  P s → (∀ x t, x ∈ l → P t → holds P (body x t)) → holds P (for_ l body s).
Proof.
  revert s; induction l as [|x l IH]; simpl; intros s HP Hb; [done|].
  apply holds_bind; [apply Hb; set_solver|].
  intros [] t Ht. apply IH; [done|]. intros y ??. apply Hb. set_solver.
Qed.

Lemma holds_impl {S A} (P Q : S → Prop) (r : res S A) :
  (∀ s, P s → Q s) → holds P r → holds Q r.
Proof. destruct r; simpl; auto. Qed.

(** ** Early-exit loops *)

Lemma fold_opt_app {A S} (f : S → A → option S) l1 l2 s :
  fold_opt f (l1 ++ l2) s =
  match fold_opt f l1 s with Some t => fold_opt f l2 t | None => None end.
Proof.
  revert s; induction l1 as [|x l IH]; intros s; simpl; [done|].
  destruct (f s x); [apply IH|done].
Qed.

Lemma fold_opt_ext {A S} (f g : S → A → option S) l s :
  (∀ s x, f s x = g s x) → fold_opt f l s = fold_opt g l s.
Proof.
  intros H. revert s; induction l as [|x l IH]; intros s; simpl; [done|].
  rewrite H. destruct (g s x); [apply IH|done].
Qed.

Lemma fold_opt_bind {A B S} (f : S → B → option S) (h : A → list B) l s :
  fold_opt f (l ≫= h) s = fold_opt (λ s x, fold_opt f (h x) s) l s.
Proof.
  revert s. induction l as [|x l IH]; intros s; [done|]. cbn [mbind list_bind fold_opt]. rewrite fold_opt_app.
  destruct (fold_opt f (h x) s); [apply IH|done].
Qed.

Lemma foldl_bind {A B S} (f : S → B → S) (h : A → list B) l s :
  foldl f s (l ≫= h) = foldl (λ s x, foldl f s (h x)) s l.
Proof.
  revert s. induction l as [|x l IH]; intros s; [done|]. cbn [mbind list_bind foldl]. rewrite foldl_app. apply IH.
Qed.

(** ** Lists of consecutive integers *)

Lemma seqZ_snoc m n : 0 ≤ n → seqZ m (n + 1) = seqZ m n ++ [m + n].
Proof. intros. rewrite seqZ_app by lia. done. Qed.

Lemma elem_of_strided i n s : i ∈ strided n s ↔ ∃ k, i = s * k ∧ 0 ≤ k < n.
Proof.
  unfold strided. rewrite list_elem_of_fmap. setoid_rewrite elem_of_seqZ.
  split; intros (k & -> & ?); exists k; (split; [done|lia]).
Qed.

(** Induction on a non-negative integer, upwards from zero. *)
Lemma Z_up_ind (P : Z → Prop) :
  P 0 → (∀ n, 0 ≤ n → P n → P (n + 1)) → ∀ n, 0 ≤ n → P n.
Proof. intros H0 HS. apply natlike_ind; [done|]. intros x ??. apply HS; done. Qed.

(** ** Tactics *)

(** Case analysis on the outermost [bind] of a successful run. *)
Ltac inv_bind :=
  repeat match goal with
  | H : bind _ _ _ = Ok _ _ |- _ =>
      let a := fresh "a" in let t := fresh "t" in
      let H1 := fresh "Hc" in let H2 := fresh "Hk" in
      apply bind_ok in H as (a & t & H1 & H2); simpl in H2
  | H : ret _ _ = Ok _ _ |- _ => unfold ret in H; injection H as <- <-
  | H : gets _ _ = Ok _ _ |- _ => unfold gets in H; injection H as <- <-
  | H : modify _ _ = Ok _ _ |- _ => unfold modify in H; injection H as <- <-
  | H : halt _ _ = Ok _ _ |- _ => discriminate H
  | H : assert_ ?b _ = Ok _ _ |- _ =>
      destruct b eqn:?; [unfold assert_, ret in H; injection H as <- <- | discriminate H]
  end.

(** Evaluate an integer comparison with a linear arithmetic argument. *)
Ltac zcmp :=
  first [ apply Z.ltb_lt; lia | apply Z.ltb_ge; lia | apply Z.leb_le; lia
        | apply Z.leb_gt; lia | apply Z.eqb_eq; lia | apply Z.eqb_neq; lia ].
Ltac zbool := first [ zcmp | symmetry; zcmp ].

(** ** Filters that keep everything or nothing, and equal folds *)

Lemma filter_all {A} (P : A → Prop) `{∀ x, Decision (P x)} (l : list A) : (∀ x, x ∈ l → P x) → filter P l = l.
Proof.
  induction l as [|x l IH]; intros HP; [done|]. rewrite filter_cons_True by (apply HP; by left). f_equal.
  apply IH. intros y Hy. apply HP. by right.
Qed.
Lemma filter_none {A} (P : A → Prop) `{∀ x, Decision (P x)} (l : list A) : (∀ x, x ∈ l → ¬ P x) → filter P l = [].
Proof.
  induction l as [|x l IH]; intros HP; [done|]. rewrite filter_cons_False by (apply HP; by left).
  apply IH. intros y Hy. apply HP. by right.
Qed.

Lemma filter_same {A} (P Q : A → Prop) `{∀ x, Decision (P x), ∀ x, Decision (Q x)} (l : list A) :
  (∀ x, x ∈ l → P x ↔ Q x) → filter P l = filter Q l.
Proof.
  induction l as [|x l IH]; intros HPQ; [done|]. rewrite !filter_cons, (IH (λ y Hy, HPQ y (list_elem_of_further _ _ _ Hy))).
  specialize (HPQ x (list_elem_of_here _ _)). do 2 case_decide; tauto.
Qed.

Lemma filter_map {A B} (f : A → B) (P : B → Prop) `{∀ x, Decision (P x)} (l : list A) :
  filter P (f <$> l) = f <$> filter (λ x, P (f x)) l.
Proof. induction l as [|x l IH]; [done|]. rewrite fmap_cons, !filter_cons, IH. by case_decide. Qed.

Lemma foldl_same {A B} (f g : A → B → A) l a : (∀ a x, f a x = g a x) → foldl f a l = foldl g a l.
Proof. intros Hfg. revert a. induction l as [|x l IH]; intros a; [done|]. cbn [foldl]. by rewrite Hfg, IH. Qed.

(** ** Sums over lists *)

Definition sumZ {A} (f : A → Z) (l : list A) : Z := foldr (λ x n, f x + n) 0 l.

Lemma sumZ_cons {A} (f : A → Z) x l : sumZ f (x :: l) = f x + sumZ f l.
Proof. done. Qed.

Lemma sumZ_fmap {A B} (f : B → Z) (g : A → B) l : sumZ f (g <$> l) = sumZ (f ∘ g) l.
Proof. induction l as [|x l IH]; [done|]. cbn [fmap list_fmap]. by rewrite !sumZ_cons, <- IH. Qed.

Lemma sumZ_app {A} (f : A → Z) l k : sumZ f (l ++ k) = sumZ f l + sumZ f k.
Proof. unfold sumZ. induction l; simpl; lia. Qed.

#[global] Instance sumZ_perm {A} (f : A → Z) : Proper ((≡ₚ) ==> eq) (sumZ f).
Proof. intros l k. unfold sumZ. induction 1; simpl; lia. Qed.

Lemma sumZ_le {A} (f g : A → Z) l : (∀ x, x ∈ l → f x ≤ g x) → sumZ f l ≤ sumZ g l.
Proof.
  unfold sumZ. induction l as [|x l IH]; intros H; simpl; [done|].
  specialize (IH (λ y Hy, H y (list_elem_of_further y x l Hy))). specialize (H x (list_elem_of_here x l)). lia.
Qed.

Lemma sumZ_ext {A} (f g : A → Z) l : (∀ x, x ∈ l → f x = g x) → sumZ f l = sumZ g l.
Proof. intros H. apply Z.le_antisymm; apply sumZ_le; intros x Hx; by rewrite H. Qed.

(** One summand changes. *)
Lemma sumZ_update {A} `{EqDecision A} (f g : A → Z) l a d : NoDup l → a ∈ l → g a = f a + d →
  (∀ x, x ∈ l → x ≠ a → g x = f x) → sumZ g l = sumZ f l + d.
Proof.
  intros Hn Ha Hd Hext. pose proof Ha as [k Hk]%elem_of_Permutation.
  assert (∀ x, x ∈ k → x ∈ l) as Hin by (intros x Hx; rewrite Hk; by right). rewrite Hk in Hn |- *.
  unfold sumZ. simpl. fold (sumZ f k) (sumZ g k). apply NoDup_cons in Hn as [Hk' _].
  rewrite (sumZ_ext g f k), Hd; [lia|]. intros x Hx. apply Hext; [by apply Hin|]. by intros ->.
Qed.

Lemma sumZ_nonneg {A} (f : A → Z) l : (∀ x, x ∈ l → 0 ≤ f x) → 0 ≤ sumZ f l.
Proof.
  intros H. transitivity (sumZ (λ _ : A, 0) l); [|by apply sumZ_le].
  unfold sumZ. induction l as [|x l IH]; simpl; [done|]. apply IH. intros y Hy. apply H. by right.
Qed.
