(* ===== verification/Machine.v ===== *)
(** Machine words, byte-addressed memory and the constants of the runtime.

    Models [include/internals/constants.h] and [types.h] of the
    [specpriv-smtx-executive] runtime, and the C++ language facilities the
    runtime is written with: unsigned integers of a fixed width, little-endian
    loads and stores of 1, 2, 4 and 8 bytes, [memcpy] and [memset].  A memory
    is a finite map from addresses to bytes; an address that was never written
    reads as zero, as anonymous [mmap] memory does. *)
From S2P Require Import Prelude.

(** ** Fixed-width unsigned integers *)

Definition wrap (w z : Z) : Z := z mod 2 ^ w.
Abbreviation u8 := (wrap 8).
Abbreviation u16 := (wrap 16).
Abbreviation u32 := (wrap 32).
Abbreviation u64 := (wrap 64).

(** Conversion to a signed type of [w] bits (two's complement). *)
Definition swrap (w z : Z) : Z := wrap w (z + 2 ^ (w - 1)) - 2 ^ (w - 1).
Abbreviation i32 := (swrap 32).
Abbreviation i64 := (swrap 64).

(** Bitwise complement at width [w]. *)
Definition not_w (w z : Z) : Z := wrap w (Z.lnot z).

Lemma wrap_range w z : 0 ≤ w → 0 ≤ wrap w z < 2 ^ w.
Proof. intros. apply Z.mod_pos_bound. lia. Qed.

Lemma wrap_small w z : 0 ≤ z < 2 ^ w → wrap w z = z.
Proof. apply Z.mod_small. Qed.

Lemma wrap_wrap w z : wrap w (wrap w z) = wrap w z.
Proof. unfold wrap. by rewrite Zmod_mod. Qed.

Lemma wrap_testbit w z i :
  0 ≤ w → 0 ≤ i → Z.testbit (wrap w z) i = (i <? w) && Z.testbit z i.
Proof.
  intros Hw Hi. unfold wrap. destruct (Z.ltb_spec i w).
  - by rewrite Z.mod_pow2_bits_low by lia.
  - by rewrite Z.mod_pow2_bits_high by lia.
Qed.

Lemma testbit_ge_width w z i :
  0 ≤ w → 0 ≤ z < 2 ^ w → w ≤ i → Z.testbit z i = false.
Proof.
  intros. rewrite <-(wrap_small w z) by done.
  rewrite wrap_testbit by lia. by replace (i <? w) with false by lia.
Qed.

Lemma u8_range z : 0 ≤ u8 z < 256.
Proof. apply wrap_range. lia. Qed.

(** Bitwise equality of two non-negative words: bit by bit. *)
#[global] Hint Rewrite Z.land_spec Z.lor_spec Z.lxor_spec : smtx_bits.
#[global] Hint Rewrite Z.shiftr_spec Z.shiftl_spec Z.lnot_spec wrap_testbit
  using lia : smtx_bits.

Ltac bitwise i Hi :=
  apply Z.bits_inj'; intros i Hi; autorewrite with smtx_bits.

(** ** Constants ([constants.h]) *)

Definition PAGE_SIZE : Z := 4 * 1024.
Definition PAGE_SHIFT : Z := 12.
Definition PAGE_MASK : Z := 0xFFFFFFFFFFFFF000.
Definition SHADOW_MASK : Z := 0x0000200000000000.
Definition GET_SHADOW_OF (x : Z) : Z := Z.lxor x SHADOW_MASK.
Definition GET_ORIGINAL_OF (x : Z) : Z := Z.lxor x SHADOW_MASK.

Definition VER_MALLOC_CHUNK_BEGIN : Z := 0x100000000000.
Definition VER_MALLOC_CHUNK_BOUND : Z := 0x180000000000.
Definition VER_MALLOC_CHUNKSIZE : Z := 0x1000.
Definition SEPARATION_HEAP_BEGIN : Z := 0x080000000000.
Definition SEPARATION_HEAP_BOUND : Z := 0x100000000000.
Definition SEPARATION_HEAP_CHUNKSIZE : Z := 0x1000.
Definition VER_SEPARATION_HEAP_BEGIN : Z := 0x180000000000.
Definition VER_SEPARATION_HEAP_BOUND : Z := 0x200000000000.

Definition READ : Z := 0.
Definition WRITE : Z := 1.
Definition CHECK_FREE : Z := 0.
Definition CHECK_REQUIRED : Z := 1.
Definition CHECK_RO_PAGE : Z := 2.
Definition REGULAR : Z := 0.
Definition SEPARATION : Z := 1.

(** Packet types. *)
Definition NORMAL : Z := 0.
Definition SUPER : Z := 1.
Definition BOI : Z := 2.
Definition EOI : Z := 3.
Definition MISSPEC : Z := 4.
Definition EOW : Z := 5.
Definition ALLOC : Z := 6.
Definition FREE : Z := 7.

Definition PACKET_POOL_SIZE : Z := 8192 * 2 * 4 * 8.
Definition ALIGNMENT : Z := 64.
Definition MAX_STAGE_NUM : Z := 64.
Definition MAX_WORKERS : Z := 32 - 1.
(** [~(Wid)0] with [Wid = uint32_t]. *)
Definition MAIN_PROCESS_WID : Z := not_w 32 0.
Definition NOT_A_PARALLEL_STAGE : Z := not_w 32 0.

(** [~((k)-1)] is computed as [int] and converted to [uint64_t]. *)
Definition ROUND_DOWN (n k : Z) : Z := Z.land (u64 (Z.lnot (k - 1))) (u64 n).
Definition ROUND_UP (n k : Z) : Z := ROUND_DOWN (u64 (n + (k - 1))) k.

(** ** Byte memory *)

Abbreviation mem := (gmap Z Z).

Definition rd (m : mem) (a : Z) : Z := u8 (default 0 (m !! a)).
Definition wr (m : mem) (a v : Z) : mem := <[a := u8 v]> m.

(** Little-endian load and store of [n] bytes. *)
Fixpoint load (n : nat) (m : mem) (a : Z) : Z :=
  match n with
  | O => 0
  | S n' => Z.lor (rd m a) (Z.shiftl (load n' m (a + 1)) 8)
  end.

Fixpoint store (n : nat) (m : mem) (a v : Z) : mem :=
  match n with
  | O => m
  | S n' => store n' (wr m a v) (a + 1) (Z.shiftr v 8)
  end.

(** [memcpy(d, s, n)] from the object [src] into [m]; [memset(d, v, n)]. *)
Definition memcpy (m : mem) (d : Z) (src : mem) (s n : Z) : mem :=
  foldl (λ m i, wr m (d + i) (rd src (s + i))) m (seqZ 0 n).
Definition memset (m : mem) (d v n : Z) : mem :=
  foldl (λ m i, wr m (d + i) v) m (seqZ 0 n).

(** Two memories are the same when every address reads the same. *)
Definition mem_eq (m1 m2 : mem) : Prop := ∀ a, rd m1 a = rd m2 a.

#[global] Instance mem_eq_equiv : Equivalence mem_eq.
Proof.
  split.
  - by intros m a.
  - by intros m1 m2 H a.
  - intros m1 m2 m3 H1 H2 a. by rewrite H1.
Qed.

#[global] Instance rd_proper : Proper (mem_eq ==> eq ==> eq) rd.
Proof. intros m1 m2 H a ? <-. apply H. Qed.

Lemma rd_range m a : 0 ≤ rd m a < 256.
Proof. apply u8_range. Qed.

Lemma rd_wr m a v b : rd (wr m a v) b = if decide (a = b) then u8 v else rd m b.
Proof.
  unfold rd, wr. destruct (decide (a = b)) as [->|Hne].
  - rewrite lookup_insert_eq. apply wrap_wrap.
  - by rewrite lookup_insert_ne.
Qed.

Lemma rd_wr_eq m a v : rd (wr m a v) a = u8 v.
Proof. rewrite rd_wr. by rewrite decide_True. Qed.

Lemma rd_wr_ne m a v b : a ≠ b → rd (wr m a v) b = rd m b.
Proof. intros. rewrite rd_wr. by rewrite decide_False. Qed.

#[global] Instance wr_proper : Proper (mem_eq ==> eq ==> eq ==> mem_eq) wr.
Proof. intros m1 m2 H a ? <- v ? <- b. rewrite !rd_wr. by destruct (decide _). Qed.

#[global] Instance load_proper n : Proper (mem_eq ==> eq ==> eq) (load n).
Proof.
  intros m1 m2 H a ? <-. revert a. induction n as [|n IH]; intros a; cbn [load]; [done|].
  by rewrite IH, H.
Qed.

Lemma rd_store n : ∀ m a v b,
  rd (store n m a v) b =
  if decide (a ≤ b < a + Z.of_nat n) then u8 (Z.shiftr v (8 * (b - a))) else rd m b.
Proof.
  induction n as [|n IH]; intros m a v b; cbn [store].
  - rewrite decide_False by lia. done.
  - rewrite IH. destruct (decide (a + 1 ≤ b < a + 1 + Z.of_nat n)) as [Hin|Hout].
    + rewrite decide_True by lia. rewrite Z.shiftr_shiftr by lia.
      do 2 f_equal; lia.
    + rewrite rd_wr. destruct (decide (a = b)) as [->|Hne].
      * rewrite decide_True by lia. by rewrite Z.sub_diag, Z.mul_0_r, Z.shiftr_0_r.
      * rewrite decide_False by lia. done.
Qed.

Lemma load_testbit n : ∀ m a i, 0 ≤ i →
  Z.testbit (load n m a) i =
  (i <? 8 * Z.of_nat n) && Z.testbit (rd m (a + i / 8)) (i mod 8).
Proof.
  induction n as [|n IH]; intros m a i Hi; cbn [load].
  - rewrite Z.testbit_0_l, Z.mul_0_r. by replace (i <? 0) with false by lia.
  - rewrite Z.lor_spec, Z.shiftl_spec by lia.
    destruct (Z.ltb_spec i 8).
    + rewrite (Z.testbit_neg_r _ (i - 8)), orb_false_r by lia.
      replace (i <? 8 * Z.of_nat (S n)) with true by zbool. simpl.
      rewrite Z.div_small, Z.mod_small, Z.add_0_r by lia. done.
    + rewrite (testbit_ge_width 8 (rd m a) i); [|lia|apply rd_range|lia].
      rewrite IH by lia. rewrite orb_false_l.
      replace (a + 1 + (i - 8) / 8) with (a + i / 8) by (Z.to_euclidean_division_equations; lia).
      replace ((i - 8) mod 8) with (i mod 8) by (Z.to_euclidean_division_equations; lia).
      f_equal. destruct (Z.ltb_spec (i - 8) (8 * Z.of_nat n)); zbool.
Qed.

Lemma load_range n m a : 0 ≤ load n m a < 2 ^ (8 * Z.of_nat n).
Proof.
  assert (load n m a = wrap (8 * Z.of_nat n) (load n m a)) as ->.
  { bitwise i Hi. rewrite load_testbit by lia. by destruct (i <? _). }
  apply wrap_range. lia.
Qed.

Lemma bit_of_byte k j : 0 ≤ j < 8 → (8 * k + j) / 8 = k ∧ (8 * k + j) mod 8 = j.
Proof. intros. Z.to_euclidean_division_equations. lia. Qed.

Lemma load_bit n m a k j : 0 ≤ k < Z.of_nat n → 0 ≤ j < 8 →
  Z.testbit (load n m a) (8 * k + j) = Z.testbit (rd m (a + k)) j.
Proof.
  intros. rewrite load_testbit by lia.
  destruct (bit_of_byte k j) as [-> ->]; [done|].
  by replace (8 * k + j <? 8 * Z.of_nat n) with true by zbool.
Qed.

(** Byte [k] of the word that was loaded. *)
Lemma load_byte n m a k : 0 ≤ k < Z.of_nat n →
  u8 (Z.shiftr (load n m a) (8 * k)) = rd m (a + k).
Proof.
  intros. bitwise i Hi. destruct (Z.ltb_spec i 8); simpl.
  - replace (i + 8 * k) with (8 * k + i) by lia. by apply load_bit.
  - symmetry. eapply (testbit_ge_width 8); [lia|apply rd_range|lia].
Qed.

Lemma load_zero_iff n m a : load n m a = 0 ↔ ∀ k, 0 ≤ k < Z.of_nat n → rd m (a + k) = 0.
Proof.
  split.
  - intros H k Hk. rewrite <-(load_byte n) by done. by rewrite H, Z.shiftr_0_l.
  - intros H. bitwise i Hi. rewrite Z.testbit_0_l, load_testbit by done.
    destruct (Z.ltb_spec i (8 * Z.of_nat n)); [|done]. simpl.
    rewrite H by (Z.to_euclidean_division_equations; lia). apply Z.testbit_0_l.
Qed.

Lemma load_ext n m m' a : (∀ k, 0 ≤ k < Z.of_nat n → rd m (a + k) = rd m' (a + k)) →
  load n m a = load n m' a.
Proof.
  intros H. bitwise i Hi. rewrite !load_testbit by done.
  destruct (Z.ltb_spec i (8 * Z.of_nat n)); [|done]. simpl.
  rewrite H by (Z.to_euclidean_division_equations; lia). done.
Qed.

Lemma store_load n m a : mem_eq (store n m a (load n m a)) m.
Proof.
  intros b. rewrite rd_store. destruct (decide _); [|done].
  rewrite load_byte by lia. f_equal. lia.
Qed.

Lemma load_store n m a v : load n (store n m a v) a = wrap (8 * Z.of_nat n) v.
Proof.
  bitwise i Hi. rewrite load_testbit, rd_store by lia.
  destruct (Z.ltb_spec i (8 * Z.of_nat n)); [|done]. simpl.
  assert (0 ≤ i / 8 < Z.of_nat n ∧ 0 ≤ i mod 8 < 8 ∧ i = 8 * (i / 8) + i mod 8)
    as (?&?&?) by (Z.to_euclidean_division_equations; lia).
  rewrite decide_True by lia. rewrite wrap_testbit, Z.shiftr_spec by lia.
  replace (i mod 8 <? 8) with true by lia. simpl. f_equal. lia.
Qed.

Lemma load_store_ne n k m a b v : (a + Z.of_nat n ≤ b ∨ b + Z.of_nat k ≤ a) →
  load n (store k m b v) a = load n m a.
Proof. intros H. apply load_ext. intros j Hj. rewrite rd_store, decide_False by lia. done. Qed.

#[global] Instance store_proper n : Proper (mem_eq ==> eq ==> eq ==> mem_eq) (store n).
Proof. intros m1 m2 H a ? <- v ? <- b. rewrite !rd_store. by destruct (decide _). Qed.

(** A byte repeated in every position of a word: [0x0404...]. *)
Fixpoint rep (n : nat) (b : Z) : Z :=
  match n with O => 0 | S n' => Z.lor b (Z.shiftl (rep n' b) 8) end.

Lemma rep_bit n b k j : 0 ≤ b < 256 → 0 ≤ k < Z.of_nat n → 0 ≤ j < 8 →
  Z.testbit (rep n b) (8 * k + j) = Z.testbit b j.
Proof.
  intros Hb. revert k. induction n as [|n IH]; intros k Hk Hj; cbn [rep]; [lia|].
  rewrite Z.lor_spec, Z.shiftl_spec by lia. destruct (decide (k = 0)) as [->|Hk0].
  - rewrite (Z.testbit_neg_r _ (8 * 0 + j - 8)), orb_false_r by lia. f_equal; lia.
  - rewrite (testbit_ge_width 8 b) by lia. rewrite orb_false_l.
    replace (8 * k + j - 8) with (8 * (k - 1) + j) by lia. apply IH; lia.
Qed.

Lemma rep_byte n b k : 0 ≤ b < 256 → 0 ≤ k < Z.of_nat n → u8 (Z.shiftr (rep n b) (8 * k)) = b.
Proof.
  intros Hb Hk. bitwise i Hi. destruct (Z.ltb_spec i 8); simpl.
  - rewrite <-(rep_bit n b k i) by (done || lia). f_equal. lia.
  - symmetry. by apply (testbit_ge_width 8); lia.
Qed.

(** A word is a repeated byte exactly when each of its bytes is that byte. *)
Lemma load_rep_iff n m a b : 0 ≤ b < 256 →
  load n m a = rep n b ↔ ∀ k, 0 ≤ k < Z.of_nat n → rd m (a + k) = b.
Proof.
  intros Hb. split.
  - intros H k Hk. rewrite <-(load_byte n) by done. by rewrite H, rep_byte.
  - intros H. assert (0 ≤ rep n b < 2 ^ (8 * Z.of_nat n)) as Hr.
    { clear H. induction n as [|n IH]; cbn [rep]; [done|].
      replace (2 ^ (8 * Z.of_nat (S n))) with (2 ^ 8 * 2 ^ (8 * Z.of_nat n))
        by (rewrite <-Z.pow_add_r by lia; f_equal; lia).
      rewrite Z.shiftl_mul_pow2, <-Z.lxor_lor, <-Z.add_nocarry_lxor by
        (lia || (rewrite <-Z.shiftl_mul_pow2 by lia; bitwise i Hi; rewrite Z.testbit_0_l;
         destruct (Z.ltb_spec i 8); [by rewrite (Z.testbit_neg_r _ (i - 8)), andb_false_r by lia
         |by rewrite (testbit_ge_width 8 b i) by lia])). lia. }
    bitwise i Hi. rewrite load_testbit by done.
    destruct (Z.ltb_spec i (8 * Z.of_nat n)); simpl.
    + rewrite H by (Z.to_euclidean_division_equations; lia).
      rewrite <-(rep_bit n b (i / 8)) by (Z.to_euclidean_division_equations; lia).
      f_equal. Z.to_euclidean_division_equations; lia.
    + symmetry. apply (testbit_ge_width (8 * Z.of_nat n)); lia.
Qed.

Lemma rd_store_rep n m a b x : 0 ≤ b < 256 →
  rd (store n m a (rep n b)) x = if decide (a ≤ x < a + Z.of_nat n) then b else rd m x.
Proof.
  intros Hb. rewrite rd_store. destruct (decide _); [|done]. by rewrite rep_byte by lia.
Qed.

(** ** Loops that rewrite consecutive blocks of memory

    If round [i] rewrites the bytes of block [i] pointwise and leaves the rest
    alone, the loop rewrites the whole range pointwise. *)
Lemma block_loop (step : mem → Z → mem) (h : Z → Z → Z) (base w n : Z) :
  0 < w → 0 ≤ n →
  (∀ m i a, 0 ≤ i < n → rd (step m i) a =
     if decide (base + w * i ≤ a < base + w * i + w) then h a (rd m a) else rd m a) →
  ∀ m a, rd (foldl step m (seqZ 0 n)) a =
     if decide (base ≤ a < base + w * n) then h a (rd m a) else rd m a.
Proof.
  intros Hw Hn Hstep m a.
  assert (∀ k, 0 ≤ k → k ≤ n → rd (foldl step m (seqZ 0 k)) a =
     if decide (base ≤ a < base + w * k) then h a (rd m a) else rd m a) as H; [|by apply H].
  apply (Z_up_ind (λ k, k ≤ n → _)).
  - intros _. rewrite decide_False by lia. done.
  - intros k Hk IH Hle. rewrite seqZ_snoc, foldl_app by lia. simpl.
    rewrite Hstep, IH by lia. rewrite Z.add_0_l.
    destruct (decide (base + w * k ≤ a < base + w * k + w)).
    + rewrite decide_False, decide_True by lia. done.
    + destruct (decide (base ≤ a < base + w * k)); [rewrite decide_True by lia|
        rewrite decide_False by lia]; done.
Qed.

(** The same for a loop over the byte offsets [0, s, 2s, ...]. *)
Lemma strided_loop (step : mem → Z → mem) (h : Z → Z → Z) (base w n : Z) :
  0 < w → 0 ≤ n →
  (∀ m i a, 0 ≤ i < n → rd (step m (w * i)) a =
     if decide (base + w * i ≤ a < base + w * i + w) then h a (rd m a) else rd m a) →
  ∀ m a, rd (foldl step m (strided n w)) a =
     if decide (base ≤ a < base + w * n) then h a (rd m a) else rd m a.
Proof.
  intros Hw Hn Hstep m a. unfold strided. rewrite foldl_fmap.
  by apply (block_loop (λ m i, step m (w * i))).
Qed.

Lemma rd_wr_block m d i v a :
  rd (wr m (d + i) v) a =
  if decide (d + 1 * i ≤ a < d + 1 * i + 1) then u8 v else rd m a.
Proof.
  rewrite rd_wr. destruct (decide (d + i = a)).
  - by rewrite decide_True by lia.
  - by rewrite decide_False by lia.
Qed.

Lemma rd_memcpy m d src s n a : 0 ≤ n →
  rd (memcpy m d src s n) a =
  if decide (d ≤ a < d + n) then rd src (s + (a - d)) else rd m a.
Proof.
  intros Hn. unfold memcpy.
  rewrite (block_loop _ (λ a _, rd src (s + (a - d))) d 1 n); [|lia|done|].
  { by rewrite Z.mul_1_l. }
  intros m' i b Hi. rewrite rd_wr_block. destruct (decide _); [|done].
  rewrite wrap_small by apply rd_range. f_equal. lia.
Qed.

Lemma rd_memset m d v n a : 0 ≤ n →
  rd (memset m d v n) a = if decide (d ≤ a < d + n) then u8 v else rd m a.
Proof.
  intros Hn. unfold memset.
  rewrite (block_loop _ (λ _ _, u8 v) d 1 n); [|lia|done|].
  { by rewrite Z.mul_1_l. }
  intros m' i b Hi. apply rd_wr_block.
Qed.

(** ** Shadow addresses *)

Lemma shadow_involutive x : GET_ORIGINAL_OF (GET_SHADOW_OF x) = x.
Proof. unfold GET_ORIGINAL_OF, GET_SHADOW_OF. by rewrite Z.lxor_assoc, Z.lxor_nilpotent, Z.lxor_0_r. Qed.

Lemma shadow_injective x y : GET_SHADOW_OF x = GET_SHADOW_OF y → x = y.
Proof.
  intros H. rewrite <-(shadow_involutive x), <-(shadow_involutive y). by f_equal.
Qed.

Lemma shadow_split q r : 0 ≤ r < 2 ^ 45 →
  GET_SHADOW_OF (2 ^ 45 * q + r) = 2 ^ 45 * Z.lxor q 1 + r.
Proof.
  intros Hr. unfold GET_SHADOW_OF. change SHADOW_MASK with (2 ^ 45 * 1 + 0).
  assert (∀ x s, 0 ≤ s < 2 ^ 45 → 2 ^ 45 * x + s = Z.lor (Z.shiftl x 45) s) as E.
  { intros x s Hs. rewrite Z.shiftl_mul_pow2, Z.mul_comm by lia.
    rewrite <-Z.lxor_lor, <-Z.add_nocarry_lxor; [done| |].
    all: rewrite <-Z.shiftl_mul_pow2 by lia; bitwise i Hi; rewrite Z.testbit_0_l;
      destruct (Z.ltb_spec i 45);
      [by rewrite (Z.testbit_neg_r _ (i - 45)) by lia
      |by rewrite (testbit_ge_width 45 s i), andb_false_r by lia]. }
  rewrite !E by lia. bitwise i Hi. rewrite Z.testbit_0_l, orb_false_r.
  destruct (Z.ltb_spec i 45).
  - rewrite !(Z.testbit_neg_r _ (i - 45)) by lia. by destruct (Z.testbit r i).
  - rewrite (testbit_ge_width 45 r i) by lia. by rewrite !orb_false_r.
Qed.

(** Two addresses in the same [2^45]-byte half keep their distance. *)
Definition shadow_room (x n : Z) : Prop := x mod 2 ^ 45 + n ≤ 2 ^ 45.

Lemma shadow_add x n k :
  shadow_room x n → 0 ≤ k < n → GET_SHADOW_OF (x + k) = GET_SHADOW_OF x + k.
Proof.
  unfold shadow_room. intros Hroom Hk.
  pose proof (Z.div_mod x (2 ^ 45) ltac:(lia)) as Hdm.
  pose proof (Z.mod_pos_bound x (2 ^ 45) ltac:(lia)).
  rewrite Hdm. rewrite <-Z.add_assoc, !shadow_split by lia. lia.
Qed.

(** A user address and its shadow are never the same byte. *)
Lemma shadow_neq x : GET_SHADOW_OF x ≠ x.
Proof.
  unfold GET_SHADOW_OF. intros H.
  assert (Z.lxor x (Z.lxor x SHADOW_MASK) = 0) as E by (rewrite H; apply Z.lxor_nilpotent).
  by rewrite <-Z.lxor_assoc, Z.lxor_nilpotent, Z.lxor_0_l in E.
Qed.

(** ** Rounding *)

Lemma ROUND_DOWN_spec n j : 0 ≤ j < 64 → 0 ≤ n < 2 ^ 64 →
  ROUND_DOWN n (2 ^ j) = n - n mod 2 ^ j.
Proof.
  intros Hj Hn. unfold ROUND_DOWN. rewrite (wrap_small 64 n) by done.
  replace (n - n mod 2 ^ j) with (Z.shiftl (Z.shiftr n j) j).
  2:{ rewrite Z.shiftl_mul_pow2, Z.shiftr_div_pow2 by lia.
      pose proof (Z.div_mod n (2 ^ j) ltac:(lia)). lia. }
  replace (2 ^ j - 1) with (Z.ones j) by (rewrite Z.ones_equiv; lia).
  bitwise i Hi. destruct (Z.ltb_spec i j).
  - rewrite Z.ones_spec_low, (Z.testbit_neg_r _ (i - j)) by lia. simpl.
    by rewrite andb_false_r.
  - rewrite Z.ones_spec_high by lia. autorewrite with smtx_bits.
    replace (i - j + j) with i by lia. destruct (Z.ltb_spec i 64); [done|].
    by rewrite (testbit_ge_width 64 n i) by lia.
Qed.

Lemma ROUND_UP_spec n j : 0 ≤ j < 64 → 0 ≤ n → n + 2 ^ j ≤ 2 ^ 64 →
  n ≤ ROUND_UP n (2 ^ j) < n + 2 ^ j ∧ ROUND_UP n (2 ^ j) mod 2 ^ j = 0.
Proof.
  intros Hj Hn Hb. unfold ROUND_UP.
  assert (0 < 2 ^ j) by lia.
  rewrite (wrap_small 64) by lia. rewrite ROUND_DOWN_spec by lia.
  pose proof (Z.mod_pos_bound (n + (2 ^ j - 1)) (2 ^ j) ltac:(lia)).
  split; [lia|]. rewrite Zminus_mod, Zmod_mod, Z.sub_diag. by apply Z.mod_0_l; lia.
Qed.

(** [x & PAGE_MASK] clears the offset in the page. *)
Lemma PAGE_MASK_spec x : 0 ≤ x < 2 ^ 64 → Z.land x PAGE_MASK = x - x mod PAGE_SIZE.
Proof.
  intros Hx. change PAGE_SIZE with (2 ^ 12). rewrite <-(ROUND_DOWN_spec x 12) by lia.
  unfold ROUND_DOWN. rewrite (wrap_small 64 x), Z.land_comm by done. done.
Qed.

Lemma land_ff x : Z.land x 0xff = u8 x.
Proof. change 0xff with (Z.ones 8). by rewrite Z.land_ones by lia. Qed.

#[global] Arguments load : simpl never.
#[global] Arguments store : simpl never.
#[global] Arguments rep : simpl never.
#[global] Arguments memset : simpl never.
#[global] Arguments memcpy : simpl never.

(** The shadow of an address is [2^45] bytes away. *)
Lemma lxor_1 q : Z.lxor q 1 = q + 1 ∨ Z.lxor q 1 = q - 1.
Proof.
  assert (∀ p, p mod 2 = 0 → Z.lxor p 1 = p + 1) as E.
  { intros p Hp. symmetry. apply Z.add_nocarry_lxor.
    change 1 with (Z.ones 1). by rewrite Z.land_ones by lia. }
  assert (q mod 2 = 0 ∨ (q - 1) mod 2 = 0) as [H|H] by (Z.to_euclidean_division_equations; lia).
  - left. by apply E.
  - right. rewrite <-(Z.sub_add 1 q) at 1. rewrite <-E by done.
    by rewrite Z.lxor_assoc, Z.lxor_nilpotent, Z.lxor_0_r.
Qed.

Lemma shadow_dist x : GET_SHADOW_OF x = x + 2 ^ 45 ∨ GET_SHADOW_OF x = x - 2 ^ 45.
Proof.
  pose proof (Z.div_mod x (2 ^ 45) ltac:(lia)) as Hdm.
  pose proof (Z.mod_pos_bound x (2 ^ 45) ltac:(lia)).
  rewrite Hdm, shadow_split by lia. destruct (lxor_1 (x / 2 ^ 45)) as [->| ->]; lia.
Qed.
