(* ===== verification/Shadow.v ===== *)
(** Shadow metadata of versioned memory accesses ([smtx/memops.cpp]).

    Every byte of user memory has a byte of metadata at [GET_SHADOW_OF]: bit 2
    records a load, bit 1 a store, bit 0 that a load came before the first
    store.  The 2-, 4- and 8-byte hooks work on whole words; the lemmas of this
    file show that each of them does, for every byte it covers, what the 1-byte
    hook does, and that a trace of hooks computes the access history. *)
From S2P Require Import Prelude Machine.

(** ** The hooks *)

Definition ver_read1 (m : mem) (ptr : Z) : mem :=
  let shadow := GET_SHADOW_OF ptr in
  let access := load 1 m shadow in
  store 1 m shadow (u8 (Z.lor access 0x04)).

Definition ver_read2 (m : mem) (ptr : Z) : mem :=
  let shadow := GET_SHADOW_OF ptr in
  let access := load 2 m shadow in
  store 2 m shadow (u16 (Z.lor access 0x0404)).

Definition ver_read4 (m : mem) (ptr : Z) : mem :=
  let shadow := GET_SHADOW_OF ptr in
  let access := load 4 m shadow in
  store 4 m shadow (Z.lor access 0x04040404).

Definition ver_read8 (m : mem) (ptr : Z) : mem :=
  let shadow := GET_SHADOW_OF ptr in
  let access := load 8 m shadow in
  store 8 m shadow (Z.lor access 0x0404040404040404).

(** The first statement of [ver_read] is [return]. *)
Definition ver_read (m : mem) (ptr size : Z) : mem := m.

Definition ver_write1 (m : mem) (ptr : Z) : mem :=
  let shadow := GET_SHADOW_OF ptr in
  let access := load 1 m shadow in
  if Z.land access 0x02 =? 0x02 then m else
  let mask1 := u8 (Z.shiftr access 2) in
  let mask2 := u8 (Z.lnot (Z.shiftr access 1)) in
  let mask := Z.land (Z.land mask1 mask2) 0x1 in
  store 1 m shadow (Z.lor (Z.lor access 0x02) mask).

Definition ver_write2 (m : mem) (ptr : Z) : mem :=
  let shadow := GET_SHADOW_OF ptr in
  let access := load 2 m shadow in
  if Z.land access 0x0202 =? 0x0202 then m else
  let mask1 := u16 (Z.shiftr access 2) in
  let mask2 := u16 (Z.lnot (Z.shiftr access 1)) in
  let mask := Z.land (Z.land mask1 mask2) 0x0101 in
  store 2 m shadow (Z.lor (Z.lor access 0x0202) mask).

Definition ver_write4 (m : mem) (ptr : Z) : mem :=
  let shadow := GET_SHADOW_OF ptr in
  let access := load 4 m shadow in
  if Z.land access 0x02020202 =? 0x02020202 then m else
  let mask1 := Z.shiftr access 2 in
  let mask2 := not_w 32 (Z.shiftr access 1) in
  let mask := Z.land (Z.land mask1 mask2) 0x01010101 in
  store 4 m shadow (Z.lor (Z.lor access 0x02020202) mask).

Definition ver_write8 (m : mem) (ptr : Z) : mem :=
  let shadow := GET_SHADOW_OF ptr in
  let access := load 8 m shadow in
  if Z.land access 0x0202020202020202 =? 0x0202020202020202 then m else
  let mask1 := Z.shiftr access 2 in
  let mask2 := not_w 64 (Z.shiftr access 1) in
  let mask := Z.land (Z.land mask1 mask2) 0x0101010101010101 in
  store 8 m shadow (Z.lor (Z.lor access 0x0202020202020202) mask).

(** Eight bytes per round, then the remaining bytes one by one. *)
Definition ver_write (m : mem) (ptr size : Z) : mem :=
  let rem := Z.land size 0x7 in
  let z := size - rem in
  let m := foldl (λ m i, ver_write8 m (ptr + i)) m (strided (z / 8) 8) in
  foldl (λ m i, ver_write1 m (ptr + i)) m (seqZ z rem).

Definition ver_memmove (m : mem) (write_ptr size read_ptr : Z) : mem :=
  ver_write (ver_read m read_ptr size) write_ptr size.

(** ** Bytewise behaviour *)

(** What the 1-byte hooks do to a byte of metadata. *)
Definition read_byte (b : Z) : Z := Z.lor b 4.
Definition write_byte (b : Z) : Z :=
  Z.lor (Z.lor b 2) (Z.land (Z.land (Z.shiftr b 2) (Z.lnot (Z.shiftr b 1))) 1).

(** A store of [n] bytes whose byte [k] is [f] of the byte it replaces. *)
Definition bytewise (n : nat) (f : Z → Z) (s : Z) (m m' : mem) : Prop :=
  ∀ a, rd m' a = if decide (s ≤ a < s + Z.of_nat n) then f (rd m a) else rd m a.

(** A property of bytes can be checked on all of them. *)
Lemma byte_forall (P : Z → bool) :
  forallb P (seqZ 0 256) = true → ∀ b, 0 ≤ b < 256 → P b = true.
Proof.
  intros H b Hb. rewrite forallb_forall in H. apply H, list_elem_of_In, elem_of_seqZ. lia.
Qed.

Lemma read_byte_range b : 0 ≤ b < 256 → 0 ≤ read_byte b < 256.
Proof.
  intros Hb.
  assert ((0 <=? read_byte b) && (read_byte b <? 256) = true) as H.
  { revert b Hb. apply byte_forall. by vm_compute. }
  apply andb_prop in H as [?%Z.leb_le ?%Z.ltb_lt]. lia.
Qed.

Lemma bit_cases j : 0 ≤ j < 8 →
  j = 0 ∨ j = 1 ∨ j = 2 ∨ j = 3 ∨ j = 4 ∨ j = 5 ∨ j = 6 ∨ j = 7.
Proof. lia. Qed.

(** Equality of a byte of a word with a byte, checked on the eight bits. *)
Lemma byte_of_word_eq v k b :
  0 ≤ k → 0 ≤ b < 256 →
  (∀ j, 0 ≤ j < 8 → Z.testbit v (8 * k + j) = Z.testbit b j) →
  u8 (Z.shiftr v (8 * k)) = b.
Proof.
  intros Hk Hb H. bitwise i Hi. destruct (Z.ltb_spec i 8); simpl.
  - rewrite <-H by lia. f_equal; lia.
  - by rewrite (testbit_ge_width 8 b) by lia.
Qed.

Lemma write_byte_range b : 0 ≤ b < 256 → 0 ≤ write_byte b < 256.
Proof.
  intros Hb.
  assert ((0 <=? write_byte b) && (write_byte b <? 256) = true) as H.
  { revert b Hb. apply byte_forall. by vm_compute. }
  apply andb_prop in H as [?%Z.leb_le ?%Z.ltb_lt]. lia.
Qed.

Lemma write_byte_written b : 0 ≤ b < 256 → Z.testbit b 1 = true → write_byte b = b.
Proof.
  intros Hb Ht. assert ((negb (Z.testbit b 1) || (write_byte b =? b)) = true) as H.
  { clear Ht. revert b Hb. apply byte_forall. by vm_compute. }
  rewrite Ht in H. by apply Z.eqb_eq in H.
Qed.

(** The word of a wide load hook, and of a wide store hook. *)
Lemma read_word n m s v :
  (∀ i, 0 ≤ i < 8 * Z.of_nat n →
     Z.testbit v i = Z.testbit (Z.lor (load n m s) (rep n 4)) i) →
  bytewise n read_byte s m (store n m s v).
Proof.
  intros Hv a. rewrite rd_store. destruct (decide _) as [Ha|]; [|done].
  replace (rd m a) with (rd m (s + (a - s))) by (f_equal; lia).
  apply byte_of_word_eq; [lia|apply read_byte_range, rd_range|]. intros j Hj.
  rewrite Hv, Z.lor_spec, load_bit, rep_bit by lia.
  unfold read_byte. by rewrite Z.lor_spec.
Qed.

Lemma write_word n m s v :
  (∀ i, 0 ≤ i < 8 * Z.of_nat n → Z.testbit v i =
     Z.testbit (load n m s) i || Z.testbit (rep n 2) i ||
     Z.testbit (load n m s) (i + 2) && negb (Z.testbit (load n m s) (i + 1)) &&
       Z.testbit (rep n 1) i) →
  bytewise n write_byte s m (store n m s v).
Proof.
  intros Hv a. rewrite rd_store. destruct (decide _) as [Ha|]; [|done].
  replace (rd m a) with (rd m (s + (a - s))) by (f_equal; lia).
  apply byte_of_word_eq; [lia|apply write_byte_range, rd_range|]. intros j Hj.
  rewrite Hv, load_bit, !rep_bit by lia. unfold write_byte.
  rewrite !Z.lor_spec, !Z.land_spec, Z.shiftr_spec, Z.lnot_spec, Z.shiftr_spec by lia.
  destruct (decide (j = 0)) as [->|Hj0].
  - rewrite <-!Z.add_assoc, !load_bit by lia. done.
  - replace (Z.testbit 1 j) with false
      by (destruct (bit_cases j Hj) as [->|[->|[->|[->|[->|[->|[->| ->]]]]]]]; done || lia).
    by rewrite !andb_false_r.
Qed.

(** All the bytes already stored to: the hook returns early. *)
Lemma write_word_early n m s :
  Z.land (load n m s) (rep n 2) = rep n 2 → bytewise n write_byte s m m.
Proof.
  intros H a. destruct (decide _) as [Ha|]; [|done].
  rewrite write_byte_written; [done|apply rd_range|].
  assert (Z.testbit (Z.land (load n m s) (rep n 2)) (8 * (a - s) + 1) = true) as Hb.
  { rewrite H, rep_bit by lia. done. }
  rewrite Z.land_spec, load_bit, rep_bit in Hb by lia.
  apply andb_prop in Hb as [Hb _]. rewrite <-Hb. do 2 f_equal. lia.
Qed.

Ltac word_bits :=
  intros i Hi; autorewrite with smtx_bits; unfold not_w;
  autorewrite with smtx_bits;
  repeat match goal with
  | |- context [?x <? ?w] => replace (x <? w) with true by zbool
  end; rewrite ?andb_true_l; done.

Lemma ver_read1_bytes m p : bytewise 1 read_byte (GET_SHADOW_OF p) m (ver_read1 m p).
Proof. apply read_word. change (rep 1 4) with 4. word_bits. Qed.
Lemma ver_read2_bytes m p : bytewise 2 read_byte (GET_SHADOW_OF p) m (ver_read2 m p).
Proof. apply read_word. change (rep 2 4) with 0x0404. word_bits. Qed.
Lemma ver_read4_bytes m p : bytewise 4 read_byte (GET_SHADOW_OF p) m (ver_read4 m p).
Proof. apply read_word. change (rep 4 4) with 0x04040404. word_bits. Qed.
Lemma ver_read8_bytes m p : bytewise 8 read_byte (GET_SHADOW_OF p) m (ver_read8 m p).
Proof. apply read_word. change (rep 8 4) with 0x0404040404040404. word_bits. Qed.

(** A wide store hook with its early return. *)
Lemma write_hook n m s v c :
  rep n 2 = c →
  (∀ i, 0 ≤ i < 8 * Z.of_nat n → Z.testbit v i =
     Z.testbit (load n m s) i || Z.testbit (rep n 2) i ||
     Z.testbit (load n m s) (i + 2) && negb (Z.testbit (load n m s) (i + 1)) &&
       Z.testbit (rep n 1) i) →
  bytewise n write_byte s m
    (if Z.land (load n m s) c =? c then m else store n m s v).
Proof.
  intros <- Hv. destruct (Z.eqb_spec (Z.land (load n m s) (rep n 2)) (rep n 2)).
  - by apply write_word_early.
  - by apply write_word.
Qed.

Lemma ver_write1_bytes m p : bytewise 1 write_byte (GET_SHADOW_OF p) m (ver_write1 m p).
Proof.
  apply write_hook; [done|]. change (rep 1 2) with 2. change (rep 1 1) with 1. word_bits.
Qed.
Lemma ver_write2_bytes m p : bytewise 2 write_byte (GET_SHADOW_OF p) m (ver_write2 m p).
Proof.
  apply write_hook; [done|]. change (rep 2 2) with 0x0202. change (rep 2 1) with 0x0101. word_bits.
Qed.
Lemma ver_write4_bytes m p : bytewise 4 write_byte (GET_SHADOW_OF p) m (ver_write4 m p).
Proof.
  apply write_hook; [done|]. change (rep 4 2) with 0x02020202.
  change (rep 4 1) with 0x01010101. word_bits.
Qed.
Lemma ver_write8_bytes m p : bytewise 8 write_byte (GET_SHADOW_OF p) m (ver_write8 m p).
Proof.
  apply write_hook; [done|]. change (rep 8 2) with 0x0202020202020202.
  change (rep 8 1) with 0x0101010101010101. word_bits.
Qed.

Lemma land7_spec size : 0 ≤ size → Z.land size 7 = size mod 8.
Proof. intros. change 7 with (Z.ones 3). by rewrite Z.land_ones by lia. Qed.

(** The ranged store hook. *)
Lemma ver_write_bytes m p size : 0 ≤ size → shadow_room p size →
  ∀ a, rd (ver_write m p size) a =
    if decide (GET_SHADOW_OF p ≤ a < GET_SHADOW_OF p + size)
    then write_byte (rd m a) else rd m a.
Proof.
  intros Hs Hroom a. unfold ver_write. rewrite land7_spec by done.
  set (s := GET_SHADOW_OF p). set (z := size - size mod 8).
  assert (0 ≤ size mod 8 < 8 ∧ z = 8 * (z / 8) ∧ 0 ≤ z / 8) as (Hrem & Hz & Hz0).
  { unfold z. Z.to_euclidean_division_equations. lia. }
  replace (seqZ z (size mod 8)) with ((λ i, z + i) <$> seqZ 0 (size mod 8)).
  2:{ change (λ i, z + i) with (Z.add z). by rewrite fmap_add_seqZ, Z.add_0_r. }
  rewrite foldl_fmap.
  rewrite (block_loop _ (λ _ b, write_byte b) (s + z) 1 (size mod 8)); [|lia|lia|].
  2:{ intros m' i b Hi. rewrite (ver_write1_bytes m' _ b).
      unfold s. rewrite (shadow_add p size) by (done || lia).
      destruct (decide (_ ≤ b < _ + Z.of_nat 1)) as [?|?];
        [rewrite decide_True by lia|rewrite decide_False by lia]; done. }
  rewrite (strided_loop _ (λ _ b, write_byte b) s 8 (z / 8)); [|lia|lia|].
  2:{ intros m' i b Hi. rewrite (ver_write8_bytes m' _ b).
      unfold s. rewrite (shadow_add p size) by (done || lia).
      destruct (decide (_ ≤ b < _ + Z.of_nat 8)) as [?|?];
        [rewrite decide_True by lia|rewrite decide_False by lia]; done. }
  rewrite <-Hz. destruct (decide (s + z ≤ a < s + z + 1 * (size mod 8))).
  - rewrite decide_False, decide_True by lia. done.
  - destruct (decide (s ≤ a < s + z)); [rewrite decide_True by lia|
      rewrite decide_False by lia]; done.
Qed.

(** ** Traces of hooks compute the access history *)

(** What is to be known of a byte: loaded, stored to, loaded before the first
    store. *)
Record hist := Hist { h_read : bool; h_written : bool; h_rbw : bool }.
Definition hist0 : hist := Hist false false false.
Definition hist_read (h : hist) : hist := Hist true (h_written h) (h_rbw h).
Definition hist_write (h : hist) : hist :=
  Hist (h_read h) true (h_rbw h || h_read h && negb (h_written h)).

Definition encode (h : hist) : Z :=
  (if h_read h then 4 else 0) + (if h_written h then 2 else 0) + (if h_rbw h then 1 else 0).

(** The calls the compiler inserts. *)
Inductive memop :=
| Read1 (p : Z) | Read2 (p : Z) | Read4 (p : Z) | Read8 (p : Z) | ReadN (p n : Z)
| Write1 (p : Z) | Write2 (p : Z) | Write4 (p : Z) | Write8 (p : Z) | WriteN (p n : Z)
| Memmove (w n r : Z).

Definition exec_memop (m : mem) (op : memop) : mem :=
  match op with
  | Read1 p => ver_read1 m p | Read2 p => ver_read2 m p
  | Read4 p => ver_read4 m p | Read8 p => ver_read8 m p | ReadN p n => ver_read m p n
  | Write1 p => ver_write1 m p | Write2 p => ver_write2 m p
  | Write4 p => ver_write4 m p | Write8 p => ver_write8 m p | WriteN p n => ver_write m p n
  | Memmove w n r => ver_memmove m w n r
  end.

(** The bytes that the program loads at a call, and those whose loads the call
    records: the ranged load hook and the source of a move record none. *)
Definition reads (op : memop) : Z * Z :=
  match op with
  | Read1 p => (p, 1) | Read2 p => (p, 2) | Read4 p => (p, 4) | Read8 p => (p, 8)
  | ReadN p n => (p, n) | Memmove _ n r => (r, n)
  | _ => (0, 0)
  end.
Definition recorded (op : memop) : Z * Z :=
  match op with
  | Read1 p => (p, 1) | Read2 p => (p, 2) | Read4 p => (p, 4) | Read8 p => (p, 8)
  | _ => (0, 0)
  end.
(** The bytes that the program stores to, all of which are recorded. *)
Definition writes (op : memop) : Z * Z :=
  match op with
  | Write1 p => (p, 1) | Write2 p => (p, 2) | Write4 p => (p, 4) | Write8 p => (p, 8)
  | WriteN p n => (p, n) | Memmove w n _ => (w, n)
  | _ => (0, 0)
  end.
Definition covers (r : Z * Z) (a : Z) : bool := (r.1 <=? a) && (a <? r.1 + r.2).

Definition hist_op (a : Z) (h : hist) (op : memop) : hist :=
  if covers (recorded op) a then hist_read h
  else if covers (writes op) a then hist_write h else h.

(** Ranges have a size and lie in one half of the address space. *)
Definition op_ok (op : memop) : Prop :=
  0 ≤ (recorded op).2 ∧ shadow_room (recorded op).1 (recorded op).2 ∧
  0 ≤ (writes op).2 ∧ shadow_room (writes op).1 (writes op).2.

Lemma encode_read h : read_byte (encode h) = encode (hist_read h).
Proof. by destruct h as [[] [] []]. Qed.
Lemma encode_write h : write_byte (encode h) = encode (hist_write h).
Proof. by destruct h as [[] [] []]. Qed.

(** A range of shadow addresses is the image of the range of addresses. *)
Lemma shadow_range p n a : shadow_room p n →
  (GET_SHADOW_OF p ≤ GET_SHADOW_OF a < GET_SHADOW_OF p + n) ↔ (p ≤ a < p + n).
Proof.
  intros Hroom. split; intros H.
  - assert (a = p + (GET_SHADOW_OF a - GET_SHADOW_OF p)) as Ha; [|lia].
    apply shadow_injective. rewrite (shadow_add p n) by (done || lia). lia.
  - replace a with (p + (a - p)) by lia. rewrite (shadow_add p n) by (done || lia). lia.
Qed.

Lemma covers_spec p n a : covers (p, n) a = bool_decide (p ≤ a < p + n).
Proof.
  unfold covers. simpl. case_bool_decide.
  - apply andb_true_intro. split; [apply Z.leb_le|apply Z.ltb_lt]; lia.
  - apply andb_false_iff. destruct (Z.leb_spec p a); [right; zbool|by left].
Qed.

Lemma bytewise_shadow n f p m m' a :
  shadow_room p (Z.of_nat n) → bytewise n f (GET_SHADOW_OF p) m m' →
  rd m' (GET_SHADOW_OF a) =
  if covers (p, Z.of_nat n) a then f (rd m (GET_SHADOW_OF a)) else rd m (GET_SHADOW_OF a).
Proof.
  intros Hroom H. rewrite covers_spec, (H (GET_SHADOW_OF a)).
  destruct (decide _) as [E|E]; rewrite (shadow_range p _ a Hroom) in E.
  - by rewrite bool_decide_eq_true_2.
  - by rewrite bool_decide_eq_false_2.
Qed.

Lemma covers_none a : covers (0, 0) a = false.
Proof. rewrite covers_spec. apply bool_decide_eq_false_2. lia. Qed.

Lemma exec_memop_shadow m op a : op_ok op →
  rd (exec_memop m op) (GET_SHADOW_OF a) =
  if covers (recorded op) a then read_byte (rd m (GET_SHADOW_OF a))
  else if covers (writes op) a then write_byte (rd m (GET_SHADOW_OF a))
  else rd m (GET_SHADOW_OF a).
Proof.
  intros (Hr0 & Hr & Hw0 & Hw).
  assert (∀ p n m', 0 ≤ n → shadow_room p n →
    rd (ver_write m' p n) (GET_SHADOW_OF a) =
    if covers (p, n) a then write_byte (rd m' (GET_SHADOW_OF a)) else rd m' (GET_SHADOW_OF a)) as HN.
  { intros p n m' Hn Hroom. rewrite ver_write_bytes, covers_spec by done.
    destruct (decide _) as [E|E]; rewrite (shadow_range p _ a Hroom) in E.
    - by rewrite bool_decide_eq_true_2.
    - by rewrite bool_decide_eq_false_2. }
  destruct op; simpl in *; rewrite ?covers_none.
  - exact (bytewise_shadow 1 _ _ _ _ a Hr (ver_read1_bytes m p)).
  - exact (bytewise_shadow 2 _ _ _ _ a Hr (ver_read2_bytes m p)).
  - exact (bytewise_shadow 4 _ _ _ _ a Hr (ver_read4_bytes m p)).
  - exact (bytewise_shadow 8 _ _ _ _ a Hr (ver_read8_bytes m p)).
  - done.
  - exact (bytewise_shadow 1 _ _ _ _ a Hw (ver_write1_bytes m p)).
  - exact (bytewise_shadow 2 _ _ _ _ a Hw (ver_write2_bytes m p)).
  - exact (bytewise_shadow 4 _ _ _ _ a Hw (ver_write4_bytes m p)).
  - exact (bytewise_shadow 8 _ _ _ _ a Hw (ver_write8_bytes m p)).
  - by apply HN.
  - by apply HN.
Qed.

(** One call refines one step of the history of every byte. *)
Lemma exec_memop_hist m op a h :
  op_ok op → rd m (GET_SHADOW_OF a) = encode h →
  rd (exec_memop m op) (GET_SHADOW_OF a) = encode (hist_op a h op).
Proof.
  intros Hok Hh. rewrite exec_memop_shadow by done. unfold hist_op. rewrite Hh.
  destruct (covers (recorded op) a); [apply encode_read|].
  destruct (covers (writes op) a); [apply encode_write|done].
Qed.

Lemma trace_hist ops m a h :
  Forall op_ok ops → rd m (GET_SHADOW_OF a) = encode h →
  rd (foldl exec_memop m ops) (GET_SHADOW_OF a) = encode (foldl (hist_op a) h ops).
Proof.
  intros Hops. revert m h. induction Hops as [|op ops Hop _ IH]; intros m h Hh; simpl.
  - done.
  - by apply IH, exec_memop_hist.
Qed.

Definition reads_byte (a : Z) (op : memop) : Prop := covers (reads op) a = true.
Definition records_byte (a : Z) (op : memop) : Prop := covers (recorded op) a = true.
Definition writes_byte (a : Z) (op : memop) : Prop := covers (writes op) a = true.

Lemma records_not_writes a op : records_byte a op → ¬ writes_byte a op.
Proof. unfold records_byte, writes_byte. destruct op; simpl; rewrite ?covers_none; done. Qed.

Lemma hist_op_record a h op : records_byte a op → hist_op a h op = hist_read h.
Proof. unfold records_byte, hist_op. by intros ->. Qed.
Lemma hist_op_write a h op : writes_byte a op → hist_op a h op = hist_write h.
Proof.
  intros Hw. unfold hist_op. destruct (covers (recorded op) a) eqn:E.
  - by destruct (records_not_writes a op E).
  - by rewrite Hw.
Qed.
Lemma hist_op_other a h op : ¬ records_byte a op → ¬ writes_byte a op → hist_op a h op = h.
Proof.
  unfold records_byte, writes_byte, hist_op. intros ->%not_true_is_false ->%not_true_is_false. done.
Qed.

#[global] Instance records_byte_dec a op : Decision (records_byte a op).
Proof. unfold records_byte. apply _. Defined.
#[global] Instance writes_byte_dec a op : Decision (writes_byte a op).
Proof. unfold writes_byte. apply _. Defined.

(** The third flag of a history, in terms of the calls that were made: a load, as
    told by [R], came before the first store. *)
Definition rbw_trace (R : Z → memop → Prop) (a : Z) (ops : list memop) : Prop :=
  ∃ t1 r t2 w t3, ops = t1 ++ r :: t2 ++ w :: t3 ∧
    R a r ∧ writes_byte a w ∧
    Forall (λ o, ¬ writes_byte a o) (t1 ++ r :: t2).

Lemma rbw_trace_snoc a ops op :
  rbw_trace records_byte a (ops ++ [op]) ↔
  rbw_trace records_byte a ops ∨
  (writes_byte a op ∧ ¬ Exists (writes_byte a) ops ∧ Exists (records_byte a) ops).
Proof.
  split.
  - intros (t1 & r & t2 & w & t3 & E & Hr & Hw & Hf).
    destruct t3 as [|o t3 _] using rev_ind.
    + right. rewrite app_comm_cons, app_assoc in E. apply app_inj_tail in E as [-> <-].
      split; [done|]. rewrite <-Forall_Exists_neg. split; [done|].
      rewrite Exists_app, Exists_cons. auto.
    + left. exists t1, r, t2, w, t3. split; [|done].
      rewrite (app_comm_cons _ _ w), (app_assoc t2), (app_comm_cons _ _ r), (app_assoc t1) in E.
      by apply app_inj_tail in E as [-> _].
  - intros [(t1 & r & t2 & w & t3 & -> & ?)|(Hw & Hnw & Hr)].
    + exists t1, r, t2, w, (t3 ++ [op]). split; [|done].
      by rewrite <-!app_assoc, <-app_comm_cons, <-app_assoc, <-app_comm_cons.
    + apply Exists_exists in Hr as (r & (t1 & t2 & ->)%list_elem_of_split & Hr).
      exists t1, r, t2, op, []. rewrite <-app_assoc. repeat split; [done|done|].
      by apply Forall_Exists_neg.
Qed.

Lemma hist_flags a ops :
  let h := foldl (hist_op a) hist0 ops in
  (h_read h = true ↔ Exists (records_byte a) ops) ∧
  (h_written h = true ↔ Exists (writes_byte a) ops) ∧
  (h_rbw h = true ↔ rbw_trace records_byte a ops).
Proof.
  induction ops as [|op ops IH] using rev_ind; simpl.
  - rewrite !Exists_nil. repeat split; try done.
    intros (t1 & r & t2 & w & t3 & H & _). by destruct t1.
  - rewrite foldl_app. simpl in *. set (h := foldl (hist_op a) hist0 ops) in *.
    destruct IH as (IHr & IHw & IHb).
    rewrite !Exists_app, !Exists_cons, !Exists_nil, rbw_trace_snoc, <-IHr, <-IHw, <-IHb.
    pose proof (records_not_writes a op) as Hex.
    destruct (decide (writes_byte a op)) as [Hw|Hw];
      [|destruct (decide (records_byte a op)) as [Hr|Hr]].
    + rewrite hist_op_write by done. simpl.
      rewrite orb_true_iff, andb_true_iff, negb_true_iff, <-not_true_iff_false. tauto.
    + rewrite hist_op_record by done. simpl. tauto.
    + rewrite hist_op_other by done. tauto.
Qed.

Lemma encode_bits h :
  Z.testbit (encode h) 2 = h_read h ∧ Z.testbit (encode h) 1 = h_written h ∧
  Z.testbit (encode h) 0 = h_rbw h.
Proof. by destruct h as [[] [] []]. Qed.

(** A call that loads the byte without recording it. *)
Definition untracked (a : Z) (op : memop) : bool := covers (reads op) a && negb (covers (recorded op) a).

Lemma tracked_reads a op : untracked a op = false → reads_byte a op ↔ records_byte a op.
Proof.
  unfold untracked, reads_byte, records_byte. destruct op; cbn [reads recorded]; rewrite ?covers_none; try done;
    lazymatch goal with |- context [covers ?x a] => by destruct (covers x a) end.
Qed.

Lemma tracked_trace a ops : Forall (λ op, untracked a op = false) ops →
  (Exists (records_byte a) ops ↔ Exists (reads_byte a) ops) ∧ (rbw_trace records_byte a ops ↔ rbw_trace reads_byte a ops).
Proof.
  rewrite Forall_forall. intros H. split.
  - rewrite !Exists_exists. by split; intros (op & Hop & Hr); exists op; (split; [done|]); apply (tracked_reads a op (H op Hop)).
  - split; intros (t1 & r & t2 & w & t3 & -> & Hr & Hrest); exists t1, r, t2, w, t3; (split; [done|]); (split; [|done]);
      by apply (tracked_reads a r), Hr; apply H, elem_of_app; right; left.
Qed.

(** [C30] A trace of memory hooks leaves in the shadow of every byte its access
    history, provided that no ranged load hook and no source of a move covers the
    byte (these loads are not recorded): from cleared metadata, bit 2 is set iff the
    trace loads the byte, bit 1 iff it stores to it, and bit 0 iff it loads it
    before the first store to it. *)
Theorem memops_trace_history ops m a :
  Forall op_ok ops → Forall (λ op, untracked a op = false) ops → rd m (GET_SHADOW_OF a) = 0 →
  let b := rd (foldl exec_memop m ops) (GET_SHADOW_OF a) in
  (Z.testbit b 2 = true ↔ Exists (reads_byte a) ops) ∧
  (Z.testbit b 1 = true ↔ Exists (writes_byte a) ops) ∧
  (Z.testbit b 0 = true ↔ rbw_trace reads_byte a ops).
Proof.
  intros Hok Htr H0 b. unfold b. rewrite (trace_hist ops m a hist0) by done.
  destruct (encode_bits (foldl (hist_op a) hist0 ops)) as (-> & -> & ->).
  destruct (tracked_trace a ops Htr) as [<- <-]. apply hist_flags.
Qed.

Lemma memops_trace_history_witness :
  Z.testbit (rd (foldl exec_memop ∅ [ReadN 0x1003 32; Read4 0x1000; Write8 0x0ffc]) (GET_SHADOW_OF 0x1002)) 0 = true.
Proof.
  apply (memops_trace_history [ReadN 0x1003 32; Read4 0x1000; Write8 0x0ffc] ∅ 0x1002).
  - repeat (apply List.Forall_cons || apply List.Forall_nil);
      unfold op_ok; split_and!; by vm_compute.
  - by repeat (apply List.Forall_cons || apply List.Forall_nil).
  - reflexivity.
  - exists [ReadN 0x1003 32], (Read4 0x1000), [], (Write8 0x0ffc), []. repeat split.
    repeat (apply List.Forall_cons || apply List.Forall_nil); discriminate.
Defined.

(** A ranged load of a byte leaves no trace of it. *)
Example ranged_load_untracked : untracked 0x1004 (ReadN 0x1003 32) = true ∧
  rd (exec_memop ∅ (ReadN 0x1003 32)) (GET_SHADOW_OF 0x1004) = 0.
Proof. by vm_compute. Qed.

Lemma write1_loop m p n a : 0 ≤ n → shadow_room p n →
  rd (foldl (λ m i, ver_write1 m (p + i)) m (seqZ 0 n)) a =
  if decide (GET_SHADOW_OF p ≤ a < GET_SHADOW_OF p + n) then write_byte (rd m a) else rd m a.
Proof.
  intros Hn Hroom.
  rewrite (block_loop _ (λ _ b, write_byte b) (GET_SHADOW_OF p) 1 n); [|lia|done|].
  - by rewrite Z.mul_1_l.
  - intros m' i b Hi. rewrite (ver_write1_bytes m' _ b), (shadow_add p n), Z.mul_1_l by (done || lia).
    done.
Qed.

(** The ranged store hook, which works eight bytes at a time and then
    byte by byte, leaves the same memory as calling the 1-byte hook on every
    byte of the range. *)
Theorem ver_write_is_byte_loop m p size :
  0 ≤ size → shadow_room p size →
  mem_eq (ver_write m p size) (foldl (λ m i, ver_write1 m (p + i)) m (seqZ 0 size)).
Proof. intros Hs Hroom a. by rewrite ver_write_bytes, write1_loop. Qed.

Lemma ver_write_is_byte_loop_witness :
  mem_eq (ver_write ∅ 0x7001 21) (foldl (λ m i, ver_write1 m (0x7001 + i)) ∅ (seqZ 0 21)).
Proof. apply ver_write_is_byte_loop; by vm_compute. Defined.
