(* ===== verification/Strategy.v ===== *)
(** Assignment of workers to pipeline stages ([strategy.cpp],
    [include/internals/strategy.h] and [run_iteration] of [loopevent.cpp]).

    A stage with replication factor [r] gets [r] consecutive worker ids;
    iteration [i] of the stage runs on the worker at offset [i mod r]. *)
From S2P Require Import Prelude Machine.

Record strategy := Strategy {
  num_stages : Z;
  stage2rep : gmap Z Z;
  wid2stage : gmap Z Z;
  stage2firstwid : gmap Z Z }.

(** Reading an array of [unsigned]. *)
Definition at_ (t : gmap Z Z) (i : Z) : Z := default 0 (t !! i).

Definition GET_MY_STAGE (g : strategy) (wid : Z) : Z := at_ (wid2stage g) wid.
Definition GET_NUM_STAGES (g : strategy) : Z := num_stages g.
Definition GET_FIRST_WID_OF_STAGE (g : strategy) (stage : Z) : Z := at_ (stage2firstwid g) stage.
Definition GET_REPLICATION_FACTOR (g : strategy) (stage : Z) : Z := at_ (stage2rep g) stage.
Definition GET_WID_OFFSET_IN_STAGE (g : strategy) (iter stage : Z) : Z :=
  iter mod at_ (stage2rep g) stage.

(** The inner loop: [for (j = 0; j < rep; j++) wid2stage[wid++] = i]. *)
Definition assign_stage (i r : Z) (st : Z * gmap Z Z) : Z * gmap Z Z :=
  foldl (λ '(wid, w2s) _, (wid + 1, <[wid := i]> w2s)) st (seqZ 0 r).

(** One round of the outer loop, on the counter and the two arrays. *)
Definition assign_round (s2r : gmap Z Z) (st : Z * gmap Z Z * gmap Z Z) (i : Z)
    : Z * gmap Z Z * gmap Z Z :=
  let '(wid, w2s, s2f) := st in
  let s2f := <[i := wid]> s2f in
  let '(wid, w2s) := assign_stage i (at_ s2r i) (wid, w2s) in
  (wid, w2s, s2f).

(** [inform_strategy(num_workers, num_stages, ...)]: [va] holds the variadic
    arguments; [None] is the failed final assertion. *)
Definition inform_strategy (num_workers : Z) (va : list Z) : option strategy :=
  let n := Z.of_nat (length va) in
  let s2r := foldl (λ t i, <[i := va !!! Z.to_nat i]> t) ∅ (seqZ 0 n) in
  let '(wid, w2s, s2f) := foldl (assign_round s2r) (0, ∅, ∅) (seqZ 0 n) in
  if wid =? num_workers then Some (Strategy n s2r w2s s2f) else None.

(** The worker that runs iteration [iter] of [stage]. *)
Definition wid_of_iter (g : strategy) (iter stage : Z) : Z :=
  GET_FIRST_WID_OF_STAGE g stage + u32 iter mod GET_REPLICATION_FACTOR g stage.

Definition run_iteration (g : strategy) (wid iter : Z) : bool :=
  let stage := GET_MY_STAGE g wid in
  let wid_offset := u32 iter mod GET_REPLICATION_FACTOR g stage in
  let target_wid := GET_FIRST_WID_OF_STAGE g stage + wid_offset in
  target_wid =? wid.

Definition pipeline_fill_iter (g : strategy) (wid iter : Z) : bool :=
  let stage := GET_MY_STAGE g wid in
  GET_FIRST_WID_OF_STAGE g stage + iter <? wid.

(** ** Well-formed assignments *)

(** Sum of the first [k] replication factors. *)
Definition before (va : list Z) (k : Z) : Z := foldr Z.add 0 (take (Z.to_nat k) va).

Record strategy_ok (g : strategy) (n_workers : Z) : Prop := {
  ok_rep : ∀ s, 0 ≤ s < num_stages g → 0 < GET_REPLICATION_FACTOR g s;
  ok_stage : ∀ w, 0 ≤ w < n_workers → 0 ≤ GET_MY_STAGE g w < num_stages g;
  ok_block : ∀ s w, 0 ≤ s < num_stages g →
    GET_FIRST_WID_OF_STAGE g s ≤ w < GET_FIRST_WID_OF_STAGE g s + GET_REPLICATION_FACTOR g s →
    0 ≤ w < n_workers ∧ GET_MY_STAGE g w = s;
  ok_first : ∀ w, 0 ≤ w < n_workers →
    GET_FIRST_WID_OF_STAGE g (GET_MY_STAGE g w) ≤ w <
    GET_FIRST_WID_OF_STAGE g (GET_MY_STAGE g w) + GET_REPLICATION_FACTOR g (GET_MY_STAGE g w);
  ok_order : ∀ s t, 0 ≤ s < t → t < num_stages g →
    GET_FIRST_WID_OF_STAGE g s + GET_REPLICATION_FACTOR g s ≤ GET_FIRST_WID_OF_STAGE g t }.

Lemma assign_stage_spec i r wid w2s : 0 ≤ r →
  assign_stage i r (wid, w2s) =
  (wid + r, foldl (λ t k, <[wid + k := i]> t) w2s (seqZ 0 r)).
Proof.
  revert r. unfold assign_stage. apply Z_up_ind.
  - simpl. by rewrite Z.add_0_r.
  - intros r Hr IH. rewrite seqZ_snoc, !foldl_app, IH by lia. simpl. f_equal. lia.
Qed.

Lemma insert_range (i wid : Z) (w2s : gmap Z Z) r w : 0 ≤ r →
  foldl (λ t k, <[wid + k := i]> t) w2s (seqZ 0 r) !! w =
  if decide (wid ≤ w < wid + r) then Some i else w2s !! w.
Proof.
  revert r. apply Z_up_ind.
  - simpl. rewrite decide_False by lia. done.
  - intros r Hr IH. rewrite seqZ_snoc, foldl_app by lia. simpl.
    destruct (decide (wid + r = w)) as [<-|Hne].
    + rewrite lookup_insert_eq, decide_True by lia. done.
    + rewrite lookup_insert_ne, IH by lia.
      destruct (decide _); [rewrite decide_True by lia|rewrite decide_False by lia]; done.
Qed.

Lemma stage2rep_spec (va : list Z) n i :
  foldl (λ t i, <[i := va !!! Z.to_nat i]> t) (∅ : gmap Z Z) (seqZ 0 n) !! i =
  if decide (0 ≤ i < n) then Some (va !!! Z.to_nat i) else None.
Proof.
  destruct (decide (0 ≤ n)) as [Hn|Hn].
  2:{ rewrite seqZ_nil by lia. rewrite decide_False by lia. done. }
  revert n Hn. apply Z_up_ind.
  - rewrite decide_False by lia. done.
  - intros n Hn IH. rewrite seqZ_snoc, foldl_app by lia. cbn [foldl]. rewrite Z.add_0_l.
    destruct (decide (n = i)) as [<-|Hne].
    + rewrite lookup_insert_eq, decide_True by lia. done.
    + rewrite lookup_insert_ne, IH by lia.
      destruct (decide _); [rewrite decide_True by lia|rewrite decide_False by lia]; done.
Qed.

Lemma before_succ va k : 0 ≤ k < Z.of_nat (length va) →
  before va (k + 1) = before va k + va !!! Z.to_nat k.
Proof.
  intros Hk. unfold before. replace (Z.to_nat (k + 1)) with (S (Z.to_nat k)) by lia.
  destruct (lookup_lt_is_Some_2 va (Z.to_nat k)) as [x Hx]; [lia|].
  rewrite (take_S_r _ _ x) by done. rewrite (list_lookup_total_correct _ _ x) by done.
  rewrite foldr_app. simpl. clear. induction (take (Z.to_nat k) va); simpl; lia.
Qed.

Lemma before_mono va j k : Forall (λ r, 0 < r) va → 0 ≤ j ≤ k → k ≤ Z.of_nat (length va) →
  before va j ≤ before va k.
Proof.
  intros Hpos [Hj Hjk]. assert (∃ d, k = j + d ∧ 0 ≤ d) as (d & -> & Hd)
    by (exists (k - j); lia). clear Hjk. revert d Hd.
  apply (Z_up_ind (λ d, _ → _)); [by rewrite Z.add_0_r|].
  intros d Hd IH Hk. rewrite Z.add_assoc, before_succ by lia.
  destruct (lookup_lt_is_Some_2 va (Z.to_nat (j + d))) as [x Hx]; [lia|].
  rewrite (list_lookup_total_correct _ _ x) by done.
  rewrite Forall_lookup in Hpos. specialize (Hpos _ _ Hx). specialize (IH ltac:(lia)). lia.
Qed.

(** The state of the assignment loop after [k] stages. *)
Lemma assign_loop (va : list Z) (s2r : gmap Z Z) k :
  Forall (λ r, 0 < r) va →
  (∀ i, 0 ≤ i < Z.of_nat (length va) → at_ s2r i = va !!! Z.to_nat i) →
  0 ≤ k ≤ Z.of_nat (length va) →
  ∃ w2s s2f, foldl (assign_round s2r) (0, ∅, ∅) (seqZ 0 k) = (before va k, w2s, s2f) ∧
    (∀ i, 0 ≤ i < k → s2f !! i = Some (before va i)) ∧
    (∀ i w, 0 ≤ i < k → before va i ≤ w < before va (i + 1) → w2s !! w = Some i) ∧
    (∀ w i, w2s !! w = Some i → 0 ≤ i < k ∧ before va i ≤ w < before va (i + 1)) ∧
    (∀ w, 0 ≤ w < before va k → is_Some (w2s !! w)).
Proof.
  intros Hpos Hrep [H0 Hk]. revert k H0 Hk.
  apply (Z_up_ind (λ k, k ≤ _ → _)).
  { intros _. exists ∅, ∅. split; [done|]. split_and!; try (intros; lia).
    - intros w i. by rewrite lookup_empty.
    - unfold before. simpl. lia. }
  intros k Hk IH Hle. destruct (IH ltac:(lia)) as (w2s & s2f & E & H1 & H2 & H3 & H4).
  rewrite seqZ_snoc, foldl_app, E by lia. cbn [foldl assign_round]. rewrite Z.add_0_l.
  rewrite Hrep by lia.
  destruct (lookup_lt_is_Some_2 va (Z.to_nat k)) as [r Hr]; [lia|].
  assert (before va (k + 1) = before va k + va !!! Z.to_nat k) as Hb by (apply before_succ; lia).
  assert (0 < va !!! Z.to_nat k) as Hrk.
  { rewrite (list_lookup_total_correct _ _ r) by done. by eapply Forall_lookup_1 in Hpos. }
  rewrite assign_stage_spec by lia. eexists _, _. split; [by rewrite Hb|].
  split_and!.
  - intros i Hi. destruct (decide (i = k)) as [->|]; [apply lookup_insert_eq|].
    rewrite lookup_insert_ne by lia. apply H1. lia.
  - intros i w Hi Hw. rewrite insert_range by lia. destruct (decide (i = k)) as [->|].
    + rewrite decide_True by lia. done.
    + pose proof (before_mono va (i + 1) k Hpos ltac:(lia) ltac:(lia)).
      rewrite decide_False by lia. apply H2; lia.
  - intros w i. rewrite insert_range by lia. destruct (decide _); [intros [= <-]; lia|].
    intros ?%H3. lia.
  - intros w Hw. rewrite insert_range by lia. destruct (decide _); [done|]. apply H4. lia.
Qed.

Lemma inform_strategy_ok n va g :
  Forall (λ r, 0 < r) va → inform_strategy n va = Some g → strategy_ok g n.
Proof.
  intros Hpos. unfold inform_strategy.
  set (len := Z.of_nat (length va)).
  set (s2r := foldl (λ t i, <[i := va !!! Z.to_nat i]> t) ∅ (seqZ 0 len)).
  assert (∀ i, 0 ≤ i < len → at_ s2r i = va !!! Z.to_nat i) as Hrep.
  { intros i Hi. unfold at_, s2r. rewrite stage2rep_spec, decide_True by lia. done. }
  destruct (assign_loop va s2r len Hpos Hrep ltac:(lia)) as (w2s & s2f & -> & H1 & H2 & H3 & H4).
  destruct (Z.eqb_spec (before va len) n) as [<-|]; [|done]. intros [= <-].
  assert (∀ s, 0 ≤ s < len → before va (s + 1) = before va s + at_ s2r s) as Hb.
  { intros s Hs. rewrite before_succ, Hrep by lia. done. }
  assert (∀ w s, w2s !! w = Some s → at_ w2s w = s) as Hat.
  { unfold at_. intros w s E. by rewrite E. }
  assert (∀ s, 0 ≤ s < len → at_ s2f s = before va s) as Hf.
  { intros s Hs. unfold at_. by rewrite (H1 s Hs). }
  assert (∀ s, 0 ≤ s < len → 0 ≤ before va s ∧ before va (s + 1) ≤ before va len) as Hr.
  { intros s Hs. split; [|apply before_mono; (done || lia)].
    change 0 with (before va 0). apply before_mono; (done || lia). }
  split; unfold GET_REPLICATION_FACTOR, GET_FIRST_WID_OF_STAGE, GET_MY_STAGE; simpl.
  - intros s Hs. rewrite Hrep by lia.
    destruct (lookup_lt_is_Some_2 va (Z.to_nat s)) as [r Hr']; [lia|].
    rewrite (list_lookup_total_correct _ _ r) by done. by apply (Forall_lookup_1 _ _ _ _ Hpos Hr').
  - intros w Hw. destruct (H4 w Hw) as [s Hs]. rewrite (Hat _ _ Hs). by apply (H3 w s).
  - intros s w Hs. rewrite Hf by lia. intros Hw. rewrite <-Hb in Hw by lia. specialize (Hr s Hs).
    split; [lia|]. by apply Hat, H2.
  - intros w Hw. destruct (H4 w Hw) as [s Hs]. rewrite (Hat _ _ Hs).
    apply H3 in Hs as [Hs ?]. rewrite Hf, <-Hb by lia. done.
  - intros s t Hst Ht. rewrite !Hf, <-Hb by lia. apply before_mono; (done || lia).
Qed.

(** ** Every iteration of every stage has exactly one worker *)

Lemma wid_of_iter_range g n iter stage : strategy_ok g n → 0 ≤ stage < num_stages g →
  GET_FIRST_WID_OF_STAGE g stage ≤ wid_of_iter g iter stage <
  GET_FIRST_WID_OF_STAGE g stage + GET_REPLICATION_FACTOR g stage.
Proof.
  intros Hok Hs. pose proof (ok_rep _ _ Hok _ Hs) as Hr. unfold wid_of_iter.
  pose proof (Z.mod_pos_bound (u32 iter) _ Hr). lia.
Qed.

Lemma wid_of_iter_stage g n iter stage : strategy_ok g n → 0 ≤ stage < num_stages g →
  0 ≤ wid_of_iter g iter stage < n ∧ GET_MY_STAGE g (wid_of_iter g iter stage) = stage.
Proof. intros Hok Hs. eapply ok_block; [done..|]. by eapply wid_of_iter_range. Qed.

(** [C31] After [inform_strategy] accepted the replication factors, every
    iteration of every stage is run by exactly one worker: the one that all
    communication functions compute as its target. *)
Theorem one_worker_per_iteration n va g iter stage :
  Forall (λ r, 0 < r) va → inform_strategy n va = Some g → 0 ≤ stage < num_stages g →
  ∀ wid, (0 ≤ wid < n ∧ GET_MY_STAGE g wid = stage ∧ run_iteration g wid iter = true)
         ↔ wid = wid_of_iter g iter stage.
Proof.
  intros Hpos Hg Hs wid. pose proof (inform_strategy_ok n va g Hpos Hg) as Hok.
  unfold run_iteration. split.
  - intros (_ & -> & H%Z.eqb_eq). done.
  - intros ->. destruct (wid_of_iter_stage g n iter stage Hok Hs) as [? Est].
    rewrite Est. split; [done|]. split; [done|]. by apply Z.eqb_eq.
Qed.

Lemma one_worker_per_iteration_witness :
  ∃ g, inform_strategy 5 [1; 3; 1] = Some g ∧ wid_of_iter g 7 1 = 2 ∧
  run_iteration g 2 7 = true.
Proof.
  destruct (inform_strategy 5 [1; 3; 1]) as [g|] eqn:E; [|discriminate E].
  assert (num_stages g = 3 ∧ wid_of_iter g 7 1 = 2) as [Hn Hw].
  { vm_compute in E. injection E as <-. by vm_compute. }
  exists g. split; [done|]. split; [exact Hw|].
  apply (one_worker_per_iteration 5 [1; 3; 1] g 7 1).
  - repeat (apply List.Forall_cons || apply List.Forall_nil); lia.
  - exact E.
  - lia.
  - by rewrite Hw.
Defined.

(** Rejection: the final assertion of [inform_strategy] fails exactly when
    the replication factors do not add up to the number of workers. *)
Theorem inform_strategy_total n va :
  Forall (λ r, 0 < r) va →
  (inform_strategy n va = None ↔ n ≠ foldr Z.add 0 va).
Proof.
  intros Hpos. unfold inform_strategy.
  set (len := Z.of_nat (length va)).
  set (s2r := foldl (λ t i, <[i := va !!! Z.to_nat i]> t) ∅ (seqZ 0 len)).
  assert (∀ i, 0 ≤ i < len → at_ s2r i = va !!! Z.to_nat i) as Hrep.
  { intros i Hi. unfold at_, s2r. rewrite stage2rep_spec, decide_True by lia. done. }
  destruct (assign_loop va s2r len Hpos Hrep ltac:(lia)) as (w2s & s2f & -> & _).
  replace (before va len) with (foldr Z.add 0 va).
  2:{ unfold before, len. by rewrite Nat2Z.id, firstn_all. }
  destruct (Z.eqb_spec (foldr Z.add 0 va) n); naive_solver.
Qed.

Lemma inform_strategy_total_witness : inform_strategy 4 [1; 2] = None.
Proof.
  apply inform_strategy_total.
  - repeat (apply List.Forall_cons || apply List.Forall_nil); lia.
  - simpl. lia.
Defined.
