(* ===== verification/Pages.v ===== *)
(** Page-level routines of the runtime: the SSE code that inspects, merges and
    validates pages ([utils.cpp], the static helpers of [smtx/units.cpp], and
    [clear_read] and [check_nrbw] of [loopevent.cpp]).

    The 128-bit intrinsics are modelled on integers below [2^128]; the
    equivalence lemmas relate every vectorised loop to the byte loop that the
    source keeps under [#if DEBUG_ON] or [#if 0]. *)
From S2P Require Import Prelude Machine Shadow Strategy.

(** ** SSE intrinsics *)

(** A word from [n] bytes. *)
Fixpoint pack (n : nat) (f : Z → Z) : Z :=
  match n with
  | O => 0
  | S n' => Z.lor (f 0) (Z.shiftl (pack n' (λ k, f (k + 1))) 8)
  end.

Definition byte_at (v k : Z) : Z := u8 (Z.shiftr v (8 * k)).

Definition mm_set_epi32 (e3 e2 e1 e0 : Z) : Z :=
  Z.lor (u32 e0) (Z.lor (Z.shiftl (u32 e1) 32)
    (Z.lor (Z.shiftl (u32 e2) 64) (Z.shiftl (u32 e3) 96))).
Definition mm_set1_epi8 (b : Z) : Z := pack 16 (λ _, u8 b).
Definition mm_sub_epi8 (a b : Z) : Z := pack 16 (λ k, u8 (byte_at a k - byte_at b k)).
Definition mm_andnot (a b : Z) : Z := Z.land (not_w 128 a) b.
Definition mm_test_all_zeros (a b : Z) : bool := Z.land a b =? 0.
Definition mm_testz (a b : Z) : bool := Z.land a b =? 0.
(** Store the bytes of [d] whose mask byte has its top bit set. *)
Definition mm_maskmoveu (d mask : Z) (m : mem) (p : Z) : mem :=
  foldl (λ m k, if Z.testbit (byte_at mask k) 7 then wr m (p + k) (byte_at d k) else m)
        m (seqZ 0 16).

(** [_mm_set_epi32((int)(x1 >> 32), (int)x1, (int)(x0 >> 32), (int)x0)]. *)
Definition mm_pair (x1 x0 : Z) : Z :=
  mm_set_epi32 (Z.shiftr x1 32) x1 (Z.shiftr x0 32) x0.

(** ** [utils.cpp] *)

Definition page_lanes : list Z := [0; 16; 32; 48; 64; 80; 96; 112].

Definition is_zero_page (m : mem) (ptr : Z) : bool :=
  forallb (λ i, forallb (λ j, let buf := load 16 m (ptr + i + j) in mm_testz buf buf)
                        page_lanes)
          (strided 32 128).

Definition set_zero_page (m : mem) (ptr : Z) : mem :=
  foldl (λ m i, foldl (λ m j, store 16 m (ptr + i + j) 0) m page_lanes)
        m (strided 32 128).

(** ** [smtx/units.cpp]: merging pages and words *)

(** [data] and [shadow] are the bytes of two packet chunks. *)
Definition update_page (m : mem) (addr : Z) (data shadow : mem) : mem :=
  foldl (λ m i,
    let m0 := u64 (Z.shiftl (load 8 shadow i) 6) in
    let m1 := u64 (Z.shiftl (load 8 shadow (i + 8)) 6) in
    let d0 := load 8 data i in
    let d1 := load 8 data (i + 8) in
    mm_maskmoveu (mm_pair d1 d0) (mm_pair m1 m0) m (addr + i))
    m (strided (PAGE_SIZE / 16) 16).

(** The byte loop of the debug build. *)
Definition update_page_debug (m : mem) (addr : Z) (data shadow : mem) : mem :=
  foldl (λ m i,
    if negb (Z.land (rd shadow i) 0x2 =? 0) then wr m (addr + i) (rd data i) else m)
    m (seqZ 0 PAGE_SIZE).

(** [shadow] and [value] are [int64_t] and shifted right once per byte. *)
Definition update_normal_packet (m : mem) (ptr value shadow : Z) : mem :=
  (foldl (λ '(m, value, shadow) i,
     let m := if negb (Z.land shadow 0x2 =? 0) then wr m (ptr + i) (Z.land value 0xff) else m in
     (m, Z.shiftr value 8, Z.shiftr shadow 8))
     (m, i64 value, i64 shadow) (seqZ 0 8)).1.1.

(** ** [smtx/units.cpp]: validation against the stage that wrote last *)

(** The reference value of a stage: conflicts are metadata at or above it. *)
Definition stage_ref (g : strategy) (stage : Z) : Z :=
  let new_stage_id := u8 (stage + 1) in
  if GET_REPLICATION_FACTOR g stage =? 1 then u8 (new_stage_id + 1) else new_stage_id.

(** [None]: the check failed.  The assertion that the packet has 8 bytes is in the
    caller. *)
Definition check_packet (g : strategy) (m : mem) (addr data shadow stage : Z) : option mem :=
  let new_stage_id := u8 (stage + 1) in
  let ref := stage_ref g stage in
  fmap (λ st, st.1.1)
  (fold_opt (λ '(m, data, shadow) i,
     let localshadow := GET_SHADOW_OF (addr + i) in
     if negb (Z.land shadow 0x1 =? 0) && (ref <=? rd m localshadow) then None else
     let m := if negb (Z.land shadow 0x2 =? 0)
              then wr (wr m (addr + i) (Z.land data 0xff)) localshadow new_stage_id
              else m in
     Some (m, Z.shiftr data 8, Z.shiftr shadow 8))
     (seqZ 0 8) (m, data, shadow)).

(** Runs off the end without a [return] when no byte conflicts: [None] stands
    for the explicit [return false], [Some tt] for that end. *)
Definition check_ro_page (g : strategy) (m : mem) (addr stage : Z) : option unit :=
  let ref := stage_ref g stage in
  fold_opt (λ _ i,
    let localshadow := GET_SHADOW_OF (addr + i) in
    if ref <=? rd m localshadow then None else Some tt)
    (seqZ 0 PAGE_SIZE) tt.

Definition check_page (g : strategy) (m : mem) (addr : Z) (data shadow : mem) (stage : Z)
    : option mem :=
  let new_stage_id := u8 (stage + 1) in
  let ref := stage_ref g stage in
  fold_opt (λ m i,
    let s0 := load 8 shadow i in
    let s1 := load 8 shadow (i + 8) in
    if (s0 =? 0) && (s1 =? 0) then Some m else
    (* check load *)
    let mask0 := mm_pair (u64 (Z.shiftl s1 7)) (u64 (Z.shiftl s0 7)) in
    let l0 := load 8 m (GET_SHADOW_OF (addr + i)) in
    let l1 := load 8 m (GET_SHADOW_OF (addr + (i + 8))) in
    let mask1 := mm_sub_epi8 (mm_pair l1 l0) (mm_set1_epi8 ref) in
    let mask := mm_andnot mask1 mask0 in
    if negb (mm_test_all_zeros mask (mm_set1_epi8 0x80)) then None else
    (* update *)
    let mask20 := mm_pair (u64 (Z.shiftl s1 6)) (u64 (Z.shiftl s0 6)) in
    let ds := mm_pair (load 8 data (i + 8)) (load 8 data i) in
    let m := mm_maskmoveu ds mask20 m (addr + i) in
    Some (mm_maskmoveu (mm_set1_epi8 new_stage_id) mask20 m (GET_SHADOW_OF (addr + i))))
    (strided (PAGE_SIZE / 16) 16) m.

(** The byte loop that the source keeps under [#if 0]. *)
Definition check_page_bytes (g : strategy) (m : mem) (addr : Z) (data shadow : mem) (stage : Z)
    : option mem :=
  let new_stage_id := u8 (stage + 1) in
  let ref := stage_ref g stage in
  fold_opt (λ m i,
    let localshadow := GET_SHADOW_OF (addr + i) in
    if negb (Z.land (rd shadow i) 0x1 =? 0) && (ref <=? rd m localshadow) then None else
    Some (if negb (Z.land (rd shadow i) 0x2 =? 0)
          then wr (wr m (addr + i) (rd data i)) localshadow new_stage_id
          else m))
    (seqZ 0 PAGE_SIZE) m.

(** ** [loopevent.cpp]: metadata of a page at the end of an iteration *)

(** One round of [clear_read] on 16 bytes of metadata, with the two counters. *)
Definition clear_read_round (shadow : Z) (st : Z * bool * mem) (i : Z) : Z * bool * mem :=
  let '(nonzero, readonly, m) := st in
  let s0 := load 8 m (shadow + i) in
  let s1 := load 8 m (shadow + i + 8) in
  if (s0 =? 0) && (s1 =? 0) then st else
  let nonzero := if negb (s0 =? 0) then u32 (nonzero + 1) else nonzero in
  let nonzero := if negb (s1 =? 0) then u32 (nonzero + 1) else nonzero in
  let readonly := if negb (Z.land s0 0xfbfbfbfbfbfbfbfb =? 0) ||
                     negb (Z.land s1 0xfbfbfbfbfbfbfbfb =? 0) then false else readonly in
  let mask0 := Z.land (Z.land (Z.shiftr s0 2) (not_w 64 (Z.shiftr s0 1))) 0x0101010101010101 in
  let mask1 := Z.land (Z.land (Z.shiftr s1 2) (not_w 64 (Z.shiftr s1 1))) 0x0101010101010101 in
  let m := store 8 m (shadow + i) (Z.lor (load 8 m (shadow + i)) (Z.land s0 mask0)) in
  let m := store 8 m (shadow + i + 8) (Z.lor (load 8 m (shadow + i + 8)) (Z.land s1 mask1)) in
  (nonzero, readonly, m).

Definition clear_read (m : mem) (shadow : Z) : Z * mem :=
  let '(nonzero, readonly, m) :=
    foldl (clear_read_round shadow) (0, true, m) (strided (PAGE_SIZE / 16) 16) in
  (if (readonly : bool) then 0 else nonzero, m).

Definition check_nrbw (m : mem) (shadow : Z) : bool :=
  forallb (λ i,
    let s0 := load 8 m (shadow + i) in
    let s1 := load 8 m (shadow + i + 8) in
    if (s0 =? 0) && (s1 =? 0) then true else
    mm_test_all_zeros (mm_pair s1 s0) (mm_set1_epi8 1))
    (strided (PAGE_SIZE / 16) 16).

(** ** Bytes of vectors *)

Lemma byte_at_range v k : 0 ≤ byte_at v k < 256.
Proof. apply u8_range. Qed.

Lemma byte_at_bit v k j : 0 ≤ k → 0 ≤ j < 8 → Z.testbit (byte_at v k) j = Z.testbit v (8 * k + j).
Proof.
  intros. unfold byte_at. rewrite wrap_testbit, Z.shiftr_spec by lia.
  replace (j <? 8) with true by lia. simpl. f_equal. lia.
Qed.

Lemma byte_eq a b : 0 ≤ a < 256 → 0 ≤ b < 256 →
  (∀ j, 0 ≤ j < 8 → Z.testbit a j = Z.testbit b j) → a = b.
Proof.
  intros Ha Hb H. bitwise j Hj. destruct (Z.ltb_spec j 8); [by apply H|].
  by rewrite !(testbit_ge_width 8) by lia.
Qed.

Lemma pack_bit n : ∀ f k j, (∀ i, 0 ≤ f i < 256) → 0 ≤ k < Z.of_nat n → 0 ≤ j < 8 →
  Z.testbit (pack n f) (8 * k + j) = Z.testbit (f k) j.
Proof.
  induction n as [|n IH]; intros f k j Hf Hk Hj; cbn [pack]; [lia|].
  rewrite Z.lor_spec, Z.shiftl_spec by lia. destruct (decide (k = 0)) as [->|Hk0].
  - rewrite (Z.testbit_neg_r _ (8 * 0 + j - 8)), orb_false_r by lia. f_equal; lia.
  - rewrite (testbit_ge_width 8 (f 0)) by (done || lia). rewrite orb_false_l.
    replace (8 * k + j - 8) with (8 * (k - 1) + j) by lia.
    rewrite IH by (done || lia). do 2 f_equal; lia.
Qed.

Lemma pack_high n : ∀ f i, (∀ k, 0 ≤ f k < 256) → 8 * Z.of_nat n ≤ i →
  Z.testbit (pack n f) i = false.
Proof.
  induction n as [|n IH]; intros f i Hf Hi; cbn [pack]; [apply Z.testbit_0_l|].
  rewrite Z.lor_spec, Z.shiftl_spec by lia.
  rewrite (testbit_ge_width 8 (f 0)) by (done || lia). apply IH; [done|lia].
Qed.

Lemma byte_at_pack n f k : (∀ i, 0 ≤ f i < 256) → 0 ≤ k < Z.of_nat n →
  byte_at (pack n f) k = f k.
Proof.
  intros Hf Hk. apply byte_eq; [apply byte_at_range|apply Hf|]. intros j Hj.
  rewrite byte_at_bit, pack_bit by (done || lia). done.
Qed.

Lemma byte_at_load n m a k : 0 ≤ k < Z.of_nat n → byte_at (load n m a) k = rd m (a + k).
Proof. apply load_byte. Qed.

Lemma mm_pair_bit x1 x0 i : 0 ≤ i < 128 →
  Z.testbit (mm_pair x1 x0) i = if i <? 64 then Z.testbit x0 i else Z.testbit x1 (i - 64).
Proof.
  intros Hi. unfold mm_pair, mm_set_epi32. autorewrite with smtx_bits.
  assert (∀ z k, Z.testbit (u32 z) (i - k) = (k <=? i) && (i - k <? 32) && Z.testbit z (i - k)) as E.
  { intros z k. destruct (Z.leb_spec k i); simpl.
    - by rewrite wrap_testbit by lia.
    - by rewrite Z.testbit_neg_r by lia. }
  rewrite !E.
  assert (i < 32 ∨ 32 ≤ i < 64 ∨ 64 ≤ i < 96 ∨ 96 ≤ i) as [?|[?|[?|?]]] by lia;
    repeat match goal with
    | |- context [?x <? ?y] =>
        first [ replace (x <? y) with true by zbool | replace (x <? y) with false by zbool ]
    | |- context [?x <=? ?y] =>
        first [ replace (x <=? y) with true by zbool | replace (x <=? y) with false by zbool ]
    end; simpl; rewrite ?orb_false_r, ?Z.shiftr_spec by lia; f_equal; lia.
Qed.

Lemma byte_at_pair x1 x0 k : 0 ≤ k < 16 →
  byte_at (mm_pair x1 x0) k = if k <? 8 then byte_at x0 k else byte_at x1 (k - 8).
Proof.
  intros Hk. apply byte_eq; [apply byte_at_range|case_match; apply byte_at_range|].
  intros j Hj. rewrite byte_at_bit, mm_pair_bit by lia. destruct (Z.ltb_spec k 8).
  - replace (8 * k + j <? 64) with true by zbool. by rewrite byte_at_bit by lia.
  - replace (8 * k + j <? 64) with false by zbool. rewrite byte_at_bit by lia. f_equal. lia.
Qed.

#[global] Arguments pack : simpl never.

(** Sixteen bytes loaded as two words. *)
Lemma byte_at_pair_load d i k : 0 ≤ k < 16 →
  byte_at (mm_pair (load 8 d (i + 8)) (load 8 d i)) k = rd d (i + k).
Proof.
  intros Hk. rewrite byte_at_pair by done. destruct (Z.ltb_spec k 8).
  - by rewrite byte_at_load by lia.
  - rewrite byte_at_load by lia. f_equal. lia.
Qed.

(** Shifting metadata left by [c] moves bit [7 - c] of every byte to its top. *)
Lemma pair_mask s i c k : 0 ≤ c ≤ 7 → 0 ≤ k < 16 →
  Z.testbit (byte_at (mm_pair (u64 (Z.shiftl (load 8 s (i + 8)) c))
                              (u64 (Z.shiftl (load 8 s i) c))) k) 7 =
  Z.testbit (rd s (i + k)) (7 - c).
Proof.
  intros Hc Hk. rewrite byte_at_pair by done.
  assert (∀ b q, 0 ≤ q < 8 → Z.testbit (byte_at (u64 (Z.shiftl (load 8 s b) c)) q) 7 =
    Z.testbit (rd s (b + q)) (7 - c)) as E.
  { intros b q Hq. rewrite byte_at_bit, wrap_testbit, Z.shiftl_spec by lia.
    replace (8 * q + 7 <? 64) with true by zbool. simpl.
    replace (8 * q + 7 - c) with (8 * q + (7 - c)) by lia. by apply load_bit; lia. }
  destruct (Z.ltb_spec k 8); rewrite E by lia; [done|]. f_equal. f_equal. lia.
Qed.

Lemma rd_maskmoveu d mask m p a :
  rd (mm_maskmoveu d mask m p) a =
  if decide (p ≤ a < p + 16)
  then if Z.testbit (byte_at mask (a - p)) 7 then byte_at d (a - p) else rd m a
  else rd m a.
Proof.
  unfold mm_maskmoveu.
  rewrite (block_loop _ (λ a b, if Z.testbit (byte_at mask (a - p)) 7
                                then byte_at d (a - p) else b) p 1 16); [|lia|lia|].
  - by rewrite Z.mul_1_l.
  - intros m' k b Hk. destruct (decide (p + 1 * k ≤ b < p + 1 * k + 1)).
    + replace (b - p) with k by lia. replace b with (p + k) by lia.
      destruct (Z.testbit _ 7); [|done]. rewrite rd_wr_eq. apply wrap_small, byte_at_range.
    + destruct (Z.testbit _ 7); [|done]. by rewrite rd_wr_ne by lia.
Qed.

Lemma land_bit x j : 0 ≤ j → negb (Z.land x (2 ^ j) =? 0) = Z.testbit x j.
Proof.
  intros Hj. destruct (Z.testbit x j) eqn:E.
  - destruct (Z.eqb_spec (Z.land x (2 ^ j)) 0) as [H|]; [|done].
    assert (Z.testbit (Z.land x (2 ^ j)) j = true) as Ht.
    { by rewrite Z.land_spec, E, Z.pow2_bits_true by lia. }
    by rewrite H, Z.testbit_0_l in Ht.
  - replace (Z.land x (2 ^ j)) with 0; [done|]. symmetry. bitwise i Hi.
    rewrite Z.testbit_0_l. destruct (decide (i = j)) as [->|]; [by rewrite E|].
    by rewrite Z.pow2_bits_false, andb_false_r by lia.
Qed.
Lemma land_bit0 x : negb (Z.land x 0x1 =? 0) = Z.testbit x 0.
Proof. apply (land_bit x 0). lia. Qed.
Lemma land_bit1 x : negb (Z.land x 0x2 =? 0) = Z.testbit x 1.
Proof. apply (land_bit x 1). lia. Qed.

(** ** [update_page] *)

(** Bytes of a page whose metadata has bit 1 come from [data]. *)
Definition merged (m : mem) (addr n : Z) (data shadow : mem) (a : Z) : Z :=
  if decide (addr ≤ a < addr + n)
  then if Z.testbit (rd shadow (a - addr)) 1 then rd data (a - addr) else rd m a
  else rd m a.

Lemma update_page_merged m addr data shadow a :
  rd (update_page m addr data shadow) a = merged m addr PAGE_SIZE data shadow a.
Proof.
  unfold update_page, merged.
  rewrite (strided_loop _ (λ a b, if Z.testbit (rd shadow (a - addr)) 1
             then rd data (a - addr) else b) addr 16 (PAGE_SIZE / 16)); [done|lia|done|].
  intros m' i b Hi. rewrite rd_maskmoveu.
  destruct (decide (addr + 16 * i ≤ b < addr + 16 * i + 16)); [|done].
  rewrite (pair_mask shadow (16 * i) 6), byte_at_pair_load by lia.
  replace (16 * i + (b - (addr + 16 * i))) with (b - addr) by lia. done.
Qed.

Lemma update_page_debug_merged m addr data shadow a :
  rd (update_page_debug m addr data shadow) a = merged m addr PAGE_SIZE data shadow a.
Proof.
  unfold update_page_debug, merged.
  rewrite (block_loop _ (λ a b, if Z.testbit (rd shadow (a - addr)) 1
             then rd data (a - addr) else b) addr 1 PAGE_SIZE); [done|lia|done|].
  intros m' i b Hi. rewrite land_bit1.
  destruct (decide (addr + 1 * i ≤ b < addr + 1 * i + 1)).
  - replace (b - addr) with i by lia. replace b with (addr + i) by lia.
    destruct (Z.testbit _ 1); [|done]. rewrite rd_wr_eq. apply wrap_small, rd_range.
  - destruct (Z.testbit _ 1); [|done]. by rewrite rd_wr_ne by lia.
Qed.

(** [C32] The vectorised merge of a forwarded page and the byte loop of the
    debug build leave the same memory: exactly the bytes whose metadata says
    they were written are replaced. *)
Theorem update_page_vector_eq_bytes m addr data shadow :
  mem_eq (update_page m addr data shadow) (update_page_debug m addr data shadow) ∧
  ∀ a, rd (update_page m addr data shadow) a = merged m addr PAGE_SIZE data shadow a.
Proof.
  split; [|apply update_page_merged].
  intros a. by rewrite update_page_merged, update_page_debug_merged.
Qed.

(** ** Validation loops *)

Lemma strided_1 n : strided n 1 = seqZ 0 n.
Proof.
  unfold strided. rewrite <-(list_fmap_id (seqZ 0 n)) at 2. apply list_fmap_ext.
  intros i x _. apply Z.mul_1_l.
Qed.

Section validation.
(** Metadata and data bytes of the block that is checked, the reference
    value and the stage id. *)
Context (addr : Z) (shb dab : Z → Z) (ref sid : Z).
Let sh := GET_SHADOW_OF addr.

Definition conflict (m : mem) (k : Z) : Prop :=
  Z.testbit (shb k) 0 = true ∧ ref ≤ rd m (sh + k).

(** Memory after the bytes [lo .. hi - 1] were accepted. *)
Definition accepted (m : mem) (lo hi a : Z) : Z :=
  if decide (addr + lo ≤ a < addr + hi)
  then if Z.testbit (shb (a - addr)) 1 then dab (a - addr) else rd m a
  else if decide (sh + lo ≤ a < sh + hi)
  then if Z.testbit (shb (a - sh)) 1 then sid else rd m a
  else rd m a.

Definition check_spec (m : mem) (lo hi : Z) (r : option mem) : Prop :=
  match r with
  | None => ∃ k, lo ≤ k < hi ∧ conflict m k
  | Some m' => (∀ k, lo ≤ k < hi → ¬ conflict m k) ∧ ∀ a, rd m' a = accepted m lo hi a
  end.

Lemma sh_far : sh = addr + 2 ^ 45 ∨ sh = addr - 2 ^ 45.
Proof. apply shadow_dist. Qed.

Lemma accepted_shadow_above m lo hi k : 0 ≤ lo → hi ≤ k < 2 ^ 45 →
  accepted m lo hi (sh + k) = rd m (sh + k).
Proof.
  intros. unfold accepted. pose proof sh_far as [?|?];
  (rewrite decide_False by lia; rewrite decide_False by lia; done).
Qed.

Lemma accepted_trans m m' lo mid hi a : 0 ≤ lo ≤ mid → mid ≤ hi ≤ 2 ^ 45 →
  (∀ a, rd m' a = accepted m lo mid a) → accepted m' mid hi a = accepted m lo hi a.
Proof.
  intros Hlo Hhi Hm'. unfold accepted at 1. rewrite Hm'. unfold accepted.
  pose proof sh_far as [?|?]; repeat (destruct (decide _)); try lia; done.
Qed.

Lemma check_loop (Inv : mem → Prop) (step : mem → Z → option mem) w n :
  0 < w → 0 ≤ n → w * n ≤ 2 ^ 45 →
  (∀ m m' hi, 0 ≤ hi ≤ w * n → Inv m → (∀ a, rd m' a = accepted m 0 hi a) → Inv m') →
  (∀ m i, 0 ≤ i < n → Inv m → check_spec m (w * i) (w * i + w) (step m (w * i))) →
  ∀ m, Inv m → check_spec m 0 (w * n) (fold_opt step (strided n w) m).
Proof.
  intros Hw Hn Hb Hinv Hstep m Hm.
  assert (∀ k, 0 ≤ k → k ≤ n → check_spec m 0 (w * k) (fold_opt step (strided k w) m)) as H;
    [|by apply H].
  apply (Z_up_ind (λ k, k ≤ n → _)).
  - intros _. split; [lia|]. intros a. unfold accepted.
    rewrite !decide_False by lia. done.
  - intros k Hk IH Hle. specialize (IH ltac:(lia)). unfold strided in *.
    rewrite seqZ_snoc, fmap_app, fold_opt_app, Z.add_0_l by lia. cbn [fmap list_fmap fold_opt].
    destruct (fold_opt step _ m) as [m1|]; simpl in *.
    2:{ destruct IH as (j & ? & ?). exists j. split; [lia|done]. }
    destruct IH as [Hno Hm1]. assert (w * k + w ≤ w * n) as Hkn by nia.
    specialize (Hstep m1 k ltac:(lia) (Hinv m m1 (w * k) ltac:(lia) Hm Hm1)).
    assert (∀ j, w * k ≤ j < w * k + w → conflict m1 j ↔ conflict m j) as Hc.
    { intros j Hj. unfold conflict. rewrite Hm1, accepted_shadow_above by lia. done. }
    replace (w * (k + 1)) with (w * k + w) by lia.
    destruct (step m1 (w * k)) as [m2|]; simpl in *.
    + destruct Hstep as [Hno2 Hm2]. split.
      * intros j Hj. destruct (decide (j < w * k)); [apply Hno; lia|].
        rewrite <-Hc by lia. apply Hno2. lia.
      * intros a. rewrite Hm2. apply accepted_trans; [lia|lia|done].
    + destruct Hstep as (j & Hj & Hcj). exists j. split; [lia|]. by apply Hc.
Qed.

Lemma check_spec_same m lo hi r1 r2 :
  check_spec m lo hi r1 → check_spec m lo hi r2 →
  match r1, r2 with
  | None, None => True | Some m1, Some m2 => mem_eq m1 m2 | _, _ => False
  end.
Proof.
  destruct r1 as [m1|], r2 as [m2|]; simpl; [| | |done].
  - intros [_ H1] [_ H2] a. by rewrite H1, H2.
  - intros [H1 _] (k & Hk & Hc). by apply (H1 k).
  - intros (k & Hk & Hc) [H2 _]. by apply (H2 k).
Qed.
End validation.

Lemma conflict_dec_reflect shb ref addr m k :
  (Z.testbit (shb k) 0 && (ref <=? rd m (GET_SHADOW_OF addr + k)) = true) ↔
  conflict addr shb ref m k.
Proof. unfold conflict. by rewrite andb_true_iff, Z.leb_le. Qed.

(** One byte of the byte loop. *)
Lemma byte_step_spec n addr (shb dab : Z → Z) ref sid m k :
  shadow_room addr n → 0 ≤ k < n → n ≤ PAGE_SIZE → (∀ k, 0 ≤ dab k < 256) → 0 ≤ sid < 256 →
  check_spec addr shb dab ref sid m k (k + 1)
    (if Z.testbit (shb k) 0 && (ref <=? rd m (GET_SHADOW_OF (addr + k))) then None else
     Some (if Z.testbit (shb k) 1
           then wr (wr m (addr + k) (dab k)) (GET_SHADOW_OF (addr + k)) sid else m)).
Proof.
  intros Hroom Hk Hn Hd Hs. rewrite (shadow_add addr n) by (done || lia).
  destruct (Z.testbit (shb k) 0 && _) eqn:E.
  - apply conflict_dec_reflect in E. exists k. split; [lia|done].
  - split.
    + intros j Hj. replace j with k by lia. rewrite <-conflict_dec_reflect, E. done.
    + intros a. unfold accepted. pose proof (shadow_dist addr) as Hdist.
      unfold PAGE_SIZE in *.
      destruct (decide (addr + k ≤ a < addr + (k + 1))) as [Ha|Ha].
      { replace (a - addr) with k by lia. destruct (Z.testbit (shb k) 1); [|done].
        rewrite rd_wr_ne by lia. replace a with (addr + k) by lia. rewrite rd_wr_eq.
        apply wrap_small, Hd. }
      destruct (decide (GET_SHADOW_OF addr + k ≤ a < GET_SHADOW_OF addr + (k + 1))) as [Ha'|Ha'].
      { replace (a - GET_SHADOW_OF addr) with k by lia. destruct (Z.testbit (shb k) 1); [|done].
        replace a with (GET_SHADOW_OF addr + k) by lia. rewrite rd_wr_eq.
        by apply wrap_small. }
      destruct (Z.testbit (shb k) 1); [|done]. by rewrite !rd_wr_ne by lia.
Qed.

Lemma check_page_bytes_spec g m addr data shadow stage :
  shadow_room addr PAGE_SIZE →
  check_spec addr (rd shadow) (rd data) (stage_ref g stage) (u8 (stage + 1)) m 0 PAGE_SIZE
    (check_page_bytes g m addr data shadow stage).
Proof.
  intros Hroom. unfold check_page_bytes. rewrite <-strided_1.
  apply (check_loop addr (rd shadow) (rd data) _ _ (λ _, True) _ 1 PAGE_SIZE);
    [lia|done|done|done| |done].
  intros m' i Hi _. rewrite Z.mul_1_l, land_bit0, land_bit1.
  apply (byte_step_spec PAGE_SIZE); [done|done|done|apply rd_range|apply u8_range].
Qed.

(** ** The vectorised check *)

Lemma test_all_zeros_byte v b j : 0 ≤ j < 8 → u8 b = 2 ^ j →
  mm_test_all_zeros v (mm_set1_epi8 b) = true ↔
  ∀ k, 0 ≤ k < 16 → Z.testbit (byte_at v k) j = false.
Proof.
  intros Hj Hb. unfold mm_test_all_zeros, mm_set1_epi8. rewrite Z.eqb_eq, Hb.
  assert (∀ k : Z, 0 ≤ 2 ^ j < 256) as Hr by (intros _; rewrite <-Hb; apply u8_range).
  split.
  - intros H k Hk. rewrite byte_at_bit by lia.
    assert (Z.testbit (Z.land v (pack 16 (λ _, 2 ^ j))) (8 * k + j) = false) as E
      by (by rewrite H, Z.testbit_0_l).
    rewrite Z.land_spec, pack_bit, Z.pow2_bits_true, andb_true_r in E by (done || lia). done.
  - intros H. bitwise i Hi. rewrite Z.testbit_0_l. destruct (Z.ltb_spec i 128).
    2:{ rewrite pack_high, andb_false_r by (done || lia). done. }
    assert (0 ≤ i / 8 < 16 ∧ 0 ≤ i mod 8 < 8 ∧ i = 8 * (i / 8) + i mod 8) as (Hq & Hm & E)
      by (Z.to_euclidean_division_equations; lia).
    specialize (H _ Hq). rewrite byte_at_bit in H by lia. rewrite E.
    rewrite pack_bit by (done || lia). destruct (decide (i mod 8 = j)) as [->|].
    + by rewrite H.
    + by rewrite Z.pow2_bits_false, andb_false_r by lia.
Qed.

Lemma u8_sign z : -128 ≤ z < 128 → Z.testbit (u8 z) 7 = (z <? 0).
Proof.
  intros Hz. assert (Z.testbit (u8 z) 7 = (128 <=? u8 z)) as ->.
  { pose proof (u8_range z) as Hr. apply eqb_prop.
    revert Hr. apply (byte_forall (λ b, eqb (Z.testbit b 7) (128 <=? b))). by vm_compute. }
  destruct (Z.ltb_spec z 0).
  - replace (u8 z) with (z + 256); [zbool|].
    symmetry. unfold wrap. rewrite <-(Z_mod_plus z 1 (2 ^ 8)) by lia. apply Z.mod_small. lia.
  - rewrite wrap_small by lia. zbool.
Qed.

Lemma load8_zero m a k : load 8 m a = 0 → 0 ≤ k < 8 → rd m (a + k) = 0.
Proof. intros H Hk. rewrite <-(byte_at_load 8) by lia. unfold byte_at. by rewrite H, Z.shiftr_0_l. Qed.

Lemma load16_zero m i k : load 8 m i = 0 → load 8 m (i + 8) = 0 → 0 ≤ k < 16 → rd m (i + k) = 0.
Proof.
  intros H0 H1 Hk. destruct (decide (k < 8)); [by apply load8_zero; [|lia]|].
  replace (i + k) with (i + 8 + (k - 8)) by lia. apply load8_zero; [done|lia].
Qed.

(** Metadata of the try-commit unit are stage ids, at most [MAX_STAGE_NUM]. *)
Definition stage_bounded (addr : Z) (m : mem) : Prop :=
  ∀ k, 0 ≤ k < PAGE_SIZE → rd m (GET_SHADOW_OF addr + k) ≤ MAX_STAGE_NUM.

Lemma accepted_bounded addr shb dab sid m m' hi :
  0 ≤ hi ≤ PAGE_SIZE → sid ≤ MAX_STAGE_NUM → stage_bounded addr m →
  (∀ a, rd m' a = accepted addr shb dab sid m 0 hi a) → stage_bounded addr m'.
Proof.
  intros Hhi Hs Hm Hm' k Hk. rewrite Hm'. unfold accepted.
  unfold PAGE_SIZE in *. pose proof (shadow_dist addr) as Hd.
  rewrite decide_False by lia. specialize (Hm k ltac:(unfold PAGE_SIZE; lia)).
  destruct (decide _); [|done]. destruct (Z.testbit _ 1); done.
Qed.

Lemma stage_ref_range g stage : 0 ≤ stage < MAX_STAGE_NUM →
  stage + 1 ≤ stage_ref g stage ≤ stage + 2.
Proof.
  unfold MAX_STAGE_NUM, stage_ref. intros H.
  rewrite (wrap_small 8 (stage + 1)) by lia. destruct (_ =? 1); [|lia].
  rewrite wrap_small by lia. lia.
Qed.

(** The conflict test on sixteen lanes. *)
Lemma lanes_conflict addr m shadow i ref :
  shadow_room addr PAGE_SIZE → 0 ≤ i → i + 16 ≤ PAGE_SIZE →
  1 ≤ ref ≤ 128 → stage_bounded addr m →
  mm_test_all_zeros
    (mm_andnot
       (mm_sub_epi8 (mm_pair (load 8 m (GET_SHADOW_OF (addr + (i + 8))))
                             (load 8 m (GET_SHADOW_OF (addr + i)))) (mm_set1_epi8 ref))
       (mm_pair (u64 (Z.shiftl (load 8 shadow (i + 8)) 7))
                (u64 (Z.shiftl (load 8 shadow i) 7)))) (mm_set1_epi8 0x80) = true ↔
  ∀ k, i ≤ k < i + 16 → ¬ conflict addr (rd shadow) ref m k.
Proof.
  intros Hroom Hi Hi2 Href Hm. rewrite (test_all_zeros_byte _ 0x80 7) by (done || lia).
  rewrite !(shadow_add addr PAGE_SIZE) by (done || lia).
  rewrite Z.add_assoc.
  assert (∀ k, 0 ≤ k < 16 →
    Z.testbit (byte_at (mm_andnot
       (mm_sub_epi8 (mm_pair (load 8 m (GET_SHADOW_OF addr + i + 8))
                             (load 8 m (GET_SHADOW_OF addr + i))) (mm_set1_epi8 ref))
       (mm_pair (u64 (Z.shiftl (load 8 shadow (i + 8)) 7))
                (u64 (Z.shiftl (load 8 shadow i) 7)))) k) 7 =
    Z.testbit (rd shadow (i + k)) 0 && (ref <=? rd m (GET_SHADOW_OF addr + (i + k)))) as E.
  { intros k Hk. rewrite byte_at_bit by lia. unfold mm_andnot, not_w.
    autorewrite with smtx_bits. replace (8 * k + 7 <? 128) with true by zbool.
    rewrite andb_true_l, <-!byte_at_bit, (pair_mask shadow i 7) by lia.
    unfold mm_sub_epi8, mm_set1_epi8.
    rewrite !byte_at_pack by (intros; apply u8_range || lia).
    rewrite byte_at_pair_load by lia.
    specialize (Hm (i + k) ltac:(lia)). unfold MAX_STAGE_NUM in Hm.
    rewrite <-Z.add_assoc. pose proof (rd_range m (GET_SHADOW_OF addr + (i + k))).
    rewrite (wrap_small 8 ref), u8_sign by lia. rewrite andb_comm. f_equal.
    destruct (Z.leb_spec ref (rd m (GET_SHADOW_OF addr + (i + k)))); simpl; lia. }
  split.
  - intros H k Hk Hc%conflict_dec_reflect. specialize (H (k - i) ltac:(lia)).
    rewrite E in H by lia. replace (i + (k - i)) with k in H by lia. congruence.
  - intros H k Hk. rewrite E by done. apply not_true_iff_false.
    rewrite conflict_dec_reflect. apply H. lia.
Qed.

Lemma check_page_step addr data shadow ref sid i m :
  shadow_room addr PAGE_SIZE → 0 ≤ i → i + 16 ≤ PAGE_SIZE → 1 ≤ ref ≤ 128 →
  0 ≤ sid < 256 → stage_bounded addr m →
  check_spec addr (rd shadow) (rd data) ref sid m i (i + 16)
   (let s0 := load 8 shadow i in
    let s1 := load 8 shadow (i + 8) in
    if (s0 =? 0) && (s1 =? 0) then Some m else
    let mask0 := mm_pair (u64 (Z.shiftl s1 7)) (u64 (Z.shiftl s0 7)) in
    let l0 := load 8 m (GET_SHADOW_OF (addr + i)) in
    let l1 := load 8 m (GET_SHADOW_OF (addr + (i + 8))) in
    let mask1 := mm_sub_epi8 (mm_pair l1 l0) (mm_set1_epi8 ref) in
    let mask := mm_andnot mask1 mask0 in
    if negb (mm_test_all_zeros mask (mm_set1_epi8 0x80)) then None else
    let mask20 := mm_pair (u64 (Z.shiftl s1 6)) (u64 (Z.shiftl s0 6)) in
    let ds := mm_pair (load 8 data (i + 8)) (load 8 data i) in
    let m := mm_maskmoveu ds mask20 m (addr + i) in
    Some (mm_maskmoveu (mm_set1_epi8 sid) mask20 m (GET_SHADOW_OF (addr + i)))).
Proof.
  intros Hroom Hi Hi2 Href Hsid Hm. cbv zeta. unfold PAGE_SIZE in *.
  destruct ((load 8 shadow i =? 0) && (load 8 shadow (i + 8) =? 0)) eqn:E0.
  { apply andb_prop in E0 as [H0%Z.eqb_eq H1%Z.eqb_eq].
    assert (∀ k, i ≤ k < i + 16 → rd shadow k = 0) as Hz.
    { intros k Hk. replace k with (i + (k - i)) by lia. apply load16_zero; [done|done|lia]. }
    split.
    - intros k Hk [Hb _]. by rewrite Hz in Hb.
    - intros a. unfold accepted. destruct (decide (addr + i ≤ a < _)).
      { by rewrite Hz by lia. }
      destruct (decide _); [|done]. by rewrite Hz by lia. }
  pose proof (lanes_conflict addr m shadow i ref Hroom Hi Hi2 Href Hm) as Hl.
  destruct (mm_test_all_zeros _ (mm_set1_epi8 0x80)) eqn:Et; simpl negb; cbv iota.
  - split; [by apply Hl|]. intros a. pose proof (shadow_dist addr) as Hd.
    rewrite !rd_maskmoveu, (shadow_add addr 4096) by (done || lia). unfold accepted.
    destruct (decide (addr + i ≤ a < addr + (i + 16))) as [Ha|Ha].
    { rewrite decide_False by lia. rewrite decide_True by lia.
      rewrite (pair_mask shadow i 6), byte_at_pair_load by lia.
      replace (i + (a - (addr + i))) with (a - addr) by lia. done. }
    destruct (decide (GET_SHADOW_OF addr + i ≤ a < GET_SHADOW_OF addr + (i + 16))) as [Ha'|Ha'].
    { rewrite decide_True by lia. rewrite (pair_mask shadow i 6) by lia.
      replace (i + (a - (GET_SHADOW_OF addr + i))) with (a - GET_SHADOW_OF addr) by lia.
      unfold mm_set1_epi8. rewrite byte_at_pack by (intros; apply u8_range || lia).
      rewrite wrap_small by lia. rewrite decide_False by lia. done. }
    rewrite !decide_False by lia. done.
  - assert (¬ ∀ k, i ≤ k < i + 16 → ¬ conflict addr (rd shadow) ref m k) as Hn
      by (rewrite <-Hl; congruence).
    assert (∀ k, Decision (conflict addr (rd shadow) ref m k)) as Hdec
      by (intros k; unfold conflict; apply _).
    destruct (decide (Exists (conflict addr (rd shadow) ref m) (seqZ i 16))) as [He|He].
    + apply Exists_exists in He as (k & Hk%elem_of_seqZ & Hc). exists k. split; [lia|done].
    + destruct Hn. intros k Hk Hc. apply He, Exists_exists. exists k.
      rewrite elem_of_seqZ. split; [lia|done].
Qed.

Lemma check_page_spec g m addr data shadow stage :
  shadow_room addr PAGE_SIZE → 0 ≤ stage < MAX_STAGE_NUM → stage_bounded addr m →
  check_spec addr (rd shadow) (rd data) (stage_ref g stage) (u8 (stage + 1)) m 0 PAGE_SIZE
    (check_page g m addr data shadow stage).
Proof.
  intros Hroom Hs Hm. pose proof (stage_ref_range g stage Hs) as Hr. unfold MAX_STAGE_NUM in *.
  unfold check_page. rewrite (wrap_small 8 (stage + 1)) by lia.
  apply (check_loop addr (rd shadow) (rd data) _ _ (stage_bounded addr) _ 16 256);
    [lia|lia|lia| | |done].
  - intros m1 m2 hi Hhi. apply accepted_bounded; unfold PAGE_SIZE, MAX_STAGE_NUM; lia.
  - intros m' i Hi Hm'. apply (check_page_step addr data shadow _ _ (16 * i) m');
      try done; unfold PAGE_SIZE; lia.
Qed.

(** The vectorised validation of a page, which compares sixteen stage ids
    at a time by subtracting bytes and testing sign bits, decides and updates
    exactly like the byte loop: same verdict, and on success the same memory.
    The bounds are those of the runtime: at most 64 stages, and metadata that
    are stage ids. *)
Theorem check_page_vector_eq_bytes g m addr data shadow stage :
  shadow_room addr PAGE_SIZE → 0 ≤ stage < MAX_STAGE_NUM → stage_bounded addr m →
  match check_page g m addr data shadow stage, check_page_bytes g m addr data shadow stage with
  | None, None => True | Some m1, Some m2 => mem_eq m1 m2 | _, _ => False
  end.
Proof.
  intros Hroom Hs Hm. eapply check_spec_same.
  - by apply check_page_spec.
  - by apply check_page_bytes_spec.
Qed.

(** A page passes validation iff no byte whose metadata carries the
    read-before-write bit was last written by a stage at or after the reference
    of the checking stage; then the written bytes carry the new data and the
    id of the checking stage, and nothing else changed.  The ids stay within
    the bound, so the check can be iterated. *)
Theorem check_page_verdict g m addr data shadow stage :
  shadow_room addr PAGE_SIZE → 0 ≤ stage < MAX_STAGE_NUM → stage_bounded addr m →
  match check_page g m addr data shadow stage with
  | None => ∃ k, 0 ≤ k < PAGE_SIZE ∧ conflict addr (rd shadow) (stage_ref g stage) m k
  | Some m' =>
      (∀ k, 0 ≤ k < PAGE_SIZE → ¬ conflict addr (rd shadow) (stage_ref g stage) m k) ∧
      (∀ a, rd m' a = accepted addr (rd shadow) (rd data) (stage + 1) m 0 PAGE_SIZE a) ∧
      stage_bounded addr m'
  end.
Proof.
  intros Hroom Hs Hm. pose proof (check_page_spec g m addr data shadow stage Hroom Hs Hm) as H.
  unfold MAX_STAGE_NUM in *. rewrite (wrap_small 8 (stage + 1)) in H by lia.
  destruct (check_page g m addr data shadow stage) as [m'|]; [|done].
  destruct H as [Hno Hacc]. split; [done|]. split; [done|].
  eapply accepted_bounded; [..|exact Hm|exact Hacc]; unfold PAGE_SIZE, MAX_STAGE_NUM; lia.
Qed.

(** A strategy with a sequential stage, a parallel stage and a sequential one. *)
Definition demo_strategy : strategy :=
  default (Strategy 0 ∅ ∅ ∅) (inform_strategy 4 [1; 2; 1]).

Lemma empty_bounded addr : stage_bounded addr ∅.
Proof. intros k _. unfold rd. rewrite lookup_empty. by vm_compute. Qed.

Lemma check_page_vector_eq_bytes_witness :
  match check_page demo_strategy ∅ 0x10000 {[5 := 7]} {[5 := 3]} 1,
        check_page_bytes demo_strategy ∅ 0x10000 {[5 := 7]} {[5 := 3]} 1 with
  | None, None => True | Some m1, Some m2 => mem_eq m1 m2 | _, _ => False
  end.
Proof.
  apply (check_page_vector_eq_bytes demo_strategy ∅ 0x10000 {[5 := 7]} {[5 := 3]} 1);
    [by vm_compute|by vm_compute|apply empty_bounded].
Defined.

(** Stage 2 wrote byte 5; a stage-0 iteration that read it first conflicts. *)
Definition demo_conflict_mem : mem := {[GET_SHADOW_OF 0x10005 := 3]}.

Lemma demo_conflict_bounded : stage_bounded 0x10000 demo_conflict_mem.
Proof.
  intros k _. unfold rd, demo_conflict_mem.
  destruct (decide (GET_SHADOW_OF 0x10005 = GET_SHADOW_OF 0x10000 + k)) as [->|].
  - rewrite lookup_singleton_eq. by vm_compute.
  - rewrite lookup_singleton_ne by done. by vm_compute.
Qed.

Lemma check_page_verdict_witness :
  check_page demo_strategy demo_conflict_mem 0x10000 ∅ {[5 := 1]} 0 = None ∧
  ∃ k, 0 ≤ k < PAGE_SIZE ∧
    conflict 0x10000 (rd {[5 := 1]}) (stage_ref demo_strategy 0) demo_conflict_mem k.
Proof.
  assert (check_page demo_strategy demo_conflict_mem 0x10000 ∅ {[5 := 1]} 0 = None) as E
    by (by vm_compute).
  split; [exact E|].
  pose proof (check_page_verdict demo_strategy demo_conflict_mem 0x10000 ∅ {[5 := 1]} 0
    ltac:(by vm_compute) ltac:(by vm_compute) demo_conflict_bounded) as H.
  rewrite E in H. exact H.
Defined.

(** ** Words *)

Lemma byte_at_low v k j : 0 ≤ k → 0 ≤ j < 8 →
  Z.testbit (Z.shiftr v (8 * k)) j = Z.testbit (byte_at v k) j.
Proof. intros. rewrite byte_at_bit, Z.shiftr_spec by lia. f_equal. lia. Qed.

(** The word check shifts its two registers; a byte loop on [byte_at]. *)
Definition check_packet_bytes (addr data shadow ref sid : Z) (m : mem) (i : Z) : option mem :=
  if Z.testbit (byte_at shadow i) 0 && (ref <=? rd m (GET_SHADOW_OF (addr + i))) then None else
  Some (if Z.testbit (byte_at shadow i) 1
        then wr (wr m (addr + i) (byte_at data i)) (GET_SHADOW_OF (addr + i)) sid else m).

Lemma check_packet_unshift g m addr data shadow stage :
  check_packet g m addr data shadow stage =
  fold_opt (check_packet_bytes addr data shadow (stage_ref g stage) (u8 (stage + 1))) (seqZ 0 8) m.
Proof.
  unfold check_packet. set (step := λ '(m, data, shadow) i, _).
  set (bstep := check_packet_bytes _ _ _ _ _).
  assert (∀ n, 0 ≤ n → fold_opt step (seqZ 0 n) (m, data, shadow) =
    fmap (λ m, (m, Z.shiftr data (8 * n), Z.shiftr shadow (8 * n))) (fold_opt bstep (seqZ 0 n) m)) as H.
  { apply Z_up_ind; [simpl; by rewrite !Z.shiftr_0_r|].
    intros n Hn IH. rewrite seqZ_snoc, !fold_opt_app, IH, Z.add_0_l by lia.
    destruct (fold_opt bstep (seqZ 0 n) m) as [m1|]; [|done].
    cbn [fold_opt fmap option_fmap option_map]. unfold step, bstep, check_packet_bytes.
    rewrite land_bit0, land_bit1, !byte_at_low, land_ff by lia.
    destruct (Z.testbit (byte_at shadow n) 0 && _); [done|]. simpl.
    rewrite !Z.shiftr_shiftr by lia. by replace (8 * n + 8) with (8 * (n + 1)) by lia. }
  rewrite H by lia. by destruct (fold_opt bstep (seqZ 0 8) m).
Qed.

Lemma check_packet_spec g m addr data shadow stage :
  shadow_room addr 8 →
  check_spec addr (byte_at shadow) (byte_at data) (stage_ref g stage) (u8 (stage + 1)) m 0 8
    (check_packet g m addr data shadow stage).
Proof.
  intros Hroom. rewrite check_packet_unshift, <-strided_1.
  apply (check_loop addr (byte_at shadow) (byte_at data) _ _ (λ _, True) _ 1 8);
    [lia|lia|lia|done| |done].
  intros m' i Hi _. rewrite Z.mul_1_l.
  apply (byte_step_spec 8); [done|lia|done|apply byte_at_range|apply u8_range].
Qed.

(** The check of a forwarded word agrees with the check of a page: the
    verdict and the memory are those of the byte rule on the eight bytes of the
    word, whatever the values. *)
Theorem check_packet_verdict g m addr data shadow stage :
  shadow_room addr 8 →
  match check_packet g m addr data shadow stage with
  | None => ∃ k, 0 ≤ k < 8 ∧ conflict addr (byte_at shadow) (stage_ref g stage) m k
  | Some m' =>
      (∀ k, 0 ≤ k < 8 → ¬ conflict addr (byte_at shadow) (stage_ref g stage) m k) ∧
      ∀ a, rd m' a = accepted addr (byte_at shadow) (byte_at data) (u8 (stage + 1)) m 0 8 a
  end.
Proof. apply check_packet_spec. Qed.

Lemma check_packet_verdict_witness :
  check_packet demo_strategy demo_conflict_mem 0x10000 0 (Z.shiftl 1 40) 0 = None ∧
  ∃ k, 0 ≤ k < 8 ∧
    conflict 0x10000 (byte_at (Z.shiftl 1 40)) (stage_ref demo_strategy 0) demo_conflict_mem k.
Proof.
  assert (check_packet demo_strategy demo_conflict_mem 0x10000 0 (Z.shiftl 1 40) 0 = None) as E
    by (by vm_compute).
  split; [exact E|].
  pose proof (check_packet_verdict demo_strategy demo_conflict_mem 0x10000 0 (Z.shiftl 1 40) 0
    ltac:(by vm_compute)) as H.
  rewrite E in H. exact H.
Defined.

(** Signed registers shift in copies of the sign bit above bit 63 only. *)
Lemma i64_bit v i : 0 ≤ i < 64 → Z.testbit (i64 v) i = Z.testbit v i.
Proof.
  intros Hi. unfold swrap. change (2 ^ (64 - 1)) with (2 ^ 63).
  assert (∃ q, wrap 64 (v + 2 ^ 63) - 2 ^ 63 = v + q * 2 ^ 64) as [q E].
  { exists (- ((v + 2 ^ 63) / 2 ^ 64)). unfold wrap.
    pose proof (Z.div_mod (v + 2 ^ 63) (2 ^ 64) ltac:(lia)). lia. }
  rewrite E, <-(Z.mod_pow2_bits_low _ 64) by lia.
  rewrite Z.mod_add by lia. by rewrite Z.mod_pow2_bits_low by lia.
Qed.

Lemma byte_at_i64 v k : 0 ≤ k < 8 → byte_at (i64 v) k = byte_at v k.
Proof.
  intros Hk. apply byte_eq; [apply byte_at_range..|]. intros j Hj.
  rewrite !byte_at_bit, i64_bit by lia. done.
Qed.

Lemma update_normal_packet_merged m ptr value shadow a :
  rd (update_normal_packet m ptr value shadow) a =
  if decide (ptr ≤ a < ptr + 8)
  then if Z.testbit (byte_at shadow (a - ptr)) 1 then byte_at value (a - ptr) else rd m a
  else rd m a.
Proof.
  unfold update_normal_packet. set (step := λ '(m, value, shadow) i, _).
  set (bstep := λ m i, if Z.testbit (byte_at (i64 shadow) i) 1
                       then wr m (ptr + i) (byte_at (i64 value) i) else m).
  assert (∀ n, 0 ≤ n → foldl step (m, i64 value, i64 shadow) (seqZ 0 n) =
    (foldl bstep m (seqZ 0 n), Z.shiftr (i64 value) (8 * n), Z.shiftr (i64 shadow) (8 * n))) as H.
  { apply Z_up_ind; [simpl; by rewrite !Z.shiftr_0_r|].
    intros n Hn IH. rewrite seqZ_snoc, !foldl_app, IH, Z.add_0_l by lia.
    cbn [foldl]. unfold step, bstep.
    rewrite land_bit1, byte_at_low, land_ff, !Z.shiftr_shiftr by lia.
    replace (8 * n + 8) with (8 * (n + 1)) by lia. done. }
  rewrite H by lia. cbn [fst].
  rewrite (block_loop bstep (λ a b, if Z.testbit (byte_at shadow (a - ptr)) 1
             then byte_at value (a - ptr) else b) ptr 1 8); [done|lia|lia|].
  intros m' i b Hi. unfold bstep. rewrite !byte_at_i64 by lia.
  destruct (decide (ptr + 1 * i ≤ b < ptr + 1 * i + 1)).
  - replace (b - ptr) with i by lia. replace b with (ptr + i) by lia.
    destruct (Z.testbit _ 1); [|done]. rewrite rd_wr_eq. apply wrap_small, byte_at_range.
  - destruct (Z.testbit _ 1); [|done]. by rewrite rd_wr_ne by lia.
Qed.

(** ** [clear_read] *)

Lemma lor_land_absorb s x : Z.lor s (Z.land s x) = s.
Proof. bitwise i Hi. by destruct (Z.testbit s i), (Z.testbit x i). Qed.

Lemma clear_read_round_mem shadow st i :
  mem_eq (clear_read_round shadow st i).2 st.2.
Proof.
  destruct st as [[nonzero readonly] m]. unfold clear_read_round.
  destruct (_ && _); [done|]. simpl. rewrite lor_land_absorb.
  rewrite store_load. rewrite lor_land_absorb. apply store_load.
Qed.

(** The 8-byte words of a metadata page. *)
Definition word_nz (m : mem) (shadow k : Z) : bool := negb (load 8 m (shadow + 8 * k) =? 0).
Definition word_ro (m : mem) (shadow k : Z) : bool :=
  Z.land (load 8 m (shadow + 8 * k)) 0xfbfbfbfbfbfbfbfb =? 0.
Definition count_nz (m : mem) (shadow n : Z) : Z :=
  Z.of_nat (length (filter (λ k, word_nz m shadow k = true) (seqZ 0 n))).

Lemma count_nz_succ m shadow n : 0 ≤ n →
  count_nz m shadow (n + 1) = count_nz m shadow n + (if word_nz m shadow n then 1 else 0).
Proof.
  intros. unfold count_nz. rewrite seqZ_snoc, filter_app, length_app, Z.add_0_l by lia.
  rewrite Nat2Z.inj_add. f_equal. rewrite filter_cons. destruct (word_nz m shadow n); done.
Qed.

Lemma count_nz_bound m shadow n : 0 ≤ n → 0 ≤ count_nz m shadow n ≤ n.
Proof.
  revert n. apply Z_up_ind; [unfold count_nz; simpl; lia|].
  intros n Hn IH. rewrite count_nz_succ by done. destruct (word_nz m shadow n); lia.
Qed.

(** The counters after [n] rounds of the loop. *)
Lemma clear_read_loop m shadow n : 0 ≤ n → n ≤ 256 →
  let st := foldl (clear_read_round shadow) (0, true, m) (strided n 16) in
  st.1.1 = count_nz m shadow (2 * n) ∧
  st.1.2 = forallb (word_ro m shadow) (seqZ 0 (2 * n)) ∧
  mem_eq st.2 m.
Proof.
  revert n. apply (Z_up_ind (λ n, n ≤ 256 → _)); [done|].
  intros n Hn IH Hle. specialize (IH ltac:(lia)). unfold strided in *.
  rewrite seqZ_snoc, fmap_app, foldl_app, Z.add_0_l by lia. cbn [fmap list_fmap foldl].
  set (st := foldl _ _ _) in *. clearbody st. destruct st as [[nz ro] m'].
  destruct IH as (IH1 & IH2 & IH3). simpl in IH1, IH2, IH3.
  assert (∀ a, load 8 m' a = load 8 m a) as Hl by (intros a; by apply load_proper).
  pose proof (count_nz_bound m shadow (2 * n) ltac:(lia)) as Hb.
  replace (2 * (n + 1)) with (2 * n + 1 + 1) by lia.
  rewrite !count_nz_succ, !seqZ_snoc, !forallb_app by lia. rewrite !Z.add_0_l. cbn [forallb].
  rewrite !andb_true_r, <-IH1, <-IH2. rewrite <-IH1 in Hb.
  assert (word_nz m shadow (2 * n) = negb (load 8 m (shadow + 16 * n) =? 0) ∧
          word_ro m shadow (2 * n) = (Z.land (load 8 m (shadow + 16 * n)) 0xfbfbfbfbfbfbfbfb =? 0))
    as [-> ->] by (unfold word_nz, word_ro; by replace (8 * (2 * n)) with (16 * n) by lia).
  assert (word_nz m shadow (2 * n + 1) = negb (load 8 m (shadow + 16 * n + 8) =? 0) ∧
          word_ro m shadow (2 * n + 1) =
            (Z.land (load 8 m (shadow + 16 * n + 8)) 0xfbfbfbfbfbfbfbfb =? 0)) as [-> ->]
    by (unfold word_nz, word_ro;
        by replace (shadow + 8 * (2 * n + 1)) with (shadow + 16 * n + 8) by lia).
  pose proof (clear_read_round_mem shadow (nz, ro, m') (16 * n)) as Hmem.
  split_and!; [| |etrans; [exact Hmem|exact IH3]]; clear Hmem;
    unfold clear_read_round; rewrite !Hl;
    destruct (Z.eqb_spec (load 8 m (shadow + 16 * n)) 0) as [E0|E0];
    destruct (Z.eqb_spec (load 8 m (shadow + 16 * n + 8)) 0) as [E1|E1]; simpl;
    rewrite ?(wrap_small 32) by (rewrite ?(wrap_small 32); lia); try lia;
    rewrite ?E0, ?E1; simpl;
    repeat match goal with
    | |- context [Z.land ?x ?y =? 0] => destruct (Z.land x y =? 0)
    end; by destruct ro.
Qed.

(** The memory and the result of [clear_read]. *)
Lemma clear_read_spec m shadow :
  mem_eq (clear_read m shadow).2 m ∧
  (clear_read m shadow).1 =
    if forallb (word_ro m shadow) (seqZ 0 512) then 0 else count_nz m shadow 512.
Proof.
  unfold clear_read. change (PAGE_SIZE / 16) with 256.
  destruct (clear_read_loop m shadow 256 ltac:(lia) ltac:(lia)) as (H1 & H2 & H3).
  destruct (foldl _ _ _) as [[nz ro] m']. simpl in *. split; [done|].
  by rewrite H2, H1.
Qed.

(** [clear_read] leaves the metadata as they are.  It reports zero for a
    page in which no byte carries a bit other than the load bit, and otherwise
    the number of 8-byte words with metadata.  (The source comment says that
    the metadata of bytes that were only loaded become [0001], so that their
    loads get validated; the bits that the code adds are masked with the old
    value, in which they are clear.) *)
Theorem clear_read_result m shadow :
  mem_eq (clear_read m shadow).2 m ∧
  (clear_read m shadow).1 =
    if forallb (word_ro m shadow) (seqZ 0 512) then 0 else count_nz m shadow 512.
Proof. apply clear_read_spec. Qed.

(** ** Whole-page tests and clears *)

Lemma page_lanes_strided : page_lanes = strided 8 16.
Proof. reflexivity. Qed.

Lemma page_lane_offset k : 0 ≤ k < 4096 →
  ∃ i j r, i ∈ strided 32 128 ∧ j ∈ page_lanes ∧ 0 ≤ r < 16 ∧ k = i + j + r.
Proof.
  intros Hk. exists (128 * (k / 128)), (16 * (k mod 128 / 16)), (k mod 16).
  rewrite elem_of_strided. split_and!.
  - exists (k / 128). split; [done|]. Z.to_euclidean_division_equations. lia.
  - rewrite page_lanes_strided, elem_of_strided. exists (k mod 128 / 16). split; [done|].
    Z.to_euclidean_division_equations. lia.
  - Z.to_euclidean_division_equations. lia.
  - Z.to_euclidean_division_equations. lia.
  - Z.to_euclidean_division_equations. lia.
Qed.

Lemma is_zero_page_spec m ptr :
  is_zero_page m ptr = true ↔ ∀ k, 0 ≤ k < PAGE_SIZE → rd m (ptr + k) = 0.
Proof.
  unfold is_zero_page, mm_testz. rewrite forallb_forall. setoid_rewrite forallb_forall. split.
  + intros H k Hk. destruct (page_lane_offset k Hk) as (i & j & r & Hi & Hj & Hr & ->).
    specialize (H i (proj1 (list_elem_of_In _ _) Hi) j (proj1 (list_elem_of_In _ _) Hj)).
    rewrite Z.land_diag, Z.eqb_eq in H.
    rewrite !Z.add_assoc. by apply (load_zero_iff 16).
  + intros H i Hi%list_elem_of_In%elem_of_strided j Hj%list_elem_of_In.
    rewrite page_lanes_strided, elem_of_strided in Hj. destruct Hj as (l & -> & Hl).
    rewrite Z.land_diag, Z.eqb_eq. apply (load_zero_iff 16). intros k Hk.
    rewrite <-!Z.add_assoc. apply H. unfold PAGE_SIZE. destruct Hi as (q & -> & Hq).
    lia.
Qed.

Lemma rd_set_zero_page m ptr a :
  rd (set_zero_page m ptr) a = if decide (ptr ≤ a < ptr + PAGE_SIZE) then 0 else rd m a.
Proof.
  unfold set_zero_page.
  rewrite (strided_loop _ (λ _ _, 0) ptr 128 32); [done|lia|lia|].
  intros m' i b Hi.
  rewrite page_lanes_strided.
  rewrite (strided_loop _ (λ _ _, 0) (ptr + 128 * i) 16 8); [done|lia|lia|].
  intros m'' j c Hj. rewrite rd_store.
  destruct (decide _); [by rewrite Z.shiftr_0_l|done].
Qed.

Lemma check_nrbw_spec m shadow :
  check_nrbw m shadow = true ↔ ∀ k, 0 ≤ k < PAGE_SIZE → Z.testbit (rd m (shadow + k)) 0 = false.
Proof.
  unfold check_nrbw. rewrite forallb_forall.
  assert (∀ i, (let s0 := load 8 m (shadow + i) in let s1 := load 8 m (shadow + i + 8) in
    if (s0 =? 0) && (s1 =? 0) then true
    else mm_test_all_zeros (mm_pair s1 s0) (mm_set1_epi8 1)) = true ↔
    ∀ k, 0 ≤ k < 16 → Z.testbit (rd m (shadow + i + k)) 0 = false) as E.
  { intros i. cbv zeta.
    destruct ((load 8 m (shadow + i) =? 0) && (load 8 m (shadow + i + 8) =? 0)) eqn:E0.
    - apply andb_prop in E0 as [H0%Z.eqb_eq H1%Z.eqb_eq]. split; [|done]. intros _ k Hk.
      by rewrite load16_zero.
    - rewrite (test_all_zeros_byte _ 1 0) by (done || lia).
      split; intros H k Hk; specialize (H k Hk); by rewrite byte_at_pair_load in *. }
  setoid_rewrite E. split.
  - intros H k Hk. unfold PAGE_SIZE in *.
    specialize (H (16 * (k / 16))).
    rewrite <-list_elem_of_In, elem_of_strided in H.
    specialize (H ltac:(exists (k / 16); split; [done|]; change (4096 / 16) with 256;
      Z.to_euclidean_division_equations; lia) (k mod 16)
      ltac:(Z.to_euclidean_division_equations; lia)).
    rewrite <-H. f_equal. f_equal. Z.to_euclidean_division_equations. lia.
  - intros H i Hi%list_elem_of_In%elem_of_strided k Hk. destruct Hi as (q & -> & Hq).
    rewrite <-Z.add_assoc. apply H. change (PAGE_SIZE / 16) with 256 in Hq.
    unfold PAGE_SIZE. lia.
Qed.
