(* ===== verification/SwQueue.v ===== *)
(** The shared-memory queue between two processes ([sw_queue/sw_queue.cpp]).

    A queue is a circular array of pairs (flag, value).  The producer owns
    [head], the consumer owns [tail]; they synchronise only through the flag of
    a pair.  The first part gives the operations as they run without
    interference; the second part interleaves the single memory accesses of one
    producer and one consumer. *)
From S2P Require Import Prelude Machine.

(** ** [void*] values

    What the runtime sends through queues: plain integers, pointers into the
    packet pools, pointers into the chunk pools. *)
Inductive vptr : Type :=
| WInt (z : Z)
| WPacket (owner index : Z)
| WChunk (owner index : Z).

#[global] Instance vptr_eq_dec : EqDecision vptr.
Proof. solve_decision. Defined.

Definition NULL : vptr := WInt 0.

Definition SW_QUEUE_OCCUPIED : vptr := WInt 1.
Definition SW_QUEUE_NULL : vptr := WInt 0.
Definition QUEUE_SIZE : Z := 8192 * 2.

Record queue_t := Queue {
  q_head : Z;
  q_tail : Z;
  q_finished : Z;
  q_data : gmap Z vptr }.

Definition slot (q : queue_t) (i : Z) : vptr := default NULL (q_data q !! i).
Definition set_slot (q : queue_t) (i : Z) (v : vptr) : queue_t :=
  Queue (q_head q) (q_tail q) (q_finished q) (<[i := v]> (q_data q)).
Definition set_head (q : queue_t) (h : Z) : queue_t :=
  Queue h (q_tail q) (q_finished q) (q_data q).
Definition set_tail (q : queue_t) (t : Z) : queue_t :=
  Queue (q_head q) t (q_finished q) (q_data q).

(** Slots that are not in the map hold [NULL]: the loop that clears all of
    them leaves an empty map. *)
Definition sw_queue_reset (q : queue_t) : queue_t := Queue 0 0 0 ∅.
Definition sw_queue_create : queue_t := sw_queue_reset (Queue 0 0 0 ∅).

Definition advance (p : Z) : Z := let p := p + 2 in if QUEUE_SIZE <=? p then 0 else p.

(** [None]: the caller spins, the slot at [head] is still occupied. *)
Definition sw_queue_produce (q : queue_t) (value : vptr) : option queue_t :=
  if decide (slot q (q_head q) = SW_QUEUE_NULL) then
    let q := set_slot q (q_head q + 1) value in
    let q := set_slot q (q_head q) SW_QUEUE_OCCUPIED in
    Some (set_head q (advance (q_head q)))
  else None.

(** [None]: the caller spins, the queue is empty. *)
Definition sw_queue_consume (q : queue_t) : option (vptr * queue_t) :=
  if decide (slot q (q_tail q) = SW_QUEUE_NULL) then None else
    let value := slot q (q_tail q + 1) in
    let q := set_slot q (q_tail q + 1) SW_QUEUE_NULL in
    let q := set_slot q (q_tail q) (slot q (q_tail q + 1)) in
    Some (value, set_tail q (advance (q_tail q))).

Definition sw_queue_empty (q : queue_t) : bool :=
  bool_decide (slot q (q_tail q) = SW_QUEUE_NULL).

Definition sw_queue_flush (q : queue_t) : queue_t := q.

(** The loop that clears the flag at [tail] and advances: one round. *)
Definition clear_round (q : queue_t) : queue_t + queue_t :=
  if decide (slot q (q_tail q) = SW_QUEUE_NULL) then inr q
  else inl (let q := set_slot q (q_tail q) SW_QUEUE_NULL in set_tail q (advance (q_tail q))).

(** [2^14] rounds are more than the [2^13] pairs of the array. *)
Definition sw_queue_clear (q : queue_t) : option queue_t :=
  match rounds 14 clear_round q with inr q' => Some q' | inl _ => None end.

(** ** Representation

    [T] values were consumed and [H] produced since the queue was created;
    value number [i] lives in pair [i mod 2^13]. *)
Definition PAIRS : Z := 8192.
Definition pair_of (i : Z) : Z := 2 * (i mod PAIRS).

Record flags_ok (q : queue_t) (T H : Z) : Prop := {
  fo_bounds : 0 ≤ T ≤ H ∧ H - T ≤ PAIRS;
  fo_occ : ∀ i, T ≤ i < H → slot q (pair_of i) = SW_QUEUE_OCCUPIED;
  fo_free : ∀ i, H ≤ i < T + PAIRS → slot q (pair_of i) = SW_QUEUE_NULL }.

(** [q] holds the values [vs], oldest first. *)
Definition holds_values (q : queue_t) (T : Z) (vs : list vptr) : Prop :=
  let H := T + Z.of_nat (length vs) in
  flags_ok q T H ∧ q_head q = pair_of H ∧ q_tail q = pair_of T ∧
  ∀ j v, vs !! j = Some v → slot q (pair_of (T + Z.of_nat j) + 1) = v.

Definition queue_holds (q : queue_t) (vs : list vptr) : Prop := ∃ T, holds_values q T vs.

Lemma slot_set_eq q i v : slot (set_slot q i v) i = v.
Proof. unfold slot, set_slot. simpl. by rewrite lookup_insert_eq. Qed.
Lemma slot_set_ne q i j v : i ≠ j → slot (set_slot q i v) j = slot q j.
Proof. intros. unfold slot, set_slot. simpl. by rewrite lookup_insert_ne. Qed.
Lemma slot_set_head q h j : slot (set_head q h) j = slot q j.
Proof. done. Qed.
Lemma slot_set_tail q h j : slot (set_tail q h) j = slot q j.
Proof. done. Qed.

Lemma pair_of_range i : 0 ≤ pair_of i ∧ pair_of i + 2 ≤ QUEUE_SIZE.
Proof.
  unfold pair_of, PAIRS, QUEUE_SIZE. pose proof (Z.mod_pos_bound i 8192 ltac:(lia)). lia.
Qed.

Lemma pair_of_succ i : advance (pair_of i) = pair_of (i + 1).
Proof.
  unfold advance, pair_of, PAIRS, QUEUE_SIZE.
  destruct (Z.leb_spec (8192 * 2) (2 * (i mod 8192) + 2));
    Z.to_euclidean_division_equations; lia.
Qed.

Lemma pair_of_ne i j : i < j < i + PAIRS → pair_of i ≠ pair_of j.
Proof. unfold pair_of, PAIRS. intros H. Z.to_euclidean_division_equations. lia. Qed.

Lemma pair_of_ne' i j : i ≠ j → - PAIRS < i - j < PAIRS → pair_of i ≠ pair_of j.
Proof.
  intros Hne Hr. destruct (decide (i < j)).
  - apply pair_of_ne. lia.
  - apply not_eq_sym, pair_of_ne. lia.
Qed.

(** Flags live at even indices, values at odd ones. *)
Lemma flag_ne_value i j : pair_of i ≠ pair_of j + 1.
Proof. unfold pair_of. lia. Qed.

Lemma pair_of_period i : pair_of (i + PAIRS) = pair_of i.
Proof. unfold pair_of, PAIRS. Z.to_euclidean_division_equations. lia. Qed.

Lemma flags_produce q T H :
  flags_ok q T H → H - T < PAIRS → flags_ok (set_slot q (pair_of H) SW_QUEUE_OCCUPIED) T (H + 1).
Proof.
  intros [Hb Ho Hf] Hlt. split; [lia| |].
  - intros i Hi. destruct (decide (i = H)) as [->|]; [apply slot_set_eq|].
    rewrite slot_set_ne by (apply pair_of_ne'; lia). apply Ho. lia.
  - intros i Hi. rewrite slot_set_ne by (apply pair_of_ne'; lia). apply Hf. lia.
Qed.

Lemma flags_consume q T H :
  flags_ok q T H → T < H → flags_ok (set_slot q (pair_of T) SW_QUEUE_NULL) (T + 1) H.
Proof.
  intros [Hb Ho Hf] Hlt. split; [lia| |].
  - intros i Hi. rewrite slot_set_ne by (apply pair_of_ne'; lia). apply Ho. lia.
  - intros i Hi. destruct (decide (i = T + PAIRS)) as [->|].
    + rewrite pair_of_period. apply slot_set_eq.
    + rewrite slot_set_ne by (apply pair_of_ne'; lia). apply Hf. lia.
Qed.

Lemma flags_value q T H k v : flags_ok q T H → flags_ok (set_slot q (pair_of k + 1) v) T H.
Proof.
  intros [Hb Ho Hf]. split; [done| |]; intros i Hi;
    rewrite slot_set_ne by (apply not_eq_sym, flag_ne_value); auto.
Qed.

Lemma flags_head q T H h : flags_ok q T H → flags_ok (set_head q h) T H.
Proof. intros [Hb Ho Hf]. split; done. Qed.
Lemma flags_tail q T H h : flags_ok q T H → flags_ok (set_tail q h) T H.
Proof. intros [Hb Ho Hf]. split; done. Qed.
#[global] Hint Resolve flags_value flags_head flags_tail : smtx.

(** The flag at [head] and at [tail] tell full and empty apart. *)
Lemma flag_at_head q T H : flags_ok q T H →
  slot q (pair_of H) = SW_QUEUE_NULL ↔ H - T < PAIRS.
Proof.
  intros [Hb Ho Hf]. split.
  - intros E. destruct (decide (H - T = PAIRS)) as [Hfull|]; [|lia].
    assert (0 < PAIRS) by done.
    rewrite <-(Z.sub_add PAIRS H), pair_of_period, Ho in E by lia. done.
  - intros Hlt. apply Hf. lia.
Qed.

Lemma flag_at_tail q T H : flags_ok q T H → slot q (pair_of T) = SW_QUEUE_NULL ↔ T = H.
Proof.
  intros [Hb Ho Hf]. split.
  - intros E. destruct (decide (T < H)); [|lia]. by rewrite Ho in E by lia.
  - intros ->. apply Hf. unfold PAIRS in *. lia.
Qed.

(** ** The operations implement a bounded FIFO *)

Lemma create_holds : queue_holds sw_queue_create [].
Proof.
  exists 0. split; [|done]. split; [unfold PAIRS; simpl; lia| |].
  - simpl. intros i Hi. lia.
  - intros i _. unfold slot. simpl. by rewrite lookup_empty.
Qed.

Lemma produce_holds q T vs v :
  holds_values q T vs →
  if decide (Z.of_nat (length vs) < PAIRS)
  then ∃ q', sw_queue_produce q v = Some q' ∧ holds_values q' T (vs ++ [v])
  else sw_queue_produce q v = None.
Proof.
  intros (Hfl & Hh & Ht & Hv). unfold sw_queue_produce. rewrite Hh.
  pose proof (flag_at_head _ _ _ Hfl) as Hiff.
  destruct (decide (Z.of_nat (length vs) < PAIRS)) as [Hlt|Hge].
  - rewrite decide_True by (apply Hiff; lia). eexists. split; [done|].
    unfold holds_values. rewrite length_app, Nat2Z.inj_add, Z.add_assoc.
    set (H := T + Z.of_nat (length vs)) in *. simpl.
    split_and!.
    + apply flags_head. rewrite Hh. apply flags_produce; [by apply flags_value|lia].
    + rewrite Hh. apply pair_of_succ.
    + done.
    + intros j w Hj. rewrite slot_set_head, slot_set_ne by (rewrite Hh; apply flag_ne_value).
      apply lookup_app_Some in Hj as [Hj|[Hle Hj]].
      * assert (Z.of_nat j < Z.of_nat (length vs)) by (apply lookup_lt_Some in Hj; lia).
        rewrite slot_set_ne; [by apply Hv|].
        assert (pair_of H ≠ pair_of (T + Z.of_nat j)); [apply pair_of_ne'; lia|lia].
      * apply list_lookup_singleton_Some in Hj as [Hj <-].
        replace (T + Z.of_nat j) with H by lia. apply slot_set_eq.
  - rewrite decide_False; [done|]. rewrite Hiff. lia.
Qed.

Lemma consume_holds q T vs :
  holds_values q T vs →
  match vs with
  | [] => sw_queue_consume q = None
  | v :: vs' => ∃ q', sw_queue_consume q = Some (v, q') ∧ holds_values q' (T + 1) vs'
  end.
Proof.
  intros (Hfl & Hh & Ht & Hv). unfold sw_queue_consume. rewrite Ht.
  pose proof (flag_at_tail _ _ _ Hfl) as Hiff. destruct vs as [|v vs]; simpl length in *.
  - rewrite decide_True; [done|]. apply Hiff. lia.
  - rewrite decide_False by (rewrite Hiff; lia).
    pose proof (Hv 0%nat v eq_refl) as Hv0. rewrite Z.add_0_r in Hv0. rewrite Hv0.
    eexists. split; [done|]. rewrite Nat2Z.inj_succ in *.
    unfold holds_values. replace (T + 1 + Z.of_nat (length vs)) with (T + Z.succ (Z.of_nat (length vs))) by lia.
    simpl q_tail. rewrite !Ht, slot_set_eq. split_and!.
    + apply flags_tail, flags_consume; [by apply flags_value|lia].
    + done.
    + apply pair_of_succ.
    + intros j w Hj. rewrite slot_set_tail, slot_set_ne by apply flag_ne_value.
      assert (Z.of_nat j < Z.of_nat (length vs)) by (apply lookup_lt_Some in Hj; lia).
      destruct Hfl as [Hb _ _]. rewrite slot_set_ne.
      2:{ assert (pair_of T ≠ pair_of (T + 1 + Z.of_nat j)); [apply pair_of_ne'; lia|lia]. }
      specialize (Hv (S j) w Hj). rewrite Nat2Z.inj_succ in Hv.
      replace (T + 1 + Z.of_nat j) with (T + Z.succ (Z.of_nat j)) by lia. done.
Qed.

Lemma clear_step q T vs v :
  holds_values q T (v :: vs) → ∃ q', clear_round q = inl q' ∧
    holds_values q' (T + 1) vs.
Proof.
  intros (Hfl & Hh & Ht & Hv). unfold clear_round. rewrite Ht.
  simpl length in *. rewrite Nat2Z.inj_succ in *.
  rewrite decide_False by (rewrite (flag_at_tail _ _ _ Hfl); lia).
  eexists. split; [done|]. unfold holds_values.
  replace (T + 1 + Z.of_nat (length vs)) with (T + Z.succ (Z.of_nat (length vs))) by lia.
  simpl. rewrite Ht. split_and!.
  - apply flags_tail, flags_consume; [done|lia].
  - done.
  - apply pair_of_succ.
  - intros j w Hj. rewrite slot_set_tail, slot_set_ne by apply flag_ne_value.
    specialize (Hv (S j) w Hj). rewrite Nat2Z.inj_succ in Hv.
    replace (T + 1 + Z.of_nat j) with (T + Z.succ (Z.of_nat j)) by lia. done.
Qed.

Lemma clear_lin q T vs k : holds_values q T vs → (length vs < k)%nat →
  ∃ q', rounds_lin k clear_round q = inr q' ∧ queue_holds q' [].
Proof.
  revert q T k. induction vs as [|v vs IH]; intros q T k Hq Hk; simpl in *.
  - destruct k as [|k]; [lia|]. simpl. unfold clear_round at 1.
    destruct Hq as (Hfl & Hh & Ht & Hv). rewrite decide_True.
    + exists q. split; [done|]. by exists T.
    + rewrite Ht. apply (flag_at_tail _ _ _ Hfl). simpl. lia.
  - destruct k as [|k]; [lia|]. simpl.
    destruct (clear_step q T vs v Hq) as (q' & -> & Hq'). apply (IH q' (T + 1)); [done|lia].
Qed.

Lemma clear_holds q vs : queue_holds q vs → ∃ q', sw_queue_clear q = Some q' ∧ queue_holds q' [].
Proof.
  intros [T Hq]. assert (length vs < 2 ^ 14)%nat as Hl.
  { destruct Hq as ([Hb _ _] & _). unfold PAIRS in Hb.
    apply Nat2Z.inj_lt. rewrite Nat2Z.inj_pow. lia. }
  destruct (clear_lin q T vs _ Hq Hl) as (q' & E & Hq').
  exists q'. unfold sw_queue_clear. by rewrite rounds_spec, E.
Qed.

Lemma empty_holds q vs : queue_holds q vs → sw_queue_empty q = bool_decide (vs = []).
Proof.
  intros (T & Hfl & Hh & Ht & Hv). unfold sw_queue_empty. rewrite Ht.
  apply bool_decide_ext. rewrite (flag_at_tail _ _ _ Hfl). destruct vs; simpl; split; (done || lia).
Qed.

(** Calls on a queue, and what they do to the list of values it holds. *)
Inductive qop := Produce (v : vptr) | Consume | Clear | Empty.
Inductive qres := RUnit | RValue (v : vptr) | RBool (b : bool).

Definition run_queue (q : queue_t) (op : qop) : option (qres * queue_t) :=
  match op with
  | Produce v => fmap (λ q', (RUnit, q')) (sw_queue_produce q v)
  | Consume => fmap (λ r, (RValue r.1, r.2)) (sw_queue_consume q)
  | Clear => fmap (λ q', (RUnit, q')) (sw_queue_clear q)
  | Empty => Some (RBool (sw_queue_empty q), q)
  end.

(** [None]: the call waits for the other side. *)
Definition run_fifo (vs : list vptr) (op : qop) : option (qres * list vptr) :=
  match op with
  | Produce v => if decide (Z.of_nat (length vs) < PAIRS) then Some (RUnit, vs ++ [v]) else None
  | Consume => match vs with [] => None | v :: vs' => Some (RValue v, vs') end
  | Clear => Some (RUnit, [])
  | Empty => Some (RBool (bool_decide (vs = [])), vs)
  end.

Fixpoint run_all {S} (f : S → qop → option (qres * S)) (ops : list qop) (s : S)
    : option (list qres * S) :=
  match ops with
  | [] => Some ([], s)
  | op :: ops =>
      match f s op with
      | Some (r, s') => fmap (λ rs, (r :: rs.1, rs.2)) (run_all f ops s')
      | None => None
      end
  end.

Lemma run_queue_step q vs op : queue_holds q vs →
  match run_queue q op, run_fifo vs op with
  | Some (r1, q'), Some (r2, vs') => r1 = r2 ∧ queue_holds q' vs'
  | None, None => True
  | _, _ => False
  end.
Proof.
  intros Hq. destruct op as [v| | |]; simpl.
  - destruct Hq as [T Hq]. pose proof (produce_holds q T vs v Hq) as H.
    destruct (decide _); [destruct H as (q' & -> & Hq')|by rewrite H].
    simpl. split; [done|]. by exists T.
  - destruct Hq as [T Hq]. pose proof (consume_holds q T vs Hq) as H.
    destruct vs; [by rewrite H|destruct H as (q' & -> & Hq')].
    simpl. split; [done|]. by exists (T + 1).
  - destruct (clear_holds q vs Hq) as (q' & -> & Hq'). done.
  - by rewrite (empty_holds q vs).
Qed.

Lemma run_queue_all ops : ∀ q vs, queue_holds q vs →
  match run_all run_queue ops q, run_all run_fifo ops vs with
  | Some (r1, q'), Some (r2, vs') => r1 = r2 ∧ queue_holds q' vs'
  | None, None => True
  | _, _ => False
  end.
Proof.
  induction ops as [|op ops IH]; intros q vs Hq; simpl; [done|].
  pose proof (run_queue_step q vs op Hq) as H.
  destruct (run_queue q op) as [[r q']|], (run_fifo vs op) as [[r' vs']|]; try done.
  destruct H as [-> Hq']. specialize (IH q' vs' Hq').
  destruct (run_all run_queue ops q') as [[rs q'']|], (run_all run_fifo ops vs') as [[rs' vs'']|];
    simpl; try done. by destruct IH as [-> ?].
Qed.

(** [C33] Any sequence of calls on a fresh queue behaves like the same calls on
    a bounded FIFO list of 8192 values: same results, and a call waits on the
    array exactly when it waits on the list (produce on a full one, consume on
    an empty one); clearing always ends. *)
Theorem sw_queue_refines_fifo ops :
  match run_all run_queue ops sw_queue_create, run_all run_fifo ops [] with
  | Some (r1, q'), Some (r2, vs') => r1 = r2 ∧ queue_holds q' vs'
  | None, None => True
  | _, _ => False
  end.
Proof. apply run_queue_all, create_holds. Qed.

(** ** One producer and one consumer, interleaved

    Each access to the shared array is a step of its own.  [c_in] records the
    values whose flag was set, [c_out] those whose flag was cleared. *)
Inductive ppc :=
| PIdle | PWait (v : vptr) | PVal (v : vptr) | PFlag (v : vptr) | PAdv | PWrap.
Inductive cpc :=
| CIdle | CWait | CLoad | CClrV (v : vptr) | CClrF (v : vptr) | CAdv (v : vptr) | CWrap (v : vptr).

Record conc := Conc {
  c_q : queue_t; c_p : ppc; c_c : cpc; c_in : list vptr; c_out : list vptr }.

Definition wrap_ptr (p : Z) : Z := if QUEUE_SIZE <=? p then 0 else p.

(** [__sw_queue_produce], access by access. *)
Inductive pstep : conc → conc → Prop :=
| p_call q c i o v :
    pstep (Conc q PIdle c i o) (Conc q (PWait v) c i o)
| p_spin q c i o v : slot q (q_head q) ≠ SW_QUEUE_NULL →
    pstep (Conc q (PWait v) c i o) (Conc q (PWait v) c i o)
| p_free q c i o v : slot q (q_head q) = SW_QUEUE_NULL →
    pstep (Conc q (PWait v) c i o) (Conc q (PVal v) c i o)
| p_value q c i o v :
    pstep (Conc q (PVal v) c i o) (Conc (set_slot q (q_head q + 1) v) (PFlag v) c i o)
| p_flag q c i o v :
    pstep (Conc q (PFlag v) c i o)
          (Conc (set_slot q (q_head q) SW_QUEUE_OCCUPIED) PAdv c (i ++ [v]) o)
| p_advance q c i o :
    pstep (Conc q PAdv c i o) (Conc (set_head q (q_head q + 2)) PWrap c i o)
| p_return q c i o :
    pstep (Conc q PWrap c i o) (Conc (set_head q (wrap_ptr (q_head q))) PIdle c i o).

(** [__sw_queue_consume], access by access. *)
Inductive cstep : conc → conc → Prop :=
| c_call q p i o :
    cstep (Conc q p CIdle i o) (Conc q p CWait i o)
| c_spin q p i o : slot q (q_tail q) = SW_QUEUE_NULL →
    cstep (Conc q p CWait i o) (Conc q p CWait i o)
| c_ready q p i o : slot q (q_tail q) ≠ SW_QUEUE_NULL →
    cstep (Conc q p CWait i o) (Conc q p CLoad i o)
| c_load q p i o :
    cstep (Conc q p CLoad i o) (Conc q p (CClrV (slot q (q_tail q + 1))) i o)
| c_clear_value q p i o v :
    cstep (Conc q p (CClrV v) i o) (Conc (set_slot q (q_tail q + 1) SW_QUEUE_NULL) p (CClrF v) i o)
| c_clear_flag q p i o v :
    cstep (Conc q p (CClrF v) i o)
          (Conc (set_slot q (q_tail q) (slot q (q_tail q + 1))) p (CAdv v) i (o ++ [v]))
| c_advance q p i o v :
    cstep (Conc q p (CAdv v) i o) (Conc (set_tail q (q_tail q + 2)) p (CWrap v) i o)
| c_return q p i o v :
    cstep (Conc q p (CWrap v) i o) (Conc (set_tail q (wrap_ptr (q_tail q))) p CIdle i o).

Definition qstep (s s' : conc) : Prop := pstep s s' ∨ cstep s s'.

Definition conc0 : conc := Conc sw_queue_create PIdle CIdle [] [].

Definition lenZ {A} (l : list A) : Z := Z.of_nat (length l).

(** The producer, given that [H] flags were set; the consumer, given that [T]
    flags were cleared. *)
Definition producer_ok (q : queue_t) (T H : Z) (p : ppc) : Prop :=
  match p with
  | PIdle | PWait _ => q_head q = pair_of H
  | PVal _ => q_head q = pair_of H ∧ H - T < PAIRS
  | PFlag v => q_head q = pair_of H ∧ H - T < PAIRS ∧ slot q (pair_of H + 1) = v
  | PAdv => q_head q = pair_of (H - 1)
  | PWrap => q_head q = pair_of (H - 1) + 2
  end.

Definition consumer_ok (q : queue_t) (T H : Z) (inp : list vptr) (c : cpc) : Prop :=
  match c with
  | CIdle | CWait => q_tail q = pair_of T
  | CLoad => q_tail q = pair_of T ∧ T < H
  | CClrV v => q_tail q = pair_of T ∧ T < H ∧ inp !! Z.to_nat T = Some v
  | CClrF v => q_tail q = pair_of T ∧ T < H ∧ inp !! Z.to_nat T = Some v ∧
               slot q (pair_of T + 1) = SW_QUEUE_NULL
  | CAdv _ => q_tail q = pair_of (T - 1)
  | CWrap _ => q_tail q = pair_of (T - 1) + 2
  end.

(** While the consumer clears the pair of value [T], its value is gone. *)
Definition first_value (T : Z) (c : cpc) : Z := match c with CClrF _ => T + 1 | _ => T end.

Record conc_inv (s : conc) : Prop := {
  ci_flags : flags_ok (c_q s) (lenZ (c_out s)) (lenZ (c_in s));
  ci_out : c_out s = take (length (c_out s)) (c_in s);
  ci_vals : ∀ i v, first_value (lenZ (c_out s)) (c_c s) ≤ i → c_in s !! Z.to_nat i = Some v →
    slot (c_q s) (pair_of i + 1) = v;
  ci_p : producer_ok (c_q s) (lenZ (c_out s)) (lenZ (c_in s)) (c_p s);
  ci_c : consumer_ok (c_q s) (lenZ (c_out s)) (lenZ (c_in s)) (c_in s) (c_c s) }.

Lemma value_ne i j : i ≠ j → - PAIRS < i - j < PAIRS → pair_of i + 1 ≠ pair_of j + 1.
Proof. intros. pose proof (pair_of_ne' i j). lia. Qed.

Lemma lenZ_app {A} (l : list A) x : lenZ (l ++ [x]) = lenZ l + 1.
Proof. unfold lenZ. rewrite length_app. simpl. lia. Qed.

Lemma lookup_in_range {A} (l : list A) i v : 0 ≤ i → l !! Z.to_nat i = Some v → i < lenZ l.
Proof. intros Hi H%lookup_lt_Some. unfold lenZ. lia. Qed.

Lemma conc0_inv : conc_inv conc0.
Proof.
  destruct create_holds as (T & Hfl & Hh & Ht & _).
  split; simpl; try done. unfold lenZ. simpl.
  split; [unfold PAIRS; lia|lia|]. intros i _. unfold slot. simpl. by rewrite lookup_empty.
Qed.

(** The producer keeps what the consumer relies on. *)
Lemma consumer_frame q T H inp c k v :
  consumer_ok q T H inp c → 0 ≤ H - T ≤ PAIRS → (T < H → H - T < PAIRS) → k = H →
  consumer_ok (set_slot q (pair_of k + 1) v) T H inp c.
Proof.
  intros Hc Hb Hlt ->. destruct c; simpl in *; try done.
  destruct Hc as (? & ? & ? & Hs). split_and!; try done.
  rewrite slot_set_ne; [done|]. apply value_ne; lia.
Qed.

Lemma pstep_inv s s' : conc_inv s → pstep s s' → conc_inv s'.
Proof.
  intros [Hfl Hout Hv Hp Hc] Hstep. assert (0 < PAIRS) by done.
  assert (0 ≤ lenZ (c_out s)) by (unfold lenZ; lia).
  destruct Hstep; simpl in *; try (split; simpl; done).
  - (* the flag at head is clear *)
    split; simpl; try done. split; [done|]. rewrite Hp in H1. by apply (flag_at_head _ _ _ Hfl).
  - (* write the value *)
    destruct Hp as [Hh Hlt]. rewrite Hh. split; simpl.
    + by apply flags_value.
    + done.
    + intros k w Hk Hw. pose proof (lookup_in_range i k w) as Hr.
      assert (lenZ o ≤ k) by (destruct c; simpl in Hk; lia). specialize (Hr ltac:(lia) Hw).
      rewrite slot_set_ne; [by apply Hv|]. apply value_ne; lia.
    + split_and!; [done|done|]. apply slot_set_eq.
    + apply consumer_frame; [done| |lia|done]. destruct Hfl; lia.
  - (* set the flag *)
    destruct Hp as (Hh & Hlt & Hval). rewrite Hh. split; simpl; rewrite ?lenZ_app.
    + by apply flags_produce.
    + rewrite take_app_le; [done|]. destruct Hfl as [Hb _ _]. unfold lenZ in Hb. lia.
    + intros k w Hk Hw. rewrite slot_set_ne by apply flag_ne_value.
      apply lookup_app_Some in Hw as [Hw|[Hle Hw]]; [by apply Hv|].
      apply list_lookup_singleton_Some in Hw as [Hw <-].
      assert (lenZ o ≤ k) by (destruct c; simpl in Hk; lia).
      replace k with (lenZ i) by (unfold lenZ in *; lia). done.
    + rewrite Z.add_simpl_r. done.
    + destruct c; simpl in *; try done;
        repeat match goal with H : _ ∧ _ |- _ => destruct H end;
        split_and!; try lia; try done; try (by apply lookup_app_l_Some).
      by rewrite slot_set_ne by apply flag_ne_value.
  - (* advance head *)
    split; simpl; try done; [by apply flags_head|]. by rewrite Hp.
  - split; simpl; try done; [by apply flags_head|]. rewrite Hp.
    pose proof (pair_of_succ (lenZ i - 1)) as E. rewrite Z.sub_add in E. by rewrite <-E.
Qed.

(** The consumer keeps what the producer relies on. *)
Lemma producer_frame q T H p v :
  producer_ok q T H p → T < H →
  producer_ok (set_slot q (pair_of T + 1) v) T H p.
Proof.
  intros Hp Hlt. destruct p; simpl in *; try done.
  destruct Hp as (? & ? & ?). split_and!; try done.
  rewrite slot_set_ne; [done|]. apply value_ne; lia.
Qed.

Lemma cstep_inv s s' : conc_inv s → cstep s s' → conc_inv s'.
Proof.
  intros [Hfl Hout Hv Hp Hc] Hstep. assert (0 < PAIRS) by done.
  assert (0 ≤ lenZ (c_out s)) by (unfold lenZ; lia).
  destruct Hstep; simpl in *; try (split; simpl; done).
  - (* the flag at tail is set *)
    split; simpl; try done. split; [done|]. rewrite Hc, (flag_at_tail _ _ _ Hfl) in H1.
    destruct Hfl; lia.
  - (* load the value *)
    destruct Hc as [Ht Hlt]. split; simpl; try done. split_and!; [done|done|].
    destruct (lookup_lt_is_Some_2 i (Z.to_nat (lenZ o))) as [w Hw]; [unfold lenZ in *; lia|].
    rewrite Hw, Ht. f_equal. symmetry. apply Hv; [lia|done].
  - (* clear the value *)
    destruct Hc as (Ht & Hlt & Hw). rewrite Ht. split; simpl; try done.
    + by apply flags_value.
    + intros k w Hk Hw'. pose proof (lookup_in_range i k w ltac:(lia) Hw').
      destruct Hfl as [Hb _ _]. rewrite slot_set_ne; [apply Hv; [lia|done]|]. apply value_ne; lia.
    + by apply producer_frame.
    + split_and!; [done|done|done|]. apply slot_set_eq.
  - (* clear the flag *)
    destruct Hc as (Ht & Hlt & Hw & Hnull). rewrite Ht, Hnull. split; simpl; rewrite ?lenZ_app.
    + by apply flags_consume.
    + rewrite length_app, Nat.add_1_r. rewrite (take_S_r _ _ v), <-Hout; [done|].
      rewrite <-Hw. f_equal. unfold lenZ. lia.
    + intros k w Hk Hw'. rewrite slot_set_ne by apply flag_ne_value. by apply Hv.
    + destruct p; simpl in *; try done;
        repeat match goal with H : _ ∧ _ |- _ => destruct H end; split_and!; try lia; try done.
      by rewrite slot_set_ne by apply flag_ne_value.
    + by rewrite Z.add_simpl_r.
  - split; simpl; try done; [by apply flags_tail|]. by rewrite Hc.
  - split; simpl; try done; [by apply flags_tail|]. rewrite Hc.
    pose proof (pair_of_succ (lenZ o - 1)) as E. rewrite Z.sub_add in E. by rewrite <-E.
Qed.

Lemma qstep_inv s : rtc qstep conc0 s → conc_inv s.
Proof.
  intros H. remember conc0 as s0. assert (conc_inv s0) as H0 by (subst; apply conc0_inv).
  clear Heqs0. induction H as [|s0 s1 s2 [H1|H1] _ IH]; [done| |].
  - apply IH. by eapply pstep_inv.
  - apply IH. by eapply cstep_inv.
Qed.

(** [C34] Under every interleaving of the memory accesses of one producer and
    one consumer, the values taken out are a prefix of the values put in, in
    the same order, and never more than 8192 values are in flight. *)
Theorem sw_queue_concurrent_fifo s :
  rtc qstep conc0 s →
  c_out s `prefix_of` c_in s ∧ lenZ (c_in s) - lenZ (c_out s) ≤ PAIRS ∧
  (∀ v, c_c s = CClrV v → c_in s !! length (c_out s) = Some v).
Proof.
  intros [Hfl Hout Hv Hp Hc]%qstep_inv. split_and!.
  - rewrite Hout. apply prefix_take.
  - destruct Hfl; lia.
  - intros v E. rewrite E in Hc. destruct Hc as (_ & _ & Hw). rewrite <-Hw. f_equal.
    unfold lenZ. lia.
Qed.

(** One value produced and loaded by the consumer. *)
Definition conc_loaded : conc :=
  Conc (set_slot (set_slot sw_queue_create 1 (WInt 7)) 0 SW_QUEUE_OCCUPIED)
       PAdv (CClrV (WInt 7)) [WInt 7] [].

Lemma conc_loaded_reachable : rtc qstep conc0 conc_loaded.
Proof.
  eapply rtc_l; [left; apply (p_call _ _ _ _ (WInt 7))|].
  eapply rtc_l; [right; apply c_call|].
  eapply rtc_l; [left; apply p_free; by vm_compute|].
  eapply rtc_l; [left; apply p_value|].
  eapply rtc_l; [left; apply p_flag|].
  eapply rtc_l; [right; apply c_ready; by vm_compute|].
  eapply rtc_l; [right; apply c_load|].
  apply rtc_refl.
Qed.

Lemma sw_queue_concurrent_fifo_witness : c_in conc_loaded !! length (c_out conc_loaded) = Some (WInt 7).
Proof. exact (proj2 (proj2 (sw_queue_concurrent_fifo conc_loaded conc_loaded_reachable)) (WInt 7) eq_refl). Defined.

(** [C35] The two sides never wait for each other: when the producer finds the
    slot at [head] occupied, the queue holds 8192 values and the consumer does
    not find it empty; when the consumer finds it empty, the producer finds a
    free slot. *)
Theorem sw_queue_no_deadlock s v :
  rtc qstep conc0 s → c_p s = PWait v → c_c s = CWait →
  slot (c_q s) (q_head (c_q s)) = SW_QUEUE_NULL ∨ slot (c_q s) (q_tail (c_q s)) ≠ SW_QUEUE_NULL.
Proof.
  intros [Hfl Hout Hv Hp Hc]%qstep_inv Ep Ec. rewrite Ep in Hp. rewrite Ec in Hc.
  simpl in *. rewrite Hp, Hc. rewrite (flag_at_head _ _ _ Hfl), (flag_at_tail _ _ _ Hfl).
  assert (0 < PAIRS) by done. destruct Hfl. lia.
Qed.

(** Both sides at their wait loop on a fresh queue. *)
Definition conc_waiting : conc := Conc sw_queue_create (PWait (WInt 7)) CWait [] [].

Lemma conc_waiting_reachable : rtc qstep conc0 conc_waiting.
Proof.
  eapply rtc_l; [left; apply (p_call _ _ _ _ (WInt 7))|].
  eapply rtc_l; [right; apply c_call|]. apply rtc_refl.
Qed.

Lemma sw_queue_no_deadlock_witness :
  slot (c_q conc_waiting) (q_head (c_q conc_waiting)) = SW_QUEUE_NULL ∨
  slot (c_q conc_waiting) (q_tail (c_q conc_waiting)) ≠ SW_QUEUE_NULL.
Proof. exact (sw_queue_no_deadlock conc_waiting (WInt 7) conc_waiting_reachable eq_refl eq_refl). Defined.

Lemma produce_room q vs v : queue_holds q vs → lenZ vs < PAIRS →
  ∃ q', sw_queue_produce q v = Some q' ∧ queue_holds q' (vs ++ [v]).
Proof.
  intros [T Hq] Hlt. pose proof (produce_holds q T vs v Hq) as H.
  rewrite decide_True in H by done. destruct H as (q' & ? & ?). exists q'. split; [done|]. by exists T.
Qed.

Lemma produce_full q vs v : queue_holds q vs → lenZ vs = PAIRS → sw_queue_produce q v = None.
Proof.
  intros [T Hq] Hfull. pose proof (produce_holds q T vs v Hq) as H.
  rewrite decide_False in H by (unfold lenZ in Hfull; lia). done.
Qed.

Lemma consume_some q v vs : queue_holds q (v :: vs) →
  ∃ q', sw_queue_consume q = Some (v, q') ∧ queue_holds q' vs.
Proof.
  intros [T Hq]. destruct (consume_holds q T _ Hq) as (q' & ? & ?).
  exists q'. split; [done|]. by exists (T + 1).
Qed.

Lemma consume_none q : queue_holds q [] → sw_queue_consume q = None.
Proof. intros [T Hq]. apply (consume_holds q T _ Hq). Qed.

Lemma queue_bound q vs : queue_holds q vs → lenZ vs ≤ PAIRS.
Proof. intros (T & [Hb _ _] & _). unfold lenZ. lia. Qed.

(** ** The queue as an interface

    What the queue promises to its clients: a bounded FIFO.  A client is
    verified against this class. *)
Class Channel (Q : Type) := {
  ch_new : Q;
  ch_produce : Q → vptr → option Q;
  ch_consume : Q → option (vptr * Q);
  ch_empty : Q → bool;
  ch_clear : Q → option Q;
  ch_cap : Z;
  ch_holds : Q → list vptr → Prop;
  ch_cap_pos : 0 < ch_cap;
  ch_new_holds : ch_holds ch_new [];
  ch_bound q vs : ch_holds q vs → lenZ vs ≤ ch_cap;
  ch_produce_room q vs v : ch_holds q vs → lenZ vs < ch_cap →
    ∃ q', ch_produce q v = Some q' ∧ ch_holds q' (vs ++ [v]);
  ch_produce_full q vs v : ch_holds q vs → lenZ vs = ch_cap → ch_produce q v = None;
  ch_consume_some q v vs : ch_holds q (v :: vs) →
    ∃ q', ch_consume q = Some (v, q') ∧ ch_holds q' vs;
  ch_consume_none q : ch_holds q [] → ch_consume q = None;
  ch_empty_spec q vs : ch_holds q vs → ch_empty q = bool_decide (vs = []);
  ch_clear_spec q vs : ch_holds q vs → ∃ q', ch_clear q = Some q' ∧ ch_holds q' [] }.

#[global, refine] Instance sw_queue_channel : Channel queue_t := {|
  ch_new := sw_queue_create;
  ch_produce := sw_queue_produce;
  ch_consume := sw_queue_consume;
  ch_empty := sw_queue_empty;
  ch_clear := sw_queue_clear;
  ch_cap := PAIRS;
  ch_holds := queue_holds |}.
Proof.
  - done.
  - apply create_holds.
  - apply queue_bound.
  - apply produce_room.
  - apply produce_full.
  - apply consume_some.
  - apply consume_none.
  - apply empty_holds.
  - apply clear_holds.
Defined.
