(* ===== verification/SpecQueue.v ===== *)
(** The queues of the parallelized program ([specpriv_queue.cpp]).

    One logical queue connects two pipeline stages, at least one of which is
    sequential; it is an array of point-to-point queues, one per replica of the
    other stage.  The queue of an iteration is found by the iteration number
    modulo the number of replicas. *)
From S2P Require Import Prelude Machine Strategy SwQueue.

Section spec_queue.
Context {Q : Type} `{Ch : Channel Q}.

Record specpriv_queue := SpecPrivQueue {
  sq_queues : gmap Z Q;
  sq_n_queues : Z }.

(** Run a queue operation on [queues[index]]. *)
Definition on_queue {A} (index : Z) (f : Q → option (A * Q)) : M specpriv_queue A := λ s,
  match sq_queues s !! index with
  | None => Stop Fault s
  | Some q =>
      match f q with
      | Some (a, q') => Ok a (SpecPrivQueue (<[index := q']> (sq_queues s)) (sq_n_queues s))
      | None => Stop Spinning s
      end
  end.

Definition produce_ (v : vptr) (q : Q) : option (unit * Q) := (λ q', (tt, q')) <$> ch_produce q v.
Definition clear_ (q : Q) : option (unit * Q) := (λ q', (tt, q')) <$> ch_clear q.

(** The index [get_queue] selects at iteration [iter]. *)
Definition get_queue (iter : Z) (s : specpriv_queue) : Z := u32 iter mod sq_n_queues s.

(** The casts between [int64_t] and [void*]. *)
Definition to_ptr (value : Z) : vptr := WInt (u64 value).
Definition of_ptr (v : vptr) : M specpriv_queue Z :=
  match v with WInt z => ret (i64 z) | _ => halt Fault end.

(** [None]: the assertion [N == 1 || M == 1] failed. *)
Definition create_queue (N M : Z) : option specpriv_queue :=
  if (N =? 1) || (M =? 1) then
    let n_queues := u32 (N * M) in
    Some (SpecPrivQueue (foldl (λ t i, <[i := ch_new]> t) ∅ (seqZ 0 n_queues)) n_queues)
  else None.

Definition produce (iter value : Z) : M specpriv_queue unit :=
  let! index := gets (get_queue iter) in
  on_queue index (produce_ (to_ptr value)).

Definition produce_replicated (value : Z) : M specpriv_queue unit :=
  let! n := gets sq_n_queues in
  for_ (seqZ 0 n) (λ i, on_queue i (produce_ (to_ptr value))).

Definition consume (iter : Z) : M specpriv_queue Z :=
  let! index := gets (get_queue iter) in
  let! v := on_queue index ch_consume in
  of_ptr v.

(** Position of a worker inside its stage. *)
Definition replica_index (g : strategy) (wid : Z) : Z :=
  u32 (wid - GET_FIRST_WID_OF_STAGE g (GET_MY_STAGE g wid)).

Definition consume_replicated (g : strategy) (wid : Z) : M specpriv_queue Z :=
  let! v := on_queue (replica_index g wid) ch_consume in
  of_ptr v.

Definition clear (g : strategy) (wid : Z) : M specpriv_queue unit :=
  on_queue (replica_index g wid) clear_.

(** [__sw_queue_flush] does nothing. *)
Definition flush : M specpriv_queue unit :=
  let! n := gets sq_n_queues in
  for_ (seqZ 0 n) (λ i, on_queue i (λ q, Some (tt, q))).

Definition reset_queue : M specpriv_queue unit :=
  let! n := gets sq_n_queues in
  for_ (seqZ 0 n) (λ i, on_queue i (λ _, Some (tt, ch_new))).

(** ** Abstract state: one list of integers per replica *)

Definition lists_ok (s : specpriv_queue) (L : gmap Z (list Z)) : Prop :=
  0 < sq_n_queues s < 2 ^ 32 ∧
  ∀ i, 0 ≤ i < sq_n_queues s →
    ∃ q vs, sq_queues s !! i = Some q ∧ L !! i = Some vs ∧ ch_holds q (to_ptr <$> vs) ∧
      Forall (λ v, - 2 ^ 63 ≤ v < 2 ^ 63) vs.

Inductive sqop := SProduce (iter value : Z) | SConsume (iter : Z) | SReplicate (value : Z).

Definition run_sq (op : sqop) : M specpriv_queue (option Z) :=
  match op with
  | SProduce iter v => produce iter v ;;; ret None
  | SConsume iter => let! v := consume iter in ret (Some v)
  | SReplicate v => produce_replicated v ;;; ret None
  end.

(** [None]: the call waits. *)
Definition run_lists (n : Z) (L : gmap Z (list Z)) (op : sqop) : option (option Z * gmap Z (list Z)) :=
  match op with
  | SProduce iter v =>
      let k := u32 iter mod n in
      let vs := default [] (L !! k) in
      if decide (lenZ vs < ch_cap) then Some (None, <[k := vs ++ [v]]> L) else None
  | SConsume iter =>
      let k := u32 iter mod n in
      match default [] (L !! k) with
      | v :: vs => Some (Some v, <[k := vs]> L)
      | [] => None
      end
  | SReplicate v =>
      if decide (Forall (λ i, lenZ (default [] (L !! i)) < ch_cap) (seqZ 0 n))
      then Some (None, (λ vs, vs ++ [v]) <$> L) else None
  end.

Definition op_in_range (op : sqop) : Prop :=
  match op with
  | SProduce _ v | SReplicate v => - 2 ^ 63 ≤ v < 2 ^ 63
  | SConsume _ => True
  end.

Lemma i64_u64 v : - 2 ^ 63 ≤ v < 2 ^ 63 → i64 (u64 v) = v.
Proof.
  intros Hv. unfold swrap, wrap. rewrite Zplus_mod_idemp_l, Z.mod_small; lia.
Qed.

Lemma lenZ_fmap {A B} (f : A → B) l : lenZ (f <$> l) = lenZ l.
Proof. unfold lenZ. by rewrite length_fmap. Qed.

Lemma lists_insert s L i q vs :
  lists_ok s L → ch_holds q (to_ptr <$> vs) → Forall (λ v, - 2 ^ 63 ≤ v < 2 ^ 63) vs →
  lists_ok (SpecPrivQueue (<[i := q]> (sq_queues s)) (sq_n_queues s)) (<[i := vs]> L).
Proof.
  intros [Hn Hall] Hq Hvs. split; [done|]. simpl. intros j Hj.
  destruct (decide (i = j)) as [->|Hne].
  - exists q, vs. by rewrite !lookup_insert_eq.
  - rewrite !lookup_insert_ne by done. by apply Hall.
Qed.

Lemma get_queue_range s L iter : lists_ok s L → 0 ≤ get_queue iter s < sq_n_queues s.
Proof. intros [Hn _]. unfold get_queue. apply Z.mod_pos_bound. lia. Qed.

Lemma on_produce s L i v : lists_ok s L → 0 ≤ i < sq_n_queues s → - 2 ^ 63 ≤ v < 2 ^ 63 →
  let vs := default [] (L !! i) in
  match on_queue i (produce_ (to_ptr v)) s with
  | Ok _ s' => lenZ vs < ch_cap ∧ sq_n_queues s' = sq_n_queues s ∧ lists_ok s' (<[i := vs ++ [v]]> L)
  | Stop w s' => lenZ vs = ch_cap ∧ w = Spinning ∧ s' = s
  end.
Proof.
  intros Hok Hi Hv. pose proof Hok as [Hn Hall]. destruct (Hall i Hi) as (q & vs & Hq & HL & Hh & Hr).
  rewrite HL. simpl. unfold on_queue, produce_. rewrite Hq.
  pose proof (ch_bound _ _ Hh) as Hb. rewrite lenZ_fmap in Hb.
  destruct (decide (lenZ vs = ch_cap)) as [Hfull|Hroom].
  - rewrite (ch_produce_full _ _ (to_ptr v) Hh) by (by rewrite lenZ_fmap). done.
  - destruct (ch_produce_room _ _ (to_ptr v) Hh) as (q' & -> & Hh'); [rewrite lenZ_fmap; lia|].
    simpl. split; [lia|]. split; [done|]. apply lists_insert; [done| |].
    + by rewrite fmap_app.
    + apply Forall_app. split; [done|]. by apply Forall_singleton.
Qed.

Lemma on_consume s L i : lists_ok s L → 0 ≤ i < sq_n_queues s →
  match on_queue i ch_consume s, default [] (L !! i) with
  | Ok w s', v :: vs => w = to_ptr v ∧ sq_n_queues s' = sq_n_queues s ∧ lists_ok s' (<[i := vs]> L) ∧
                        - 2 ^ 63 ≤ v < 2 ^ 63
  | Stop w s', [] => w = Spinning ∧ s' = s
  | _, _ => False
  end.
Proof.
  intros Hok Hi. pose proof Hok as [Hn Hall]. destruct (Hall i Hi) as (q & vs & Hq & HL & Hh & Hr).
  rewrite HL. simpl. unfold on_queue. rewrite Hq. destruct vs as [|v vs]; simpl in *.
  - by rewrite (ch_consume_none _ Hh).
  - destruct (ch_consume_some _ _ _ Hh) as (q' & -> & Hh'). apply Forall_cons in Hr as [Hv Hr].
    split; [done|]. split; [done|]. split; [by apply lists_insert|done].
Qed.

Lemma lists_ok_ext s L L' : (∀ i, 0 ≤ i < sq_n_queues s → L !! i = L' !! i) →
  lists_ok s L → lists_ok s L'.
Proof.
  intros Heq [Hn Hall]. split; [done|]. intros i Hi. rewrite <-Heq by done. by apply Hall.
Qed.

(** The first [k] rounds of the replicating loop. *)
Definition pushed (v k : Z) (L : gmap Z (list Z)) : gmap Z (list Z) :=
  foldl (λ L i, <[i := default [] (L !! i) ++ [v]]> L) L (seqZ 0 k).

Lemma pushed_succ v k L : 0 ≤ k →
  pushed v (k + 1) L = <[k := default [] (pushed v k L !! k) ++ [v]]> (pushed v k L).
Proof. intros Hk. unfold pushed. rewrite seqZ_snoc by done. by rewrite foldl_app. Qed.

Lemma pushed_lookup v k L i : 0 ≤ k →
  pushed v k L !! i = if decide (0 ≤ i < k) then Some (default [] (L !! i) ++ [v]) else L !! i.
Proof.
  intros Hk. revert k Hk i. apply (Z_up_ind (λ k, ∀ i, _)).
  - intros i. rewrite decide_False by lia. done.
  - intros k Hk IH i. rewrite pushed_succ by done. destruct (decide (k = i)) as [->|Hne].
    + rewrite lookup_insert_eq, IH, decide_False, decide_True by lia. done.
    + rewrite lookup_insert_ne, IH by done.
      destruct (decide (0 ≤ i < k)); [rewrite decide_True by lia|rewrite decide_False by lia]; done.
Qed.

Lemma replicate_loop s L v k : lists_ok s L → - 2 ^ 63 ≤ v < 2 ^ 63 → 0 ≤ k → k ≤ sq_n_queues s →
  match for_ (seqZ 0 k) (λ i, on_queue i (produce_ (to_ptr v))) s with
  | Ok _ s' => Forall (λ i, lenZ (default [] (L !! i)) < ch_cap) (seqZ 0 k) ∧
               sq_n_queues s' = sq_n_queues s ∧ lists_ok s' (pushed v k L)
  | Stop w s' => w = Spinning ∧ ¬ Forall (λ i, lenZ (default [] (L !! i)) < ch_cap) (seqZ 0 k)
  end.
Proof.
  intros Hok Hv Hk. revert k Hk. apply (Z_up_ind (λ k, _ → _)).
  - intros _. simpl. by split; [constructor|].
  - intros k Hk IH Hle. specialize (IH ltac:(lia)). rewrite seqZ_snoc, for_app, Z.add_0_l by lia.
    unfold bind. destruct (for_ (seqZ 0 k) _ s) as [[] t|w t].
    + destruct IH as (Hroom & Hn & Hok'). simpl.
      pose proof (on_produce t (pushed v k L) k v Hok' ltac:(lia) Hv) as Hp.
      rewrite pushed_lookup, decide_False in Hp by lia. unfold bind, ret.
      destruct (on_queue k _ t) as [[] t'|w t']; simpl.
      * destruct Hp as (Hlt & Hn' & Hok''). rewrite Forall_app, Forall_singleton. split_and!; [done|done|lia|].
        rewrite pushed_succ, pushed_lookup, decide_False by lia. done.
      * destruct Hp as (Hfull & -> & _). rewrite Forall_app, Forall_singleton. split; [done|]. lia.
    + destruct IH as [-> Hno]. rewrite Forall_app. split; [done|tauto].
Qed.

Lemma run_sq_step s L op : lists_ok s L → op_in_range op →
  match run_sq op s, run_lists (sq_n_queues s) L op with
  | Ok r s', Some (r', L') => r = r' ∧ sq_n_queues s' = sq_n_queues s ∧ lists_ok s' L'
  | Stop w _, None => w = Spinning
  | _, _ => False
  end.
Proof.
  intros Hok Hop. destruct op as [iter v|iter|v]; simpl in Hop.
  - pose proof (on_produce s L _ v Hok (get_queue_range s L iter Hok) Hop) as H. simpl in H.
    unfold run_sq, produce, bind, gets. simpl. unfold get_queue in *.
    destruct (on_queue _ _ s) as [[] s'|w s'].
    + destruct H as (Hlt & Hn & Hok'). rewrite decide_True by done. done.
    + destruct H as (Hfull & -> & _). rewrite decide_False by lia. done.
  - pose proof (on_consume s L _ Hok (get_queue_range s L iter Hok)) as H.
    unfold run_sq, consume, bind, gets. simpl. unfold get_queue in *.
    destruct (on_queue _ _ s) as [w s'|w s'], (default [] (L !! _)) as [|v vs]; try done.
    + destruct H as (-> & Hn & Hok' & Hv). simpl. rewrite i64_u64 by done. done.
    + by destruct H.
  - unfold run_sq, produce_replicated, bind, gets. simpl. destruct Hok as [Hn Hall].
    pose proof (replicate_loop s L v (sq_n_queues s) (conj Hn Hall) Hop ltac:(lia) ltac:(lia)) as H.
    destruct (for_ _ _ s) as [[] s'|w s'].
    + destruct H as (Hroom & Hn' & Hok'). rewrite decide_True by done. simpl. split_and!; [done|done|].
      eapply lists_ok_ext; [|exact Hok']. intros i Hi. rewrite Hn' in Hi.
      rewrite pushed_lookup, decide_True, lookup_fmap by lia.
      destruct (Hall i Hi) as (_ & vs & _ & -> & _). done.
    + destruct H as [-> Hno]. by rewrite decide_False.
Qed.

Fixpoint run_sq_all (ops : list sqop) : M specpriv_queue (list (option Z)) :=
  match ops with
  | [] => ret []
  | op :: ops => let! r := run_sq op in let! rs := run_sq_all ops in ret (r :: rs)
  end.

Fixpoint run_lists_all (n : Z) (ops : list sqop) (L : gmap Z (list Z))
    : option (list (option Z) * gmap Z (list Z)) :=
  match ops with
  | [] => Some ([], L)
  | op :: ops =>
      match run_lists n L op with
      | Some (r, L') => (λ '(rs, L''), (r :: rs, L'')) <$> run_lists_all n ops L'
      | None => None
      end
  end.

Lemma run_sq_all_spec ops : ∀ s L, lists_ok s L → Forall op_in_range ops →
  match run_sq_all ops s, run_lists_all (sq_n_queues s) ops L with
  | Ok rs s', Some (rs', L') => rs = rs' ∧ lists_ok s' L'
  | Stop w _, None => w = Spinning
  | _, _ => False
  end.
Proof.
  induction ops as [|op ops IH]; intros s L Hok Hops; simpl; [done|].
  apply Forall_cons in Hops as [Hop Hops]. pose proof (run_sq_step s L op Hok Hop) as H.
  unfold bind at 1. destruct (run_sq op s) as [r s'|w s'], (run_lists _ L op) as [[r' L']|]; try done.
  destruct H as (-> & Hn & Hok'). specialize (IH s' L' Hok' Hops). rewrite Hn in IH. unfold bind.
  destruct (run_sq_all ops s') as [rs t|w t], (run_lists_all _ ops L') as [[rs' L'']|]; try done.
  simpl. by destruct IH as [-> ?].
Qed.

(** Empty lists for [n] replicas. *)
Definition no_values (n : Z) : gmap Z (list Z) := foldl (λ t i, <[i := []]> t) ∅ (seqZ 0 n).

Lemma insert_all {A} (x : A) n i : 0 ≤ n →
  foldl (λ t i, <[i := x]> t) (∅ : gmap Z A) (seqZ 0 n) !! i = if decide (0 ≤ i < n) then Some x else None.
Proof.
  intros Hn. revert n Hn. apply Z_up_ind; [by rewrite decide_False by lia|].
  intros n Hn IH. rewrite seqZ_snoc, foldl_app by lia. simpl. destruct (decide (n = i)) as [->|Hne].
  - by rewrite lookup_insert_eq, decide_True by lia.
  - rewrite lookup_insert_ne, IH by done.
    destruct (decide (0 ≤ i < n)); [rewrite decide_True by lia|rewrite decide_False by lia]; done.
Qed.

Lemma create_lists N M s : create_queue N M = Some s → 0 < N * M < 2 ^ 32 →
  sq_n_queues s = N * M ∧ lists_ok s (no_values (N * M)).
Proof.
  unfold create_queue. destruct (_ || _); [|done]. intros [= <-] Hn.
  assert (u32 (N * M) = N * M) as E by (apply wrap_small; lia). simpl. rewrite E.
  split; [done|]. split; simpl; [done|]. intros i Hi. exists ch_new, []. unfold no_values.
  rewrite !insert_all, !decide_True by lia. split_and!; try done. apply ch_new_holds.
Qed.
End spec_queue.

(** [C36] Any sequence of produce, consume and replicated-produce calls, with values
    of 64 bits, on a fresh queue with [0 < N * M < 2^32] replicas behaves like the same calls on one bounded integer list per
    replica, selected by the iteration number modulo the number of replicas:
    same values, and the calls wait in exactly the same situations. *)
Theorem spec_queue_refines_lists {Q} `{Ch : Channel Q} (N M : Z) (ops : list sqop) (s : specpriv_queue) :
  create_queue N M = Some s → 0 < N * M < 2 ^ 32 → Forall op_in_range ops →
  match run_sq_all ops s, run_lists_all (N * M) ops (no_values (N * M)) with
  | Ok rs s', Some (rs', L') => rs = rs' ∧ lists_ok s' L'
  | Stop w _, None => w = Spinning
  | _, _ => False
  end.
Proof.
  intros Hc Hn Hops. destruct (create_lists _ _ _ Hc Hn) as [<- Hok].
  by apply run_sq_all_spec.
Qed.

Definition demo_ops : list sqop :=
  [SProduce 0 5; SProduce 1 (-7); SConsume 1; SReplicate 9; SConsume 0].

(** A queue from one worker to two. *)
Definition demo_queue : specpriv_queue := default (SpecPrivQueue ∅ 0) (create_queue (Q := queue_t) 1 2).

Lemma spec_queue_refines_lists_witness :
  match run_sq_all demo_ops demo_queue with
  | Ok rs _ => rs = [None; None; Some (-7); None; Some 5]
  | Stop _ _ => False
  end.
Proof.
  assert (Forall op_in_range demo_ops) as Hops.
  { repeat (apply List.Forall_cons || apply List.Forall_nil); simpl; lia. }
  pose proof (spec_queue_refines_lists 1 2 demo_ops demo_queue eq_refl ltac:(lia) Hops) as H.
  vm_compute (run_lists_all _ _ _) in H.
  destruct (run_sq_all demo_ops demo_queue); [by destruct H as [-> _]|done].
Defined.

(** ** One sequential producer, replicated consumers *)

(** Iteration [i] produces [vals[i]]; then every iteration consumes one value. *)
Definition produces (vals : list Z) (k : Z) : list sqop :=
  (λ i, SProduce i (vals !!! Z.to_nat i)) <$> seqZ 0 k.
Definition consumes (k : Z) : list sqop := SConsume <$> seqZ 0 k.

Section pipeline.
Context {Q : Type} `{Ch : Channel Q}.
Context (n : Z) (Hn : 0 < n < 2 ^ 32) (vals : list Z).

(** What replica [r] holds when iterations [c .. p-1] are in flight. *)
Definition in_flight (c p r : Z) : list Z :=
  (λ i, vals !!! Z.to_nat i) <$> filter (λ i, i mod n = r) (seqZ c (p - c)).

Definition flight (c p : Z) (L : gmap Z (list Z)) : Prop :=
  ∀ r, 0 ≤ r < n → L !! r = Some (in_flight c p r).

Lemma in_flight_push c p r : c ≤ p →
  in_flight c (p + 1) r = in_flight c p r ++ (if decide (p mod n = r) then [vals !!! Z.to_nat p] else []).
Proof.
  intros Hp. unfold in_flight. replace (p + 1 - c) with ((p - c) + 1) by lia.
  rewrite seqZ_snoc, filter_app, fmap_app by lia. replace (c + (p - c)) with p by lia.
  rewrite filter_cons. by destruct (decide (p mod n = r)).
Qed.

Lemma in_flight_pop c p r : c < p →
  in_flight c p r = (if decide (c mod n = r) then [vals !!! Z.to_nat c] else []) ++ in_flight (c + 1) p r.
Proof.
  intros Hp. unfold in_flight. rewrite seqZ_cons by lia.
  replace (Z.pred (p - c)) with (p - (c + 1)) by lia. rewrite filter_cons.
  destruct (decide (c mod n = r)); done.
Qed.

Lemma in_flight_len c p r : c ≤ p → lenZ (in_flight c p r) ≤ p - c.
Proof.
  intros Hp. unfold in_flight, lenZ. rewrite length_fmap.
  pose proof (length_filter (λ i, i mod n = r) (seqZ c (p - c))) as H.
  rewrite length_seqZ in H. lia.
Qed.

Lemma u32_iter i : 0 ≤ i < 2 ^ 32 → u32 i = i.
Proof. apply wrap_small. Qed.

Lemma produce_flight p L v : flight 0 p L → 0 ≤ p < ch_cap → p < 2 ^ 32 → v = vals !!! Z.to_nat p →
  ∃ L', run_lists n L (SProduce p v) = Some (None, L') ∧ flight 0 (p + 1) L'.
Proof.
  intros HL Hp Hw ->. simpl. rewrite u32_iter by lia.
  pose proof (Z.mod_pos_bound p n ltac:(lia)) as Hr. rewrite (HL _ Hr). simpl.
  pose proof (in_flight_len 0 p (p mod n) ltac:(lia)). rewrite decide_True by lia.
  eexists. split; [done|]. intros r Hr'. rewrite in_flight_push by lia.
  destruct (decide (p mod n = r)) as [<-|Hne]; [by rewrite lookup_insert_eq|].
  rewrite lookup_insert_ne, app_nil_r by done. by apply HL.
Qed.

Lemma consume_flight c p L : flight c p L → 0 ≤ c < p → p < 2 ^ 32 →
  ∃ L', run_lists n L (SConsume c) = Some (Some (vals !!! Z.to_nat c), L') ∧ flight (c + 1) p L'.
Proof.
  intros HL Hc Hw. simpl. rewrite u32_iter by lia.
  pose proof (Z.mod_pos_bound c n ltac:(lia)) as Hr. rewrite (HL _ Hr). simpl.
  rewrite in_flight_pop, decide_True by (done || lia). simpl. eexists. split; [done|].
  intros r Hr'. destruct (decide (c mod n = r)) as [<-|Hne]; [by rewrite lookup_insert_eq|].
  rewrite lookup_insert_ne by done. rewrite (HL _ Hr'), in_flight_pop, decide_False by (done || lia). done.
Qed.

Lemma run_lists_app ops1 ops2 L :
  run_lists_all n (ops1 ++ ops2) L =
  match run_lists_all n ops1 L with
  | Some (rs, L') => (λ '(rs', L''), (rs ++ rs', L'')) <$> run_lists_all n ops2 L'
  | None => None
  end.
Proof.
  revert L. induction ops1 as [|op ops IH]; intros L; simpl.
  - destruct (run_lists_all n ops2 L) as [[??]|]; done.
  - destruct (run_lists n L op) as [[r L']|]; [|done]. rewrite IH.
    destruct (run_lists_all n ops L') as [[rs L'']|]; [|done]. simpl.
    by destruct (run_lists_all n ops2 L'') as [[??]|].
Qed.

Lemma no_values_flight : flight 0 0 (no_values n).
Proof. intros r Hr. unfold no_values. by rewrite insert_all, decide_True by lia. Qed.

Lemma run_produces k : 0 ≤ k → k ≤ ch_cap → k < 2 ^ 32 →
  ∃ L, run_lists_all n (produces vals k) (no_values n) = Some (replicate (Z.to_nat k) None, L) ∧
    flight 0 k L.
Proof.
  intros Hk. revert k Hk. apply (Z_up_ind (λ k, _ → _ → _)).
  - intros _ _. exists (no_values n). split; [done|]. apply no_values_flight.
  - intros k Hk IH Hc Hw. destruct IH as (L & E & HL); [lia|lia|].
    destruct (produce_flight k L _ HL ltac:(lia) ltac:(lia) eq_refl) as (L' & E' & HL').
    exists L'. split; [|done]. unfold produces. rewrite seqZ_snoc, fmap_app, run_lists_app by done.
    fold (produces vals k). rewrite E. cbn [fmap list_fmap run_lists_all]. rewrite Z.add_0_l, E'. simpl.
    rewrite Z2Nat.inj_add, replicate_add by lia. done.
Qed.

Lemma run_consumes m k L : flight 0 m L → 0 ≤ k → k ≤ m → m < 2 ^ 32 →
  ∃ L', run_lists_all n (consumes k) L = Some ((λ i, Some (vals !!! Z.to_nat i)) <$> seqZ 0 k, L') ∧
    flight k m L'.
Proof.
  intros HL Hk. revert k Hk. apply (Z_up_ind (λ k, _ → _ → _)).
  - intros _ _. by exists L.
  - intros k Hk IH Hc Hw. destruct IH as (L1 & E & HL1); [lia|lia|].
    destruct (consume_flight k m L1 HL1 ltac:(lia) ltac:(lia)) as (L' & E' & HL').
    exists L'. split; [|done]. unfold consumes. rewrite seqZ_snoc, !fmap_app, run_lists_app by done.
    fold (consumes k). rewrite E. cbn [fmap list_fmap run_lists_all]. rewrite Z.add_0_l, E'. done.
Qed.
End pipeline.

Lemma seqZ_values (vals : list Z) :
  (λ i, Some (vals !!! Z.to_nat i)) <$> seqZ 0 (lenZ vals) = Some <$> vals.
Proof.
  apply list_eq. intros j. rewrite !list_lookup_fmap. unfold lenZ.
  destruct (decide (j < length vals)%nat) as [Hj|Hj].
  - rewrite lookup_seqZ_lt by lia. simpl. rewrite Z.add_0_l, Nat2Z.id.
    destruct (lookup_lt_is_Some_2 vals j Hj) as [x Hx]. by rewrite Hx, (list_lookup_total_correct _ _ x).
  - rewrite lookup_seqZ_ge by lia. by rewrite (lookup_ge_None_2 vals j) by lia.
Qed.

Lemma produces_in_range vals : Forall (λ v, - 2 ^ 63 ≤ v < 2 ^ 63) vals →
  Forall op_in_range (produces vals (lenZ vals) ++ consumes (lenZ vals)).
Proof.
  intros Hv. apply Forall_app. split; apply Forall_fmap, Forall_forall; [|done].
  intros i Hi%elem_of_seqZ. simpl. unfold lenZ in Hi. rewrite Forall_lookup in Hv.
  destruct (lookup_lt_is_Some_2 vals (Z.to_nat i)) as [x Hx]; [lia|].
  rewrite (list_lookup_total_correct _ _ x) by done. by apply Hv in Hx.
Qed.

(** Round trip: when a sequential stage produces one value per iteration
    into the queues of any number of replicas, the worker that runs iteration
    [i] of the next stage consumes the value of iteration [i], and none of the
    calls waits as long as the producer is at most one queue length ahead. *)
Theorem values_reach_their_iteration {Q} `{Ch : Channel Q} (M : Z) (vals : list Z) (s : specpriv_queue) :
  create_queue 1 M = Some s → 0 < M < 2 ^ 32 → lenZ vals ≤ ch_cap → lenZ vals < 2 ^ 32 →
  Forall (λ v, - 2 ^ 63 ≤ v < 2 ^ 63) vals →
  ∃ s', run_sq_all (produces vals (lenZ vals) ++ consumes (lenZ vals)) s =
        Ok (replicate (length vals) None ++ (Some <$> vals)) s'.
Proof.
  intros Hc HM Hcap Hw Hv. assert (0 ≤ lenZ vals) as H0 by (unfold lenZ; lia).
  assert (0 < 1 * M < 2 ^ 32) as HM' by lia.
  destruct (create_lists 1 M s Hc HM') as [E Hok]. rewrite Z.mul_1_l in *.
  pose proof (run_sq_all_spec _ s _ Hok (produces_in_range vals Hv)) as H. rewrite E in H.
  destruct (run_produces M HM vals _ H0 Hcap Hw) as (L & E1 & HL).
  destruct (run_consumes M HM vals _ _ L HL H0 ltac:(lia) Hw) as (L' & E2 & _).
  rewrite run_lists_app, E1, E2 in H. simpl in H. rewrite seqZ_values in H.
  assert (Z.to_nat (lenZ vals) = length vals) as El by (unfold lenZ; lia). rewrite El in H.
  destruct (run_sq_all _ s) as [rs s'|]; [|done]. exists s'. by destruct H as [-> _].
Qed.

Lemma values_reach_their_iteration_witness :
  ∃ s', run_sq_all (produces [4; -1; 7] 3 ++ consumes 3) demo_queue =
        Ok [None; None; None; Some 4; Some (-1); Some 7] s'.
Proof.
  refine (values_reach_their_iteration 2 [4; -1; 7] demo_queue eq_refl _ _ _ _);
    [lia|by vm_compute|unfold lenZ; simpl; lia|].
  repeat (apply List.Forall_cons || apply List.Forall_nil); lia.
Defined.
