(* ===== verification/Packet.v ===== *)
(** Packets, packet chunks and their pools ([smtx/packet.cpp],
    [include/internals/smtx/packet.h]).

    Every worker owns a circular pool of packets and a circular pool of chunks
    in shared memory, the main process a pool of packets of its own.  A packet
    is free when its [ptr] is [NULL], a chunk when all its sign bytes are zero;
    readers free what they have read, and the owner searches its pool for the
    next free entry. *)
From S2P Require Import Prelude Machine SwQueue.

Record packet := Packet {
  pk_ptr : Z;
  pk_value : vptr;
  pk_size : Z;
  pk_is_write : Z;
  pk_type : Z;
  pk_sign : Z }.

(** Pools are zero-filled mappings. *)
Definition packet0 : packet := Packet 0 NULL 0 0 0 0.

(** [sign] and [data] are byte arrays. *)
Record packet_chunk := Chunk {
  ck_sign : mem;
  ck_data : mem }.
Definition chunk0 : packet_chunk := Chunk ∅ ∅.

(** Entries are named by the owner of the pool and their index; the pool of
    the main process has owner [MAIN_PROCESS_WID].  [next] pointers are indices. *)
Record pools := Pools {
  pl_packets : gmap (Z * Z) packet;
  pl_packet_nexts : gmap Z Z;
  pl_commit_next : Z;
  pl_chunks : gmap (Z * Z) packet_chunk;
  pl_chunk_nexts : gmap Z Z }.

Definition get_packet (P : pools) (o i : Z) : packet := default packet0 (pl_packets P !! (o, i)).
Definition get_chunk (P : pools) (o i : Z) : packet_chunk := default chunk0 (pl_chunks P !! (o, i)).
Definition put_packet (P : pools) (o i : Z) (p : packet) : pools :=
  Pools (<[(o, i) := p]> (pl_packets P)) (pl_packet_nexts P) (pl_commit_next P)
        (pl_chunks P) (pl_chunk_nexts P).
Definition put_chunk (P : pools) (o i : Z) (c : packet_chunk) : pools :=
  Pools (pl_packets P) (pl_packet_nexts P) (pl_commit_next P)
        (<[(o, i) := c]> (pl_chunks P)) (pl_chunk_nexts P).
Definition packet_next (P : pools) (o : Z) : Z := default 0 (pl_packet_nexts P !! o).
Definition chunk_next (P : pools) (o : Z) : Z := default 0 (pl_chunk_nexts P !! o).

Definition init_packets (n_all_workers : Z) : pools :=
  let nexts := foldl (λ t i, <[i := 0]> t) ∅ (seqZ 0 n_all_workers) in
  Pools ∅ nexts 0 ∅ nexts.

(** The entry after [i], in a circle. *)
Definition bump (i : Z) : Z := if PACKET_POOL_SIZE <=? i + 1 then 0 else i + 1.

(** The search loop.  A pool has [2^19] entries: [2^19] rounds visit each one;
    [None] means that the loop would go around for ever. *)
Definition search_round (avail : Z → bool) (next : Z) : Z + Z :=
  if avail next then inr next else inl (bump next).
Definition search (avail : Z → bool) (next : Z) : option Z :=
  match rounds 19 (search_round avail) next with inr i => Some i | inl _ => None end.

Definition is_chunk_available (c : packet_chunk) : bool :=
  forallb (λ k, load 8 (ck_sign c) (8 * k) =? 0) (seqZ 0 8).

Definition get_available_packet_chunk (wid : Z) (P : pools) : option (Z * pools) :=
  match search (λ i, is_chunk_available (get_chunk P wid i)) (chunk_next P wid) with
  | Some next =>
      Some (next, Pools (pl_packets P) (pl_packet_nexts P) (pl_commit_next P) (pl_chunks P)
                        (<[wid := bump next]> (pl_chunk_nexts P)))
  | None => None
  end.

Definition mark_packet_chunk_read (stage : Z) (c : packet_chunk) : packet_chunk :=
  Chunk (wr (ck_sign c) stage 0) (ck_data c).

Definition is_packet_available (p : packet) : bool := pk_ptr p =? 0.

Definition get_available_packet (wid : Z) (P : pools) : option (Z * pools) :=
  match search (λ i, is_packet_available (get_packet P wid i)) (packet_next P wid) with
  | Some next =>
      Some (next, Pools (pl_packets P) (<[wid := bump next]> (pl_packet_nexts P)) (pl_commit_next P)
                        (pl_chunks P) (pl_chunk_nexts P))
  | None => None
  end.

Definition get_available_commit_process_packet (P : pools) : option (Z * pools) :=
  match search (λ i, is_packet_available (get_packet P MAIN_PROCESS_WID i)) (pl_commit_next P) with
  | Some next =>
      Some (next, Pools (pl_packets P) (pl_packet_nexts P) (bump next) (pl_chunks P) (pl_chunk_nexts P))
  | None => None
  end.

(** ** The search *)

Definition in_pool (i : Z) : Prop := 0 ≤ i < PACKET_POOL_SIZE.

Lemma bump_in_pool i : in_pool i → in_pool (bump i).
Proof.
  unfold in_pool, bump. intros Hi. destruct (Z.leb_spec PACKET_POOL_SIZE (i + 1)); [done|lia].
Qed.

Section search.
Context (avail : Z → bool).

(** The [d]-th entry after [start], in a circle. *)
Definition nth_from (start d : Z) : Z := (start + d) mod PACKET_POOL_SIZE.

Lemma nth_from_0 start : in_pool start → nth_from start 0 = start.
Proof. unfold nth_from, in_pool. intros. rewrite Z.add_0_r. by apply Z.mod_small. Qed.

Lemma nth_from_bump start d : in_pool start → nth_from (bump start) d = nth_from start (d + 1).
Proof.
  unfold nth_from, in_pool, bump. intros Hs.
  destruct (Z.leb_spec PACKET_POOL_SIZE (start + 1)) as [Hle|Hgt]; [|f_equal; lia].
  replace (start + (d + 1)) with (0 + d + 1 * PACKET_POOL_SIZE) by lia.
  by rewrite Z.mod_add.
Qed.

Lemma nth_from_in start d : in_pool (nth_from start d).
Proof. unfold nth_from, in_pool. by apply Z.mod_pos_bound. Qed.

(** [i] is the first free entry from [start]. *)
Definition first_free (start i : Z) : Prop :=
  ∃ d, 0 ≤ d < PACKET_POOL_SIZE ∧ i = nth_from start d ∧ avail i = true ∧
    ∀ e, 0 ≤ e < d → avail (nth_from start e) = false.

Lemma search_lin k : ∀ start, in_pool start →
  match rounds_lin k (search_round avail) start with
  | inr i => ∃ d, 0 ≤ d < Z.of_nat k ∧ i = nth_from start d ∧ avail i = true ∧
      ∀ e, 0 ≤ e < d → avail (nth_from start e) = false
  | inl _ => ∀ e, 0 ≤ e < Z.of_nat k → avail (nth_from start e) = false
  end.
Proof.
  induction k as [|k IH]; intros start Hs; simpl; [intros e He; lia|].
  unfold search_round at 1. destruct (avail start) eqn:E.
  { exists 0. rewrite nth_from_0 by done. split_and!; (done || lia). }
  specialize (IH (bump start) (bump_in_pool start Hs)).
  assert (∀ d, (∀ e, 0 ≤ e < d → avail (nth_from (bump start) e) = false) →
    ∀ e, 0 ≤ e < d + 1 → avail (nth_from start e) = false) as Hshift.
  { intros d H e He. destruct (decide (e = 0)) as [->|]; [by rewrite nth_from_0|].
    specialize (H (e - 1) ltac:(lia)). rewrite nth_from_bump in H by done.
    by replace (e - 1 + 1) with e in H by lia. }
  destruct (rounds_lin k _ _) as [j|i].
  - intros e He. apply (Hshift (Z.of_nat k)); [done|lia].
  - destruct IH as (d & Hd & -> & Ha & Hf). exists (d + 1). rewrite nth_from_bump in * by done.
    split_and!; try (done || lia). by apply Hshift.
Qed.

Lemma search_spec start : in_pool start →
  match search avail start with
  | Some i => first_free start i
  | None => ∀ i, in_pool i → avail i = false
  end.
Proof.
  intros Hs. unfold search. rewrite rounds_spec. pose proof (search_lin (2 ^ 19) start Hs) as H.
  assert (Z.of_nat (2 ^ 19) = PACKET_POOL_SIZE) as E by (by rewrite Nat2Z.inj_pow).
  rewrite E in H. destruct (rounds_lin _ _ _) as [j|i]; [|done].
  intros i Hi. specialize (H ((i - start) mod PACKET_POOL_SIZE) ltac:(by apply Z.mod_pos_bound)).
  unfold nth_from in H. rewrite Zplus_mod_idemp_r in H. replace (start + (i - start)) with i in H by lia.
  by rewrite Z.mod_small in H.
Qed.

Lemma first_free_in start i : first_free start i → in_pool i.
Proof. intros (d & _ & -> & _). apply nth_from_in. Qed.
End search.

(** The [next] pointers stay inside the pools. *)
Record pools_ok (P : pools) : Prop := {
  po_packet o : in_pool (packet_next P o);
  po_commit : in_pool (pl_commit_next P);
  po_chunk o : in_pool (chunk_next P o) }.

Lemma init_packets_ok n : pools_ok (init_packets n).
Proof.
  assert (∀ o, in_pool (default 0 (foldl (λ t i, <[i := 0]> t) (∅ : gmap Z Z) (seqZ 0 n) !! o))) as H.
  { intros o. destruct (_ !! o) as [x|] eqn:E; [|done]. simpl. revert E.
    assert (∀ l (t : gmap Z Z), (∀ x, t !! o = Some x → x = 0) →
      ∀ x, foldl (λ t i, <[i := 0]> t) t l !! o = Some x → x = 0) as Hl.
    { induction l as [|i l IH]; simpl; intros t Ht; [done|]. apply IH. intros y.
      destruct (decide (i = o)) as [->|]; [by rewrite lookup_insert_eq; intros [= <-]|].
      rewrite lookup_insert_ne by done. apply Ht. }
    intros ->%Hl; done. }
  split; [apply H|done|apply H].
Qed.

Lemma get_available_packet_spec wid P : pools_ok P →
  match get_available_packet wid P with
  | Some (i, P') =>
      first_free (λ i, is_packet_available (get_packet P wid i)) (packet_next P wid) i ∧
      pools_ok P' ∧ pl_packets P' = pl_packets P ∧ pl_chunks P' = pl_chunks P ∧
      packet_next P' wid = bump i
  | None => ∀ i, in_pool i → pk_ptr (get_packet P wid i) ≠ 0
  end.
Proof.
  intros [Hp Hc Hk]. unfold get_available_packet.
  pose proof (search_spec (λ i, is_packet_available (get_packet P wid i)) _ (Hp wid)) as H.
  destruct (search _ _) as [i|].
  - split; [done|]. pose proof (bump_in_pool i (first_free_in _ _ _ H)) as Hb.
    split_and!; try done.
    + split; simpl; try done. intros o. unfold packet_next. simpl.
      destruct (decide (wid = o)) as [->|]; [by rewrite lookup_insert_eq|].
      rewrite lookup_insert_ne by done. apply Hp.
    + unfold packet_next. simpl. by rewrite lookup_insert_eq.
  - intros i Hi. specialize (H i Hi). unfold is_packet_available in H. by apply Z.eqb_neq in H.
Qed.

Lemma get_available_chunk_spec wid P : pools_ok P →
  match get_available_packet_chunk wid P with
  | Some (i, P') =>
      first_free (λ i, is_chunk_available (get_chunk P wid i)) (chunk_next P wid) i ∧
      pools_ok P' ∧ pl_packets P' = pl_packets P ∧ pl_chunks P' = pl_chunks P ∧
      chunk_next P' wid = bump i
  | None => ∀ i, in_pool i → is_chunk_available (get_chunk P wid i) = false
  end.
Proof.
  intros [Hp Hc Hk]. unfold get_available_packet_chunk.
  pose proof (search_spec (λ i, is_chunk_available (get_chunk P wid i)) _ (Hk wid)) as H.
  destruct (search _ _) as [i|]; [|done].
  split; [done|]. pose proof (bump_in_pool i (first_free_in _ _ _ H)) as Hb.
  split_and!; try done.
  - split; simpl; try done. intros o. unfold chunk_next. simpl.
    destruct (decide (wid = o)) as [->|]; [by rewrite lookup_insert_eq|].
    rewrite lookup_insert_ne by done. apply Hk.
  - unfold chunk_next. simpl. by rewrite lookup_insert_eq.
Qed.

Lemma get_available_commit_spec P : pools_ok P →
  match get_available_commit_process_packet P with
  | Some (i, P') =>
      first_free (λ i, is_packet_available (get_packet P MAIN_PROCESS_WID i)) (pl_commit_next P) i ∧
      pools_ok P' ∧ pl_packets P' = pl_packets P ∧ pl_chunks P' = pl_chunks P
  | None => ∀ i, in_pool i → pk_ptr (get_packet P MAIN_PROCESS_WID i) ≠ 0
  end.
Proof.
  intros [Hp Hc Hk]. unfold get_available_commit_process_packet.
  pose proof (search_spec (λ i, is_packet_available (get_packet P MAIN_PROCESS_WID i)) _ Hc) as H.
  destruct (search _ _) as [i|].
  - split; [done|]. pose proof (bump_in_pool i (first_free_in _ _ _ H)) as Hb.
    split_and!; try done.
  - intros i Hi. specialize (H i Hi). unfold is_packet_available in H. by apply Z.eqb_neq in H.
Qed.

(** A chunk is free exactly when every stage has marked it read. *)
Lemma chunk_available_iff c :
  is_chunk_available c = true ↔ ∀ k, 0 ≤ k < MAX_STAGE_NUM → rd (ck_sign c) k = 0.
Proof.
  unfold is_chunk_available, MAX_STAGE_NUM. rewrite forallb_forall.
  setoid_rewrite <-list_elem_of_In. setoid_rewrite elem_of_seqZ. setoid_rewrite Z.eqb_eq.
  setoid_rewrite load_zero_iff. split.
  - intros H k Hk. pose proof (Z.div_mod k 8 ltac:(lia)) as E. rewrite E. apply H.
    + Z.to_euclidean_division_equations. lia.
    + apply Z.mod_pos_bound. lia.
  - intros H i Hi k Hk. apply H. lia.
Qed.

Lemma chunk_unavailable c : is_chunk_available c = false →
  ∃ k, 0 ≤ k < MAX_STAGE_NUM ∧ rd (ck_sign c) k ≠ 0.
Proof.
  intros H. destruct (decide (Forall (λ k, rd (ck_sign c) k = 0) (seqZ 0 MAX_STAGE_NUM))) as [Hall|Hno].
  - rewrite Forall_forall in Hall. assert (is_chunk_available c = true); [|congruence].
    apply chunk_available_iff. intros k Hk. apply Hall, elem_of_seqZ. lia.
  - apply not_Forall_Exists in Hno; [|intros k; apply _]. apply Exists_exists in Hno as (k & Hk & Hne).
    apply elem_of_seqZ in Hk. exists k. split; [lia|done].
Qed.

(** The allocators of the three kinds of pools hand out the first free
    entry after their [next] pointer, in a circle: an entry that some reader
    still needs is never handed out, the [next] pointers stay inside the pools,
    and a call waits only when every entry of its pool is in use. *)
Theorem pool_allocation P wid : pools_ok P →
  match get_available_packet wid P with
  | Some (i, P') =>
      first_free (λ i, is_packet_available (get_packet P wid i)) (packet_next P wid) i ∧
      pools_ok P' ∧ pl_packets P' = pl_packets P ∧ packet_next P' wid = bump i
  | None => ∀ i, in_pool i → pk_ptr (get_packet P wid i) ≠ 0
  end ∧
  match get_available_packet_chunk wid P with
  | Some (i, P') =>
      first_free (λ i, is_chunk_available (get_chunk P wid i)) (chunk_next P wid) i ∧
      pools_ok P' ∧ pl_chunks P' = pl_chunks P ∧ chunk_next P' wid = bump i
  | None => ∀ i, in_pool i → ∃ k, 0 ≤ k < MAX_STAGE_NUM ∧ rd (ck_sign (get_chunk P wid i)) k ≠ 0
  end ∧
  match get_available_commit_process_packet P with
  | Some (i, P') =>
      first_free (λ i, is_packet_available (get_packet P MAIN_PROCESS_WID i)) (pl_commit_next P) i ∧
      pools_ok P' ∧ pl_packets P' = pl_packets P
  | None => ∀ i, in_pool i → pk_ptr (get_packet P MAIN_PROCESS_WID i) ≠ 0
  end.
Proof.
  intros Hok. pose proof (get_available_packet_spec wid P Hok) as H1.
  pose proof (get_available_chunk_spec wid P Hok) as H2.
  pose proof (get_available_commit_spec P Hok) as H3. split_and!.
  - destruct (get_available_packet wid P) as [[i P']|]; tauto.
  - destruct (get_available_packet_chunk wid P) as [[i P']|]; [tauto|].
    intros i Hi. by apply chunk_unavailable, H2.
  - destruct (get_available_commit_process_packet P) as [[i P']|]; tauto.
Qed.

(** A pool whose first entry is in use. *)
Definition demo_pools : pools := put_packet (init_packets 2) 0 0 (Packet 0x1000 NULL 8 1 NORMAL 0).

Lemma demo_pools_ok : pools_ok demo_pools.
Proof. destruct (init_packets_ok 2) as [H1 H2 H3]. by split. Qed.

Lemma pool_allocation_witness :
  match get_available_packet 0 demo_pools with
  | Some (i, P') => i = 1 ∧ packet_next P' 0 = 2
  | None => False
  end.
Proof.
  destruct (pool_allocation demo_pools 0 demo_pools_ok) as (H & _ & _).
  assert (fst <$> get_available_packet 0 demo_pools = Some 1) as E by (by vm_compute).
  revert H E. generalize (get_available_packet 0 demo_pools) as r. intros [[i P']|] H E; [|discriminate E].
  injection E as ->. destruct H as (_ & _ & _ & H). split; [done|]. rewrite H. by vm_compute.
Defined.
