(* ===== verification/State.v ===== *)
(** The state of one process of the runtime.

    A process has private memory and private globals (every worker is a fork of
    the main process), and all processes share the queues, the packet pools, the
    parallel control block and the prediction buffers.  The operations of the
    following files run in the monad [M world]; where the code spins for another
    process they stop with [Spinning]. *)
From S2P Require Import Prelude Machine Strategy SwQueue Packet.
From stdpp Require Import strings.
#[global] Open Scope Z_scope.

(** ** Shared state *)

(** [struct s_parallel_control_block] of [include/internals/pcb.h]. *)

(** The parallel control block. *)
Record pcb := Pcb {
  exit_taken : Z;
  misspeculation_happened : Z;
  misspeculated_worker : Z;
  misspeculated_iteration : Z;
  misspeculation_reason : option string;
  last_committed_iteration : Z }.

Definition set_exit_taken (x : Z) (r : pcb) : pcb :=
    Pcb x (misspeculation_happened r) (misspeculated_worker r) (misspeculated_iteration r)
    (misspeculation_reason r) (last_committed_iteration r).
Definition set_misspeculation_happened (x : Z) (r : pcb) : pcb :=
    Pcb (exit_taken r) x (misspeculated_worker r) (misspeculated_iteration r)
    (misspeculation_reason r) (last_committed_iteration r).
Definition set_misspeculated_worker (x : Z) (r : pcb) : pcb :=
    Pcb (exit_taken r) (misspeculation_happened r) x (misspeculated_iteration r)
    (misspeculation_reason r) (last_committed_iteration r).
Definition set_misspeculated_iteration (x : Z) (r : pcb) : pcb :=
    Pcb (exit_taken r) (misspeculation_happened r) (misspeculated_worker r) x
    (misspeculation_reason r) (last_committed_iteration r).
Definition set_misspeculation_reason (x : option string) (r : pcb) : pcb :=
    Pcb (exit_taken r) (misspeculation_happened r) (misspeculated_worker r)
    (misspeculated_iteration r) x (last_committed_iteration r).
Definition set_last_committed_iteration (x : Z) (r : pcb) : pcb :=
    Pcb (exit_taken r) (misspeculation_happened r) (misspeculated_worker r)
    (misspeculated_iteration r) (misspeculation_reason r) x.

(** A fresh anonymous mapping is zero-filled. *)
Definition pcb0 : pcb := Pcb 0 0 0 0 None 0.

(** Entries of the prediction buffers ([prediction.cpp]). *)
Record LoopInvariantBuffer := LIBuf { li_ptr : Z; li_value : Z; li_size : Z }.
Record LinearPredictor := LPred { lp_ptr : Z; lp_size : Z }.
Definition li0 : LoopInvariantBuffer := LIBuf 0 0 0.
Definition lp0 : LinearPredictor := LPred 0 0.

(** The four families of queues of [communicate.cpp]. *)
Inductive chan : Type :=
| Ucvf (from to : Z)
| ToTryCommit (from unit_ : Z)
| ToCommit (unit_ : Z)
| Reverse (to : Z).

#[global] Instance chan_eq_dec : EqDecision chan.
Proof. solve_decision. Defined.

(** What all processes see; [good_to_go] is a null pointer before
    [init_predictors]. *)
Record shared := Shared {
  sh_pools : pools;
  ucvf_queues : gmap (Z * Z) queue_t;
  queues : gmap (Z * Z) queue_t;
  commit_queues : gmap Z queue_t;
  reverse_commit_queues : gmap Z queue_t;
  the_pcb : option pcb;
  good_to_go : option Z;
  loop_invariant_buffer : gmap (Z * Z) LoopInvariantBuffer;
  linear_predictors : gmap (Z * Z) LinearPredictor }.

Definition set_sh_pools (x : pools) (r : shared) : shared :=
    Shared x (ucvf_queues r) (queues r) (commit_queues r) (reverse_commit_queues r) (the_pcb r)
    (good_to_go r) (loop_invariant_buffer r) (linear_predictors r).
Definition set_ucvf_queues (x : gmap (Z * Z) queue_t) (r : shared) : shared :=
    Shared (sh_pools r) x (queues r) (commit_queues r) (reverse_commit_queues r) (the_pcb r)
    (good_to_go r) (loop_invariant_buffer r) (linear_predictors r).
Definition set_queues (x : gmap (Z * Z) queue_t) (r : shared) : shared :=
    Shared (sh_pools r) (ucvf_queues r) x (commit_queues r) (reverse_commit_queues r) (the_pcb r)
    (good_to_go r) (loop_invariant_buffer r) (linear_predictors r).
Definition set_commit_queues (x : gmap Z queue_t) (r : shared) : shared :=
    Shared (sh_pools r) (ucvf_queues r) (queues r) x (reverse_commit_queues r) (the_pcb r)
    (good_to_go r) (loop_invariant_buffer r) (linear_predictors r).
Definition set_reverse_commit_queues (x : gmap Z queue_t) (r : shared) : shared :=
    Shared (sh_pools r) (ucvf_queues r) (queues r) (commit_queues r) x (the_pcb r) (good_to_go r)
    (loop_invariant_buffer r) (linear_predictors r).
Definition set_the_pcb (x : option pcb) (r : shared) : shared :=
    Shared (sh_pools r) (ucvf_queues r) (queues r) (commit_queues r) (reverse_commit_queues r) x
    (good_to_go r) (loop_invariant_buffer r) (linear_predictors r).
Definition set_good_to_go (x : option Z) (r : shared) : shared :=
    Shared (sh_pools r) (ucvf_queues r) (queues r) (commit_queues r) (reverse_commit_queues r)
    (the_pcb r) x (loop_invariant_buffer r) (linear_predictors r).
Definition set_loop_invariant_buffer (x : gmap (Z * Z) LoopInvariantBuffer) (r : shared) : shared :=
    Shared (sh_pools r) (ucvf_queues r) (queues r) (commit_queues r) (reverse_commit_queues r)
    (the_pcb r) (good_to_go r) x (linear_predictors r).
Definition set_linear_predictors (x : gmap (Z * Z) LinearPredictor) (r : shared) : shared :=
    Shared (sh_pools r) (ucvf_queues r) (queues r) (commit_queues r) (reverse_commit_queues r)
    (the_pcb r) (good_to_go r) (loop_invariant_buffer r) x.

(** ** Private state *)

(** [VerMallocChunk] and [SeparationHeap] have the same fields. *)
Record heap_chunk := HeapChunk { hc_begin : Z; hc_end : Z; hc_next : Z; hc_nextchunk : Z }.

(** The globals of [separation.cpp]; a region is a pointer to an ordered set of heap numbers, null before the initialisation. *)
Record separation := Separation {
  nnvh : Z;
  nvh : Z;
  heaps : gmap Z heap_chunk;
  versioned_heaps : gmap (Z * Z) heap_chunk;
  uc_regions : option (list Z);
  ver_uc_regions : option (list Z);
  ro_regions : option (list Z);
  ver_ro_regions : option (list Z);
  nrbw_regions : option (list Z);
  ver_nrbw_regions : option (list Z);
  stage_private_regions : option (gmap Z (list Z));
  ver_stage_private_regions : option (gmap Z (list Z));
  separation_heap_size_map : gmap Z Z;
  separation_alloc_context : Z }.

Definition set_nnvh (x : Z) (r : separation) : separation :=
    Separation x (nvh r) (heaps r) (versioned_heaps r) (uc_regions r) (ver_uc_regions r)
    (ro_regions r) (ver_ro_regions r) (nrbw_regions r) (ver_nrbw_regions r) (stage_private_regions
    r) (ver_stage_private_regions r) (separation_heap_size_map r) (separation_alloc_context r).
Definition set_nvh (x : Z) (r : separation) : separation :=
    Separation (nnvh r) x (heaps r) (versioned_heaps r) (uc_regions r) (ver_uc_regions r)
    (ro_regions r) (ver_ro_regions r) (nrbw_regions r) (ver_nrbw_regions r) (stage_private_regions
    r) (ver_stage_private_regions r) (separation_heap_size_map r) (separation_alloc_context r).
Definition set_heaps (x : gmap Z heap_chunk) (r : separation) : separation :=
    Separation (nnvh r) (nvh r) x (versioned_heaps r) (uc_regions r) (ver_uc_regions r)
    (ro_regions r) (ver_ro_regions r) (nrbw_regions r) (ver_nrbw_regions r) (stage_private_regions
    r) (ver_stage_private_regions r) (separation_heap_size_map r) (separation_alloc_context r).
Definition set_versioned_heaps (x : gmap (Z * Z) heap_chunk) (r : separation) : separation :=
    Separation (nnvh r) (nvh r) (heaps r) x (uc_regions r) (ver_uc_regions r) (ro_regions r)
    (ver_ro_regions r) (nrbw_regions r) (ver_nrbw_regions r) (stage_private_regions r)
    (ver_stage_private_regions r) (separation_heap_size_map r) (separation_alloc_context r).
Definition set_uc_regions (x : option (list Z)) (r : separation) : separation :=
    Separation (nnvh r) (nvh r) (heaps r) (versioned_heaps r) x (ver_uc_regions r) (ro_regions r)
    (ver_ro_regions r) (nrbw_regions r) (ver_nrbw_regions r) (stage_private_regions r)
    (ver_stage_private_regions r) (separation_heap_size_map r) (separation_alloc_context r).
Definition set_ver_uc_regions (x : option (list Z)) (r : separation) : separation :=
    Separation (nnvh r) (nvh r) (heaps r) (versioned_heaps r) (uc_regions r) x (ro_regions r)
    (ver_ro_regions r) (nrbw_regions r) (ver_nrbw_regions r) (stage_private_regions r)
    (ver_stage_private_regions r) (separation_heap_size_map r) (separation_alloc_context r).
Definition set_ro_regions (x : option (list Z)) (r : separation) : separation :=
    Separation (nnvh r) (nvh r) (heaps r) (versioned_heaps r) (uc_regions r) (ver_uc_regions r) x
    (ver_ro_regions r) (nrbw_regions r) (ver_nrbw_regions r) (stage_private_regions r)
    (ver_stage_private_regions r) (separation_heap_size_map r) (separation_alloc_context r).
Definition set_ver_ro_regions (x : option (list Z)) (r : separation) : separation :=
    Separation (nnvh r) (nvh r) (heaps r) (versioned_heaps r) (uc_regions r) (ver_uc_regions r)
    (ro_regions r) x (nrbw_regions r) (ver_nrbw_regions r) (stage_private_regions r)
    (ver_stage_private_regions r) (separation_heap_size_map r) (separation_alloc_context r).
Definition set_nrbw_regions (x : option (list Z)) (r : separation) : separation :=
    Separation (nnvh r) (nvh r) (heaps r) (versioned_heaps r) (uc_regions r) (ver_uc_regions r)
    (ro_regions r) (ver_ro_regions r) x (ver_nrbw_regions r) (stage_private_regions r)
    (ver_stage_private_regions r) (separation_heap_size_map r) (separation_alloc_context r).
Definition set_ver_nrbw_regions (x : option (list Z)) (r : separation) : separation :=
    Separation (nnvh r) (nvh r) (heaps r) (versioned_heaps r) (uc_regions r) (ver_uc_regions r)
    (ro_regions r) (ver_ro_regions r) (nrbw_regions r) x (stage_private_regions r)
    (ver_stage_private_regions r) (separation_heap_size_map r) (separation_alloc_context r).
Definition set_stage_private_regions (x : option (gmap Z (list Z))) (r : separation) : separation :=
    Separation (nnvh r) (nvh r) (heaps r) (versioned_heaps r) (uc_regions r) (ver_uc_regions r)
    (ro_regions r) (ver_ro_regions r) (nrbw_regions r) (ver_nrbw_regions r) x
    (ver_stage_private_regions r) (separation_heap_size_map r) (separation_alloc_context r).
Definition set_ver_stage_private_regions (x : option (gmap Z (list Z))) (r : separation) : separation :=
    Separation (nnvh r) (nvh r) (heaps r) (versioned_heaps r) (uc_regions r) (ver_uc_regions r)
    (ro_regions r) (ver_ro_regions r) (nrbw_regions r) (ver_nrbw_regions r) (stage_private_regions
    r) x (separation_heap_size_map r) (separation_alloc_context r).
Definition set_separation_heap_size_map (x : gmap Z Z) (r : separation) : separation :=
    Separation (nnvh r) (nvh r) (heaps r) (versioned_heaps r) (uc_regions r) (ver_uc_regions r)
    (ro_regions r) (ver_ro_regions r) (nrbw_regions r) (ver_nrbw_regions r) (stage_private_regions
    r) (ver_stage_private_regions r) x (separation_alloc_context r).
Definition set_separation_alloc_context (x : Z) (r : separation) : separation :=
    Separation (nnvh r) (nvh r) (heaps r) (versioned_heaps r) (uc_regions r) (ver_uc_regions r)
    (ro_regions r) (ver_ro_regions r) (nrbw_regions r) (ver_nrbw_regions r) (stage_private_regions
    r) (ver_stage_private_regions r) (separation_heap_size_map r) x.

(** The private globals of [prediction.cpp]. *)
Record predictors := Predictors {
  num_loop_invariant_loads : Z;
  num_linear_predictable_loads : Z;
  num_contexts : Z;
  coeff_a : gmap (Z * Z) Z;
  coeff_b : gmap (Z * Z) Z;
  is_double : gmap (Z * Z) Z }.

Definition set_num_loop_invariant_loads (x : Z) (r : predictors) : predictors :=
    Predictors x (num_linear_predictable_loads r) (num_contexts r) (coeff_a r) (coeff_b r)
    (is_double r).
Definition set_num_linear_predictable_loads (x : Z) (r : predictors) : predictors :=
  Predictors (num_loop_invariant_loads r) x (num_contexts r) (coeff_a r) (coeff_b r) (is_double r).
Definition set_num_contexts (x : Z) (r : predictors) : predictors :=
    Predictors (num_loop_invariant_loads r) (num_linear_predictable_loads r) x (coeff_a r)
    (coeff_b r) (is_double r).
Definition set_coeff_a (x : gmap (Z * Z) Z) (r : predictors) : predictors :=
    Predictors (num_loop_invariant_loads r) (num_linear_predictable_loads r) (num_contexts r) x
    (coeff_b r) (is_double r).
Definition set_coeff_b (x : gmap (Z * Z) Z) (r : predictors) : predictors :=
    Predictors (num_loop_invariant_loads r) (num_linear_predictable_loads r) (num_contexts r)
    (coeff_a r) x (is_double r).
Definition set_is_double (x : gmap (Z * Z) Z) (r : predictors) : predictors :=
    Predictors (num_loop_invariant_loads r) (num_linear_predictable_loads r) (num_contexts r)
    (coeff_a r) (coeff_b r) x.

(** Counters of [control.cpp], [smtx.cpp] and [speculation.cpp]. *)
Record control := Control {
  num_procs : Z;
  num_aux_workers : Z;
  num_available_workers_ : Z;
  num_active_workers : Z;
  try_commit_begin : Z;
  callingcontext : Z;
  invokedepth : Z }.

Definition set_num_procs (x : Z) (r : control) : control :=
    Control x (num_aux_workers r) (num_available_workers_ r) (num_active_workers r)
    (try_commit_begin r) (callingcontext r) (invokedepth r).
Definition set_num_aux_workers (x : Z) (r : control) : control :=
    Control (num_procs r) x (num_available_workers_ r) (num_active_workers r) (try_commit_begin r)
    (callingcontext r) (invokedepth r).
Definition set_num_available_workers_ (x : Z) (r : control) : control :=
    Control (num_procs r) (num_aux_workers r) x (num_active_workers r) (try_commit_begin r)
    (callingcontext r) (invokedepth r).
Definition set_num_active_workers (x : Z) (r : control) : control :=
    Control (num_procs r) (num_aux_workers r) (num_available_workers_ r) x (try_commit_begin r)
    (callingcontext r) (invokedepth r).
Definition set_try_commit_begin (x : Z) (r : control) : control :=
    Control (num_procs r) (num_aux_workers r) (num_available_workers_ r) (num_active_workers r) x
    (callingcontext r) (invokedepth r).
Definition set_callingcontext (x : Z) (r : control) : control :=
    Control (num_procs r) (num_aux_workers r) (num_available_workers_ r) (num_active_workers r)
    (try_commit_begin r) x (invokedepth r).
Definition set_invokedepth (x : Z) (r : control) : control :=
    Control (num_procs r) (num_aux_workers r) (num_available_workers_ r) (num_active_workers r)
    (try_commit_begin r) (callingcontext r) x.

(** The private state of a process: memory, page protections and globals. [shadow_heaps] and [triggered] are ordered sets. *)
Record proc := Proc {
  p_mem : mem;
  p_prot : gmap Z Z;
  current_iteration : Z;
  worker_id : Z;
  pstage_replica_id : Z;
  ver_malloc_chunks : gmap Z heap_chunk;
  shadow_globals : list Z;
  shadow_stacks : list Z;
  shadow_heaps : list Z;
  heap_size_map : gmap Z Z;
  triggered : list Z;
  ro_page_index : Z;
  stack_range : Z * Z;
  p_sep : separation;
  p_pred : predictors;
  p_ctl : control }.

Definition set_p_mem (x : mem) (r : proc) : proc :=
    Proc x (p_prot r) (current_iteration r) (worker_id r) (pstage_replica_id r) (ver_malloc_chunks
    r) (shadow_globals r) (shadow_stacks r) (shadow_heaps r) (heap_size_map r) (triggered r)
    (ro_page_index r) (stack_range r) (p_sep r) (p_pred r) (p_ctl r).
Definition set_p_prot (x : gmap Z Z) (r : proc) : proc :=
    Proc (p_mem r) x (current_iteration r) (worker_id r) (pstage_replica_id r) (ver_malloc_chunks
    r) (shadow_globals r) (shadow_stacks r) (shadow_heaps r) (heap_size_map r) (triggered r)
    (ro_page_index r) (stack_range r) (p_sep r) (p_pred r) (p_ctl r).
Definition set_current_iteration (x : Z) (r : proc) : proc :=
    Proc (p_mem r) (p_prot r) x (worker_id r) (pstage_replica_id r) (ver_malloc_chunks r)
    (shadow_globals r) (shadow_stacks r) (shadow_heaps r) (heap_size_map r) (triggered r)
    (ro_page_index r) (stack_range r) (p_sep r) (p_pred r) (p_ctl r).
Definition set_worker_id (x : Z) (r : proc) : proc :=
    Proc (p_mem r) (p_prot r) (current_iteration r) x (pstage_replica_id r) (ver_malloc_chunks r)
    (shadow_globals r) (shadow_stacks r) (shadow_heaps r) (heap_size_map r) (triggered r)
    (ro_page_index r) (stack_range r) (p_sep r) (p_pred r) (p_ctl r).
Definition set_pstage_replica_id (x : Z) (r : proc) : proc :=
    Proc (p_mem r) (p_prot r) (current_iteration r) (worker_id r) x (ver_malloc_chunks r)
    (shadow_globals r) (shadow_stacks r) (shadow_heaps r) (heap_size_map r) (triggered r)
    (ro_page_index r) (stack_range r) (p_sep r) (p_pred r) (p_ctl r).
Definition set_ver_malloc_chunks (x : gmap Z heap_chunk) (r : proc) : proc :=
    Proc (p_mem r) (p_prot r) (current_iteration r) (worker_id r) (pstage_replica_id r) x
    (shadow_globals r) (shadow_stacks r) (shadow_heaps r) (heap_size_map r) (triggered r)
    (ro_page_index r) (stack_range r) (p_sep r) (p_pred r) (p_ctl r).
Definition set_shadow_globals (x : list Z) (r : proc) : proc :=
    Proc (p_mem r) (p_prot r) (current_iteration r) (worker_id r) (pstage_replica_id r)
    (ver_malloc_chunks r) x (shadow_stacks r) (shadow_heaps r) (heap_size_map r) (triggered r)
    (ro_page_index r) (stack_range r) (p_sep r) (p_pred r) (p_ctl r).
Definition set_shadow_stacks (x : list Z) (r : proc) : proc :=
    Proc (p_mem r) (p_prot r) (current_iteration r) (worker_id r) (pstage_replica_id r)
    (ver_malloc_chunks r) (shadow_globals r) x (shadow_heaps r) (heap_size_map r) (triggered r)
    (ro_page_index r) (stack_range r) (p_sep r) (p_pred r) (p_ctl r).
Definition set_shadow_heaps (x : list Z) (r : proc) : proc :=
    Proc (p_mem r) (p_prot r) (current_iteration r) (worker_id r) (pstage_replica_id r)
    (ver_malloc_chunks r) (shadow_globals r) (shadow_stacks r) x (heap_size_map r) (triggered r)
    (ro_page_index r) (stack_range r) (p_sep r) (p_pred r) (p_ctl r).
Definition set_heap_size_map (x : gmap Z Z) (r : proc) : proc :=
    Proc (p_mem r) (p_prot r) (current_iteration r) (worker_id r) (pstage_replica_id r)
    (ver_malloc_chunks r) (shadow_globals r) (shadow_stacks r) (shadow_heaps r) x (triggered r)
    (ro_page_index r) (stack_range r) (p_sep r) (p_pred r) (p_ctl r).
Definition set_triggered (x : list Z) (r : proc) : proc :=
    Proc (p_mem r) (p_prot r) (current_iteration r) (worker_id r) (pstage_replica_id r)
    (ver_malloc_chunks r) (shadow_globals r) (shadow_stacks r) (shadow_heaps r) (heap_size_map r)
    x (ro_page_index r) (stack_range r) (p_sep r) (p_pred r) (p_ctl r).
Definition set_ro_page_index (x : Z) (r : proc) : proc :=
    Proc (p_mem r) (p_prot r) (current_iteration r) (worker_id r) (pstage_replica_id r)
    (ver_malloc_chunks r) (shadow_globals r) (shadow_stacks r) (shadow_heaps r) (heap_size_map r)
    (triggered r) x (stack_range r) (p_sep r) (p_pred r) (p_ctl r).
Definition set_stack_range (x : Z * Z) (r : proc) : proc :=
    Proc (p_mem r) (p_prot r) (current_iteration r) (worker_id r) (pstage_replica_id r)
    (ver_malloc_chunks r) (shadow_globals r) (shadow_stacks r) (shadow_heaps r) (heap_size_map r)
    (triggered r) (ro_page_index r) x (p_sep r) (p_pred r) (p_ctl r).
Definition set_p_sep (x : separation) (r : proc) : proc :=
    Proc (p_mem r) (p_prot r) (current_iteration r) (worker_id r) (pstage_replica_id r)
    (ver_malloc_chunks r) (shadow_globals r) (shadow_stacks r) (shadow_heaps r) (heap_size_map r)
    (triggered r) (ro_page_index r) (stack_range r) x (p_pred r) (p_ctl r).
Definition set_p_pred (x : predictors) (r : proc) : proc :=
    Proc (p_mem r) (p_prot r) (current_iteration r) (worker_id r) (pstage_replica_id r)
    (ver_malloc_chunks r) (shadow_globals r) (shadow_stacks r) (shadow_heaps r) (heap_size_map r)
    (triggered r) (ro_page_index r) (stack_range r) (p_sep r) x (p_ctl r).
Definition set_p_ctl (x : control) (r : proc) : proc :=
    Proc (p_mem r) (p_prot r) (current_iteration r) (worker_id r) (pstage_replica_id r)
    (ver_malloc_chunks r) (shadow_globals r) (shadow_stacks r) (shadow_heaps r) (heap_size_map r)
    (triggered r) (ro_page_index r) (stack_range r) (p_sep r) (p_pred r) x.

(** What the platform fixes: the strategy, the addresses the linker and
    [calloc] chose for the read-only page buffer and for [ver_malloc_buffer],
    and which [mmap] and [mprotect] calls succeed. *)
Record env := Env {
  e_strategy : strategy;
  e_ro_page_buffer : Z;
  e_ver_malloc_buffer : Z;
  e_mmap_ok : Z → bool;
  e_mprotect_ok : Z → bool }.

Record world := World { w_sh : shared; w_p : proc; w_env : env }.

Definition set_sh (x : shared) (w : world) : world := World x (w_p w) (w_env w).
Definition set_p (x : proc) (w : world) : world := World (w_sh w) x (w_env w).

(** The state of the main process before [__specpriv_init]: zero-initialised
    globals; [worker_id], [pstage_replica_id] and the number of available workers
    have initialisers. *)
Definition separation0 : separation := Separation 0 0 ∅ ∅ None None None None None None None None ∅ 0.
Definition predictors0 : predictors := Predictors 0 0 0 ∅ ∅ ∅.
Definition control0 : control := Control 0 0 (-1) 0 0 0 0.
Definition proc0 : proc :=
  Proc ∅ ∅ 0 MAIN_PROCESS_WID NOT_A_PARALLEL_STAGE ∅ [] [] [] ∅ [] 0 (0, 0)
    separation0 predictors0 control0.
Definition shared0 : shared := Shared (init_packets 0) ∅ ∅ ∅ ∅ None None ∅ ∅.

(** ** Access *)

Definition W := M world.

Definition getp {A} (f : proc → A) : W A := gets (λ w, f (w_p w)).
Definition getsh {A} (f : shared → A) : W A := gets (λ w, f (w_sh w)).
Definition gete {A} (f : env → A) : W A := gets (λ w, f (w_env w)).
Definition modp (f : proc → proc) : W unit := modify (λ w, set_p (f (w_p w)) w).
Definition modsh (f : shared → shared) : W unit := modify (λ w, set_sh (f (w_sh w)) w).
Definition modmem (f : mem → mem) : W unit := modp (λ p, set_p_mem (f (p_mem p)) p).
Definition modctl (f : control → control) : W unit := modp (λ p, set_p_ctl (f (p_ctl p)) p).
Definition modsep (f : separation → separation) : W unit := modp (λ p, set_p_sep (f (p_sep p)) p).
Definition modpred (f : predictors → predictors) : W unit := modp (λ p, set_p_pred (f (p_pred p)) p).

Definition g_ : W strategy := gete e_strategy.
Definition ctl {A} (f : control → A) : W A := getp (λ p, f (p_ctl p)).
Definition my_worker_id : W Z := getp worker_id.
Definition current_iter : W Z := getp current_iteration.

(** ** Queues *)

Definition chan_get (s : shared) (c : chan) : option queue_t :=
  match c with
  | Ucvf i j => ucvf_queues s !! (i, j)
  | ToTryCommit i j => queues s !! (i, j)
  | ToCommit i => commit_queues s !! i
  | Reverse i => reverse_commit_queues s !! i
  end.

Definition chan_set (c : chan) (q : queue_t) (s : shared) : shared :=
  match c with
  | Ucvf i j => set_ucvf_queues (<[(i, j) := q]> (ucvf_queues s)) s
  | ToTryCommit i j => set_queues (<[(i, j) := q]> (queues s)) s
  | ToCommit i => set_commit_queues (<[i := q]> (commit_queues s)) s
  | Reverse i => set_reverse_commit_queues (<[i := q]> (reverse_commit_queues s)) s
  end.

(** A missing queue is a null pointer. *)
Definition produce_to (c : chan) (v : vptr) : W unit := λ w,
  match chan_get (w_sh w) c with
  | None => Stop Fault w
  | Some q =>
      match sw_queue_produce q v with
      | Some q' => Ok tt (set_sh (chan_set c q' (w_sh w)) w)
      | None => Stop Spinning w
      end
  end.

Definition consume_from (c : chan) : W vptr := λ w,
  match chan_get (w_sh w) c with
  | None => Stop Fault w
  | Some q =>
      match sw_queue_consume q with
      | Some (v, q') => Ok v (set_sh (chan_set c q' (w_sh w)) w)
      | None => Stop Spinning w
      end
  end.

Definition is_empty (c : chan) : W bool := λ w,
  match chan_get (w_sh w) c with
  | None => Stop Fault w
  | Some q => Ok (sw_queue_empty q) w
  end.

Definition clear_chan (c : chan) : W unit := λ w,
  match chan_get (w_sh w) c with
  | None => Stop Fault w
  | Some q =>
      match sw_queue_clear q with
      | Some q' => Ok tt (set_sh (chan_set c q' (w_sh w)) w)
      | None => Stop Spinning w
      end
  end.

(** ** Packets *)

(** Dereferencing a [void*] as a packet or as a chunk. *)
Definition as_packet (v : vptr) : W (Z * Z) :=
  match v with WPacket o i => ret (o, i) | _ => halt Fault end.
Definition as_chunk (v : vptr) : W (Z * Z) :=
  match v with WChunk o i => ret (o, i) | _ => halt Fault end.
Definition as_int (v : vptr) : W Z :=
  match v with WInt z => ret z | _ => halt Fault end.

Definition packet_at (id : Z * Z) : W packet := getsh (λ s, get_packet (sh_pools s) id.1 id.2).
Definition chunk_at (id : Z * Z) : W packet_chunk := getsh (λ s, get_chunk (sh_pools s) id.1 id.2).
Definition modpools (f : pools → pools) : W unit := modsh (λ s, set_sh_pools (f (sh_pools s)) s).

(** [p->ptr = NULL]. *)
Definition release_packet (id : Z * Z) : W unit :=
  modpools (λ P, let p := get_packet P id.1 id.2 in
      put_packet P id.1 id.2 (Packet 0 (pk_value p) (pk_size p) (pk_is_write p) (pk_type p)
    (pk_sign p))).

(** [mark_packet_chunk_read(stage, chunk)]. *)
Definition release_chunk (stage : Z) (id : Z * Z) : W unit :=
  modpools (λ P, put_chunk P id.1 id.2 (mark_packet_chunk_read stage (get_chunk P id.1 id.2))).

(** ** Loops that end by a condition

    [2^n] rounds; the body returns [true] to go on.  Running out of rounds is
    reported as [Spinning]. *)
Definition loop_round (body : W bool) (w : world) : world + res world unit :=
  match body w with
  | Ok true w' => inl w'
  | Ok false w' => inr (Ok tt w')
  | Stop why w' => inr (Stop why w')
  end.
Definition loop (n : nat) (body : W bool) : W unit := λ w,
  match rounds n (loop_round body) w with inr r => r | inl w' => Stop Spinning w' end.

(** The same with a loop variable. *)
Definition loop_round_with {A} (body : A → W (A + A)) (st : A * world) : (A * world) + res world A :=
  match body st.1 st.2 with
  | Ok (inl a) w' => inl (a, w')
  | Ok (inr a) w' => inr (Ok a w')
  | Stop why w' => inr (Stop why w')
  end.
Definition loop_with {A} (n : nat) (body : A → W (A + A)) (a : A) : W A := λ w,
    match rounds n (loop_round_with body) (a, w) with inr r => r | inl (_, w') => Stop Spinning w'
    end.

(** ** Ordered sets ([std::set]) *)

Fixpoint set_insert (x : Z) (l : list Z) : list Z :=
  match l with
  | [] => [x]
  | y :: l' => if x <? y then x :: l else if x =? y then l else y :: set_insert x l'
  end.
Definition set_mem (x : Z) (l : list Z) : bool := existsb (Z.eqb x) l.

Lemma elem_of_set_insert x y l : y ∈ set_insert x l ↔ y = x ∨ y ∈ l.
Proof.
  induction l as [|z l IH]; simpl.
  - rewrite list_elem_of_singleton, elem_of_nil. tauto.
  - destruct (Z.ltb_spec x z); [rewrite elem_of_cons; tauto|].
    destruct (Z.eqb_spec x z) as [->|]; rewrite !elem_of_cons; [tauto|]. rewrite IH. tauto.
Qed.

Lemma set_mem_spec x l : set_mem x l = true ↔ x ∈ l.
Proof.
  unfold set_mem. rewrite existsb_exists. setoid_rewrite <-list_elem_of_In.
  setoid_rewrite Z.eqb_eq. split; [by intros (y & ? & ->)|eauto].
Qed.

(** [inv_bind] for the accessors of this file. *)
Ltac inv_w :=
  repeat (inv_bind; match goal with
  | H : getsh _ _ = Ok _ _ |- _ => unfold getsh in H
  | H : getp _ _ = Ok _ _ |- _ => unfold getp in H
  | H : gete _ _ = Ok _ _ |- _ => unfold gete in H
  | H : g_ _ = Ok _ _ |- _ => unfold g_ in H
  | H : ctl _ _ = Ok _ _ |- _ => unfold ctl in H
  | H : my_worker_id _ = Ok _ _ |- _ => unfold my_worker_id in H
  | H : current_iter _ = Ok _ _ |- _ => unfold current_iter in H
  | H : modp _ _ = Ok _ _ |- _ => unfold modp in H
  | H : modsh _ _ = Ok _ _ |- _ => unfold modsh in H
  | H : modmem _ _ = Ok _ _ |- _ => unfold modmem in H
  | H : modctl _ _ = Ok _ _ |- _ => unfold modctl in H
  | H : modsep _ _ = Ok _ _ |- _ => unfold modsep in H
  | H : modpools _ _ = Ok _ _ |- _ => unfold modpools in H
  end); inv_bind.

(** Unfold the accessors in a run that is computed forwards. *)
Ltac run_w :=
  unfold modpools, modmem, modctl, modsep, modsh, modp, my_worker_id, current_iter, ctl, g_, gete,
    getp, getsh, modify, gets, ret, bind; simpl.

(** ** Contents of queues *)

Definition chan_holds (s : shared) (c : chan) (vs : list vptr) : Prop :=
  ∃ q, chan_get s c = Some q ∧ queue_holds q vs.

Lemma chan_get_set s c d q :
  chan_get (chan_set c q s) d = if decide (c = d) then Some q else chan_get s d.
Proof.
  destruct (decide (c = d)) as [<-|Hne]; [destruct c; simpl; by rewrite lookup_insert_eq|].
  destruct c, d; simpl; try done; (rewrite lookup_insert_ne; [done|]); congruence.
Qed.

Lemma chan_set_pools c q s : sh_pools (chan_set c q s) = sh_pools s.
Proof. by destruct c. Qed.

Lemma chan_get_pools P s c : chan_get (set_sh_pools P s) c = chan_get s c.
Proof. by destruct c. Qed.

Lemma chan_holds_set s c d q vs : chan_holds (chan_set c q s) d vs ↔
  if decide (c = d) then queue_holds q vs else chan_holds s d vs.
Proof.
  unfold chan_holds. rewrite chan_get_set. destruct (decide (c = d)); [|done].
  split; [by intros (? & [= <-] & ?)|eauto].
Qed.

Lemma chan_holds_pools P s c vs : chan_holds (set_sh_pools P s) c vs ↔ chan_holds s c vs.
Proof. unfold chan_holds. by rewrite chan_get_pools. Qed.

Lemma produce_to_spec c v w vs : chan_holds (w_sh w) c vs → lenZ vs < PAIRS →
  ∃ q', produce_to c v w = Ok tt (set_sh (chan_set c q' (w_sh w)) w) ∧ queue_holds q' (vs ++ [v]).
Proof.
  intros (q & Hq & Hh) Hroom. unfold produce_to. rewrite Hq.
  destruct (produce_room q vs v Hh Hroom) as (q' & E & Hh'). rewrite E. eauto.
Qed.

Lemma consume_from_spec c w v vs : chan_holds (w_sh w) c (v :: vs) →
  ∃ q', consume_from c w = Ok v (set_sh (chan_set c q' (w_sh w)) w) ∧ queue_holds q' vs.
Proof.
  intros (q & Hq & Hh). unfold consume_from. rewrite Hq.
  destruct (consume_some q v vs Hh) as (q' & E & Hh'). rewrite E. eauto.
Qed.

Lemma consume_from_empty c w : chan_holds (w_sh w) c [] → consume_from c w = Stop Spinning w.
Proof.
  intros (q & Hq & Hh). unfold consume_from. rewrite Hq.
  pose proof (consume_none q Hh) as E. by rewrite E.
Qed.

Lemma is_empty_spec c w vs : chan_holds (w_sh w) c vs → is_empty c w = Ok (bool_decide (vs = [])) w.
Proof.
  intros (q & Hq & Hh). unfold is_empty. rewrite Hq. by rewrite (empty_holds q vs).
Qed.

Lemma clear_chan_spec c w vs : chan_holds (w_sh w) c vs →
  ∃ q', clear_chan c w = Ok tt (set_sh (chan_set c q' (w_sh w)) w) ∧ queue_holds q' [].
Proof.
  intros (q & Hq & Hh). unfold clear_chan. rewrite Hq.
  destruct (clear_holds q vs Hh) as (q' & -> & Hh'). eauto.
Qed.

Lemma queue_holds_fun q vs vs' : queue_holds q vs → queue_holds q vs' → vs = vs'.
Proof.
  revert q vs'. induction vs as [|v vs IH]; intros q vs' H H'.
  - destruct vs' as [|v' vs']; [done|]. pose proof (consume_none q H) as E.
    destruct (consume_some q _ _ H') as (? & E' & _). congruence.
  - destruct (consume_some q _ _ H) as (q1 & E & H1). destruct vs' as [|v' vs'].
    { pose proof (consume_none q H') as E'. congruence. }
    destruct (consume_some q _ _ H') as (q2 & E' & H2). rewrite E in E'. injection E' as -> ->.
    f_equal. by eapply IH.
Qed.

(** ** Termination of the loops *)

Lemma loop_lin n body w :
  loop n body w =
  match rounds_lin (2 ^ n) (loop_round body) w with inr r => r | inl w' => Stop Spinning w' end.
Proof. unfold loop. by rewrite rounds_spec. Qed.

(** What every round keeps holds after the loop. *)
Lemma loop_with_inv {A} (I : world → Prop) n (body : A → W (A + A)) a w :
  (∀ a w, I w → holds I (body a w)) → I w → holds I (loop_with n body a w).
Proof.
  intros Hb Hw. unfold loop_with. rewrite rounds_spec.
  pose proof (rounds_lin_inv (λ st, I st.2) (holds I) (loop_round_with body)) as H.
  assert (∀ s : A * world, I s.2 →
    match loop_round_with body s with inl s' => I s'.2 | inr r => holds I r end) as Hstep.
  { intros [b t] Ht. simpl in Ht. specialize (Hb b t Ht). unfold loop_round_with. simpl.
    destruct (body b t) as [[?|?] ?|]; done. }
  specialize (H Hstep (2 ^ n)%nat (a, w) Hw). by destruct (rounds_lin _ _ _) as [[??]|].
Qed.

Lemma loop_inv (I : world → Prop) n (body : W bool) w :
  (∀ w, I w → holds I (body w)) → I w → holds I (loop n body w).
Proof.
  intros Hb Hw. rewrite loop_lin.
  pose proof (rounds_lin_inv I (holds I) (loop_round body)) as H.
  assert (∀ s, I s → match loop_round body s with inl s' => I s' | inr r => holds I r end) as Hstep.
  { intros t Ht. specialize (Hb t Ht). unfold loop_round. by destruct (body t) as [[|] ?|]. }
  specialize (H Hstep (2 ^ n)%nat w Hw). by destruct (rounds_lin _ _ _).
Qed.

(** A loop whose body ends within [k] rounds. *)
Lemma loop_enough n k body w r :
  rounds_lin k (loop_round body) w = inr r → (k ≤ 2 ^ n)%nat → loop n body w = r.
Proof.
  intros E Hk. rewrite loop_lin. replace (2 ^ n)%nat with (k + (2 ^ n - k))%nat by lia.
  by rewrite rounds_lin_add, E.
Qed.

Lemma loop_with_enough {A} n k (body : A → W (A + A)) a w r :
  rounds_lin k (loop_round_with body) (a, w) = inr r → (k ≤ 2 ^ n)%nat → loop_with n body a w = r.
Proof.
  intros E Hk. unfold loop_with. rewrite rounds_spec. replace (2 ^ n)%nat with (k + (2 ^ n - k))%nat by lia.
  by rewrite rounds_lin_add, E.
Qed.
