(* ===== verification/Communicate.v ===== *)
(** Communication between the processes ([smtx/communicate.cpp]).

    A worker sends what it wrote in an iteration to the workers that run the
    same iteration of the later stages ("forward"), and events to all workers of
    the later stages ("broadcast"); both also go to the try-commit units. *)
From S2P Require Import Prelude Machine Strategy SwQueue Packet State.

Definition SIZEOF_PACKET_CHUNK : Z := MAX_STAGE_NUM + PAGE_SIZE.

(** [init_queues(n_workers, n_aux_workers)]: the pairs of workers of different
    stages get a queue; the other families are complete. *)
Definition init_queues (n_workers n_aux_workers : Z) : W unit :=
  let! g := g_ in
  let new := sw_queue_create in
  modsh (λ s, set_ucvf_queues
    (foldl (λ t i, foldl (λ t j,
       if GET_MY_STAGE g i =? GET_MY_STAGE g j then t else <[(i, j) := new]> t)
       t (seqZ (i + 1) (n_workers - (i + 1)))) ∅ (seqZ 0 n_workers)) s) ;;;
  modsh (λ s, set_queues
    (foldl (λ t i, foldl (λ t j, <[(i, j) := new]> t) t (seqZ 0 n_aux_workers)) ∅ (seqZ 0 n_workers)) s) ;;;
  modsh (λ s, set_commit_queues (foldl (λ t i, <[i := new]> t) ∅ (seqZ 0 n_aux_workers)) s) ;;;
  modsh (λ s, set_reverse_commit_queues (foldl (λ t i, <[i := new]> t) ∅ (seqZ 0 n_workers)) s).

(** The queues and everything in them are unmapped. *)
Definition fini_queues (n_workers n_aux_workers : Z) : W unit :=
  modsh (λ s, set_reverse_commit_queues ∅ (set_commit_queues ∅ (set_queues ∅ (set_ucvf_queues ∅ s)))).

(** The sign bytes of a new chunk. *)
Definition chunk_signs (g : strategy) (wid tcb : Z) (sign : mem) : mem :=
  let sign := wr sign 0 1 in
  if wid <? tcb then
    let i := GET_MY_STAGE g wid + 1 in
    foldl (λ m i, wr m i 1) sign (seqZ i (GET_NUM_STAGES g - i))
  else sign.

Definition create_packet_chunk (wid addr : Z) : W vptr :=
  let! P := getsh sh_pools in
  match get_available_packet_chunk wid P with
  | None => halt Spinning
  | Some (i, P) =>
      let! g := g_ in
      let! tcb := ctl try_commit_begin in
      let! m := getp p_mem in
      let c := get_chunk P wid i in
      modpools (λ _, put_chunk P wid i
        (Chunk (chunk_signs g wid tcb (ck_sign c)) (memcpy (ck_data c) 0 m addr PAGE_SIZE))) ;;;
      ret (WChunk wid i)
  end.

(** The fields of a packet that [create_packet] fills in. *)
Definition fill (p : packet) (ptr : Z) (value : vptr) (size is_write type : Z) : packet :=
  Packet ptr value size is_write type (pk_sign p).

Definition create_packet (wid ptr : Z) (value : vptr) (size is_write type : Z) : W vptr :=
  let! P := getsh sh_pools in
  match (if wid =? MAIN_PROCESS_WID then get_available_commit_process_packet P
         else get_available_packet wid P) with
  | None => halt Spinning
  | Some (i, P) =>
      modpools (λ _, put_packet P wid i (fill (get_packet P wid i) ptr value size is_write type)) ;;;
      ret (WPacket wid i)
  end.

(** Create a packet and put it into a queue. *)
Definition send (wid ptr : Z) (value : vptr) (size is_write type : Z) (c : chan) : W unit :=
  let! p := create_packet wid ptr value size is_write type in
  produce_to c p.

(** The try-commit unit responsible for an address. *)
Definition target_try_commit (n_aux addr : Z) : Z := Z.shiftr addr PAGE_SHIFT mod n_aux.

Definition forward_page (wid iter addr check : Z) : W Z :=
  let! g := g_ in
  let my_stage := GET_MY_STAGE g wid in
  let! chunk := create_packet_chunk wid addr in
  for_ (seqZ (my_stage + 1) (GET_NUM_STAGES g - (my_stage + 1))) (λ i,
    let wid_offset := u32 iter mod GET_REPLICATION_FACTOR g i in
    let target_wid := GET_FIRST_WID_OF_STAGE g i + wid_offset in
    send wid addr chunk SIZEOF_PACKET_CHUNK check SUPER (Ucvf wid target_wid)) ;;;
  let! n_aux := ctl num_aux_workers in
  send wid addr chunk SIZEOF_PACKET_CHUNK check SUPER (ToTryCommit wid (target_try_commit n_aux addr)) ;;;
  ret 0.

Definition forward_packet (wid iter addr : Z) (value : vptr) (size check : Z) : W Z :=
  assert_ (negb (check =? CHECK_FREE)) ;;;
  let! g := g_ in
  let my_stage := GET_MY_STAGE g wid in
  for_ (seqZ (my_stage + 1) (GET_NUM_STAGES g - (my_stage + 1))) (λ i,
    let wid_offset := u32 iter mod GET_REPLICATION_FACTOR g i in
    let target_wid := GET_FIRST_WID_OF_STAGE g i + wid_offset in
    send wid addr value size check NORMAL (Ucvf wid target_wid)) ;;;
  let! n_aux := ctl num_aux_workers in
  send wid addr value size check NORMAL (ToTryCommit wid (target_try_commit n_aux addr)) ;;;
  ret 0.

(** Send to all workers of all later stages, then to all try-commit units. *)
Definition to_all_following (wid ptr : Z) (value : vptr) (size write type : Z) : W unit :=
  let! g := g_ in
  let my_stage := GET_MY_STAGE g wid in
  for_ (seqZ (my_stage + 1) (GET_NUM_STAGES g - (my_stage + 1))) (λ i,
    for_ (seqZ (GET_FIRST_WID_OF_STAGE g i) (GET_REPLICATION_FACTOR g i)) (λ j,
      send wid ptr value size write type (Ucvf wid j))) ;;;
  let! n_aux := ctl num_aux_workers in
  for_ (seqZ 0 n_aux) (λ i, send wid ptr value size write type (ToTryCommit wid i)).

Definition broadcast_malloc_chunk (wid addr size : Z) : W unit :=
  let! tcb := ctl try_commit_begin in
  if tcb <=? wid then ret tt else
  let num_chunks := size / PAGE_SIZE + (if size mod PAGE_SIZE =? 0 then 0 else 1) in
  for_ (seqZ 0 num_chunks) (λ c,
    let! chunk := create_packet_chunk wid (addr + c * PAGE_SIZE) in
    to_all_following wid 0 chunk 0 0 ALLOC).

Definition broadcast_event (wid ptr size : Z) (value : vptr) (write type : Z) : W Z :=
  let! tcb := ctl try_commit_begin in
  if tcb <=? wid then ret 0 else
  to_all_following wid ptr value size write type ;;; ret 0.

Definition to_try_commit (wid ptr size : Z) (value : vptr) (write type : Z) : W Z :=
  let! n_aux := ctl num_aux_workers in
  for_ (seqZ 0 n_aux) (λ i, send wid ptr value size write type (ToTryCommit wid i)) ;;; ret 0.

Definition commit_queue_broadcast_event (wid ptr size : Z) (value : vptr) (write type : Z) : W unit :=
  let! tcb := ctl try_commit_begin in
  for_ (seqZ 0 tcb) (λ i, send wid ptr value size write type (Reverse i)).

Definition clear_incoming_queues (wid : Z) : W unit :=
  let! tcb := ctl try_commit_begin in
  if wid <? tcb then
    for_ (seqZ 0 wid) (λ i,
      let! s := getsh id in
      match chan_get s (Ucvf i wid) with
      | Some _ => clear_chan (Ucvf i wid)
      | None => ret tt
      end)
  else
    for_ (seqZ 0 tcb) (λ i, clear_chan (ToTryCommit i (wid - tcb))).

(** Sending leaves the private state alone. *)
Lemma send_frame wid ptr value size wr ty c w u w' :
  send wid ptr value size wr ty c w = Ok u w' → w_p w' = w_p w ∧ w_env w' = w_env w.
Proof.
  unfold send, create_packet. intros H. inv_w. destruct (if wid =? _ then _ else _) as [[i P]|];
    [|discriminate]. inv_w. unfold produce_to in Hk. simpl in Hk.
  destruct (chan_get _ c); [|done]. destruct (sw_queue_produce _ _); [|done].
  by injection Hk as _ <-.
Qed.

Lemma sends_frame {A} (l : list A) (f : A → W unit) :
  (∀ x w u w', f x w = Ok u w' → w_p w' = w_p w ∧ w_env w' = w_env w) →
  ∀ w u w', for_ l f w = Ok u w' → w_p w' = w_p w ∧ w_env w' = w_env w.
Proof.
  intros Hf w u w' H. eapply (for_inv (λ t, w_p t = w_p w ∧ w_env t = w_env w)) in H; [done| |done].
  intros x t v t' _ [<- <-] Ht. by eapply Hf.
Qed.

(** ** Room in a packet pool

    The [k] entries from the [next] pointer on are free. *)
Record pool_room (P : pools) (wid k : Z) : Prop := {
  pr_ok : pools_ok P;
  pr_size : k ≤ PACKET_POOL_SIZE;
  pr_free e : 0 ≤ e < k → pk_ptr (get_packet P wid (nth_from (packet_next P wid) e)) = 0 }.

Lemma pool_room_le P wid j k : pool_room P wid k → j ≤ k → pool_room P wid j.
Proof. intros [Hok Hs Hf] Hj. split; [done|lia|]. intros e He. apply Hf. lia. Qed.

Lemma get_put_packet P o i p o' j :
  get_packet (put_packet P o i p) o' j = if decide ((o, i) = (o', j)) then p else get_packet P o' j.
Proof.
  unfold get_packet, put_packet. simpl. destruct (decide ((o, i) = (o', j))) as [E|Hne].
  - injection E as <- <-. by rewrite lookup_insert_eq.
  - by rewrite lookup_insert_ne.
Qed.

Lemma nth_from_neq start e e' : 0 ≤ e < PACKET_POOL_SIZE → 0 ≤ e' < PACKET_POOL_SIZE → e ≠ e' →
  nth_from start e ≠ nth_from start e'.
Proof.
  unfold nth_from, PACKET_POOL_SIZE. intros H1 H2 Hne E. apply Hne.
  Z.to_euclidean_division_equations. lia.
Qed.

Lemma nth_from_bump_e start e : in_pool start → nth_from (nth_from start 1) e = nth_from start (e + 1).
Proof.
  intros Hs. unfold nth_from. rewrite Zplus_mod_idemp_l. f_equal. lia.
Qed.

Lemma nth_from_add start a b : nth_from (nth_from start a) b = nth_from start (a + b).
Proof. unfold nth_from. rewrite Zplus_mod_idemp_l. f_equal. lia. Qed.

Lemma bump_nth start : in_pool start → bump start = nth_from start 1.
Proof.
  intros Hs. rewrite <-(nth_from_0 (bump start)) by (by apply bump_in_pool).
  by rewrite nth_from_bump.
Qed.

(** The shared state besides pools and queues. *)
Definition rest_of (s : shared) : option pcb * option Z * gmap (Z * Z) LoopInvariantBuffer * gmap (Z * Z) LinearPredictor :=
  (the_pcb s, good_to_go s, loop_invariant_buffer s, linear_predictors s).

Lemma rest_of_chan_set c q s : rest_of (chan_set c q s) = rest_of s.
Proof. by destruct c. Qed.

(** ** What a series of sends does

    [cs] are the queues written to, in order; the packets come from the
    [lenZ cs] pool entries from the [next] pointer on. *)
Record delivered (w w' : world) (wid : Z) (cs : list chan)
    (ptr : Z) (value : vptr) (size is_write type : Z) : Prop := {
  dl_in c vs : c ∈ cs → chan_holds (w_sh w) c vs →
    ∃ e sg, 0 ≤ e < lenZ cs ∧
      let i := nth_from (packet_next (sh_pools (w_sh w)) wid) e in
      chan_holds (w_sh w') c (vs ++ [WPacket wid i]) ∧
      get_packet (sh_pools (w_sh w')) wid i = Packet ptr value size is_write type sg;
  dl_out c vs : c ∉ cs → chan_holds (w_sh w) c vs → chan_holds (w_sh w') c vs;
  dl_frame o j :
    (∀ e, 0 ≤ e < lenZ cs → (o, j) ≠ (wid, nth_from (packet_next (sh_pools (w_sh w)) wid) e)) →
    get_packet (sh_pools (w_sh w')) o j = get_packet (sh_pools (w_sh w)) o j;
  dl_next : packet_next (sh_pools (w_sh w')) wid = nth_from (packet_next (sh_pools (w_sh w)) wid) (lenZ cs);
  dl_pools : pools_ok (sh_pools (w_sh w'));
  dl_chunks : pl_chunks (sh_pools (w_sh w')) = pl_chunks (sh_pools (w_sh w)) ∧
    pl_chunk_nexts (sh_pools (w_sh w')) = pl_chunk_nexts (sh_pools (w_sh w));
  dl_some c : is_Some (chan_get (w_sh w') c) ↔ is_Some (chan_get (w_sh w) c);
  dl_rest : rest_of (w_sh w') = rest_of (w_sh w);
  dl_proc : w_p w' = w_p w;
  dl_env : w_env w' = w_env w }.

Lemma delivered_nil w wid ptr value size wr ty :
  pools_ok (sh_pools (w_sh w)) → delivered w w wid [] ptr value size wr ty.
Proof.
  intros Hok. split; try done.
  - intros c vs H. by apply elem_of_nil in H.
  - unfold lenZ. simpl. rewrite nth_from_0; [done|]. apply Hok.
Qed.

Lemma delivered_room w w' wid cs ptr value size wr ty k :
  delivered w w' wid cs ptr value size wr ty → pool_room (sh_pools (w_sh w)) wid k → lenZ cs ≤ k →
  pool_room (sh_pools (w_sh w')) wid (k - lenZ cs).
Proof.
  intros [_ _ Hfr Hn Hok _ _ _ _ _] [_ Hs Hf] Hk. assert (0 ≤ lenZ cs) by (unfold lenZ; lia).
  split; [done|lia|]. intros e He.
  rewrite Hn, nth_from_add, Hfr; [apply Hf; lia|]. intros e' He' [= Heq].
  apply (nth_from_neq (packet_next (sh_pools (w_sh w)) wid) (lenZ cs + e) e'); (done || lia).
Qed.

(** One packet. *)
Lemma send_delivered w wid ptr value size wr ty c vs :
  wid ≠ MAIN_PROCESS_WID → pool_room (sh_pools (w_sh w)) wid 1 →
  chan_holds (w_sh w) c vs → lenZ vs < PAIRS →
  ∃ w', send wid ptr value size wr ty c w = Ok tt w' ∧
    delivered w w' wid [c] ptr value size wr ty.
Proof.
  intros Hwid [Hok _ Hf] Hc Hroom. set (P := sh_pools (w_sh w)) in *.
  pose proof (po_packet _ Hok wid) as Hin.
  specialize (Hf 0 ltac:(lia)). rewrite nth_from_0 in Hf by done.
  assert (search (λ i, is_packet_available (get_packet P wid i)) (packet_next P wid)
          = Some (packet_next P wid)) as Es.
  { unfold search. rewrite (rounds_now _ _ _ (packet_next P wid)); [done|].
    unfold search_round, is_packet_available. rewrite Hf. done. }
  unfold send, create_packet, bind, getsh, gets. fold P.
  rewrite (proj2 (Z.eqb_neq _ _) Hwid). unfold get_available_packet. rewrite Es.
  unfold modpools, modsh, modify, ret.
  set (i := packet_next P wid) in *.
  set (P' := put_packet _ _ _ _). set (w1 := set_sh (set_sh_pools P' (w_sh w)) w).
  assert (chan_holds (w_sh w1) c vs) as Hc1 by (by apply chan_holds_pools).
  destruct (produce_to_spec c (WPacket wid i) w1 vs Hc1 Hroom) as (q' & -> & Hq').
  eexists. split; [done|]. subst w1.
  assert (packet_next P' wid = bump i) as Hn.
  { unfold P', packet_next, put_packet. simpl. by rewrite lookup_insert_eq. }
  split; simpl; rewrite ?chan_set_pools; simpl; fold P i.
  - intros d us ->%list_elem_of_singleton Hd. exists 0. eexists. split; [unfold lenZ; simpl; lia|].
    rewrite nth_from_0 by done. split.
    + apply chan_holds_set. rewrite decide_True by done.
      destruct Hc as (q & Eq & Hq), Hd as (q1 & Eq1 & Hq1). rewrite Eq in Eq1. injection Eq1 as <-.
      by rewrite (queue_holds_fun q us vs).
    + unfold P'. by rewrite get_put_packet, decide_True.
  - intros d us Hd%not_elem_of_cons H. apply chan_holds_set.
    rewrite decide_False by (intros ->; by destruct Hd). by apply chan_holds_pools.
  - intros o j Hne. unfold P'. rewrite get_put_packet, decide_False; [done|].
    specialize (Hne 0 ltac:(unfold lenZ; simpl; lia)). rewrite nth_from_0 in Hne by done. congruence.
  - rewrite Hn. unfold lenZ. simpl. by rewrite bump_nth.
  - destruct Hok as [Hp Hcm Hk]. split; [|done|done]. intros o. unfold P', packet_next. simpl.
    destruct (decide (wid = o)) as [->|]; [rewrite lookup_insert_eq; by apply bump_in_pool|].
    rewrite lookup_insert_ne by done. apply Hp.
  - done.
  - intros d. rewrite chan_get_set, chan_get_pools. destruct (decide (c = d)) as [<-|]; [|done].
    destruct Hc as (q & Eq & _). by rewrite Eq.
  - by rewrite rest_of_chan_set.
  - done.
  - done.
Qed.

Lemma delivered_cons w w1 w2 wid c cs ptr value size wr ty :
  delivered w w1 wid [c] ptr value size wr ty → delivered w1 w2 wid cs ptr value size wr ty →
  c ∉ cs → pools_ok (sh_pools (w_sh w)) → lenZ (c :: cs) ≤ PACKET_POOL_SIZE →
  delivered w w2 wid (c :: cs) ptr value size wr ty.
Proof.
  intros [Hi1 Ho1 Hf1 Hn1 _ Hc1 Hs1 Hr1 Hp1 He1] [Hi2 Ho2 Hf2 Hn2 Hok2 Hc2 Hs2 Hr2 Hp2 He2] Hnin Hok Hlen.
  pose proof (po_packet _ Hok wid) as Hin. set (s := packet_next (sh_pools (w_sh w)) wid) in *.
  assert (lenZ [c] = 1) as L1 by done. rewrite L1 in *.
  assert (lenZ (c :: cs) = lenZ cs + 1) as L2 by (unfold lenZ; simpl; lia). rewrite L2 in *.
  assert (0 ≤ lenZ cs) by (unfold lenZ; lia).
  assert (∀ e, nth_from (packet_next (sh_pools (w_sh w1)) wid) e = nth_from s (e + 1)) as Hsh.
  { intros e. rewrite Hn1. by apply nth_from_bump_e. }
  split; rewrite ?L2.
  - intros d vs [->|Hd]%elem_of_cons Hh.
    + destruct (Hi1 c vs ltac:(by apply list_elem_of_singleton) Hh) as (e & sg & He & H1 & H2).
      replace e with 0 in * by lia. exists 0, sg. split; [lia|]. split; [by apply Ho2|].
      rewrite Hf2; [done|]. intros e' He' [= Heq]. rewrite Hsh in Heq.
      apply (nth_from_neq s 0 (e' + 1)); (done || lia).
    + assert (d ≠ c) by (intros ->; done).
      pose proof (Ho1 d vs ltac:(by rewrite list_elem_of_singleton) Hh) as Hh1.
      destruct (Hi2 d vs Hd Hh1) as (e & sg & He & H1 & H2). rewrite Hsh in H1, H2.
      exists (e + 1), sg. split; [lia|]. done.
  - intros d vs [Hd1 Hd2]%not_elem_of_cons Hh. apply Ho2; [done|]. apply Ho1; [|done].
    by rewrite list_elem_of_singleton.
  - intros o j Hne. rewrite Hf2, Hf1; [done| |].
    + intros e He. replace e with 0 by lia. apply Hne. lia.
    + intros e He. rewrite Hsh. apply Hne. lia.
  - rewrite Hn2. by apply Hsh.
  - done.
  - destruct Hc1, Hc2. split; congruence.
  - intros d. by rewrite Hs2.
  - congruence.
  - congruence.
  - congruence.
Qed.

(** Room for one packet in each queue. *)
Definition chans_ready (w : world) (cs : list chan) : Prop :=
  ∀ c, c ∈ cs → ∃ vs, chan_holds (w_sh w) c vs ∧ lenZ vs < PAIRS.

Lemma sends_delivered wid ptr value size wr ty cs : ∀ w,
  wid ≠ MAIN_PROCESS_WID → NoDup cs → pool_room (sh_pools (w_sh w)) wid (lenZ cs) →
  chans_ready w cs →
  ∃ w', for_ cs (send wid ptr value size wr ty) w = Ok tt w' ∧
    delivered w w' wid cs ptr value size wr ty.
Proof.
  induction cs as [|c cs IH]; intros w Hwid Hnd Hroom Hready; simpl.
  - eexists. split; [done|]. apply delivered_nil, Hroom.
  - apply NoDup_cons in Hnd as [Hnin Hnd].
    assert (lenZ (c :: cs) = lenZ cs + 1) as L2 by (unfold lenZ; simpl; lia).
    assert (0 ≤ lenZ cs) by (unfold lenZ; lia).
    destruct (Hready c ltac:(apply elem_of_cons; by left)) as (vs & Hc & Hr).
    destruct (send_delivered w wid ptr value size wr ty c vs Hwid
      ltac:(eapply pool_room_le; [done|lia]) Hc Hr) as (w1 & E1 & D1).
    pose proof (delivered_room _ _ _ _ _ _ _ _ _ _ D1 Hroom ltac:(unfold lenZ; simpl; lia)) as Hroom1.
    assert (lenZ [c] = 1) as L1 by done. rewrite L1 in Hroom1.
    destruct (IH w1 Hwid Hnd) as (w2 & E2 & D2).
    { eapply pool_room_le; [done|lia]. }
    { intros d Hd. destruct (Hready d ltac:(apply elem_of_cons; by right)) as (us & Hu & Hru).
      exists us. split; [|done]. apply (dl_out _ _ _ _ _ _ _ _ _ D1); [|done].
      rewrite list_elem_of_singleton. intros ->. done. }
    exists w2. unfold bind. rewrite E1. split; [done|]. destruct Hroom as [Hok Hsz _].
    by eapply delivered_cons.
Qed.

(** ** Chunks *)

(** The state after [create_packet_chunk]: the chunk at the [next] pointer
    holds a copy of the page at [addr]. *)
Definition with_page_chunk (w : world) (wid addr : Z) : world :=
  let P := sh_pools (w_sh w) in
  let i := chunk_next P wid in
  let c := get_chunk P wid i in
  let c' := Chunk (chunk_signs (e_strategy (w_env w)) wid (try_commit_begin (p_ctl (w_p w))) (ck_sign c))
                  (memcpy (ck_data c) 0 (p_mem (w_p w)) addr PAGE_SIZE) in
  set_sh (set_sh_pools (Pools (pl_packets P) (pl_packet_nexts P) (pl_commit_next P)
    (<[(wid, i) := c']> (pl_chunks P)) (<[wid := bump i]> (pl_chunk_nexts P))) (w_sh w)) w.

Definition chunk_ready (w : world) (wid : Z) : Prop :=
  let P := sh_pools (w_sh w) in is_chunk_available (get_chunk P wid (chunk_next P wid)) = true.

Lemma create_packet_chunk_ok w wid addr : chunk_ready w wid →
  create_packet_chunk wid addr w =
  Ok (WChunk wid (chunk_next (sh_pools (w_sh w)) wid)) (with_page_chunk w wid addr).
Proof.
  intros Hr. unfold create_packet_chunk, bind, getsh, gets, get_available_packet_chunk, search.
  rewrite (rounds_now _ _ _ (chunk_next (sh_pools (w_sh w)) wid)); [done|].
  unfold search_round. by rewrite Hr.
Qed.

Lemma with_page_chunk_ok w wid addr :
  pools_ok (sh_pools (w_sh w)) → pools_ok (sh_pools (w_sh (with_page_chunk w wid addr))).
Proof.
  intros [Hp Hc Hk]. split; [done|done|]. intros o. unfold chunk_next. simpl.
  destruct (decide (wid = o)) as [->|].
  - rewrite lookup_insert_eq. apply bump_in_pool, Hk.
  - rewrite lookup_insert_ne by done. apply Hk.
Qed.

Lemma with_page_chunk_room w wid addr k :
  pool_room (sh_pools (w_sh w)) wid k → pool_room (sh_pools (w_sh (with_page_chunk w wid addr))) wid k.
Proof. intros [Hok Hs Hf]. split; [by apply with_page_chunk_ok|done|done]. Qed.

Lemma with_page_chunk_chans w wid addr c vs :
  chan_holds (w_sh (with_page_chunk w wid addr)) c vs ↔ chan_holds (w_sh w) c vs.
Proof. apply chan_holds_pools. Qed.

Lemma rd_set_signs l m k : rd (foldl (λ m i, wr m i 1) m l) k = if decide (k ∈ l) then 1 else rd m k.
Proof.
  revert m. induction l as [|i l IH]; intros m; cbn [foldl].
  - by rewrite decide_False by (apply not_elem_of_nil).
  - rewrite IH, rd_wr. destruct (decide (k ∈ l)) as [Hk|Hk].
    + rewrite decide_True; [done|]. apply elem_of_cons. by right.
    + destruct (decide (i = k)) as [->|].
      * rewrite decide_True; [done|]. apply elem_of_cons. by left.
      * rewrite decide_False; [done|]. rewrite elem_of_cons. by intros [->|?].
Qed.

(** Who must read a chunk of a worker: the commit unit and every later stage. *)
Lemma chunk_signs_spec g wid tcb sign k :
  (∀ j, 0 ≤ j < MAX_STAGE_NUM → rd sign j = 0) → wid < tcb → 0 ≤ k < MAX_STAGE_NUM →
  0 ≤ GET_MY_STAGE g wid →
  rd (chunk_signs g wid tcb sign) k =
  if decide (k = 0 ∨ GET_MY_STAGE g wid < k < GET_NUM_STAGES g) then 1 else 0.
Proof.
  intros Hz Hlt Hk Hst. unfold chunk_signs. rewrite (proj2 (Z.ltb_lt _ _) Hlt), rd_set_signs.
  destruct (decide (k ∈ _)) as [Hin|Hin]; rewrite elem_of_seqZ in Hin.
  - rewrite decide_True by lia. done.
  - rewrite rd_wr, Hz by done. destruct (decide (0 = k)) as [<-|].
    + rewrite decide_True by lia. done.
    + rewrite decide_False by lia. done.
Qed.

Lemma get_page_chunk w wid addr :
  get_chunk (sh_pools (w_sh (with_page_chunk w wid addr))) wid (chunk_next (sh_pools (w_sh w)) wid) =
  let c := get_chunk (sh_pools (w_sh w)) wid (chunk_next (sh_pools (w_sh w)) wid) in
  Chunk (chunk_signs (e_strategy (w_env w)) wid (try_commit_begin (p_ctl (w_p w))) (ck_sign c))
        (memcpy (ck_data c) 0 (p_mem (w_p w)) addr PAGE_SIZE).
Proof. unfold get_chunk at 1. simpl. by rewrite lookup_insert_eq. Qed.

(** ** Targets *)

Definition later_stages (g : strategy) (wid : Z) : list Z :=
  let s := GET_MY_STAGE g wid in seqZ (s + 1) (GET_NUM_STAGES g - (s + 1)).

(** The worker of iteration [iter] in each later stage, and the try-commit
    unit of the address. *)
Definition forward_targets (g : strategy) (n_aux wid iter addr : Z) : list chan :=
  ((λ i, Ucvf wid (wid_of_iter g iter i)) <$> later_stages g wid) ++
  [ToTryCommit wid (target_try_commit n_aux addr)].

(** All workers of all later stages, and all try-commit units. *)
Definition broadcast_targets (g : strategy) (n_aux wid : Z) : list chan :=
  (later_stages g wid ≫= λ i,
     Ucvf wid <$> seqZ (GET_FIRST_WID_OF_STAGE g i) (GET_REPLICATION_FACTOR g i)) ++
  (ToTryCommit wid <$> seqZ 0 n_aux).

(** A worker of the parallel region. *)
Record worker_ok (w : world) (wid : Z) : Prop := {
  wo_strategy : strategy_ok (e_strategy (w_env w)) (try_commit_begin (p_ctl (w_p w)));
  wo_wid : 0 ≤ wid < try_commit_begin (p_ctl (w_p w));
  wo_max : try_commit_begin (p_ctl (w_p w)) ≤ MAX_WORKERS;
  wo_aux : 0 < num_aux_workers (p_ctl (w_p w)) }.

Lemma worker_not_main w wid : worker_ok w wid → wid ≠ MAIN_PROCESS_WID.
Proof.
  intros [_ H1 H2 _] ->. unfold MAX_WORKERS in H2. assert (MAIN_PROCESS_WID = 4294967295) as E by done. lia.
Qed.

Lemma elem_of_later_stages g wid i :
  i ∈ later_stages g wid ↔ GET_MY_STAGE g wid < i < GET_NUM_STAGES g.
Proof. unfold later_stages. rewrite elem_of_seqZ. lia. Qed.

Lemma forward_targets_NoDup g n n_aux wid iter addr :
  strategy_ok g n → 0 ≤ wid < n → NoDup (forward_targets g n_aux wid iter addr).
Proof.
  intros Hok Hw. pose proof (ok_stage _ _ Hok _ Hw) as Hst. apply NoDup_app. split_and!.
  - apply NoDup_fmap_2_strong; [|apply NoDup_seqZ]. intros i j Hi Hj [= E].
    apply elem_of_later_stages in Hi, Hj. unfold GET_NUM_STAGES in *.
    destruct (wid_of_iter_stage g n iter i Hok ltac:(lia)) as [_ <-].
    destruct (wid_of_iter_stage g n iter j Hok ltac:(lia)) as [_ <-]. congruence.
  - intros c (i & -> & _)%list_elem_of_fmap. by rewrite list_elem_of_singleton.
  - apply NoDup_singleton.
Qed.

Lemma NoDup_bind {A B} (f : A → list B) l :
  NoDup l → (∀ x, x ∈ l → NoDup (f x)) →
  (∀ x y b, x ∈ l → y ∈ l → b ∈ f x → b ∈ f y → x = y) → NoDup (l ≫= f).
Proof.
  induction l as [|x l IH]; intros Hnd Hf Hd; simpl; [constructor|].
  apply NoDup_cons in Hnd as [Hx Hnd]. apply NoDup_app. split_and!.
  - apply Hf, elem_of_cons. by left.
  - intros b Hb (y & Hy & Hyl)%list_elem_of_bind. apply Hx.
    rewrite (Hd x y b); [done|apply elem_of_cons; by left|apply elem_of_cons; by right|done|done].
  - apply IH; [done| |].
    + intros y Hy. apply Hf, elem_of_cons. by right.
    + intros y z b Hy Hz. apply Hd; apply elem_of_cons; by right.
Qed.

Lemma broadcast_targets_NoDup g n n_aux wid :
  strategy_ok g n → 0 ≤ wid < n → NoDup (broadcast_targets g n_aux wid).
Proof.
  intros Hok Hw. pose proof (ok_stage _ _ Hok _ Hw) as Hst. apply NoDup_app. split_and!.
  - apply NoDup_bind; [apply NoDup_seqZ| |].
    + intros i _. apply NoDup_fmap_2_strong; [|apply NoDup_seqZ]. congruence.
    + intros i j c Hi Hj (a & -> & Ha)%list_elem_of_fmap (b & [= ->] & Hb)%list_elem_of_fmap.
      apply elem_of_later_stages in Hi, Hj. apply elem_of_seqZ in Ha, Hb. unfold GET_NUM_STAGES in *.
      destruct (ok_block _ _ Hok i b ltac:(lia) Ha) as [_ <-].
      by destruct (ok_block _ _ Hok j b ltac:(lia) Hb) as [_ <-].
  - intros c (i & Hc & _)%list_elem_of_bind (k & -> & _)%list_elem_of_fmap.
    by apply list_elem_of_fmap in Hc as (? & ? & _).
  - apply NoDup_fmap_2_strong; [|apply NoDup_seqZ]. congruence.
Qed.

(** ** The sending functions are sends to their targets *)

Lemma forward_packet_sends wid iter addr value size check w :
  check ≠ CHECK_FREE →
  forward_packet wid iter addr value size check w =
  (for_ (forward_targets (e_strategy (w_env w)) (num_aux_workers (p_ctl (w_p w))) wid iter addr)
     (send wid addr value size check NORMAL) ;;; ret 0) w.
Proof.
  intros Hc. unfold forward_packet, forward_targets, bind, assert_.
  rewrite (proj2 (Z.eqb_neq _ _) Hc). simpl. unfold g_, gete, gets, ret.
  rewrite for_app. unfold bind. rewrite for_fmap. fold (later_stages (e_strategy (w_env w)) wid).
  unfold wid_of_iter. destruct (for_ (later_stages _ _) _ w) as [[] w'|] eqn:E; [|done].
  apply sends_frame in E as [Ep _]; [|intros; by eapply send_frame]. unfold ctl, getp, gets. rewrite Ep.
  simpl. unfold bind, ret. by destruct (send _ _ _ _ _ _ _ _) as [[] ?|].
Qed.

Lemma forward_page_sends wid iter addr check w :
  chunk_ready w wid →
  forward_page wid iter addr check w =
  (for_ (forward_targets (e_strategy (w_env w)) (num_aux_workers (p_ctl (w_p w))) wid iter addr)
     (send wid addr (WChunk wid (chunk_next (sh_pools (w_sh w)) wid)) SIZEOF_PACKET_CHUNK check SUPER) ;;;
   ret 0) (with_page_chunk w wid addr).
Proof.
  intros Hr. unfold forward_page. unfold bind at 1, g_, gete, gets. unfold bind at 1.
  rewrite create_packet_chunk_ok by done. set (w1 := with_page_chunk w wid addr).
  unfold forward_targets, bind. rewrite for_app. unfold bind. rewrite for_fmap.
  fold (later_stages (e_strategy (w_env w)) wid). unfold wid_of_iter.
  destruct (for_ (later_stages _ _) _ w1) as [[] w'|] eqn:E; [|done].
  apply sends_frame in E as [Ep _]; [|intros; by eapply send_frame]. unfold ctl, getp, gets. rewrite Ep.
  simpl. unfold bind, ret. by destruct (send _ _ _ _ _ _ _ _) as [[] ?|].
Qed.

Lemma to_all_following_sends wid ptr value size wr ty w :
  to_all_following wid ptr value size wr ty w =
  for_ (broadcast_targets (e_strategy (w_env w)) (num_aux_workers (p_ctl (w_p w))) wid)
    (send wid ptr value size wr ty) w.
Proof.
  unfold to_all_following, broadcast_targets. rewrite for_app. unfold bind at 1 2 4. unfold g_, gete, gets.
  rewrite for_bind. fold (later_stages (e_strategy (w_env w)) wid).
  assert (∀ t, for_ (later_stages (e_strategy (w_env w)) wid) (λ x,
      for_ (Ucvf wid <$> seqZ (GET_FIRST_WID_OF_STAGE (e_strategy (w_env w)) x)
        (GET_REPLICATION_FACTOR (e_strategy (w_env w)) x)) (send wid ptr value size wr ty)) t =
    for_ (later_stages (e_strategy (w_env w)) wid) (λ i,
      for_ (seqZ (GET_FIRST_WID_OF_STAGE (e_strategy (w_env w)) i)
        (GET_REPLICATION_FACTOR (e_strategy (w_env w)) i)) (λ j, send wid ptr value size wr ty (Ucvf wid j))) t)
    as -> by (intros t; apply for_ext; intros; apply for_fmap).
  destruct (for_ (later_stages _ _) _ w) as [[] w'|] eqn:E; [|done].
  apply sends_frame in E as [Ep _].
  2:{ intros i t [] t' Ht. apply sends_frame in Ht; [done|]. intros; by eapply send_frame. }
  unfold bind, ctl, getp, gets. by rewrite Ep, for_fmap.
Qed.

(** ** Properties *)

(** Forwarding a page delivers one packet to exactly one worker of each
    later stage, the one that runs the iteration, and one packet to the
    try-commit unit responsible for the address, and touches no other queue;
    the packets carry a chunk that holds a copy of the page and that becomes
    free again exactly when the commit unit and all later stages have read it. *)
Theorem forward_page_delivers w wid iter addr check :
  worker_ok w wid → chunk_ready w wid →
  let g := e_strategy (w_env w) in
  let cs := forward_targets g (num_aux_workers (p_ctl (w_p w))) wid iter addr in
  let i := chunk_next (sh_pools (w_sh w)) wid in
  pool_room (sh_pools (w_sh w)) wid (lenZ cs) → chans_ready w cs →
  ∃ w', forward_page wid iter addr check w = Ok 0 w' ∧
    delivered (with_page_chunk w wid addr) w' wid cs addr (WChunk wid i) SIZEOF_PACKET_CHUNK check SUPER ∧
    let c := get_chunk (sh_pools (w_sh w')) wid i in
    (∀ k, 0 ≤ k < PAGE_SIZE → rd (ck_data c) k = rd (p_mem (w_p w)) (addr + k)) ∧
    (∀ k, 0 ≤ k < MAX_STAGE_NUM →
       rd (ck_sign c) k = if decide (k = 0 ∨ GET_MY_STAGE g wid < k < GET_NUM_STAGES g) then 1 else 0).
Proof.
  intros Hw Hr g cs i Hroom Hready. rewrite forward_page_sends by done.
  pose proof (wo_strategy _ _ Hw) as Hst. pose proof (wo_wid _ _ Hw) as Hwid.
  destruct (sends_delivered wid addr (WChunk wid i) SIZEOF_PACKET_CHUNK check SUPER cs
    (with_page_chunk w wid addr)) as (w' & E & D).
  - by eapply worker_not_main.
  - by eapply forward_targets_NoDup.
  - by apply with_page_chunk_room.
  - intros c Hc. destruct (Hready c Hc) as (vs & ? & ?). exists vs. by rewrite with_page_chunk_chans.
  - exists w'. unfold bind. fold g cs i. rewrite E. split; [done|]. split; [done|].
    destruct (dl_chunks _ _ _ _ _ _ _ _ _ D) as [Ec _].
    unfold get_chunk. rewrite Ec. fold (get_chunk (sh_pools (w_sh (with_page_chunk w wid addr))) wid i).
    unfold i. rewrite get_page_chunk. simpl. split.
    + intros k Hk. rewrite rd_memcpy, decide_True by (unfold PAGE_SIZE in *; lia). f_equal. lia.
    + intros k Hk. apply chunk_signs_spec; [by apply chunk_available_iff|lia|done|].
      by apply (ok_stage _ _ Hst).
Qed.

Lemma broadcast_event_run w wid ptr size value write type :
  worker_ok w wid →
  let cs := broadcast_targets (e_strategy (w_env w)) (num_aux_workers (p_ctl (w_p w))) wid in
  pool_room (sh_pools (w_sh w)) wid (lenZ cs) → chans_ready w cs →
  ∃ w', broadcast_event wid ptr size value write type w = Ok 0 w' ∧
    delivered w w' wid cs ptr value size write type.
Proof.
  intros Hw cs Hroom Hready. pose proof (wo_strategy _ _ Hw) as Hst. pose proof (wo_wid _ _ Hw) as Hwid.
  destruct (sends_delivered wid ptr value size write type cs w) as (w' & E & D);
    [by eapply worker_not_main|by eapply broadcast_targets_NoDup|done|done|].
  exists w'. split; [|done]. unfold broadcast_event, bind, ctl, getp, gets.
  rewrite (proj2 (Z.leb_gt _ _)) by lia. rewrite to_all_following_sends. fold cs. by rewrite E.
Qed.

(** The workers to which events are sent. *)
Lemma elem_of_broadcast g n n_aux wid j : strategy_ok g n → 0 ≤ wid < n →
  Ucvf wid j ∈ broadcast_targets g n_aux wid ↔ 0 ≤ j < n ∧ GET_MY_STAGE g wid < GET_MY_STAGE g j.
Proof.
  intros Hst Hwid. unfold broadcast_targets. rewrite elem_of_app, list_elem_of_bind.
  pose proof (ok_stage _ _ Hst) as Hs. split.
  - intros [(s & Hj & Hl)|Hj]; [|by apply list_elem_of_fmap in Hj as (? & ? & _)].
    apply list_elem_of_fmap in Hj as (k & [= ->] & Hk). apply elem_of_seqZ in Hk.
    apply elem_of_later_stages in Hl. unfold GET_NUM_STAGES in Hl. specialize (Hs _ Hwid).
    destruct (ok_block _ _ Hst s k ltac:(lia) Hk) as [? ->]. split; [done|lia].
  - intros [Hj Hlt]. left. exists (GET_MY_STAGE g j). split.
    + apply list_elem_of_fmap. exists j. split; [done|]. apply elem_of_seqZ. by apply (ok_first _ _ Hst).
    + apply elem_of_later_stages. split; [done|]. by apply Hs.
Qed.

(** An event reaches every worker of every later stage and every
    try-commit unit exactly once, and no other queue; a try-commit unit itself
    broadcasts nothing. *)
Theorem broadcast_event_delivers w wid ptr size value write type :
  worker_ok w wid →
  let cs := broadcast_targets (e_strategy (w_env w)) (num_aux_workers (p_ctl (w_p w))) wid in
  pool_room (sh_pools (w_sh w)) wid (lenZ cs) → chans_ready w cs →
  (∃ w', broadcast_event wid ptr size value write type w = Ok 0 w' ∧
     delivered w w' wid cs ptr value size write type) ∧
  (∀ j, Ucvf wid j ∈ cs ↔ 0 ≤ j < try_commit_begin (p_ctl (w_p w)) ∧
     GET_MY_STAGE (e_strategy (w_env w)) wid < GET_MY_STAGE (e_strategy (w_env w)) j) ∧
  (∀ u, try_commit_begin (p_ctl (w_p w)) ≤ u → broadcast_event u ptr size value write type w = Ok 0 w).
Proof.
  intros Hw cs Hroom Hready. pose proof (wo_strategy _ _ Hw) as Hst. pose proof (wo_wid _ _ Hw) as Hwid.
  split_and!.
  - by apply broadcast_event_run.
  - intros j. by apply elem_of_broadcast.
  - intros u Hu. unfold broadcast_event, bind, ctl, getp, gets. by rewrite (proj2 (Z.leb_le _ _)) by lia.
Qed.

(** Forwarding a word delivers one packet with its address and value to
    the worker of the iteration in each later stage and to one try-commit unit,
    and touches no other queue; forwarding with [CHECK_FREE] is rejected. *)
Theorem forward_packet_delivers w wid iter addr value size check :
  worker_ok w wid → check ≠ CHECK_FREE →
  let cs := forward_targets (e_strategy (w_env w)) (num_aux_workers (p_ctl (w_p w))) wid iter addr in
  pool_room (sh_pools (w_sh w)) wid (lenZ cs) → chans_ready w cs →
  (∃ w', forward_packet wid iter addr value size check w = Ok 0 w' ∧
     delivered w w' wid cs addr value size check NORMAL) ∧
  forward_packet wid iter addr value size CHECK_FREE w = Stop AssertFail w.
Proof.
  intros Hw Hc cs Hroom Hready. split; [|done].
  destruct (sends_delivered wid addr value size check NORMAL cs w) as (w' & E & D);
    [by eapply worker_not_main|eapply forward_targets_NoDup; apply Hw|done|done|].
  exists w'. split; [|done]. rewrite forward_packet_sends by done. unfold bind. fold cs. by rewrite E.
Qed.

(** ** A concrete region

    Three stages, the second one with two replicas, one try-commit unit. *)
Definition demo_env : env :=
  Env (default (Strategy 0 ∅ ∅ ∅) (inform_strategy 4 [1; 2; 1])) 0x500000 0x600000 (λ _, true) (λ _, true).

Definition demo_proc : proc :=
  set_p_ctl (Control 6 1 0 4 4 0 0) (set_worker_id 1 (set_p_mem (wr ∅ 0x7005 42) proc0)).

Definition demo_world : world :=
  match init_queues 4 1 (World (set_sh_pools (init_packets 5) shared0) demo_proc demo_env) with
  | Ok _ w => w
  | Stop _ w => w
  end.

Lemma demo_strategy_ok : strategy_ok (e_strategy demo_env) 4.
Proof.
  apply (inform_strategy_ok 4 [1; 2; 1]); [|by vm_compute].
  repeat (apply List.Forall_cons || apply List.Forall_nil); lia.
Qed.

Lemma demo_worker_ok wid : 0 ≤ wid < 4 → worker_ok demo_world wid.
Proof. intros H. split; [apply demo_strategy_ok|done|done|done]. Qed.

Lemma demo_pool_room wid k : k ≤ PACKET_POOL_SIZE → pool_room (sh_pools (w_sh demo_world)) wid k.
Proof.
  intros Hk. assert (sh_pools (w_sh demo_world) = init_packets 5) as -> by done.
  split; [apply init_packets_ok|done|]. intros e _. unfold get_packet. simpl. by rewrite lookup_empty.
Qed.

Lemma demo_chan c : chan_get (w_sh demo_world) c = Some sw_queue_create →
  ∃ vs, chan_holds (w_sh demo_world) c vs ∧ lenZ vs < PAIRS.
Proof. intros E. exists []. split; [|done]. exists sw_queue_create. split; [done|]. apply create_holds. Qed.

Lemma demo_chans_ready cs :
  Forall (λ c, chan_get (w_sh demo_world) c = Some sw_queue_create) cs → chans_ready demo_world cs.
Proof. intros H c Hc. rewrite Forall_forall in H. by apply demo_chan, H. Qed.

Ltac demo_ready :=
  apply demo_chans_ready; repeat (apply List.Forall_cons; [by vm_compute|]); apply List.Forall_nil.

(** Worker 1 forwards a page of iteration 4 to the last stage and the
    try-commit unit. *)
Lemma forward_page_delivers_witness :
  ∃ w', forward_page 1 4 0x7000 CHECK_REQUIRED demo_world = Ok 0 w' ∧
    rd (ck_data (get_chunk (sh_pools (w_sh w')) 1 0)) 5 = 42.
Proof.
  destruct (forward_page_delivers demo_world 1 4 0x7000 CHECK_REQUIRED) as (w' & E & _ & Hd & _).
  - apply demo_worker_ok. lia.
  - by vm_compute.
  - apply demo_pool_room. by vm_compute.
  - change (chans_ready demo_world [Ucvf 1 3; ToTryCommit 1 0]). demo_ready.
  - exists w'. split; [done|]. apply (Hd 5). unfold PAGE_SIZE. lia.
Defined.

Lemma broadcast_event_delivers_witness :
  ∃ w', broadcast_event 0 0xDEADBEEF 0 NULL WRITE EOI demo_world = Ok 0 w' ∧
    delivered demo_world w' 0 [Ucvf 0 1; Ucvf 0 2; Ucvf 0 3; ToTryCommit 0 0] 0xDEADBEEF NULL 0 WRITE EOI.
Proof.
  apply (broadcast_event_delivers demo_world 0 0xDEADBEEF 0 NULL WRITE EOI).
  - apply demo_worker_ok. lia.
  - apply demo_pool_room. by vm_compute.
  - change (chans_ready demo_world [Ucvf 0 1; Ucvf 0 2; Ucvf 0 3; ToTryCommit 0 0]). demo_ready.
Defined.

Lemma forward_packet_delivers_witness :
  ∃ w', forward_packet 0 3 0x7008 (WInt 5) 8 CHECK_REQUIRED demo_world = Ok 0 w' ∧
    delivered demo_world w' 0 [Ucvf 0 2; Ucvf 0 3; ToTryCommit 0 0] 0x7008 (WInt 5) 8 CHECK_REQUIRED NORMAL.
Proof.
  apply (forward_packet_delivers demo_world 0 3 0x7008 (WInt 5) 8 CHECK_REQUIRED).
  - apply demo_worker_ok. lia.
  - done.
  - apply demo_pool_room. by vm_compute.
  - change (chans_ready demo_world [Ucvf 0 2; Ucvf 0 3; ToTryCommit 0 0]). demo_ready.
Defined.
