(* ===== verification/Malloc.v ===== *)
(** Versioned memory allocation ([smtx/malloc.cpp], [include/internals/smtx/malloc.h]).

    The address range for versioned allocations is divided among the workers.
    A worker allocates by advancing a pointer in its part, and reports every
    allocation to the later stages, which replay it on their copy of the part:
    all processes agree on the addresses without further communication. *)
From S2P Require Import Prelude Machine Strategy SwQueue Packet State Shadow Communicate.

Definition PROT_NONE : Z := 0.
Definition PROT_READ : Z := 1.
Definition PROT_RW : Z := 3.

(** ** Mapping memory *)

(** [mmap(addr, PAGE_SIZE, PROT_READ|PROT_WRITE, MAP_FIXED|...)]: a zero-filled
    page.  Chunks are one page long. *)
Definition mmap_page (addr : Z) : W bool :=
  let! ok := gete e_mmap_ok in
  if ok addr then
    modmem (λ m, memset m addr 0 PAGE_SIZE) ;;;
    modp (λ p, set_p_prot (<[addr := PROT_RW]> (p_prot p)) p) ;;;
    ret true
  else ret false.

(** A chunk and its shadow; the chunk is unmapped again when its shadow cannot
    be mapped. *)
Definition map_chunk (addr : Z) : W bool :=
  let! ok := mmap_page addr in
  if ok then
    let! ok' := mmap_page (GET_SHADOW_OF addr) in
    if ok' then ret true
    else modp (λ p, set_p_prot (delete addr (p_prot p)) p) ;;; ret false
  else ret false.

Definition chunk_of (t : gmap Z heap_chunk) (i : Z) : heap_chunk := default (HeapChunk 0 0 0 0) (t !! i).
Definition with_next (c : heap_chunk) (next : Z) : heap_chunk :=
  HeapChunk (hc_begin c) (hc_end c) next (hc_nextchunk c).
Definition with_nextchunk (c : heap_chunk) (nextchunk : Z) : heap_chunk :=
  HeapChunk (hc_begin c) (hc_end c) (hc_next c) nextchunk.

(** Where a part is stored: [ver_malloc_chunks[wid]], and in [separation.cpp]
    [heaps[heap]] and [versioned_heaps[wid][heap]]. *)
Record part := Part {
  cl_get : proc → heap_chunk;
  cl_put : heap_chunk → proc → proc }.

Class PartOk (L : part) : Prop := {
  part_get_put c p : cl_get L (cl_put L c p) = c;
  part_put_mem c p : p_mem (cl_put L c p) = p_mem p;
  part_put_id c p : worker_id (cl_put L c p) = worker_id p;
  part_put_ctl c p : p_ctl (cl_put L c p) = p_ctl p;
  part_get_mem m p : cl_get L (set_p_mem m p) = cl_get L p;
  part_get_prot t p : cl_get L (set_p_prot t p) = cl_get L p }.

Definition get_part (L : part) : W heap_chunk := getp (cl_get L).
Definition put_part (L : part) (c : heap_chunk) : W unit := modp (cl_put L c).

(** The loop [while (nextchunk < next)] of the allocators; [false] is the early
    [return NULL].  A part has at most [2^31] pages. *)
Definition grow_body (L : part) (next : Z) (_ : bool) : W (bool + bool) :=
  let! c := get_part L in
  if hc_nextchunk c <? next then
    let! ok := map_chunk (hc_nextchunk c) in
    if ok then
      let! c := get_part L in
      put_part L (with_nextchunk c (hc_nextchunk c + VER_MALLOC_CHUNKSIZE)) ;;; ret (inl true)
    else ret (inr false)
  else ret (inr true).
Definition grow (L : part) (next : Z) : W bool := loop_with 31 (grow_body L next) true.

(** ** [ver_malloc_buffer] in memory *)

Definition SIZEOF_VerMallocInstance : Z := 16.
Definition SIZEOF_VerMallocBuffer : Z := PAGE_SIZE * SIZEOF_VerMallocInstance + 8.

Definition buf_elem (base wid : Z) : Z := base + wid * SIZEOF_VerMallocBuffer.
Definition buf_index (base wid : Z) : Z := buf_elem base wid + PAGE_SIZE * SIZEOF_VerMallocInstance.

(** [elem[k].ptr = ptr; elem[k].size = size; elem[k].heap = heap]. *)
Definition store_instance (m : mem) (elem k ptr size heap : Z) : mem :=
  let a := elem + k * SIZEOF_VerMallocInstance in
  store 4 (store 4 (store 8 m a ptr) (a + 8) size) (a + 12) heap.

(** ** Operations *)

Definition chunks_init (n begin chunksize per rem : Z) : gmap Z heap_chunk * Z :=
  foldl (λ '(t, a) i,
    let sz := per * chunksize in
    let sz := if i <? rem then sz + chunksize else sz in
    (<[i := HeapChunk a (a + sz) a a]> t, a + sz)) (∅, begin) (seqZ 0 n).

#[global] Arguments chunks_init : simpl never.

Definition ver_malloc_init : W unit :=
  let chunksize := VER_MALLOC_CHUNKSIZE in
  let num_chunks := (VER_MALLOC_CHUNK_BOUND - VER_MALLOC_CHUNK_BEGIN) / chunksize in
  let chunks_per_worker := u32 (num_chunks / MAX_WORKERS) in
  let rem := u32 (num_chunks mod MAX_WORKERS) in
  modp (λ p, set_ver_malloc_chunks
    (chunks_init MAX_WORKERS VER_MALLOC_CHUNK_BEGIN chunksize chunks_per_worker rem).1 p) ;;;
  let! base := gete e_ver_malloc_buffer in
  modmem (λ m, memset m base 0 (MAX_WORKERS * SIZEOF_VerMallocBuffer)).

(** The pages that [insert_shadow_heap_pages(ptr, size)] visits. *)
Definition shadow_pages (ptr size : Z) : list Z :=
  let page_shadow_begin := GET_SHADOW_OF (Z.land ptr PAGE_MASK) in
  let page_shadow_end := GET_SHADOW_OF (Z.land (u64 (ptr + size - 1)) PAGE_MASK) in
  let n := if page_shadow_begin <=? page_shadow_end
           then (page_shadow_end - page_shadow_begin) / PAGE_SIZE + 1 else 0 in
  (λ k, page_shadow_begin + PAGE_SIZE * k) <$> seqZ 0 n.

Definition insert_shadow_heap_pages (ptr size : Z) : W unit :=
  modp (λ p, set_shadow_heaps (foldl (λ l a, set_insert a l) (shadow_heaps p) (shadow_pages ptr size)) p).

Definition remove_shadow_heap_pages (ptr : Z) : W unit := ret tt.

Definition buffer_ver_malloc (wid ptr size heap : Z) : W unit :=
  let! base := gete e_ver_malloc_buffer in
  let! m := getp p_mem in
  when (load 8 m (buf_index base wid) =? PAGE_SIZE)
    (broadcast_malloc_chunk wid (buf_elem base wid) (PAGE_SIZE * SIZEOF_VerMallocInstance) ;;;
     modmem (λ m, memset m (buf_elem base wid) 0 SIZEOF_VerMallocBuffer) ;;;
     modmem (λ m, store 8 m (buf_index base wid) 0)) ;;;
  let! m := getp p_mem in
  let index := load 8 m (buf_index base wid) in
  modmem (λ m, store 8 m (buf_index base wid) (u64 (index + 1))) ;;;
  modmem (λ m, store_instance m (buf_elem base wid) index ptr (u32 size) (u32 heap)).

Definition ver_part (wid : Z) : part :=
  Part (λ p, chunk_of (ver_malloc_chunks p) wid)
       (λ c p, set_ver_malloc_chunks (<[wid := c]> (ver_malloc_chunks p)) p).

(** [*shadow |= 0x80] for the page of [ptr]. *)
Definition touch_page (ptr : Z) : W unit :=
  let shadow := GET_SHADOW_OF (Z.land ptr PAGE_MASK) in
  modmem (λ m, wr m shadow (Z.lor (rd m shadow) 0x80)).

Definition ver_malloc (wid size : Z) : W Z :=
  let! c := get_part (ver_part wid) in
  let ret_ := hc_next c in
  let size := ROUND_UP size ALIGNMENT in
  let next := u64 (ret_ + size) in
  assert_ (next <? hc_end c) ;;;
  let! ok := grow (ver_part wid) next in
  if ok then
    let! c := get_part (ver_part wid) in
    put_part (ver_part wid) (with_next c next) ;;;
    buffer_ver_malloc wid ret_ size (-1) ;;;
    touch_page ret_ ;;;
    ret ret_
  else ret 0.

Definition update_ver_malloc (wid size ptr : Z) : W Z :=
  let! c := get_part (ver_part wid) in
  let ret_ := hc_next c in
  let size := ROUND_UP size ALIGNMENT in
  let next := u64 (ret_ + size) in
  assert_ (ret_ =? ptr) ;;;
  assert_ (next <? hc_end c) ;;;
  when (hc_nextchunk c <? next)
    (let! ok := map_chunk (hc_nextchunk c) in
     assert_ ok ;;;
     let! c := get_part (ver_part wid) in
     put_part (ver_part wid) (with_nextchunk c (hc_nextchunk c + VER_MALLOC_CHUNKSIZE))) ;;;
  let! c := get_part (ver_part wid) in
  put_part (ver_part wid) (with_next c next) ;;;
  insert_shadow_heap_pages ret_ size ;;;
  ret ret_.

Definition ver_free (wid ptr : Z) : W Z := broadcast_event wid ptr 0 NULL WRITE FREE.

Definition update_ver_free (wid ptr : Z) : W unit := ret tt.

Definition is_in_special_region (ptr : Z) : bool :=
  ((VER_MALLOC_CHUNK_BEGIN <=? ptr) && (ptr <? VER_MALLOC_CHUNK_BOUND)) ||
  ((SEPARATION_HEAP_BEGIN <=? ptr) && (ptr <? SEPARATION_HEAP_BOUND)) ||
  ((VER_SEPARATION_HEAP_BEGIN <=? ptr) && (ptr <? VER_SEPARATION_HEAP_BOUND)).

Definition set_heap_size (ptr size : Z) : W unit :=
  modp (λ p, set_heap_size_map (<[ptr := size]> (heap_size_map p)) p).
Definition erase_heap_size (ptr : Z) : W unit :=
  modp (λ p, set_heap_size_map (delete ptr (heap_size_map p)) p).

(** The API functions; [shadow_malloc] and its relatives are the underlying
    allocator (jemalloc). *)
Section api.
Context (shadow_malloc : Z → W Z) (shadow_calloc : Z → Z → W Z)
  (shadow_realloc : Z → Z → W Z) (shadow_free : Z → W unit).

Definition specpriv_ver_malloc (size : Z) : W Z :=
  let! wid := my_worker_id in
  let! r := ver_malloc wid size in
  modmem (λ m, ver_write m r (u32 size)) ;;;
  set_heap_size r size ;;;
  insert_shadow_heap_pages r size ;;;
  ret r.

Definition specpriv_ver_calloc (num size : Z) : W Z :=
  let! wid := my_worker_id in
  let! r := ver_malloc wid (u64 (num * size)) in
  modmem (λ m, ver_write m r (u32 (num * size))) ;;;
  set_heap_size r (u64 (num * size)) ;;;
  insert_shadow_heap_pages r (u64 (num * size)) ;;;
  ret r.

Definition specpriv_ver_realloc (ptr size : Z) : W Z :=
  let! wid := my_worker_id in
  let! r := ver_malloc wid size in
  when (negb (ptr =? 0) && negb (ptr =? r))
    (let! sizes := getp heap_size_map in
     assert_ (bool_decide (is_Some (sizes !! ptr))) ;;;
     let oldsize := default 0 (sizes !! ptr) in
     modmem (λ m, ver_read m ptr (u32 oldsize)) ;;;
     modmem (λ m, memcpy m r m ptr oldsize) ;;;
     remove_shadow_heap_pages ptr ;;;
     erase_heap_size ptr) ;;;
  modmem (λ m, ver_write m r (u32 size)) ;;;
  set_heap_size r size ;;;
  insert_shadow_heap_pages r size ;;;
  ret r.

(** [__specpriv_ver_free] and [__specpriv_free] have the same body. *)
Definition specpriv_free (ptr : Z) : W unit :=
  when (negb (ptr =? 0)) (remove_shadow_heap_pages ptr ;;; erase_heap_size ptr) ;;;
  if is_in_special_region ptr then ret tt else shadow_free ptr.
Definition specpriv_ver_free (ptr : Z) : W unit :=
  when (negb (ptr =? 0)) (remove_shadow_heap_pages ptr ;;; erase_heap_size ptr) ;;;
  if is_in_special_region ptr then ret tt else shadow_free ptr.

Definition specpriv_malloc (size : Z) : W Z :=
  let! r := shadow_malloc size in
  set_heap_size r size ;;; insert_shadow_heap_pages r size ;;; ret r.

Definition specpriv_calloc (num size : Z) : W Z :=
  let! r := shadow_calloc num size in
  set_heap_size r (u64 (num * size)) ;;; insert_shadow_heap_pages r (u64 (num * size)) ;;; ret r.

Definition specpriv_realloc (ptr size : Z) : W Z :=
  let! r := shadow_realloc ptr size in
  when (negb (ptr =? 0) && negb (ptr =? r)) (remove_shadow_heap_pages ptr ;;; erase_heap_size ptr) ;;;
  set_heap_size r size ;;; insert_shadow_heap_pages r size ;;; ret r.
End api.

(** ** Parts *)

Lemma chunk_of_insert t i c : chunk_of (<[i := c]> t) i = c.
Proof. unfold chunk_of. by rewrite lookup_insert_eq. Qed.

#[global] Instance ver_part_ok wid : PartOk (ver_part wid).
Proof.
  split; try done. intros c p. unfold ver_part, chunk_of. simpl. by rewrite lookup_insert_eq.
Qed.

(** A part: page-aligned borders, everything below [next] is mapped. *)
Record part_ok (c : heap_chunk) : Prop := {
  pk_begin : 0 ≤ hc_begin c ∧ hc_begin c mod PAGE_SIZE = 0;
  pk_end : hc_end c < 2 ^ 46 ∧ hc_end c mod PAGE_SIZE = 0;
  pk_mapped : hc_begin c ≤ hc_next c ≤ hc_nextchunk c ∧ hc_nextchunk c ≤ hc_end c;
  pk_chunk : hc_nextchunk c mod PAGE_SIZE = 0;
  pk_align : hc_next c mod ALIGNMENT = 0 }.

(** Mapping succeeds everywhere in a range and in its shadow. *)
Definition can_map (e : env) (lo hi : Z) : Prop :=
  ∀ a, lo ≤ a < hi → e_mmap_ok e a = true ∧ e_mmap_ok e (GET_SHADOW_OF a) = true.

(** What mapping and growing leave alone. *)
Record same_but_pages (L : part) (w w' : world) : Prop := {
  sb_sh : w_sh w' = w_sh w;
  sb_env : w_env w' = w_env w;
  sb_id : worker_id (w_p w') = worker_id (w_p w);
  sb_ctl : p_ctl (w_p w') = p_ctl (w_p w) }.

#[local] Opaque memset.

Lemma map_chunk_ok w a : e_mmap_ok (w_env w) a = true → e_mmap_ok (w_env w) (GET_SHADOW_OF a) = true →
  ∃ t, map_chunk a w = Ok true
    (set_p (set_p_prot t (set_p_mem (memset (memset (p_mem (w_p w)) a 0 PAGE_SIZE)
       (GET_SHADOW_OF a) 0 PAGE_SIZE) (w_p w))) w).
Proof.
  intros H1 H2. unfold map_chunk, mmap_page. run_w. rewrite H1. simpl. rewrite H2. simpl.
  eexists. reflexivity.
Qed.

Section grow.
Context (L : part) `{HL : PartOk L}.

(** Outcome of growing: the part covers [next]; memory changed only in the new
    pages and their shadows. *)
Record grown (next : Z) (w w' : world) : Prop := {
  gr_part : let c := cl_get L (w_p w) in
    ∃ nc, cl_get L (w_p w') = with_nextchunk c nc ∧ hc_nextchunk c ≤ nc ∧ next ≤ nc ∧
      nc mod PAGE_SIZE = hc_nextchunk c mod PAGE_SIZE ∧
      (nc = hc_nextchunk c ∨ nc - PAGE_SIZE < next);
  gr_same : same_but_pages L w w';
  gr_mem a : (∀ b, hc_nextchunk (cl_get L (w_p w)) ≤ b < next + PAGE_SIZE → a ≠ b ∧ a ≠ GET_SHADOW_OF b) →
    rd (p_mem (w_p w')) a = rd (p_mem (w_p w)) a }.

Lemma memset_page_frame m d a : ¬ (d ≤ a < d + PAGE_SIZE) → rd (memset m d 0 PAGE_SIZE) a = rd m a.
Proof. intros H. by rewrite rd_memset, decide_False by (change PAGE_SIZE with 4096 in *; lia). Qed.

Lemma shadow_page_offset nc a : nc mod PAGE_SIZE = 0 →
  GET_SHADOW_OF nc ≤ a < GET_SHADOW_OF nc + PAGE_SIZE →
  ∃ b, nc ≤ b < nc + PAGE_SIZE ∧ a = GET_SHADOW_OF b.
Proof.
  intros Hal Ha. exists (nc + (a - GET_SHADOW_OF nc)). split; [lia|].
  rewrite (shadow_add nc PAGE_SIZE); [lia| |lia].
  unfold shadow_room; change PAGE_SIZE with 4096 in *.
  assert (nc mod 2 ^ 45 mod 4096 = 0) as Hm.
  { change (2 ^ 45) with (4096 * 2 ^ 33). rewrite Z.rem_mul_r by lia.
    rewrite Z.mul_comm, Z.mod_add, Zmod_mod by lia. done. }
  pose proof (Z.mod_pos_bound nc (2 ^ 45) ltac:(lia)).
  Z.to_euclidean_division_equations. lia.
Qed.

Lemma grow_lin n : ∀ next w b, hc_nextchunk (cl_get L (w_p w)) mod PAGE_SIZE = 0 →
  can_map (w_env w) (hc_nextchunk (cl_get L (w_p w))) next →
  next ≤ hc_nextchunk (cl_get L (w_p w)) + PAGE_SIZE * Z.of_nat n →
  ∃ w', rounds_lin (S n) (loop_round_with (grow_body L next)) (b, w) = inr (Ok true w') ∧
    grown next w w'.
Proof.
  induction n as [|n IH]; intros next w b Hal Hmap Hn.
  - simpl. unfold loop_round_with, grow_body, get_part. run_w.
    destruct (Z.ltb_spec (hc_nextchunk (cl_get L (w_p w))) next); [lia|].
    eexists. split; [done|]. split; [|done|done].
    simpl. exists (hc_nextchunk (cl_get L (w_p w))). destruct (cl_get L (w_p w)); simpl in *.
    split_and!; try done; lia.
  - cbn [rounds_lin]. unfold loop_round_with at 1. cbn [fst snd].
    unfold grow_body at 1, get_part. unfold bind at 1. unfold getp at 1, gets at 1.
    set (c := cl_get L (w_p w)) in *. set (nc := hc_nextchunk c) in *.
    destruct (Z.ltb_spec nc next) as [Hlt|Hge].
    2:{ eexists. split; [done|]. split; [|done|done]. simpl. fold c. exists nc.
        unfold nc, with_nextchunk. destruct c; simpl in *. split_and!; try done; lia. }
    destruct (Hmap nc ltac:(lia)) as [H1 H2]. destruct (map_chunk_ok w nc H1 H2) as (t & E).
    unfold bind at 1. rewrite E. unfold put_part. run_w.
    set (p1 := set_p_prot t _). assert (cl_get L p1 = c) as Ec.
    { unfold p1. by rewrite part_get_prot, part_get_mem. }
    rewrite Ec. fold nc. set (c1 := with_nextchunk c (nc + VER_MALLOC_CHUNKSIZE)).
    set (w1 := set_p (cl_put L c1 p1) _).
    assert (cl_get L (w_p w1) = c1) as Ec1 by (unfold w1; simpl; by rewrite part_get_put).
    assert (hc_nextchunk c1 = nc + PAGE_SIZE) as En by done.
    destruct (IH next w1 true) as (w' & E' & G).
    { rewrite Ec1, En. rewrite <-Z.add_mod_idemp_l, Hal by done. done. }
    { rewrite Ec1, En. intros a Ha. apply Hmap. change PAGE_SIZE with 4096 in Ha. lia. }
    { rewrite Ec1, En. lia. }
    exists w'. split; [exact E'|]. destruct G as [(nc' & G1 & G2 & G3 & G4 & G5) [S1 S2 S3 S4] Gm].
    rewrite Ec1 in G1. rewrite Ec1, En in G2, G4, G5, Gm. split.
    + simpl. fold c. exists nc'. fold nc.
      assert (nc mod PAGE_SIZE = 0) as Hal0 by done.
      rewrite <-Z.add_mod_idemp_l, Hal in G4 by done. rewrite Hal.
      split_and!; [exact G1|change PAGE_SIZE with 4096 in *; lia|done|done|].
      destruct G5 as [->|]; [right; lia|by right].
    + split; [by rewrite S1|by rewrite S2| |].
      * rewrite S3. unfold w1. simpl. by rewrite part_put_id.
      * rewrite S4. unfold w1. simpl. by rewrite part_put_ctl.
    + fold c nc. intros a Ha. rewrite Gm by (intros b' Hb; apply Ha; change PAGE_SIZE with 4096 in *; lia).
      unfold w1. simpl. rewrite part_put_mem. simpl. rewrite !memset_page_frame; [done| |].
      * intros Hin. destruct (Ha a ltac:(lia)) as [? _]. done.
      * intros Hin. destruct (shadow_page_offset nc a Hal Hin) as (b' & Hb & ->).
        by destruct (Ha b' ltac:(lia)).
Qed.

Lemma grow_ok next w :
  let nc := hc_nextchunk (cl_get L (w_p w)) in
  nc mod PAGE_SIZE = 0 → can_map (w_env w) nc next → next < nc + 2 ^ 42 →
  ∃ w', grow L next w = Ok true w' ∧ grown next w w'.
Proof.
  intros nc Hal Hmap Hn. set (k := Z.to_nat ((next - nc) / PAGE_SIZE + 1)).
  destruct (grow_lin k next w true Hal Hmap) as (w' & E & G).
  - fold nc. unfold k in *; change PAGE_SIZE with 4096 in *. destruct (decide (0 ≤ next - nc)).
    + rewrite Z2Nat.id by (Z.to_euclidean_division_equations; lia). Z.to_euclidean_division_equations. lia.
    + lia.
  - exists w'. split; [|done]. unfold grow, loop_with. rewrite rounds_spec.
    assert (S k ≤ 2 ^ 31)%nat as Hk.
    { apply Nat2Z.inj_le. rewrite Nat2Z.inj_pow, Nat2Z.inj_succ. unfold k in *; change PAGE_SIZE with 4096 in *.
      destruct (decide (0 ≤ (next - nc) / 4096 + 1)); [rewrite Z2Nat.id by done|rewrite Z2Nat.nonpos by lia];
        simpl; Z.to_euclidean_division_equations; lia. }
    replace (2 ^ 31)%nat with (S k + (2 ^ 31 - S k))%nat by lia.
    by rewrite rounds_lin_add, E.
Qed.
End grow.

(** Growing a part, whether or not it succeeds, only maps pages and moves
    [nextchunk]. *)
Lemma mmap_page_inv (I : world → Prop) a w :
  (∀ w m t, I w → I (set_p (set_p_prot t (set_p_mem m (w_p w))) w)) → I w → holds I (mmap_page a w).
Proof.
  intros Hm Hw. unfold mmap_page. run_w. destruct (e_mmap_ok _ a); simpl; [|done].
  by apply (Hm w).
Qed.

Lemma map_chunk_inv (I : world → Prop) a w :
  (∀ w m t, I w → I (set_p (set_p_prot t (set_p_mem m (w_p w))) w)) → I w → holds I (map_chunk a w).
Proof.
  intros Hm Hw. unfold map_chunk. apply holds_bind; [by apply mmap_page_inv|]. intros [|] t Ht; [|done].
  apply holds_bind; [by apply mmap_page_inv|]. intros [|] t' Ht'; [done|]. run_w.
  specialize (Hm t' (p_mem (w_p t')) (delete a (p_prot (w_p t'))) Ht').
  by destruct t' as [? [] ?].
Qed.

Lemma grow_inv (I : world → Prop) L next w :
  (∀ w m t, I w → I (set_p (set_p_prot t (set_p_mem m (w_p w))) w)) →
  (∀ w nc, I w → I (set_p (cl_put L (with_nextchunk (cl_get L (w_p w)) nc) (w_p w)) w)) →
  I w → holds I (grow L next w).
Proof.
  intros Hm Hp Hw. apply loop_with_inv; [|done]. intros b t Ht. unfold grow_body, get_part.
  unfold bind at 1, getp, gets. destruct (_ <? _); [|done].
  apply holds_bind; [by apply map_chunk_inv|]. intros [|] t' Ht'; [|done].
  unfold put_part. run_w. by apply Hp.
Qed.

(** ** Dividing a range *)

(** Where part [i] starts: the first [rem] parts are one chunk longer. *)
Definition start_of (begin chunksize per rem i : Z) : Z :=
  begin + i * (per * chunksize) + Z.min i rem * chunksize.

Lemma chunks_init_spec n begin cs per rem : 0 ≤ n → 0 ≤ rem →
  (chunks_init n begin cs per rem).2 = start_of begin cs per rem n ∧
  ∀ i, 0 ≤ i < n → (chunks_init n begin cs per rem).1 !! i =
    Some (HeapChunk (start_of begin cs per rem i) (start_of begin cs per rem (i + 1))
                    (start_of begin cs per rem i) (start_of begin cs per rem i)).
Proof.
  intros Hn Hrem. revert n Hn. apply Z_up_ind.
  - split; [|intros; lia]. unfold chunks_init, start_of. simpl. rewrite Z.min_l by lia. lia.
  - intros n Hn [IH2 IH1]. unfold chunks_init in *. rewrite seqZ_snoc, foldl_app by lia.
    destruct (foldl _ _ (seqZ 0 n)) as [t a]. simpl in *. subst a. rewrite Z.add_0_l.
    assert (start_of begin cs per rem n + (if n <? rem then per * cs + cs else per * cs) =
            start_of begin cs per rem (n + 1)) as E.
    { unfold start_of. destruct (Z.ltb_spec n rem); [rewrite !Z.min_l by lia|rewrite !Z.min_r by lia]; lia. }
    split; [exact E|]. intros i Hi. destruct (decide (n = i)) as [<-|Hne].
    + rewrite lookup_insert_eq. by rewrite E.
    + rewrite lookup_insert_ne by done. apply IH1. lia.
Qed.

Lemma chunks_init_none n begin cs per rem i : ¬ (0 ≤ i < n) → (chunks_init n begin cs per rem).1 !! i = None.
Proof.
  intros Hi. unfold chunks_init.
  assert (∀ l (t : gmap Z heap_chunk) a, i ∉ l → t !! i = None →
    (foldl (λ '(t, a) i, (<[i := HeapChunk a (a + (if i <? rem then per * cs + cs else per * cs)) a a]> t,
       a + (if i <? rem then per * cs + cs else per * cs))) (t, a) l).1 !! i = None) as H.
  { induction l as [|x l IH]; intros t a Hl Ht; [done|]. apply not_elem_of_cons in Hl as [Hx Hl]. simpl.
    apply IH; [done|]. by rewrite lookup_insert_ne. }
  apply H; [rewrite elem_of_seqZ; lia|apply lookup_empty].
Qed.

(** [ver_malloc_init] gives every worker its own non-empty part: the
    parts are page-aligned, follow each other without gap or overlap, and
    together are exactly the range reserved for versioned allocations. *)
Theorem ver_malloc_init_partition w :
  ∃ w', ver_malloc_init w = Ok tt w' ∧
    let c i := chunk_of (ver_malloc_chunks (w_p w')) i in
    hc_begin (c 0) = VER_MALLOC_CHUNK_BEGIN ∧
    hc_end (c (MAX_WORKERS - 1)) = VER_MALLOC_CHUNK_BOUND ∧
    (∀ i, 0 ≤ i < MAX_WORKERS - 1 → hc_end (c i) = hc_begin (c (i + 1))) ∧
    (∀ i, 0 ≤ i < MAX_WORKERS → part_ok (c i) ∧ hc_next (c i) = hc_begin (c i) ∧
       hc_begin (c i) + 2 ^ 38 ≤ hc_end (c i)).
Proof.
  unfold ver_malloc_init. cbv zeta.
  replace (u32 ((VER_MALLOC_CHUNK_BOUND - VER_MALLOC_CHUNK_BEGIN) / VER_MALLOC_CHUNKSIZE / MAX_WORKERS))
    with 69273666 by done.
  replace (u32 (((VER_MALLOC_CHUNK_BOUND - VER_MALLOC_CHUNK_BEGIN) / VER_MALLOC_CHUNKSIZE) mod MAX_WORKERS))
    with 2 by done.
  unfold modmem, modp, modify, gete, gets, bind. eexists. split; [reflexivity|].
  cbn [w_p set_p ver_malloc_chunks set_ver_malloc_chunks set_p_mem].
  unfold VER_MALLOC_CHUNKSIZE, MAX_WORKERS.
  destruct (chunks_init_spec (32 - 1) VER_MALLOC_CHUNK_BEGIN 0x1000 69273666 2) as [_ H]; [lia|lia|].
  assert (∀ i, 0 ≤ i < 32 - 1 → chunk_of (chunks_init (32 - 1) VER_MALLOC_CHUNK_BEGIN 0x1000 69273666 2).1 i =
    let s := start_of VER_MALLOC_CHUNK_BEGIN 0x1000 69273666 2 in HeapChunk (s i) (s (i + 1)) (s i) (s i)) as Hc.
  { intros i Hi. unfold chunk_of. by rewrite H. }
  split_and!.
  - by rewrite Hc.
  - by rewrite Hc.
  - intros i Hi. by rewrite !Hc by lia.
  - intros i Hi. rewrite Hc by done. simpl.
    assert (∀ j, ∃ k, start_of VER_MALLOC_CHUNK_BEGIN 0x1000 69273666 2 j =
              VER_MALLOC_CHUNK_BEGIN + k * 4096 ∧ k = j * 69273666 + Z.min j 2) as Hs.
    { intros j. eexists. split; [|reflexivity]. unfold start_of. lia. }
    destruct (Hs i) as (k & Ek & Hk), (Hs (i + 1)) as (k' & Ek' & Hk'). rewrite Ek, Ek'.
    assert (∀ x, (VER_MALLOC_CHUNK_BEGIN + x * 4096) mod 4096 = 0) as Hm.
    { intros x. rewrite Z.mod_add by lia. done. }
    assert (∀ x, (VER_MALLOC_CHUNK_BEGIN + x * 4096) mod 64 = 0) as Hm'.
    { intros x. replace (x * 4096) with (x * 64 * 64) by lia. rewrite Z.mod_add by lia. done. }
    unfold VER_MALLOC_CHUNK_BEGIN in *.
    split; [|split; [done|]]; [split; simpl; unfold ALIGNMENT; change PAGE_SIZE with 4096|]; rewrite ?Hm, ?Hm'; lia.
Qed.

(** ** Allocation *)

(** Number of allocations reported since the last broadcast. *)
Definition reports (w : world) (wid : Z) : Z :=
  load 8 (p_mem (w_p w)) (buf_index (e_ver_malloc_buffer (w_env w)) wid).

(** Report [k] is [(ptr, size, heap)]. *)
Definition report_is (w : world) (wid k ptr size heap : Z) : Prop :=
  let a := buf_elem (e_ver_malloc_buffer (w_env w)) wid + k * SIZEOF_VerMallocInstance in
  let m := p_mem (w_p w) in
  load 8 m a = ptr ∧ load 4 m (a + 8) = size ∧ load 4 m (a + 12) = heap.

Lemma store_instance_read m elem k ptr size heap :
  0 ≤ ptr < 2 ^ 64 → 0 ≤ size < 2 ^ 32 → 0 ≤ heap < 2 ^ 32 →
  let m' := store_instance m elem k ptr size heap in
  let a := elem + k * SIZEOF_VerMallocInstance in
  load 8 m' a = ptr ∧ load 4 m' (a + 8) = size ∧ load 4 m' (a + 12) = heap.
Proof.
  intros H1 H2 H3 m' a. unfold m', store_instance. fold a. split_and!.
  - rewrite !load_store_ne by (simpl; lia). rewrite load_store. apply wrap_small. simpl. lia.
  - rewrite load_store_ne by (simpl; lia). rewrite load_store. apply wrap_small. simpl. lia.
  - rewrite load_store. apply wrap_small. simpl. lia.
Qed.

Lemma buffer_ver_malloc_ok w wid ptr size heap :
  0 ≤ reports w wid < PAGE_SIZE → 0 ≤ ptr < 2 ^ 64 → 0 ≤ size < 2 ^ 32 →
  ∃ m, let w' := set_p (set_p_mem m (w_p w)) w in
    buffer_ver_malloc wid ptr size heap w = Ok tt w' ∧
    reports w' wid = reports w wid + 1 ∧ report_is w' wid (reports w wid) ptr size (u32 heap).
Proof.
  intros H Hp Hs. unfold buffer_ver_malloc. run_w. fold (reports w wid).
  rewrite (proj2 (Z.eqb_neq _ _)) by lia. simpl. eexists. split; [reflexivity|].
  unfold reports, report_is. simpl. fold (reports w wid). set (base := e_ver_malloc_buffer (w_env w)).
  rewrite (wrap_small 32 size) by lia. change PAGE_SIZE with 4096 in *. split.
  - unfold store_instance, buf_index, SIZEOF_VerMallocInstance. change PAGE_SIZE with 4096.
    rewrite !load_store_ne by (simpl; lia). rewrite load_store. simpl.
    rewrite wrap_wrap. apply wrap_small. lia.
  - apply store_instance_read; [done|done|apply wrap_range; lia].
Qed.

Lemma round_up_64 size : 0 ≤ size → size + 64 ≤ 2 ^ 64 →
  size ≤ ROUND_UP size ALIGNMENT < size + 64 ∧ ROUND_UP size ALIGNMENT mod 64 = 0.
Proof. intros. apply (ROUND_UP_spec size 6); lia. Qed.

(** The part after an allocation of [size] bytes. *)
Record allocated (c c' : heap_chunk) (size : Z) : Prop := {
  al_next : hc_next c' = hc_next c + ROUND_UP size ALIGNMENT;
  al_begin : hc_begin c' = hc_begin c;
  al_end : hc_end c' = hc_end c;
  al_ok : part_ok c' }.

Lemma grown_allocated L w w' size : PartOk L →
  let c := cl_get L (w_p w) in
  part_ok c → 0 ≤ size → size + 64 ≤ 2 ^ 64 → hc_next c + ROUND_UP size ALIGNMENT < hc_end c →
  grown L (hc_next c + ROUND_UP size ALIGNMENT) w w' →
  allocated c (with_next (cl_get L (w_p w')) (hc_next c + ROUND_UP size ALIGNMENT)) size.
Proof.
  intros HL c [Hb He Hm Hc Ha] Hsz Hsz' Hroom [(nc & -> & H1 & H2 & H3 & H4) _ _]. fold c in H1, H2, H3, H4.
  pose proof (round_up_64 size Hsz Hsz') as [Hr Hr64].
  split; [done|done|done|]. rewrite Hc in H3. split; fold c; simpl; [done|done| |done|].
  - split; [lia|]. destruct H4 as [->|H4]; [lia|]. destruct He as [_ He].
    change PAGE_SIZE with 4096 in *. Z.to_euclidean_division_equations. lia.
  - unfold ALIGNMENT in *. rewrite <-Z.add_mod_idemp_l, Ha by lia. rewrite Z.add_0_l. done.
Qed.

(** The report buffer does not overlap the part or its shadow. *)
Definition buffer_apart (w : world) (wid : Z) : Prop :=
  let c := chunk_of (ver_malloc_chunks (w_p w)) wid in
  ∀ k b, 0 ≤ k < SIZEOF_VerMallocBuffer → hc_begin c ≤ b < hc_end c + PAGE_SIZE →
    let a := buf_elem (e_ver_malloc_buffer (w_env w)) wid + k in a ≠ b ∧ a ≠ GET_SHADOW_OF b.

(** A memory that agrees on the report buffer has the same reports. *)
Lemma reports_ext w w' wid : w_env w' = w_env w →
  (∀ k, 0 ≤ k < SIZEOF_VerMallocBuffer →
     let a := buf_elem (e_ver_malloc_buffer (w_env w)) wid + k in
     rd (p_mem (w_p w')) a = rd (p_mem (w_p w)) a) →
  reports w' wid = reports w wid ∧
  ∀ k ptr size heap, 0 ≤ k < PAGE_SIZE → report_is w wid k ptr size heap → report_is w' wid k ptr size heap.
Proof.
  intros Ee Hm. unfold reports, report_is, buf_index. rewrite Ee.
  set (e := buf_elem (e_ver_malloc_buffer (w_env w)) wid) in *.
  unfold SIZEOF_VerMallocBuffer, SIZEOF_VerMallocInstance in *. change PAGE_SIZE with 4096 in *. split.
  - apply load_ext. intros k Hk. simpl in Hk. rewrite <-Z.add_assoc. apply Hm. lia.
  - intros k ptr size heap Hk (<- & <- & <-).
    split_and!; apply load_ext; intros j Hj; simpl in Hj; rewrite <-!Z.add_assoc; apply Hm; lia.
Qed.

Lemma grown_reports w w' wid next : part_ok (chunk_of (ver_malloc_chunks (w_p w)) wid) →
  next ≤ hc_end (chunk_of (ver_malloc_chunks (w_p w)) wid) →
  buffer_apart w wid → grown (ver_part wid) next w w' → reports w' wid = reports w wid.
Proof.
  intros Hok Hn Hap [_ [_ Ee _ _] Hm]. apply reports_ext; [done|]. intros k Hk. simpl. apply Hm. simpl.
  intros b Hb. apply Hap; [done|]. destruct Hok. lia.
Qed.

(** Everything an allocation needs of the platform. *)
Record alloc_env (w : world) (wid : Z) : Prop := {
  ae_map : let c := chunk_of (ver_malloc_chunks (w_p w)) wid in can_map (w_env w) (hc_begin c) (hc_end c);
  ae_apart : buffer_apart w wid;
  ae_reports : 0 ≤ reports w wid < PAGE_SIZE }.

(** The page of a block lies in the part. *)
Lemma page_in_part c : part_ok c → hc_next c < hc_end c →
  hc_begin c ≤ Z.land (hc_next c) PAGE_MASK < hc_end c.
Proof.
  intros [Hb He Hm Hc Ha] Hlt. rewrite PAGE_MASK_spec by lia. change PAGE_SIZE with 4096 in *.
  Z.to_euclidean_division_equations. lia.
Qed.

Lemma ver_malloc_run w wid size :
  let c := chunk_of (ver_malloc_chunks (w_p w)) wid in
  part_ok c → 0 ≤ size < 2 ^ 31 → alloc_env w wid → hc_next c + ROUND_UP size ALIGNMENT < hc_end c →
  ∃ w', ver_malloc wid size w = Ok (hc_next c) w' ∧
    let c' := chunk_of (ver_malloc_chunks (w_p w')) wid in
    allocated c c' size ∧ w_sh w' = w_sh w ∧ w_env w' = w_env w ∧
    reports w' wid = reports w wid + 1 ∧
    report_is w' wid (reports w wid) (hc_next c) (ROUND_UP size ALIGNMENT) (u32 (-1)).
Proof.
  intros c Hok Hsz [Hmap Hap Hrep] Hroom.
  pose proof (round_up_64 size ltac:(lia) ltac:(lia)) as [Hr Hr64].
  pose proof Hok as [Hb He Hm Hc Ha]. set (next := hc_next c + ROUND_UP size ALIGNMENT) in *.
  assert (u64 next = next) as Ew by (apply wrap_small; unfold next; lia).
  unfold ver_malloc, get_part, put_part. run_w. fold c. fold next. rewrite Ew.
  rewrite (proj2 (Z.ltb_lt _ _)) by done. simpl.
  destruct (grow_ok (ver_part wid) next w) as (w1 & -> & G).
  { exact Hc. } { intros a Hin. apply Hmap. simpl in Hin. fold c in Hin. fold c. lia. } { simpl. fold c. lia. }
  pose proof (grown_reports w w1 wid next Hok ltac:(fold c; lia) Hap G) as Hr1.
  pose proof (grown_allocated (ver_part wid) w w1 size _ Hok ltac:(lia) ltac:(lia) Hroom G) as Hal.
  simpl in Hal. fold c in Hal. fold next in Hal. set (c1 := with_next _ _) in *. set (w2 := set_p _ w1).
  assert (reports w2 wid = reports w wid) as Hr2 by exact Hr1.
  destruct (buffer_ver_malloc_ok w2 wid (hc_next c) (ROUND_UP size ALIGNMENT) (-1)
    ltac:(rewrite Hr2; lia) ltac:(lia) ltac:(lia)) as (m & Em & Ei & Er).
  unfold c1 in w2. fold w2. rewrite Em. eexists. split; [reflexivity|].
  match goal with |- allocated _ ?x _ ∧ _ => assert (x = c1) as -> end.
  { unfold w2, chunk_of. simpl. by rewrite lookup_insert_eq. }
  pose proof (sb_env _ _ _ (gr_same _ _ _ _ G)) as Eenv.
  match goal with |- _ ∧ _ ∧ _ ∧ reports ?x wid = _ ∧ _ => set (w4 := x) end.
  set (w3 := set_p (set_p_mem m (w_p w2)) w2) in *. rewrite Hr2 in Ei, Er.
  destruct (reports_ext w3 w4 wid) as [E4 R4]; [done| |].
  { intros k Hk a. unfold w4. simpl. rewrite rd_wr_ne; [done|]. intros E.
    destruct (Hap k (Z.land (hc_next c) PAGE_MASK) Hk) as [_ Hne].
    - pose proof (page_in_part c Hok ltac:(lia)). change PAGE_SIZE with 4096. fold c. lia.
    - apply Hne. unfold a in E. simpl in E. by rewrite Eenv in E. }
  split; [exact Hal|]. split; [apply (sb_sh _ _ _ (gr_same _ _ _ _ G))|]. split; [exact Eenv|].
  rewrite E4. split; [exact Ei|]. apply R4; [lia|exact Er].
Qed.

Lemma ver_malloc_no_room w wid size :
  let c := chunk_of (ver_malloc_chunks (w_p w)) wid in
  part_ok c → 0 ≤ size < 2 ^ 31 → hc_end c ≤ hc_next c + ROUND_UP size ALIGNMENT →
  ver_malloc wid size w = Stop AssertFail w.
Proof.
  intros c [Hb He Hm Hc Ha] Hsz Hno. pose proof (round_up_64 size ltac:(lia) ltac:(lia)) as [Hr Hr64].
  unfold ver_malloc, get_part. run_w. fold c. rewrite wrap_small by lia.
  by rewrite (proj2 (Z.ltb_ge _ _)) by lia.
Qed.

(** Allocation: when the part has room, [ver_malloc] returns the old
    [next] pointer, aligned to 64 bytes; the block lies inside the worker's part
    and above everything allocated before, it is mapped, the part stays
    well-formed, and the block is entered into the report buffer.  Without room
    the assertion fails. *)
Theorem ver_malloc_block w wid size :
  let c := chunk_of (ver_malloc_chunks (w_p w)) wid in
  part_ok c → 0 ≤ size < 2 ^ 31 → alloc_env w wid →
  (hc_next c + ROUND_UP size ALIGNMENT < hc_end c →
   ∃ w', ver_malloc wid size w = Ok (hc_next c) w' ∧
     let c' := chunk_of (ver_malloc_chunks (w_p w')) wid in
     allocated c c' size ∧ hc_next c mod ALIGNMENT = 0 ∧ hc_begin c ≤ hc_next c ∧
     hc_next c + size ≤ hc_next c' ≤ hc_nextchunk c' ∧
     reports w' wid = reports w wid + 1 ∧
     report_is w' wid (reports w wid) (hc_next c) (ROUND_UP size ALIGNMENT) (u32 (-1))) ∧
  (hc_end c ≤ hc_next c + ROUND_UP size ALIGNMENT → ver_malloc wid size w = Stop AssertFail w).
Proof.
  intros c Hok Hsz Henv. split; [|by apply ver_malloc_no_room]. intros Hroom.
  destruct (ver_malloc_run w wid size Hok Hsz Henv Hroom) as (w' & E & Hal & _ & _ & Hr & Hi).
  exists w'. split; [exact E|]. pose proof (round_up_64 size ltac:(lia) ltac:(lia)) as [Hu _].
  pose proof Hok as [_ _ Hm _ Ha]. pose proof Hal as [An _ _ [_ _ Am _ _]].
  split_and!; try done; fold c in An; lia.
Qed.

(** ** Replay by the later stages *)

Lemma update_ver_malloc_run v wid size :
  let c := chunk_of (ver_malloc_chunks (w_p v)) wid in
  part_ok c → 0 ≤ size → ROUND_UP size ALIGNMENT ≤ PAGE_SIZE → size < 2 ^ 31 →
  can_map (w_env v) (hc_begin c) (hc_end c) → hc_next c + ROUND_UP size ALIGNMENT < hc_end c →
  ∃ v', update_ver_malloc wid size (hc_next c) v = Ok (hc_next c) v' ∧
    allocated c (chunk_of (ver_malloc_chunks (w_p v')) wid) size ∧
    w_sh v' = w_sh v ∧ w_env v' = w_env v.
Proof.
  intros c Hok Hsz Hone Hmax Hmap Hroom. pose proof Hok as [Hb He Hm Hc Ha].
  pose proof (round_up_64 size ltac:(lia) ltac:(lia)) as [Hr Hr64].
  unfold update_ver_malloc, get_part, put_part. run_w. fold c. rewrite wrap_small by lia.
  rewrite Z.eqb_refl. simpl. rewrite (proj2 (Z.ltb_lt _ _)) by done. simpl.
  unfold insert_shadow_heap_pages.
  destruct (Z.ltb_spec (hc_nextchunk c) (hc_next c + ROUND_UP size ALIGNMENT)) as [Hlt|Hge]; simpl.
  - destruct (Hmap (hc_nextchunk c) ltac:(lia)) as [M1 M2]. destruct (map_chunk_ok v _ M1 M2) as (t & E).
    run_w. rewrite E. simpl. eexists. split; [reflexivity|].
    split; [|done]. simpl. rewrite !chunk_of_insert. fold c.
    split; [done|done|done|]. split; simpl; [done|done| | |].
    + change VER_MALLOC_CHUNKSIZE with 4096. change PAGE_SIZE with 4096 in *.
      Z.to_euclidean_division_equations. lia.
    + change VER_MALLOC_CHUNKSIZE with 4096. change PAGE_SIZE with 4096 in *.
      rewrite <-Z.add_mod_idemp_l, Hc by lia. done.
    + unfold ALIGNMENT in *. rewrite <-Z.add_mod_idemp_l, Ha by lia. done.
  - run_w. fold c. eexists. split; [reflexivity|]. split; [|done].
    simpl. rewrite !chunk_of_insert. fold c.
    split; [done|done|done|]. split; simpl; [done|done|lia|done|].
    unfold ALIGNMENT in *. rewrite <-Z.add_mod_idemp_l, Ha by lia. done.
Qed.

(** A worker allocates; another process replays the same sizes and pointers. *)
Fixpoint alloc_all (wid : Z) (sizes : list Z) : W (list Z) :=
  match sizes with
  | [] => ret []
  | s :: sizes => let! p := ver_malloc wid s in let! ps := alloc_all wid sizes in ret (p :: ps)
  end.

Fixpoint replay_all (wid : Z) (sizes ptrs : list Z) : W unit :=
  match sizes, ptrs with
  | s :: sizes, p :: ptrs => update_ver_malloc wid s p ;;; replay_all wid sizes ptrs
  | _, _ => ret tt
  end.

Definition total_size (sizes : list Z) : Z := foldr (λ s t, ROUND_UP s ALIGNMENT + t) 0 sizes.

Definition same_part (c d : heap_chunk) : Prop :=
  hc_begin c = hc_begin d ∧ hc_end c = hc_end d ∧ hc_next c = hc_next d.

Lemma total_size_nonneg sizes : Forall (λ s, 0 ≤ s ∧ ROUND_UP s ALIGNMENT ≤ PAGE_SIZE) sizes →
  Forall (λ s, 0 ≤ s < 2 ^ 31) sizes → 0 ≤ total_size sizes.
Proof.
  induction sizes as [|s sizes IH]; intros H1 H2; simpl; [done|].
  apply Forall_cons in H1 as [_ H1], H2 as [H2 H2']. specialize (IH H1 H2').
  pose proof (round_up_64 s ltac:(lia) ltac:(lia)). lia.
Qed.

(** Blocks follow each other upwards from [lo]. *)
Fixpoint stacked (lo : Z) (sizes ptrs : list Z) : Prop :=
  match sizes, ptrs with
  | s :: sizes, p :: ptrs => lo ≤ p ∧ p mod ALIGNMENT = 0 ∧ stacked (p + s) sizes ptrs
  | [], [] => True
  | _, _ => False
  end.

Lemma stacked_mono lo lo' sizes ptrs : lo ≤ lo' → stacked lo' sizes ptrs → stacked lo sizes ptrs.
Proof. destruct sizes, ptrs; simpl; intros Hle H; try done. destruct H as (? & ? & ?). split; [lia|done]. Qed.

(** Replay: a process that replays the reported allocations of a worker
    on its own copy of the worker's part computes the same addresses, so its
    pointer check never fails, and both copies agree afterwards; the blocks are
    aligned and do not overlap. (For blocks of at most one page, which the
    replaying side can map in one step.) *)
Theorem replay_agrees wid sizes : ∀ w v,
  let c := chunk_of (ver_malloc_chunks (w_p w)) wid in
  let d := chunk_of (ver_malloc_chunks (w_p v)) wid in
  part_ok c → part_ok d → same_part c d → alloc_env w wid →
  can_map (w_env v) (hc_begin d) (hc_end d) →
  Forall (λ s, 0 ≤ s ∧ ROUND_UP s ALIGNMENT ≤ PAGE_SIZE) sizes → Forall (λ s, 0 ≤ s < 2 ^ 31) sizes →
  hc_next c + total_size sizes < hc_end c → reports w wid + lenZ sizes < PAGE_SIZE →
  ∃ ptrs w' v', alloc_all wid sizes w = Ok ptrs w' ∧ replay_all wid sizes ptrs v = Ok tt v' ∧
    same_part (chunk_of (ver_malloc_chunks (w_p w')) wid) (chunk_of (ver_malloc_chunks (w_p v')) wid) ∧
    stacked (hc_next c) sizes ptrs.
Proof.
  induction sizes as [|s sizes IH]; intros w v c d Hc Hd Hsame Henv Hmap H1 H2 Hroom Hrep.
  - exists [], w, v. done.
  - apply Forall_cons in H1 as [[Hs Hone] H1], H2 as [Hs' H2]. simpl in Hroom.
    pose proof (total_size_nonneg sizes H1 H2) as Hpos.
    assert (lenZ (s :: sizes) = lenZ sizes + 1) as L by (unfold lenZ; simpl; lia). rewrite L in Hrep.
    destruct Hsame as (Sb & Se & Sn). pose proof Henv as [Emap Eap Erep].
    destruct (ver_malloc_run w wid s Hc Hs' Henv ltac:(fold c; lia)) as (w1 & E1 & A1 & _ & Ee1 & R1 & _).
    destruct (update_ver_malloc_run v wid s Hd Hs Hone ltac:(lia) Hmap ltac:(fold d; lia))
      as (v1 & E2 & A2 & _ & Ee2).
    fold c in E1, A1. fold d in E2, A2. pose proof A1 as [An Ab Ae Ao]. pose proof A2 as [Bn Bb Be Bo].
    pose proof (round_up_64 s ltac:(lia) ltac:(lia)) as [Hu _].
    destruct (IH w1 v1) as (ptrs & w' & v' & E3 & E4 & S & St); try done.
    + split_and!; congruence.
    + split; [|unfold buffer_apart|].
      * cbv zeta. rewrite Ab, Ae, Ee1. exact Emap.
      * rewrite Ab, Ae, Ee1. exact Eap.
      * rewrite R1. assert (0 ≤ lenZ sizes) by (unfold lenZ; lia).
        lia.
    + rewrite Ee2, Bb, Be. exact Hmap.
    + rewrite An, Ae. lia.
    + rewrite R1. lia.
    + exists (hc_next c :: ptrs), w', v'. simpl. unfold bind. rewrite E1, E3. rewrite <-Sn in E2.
      rewrite E2. split; [done|]. split; [exact E4|]. split; [done|]. destruct Hc. split; [lia|]. split; [done|].
      eapply stacked_mono; [|exact St]. rewrite An. lia.
Qed.

(** ** A concrete part *)

Definition demo_part : heap_chunk :=
  HeapChunk VER_MALLOC_CHUNK_BEGIN (VER_MALLOC_CHUNK_BEGIN + 0x100000)
            VER_MALLOC_CHUNK_BEGIN VER_MALLOC_CHUNK_BEGIN.
Definition demo_alloc_world : world :=
  set_p (set_ver_malloc_chunks {[1 := demo_part]} (w_p demo_world)) demo_world.

Lemma demo_part_ok : part_ok demo_part.
Proof.
  unfold demo_part. split; cbn [hc_begin hc_end hc_next hc_nextchunk]; repeat apply conj;
    (reflexivity || (unfold VER_MALLOC_CHUNK_BEGIN; lia)).
Qed.

Lemma demo_alloc_env : alloc_env demo_alloc_world 1.
Proof.
  assert (chunk_of (ver_malloc_chunks (w_p demo_alloc_world)) 1 = demo_part) as E by (by vm_compute).
  split.
  - intros c a Ha. done.
  - unfold buffer_apart. cbv zeta. rewrite E. intros k b Hk Hb.
    set (a := buf_elem _ _ + k). unfold SIZEOF_VerMallocBuffer in Hk.
    change PAGE_SIZE with 4096 in *. change SIZEOF_VerMallocInstance with 16 in Hk.
    unfold demo_part, VER_MALLOC_CHUNK_BEGIN in Hb. simpl in Hb.
    assert (a = 0x600000 + 1 * (4096 * 16 + 8) + k) as -> by done.
    split; [lia|]. destruct (shadow_dist b) as [->| ->]; lia.
  - assert (reports demo_alloc_world 1 = 0) as -> by (by vm_compute). done.
Qed.

Lemma ver_malloc_block_witness :
  ∃ w', ver_malloc 1 100 demo_alloc_world = Ok VER_MALLOC_CHUNK_BEGIN w' ∧
    hc_next (chunk_of (ver_malloc_chunks (w_p w')) 1) = VER_MALLOC_CHUNK_BEGIN + 128.
Proof.
  destruct (ver_malloc_block demo_alloc_world 1 100 demo_part_ok ltac:(lia) demo_alloc_env) as [H _].
  destruct H as (w' & E & [An _ _ _] & _); [by vm_compute|].
  exists w'. split; [exact E|]. rewrite An. by vm_compute.
Defined.

Lemma replay_agrees_witness :
  ∃ ptrs w' v', alloc_all 1 [100; 8; 4000] demo_alloc_world = Ok ptrs w' ∧
    replay_all 1 [100; 8; 4000] ptrs demo_alloc_world = Ok tt v'.
Proof.
  destruct (replay_agrees 1 [100; 8; 4000] demo_alloc_world demo_alloc_world demo_part_ok demo_part_ok)
    as (ptrs & w' & v' & E1 & E2 & _).
  - done.
  - apply demo_alloc_env.
  - intros a Ha. done.
  - repeat (apply List.Forall_cons; [split; [lia|by vm_compute]|]). apply List.Forall_nil.
  - repeat (apply List.Forall_cons; [lia|]). apply List.Forall_nil.
  - by vm_compute.
  - by vm_compute.
  - exists ptrs, w', v'. split; [exact E1|exact E2].
Defined.

(** A block of more than one page: the allocating worker maps all of it, the
    replaying process only its first page. *)
Example replay_large_block :
  match ver_malloc 1 0x3000 demo_alloc_world, update_ver_malloc 1 0x3000 VER_MALLOC_CHUNK_BEGIN demo_alloc_world with
  | Ok _ w, Ok _ v =>
      let c := chunk_of (ver_malloc_chunks (w_p w)) 1 in
      let d := chunk_of (ver_malloc_chunks (w_p v)) 1 in
      hc_next c = hc_next d ∧ hc_next c = hc_nextchunk c ∧ hc_nextchunk d = hc_next d - 0x2000
  | _, _ => False
  end.
Proof. by vm_compute. Qed.
