(* ===== verification/Separation.v ===== *)
(** Separation heaps ([smtx/separation.cpp], [include/internals/smtx/separation.h]).

    Memory objects are placed in heaps by their expected behaviour (unclassified,
    read-only, no-read-before-write, private to a stage).  Non-versioned heaps
    are shared by all workers; a versioned heap has a copy of the bookkeeping per
    worker.  The initialisation ends in an assertion that switches the feature
    off; the code behind it is [separation_setup]. *)
From S2P Require Import Prelude Machine Strategy SwQueue Packet State Shadow Communicate Malloc.

Definition sep {A} (f : separation → A) : W A := getp (λ p, f (p_sep p)).

(** [handle_error]: [exit(EXIT_FAILURE)]. *)
Definition handle_error {A} : W A := halt (Exited 1).

(** [mprotect(addr, len, prot)], page by page; [false] is the result [-1]. *)
Definition mprotect (addr len prot : Z) : W bool :=
  let! ok := gete e_mprotect_ok in
  if ok addr then
    modp (λ p, set_p_prot (foldl (λ t k, <[addr + PAGE_SIZE * k := prot]> t) (p_prot p)
      (seqZ 0 ((len + PAGE_SIZE - 1) / PAGE_SIZE))) p) ;;; ret true
  else ret false.

(** ** Initialisation *)

Definition stage_sets : gmap Z (list Z) := foldl (λ t i, <[i := []]> t) ∅ (seqZ 0 MAX_STAGE_NUM).

(** The versioned heaps of all workers, numbered row by row. *)
Definition versioned_init (nvh : Z) : gmap (Z * Z) heap_chunk :=
  let chunksize := SEPARATION_HEAP_CHUNKSIZE in
  let num_chunks := (VER_SEPARATION_HEAP_BOUND - VER_SEPARATION_HEAP_BEGIN) / chunksize in
  let total_heaps := u32 (nvh * MAX_WORKERS) in
  let chunks_per_heap := u32 (num_chunks / total_heaps) in
  let rem := u32 (num_chunks mod total_heaps) in
  (foldl (λ st i, foldl (λ '(t, n, idx) j,
     let sz := chunks_per_heap * chunksize in
     let sz := if idx <? rem then sz + chunksize else sz in
     (<[(i, j) := HeapChunk n (n + sz) n n]> t, n + sz, idx + 1)) st (seqZ 0 nvh))
   (∅, VER_SEPARATION_HEAP_BEGIN, 0) (seqZ 0 MAX_WORKERS)).1.1.

Definition separation_setup (num_non_versioned_heaps num_versioned_heaps : Z) : W unit :=
  modsep (λ s, set_ver_nrbw_regions (Some []) (set_nrbw_regions (Some []) (set_ver_ro_regions (Some [])
    (set_ro_regions (Some []) (set_ver_uc_regions (Some []) (set_uc_regions (Some []) s)))))) ;;;
  modsep (λ s, set_ver_stage_private_regions (Some stage_sets) (set_stage_private_regions (Some stage_sets) s)) ;;;
  modsep (λ s, set_separation_heap_size_map ∅ s) ;;;
  let chunksize := SEPARATION_HEAP_CHUNKSIZE in
  let num_chunks := (SEPARATION_HEAP_BOUND - SEPARATION_HEAP_BEGIN) / chunksize in
  let chunks_per_heap := u32 (num_chunks / num_non_versioned_heaps) in
  let rem := u32 (num_chunks mod num_non_versioned_heaps) in
  modsep (λ s, set_heaps
    (chunks_init num_non_versioned_heaps SEPARATION_HEAP_BEGIN chunksize chunks_per_heap rem).1 s) ;;;
  when (negb (num_versioned_heaps =? 0))
    (modsep (λ s, set_versioned_heaps (versioned_init num_versioned_heaps) s)).

Definition separation_init (num_non_versioned_heaps num_versioned_heaps : Z) : W unit :=
  modsep (λ s, set_nvh num_versioned_heaps (set_nnvh num_non_versioned_heaps s)) ;;;
  if (num_non_versioned_heaps =? 0) && (num_versioned_heaps =? 0) then ret tt else
  assert_ false ;;;
  separation_setup num_non_versioned_heaps num_versioned_heaps.

(** Dereferencing the pointer to a region; a null pointer is a fault. *)
Definition region {A} (r : option A) : W A :=
  match r with Some l => ret l | None => halt Fault end.

Definition clear_separation_heaps : W unit :=
  let! s := sep id in
  let! _ := region (uc_regions s) in
  let! _ := region (ver_uc_regions s) in
  let! _ := region (ro_regions s) in
  let! _ := region (ver_ro_regions s) in
  let! _ := region (nrbw_regions s) in
  let! _ := region (ver_nrbw_regions s) in
  let! _ := region (stage_private_regions s) in
  let! _ := region (ver_stage_private_regions s) in
  modsep (λ s, set_ver_nrbw_regions (Some []) (set_nrbw_regions (Some []) (set_ver_ro_regions (Some [])
    (set_ro_regions (Some []) (set_ver_uc_regions (Some []) (set_uc_regions (Some []) s)))))) ;;;
  modsep (λ s, set_ver_stage_private_regions (Some stage_sets) (set_stage_private_regions (Some stage_sets) s)).

(** ** Registration; [va] holds the variadic arguments *)

Definition insert_all_ (l va : list Z) : list Z := foldl (λ l h, set_insert h l) l va.

Definition register_unclassified (va : list Z) : W unit :=
  let! r := sep uc_regions in let! l := region r in
  modsep (set_uc_regions (Some (insert_all_ l va))).
Definition register_versioned_unclassified (va : list Z) : W unit :=
  let! r := sep ver_uc_regions in let! l := region r in
  modsep (set_ver_uc_regions (Some (insert_all_ l va))).
Definition register_ro (va : list Z) : W unit :=
  let! r := sep ro_regions in let! l := region r in
  modsep (set_ro_regions (Some (insert_all_ l va))).
Definition register_versioned_ro (va : list Z) : W unit :=
  let! r := sep ver_ro_regions in let! l := region r in
  modsep (set_ver_ro_regions (Some (insert_all_ l va))).
Definition register_nrbw (va : list Z) : W unit :=
  let! r := sep nrbw_regions in let! l := region r in
  modsep (set_nrbw_regions (Some (insert_all_ l va))).
Definition register_versioned_nrbw (va : list Z) : W unit :=
  let! r := sep ver_nrbw_regions in let! l := region r in
  modsep (set_ver_nrbw_regions (Some (insert_all_ l va))).
Definition register_stage_private (stage : Z) (va : list Z) : W unit :=
  let! r := sep stage_private_regions in let! t := region r in
  modsep (set_stage_private_regions (Some (<[stage := insert_all_ (default [] (t !! stage)) va]> t))).
Definition register_versioned_stage_private (stage : Z) (va : list Z) : W unit :=
  let! r := sep ver_stage_private_regions in let! t := region r in
  modsep (set_ver_stage_private_regions (Some (<[stage := insert_all_ (default [] (t !! stage)) va]> t))).

(** ** Region checks *)

Definition in_chunk (c : heap_chunk) (page : Z) : bool := (hc_begin c <=? page) && (page <? hc_next c).
Definition heap_at (s : separation) (h : Z) : heap_chunk := chunk_of (heaps s) h.
Definition ver_heap_at (s : separation) (w h : Z) : heap_chunk :=
  default (HeapChunk 0 0 0 0) (versioned_heaps s !! (w, h)).

(** The two loops over a region. *)
Definition in_heaps (s : separation) (l : list Z) (page : Z) : bool :=
  existsb (λ h, in_chunk (heap_at s h) page) l.
Definition in_ver_heaps (s : separation) (l : list Z) (page : Z) : bool :=
  existsb (λ h, existsb (λ j, in_chunk (ver_heap_at s j h) page) (seqZ 0 MAX_WORKERS)) l.

Definition in_regions (s : separation) (l lv : option (list Z)) (page : Z) : bool :=
  match l with Some l => in_heaps s l page | None => false end ||
  match lv with Some l => in_ver_heaps s l page | None => false end.

Definition is_in_uc (s : separation) (page : Z) : bool :=
  in_regions s (uc_regions s) (ver_uc_regions s) page.
Definition is_in_ro (s : separation) (page : Z) : bool :=
  in_regions s (ro_regions s) (ver_ro_regions s) page.
Definition is_in_nrbw (s : separation) (page : Z) : bool :=
  in_regions s (nrbw_regions s) (ver_nrbw_regions s) page.

Definition stage_has (s : separation) (page j : Z) : bool :=
  in_regions s ((λ t, default [] (t !! j)) <$> stage_private_regions s)
    ((λ t, default [] (t !! j)) <$> ver_stage_private_regions s) page.
Definition is_in_stage_private (s : separation) (page : Z) : Z :=
  match List.find (stage_has s page) (seqZ 0 MAX_STAGE_NUM) with Some j => j | None => -1 end.

(** ** Protection *)

Definition protect_chunk (c : heap_chunk) : W unit :=
  let sz := hc_nextchunk c - hc_begin c in
  if sz =? 0 then ret tt else
  let! ok := mprotect (hc_begin c) sz PROT_NONE in
  if ok then ret tt else handle_error.

Definition set_separation_heaps_prot_none : W unit :=
  let! s := sep id in
  for_ (seqZ 0 (nnvh s)) (λ i, protect_chunk (heap_at s i)) ;;;
  for_ (seqZ 0 MAX_WORKERS) (λ i, for_ (seqZ 0 (nvh s)) (λ j, protect_chunk (ver_heap_at s i j))).

Definition get_uc := uc_regions.
Definition get_versioned_uc := ver_uc_regions.
Definition get_nrbw := nrbw_regions.
Definition get_versioned_nrbw := ver_nrbw_regions.
Definition get_stage_private (s : separation) (i : Z) : option (list Z) :=
  match stage_private_regions s with Some t => Some (default [] (t !! i)) | None => None end.
Definition get_versioned_stage_private (s : separation) (i : Z) : option (list Z) :=
  match ver_stage_private_regions s with Some t => Some (default [] (t !! i)) | None => None end.
Definition heap_begin (s : separation) (h : Z) : Z := hc_begin (heap_at s h).
Definition heap_bound (s : separation) (h : Z) : Z := hc_nextchunk (heap_at s h).
Definition versioned_heap_begin (s : separation) (w h : Z) : Z := hc_begin (ver_heap_at s w h).
Definition versioned_heap_bound (s : separation) (w h : Z) : Z := hc_nextchunk (ver_heap_at s w h).

Definition set_prot_none (ptr size : Z) : W unit :=
  let begin := Z.land ptr PAGE_MASK in
  let bound := u64 (Z.land (u64 (ptr + size)) PAGE_MASK + PAGE_SIZE) in
  let! ok := mprotect begin (bound - begin) PROT_NONE in
  if ok then ret tt else handle_error.

(** ** Allocation *)

Definition sep_part (h : Z) : part :=
  Part (λ p, heap_at (p_sep p) h)
       (λ c p, set_p_sep (set_heaps (<[h := c]> (heaps (p_sep p))) (p_sep p)) p).
Definition ver_sep_part (w h : Z) : part :=
  Part (λ p, ver_heap_at (p_sep p) w h)
       (λ c p, set_p_sep (set_versioned_heaps (<[(w, h) := c]> (versioned_heaps (p_sep p))) (p_sep p)) p).

Definition set_sep_size (ptr size : Z) : W unit :=
  modsep (λ s, set_separation_heap_size_map (<[ptr := size]> (separation_heap_size_map s)) s).
Definition erase_sep_size (ptr : Z) : W unit :=
  modsep (λ s, set_separation_heap_size_map (delete ptr (separation_heap_size_map s)) s).

Definition separation_heap_alloc (size heap : Z) : W Z :=
  let! n := sep nnvh in
  assert_ (heap <? n) ;;;
  let! c := get_part (sep_part heap) in
  let ret_ := hc_next c in
  let size := ROUND_UP size ALIGNMENT in
  let next := u64 (ret_ + size) in
  assert_ (next <? hc_end c) ;;;
  let! ok := grow (sep_part heap) next in
  if ok then
    set_sep_size ret_ size ;;;
    let! c := get_part (sep_part heap) in
    put_part (sep_part heap) (with_next c next) ;;;
    ret ret_
  else ret 0.

Definition separation_malloc (size heap : Z) : W Z := separation_heap_alloc size heap.

Definition separation_calloc (num size heap : Z) : W Z :=
  let sz := u64 (num * size) in
  let! r := separation_heap_alloc sz heap in
  modmem (λ m, memset m r 0 sz) ;;;
  ret r.

(** [separation_heap_size_map] creates an entry of size 0 for an unknown
    pointer; the entry is erased below. *)
Definition move_block (r ptr : Z) : W unit :=
  let! sizes := sep separation_heap_size_map in
  let oldsize := default 0 (sizes !! ptr) in
  modmem (λ m, memcpy m r m ptr oldsize) ;;;
  modmem (λ m, memcpy m (GET_SHADOW_OF r) m (GET_SHADOW_OF ptr) oldsize) ;;;
  erase_sep_size ptr.

Definition separation_realloc (ptr size heap : Z) : W Z :=
  if negb (ptr =? 0) && (size =? 0) then ret 0 else
  let! r := separation_heap_alloc size heap in
  if ptr =? 0 then ret r else
  move_block r ptr ;;; ret r.

Definition separation_free (ptr heap : Z) : W unit :=
  if ptr =? 0 then ret tt else erase_sep_size ptr.

Definition ver_separation_heap_alloc (size wid heap : Z) : W Z :=
  let! n := sep nvh in
  assert_ (heap <? n) ;;;
  let! c := get_part (ver_sep_part wid heap) in
  let ret_ := hc_next c in
  let size := ROUND_UP size ALIGNMENT in
  let next := u64 (ret_ + size) in
  assert_ (next <? hc_end c) ;;;
  let! ok := grow (ver_sep_part wid heap) next in
  if ok then
    set_sep_size ret_ size ;;;
    let! c := get_part (ver_sep_part wid heap) in
    put_part (ver_sep_part wid heap) (with_next c next) ;;;
    buffer_ver_malloc wid ret_ size heap ;;;
    broadcast_event wid ret_ (u32 size) (WInt heap) SEPARATION ALLOC ;;;
    touch_page ret_ ;;;
    ret ret_
  else ret 0.

Definition update_ver_separation_malloc (size wid heap ptr : Z) : W Z :=
  let! n := sep nvh in
  assert_ (heap <? n) ;;;
  let! c := get_part (ver_sep_part wid heap) in
  let ret_ := hc_next c in
  let size := ROUND_UP size ALIGNMENT in
  let next := u64 (ret_ + size) in
  assert_ (next <? hc_end c) ;;;
  when (hc_nextchunk c <? next)
    (let! ok := map_chunk (hc_nextchunk c) in
     assert_ ok ;;;
     let! c := get_part (ver_sep_part wid heap) in
     put_part (ver_sep_part wid heap) (with_nextchunk c (hc_nextchunk c + SEPARATION_HEAP_CHUNKSIZE))) ;;;
  let! c := get_part (ver_sep_part wid heap) in
  put_part (ver_sep_part wid heap) (with_next c next) ;;;
  ret ret_.

Definition ver_separation_malloc (size heap : Z) : W Z :=
  let! wid := my_worker_id in
  ver_separation_heap_alloc size wid heap.

Definition ver_separation_calloc (num size heap : Z) : W Z :=
  let sz := u64 (num * size) in
  let! wid := my_worker_id in
  let! r := ver_separation_heap_alloc sz wid heap in
  modmem (λ m, memset m r 0 sz) ;;;
  ret r.

Definition ver_separation_realloc (ptr size heap : Z) : W Z :=
  if negb (ptr =? 0) && (size =? 0) then ret 0 else
  let! wid := my_worker_id in
  let! r := ver_separation_heap_alloc size wid heap in
  if ptr =? 0 then ret r else
  move_block r ptr ;;; ret r.

Definition ver_separation_free (ptr heap : Z) : W unit :=
  if ptr =? 0 then ret tt else erase_sep_size ptr.

(** ** Allocation contexts *)

Definition push_separation_alloc_context (ctxt : Z) : W unit :=
  let! d := ctl invokedepth in
  if 1 <? d then ret tt else modsep (set_separation_alloc_context ctxt).
Definition pop_separation_alloc_context : W unit :=
  let! d := ctl invokedepth in
  if 1 <? d then ret tt else modsep (set_separation_alloc_context 0).
Definition get_separation_alloc_context : W Z := sep separation_alloc_context.

(** ** Properties *)

#[global] Instance sep_part_ok h : PartOk (sep_part h).
Proof. split; try done. intros c p. unfold sep_part, heap_at. simpl. apply chunk_of_insert. Qed.

#[global] Instance ver_sep_part_ok w h : PartOk (ver_sep_part w h).
Proof. split; try done. intros c p. unfold ver_sep_part, ver_heap_at. simpl. by rewrite lookup_insert_eq. Qed.

Lemma in_chunk_spec c page : in_chunk c page = true ↔ hc_begin c ≤ page < hc_next c.
Proof. unfold in_chunk. rewrite andb_true_iff, Z.leb_le, Z.ltb_lt. done. Qed.

Lemma existsb_elem {A} (f : A → bool) l : existsb f l = true ↔ ∃ x, x ∈ l ∧ f x = true.
Proof. rewrite existsb_exists. by setoid_rewrite list_elem_of_In. Qed.

(** The heaps that contain a page: a non-versioned heap, or one of a worker. *)
Inductive heap_id := NonVer (h : Z) | Ver (w h : Z).

Definition chunk_of_id (s : separation) (i : heap_id) : heap_chunk :=
  match i with NonVer h => heap_at s h | Ver w h => ver_heap_at s w h end.
Definition holds_page (s : separation) (page : Z) (i : heap_id) : Prop :=
  in_chunk (chunk_of_id s i) page = true.

(** The heaps named by a pair of regions. *)
Definition named (l lv : option (list Z)) (i : heap_id) : Prop :=
  match i with
  | NonVer h => h ∈ default [] l
  | Ver w h => h ∈ default [] lv ∧ 0 ≤ w < MAX_WORKERS
  end.

Lemma in_regions_spec s l lv page :
  in_regions s l lv page = true ↔ ∃ i, named l lv i ∧ holds_page s page i.
Proof.
  unfold in_regions. rewrite orb_true_iff. split.
  - intros [H|H].
    + destruct l as [l|]; [|done]. apply existsb_elem in H as (h & Hh & Hc). by exists (NonVer h).
    + destruct lv as [l'|]; [|done]. apply existsb_elem in H as (h & Hh & Hc).
      apply existsb_elem in Hc as (w & Hw & Hc). apply elem_of_seqZ in Hw. exists (Ver w h).
      simpl. split; [split; [done|lia]|done].
  - intros ([h|w h] & Hn & Hp); simpl in Hn.
    + left. destruct l as [l|]; simpl in Hn; [|by apply elem_of_nil in Hn].
      apply existsb_elem. by exists h.
    + right. destruct Hn as [Hn Hw]. destruct lv as [l'|]; simpl in Hn; [|by apply elem_of_nil in Hn].
      apply existsb_elem. exists h. split; [done|]. apply existsb_elem. exists w.
      split; [apply elem_of_seqZ; lia|done].
Qed.

(** Different heaps have disjoint address ranges. *)
Definition heaps_disjoint (s : separation) : Prop :=
  ∀ i j page, holds_page s page i → holds_page s page j → i = j.

(** No heap is registered in both pairs of regions. *)
Definition exclusive (l lv r rv : option (list Z)) : Prop := ∀ i, named l lv i → named r rv i → False.

Lemma not_in_both s l lv r rv page : heaps_disjoint s → exclusive l lv r rv →
  in_regions s l lv page = true → in_regions s r rv page = false.
Proof.
  intros Hd He (i & Hi & Hpi)%in_regions_spec. apply not_true_iff_false.
  intros (j & Hj & Hpj)%in_regions_spec.
  assert (i = j) as -> by (by eapply Hd). by eapply He.
Qed.

Lemma find_app {A} (f : A → bool) l1 l2 :
  List.find f (l1 ++ l2) = match List.find f l1 with Some x => Some x | None => List.find f l2 end.
Proof. induction l1 as [|x l IH]; simpl; [done|]. by destruct (f x). Qed.

(** The first index that satisfies a test. *)
Lemma find_seqZ (f : Z → bool) n : 0 ≤ n →
  match List.find f (seqZ 0 n) with
  | Some j => 0 ≤ j < n ∧ f j = true ∧ ∀ k, 0 ≤ k < j → f k = false
  | None => ∀ j, 0 ≤ j < n → f j = false
  end.
Proof.
  intros Hn. revert n Hn. apply Z_up_ind; [intros j; lia|].
  intros n Hn IH. rewrite seqZ_snoc, find_app, Z.add_0_l by lia.
  destruct (List.find f (seqZ 0 n)) as [j|].
  - destruct IH as (? & ? & ?). split; [lia|done].
  - simpl. destruct (f n) eqn:E; [split; [lia|done]|].
    intros j Hj. destruct (decide (j = n)) as [->|]; [done|]. apply IH. lia.
Qed.

(** ** Layout *)

Definition heap_chunks : Z := (SEPARATION_HEAP_BOUND - SEPARATION_HEAP_BEGIN) / SEPARATION_HEAP_CHUNKSIZE.
Definition ver_heap_chunks : Z :=
  (VER_SEPARATION_HEAP_BOUND - VER_SEPARATION_HEAP_BEGIN) / SEPARATION_HEAP_CHUNKSIZE.

(** Start of non-versioned heap [k] of [n], and of versioned heap number [k] of
    [n] in row order. *)
Definition heap_start (n k : Z) : Z :=
  start_of SEPARATION_HEAP_BEGIN SEPARATION_HEAP_CHUNKSIZE (heap_chunks / n) (heap_chunks mod n) k.
Definition ver_heap_start (n k : Z) : Z :=
  start_of VER_SEPARATION_HEAP_BEGIN SEPARATION_HEAP_CHUNKSIZE (ver_heap_chunks / n) (ver_heap_chunks mod n) k.

Definition chunk_in (c : heap_chunk) (lo hi : Z) : Prop :=
  hc_begin c = lo ∧ hc_end c = hi ∧ hc_begin c ≤ hc_next c ≤ hc_end c.

Record layout_ok (n nv : Z) (s : separation) : Prop := {
  lo_all h : 0 ≤ h < n → is_Some (heaps s !! h);
  lo_heaps h c : heaps s !! h = Some c →
    0 ≤ h < n ∧ chunk_in c (heap_start n h) (heap_start n (h + 1));
  lo_ver w h c : versioned_heaps s !! (w, h) = Some c →
    0 ≤ w < MAX_WORKERS ∧ 0 ≤ h < nv ∧
    chunk_in c (ver_heap_start (nv * MAX_WORKERS) (w * nv + h))
               (ver_heap_start (nv * MAX_WORKERS) (w * nv + h + 1)) }.

Lemma start_of_mono b cs per rem i j : 0 ≤ cs → 0 ≤ per → i ≤ j →
  start_of b cs per rem i ≤ start_of b cs per rem j.
Proof.
  intros Hcs Hper Hij. unfold start_of.
  assert (i * (per * cs) ≤ j * (per * cs)) by (apply Z.mul_le_mono_nonneg_r; nia).
  assert (Z.min i rem * cs ≤ Z.min j rem * cs) by (apply Z.mul_le_mono_nonneg_r; lia). lia.
Qed.

Lemma start_of_total b cs num n : 0 < n → 0 ≤ num → start_of b cs (num / n) (num mod n) n = b + num * cs.
Proof.
  intros Hn Hnum. unfold start_of. pose proof (Z.mod_pos_bound num n Hn).
  rewrite Z.min_r by lia. pose proof (Z.div_mod num n ltac:(lia)) as E. rewrite E at 3. nia.
Qed.

Lemma heap_start_mono n i j : 0 < n → i ≤ j → heap_start n i ≤ heap_start n j.
Proof. intros Hn. apply start_of_mono; [done|]. by apply Z.div_pos. Qed.
Lemma ver_heap_start_mono n i j : 0 < n → i ≤ j → ver_heap_start n i ≤ ver_heap_start n j.
Proof. intros Hn. apply start_of_mono; [done|]. by apply Z.div_pos. Qed.

Lemma heap_start_total n : 0 < n → heap_start n n = SEPARATION_HEAP_BOUND.
Proof. intros Hn. unfold heap_start. by rewrite start_of_total. Qed.
Lemma ver_heap_start_0 n : 0 < n → ver_heap_start n 0 = VER_SEPARATION_HEAP_BEGIN.
Proof.
  intros Hn. unfold ver_heap_start, start_of. pose proof (Z.mod_pos_bound ver_heap_chunks n Hn).
  rewrite Z.min_l by lia. lia.
Qed.

(** Positions in row order are unique. *)
Lemma row_order_inj nv w h w' h' : 0 ≤ h < nv → 0 ≤ h' < nv → w * nv + h = w' * nv + h' → w = w' ∧ h = h'.
Proof. intros H H' E. assert (w = w') as -> by nia. split; [done|lia]. Qed.

Lemma layout_disjoint n nv s : 0 < n → 0 ≤ nv → layout_ok n nv s → heaps_disjoint s.
Proof.
  intros Hn Hnv [_ Hh Hv] i j page Hi Hj. unfold holds_page in *. rewrite in_chunk_spec in Hi, Hj.
  destruct i as [h|w h], j as [h'|w' h']; simpl in *; unfold heap_at, ver_heap_at, chunk_of in *.
  - destruct (heaps s !! h) as [c|] eqn:E, (heaps s !! h') as [c'|] eqn:E'; simpl in *; try lia.
    apply Hh in E as (? & B & En & ?), E' as (? & B' & En' & ?). f_equal.
    destruct (Z.lt_trichotomy h h') as [Hlt|[->|Hgt]]; [exfalso|done|exfalso].
    + pose proof (heap_start_mono n (h + 1) h' Hn ltac:(lia)). lia.
    + pose proof (heap_start_mono n (h' + 1) h Hn ltac:(lia)). lia.
  - exfalso. destruct (heaps s !! h) as [c|] eqn:E, (versioned_heaps s !! (w', h')) as [c'|] eqn:E';
      simpl in *; try lia.
    apply Hh in E as (? & B & En & ?). apply Hv in E' as (? & ? & B' & En' & ?).
    pose proof (heap_start_mono n (h + 1) n Hn ltac:(lia)) as Hx1. rewrite heap_start_total in Hx1 by done.
    pose proof (ver_heap_start_mono (nv * MAX_WORKERS) 0 (w' * nv + h') ltac:(unfold MAX_WORKERS; lia) ltac:(nia)) as Hx2.
    rewrite ver_heap_start_0 in Hx2 by (unfold MAX_WORKERS; lia).
    unfold SEPARATION_HEAP_BOUND, VER_SEPARATION_HEAP_BEGIN in *. lia.
  - exfalso. destruct (versioned_heaps s !! (w, h)) as [c|] eqn:E, (heaps s !! h') as [c'|] eqn:E';
      simpl in *; try lia.
    apply Hh in E' as (? & B & En & ?). apply Hv in E as (? & ? & B' & En' & ?).
    pose proof (heap_start_mono n (h' + 1) n Hn ltac:(lia)) as Hx1. rewrite heap_start_total in Hx1 by done.
    pose proof (ver_heap_start_mono (nv * MAX_WORKERS) 0 (w * nv + h) ltac:(unfold MAX_WORKERS; lia) ltac:(nia)) as Hx2.
    rewrite ver_heap_start_0 in Hx2 by (unfold MAX_WORKERS; lia).
    unfold SEPARATION_HEAP_BOUND, VER_SEPARATION_HEAP_BEGIN in *. lia.
  - destruct (versioned_heaps s !! (w, h)) as [c|] eqn:E, (versioned_heaps s !! (w', h')) as [c'|] eqn:E';
      simpl in *; try lia.
    apply Hv in E as (? & ? & B & En & ?), E' as (? & ? & B' & En' & ?).
    assert (0 < nv * MAX_WORKERS) as Ht by (unfold MAX_WORKERS; lia).
    destruct (Z.lt_trichotomy (w * nv + h) (w' * nv + h')) as [Hlt|[Heq|Hgt]]; [exfalso| |exfalso].
    + pose proof (ver_heap_start_mono _ (w * nv + h + 1) (w' * nv + h') Ht ltac:(lia)). lia.
    + by destruct (row_order_inj nv w h w' h' ltac:(lia) ltac:(lia) Heq) as [-> ->].
    + pose proof (ver_heap_start_mono _ (w' * nv + h' + 1) (w * nv + h) Ht ltac:(lia)). lia.
Qed.

(** The heap at position [k] in row order. *)
Definition fresh_heap (start : Z → Z) (k : Z) : heap_chunk := HeapChunk (start k) (start (k + 1)) (start k) (start k).

Section rows.
Context (nv b cs per rem : Z) (Hnv : 0 < nv) (Hrem : 0 ≤ rem).
Let start := start_of b cs per rem.

Definition row_step (i : Z) : gmap (Z * Z) heap_chunk * Z * Z → Z → gmap (Z * Z) heap_chunk * Z * Z :=
  λ '(t, n, idx) j,
    let sz := per * cs in
    let sz := if idx <? rem then sz + cs else sz in
    (<[(i, j) := HeapChunk n (n + sz) n n]> t, n + sz, idx + 1).

(** The table after the first [k] heaps in row order. *)
Definition rows_done (t : gmap (Z * Z) heap_chunk) (k : Z) : Prop :=
  ∀ w h, t !! (w, h) =
    if decide (0 ≤ w ∧ 0 ≤ h < nv ∧ w * nv + h < k) then Some (fresh_heap start (w * nv + h)) else None.

Lemma row_step_done i j t : 0 ≤ i → 0 ≤ j < nv → rows_done t (i * nv + j) →
  ∃ t', row_step i (t, start (i * nv + j), i * nv + j) j =
    (t', start (i * nv + j + 1), i * nv + j + 1) ∧ rows_done t' (i * nv + j + 1).
Proof.
  intros Hi Hj Ht. simpl.
  assert (start (i * nv + j) + (if i * nv + j <? rem then per * cs + cs else per * cs) =
          start (i * nv + j + 1)) as E.
  { unfold start, start_of. destruct (Z.ltb_spec (i * nv + j) rem);
      [rewrite !Z.min_l by lia|rewrite !Z.min_r by lia]; lia. }
  rewrite E. eexists. split; [done|]. intros w h. destruct (decide ((i, j) = (w, h))) as [[= <- <-]|Hne].
  - rewrite lookup_insert_eq, decide_True by lia. done.
  - rewrite lookup_insert_ne, Ht by done.
    destruct (decide (0 ≤ w ∧ 0 ≤ h < nv ∧ w * nv + h < i * nv + j)) as [H|H].
    + rewrite decide_True by lia. done.
    + rewrite decide_False; [done|]. intros (Hw & Hh & Hlt).
      destruct (row_order_inj nv w h i j); [done|done|lia|]. subst. by apply Hne.
Qed.

Lemma row_done i t k : 0 ≤ i → 0 ≤ k → k ≤ nv → rows_done t (i * nv) →
  ∃ t', foldl (row_step i) (t, start (i * nv), i * nv) (seqZ 0 k) = (t', start (i * nv + k), i * nv + k) ∧
    rows_done t' (i * nv + k).
Proof.
  intros Hi Hk. revert k Hk. apply (Z_up_ind (λ k, _ → _ → _)).
  - intros _ Ht. exists t. by rewrite Z.add_0_r.
  - intros k Hk IH Hle Ht. destruct (IH ltac:(lia) Ht) as (t1 & E1 & H1).
    rewrite seqZ_snoc, foldl_app, E1, Z.add_0_l by lia. cbn [foldl]. rewrite Z.add_assoc.
    apply row_step_done; [done|lia|done].
Qed.

Lemma rows_all m : 0 ≤ m →
  ∃ t, foldl (λ st i, foldl (row_step i) st (seqZ 0 nv)) (∅, b, 0) (seqZ 0 m) = (t, start (m * nv), m * nv) ∧
    rows_done t (m * nv).
Proof.
  intros Hm. revert m Hm. apply Z_up_ind.
  - exists ∅. split.
    + simpl. unfold start, start_of. rewrite Z.min_l by lia. f_equal. f_equal. lia.
    + intros w h. rewrite lookup_empty, decide_False by nia. done.
  - intros m Hm (t & E & Ht). rewrite seqZ_snoc, foldl_app, E, Z.add_0_l by lia. cbn [foldl].
    destruct (row_done m t nv Hm ltac:(lia) ltac:(lia) Ht) as (t' & E' & Ht').
    exists t'. replace ((m + 1) * nv) with (m * nv + nv) by lia. done.
Qed.
End rows.

Lemma versioned_init_rows nv : 0 < nv → nv * MAX_WORKERS < 2 ^ 32 →
  rows_done nv VER_SEPARATION_HEAP_BEGIN SEPARATION_HEAP_CHUNKSIZE
    (ver_heap_chunks / (nv * MAX_WORKERS)) (ver_heap_chunks mod (nv * MAX_WORKERS))
    (versioned_init nv) (MAX_WORKERS * nv).
Proof.
  intros Hnv Hmax. assert (0 < nv * MAX_WORKERS) as Ht by (unfold MAX_WORKERS; lia).
  unfold versioned_init. cbv zeta. fold ver_heap_chunks. rewrite (wrap_small 32 (nv * MAX_WORKERS)) by lia.
  pose proof (Z.mod_pos_bound ver_heap_chunks _ Ht) as Hm.
  assert (0 ≤ ver_heap_chunks / (nv * MAX_WORKERS) < 2 ^ 32) as Hd.
  { split; [by apply Z.div_pos|]. apply Z.div_lt_upper_bound; [done|].
    assert (ver_heap_chunks = 2 ^ 31) as -> by done. nia. }
  rewrite (wrap_small 32 (ver_heap_chunks / _)) by lia. rewrite (wrap_small 32 (ver_heap_chunks mod _)) by lia.
  destruct (rows_all nv VER_SEPARATION_HEAP_BEGIN SEPARATION_HEAP_CHUNKSIZE
    (ver_heap_chunks / (nv * MAX_WORKERS)) (ver_heap_chunks mod (nv * MAX_WORKERS)) Hnv ltac:(lia) MAX_WORKERS
    ltac:(done)) as (t & E & H).
  unfold row_step in E. rewrite E. done.
Qed.

Lemma fresh_chunk_in start k : start k ≤ start (k + 1) → chunk_in (fresh_heap start k) (start k) (start (k + 1)).
Proof. intros H. unfold chunk_in, fresh_heap. simpl. split_and!; (done || lia). Qed.

Lemma separation_setup_layout n nv w : 0 < n < 2 ^ 32 → 0 ≤ nv → nv * MAX_WORKERS < 2 ^ 32 →
  versioned_heaps (p_sep (w_p w)) = ∅ →
  ∃ w', separation_setup n nv w = Ok tt w' ∧ layout_ok n nv (p_sep (w_p w')).
Proof.
  intros Hn Hnv Hmax H0. unfold separation_setup. cbv zeta. fold heap_chunks.
  pose proof (Z.mod_pos_bound heap_chunks n ltac:(lia)) as Hm.
  assert (0 ≤ heap_chunks / n < 2 ^ 32) as Hd.
  { split; [apply Z.div_pos; [done|lia]|]. apply Z.div_lt_upper_bound; [lia|].
    assert (heap_chunks = 2 ^ 31) as -> by done. nia. }
  rewrite (wrap_small 32 (heap_chunks / n)) by lia. rewrite (wrap_small 32 (heap_chunks mod n)) by lia.
  destruct (chunks_init_spec n SEPARATION_HEAP_BEGIN SEPARATION_HEAP_CHUNKSIZE (heap_chunks / n)
    (heap_chunks mod n)) as [_ Hc]; [lia|lia|].
  assert (∀ h c, (chunks_init n SEPARATION_HEAP_BEGIN SEPARATION_HEAP_CHUNKSIZE (heap_chunks / n)
      (heap_chunks mod n)).1 !! h = Some c → 0 ≤ h < n ∧ chunk_in c (heap_start n h) (heap_start n (h + 1))) as Hheaps.
  { intros h c E. destruct (decide (0 ≤ h < n)) as [Hh|Hh].
    - rewrite Hc in E by done. injection E as <-. split; [done|].
      apply (fresh_chunk_in (heap_start n)), heap_start_mono; lia.
    - exfalso. by rewrite chunks_init_none in E by lia. }
  destruct (Z.eqb_spec nv 0) as [->|Hne]; simpl; unfold when; simpl; run_w; (eexists; split; [reflexivity|]);
    split; simpl; try done.
  - intros h Hh. by rewrite Hc.
  - intros w' h c. by rewrite H0, lookup_empty.
  - intros h Hh. by rewrite Hc.
  - intros w' h c. rewrite (versioned_init_rows nv ltac:(lia) Hmax). destruct (decide _) as [Hr|]; [|done].
    intros [= <-]. unfold MAX_WORKERS in *. split; [nia|]. split; [lia|].
    apply (fresh_chunk_in (ver_heap_start (nv * (32 - 1)))), ver_heap_start_mono; lia.
Qed.

(** ** Allocation keeps the layout *)

Lemma layout_put n nv s h c c' : layout_ok n nv s → heaps s !! h = Some c →
  hc_begin c' = hc_begin c → hc_end c' = hc_end c → hc_begin c ≤ hc_next c' ≤ hc_end c →
  layout_ok n nv (set_heaps (<[h := c']> (heaps s)) s).
Proof.
  intros [Ha Hh Hv] E Eb Ee Hn. split; simpl; [| |exact Hv].
  - intros k Hk. destruct (decide (h = k)) as [->|]; [by rewrite lookup_insert_eq|].
    rewrite lookup_insert_ne by done. by apply Ha.
  - intros k d. destruct (decide (h = k)) as [->|]; [|rewrite lookup_insert_ne by done; apply Hh].
    rewrite lookup_insert_eq. intros [= <-]. apply Hh in E as (Hk & B & En & _).
    split; [done|]. unfold chunk_in. rewrite Eb, Ee. split_and!; (done || lia).
Qed.

Lemma heap_start_range n h : 0 < n → 0 ≤ h ≤ n → SEPARATION_HEAP_BEGIN ≤ heap_start n h ≤ SEPARATION_HEAP_BOUND.
Proof.
  intros Hn Hh. pose proof (heap_start_mono n 0 h Hn ltac:(lia)) as H1.
  pose proof (heap_start_mono n h n Hn ltac:(lia)) as H2. rewrite heap_start_total in H2 by done.
  unfold heap_start, start_of in H1. pose proof (Z.mod_pos_bound heap_chunks n Hn).
  rewrite Z.min_l in H1 by lia. unfold heap_start, start_of in *. lia.
Qed.

Lemma layout_get n nv s h : layout_ok n nv s → 0 ≤ h < n →
  ∃ c, heaps s !! h = Some c ∧ heap_at s h = c ∧ chunk_in c (heap_start n h) (heap_start n (h + 1)).
Proof.
  intros Hlo Hh. destruct (lo_all _ _ _ Hlo h Hh) as [c E]. exists c. split; [done|].
  unfold heap_at, chunk_of. rewrite E. split; [done|]. by apply (lo_heaps _ _ _ Hlo).
Qed.

Lemma separation_alloc_layout n nv size heap w :
  layout_ok n nv (p_sep (w_p w)) → nnvh (p_sep (w_p w)) = n → 0 < n → 0 ≤ heap → 0 ≤ size < 2 ^ 40 →
  holds (λ w', layout_ok n nv (p_sep (w_p w'))) (separation_heap_alloc size heap w).
Proof.
  intros Hlo Hnn Hn Hheap Hsz. unfold separation_heap_alloc, get_part, sep.
  unfold bind at 1, getp at 1, gets at 1. unfold bind at 1. rewrite Hnn.
  destruct (Z.ltb_spec heap n) as [Hlt|]; [|done]. simpl.
  destruct (layout_get n nv _ heap Hlo ltac:(lia)) as (c & Ec & Eat & B & En & Hr).
  unfold bind at 1, getp at 1, gets at 1. simpl. rewrite Eat. unfold bind at 1.
  pose proof (round_up_64 size ltac:(lia) ltac:(lia)) as [Hu _].
  pose proof (heap_start_range n heap Hn ltac:(lia)) as R1.
  pose proof (heap_start_range n (heap + 1) Hn ltac:(lia)) as R2.
  unfold SEPARATION_HEAP_BEGIN, SEPARATION_HEAP_BOUND in R1, R2.
  rewrite (wrap_small 64) by lia. destruct (Z.ltb_spec (hc_next c + ROUND_UP size ALIGNMENT) (hc_end c))
    as [Hroom|]; [|done]. simpl.
  apply holds_bind.
  - apply grow_inv; [done| |done]. intros t nc Ht. simpl.
    destruct (layout_get n nv _ heap Ht ltac:(lia)) as (d & Ed & Eatd & Hd). rewrite Eatd.
    eapply layout_put; [done|exact Ed|done|done|]. simpl. destruct Hd as (_ & _ & Hd). lia.
  - intros [|] t Ht; [|done]. unfold set_sep_size, put_part. run_w.
    destruct (layout_get n nv _ heap Ht ltac:(lia)) as (d & Ed & Eatd & Bd & End & Hd).
    set (s1 := set_separation_heap_size_map _ _).
    assert (layout_ok n nv s1) as H1 by (destruct Ht; by split).
    assert (heap_at s1 heap = d) as E1 by exact Eatd. rewrite E1.
    eapply (layout_put n nv s1 heap d); [done|exact Ed|done|done|]. simpl. lia.
Qed.

(** Heaps never overlap: the initialisation of the separation heaps
    (behind the assertion that disables it) gives every non-versioned heap and
    every versioned heap of every worker its own address range, allocation from the
    non-versioned heaps keeps
    this layout whatever its outcome, and under it no page belongs to two heaps. *)
Theorem separation_heaps_disjoint n nv w size heap :
  0 < n < 2 ^ 32 → 0 ≤ nv → nv * MAX_WORKERS < 2 ^ 32 → 0 ≤ heap → 0 ≤ size < 2 ^ 40 →
  (versioned_heaps (p_sep (w_p w)) = ∅ →
   ∃ w', separation_setup n nv w = Ok tt w' ∧ layout_ok n nv (p_sep (w_p w'))) ∧
  (layout_ok n nv (p_sep (w_p w)) →
   heaps_disjoint (p_sep (w_p w)) ∧
   (nnvh (p_sep (w_p w)) = n →
    holds (λ w', layout_ok n nv (p_sep (w_p w'))) (separation_malloc size heap w))).
Proof.
  intros Hn Hnv Hmax Hheap Hsz. split.
  - intros H0. by apply separation_setup_layout.
  - intros Hlo. split; [apply (layout_disjoint n nv); [lia|done|exact Hlo]|].
    intros Hnn. apply separation_alloc_layout; (done || lia).
Qed.

Definition demo_sep_world : world :=
  match separation_setup 2 1 (set_p (set_p_sep (set_nnvh 2 (set_nvh 1 separation0)) (w_p demo_world)) demo_world) with
  | Ok _ w => w
  | Stop _ w => w
  end.

Lemma demo_sep_layout : layout_ok 2 1 (p_sep (w_p demo_sep_world)).
Proof.
  unfold demo_sep_world.
  edestruct (separation_setup_layout 2 1) as (w' & E & H); [| | | |rewrite E; exact H]; [lia|lia|done|done].
Qed.

Lemma separation_heaps_disjoint_witness :
  heaps_disjoint (p_sep (w_p demo_sep_world)) ∧
  holds (λ w', layout_ok 2 1 (p_sep (w_p w'))) (separation_malloc 100 1 demo_sep_world).
Proof.
  destruct (separation_heaps_disjoint 2 1 demo_sep_world 100 1) as [_ H]; [lia|lia|done|lia|lia|].
  destruct (H demo_sep_layout) as [H1 H2]. split; [exact H1|]. apply H2. by vm_compute.
Defined.

(** Classification: when no heap is registered in two classes, a page is
    in at most one of the unclassified, read-only and no-read-before-write
    classes, and in none of them when it is private to a stage; the stage
    reported for a page is the lowest one it was registered for, and [-1] when
    there is none. *)
Theorem page_class_exclusive s page :
  heaps_disjoint s →
  let private j := (((λ t, default [] (t !! j)) <$> stage_private_regions s) : option (list Z)) in
  let ver_private j := (((λ t, default [] (t !! j)) <$> ver_stage_private_regions s) : option (list Z)) in
  exclusive (ro_regions s) (ver_ro_regions s) (nrbw_regions s) (ver_nrbw_regions s) →
  exclusive (ro_regions s) (ver_ro_regions s) (uc_regions s) (ver_uc_regions s) →
  exclusive (nrbw_regions s) (ver_nrbw_regions s) (uc_regions s) (ver_uc_regions s) →
  (∀ j, exclusive (private j) (ver_private j) (ro_regions s) (ver_ro_regions s) ∧
        exclusive (private j) (ver_private j) (nrbw_regions s) (ver_nrbw_regions s) ∧
        exclusive (private j) (ver_private j) (uc_regions s) (ver_uc_regions s)) →
  (is_in_ro s page = true → is_in_nrbw s page = false ∧ is_in_uc s page = false) ∧
  (is_in_nrbw s page = true → is_in_uc s page = false) ∧
  (is_in_stage_private s page = -1 ∧ (∀ j, 0 ≤ j < MAX_STAGE_NUM → stage_has s page j = false) ∨
   let j := is_in_stage_private s page in
   0 ≤ j < MAX_STAGE_NUM ∧ stage_has s page j = true ∧ (∀ k, 0 ≤ k < j → stage_has s page k = false) ∧
   is_in_ro s page = false ∧ is_in_nrbw s page = false ∧ is_in_uc s page = false).
Proof.
  intros Hd private ver_private H1 H2 H3 H4. split_and!.
  - intros H. split; [exact (not_in_both _ _ _ _ _ _ Hd H1 H)|exact (not_in_both _ _ _ _ _ _ Hd H2 H)].
  - intros H. exact (not_in_both _ _ _ _ _ _ Hd H3 H).
  - unfold is_in_stage_private. pose proof (find_seqZ (stage_has s page) MAX_STAGE_NUM ltac:(done)) as Hf.
    destruct (List.find _ _) as [j|]; [right|left; by split].
    destruct Hf as (Hj & Ht & Hl). destruct (H4 j) as (E1 & E2 & E3). unfold stage_has in Ht.
    split; [done|]. split; [done|]. split; [done|]. split_and!; [exact (not_in_both _ _ _ _ _ _ Hd E1 Ht)
      |exact (not_in_both _ _ _ _ _ _ Hd E2 Ht)|exact (not_in_both _ _ _ _ _ _ Hd E3 Ht)].
Qed.

(** Heap 0 is read-only, heap 1 private to stage 2; heap 1 has two pages. *)
Definition with_classes (s : separation) : separation :=
  let s' := set_heaps (<[1 := with_next (heap_at s 1) (heap_begin s 1 + 0x2000)]> (heaps s)) s in
  set_ver_stage_private_regions (Some ∅)
    (set_stage_private_regions (Some {[2 := [1]]}) (set_ro_regions (Some [0]) s')).
Definition demo_classes : separation := with_classes (p_sep (w_p demo_sep_world)).

Lemma exclusive_nil l lv r rv : r = Some [] → rv = Some [] → exclusive l lv r rv.
Proof.
  intros -> -> [h|v h] _ H; [by apply elem_of_nil in H|]. destruct H as [H _]. by apply elem_of_nil in H.
Qed.

Lemma with_classes_layout s : layout_ok 2 1 s → layout_ok 2 1 (with_classes s).
Proof.
  intros Hlo. destruct (layout_get 2 1 s 1 Hlo ltac:(lia)) as (c & Ec & Eat & B & En & Hn).
  assert (layout_ok 2 1 (set_heaps (<[1 := with_next (heap_at s 1) (heap_begin s 1 + 0x2000)]> (heaps s)) s))
    as [H1 H2 H3].
  { eapply (layout_put 2 1 _ 1 c); [exact Hlo|exact Ec|by rewrite Eat|by rewrite Eat|].
    cbn [hc_next with_next]. unfold heap_begin. rewrite Eat, En, B.
    assert (heap_start 2 1 + 0x2000 ≤ heap_start 2 (1 + 1)) by (by vm_compute). lia. }
  by split.
Qed.

Lemma demo_classes_disjoint : heaps_disjoint demo_classes.
Proof. apply (layout_disjoint 2 1); [lia|lia|]. apply with_classes_layout, demo_sep_layout. Qed.

Lemma page_class_exclusive_witness :
  let page := heap_begin demo_classes 1 + 0x1000 in
  is_in_stage_private demo_classes page = 2 ∧ is_in_ro demo_classes page = false.
Proof.
  intros page. assert (is_in_stage_private demo_classes page = 2) as E by (by vm_compute).
  split; [exact E|].
  destruct (page_class_exclusive demo_classes page demo_classes_disjoint) as (_ & _ & H).
  - by apply exclusive_nil; vm_compute.
  - by apply exclusive_nil; vm_compute.
  - by apply exclusive_nil; vm_compute.
  - intros j. split_and!; [|by apply exclusive_nil; vm_compute|by apply exclusive_nil; vm_compute].
    assert (stage_private_regions demo_classes = Some {[2 := [1]]}) as -> by (by vm_compute).
    assert (ver_stage_private_regions demo_classes = Some ∅) as -> by (by vm_compute).
    assert (ro_regions demo_classes = Some [0]) as -> by (by vm_compute).
    intros [h|v h]; simpl; [|intros [H' _] _; rewrite lookup_empty in H'; by apply elem_of_nil in H'].
    destruct (decide (2 = j)) as [<-|Hne].
    + rewrite lookup_singleton_eq. simpl. by intros ->%list_elem_of_singleton ?%list_elem_of_singleton.
    + rewrite lookup_singleton_ne by done. intros H'. by apply elem_of_nil in H'.
  - destruct H as [[H _]|(_ & _ & _ & H & _)]; [rewrite E in H; discriminate H|exact H].
Defined.
