(* ===== verification/Speculation.v ===== *)
(** Worker-private state, the parallel control block and misspeculation
    ([private.cpp], [pcb.cpp], [speculation.cpp], and the two setters of
    [smtx/smtx.cpp]). *)
From S2P Require Import Prelude Machine Strategy SwQueue Packet State Communicate.
From stdpp Require Import strings.
#[local] Open Scope Z_scope.

(** ** [pcb.cpp] *)

Definition init_pcb : W unit := modsh (set_the_pcb (Some pcb0)).

Definition get_pcb : W pcb :=
  let! p := getsh the_pcb in
  match p with
  | Some p => ret p
  | None => init_pcb ;;; ret pcb0
  end.

(** Assignments through the pointer that [get_pcb] returns. *)
Definition modpcb (f : pcb → pcb) : W unit :=
  let! p := get_pcb in modsh (set_the_pcb (Some (f p))).

Definition destroy_pcb : W unit := modsh (set_the_pcb None).

(** ** [private.cpp] and [smtx.cpp] *)

(** The processor affinity is not modelled. *)
Definition init_worker (current_iter wid : Z) : W unit :=
  assert_ (negb (wid =? MAIN_PROCESS_WID)) ;;;
  modp (set_worker_id wid) ;;;
  modp (set_current_iteration current_iter).

Definition get_pstage_replica_id : W Z := getp pstage_replica_id.
Definition set_pstage_replica_id_ (rep_id : Z) : W unit := modp (set_pstage_replica_id rep_id).

Definition reset_current_iter : W unit := modp (set_current_iteration 0).
Definition advance_iter : W unit := modp (λ p, set_current_iteration (i32 (current_iteration p + 1)) p).
Definition set_current_iter (iter : Z) : W unit := modp (set_current_iteration iter).

Definition set_try_commit_begin_ (wid : Z) : W unit :=
  let! t := ctl try_commit_begin in
  assert_ (t =? 0) ;;;
  modctl (set_try_commit_begin wid).
Definition reset_try_commit_begin : W unit := modctl (set_try_commit_begin 0).

Definition worker_finishes (exittaken : Z) : W unit :=
  let! wid := my_worker_id in
  assert_ (negb (wid =? MAIN_PROCESS_WID)) ;;;
  let! tcb := ctl try_commit_begin in
  when (wid <? tcb)
    (let! p := get_pcb in
     if negb (exit_taken p =? 0)
     then when (negb (wid =? 0)) (assert_ (exit_taken p =? exittaken))
     else modpcb (set_exit_taken exittaken)) ;;;
  broadcast_event wid 0xDEADBEEF 0 NULL WRITE EOW ;;;
  clear_incoming_queues wid ;;;
  halt (Exited 0).

(** ** [speculation.cpp] *)

(** The assignments of [misspec] to the control block. *)
Definition record_misspec (wid iter : Z) (msg : string) (p : pcb) : pcb :=
  let p := set_misspeculated_worker wid (set_misspeculation_happened 1 p) in
  let p := if (misspeculated_iteration p =? -1) || (iter <? misspeculated_iteration p)
           then set_misspeculated_iteration iter p else p in
  set_misspeculation_reason (Some msg) p.

Definition misspec (msg : string) : W unit :=
  let! iter := current_iter in
  let! wid := my_worker_id in
  modpcb (record_misspec wid iter msg) ;;;
  broadcast_event wid 0xDEADBEEF 0 NULL WRITE MISSPEC ;;;
  clear_incoming_queues wid ;;;
  if negb (wid =? MAIN_PROCESS_WID) then worker_finishes 0 else assert_ false.

Definition predict (observed expected : Z) : W unit :=
  if negb (observed =? expected) then misspec "Value prediction failed" else ret tt.

Definition last_committed : W Z := let! p := get_pcb in ret (last_committed_iteration p).
Definition misspec_iter : W Z := let! p := get_pcb in ret (misspeculated_iteration p).

Definition recovery_finished (e : Z) : W unit :=
  let! p := get_pcb in
  let mi := misspeculated_iteration p in
  modpcb (λ p, set_last_committed_iteration (-1) (set_misspeculation_reason None
    (set_misspeculated_iteration (-1) (set_misspeculated_worker 0 (set_misspeculation_happened 0 p))))) ;;;
  when (0 <? e) (modpcb (set_exit_taken e)) ;;;
  set_current_iter (i32 (mi + 1)).

Definition loop_invocation : W unit := modctl (λ c, set_invokedepth (u32 (invokedepth c + 1)) c).
Definition loop_exit : W unit := modctl (λ c, set_invokedepth (u32 (invokedepth c - 1)) c).

Definition push_context (ctxt : Z) : W unit :=
  let! d := ctl invokedepth in
  if 1 <? d then ret tt else modctl (set_callingcontext ctxt).
Definition pop_context : W unit :=
  let! d := ctl invokedepth in
  if 1 <? d then ret tt else modctl (set_callingcontext 0).
Definition get_context : W Z := ctl callingcontext.

(** ** Queues that are cleared *)

(** Every queue is a well-formed queue. *)
Definition queues_ok (s : shared) : Prop := ∀ c q, chan_get s c = Some q → ∃ vs, queue_holds q vs.

Lemma queues_ok_set s c q vs : queues_ok s → queue_holds q vs → queues_ok (chan_set c q s).
Proof.
  intros H Hq d r. rewrite chan_get_set. destruct (decide (c = d)); [intros [= <-]; eauto|]. apply H.
Qed.

(** The queues in [l] are emptied, the others keep their contents. *)
Record cleared (l : list chan) (w w' : world) : Prop := {
  cd_in c : c ∈ l → is_Some (chan_get (w_sh w) c) → chan_holds (w_sh w') c [];
  cd_out c vs : c ∉ l → chan_holds (w_sh w) c vs → chan_holds (w_sh w') c vs;
  cd_some c : is_Some (chan_get (w_sh w') c) ↔ is_Some (chan_get (w_sh w) c);
  cd_ok : queues_ok (w_sh w');
  cd_pools : sh_pools (w_sh w') = sh_pools (w_sh w);
  cd_pcb : the_pcb (w_sh w') = the_pcb (w_sh w);
  cd_proc : w_p w' = w_p w;
  cd_env : w_env w' = w_env w }.

(** One step of the loops of [clear_incoming_queues]: a missing queue is
    skipped. *)
Definition clear_if (c : chan) : W unit :=
  let! s := getsh id in
  match chan_get s c with Some _ => clear_chan c | None => ret tt end.

Lemma the_pcb_chan_set c q s : the_pcb (chan_set c q s) = the_pcb s.
Proof. by destruct c. Qed.

Lemma clear_if_cleared c w : queues_ok (w_sh w) → ∃ w', clear_if c w = Ok tt w' ∧ cleared [c] w w'.
Proof.
  intros Hok. unfold clear_if. run_w. destruct (chan_get (w_sh w) c) as [q|] eqn:E; simpl.
  - destruct (Hok c q E) as [vs Hvs]. destruct (clear_chan_spec c w vs) as (q' & -> & Hq'); [by exists q|].
    eexists. split; [done|]. split; simpl; rewrite ?chan_set_pools, ?the_pcb_chan_set; try done.
    + intros d ->%list_elem_of_singleton _. apply chan_holds_set. by rewrite decide_True.
    + intros d us Hd H. apply chan_holds_set. rewrite decide_False; [done|].
      intros ->. apply Hd. by apply list_elem_of_singleton.
    + intros d. rewrite chan_get_set. destruct (decide (c = d)) as [<-|]; [rewrite E; done|done].
    + by eapply queues_ok_set.
  - exists w. split; [done|]. split; try done.
    intros d ->%list_elem_of_singleton [q Hq]. congruence.
Qed.

Lemma cleared_trans l1 l2 w w1 w2 : cleared l1 w w1 → cleared l2 w1 w2 → cleared (l1 ++ l2) w w2.
Proof.
  intros [I1 O1 N1 K1 P1 C1 R1 E1] [I2 O2 N2 K2 P2 C2 R2 E2]. split; try congruence; auto.
  - intros c Hc Hs. destruct (decide (c ∈ l2)) as [H2|H2]; [apply I2; [done|by apply N1]|].
    apply O2; [done|]. apply elem_of_app in Hc as [Hc|Hc]; [|done]. by apply I1.
  - intros c vs [H1 H2]%not_elem_of_app H. auto.
  - intros c. by rewrite N2.
Qed.

Lemma cleared_nil w : queues_ok (w_sh w) → cleared [] w w.
Proof. intros H. split; try done. intros c Hc. by apply elem_of_nil in Hc. Qed.

Lemma clear_all l : ∀ w, queues_ok (w_sh w) → ∃ w', for_ l clear_if w = Ok tt w' ∧ cleared l w w'.
Proof.
  induction l as [|c l IH]; intros w Hok; simpl; [exists w; by split; [|apply cleared_nil]|].
  destruct (clear_if_cleared c w Hok) as (w1 & E1 & C1).
  destruct (IH w1 (cd_ok _ _ _ C1)) as (w2 & E2 & C2).
  exists w2. unfold bind. rewrite E1. split; [done|]. by apply (cleared_trans [c] l w w1).
Qed.

(** The queues a process reads from. *)
Definition incoming (tcb wid : Z) : list chan :=
  if wid <? tcb then (λ i, Ucvf i wid) <$> seqZ 0 wid
  else (λ i, ToTryCommit i (wid - tcb)) <$> seqZ 0 tcb.

Lemma clear_incoming_ok wid w :
  let tcb := try_commit_begin (p_ctl (w_p w)) in
  queues_ok (w_sh w) → (tcb ≤ wid → ∀ c, c ∈ incoming tcb wid → is_Some (chan_get (w_sh w) c)) →
  ∃ w', clear_incoming_queues wid w = Ok tt w' ∧ cleared (incoming tcb wid) w w'.
Proof.
  intros tcb Hok Hex. destruct (clear_all (incoming tcb wid) w Hok) as (w' & E & C).
  exists w'. split; [|done]. rewrite <-E. unfold clear_incoming_queues, incoming. run_w. fold tcb.
  destruct (Z.ltb_spec wid tcb) as [Hlt|Hge]; [by rewrite for_fmap|]. rewrite for_fmap.
  specialize (Hex Hge). unfold incoming in Hex. rewrite (proj2 (Z.ltb_ge _ _) Hge) in Hex. clear E C w'.
  assert (∀ l, (∀ i, i ∈ l → is_Some (chan_get (w_sh w) (ToTryCommit i (wid - tcb)))) → ∀ t,
    queues_ok (w_sh t) → (∀ c, is_Some (chan_get (w_sh t) c) ↔ is_Some (chan_get (w_sh w) c)) →
    for_ l (λ i, clear_chan (ToTryCommit i (wid - tcb))) t =
    for_ l (λ i, clear_if (ToTryCommit i (wid - tcb))) t) as H; [|apply H; try done].
  - induction l as [|i l IH]; intros Hl t Hok' Hs; simpl; [done|].
    destruct (clear_if_cleared (ToTryCommit i (wid - tcb)) t Hok') as (t' & E & C). unfold bind.
    rewrite E. destruct (proj2 (Hs (ToTryCommit i (wid - tcb)))) as [q Hq].
    { apply Hl, elem_of_cons. by left. }
    unfold clear_if in E. revert E. run_w. simpl in Hq. rewrite Hq. intros ->. apply IH.
    + intros j Hj. apply Hl, elem_of_cons. by right.
    + apply C.
    + intros c. rewrite (cd_some _ _ _ C). apply Hs.
  - intros i Hi. apply Hex, list_elem_of_fmap. eauto.
Qed.

(** ** Misspeculation *)

(** Recording a sequence of misspeculations. *)
Definition record_all (events : list (Z * Z * string)) (p : pcb) : pcb :=
  foldl (λ p '(wid, iter, msg), record_misspec wid iter msg p) p events.

(** Whatever the order in which workers report misspeculation, the control
    block ends with the earliest of the reported iterations, and with the worker
    and reason of the last report. *)
Theorem record_earliest events last p :
  Forall (λ '(_, iter, _), 0 ≤ iter) (events ++ [last]) → misspeculated_iteration p = -1 →
  let q := record_all (events ++ [last]) p in
  misspeculation_happened q = 1 ∧ misspeculated_worker q = last.1.1 ∧
  misspeculation_reason q = Some last.2 ∧
  misspeculated_iteration q ∈ (events ++ [last]).*1.*2 ∧
  (∀ iter, iter ∈ (events ++ [last]).*1.*2 → misspeculated_iteration q ≤ iter) ∧
  exit_taken q = exit_taken p ∧ last_committed_iteration q = last_committed_iteration p.
Proof.
  intros Hpos Hp.
  assert (∀ evs, Forall (λ '(_, iter, _), 0 ≤ iter) evs →
    let q := record_all evs p in
    (misspeculated_iteration q = -1 ∧ evs = [] ∨ 0 ≤ misspeculated_iteration q) ∧
    (evs ≠ [] → misspeculated_iteration q ∈ evs.*1.*2) ∧
    (∀ iter, iter ∈ evs.*1.*2 → misspeculated_iteration q ≤ iter) ∧
    exit_taken q = exit_taken p ∧ last_committed_iteration q = last_committed_iteration p) as H.
  { induction evs as [|[[w i] m] evs IH] using rev_ind; intros Hall; simpl.
    - split_and!; try done; [by left|]. intros iter Hi. by apply elem_of_nil in Hi.
    - apply Forall_app in Hall as [Hall Hi]. rewrite Forall_singleton in Hi. simpl in Hi.
      destruct (IH Hall) as (Hst & Hin & Hmin & He & Hl). unfold record_all in *. rewrite foldl_app.
      set (q := foldl _ p evs) in *. simpl. rewrite !fmap_app. simpl.
      unfold record_misspec. simpl.
      destruct ((misspeculated_iteration q =? -1) || (i <? misspeculated_iteration q)) eqn:E; simpl.
      + split_and!; try done; [by right| |].
        * intros _. apply elem_of_app. right. by apply list_elem_of_singleton.
        * intros iter [Hiter| ->%list_elem_of_singleton]%elem_of_app; [|lia].
          specialize (Hmin iter Hiter). destruct Hst as [[Hst ->]|Hst]; [by apply elem_of_nil in Hiter|]. lia.
      + split_and!; try done; [right; lia| |].
        * intros _. apply elem_of_app. left. apply Hin. intros ->. destruct Hst as [[Hst _]|Hst]; [lia|].
          unfold q in *. simpl in *. lia.
        * intros iter [Hiter| ->%list_elem_of_singleton]%elem_of_app; [by apply Hmin|lia]. }
  destruct (H _ Hpos) as (_ & Hin & Hmin & He & Hl). intros q.
  assert (q = record_misspec last.1.1 last.1.2 last.2 (record_all events p)) as Eq.
  { unfold q, record_all. rewrite foldl_app. by destruct last as [[??]?]. }
  split_and!; try done.
  - rewrite Eq. unfold record_misspec. by destruct (_ || _).
  - rewrite Eq. unfold record_misspec. by destruct (_ || _).
  - rewrite Eq. done.
  - apply Hin. by destruct events.
Qed.

Lemma record_earliest_witness :
  let p := set_misspeculated_iteration (-1) pcb0 in
  misspeculated_iteration (record_all ([(0, 7, "a"%string); (2, 5, "b"%string)] ++ [(1, 9, "c"%string)]) p) ≤ 5.
Proof.
  intros p.
  destruct (record_earliest [(0, 7, "a"%string); (2, 5, "b"%string)] (1, 9, "c"%string) p) as (_ & _ & _ & _ & H & _).
  - repeat (apply List.Forall_cons; [lia|]). apply List.Forall_nil.
  - done.
  - apply H. simpl. apply elem_of_cons. right. apply elem_of_cons. by left.
Defined.

(** ** The last messages of a misspeculating worker *)

Definition set_pcb (p : pcb) (w : world) : world := set_sh (set_the_pcb (Some p) (w_sh w)) w.

Lemma chan_get_pcb p s c : chan_get (set_the_pcb p s) c = chan_get s c.
Proof. by destruct c. Qed.

Lemma modpcb_ok f p w : the_pcb (w_sh w) = Some p → modpcb f w = Ok tt (set_pcb (f p) w).
Proof. intros E. unfold modpcb, get_pcb. run_w. by rewrite E. Qed.

Lemma chan_holds_pcb p w c vs : chan_holds (w_sh (set_pcb p w)) c vs ↔ chan_holds (w_sh w) c vs.
Proof. unfold chan_holds, set_pcb. simpl. by rewrite chan_get_pcb. Qed.

Lemma queues_ok_pcb p w : queues_ok (w_sh w) → queues_ok (w_sh (set_pcb p w)).
Proof. intros H c q. unfold set_pcb. simpl. rewrite chan_get_pcb. apply H. Qed.

Lemma delivered_queues_ok w w' wid cs ptr value size wr ty :
  delivered w w' wid cs ptr value size wr ty → queues_ok (w_sh w) → queues_ok (w_sh w').
Proof.
  intros D Hok c q Hq. destruct (proj1 (dl_some _ _ _ _ _ _ _ _ _ D c) ltac:(eauto)) as [q0 Hq0].
  destruct (Hok c q0 Hq0) as [vs Hvs]. assert (chan_holds (w_sh w) c vs) as Hh by (by exists q0).
  destruct (decide (c ∈ cs)) as [Hc|Hc].
  - destruct (dl_in _ _ _ _ _ _ _ _ _ D c vs Hc Hh) as (e & sg & _ & (q1 & E1 & H1) & _).
    rewrite Hq in E1. injection E1 as <-. eauto.
  - destruct (dl_out _ _ _ _ _ _ _ _ _ D c vs Hc Hh) as (q1 & E1 & H1).
    rewrite Hq in E1. injection E1 as <-. eauto.
Qed.

(** Room for [k] more values in each queue. *)
Definition chans_room (w : world) (cs : list chan) (k : Z) : Prop :=
  ∀ c, c ∈ cs → ∃ vs, chan_holds (w_sh w) c vs ∧ lenZ vs + k ≤ PAIRS.

Lemma chans_room_ready w cs k : 1 ≤ k → chans_room w cs k → chans_ready w cs.
Proof. intros Hk H c Hc. destruct (H c Hc) as (vs & ? & ?). exists vs. split; [done|lia]. Qed.

(** What a worker does after its last useful step: one broadcast, then its
    incoming queues are emptied. *)
Record signed_off (w w' : world) (wid type : Z) : Prop := {
  so_mid : ∃ w1, delivered w w1 wid
      (broadcast_targets (e_strategy (w_env w)) (num_aux_workers (p_ctl (w_p w))) wid)
      0xDEADBEEF NULL 0 WRITE type ∧
    cleared (incoming (try_commit_begin (p_ctl (w_p w))) wid) w1 w' }.

Lemma sign_off w wid type : worker_ok w wid → queues_ok (w_sh w) →
  let cs := broadcast_targets (e_strategy (w_env w)) (num_aux_workers (p_ctl (w_p w))) wid in
  pool_room (sh_pools (w_sh w)) wid (lenZ cs) → chans_ready w cs →
  ∃ w', (broadcast_event wid 0xDEADBEEF 0 NULL WRITE type ;;; clear_incoming_queues wid) w = Ok tt w' ∧
    signed_off w w' wid type.
Proof.
  intros Hw Hok cs Hroom Hready.
  destruct (broadcast_event_run w wid 0xDEADBEEF 0 NULL WRITE type Hw Hroom Hready) as (w1 & E1 & D1).
  pose proof (dl_proc _ _ _ _ _ _ _ _ _ D1) as Ep.
  destruct (clear_incoming_ok wid w1) as (w2 & E2 & C2).
  { by eapply delivered_queues_ok. } { rewrite Ep. destruct Hw as [_ [_ Hlt] _ _]. lia. }
  exists w2. unfold bind. rewrite E1, E2. split; [done|]. split. exists w1. split; [done|]. by rewrite <-Ep.
Qed.

Lemma incoming_not_target w wid cs c : worker_ok w wid →
  cs = broadcast_targets (e_strategy (w_env w)) (num_aux_workers (p_ctl (w_p w))) wid →
  c ∈ cs → c ∉ incoming (try_commit_begin (p_ctl (w_p w))) wid.
Proof.
  intros [_ [_ Hlt] _ _] -> Hc. unfold incoming. rewrite (proj2 (Z.ltb_lt _ _) Hlt).
  intros (i & -> & Hi)%list_elem_of_fmap. apply elem_of_seqZ in Hi.
  unfold broadcast_targets in Hc. apply elem_of_app in Hc as [Hc|Hc].
  - apply list_elem_of_bind in Hc as (s & Hc & _). apply list_elem_of_fmap in Hc as (j & [= ??] & _). lia.
  - by apply list_elem_of_fmap in Hc as (j & ? & _).
Qed.

(** The packet that a target finds at the end of its queue. *)
Lemma signed_off_in w w' wid type c vs : worker_ok w wid → signed_off w w' wid type →
  let cs := broadcast_targets (e_strategy (w_env w)) (num_aux_workers (p_ctl (w_p w))) wid in
  c ∈ cs → chan_holds (w_sh w) c vs →
  ∃ e sg, 0 ≤ e < lenZ cs ∧ let i := nth_from (packet_next (sh_pools (w_sh w)) wid) e in
    chan_holds (w_sh w') c (vs ++ [WPacket wid i]) ∧
    get_packet (sh_pools (w_sh w')) wid i = Packet 0xDEADBEEF NULL 0 WRITE type sg.
Proof.
  intros Hw [(w1 & D & C)] cs Hc Hh.
  destruct (dl_in _ _ _ _ _ _ _ _ _ D c vs Hc Hh) as (e & sg & He & H1 & H2).
  exists e, sg. split; [done|]. split.
  - apply (cd_out _ _ _ C); [|done]. by eapply incoming_not_target.
  - by rewrite (cd_pools _ _ _ C).
Qed.

Lemma signed_off_frame w w' wid type : signed_off w w' wid type →
  w_p w' = w_p w ∧ w_env w' = w_env w ∧ the_pcb (w_sh w') = the_pcb (w_sh w) ∧ queues_ok (w_sh w').
Proof.
  intros [(w1 & [_ _ _ _ _ _ _ Hr Hp He] & [_ _ _ Hok _ Hpcb Hp' He'])].
  unfold rest_of in Hr. injection Hr as Hr1 _ _ _. split_and!; (done || congruence).
Qed.

Lemma signed_off_room w w' wid type k : worker_ok w wid → signed_off w w' wid type →
  let cs := broadcast_targets (e_strategy (w_env w)) (num_aux_workers (p_ctl (w_p w))) wid in
  pool_room (sh_pools (w_sh w)) wid (lenZ cs + k) → 0 ≤ k → chans_room w cs 2 →
  pool_room (sh_pools (w_sh w')) wid k ∧ chans_ready w' cs.
Proof.
  intros Hw Hso cs Hroom Hk Hch. pose proof Hso as [(w1 & D & C)]. split.
  - rewrite (cd_pools _ _ _ C). replace k with (lenZ cs + k - lenZ cs) by lia.
    eapply delivered_room; [exact D|exact Hroom|fold cs; lia].
  - intros c Hc. destruct (Hch c Hc) as (vs & Hh & Hlen).
    destruct (signed_off_in w w' wid type c vs Hw Hso Hc Hh) as (e & sg & _ & H & _).
    eexists. split; [exact H|]. rewrite lenZ_app. lia.
Qed.

Lemma set_pcb_worker_ok p w wid : worker_ok w wid → worker_ok (set_pcb p w) wid.
Proof. intros [? ? ? ?]. by split. Qed.

(** The control block that a worker leaves when it misspeculates. *)
Definition misspec_pcb (w : world) (msg : string) (p : pcb) : pcb :=
  record_misspec (worker_id (w_p w)) (current_iteration (w_p w)) msg p.

Lemma set_exit_taken_id p : set_exit_taken (exit_taken p) p = p.
Proof. by destruct p. Qed.

Lemma exit_taken_record wid iter msg p : exit_taken (record_misspec wid iter msg p) = exit_taken p.
Proof. unfold record_misspec. by destruct (_ || _). Qed.

Lemma set_pcb_id p w : the_pcb (w_sh w) = Some p → set_pcb p w = w.
Proof. destruct w as [[] ? ?]. unfold set_pcb, set_sh. simpl. by intros ->. Qed.

Lemma set_pcb_chans p w cs k : chans_room w cs k → chans_room (set_pcb p w) cs k.
Proof. intros H c Hc. destruct (H c Hc) as (vs & ? & ?). exists vs. by rewrite chan_holds_pcb. Qed.

Lemma signed_off_some w w' wid type c : signed_off w w' wid type →
  is_Some (chan_get (w_sh w') c) ↔ is_Some (chan_get (w_sh w) c).
Proof. intros [(w1 & D & C)]. rewrite (cd_some _ _ _ C). apply (dl_some _ _ _ _ _ _ _ _ _ D). Qed.

Lemma signed_off_empty w w' wid type c : signed_off w w' wid type →
  c ∈ incoming (try_commit_begin (p_ctl (w_p w))) wid → is_Some (chan_get (w_sh w) c) →
  chan_holds (w_sh w') c [].
Proof.
  intros [(w1 & D & C)] Hc Hs. apply (cd_in _ _ _ C); [done|]. by apply (dl_some _ _ _ _ _ _ _ _ _ D).
Qed.

(** How a worker ends when the exits agree. *)
Lemma worker_finishes_run w p x :
  let wid := worker_id (w_p w) in
  worker_ok w wid → queues_ok (w_sh w) → the_pcb (w_sh w) = Some p →
  let cs := broadcast_targets (e_strategy (w_env w)) (num_aux_workers (p_ctl (w_p w))) wid in
  pool_room (sh_pools (w_sh w)) wid (lenZ cs) → chans_room w cs 1 →
  exit_taken p = 0 ∨ wid = 0 ∨ exit_taken p = x →
  let p' := if exit_taken p =? 0 then set_exit_taken x p else p in
  ∃ w', worker_finishes x w = Stop (Exited 0) w' ∧ signed_off (set_pcb p' w) w' wid EOW.
Proof.
  intros wid Hw Hok Hp cs Hroom Hch Hex p'.
  destruct (sign_off (set_pcb p' w) wid EOW) as (w' & E & S);
    [by apply set_pcb_worker_ok|by apply queues_ok_pcb|exact Hroom|
     apply (chans_room_ready _ _ 1); [lia|by apply set_pcb_chans]|].
  exists w'. split; [|done]. unfold worker_finishes. unfold bind at 1, my_worker_id, getp at 1, gets at 1.
  fold wid. unfold bind at 1. rewrite (proj2 (Z.eqb_neq _ _) (worker_not_main _ _ Hw)). simpl.
  unfold bind at 1, ctl, getp at 1, gets at 1. rewrite (proj2 (Z.ltb_lt _ _) (proj2 (wo_wid _ _ Hw))). simpl.
  unfold bind at 1. assert ((let! p0 := get_pcb in
     if negb (exit_taken p0 =? 0) then when (negb (wid =? 0)) (assert_ (exit_taken p0 =? x))
     else modpcb (set_exit_taken x)) w = Ok tt (set_pcb p' w)) as ->.
  { unfold bind, get_pcb. run_w. rewrite Hp. simpl. unfold p'.
    destruct (Z.eqb_spec (exit_taken p) 0) as [E0|E0]; simpl; [by rewrite (modpcb_ok _ p w)|].
    rewrite set_pcb_id by done. destruct (Z.eqb_spec wid 0) as [|Hne]; [done|]. simpl.
    destruct Hex as [|[|Hx]]; [done|done|]. by rewrite Hx, Z.eqb_refl. }
  unfold bind in E. unfold bind at 1. destruct (broadcast_event _ _ _ _ _ _ _) as [? w1|]; [|done].
  unfold bind. by rewrite E.
Qed.

Lemma worker_finishes_disagree w p x :
  let wid := worker_id (w_p w) in
  worker_ok w wid → the_pcb (w_sh w) = Some p → exit_taken p ≠ 0 → wid ≠ 0 → exit_taken p ≠ x →
  worker_finishes x w = Stop AssertFail w.
Proof.
  intros wid Hw Hp H1 H2 H3. unfold worker_finishes. unfold bind at 1, my_worker_id, getp at 1, gets at 1.
  fold wid. unfold bind at 1. rewrite (proj2 (Z.eqb_neq _ _) (worker_not_main _ _ Hw)). simpl.
  unfold bind at 1, ctl, getp at 1, gets at 1. rewrite (proj2 (Z.ltb_lt _ _) (proj2 (wo_wid _ _ Hw))). simpl.
  unfold bind at 1. unfold bind at 1, get_pcb. run_w. rewrite Hp. simpl.
  rewrite (proj2 (Z.eqb_neq _ _) H1), (proj2 (Z.eqb_neq _ _) H2). simpl.
  by rewrite (proj2 (Z.eqb_neq _ _) H3).
Qed.

(** Up to its end, [misspec] records and signs off with MISSPEC. *)
Lemma misspec_run w p msg :
  let wid := worker_id (w_p w) in
  worker_ok w wid → queues_ok (w_sh w) → the_pcb (w_sh w) = Some p →
  let cs := broadcast_targets (e_strategy (w_env w)) (num_aux_workers (p_ctl (w_p w))) wid in
  pool_room (sh_pools (w_sh w)) wid (lenZ cs) → chans_room w cs 1 →
  ∃ w', misspec msg w = worker_finishes 0 w' ∧
    signed_off (set_pcb (misspec_pcb w msg p) w) w' wid MISSPEC.
Proof.
  intros wid Hw Hok Hp cs Hroom Hch.
  destruct (sign_off (set_pcb (misspec_pcb w msg p) w) wid MISSPEC) as (w' & E & S);
    [by apply set_pcb_worker_ok|by apply queues_ok_pcb|exact Hroom|
     apply (chans_room_ready _ _ 1); [lia|by apply set_pcb_chans]|].
  exists w'. split; [|done]. unfold misspec. unfold bind at 1, current_iter, getp at 1, gets at 1.
  unfold bind at 1, my_worker_id, getp at 1, gets at 1. unfold bind at 1.
  rewrite (modpcb_ok _ p w Hp). fold (misspec_pcb w msg p). fold wid. unfold bind in E. unfold bind at 1.
  destruct (broadcast_event wid _ _ _ _ _ _) as [? w1|]; [|done].
  unfold bind. rewrite E. by rewrite (proj2 (Z.eqb_neq _ _) (worker_not_main _ _ Hw)).
Qed.

(** Two sign-offs leave two packets. *)
Lemma signed_off_twice w w1 p1 w2 wid t1 t2 c vs :
  worker_ok w wid → signed_off w w1 wid t1 → signed_off (set_pcb p1 w1) w2 wid t2 →
  let cs := broadcast_targets (e_strategy (w_env w)) (num_aux_workers (p_ctl (w_p w))) wid in
  2 * lenZ cs ≤ PACKET_POOL_SIZE → c ∈ cs → chan_holds (w_sh w) c vs →
  ∃ i j sg sg', chan_holds (w_sh w2) c (vs ++ [WPacket wid i; WPacket wid j]) ∧
    get_packet (sh_pools (w_sh w2)) wid i = Packet 0xDEADBEEF NULL 0 WRITE t1 sg ∧
    get_packet (sh_pools (w_sh w2)) wid j = Packet 0xDEADBEEF NULL 0 WRITE t2 sg'.
Proof.
  intros Hw S1 S2 cs Hsz Hc Hh. destruct (signed_off_frame _ _ _ _ S1) as (Fp & Fe & _ & _).
  destruct (signed_off_in w w1 wid t1 c vs Hw S1 Hc Hh) as (e & sg & He & H1 & H2). fold cs in He.
  assert (broadcast_targets (e_strategy (w_env (set_pcb p1 w1))) (num_aux_workers (p_ctl (w_p (set_pcb p1 w1)))) wid
    = cs) as Ecs by (simpl; by rewrite Fp, Fe).
  assert (worker_ok (set_pcb p1 w1) wid) as Hw1.
  { destruct Hw as [? ? ? ?]. apply set_pcb_worker_ok. split; by rewrite ?Fp, ?Fe. }
  destruct (signed_off_in _ _ _ _ c
    (vs ++ [WPacket wid (nth_from (packet_next (sh_pools (w_sh w)) wid) e)]) Hw1 S2)
    as (e' & sg' & He' & H3 & H4); [by rewrite Ecs|apply chan_holds_pcb; exact H1|].
  rewrite <-app_assoc in H3. eexists _, _, sg, sg'. split; [exact H3|]. split; [|exact H4].
  destruct S1 as [(v1 & D1 & C1)], S2 as [(v2 & D2 & C2)]. rewrite Ecs in D2.
  rewrite (cd_pools _ _ _ C2), (dl_frame _ _ _ _ _ _ _ _ _ D2); [exact H2|].
  intros e2 He2 [= Heq]. simpl in Heq. rewrite (cd_pools _ _ _ C1), (dl_next _ _ _ _ _ _ _ _ _ D1) in Heq.
  fold cs in Heq. rewrite nth_from_add in Heq. revert Heq. apply nth_from_neq; lia.
Qed.

(** [C37] A worker that misspeculates never returns to the loop.  It records the
    misspeculation in the control block, appends a MISSPEC packet to the queue of
    every worker of a later stage and of every try-commit unit, and empties the
    queues it reads from.  If no worker recorded an exit before, or it is worker 0,
    it also appends an end-of-worker packet to each of these queues and its process
    exits; otherwise it stops at the assertion in [worker_finishes], without the
    end-of-worker packets. *)
Theorem misspec_protocol w p msg :
  let wid := worker_id (w_p w) in
  worker_ok w wid → queues_ok (w_sh w) → the_pcb (w_sh w) = Some p →
  let cs := broadcast_targets (e_strategy (w_env w)) (num_aux_workers (p_ctl (w_p w))) wid in
  pool_room (sh_pools (w_sh w)) wid (2 * lenZ cs) → chans_room w cs 2 →
  (exit_taken p = 0 ∨ wid = 0 →
   ∃ w', misspec msg w = Stop (Exited 0) w' ∧ the_pcb (w_sh w') = Some (misspec_pcb w msg p) ∧
     (∀ c vs, c ∈ cs → chan_holds (w_sh w) c vs → ∃ i j sg sg',
        chan_holds (w_sh w') c (vs ++ [WPacket wid i; WPacket wid j]) ∧
        get_packet (sh_pools (w_sh w')) wid i = Packet 0xDEADBEEF NULL 0 WRITE MISSPEC sg ∧
        get_packet (sh_pools (w_sh w')) wid j = Packet 0xDEADBEEF NULL 0 WRITE EOW sg') ∧
     (∀ c, c ∈ incoming (try_commit_begin (p_ctl (w_p w))) wid → is_Some (chan_get (w_sh w) c) →
        chan_holds (w_sh w') c [])) ∧
  (exit_taken p ≠ 0 ∧ wid ≠ 0 →
   ∃ w', misspec msg w = Stop AssertFail w' ∧ the_pcb (w_sh w') = Some (misspec_pcb w msg p) ∧
     (∀ c vs, c ∈ cs → chan_holds (w_sh w) c vs → ∃ i sg,
        chan_holds (w_sh w') c (vs ++ [WPacket wid i]) ∧
        get_packet (sh_pools (w_sh w')) wid i = Packet 0xDEADBEEF NULL 0 WRITE MISSPEC sg) ∧
     (∀ c, c ∈ incoming (try_commit_begin (p_ctl (w_p w))) wid → is_Some (chan_get (w_sh w) c) →
        chan_holds (w_sh w') c [])).
Proof.
  intros wid Hw Hok Hp cs Hroom Hch. assert (0 ≤ lenZ cs) as Hpos by (unfold lenZ; lia).
  destruct (misspec_run w p msg Hw Hok Hp) as (w1 & E1 & S1).
  { eapply pool_room_le; [exact Hroom|fold wid cs; lia]. }
  { intros c Hc. destruct (Hch c Hc) as (vs & ? & ?). exists vs. split; [done|lia]. }
  fold wid in S1. set (w0 := set_pcb (misspec_pcb w msg p) w) in *.
  assert (worker_ok w0 wid) as Hw0 by (by apply set_pcb_worker_ok).
  destruct (signed_off_frame _ _ _ _ S1) as (Fp & Fe & Fpcb & Fok).
  destruct (signed_off_room w0 w1 wid MISSPEC (lenZ cs) Hw0 S1) as [Hroom1 Hch1];
    [eapply pool_room_le; [exact Hroom|simpl; fold wid cs; lia]|lia|by apply set_pcb_chans|].
  assert (worker_id (w_p w1) = wid) as Eid by (by rewrite Fp).
  assert (worker_ok w1 wid) as Hw1 by (destruct Hw as [? ? ? ?]; split; by rewrite ?Fp, ?Fe).
  assert (exit_taken (misspec_pcb w msg p) = exit_taken p) as Eex by apply exit_taken_record.
  rewrite E1. split.
  - intros Hex. destruct (worker_finishes_run w1 (misspec_pcb w msg p) 0) as (w2 & E2 & S2);
      rewrite ?Eid, ?Fp, ?Fe.
    { exact Hw1. }
    { by apply Fok. }
    { by rewrite Fpcb. }
    { exact Hroom1. }
    { intros c Hc. destruct (Hch1 c Hc) as (vs & ? & ?). exists vs. split; [done|lia]. }
    { rewrite Eex. tauto. }
    rewrite Eid in S2.
    assert ((if exit_taken (misspec_pcb w msg p) =? 0 then set_exit_taken 0 (misspec_pcb w msg p)
             else misspec_pcb w msg p) = misspec_pcb w msg p) as Ep.
    { destruct (Z.eqb_spec (exit_taken (misspec_pcb w msg p)) 0) as [E0|]; [|done].
      rewrite <-E0 at 1. apply set_exit_taken_id. }
    rewrite Ep in S2. exists w2. split; [exact E2|]. destruct (signed_off_frame _ _ _ _ S2) as (_ & _ & Gpcb & _).
    split; [by rewrite Gpcb|]. split.
    + intros c vs Hc Hh. apply (signed_off_twice w0 w1 (misspec_pcb w msg p) w2);
        [done|exact S1|exact S2|apply (pr_size _ _ _ Hroom)|exact Hc|by apply chan_holds_pcb].
    + intros c Hc Hs. eapply signed_off_empty; [exact S2|simpl; by rewrite Fp|].
      simpl. rewrite chan_get_pcb. apply (signed_off_some _ _ _ _ c S1). simpl. by rewrite chan_get_pcb.
  - intros [Hx Hne]. exists w1. split; [|split; [by rewrite Fpcb|split]].
    + apply (worker_finishes_disagree w1 (misspec_pcb w msg p)); by rewrite ?Eid, ?Eex.
    + intros c vs Hc Hh. destruct (signed_off_in w0 w1 wid MISSPEC c vs Hw0 S1) as (e & sg & _ & H1 & H2);
        [exact Hc|by apply chan_holds_pcb|by eexists _, sg].
    + intros c Hc Hs. eapply signed_off_empty; [exact S1|exact Hc|]. simpl. by rewrite chan_get_pcb.
Qed.

Lemma fresh_queues_ok s :
  map_Forall (λ _ q, q = sw_queue_create) (ucvf_queues s) → map_Forall (λ _ q, q = sw_queue_create) (queues s) →
  map_Forall (λ _ q, q = sw_queue_create) (commit_queues s) →
  map_Forall (λ _ q, q = sw_queue_create) (reverse_commit_queues s) → queues_ok s.
Proof.
  intros H1 H2 H3 H4 c q E. exists []. assert (q = sw_queue_create) as ->; [|apply create_holds].
  destruct c; [exact (H1 _ _ E)|exact (H2 _ _ E)|exact (H3 _ _ E)|exact (H4 _ _ E)].
Qed.

Lemma demo_queues_ok : queues_ok (w_sh demo_world).
Proof.
  apply fresh_queues_ok; apply map_Forall_to_list; vm_compute;
    repeat (apply List.Forall_cons; [reflexivity|]); apply List.Forall_nil.
Qed.

(** Worker 1 of the example region misspeculates in its first iteration. *)
Lemma misspec_protocol_witness :
  ∃ w', misspec "reason"%string (set_pcb pcb0 demo_world) = Stop (Exited 0) w' ∧
    the_pcb (w_sh w') = Some (Pcb 0 1 1 0 (Some "reason"%string) 0).
Proof.
  destruct (misspec_protocol (set_pcb pcb0 demo_world) pcb0 "reason"%string) as [H _].
  - apply set_pcb_worker_ok. apply demo_worker_ok. simpl. lia.
  - apply queues_ok_pcb, demo_queues_ok.
  - reflexivity.
  - apply demo_pool_room. by vm_compute.
  - intros c Hc. exists []. split; [|by vm_compute].
    change (c ∈ [Ucvf 1 3; ToTryCommit 1 0]) in Hc. apply chan_holds_pcb.
    exists sw_queue_create. split; [|apply create_holds].
    rewrite !elem_of_cons, elem_of_nil in Hc. destruct Hc as [->|[->|[]]]; by vm_compute.
  - destruct H as (w' & E & Hp & _); [by left|]. exists w'. split; [exact E|]. rewrite Hp. reflexivity.
Defined.
