(* ===== verification/Protection.v ===== *)
(** Page protection ([smtx/protection.cpp]).

    Before an iteration the pages of the versioned heap are made inaccessible;
    the first access to a page raises a signal, whose handler marks the page as
    touched and gives the access rights back. *)
From S2P Require Import Prelude Machine Strategy SwQueue Packet State Communicate Malloc Separation.

Definition is_valid_page (p : proc) (page stage : Z) : bool :=
  let shadow := GET_SHADOW_OF page in
  if set_mem shadow (shadow_heaps p) then true
  else if is_in_ro (p_sep p) page || is_in_nrbw (p_sep p) page || is_in_uc (p_sep p) page then true
  else is_in_stage_private (p_sep p) page =? stage.

(** Prints a message and loops forever. *)
Definition base_handler : W unit := halt Spinning.

Definition handler (si_addr : Z) : W unit :=
  let page := Z.land si_addr PAGE_MASK in
  let shadow := GET_SHADOW_OF page in
  let! g := g_ in
  let! wid := my_worker_id in
  let stage := GET_MY_STAGE g wid in
  let! p := getp id in
  if is_valid_page p page stage then
    (if set_mem si_addr (triggered p) then handle_error else ret tt) ;;;
    modp (λ p, set_triggered (set_insert si_addr (triggered p)) p) ;;;
    modmem (λ m, wr m shadow (Z.lor (rd m shadow) 0x80)) ;;;
    let prot := if is_in_ro (p_sep p) page then PROT_READ else PROT_RW in
    let! ok := mprotect page PAGE_SIZE prot in
    if ok then ret tt else handle_error
  else handle_error.

(** One round of the loop of [reset_protection]. *)
Definition reset_page (shadow : Z) : W unit :=
  let original := GET_ORIGINAL_OF shadow in
  let! ok := mprotect original PAGE_SIZE PROT_NONE in
  (if ok then ret tt else handle_error) ;;;
  modmem (λ m, wr m shadow (Z.land (rd m shadow) 0x7f)).

Definition reset_protection (wid : Z) : W unit :=
  let! l := getp shadow_heaps in
  for_ l reset_page ;;;
  set_separation_heaps_prot_none ;;;
  modp (set_triggered []).

Definition set_page_rw (page : Z) : W unit :=
  let! ok := mprotect page PAGE_SIZE PROT_RW in
  if ok then ret tt else handle_error.

(** ** Protecting one page *)

Lemma mprotect_page addr prot w :
  mprotect addr PAGE_SIZE prot w =
  if e_mprotect_ok (w_env w) addr
  then Ok true (set_p (set_p_prot (<[addr := prot]> (p_prot (w_p w))) (w_p w)) w)
  else Ok false w.
Proof.
  unfold mprotect. run_w. destruct (e_mprotect_ok (w_env w) addr); [|done].
  change ((PAGE_SIZE + PAGE_SIZE - 1) / PAGE_SIZE) with 1. simpl. by rewrite Z.mul_0_r, Z.add_0_r.
Qed.

(** What an access to a page leaves: the rights and the mark of that page. *)
Definition opened (page prot : Z) (p : proc) : proc :=
  let shadow := GET_SHADOW_OF page in
  set_p_prot (<[page := prot]> (p_prot p)) (set_p_mem (wr (p_mem p) shadow (Z.lor (rd (p_mem p) shadow) 0x80)) p).

(** The separation feature is off. *)
Definition separation_off (s : separation) : Prop := nnvh s = 0 ∧ nvh s = 0.

Lemma set_prot_none_off w : separation_off (p_sep (w_p w)) → set_separation_heaps_prot_none w = Ok tt w.
Proof.
  intros [H1 H2]. unfold set_separation_heaps_prot_none, sep. run_w. rewrite H1, H2. simpl.
  generalize (seqZ 0 MAX_WORKERS). intros l. induction l as [|x l IH]; simpl; [done|]. unfold bind, ret. apply IH.
Qed.

(** Rights and marks of a set of pages. *)
Definition page_state (p : proc) (shadow prot : Z) (touched : bool) : Prop :=
  p_prot p !! GET_ORIGINAL_OF shadow = Some prot ∧ Z.testbit (rd (p_mem p) shadow) 7 = touched.

Lemma set_bit7 x : Z.testbit (u8 (Z.lor x 0x80)) 7 = true.
Proof. rewrite wrap_testbit, Z.lor_spec by lia. change 0x80 with (2 ^ 7). by rewrite Z.pow2_bits_true, orb_true_r by lia. Qed.

Lemma clear_bit7 x : Z.testbit (u8 (Z.land x 0x7f)) 7 = false.
Proof. rewrite wrap_testbit, Z.land_spec by lia. change 0x7f with (Z.ones 7). by rewrite Z.ones_spec_high, andb_false_r by lia. Qed.

(** The parts of the private state that protecting and touching pages change. *)
Definition but_pages (p q : proc) : Prop :=
  shadow_heaps p = shadow_heaps q ∧ p_sep p = p_sep q ∧ p_ctl p = p_ctl q ∧ worker_id p = worker_id q ∧
  current_iteration p = current_iteration q.

Lemma but_pages_trans p q r : but_pages p q → but_pages q r → but_pages p r.
Proof. intros (?&?&?&?&?) (?&?&?&?&?). by split_and!; etrans. Qed.

Lemma reset_page_run {A} s w (k : W A) : (∀ a, e_mprotect_ok (w_env w) a = true) →
  (reset_page s ;;; k) w = k (set_p (set_p_mem (wr (p_mem (w_p w)) s (Z.land (rd (p_mem (w_p w)) s) 0x7f))
    (set_p_prot (<[GET_ORIGINAL_OF s := PROT_NONE]> (p_prot (w_p w))) (w_p w))) w).
Proof.
  intros Hok. unfold reset_page, modmem, modp, modify, bind. rewrite mprotect_page, Hok. done.
Qed.

Lemma reset_pages l : ∀ w, (∀ a, e_mprotect_ok (w_env w) a = true) → NoDup l →
  ∃ p', for_ l reset_page w = Ok tt (set_p p' w) ∧
    but_pages p' (w_p w) ∧
    (∀ s, s ∈ l → page_state p' s PROT_NONE false) ∧
    (∀ a, a ∉ l → rd (p_mem p') a = rd (p_mem (w_p w)) a) ∧
    (∀ a, a ∈ l → rd (p_mem p') a = Z.land (rd (p_mem (w_p w)) a) 0x7f) ∧
    (∀ a, (∀ s, s ∈ l → a ≠ GET_ORIGINAL_OF s) → p_prot p' !! a = p_prot (w_p w) !! a).
Proof.
  induction l as [|s l IH]; intros w Hok Hnd; simpl.
  { exists (w_p w). split_and!; try done; [by destruct w| |]; intros s Hs; by apply elem_of_nil in Hs. }
  apply NoDup_cons in Hnd as [Hs Hnd]. rewrite reset_page_run by done.
  set (w1 := set_p _ _). destruct (IH w1) as (p' & E & Hb & Hin & Hmem & Hcl & Hpr); [done|done|].
  exists p'. rewrite E. split; [done|]. split; [exact Hb|].
  assert (∀ a, rd (p_mem (w_p w1)) a = if decide (s = a) then Z.land (rd (p_mem (w_p w)) a) 0x7f
    else rd (p_mem (w_p w)) a) as Hw1.
  { intros a. unfold w1. simpl. rewrite rd_wr. destruct (decide (s = a)) as [->|]; [|done].
    apply wrap_small. pose proof (rd_range (p_mem (w_p w)) a). split; [by apply Z.land_nonneg; left; lia|].
    change 0x7f with (Z.ones 7). rewrite Z.land_ones by lia.
    pose proof (Z.mod_pos_bound (rd (p_mem (w_p w)) a) (2 ^ 7)). lia. }
  split_and!.
  - intros t [->|Ht]%elem_of_cons; [|by apply Hin]. split.
    + rewrite Hpr; [unfold w1; simpl; apply lookup_insert_eq|]. intros t Ht E'.
      apply shadow_injective in E'. by subst.
    + rewrite Hmem by done. unfold w1. simpl. rewrite rd_wr_eq. apply clear_bit7.
  - intros a [Ha1 Ha2]%not_elem_of_cons. rewrite Hmem, Hw1, decide_False by done. done.
  - intros a [->|Ha]%elem_of_cons; [by rewrite Hmem, Hw1, decide_True by done|].
    rewrite Hcl, Hw1, decide_False by (done || (intros ->; done)). done.
  - intros a Ha. rewrite Hpr by (intros t Ht; apply Ha, elem_of_cons; by right).
    unfold w1. simpl. apply lookup_insert_ne. intros E'. apply (Ha s); [apply elem_of_cons; by left|done].
Qed.

(** ** The signal handler *)

Lemma handler_run a w :
  let p := w_p w in
  let page := Z.land a PAGE_MASK in
  GET_SHADOW_OF page ∈ shadow_heaps p → a ∉ triggered p → is_in_ro (p_sep p) page = false →
  (∀ b, e_mprotect_ok (w_env w) b = true) →
  handler a w = Ok tt (set_p (opened page PROT_RW (set_triggered (set_insert a (triggered p)) p)) w).
Proof.
  intros p page Hin Htr Hro Hok. unfold handler, is_valid_page. run_w. fold p page.
  rewrite (proj2 (set_mem_spec _ _) Hin), Hro.
  replace (set_mem a (triggered p)) with false.
  2:{ symmetry. apply not_true_iff_false. by rewrite set_mem_spec. }
  simpl. rewrite mprotect_page. simpl. by rewrite Hok.
Qed.

(** A fault outside the registered pages, and a second fault at the same
    address, end the process and change nothing. *)
Lemma handler_error a w :
  let p := w_p w in
  is_valid_page p (Z.land a PAGE_MASK) (GET_MY_STAGE (e_strategy (w_env w)) (worker_id p)) = false ∨
  a ∈ triggered p →
  handler a w = Stop (Exited 1) w.
Proof.
  intros p H. unfold handler. run_w. fold p. destruct (is_valid_page _ _ _) eqn:E; [|done].
  destruct H as [|H]; [done|]. by rewrite (proj2 (set_mem_spec _ _) H).
Qed.

(** The state during an iteration: which of the pages [l] were accessed. *)
Record tracked (l : list Z) (p0 p : proc) (addrs : list Z) : Prop := {
  tk_same : but_pages p p0;
  tk_trig a : a ∈ triggered p ↔ a ∈ addrs;
  tk_open s : s ∈ l → (∃ a, a ∈ addrs ∧ Z.land a PAGE_MASK = GET_ORIGINAL_OF s) → page_state p s PROT_RW true;
  tk_closed s : s ∈ l → (∀ a, a ∈ addrs → Z.land a PAGE_MASK ≠ GET_ORIGINAL_OF s) → page_state p s PROT_NONE false;
  tk_bits a j : 0 ≤ j → j ≠ 7 → Z.testbit (rd (p_mem p) a) j = Z.testbit (rd (p_mem p0) a) j }.

Lemma reset_tracked w wid : (∀ a, e_mprotect_ok (w_env w) a = true) → NoDup (shadow_heaps (w_p w)) →
  separation_off (p_sep (w_p w)) →
  ∃ p', reset_protection wid w = Ok tt (set_p p' w) ∧ tracked (shadow_heaps (w_p w)) (w_p w) p' [].
Proof.
  intros Hok Hnd Hoff. destruct (reset_pages _ w Hok Hnd) as (p' & E & Hb & Hin & Hmem & Hcl & _).
  exists (set_triggered [] p'). unfold reset_protection. unfold bind at 1, getp at 1, gets at 1.
  unfold bind at 1. rewrite E. unfold bind at 1. rewrite set_prot_none_off.
  2:{ simpl. destruct Hb as (_ & -> & _). done. }
  split; [done|]. split; simpl; try done.
  - intros s Hs (a & Ha & _). by apply elem_of_nil in Ha.
  - intros s Hs _. by apply Hin.
  - intros a j Hj Hj7. destruct (decide (a ∈ shadow_heaps (w_p w))) as [Ha|Ha]; [|by rewrite Hmem].
    rewrite Hcl, Z.land_spec by done. change 0x7f with (Z.ones 7).
    destruct (decide (j < 7)); [by rewrite Z.ones_spec_low, andb_true_r by lia|].
    rewrite (testbit_ge_width 8 (rd (p_mem (w_p w)) a)); [done|lia|apply rd_range|lia].
Qed.

Lemma handler_tracked l p0 w addrs a :
  (∀ b, e_mprotect_ok (w_env w) b = true) → l = shadow_heaps p0 → tracked l p0 (w_p w) addrs →
  GET_SHADOW_OF (Z.land a PAGE_MASK) ∈ l → is_in_ro (p_sep p0) (Z.land a PAGE_MASK) = false → a ∉ addrs →
  ∃ p', handler a w = Ok tt (set_p p' w) ∧ tracked l p0 p' (addrs ++ [a]).
Proof.
  intros Hok -> [Hb Ht Ho Hc Hbits] Hin Hro Hna. pose proof Hb as (Eh & Es & _).
  rewrite handler_run; [|by rewrite Eh|by rewrite Ht|by rewrite Es|done]. eexists. split; [done|].
  set (page := Z.land a PAGE_MASK) in *. set (p := w_p w) in *.
  assert (∀ s, page ≠ GET_ORIGINAL_OF s → ∀ pr t, page_state p s pr t →
    page_state (opened page PROT_RW (set_triggered (set_insert a (triggered p)) p)) s pr t) as Hother.
  { intros s Hs pr t [H1 H2]. split; simpl; [by rewrite lookup_insert_ne|].
    rewrite rd_wr_ne; [done|]. intros E. apply Hs. rewrite <-E. by rewrite shadow_involutive. }
  split; simpl.
  - exact Hb.
  - intros b. rewrite elem_of_set_insert, Ht, elem_of_app, list_elem_of_singleton. tauto.
  - intros s Hs (b & Hb1 & Hb2). destruct (decide (page = GET_ORIGINAL_OF s)) as [E|E].
    + split; simpl; [by rewrite <-E, lookup_insert_eq|].
      rewrite E. change (GET_SHADOW_OF (GET_ORIGINAL_OF s)) with (GET_ORIGINAL_OF (GET_SHADOW_OF s)).
      rewrite shadow_involutive, rd_wr_eq. apply set_bit7.
    + apply Hother; [done|]. apply Ho; [done|]. exists b.
      apply elem_of_app in Hb1 as [Hb1| ->%list_elem_of_singleton]; [done|]. by destruct E.
  - intros s Hs H. apply Hother; [apply H, elem_of_app; right; by apply list_elem_of_singleton|].
    apply Hc; [done|]. intros b Hb1. apply H, elem_of_app. by left.
  - intros b j Hj Hj7. rewrite rd_wr. destruct (decide (GET_SHADOW_OF page = b)) as [<-|]; [|by apply Hbits].
    rewrite wrap_testbit, Z.lor_spec by lia. change 0x80 with (2 ^ 7). rewrite Z.pow2_bits_false, orb_false_r by lia.
    rewrite Hbits by done. destruct (Z.ltb_spec j 8); [done|].
    rewrite (testbit_ge_width 8 (rd (p_mem p0) _)); [done|lia|apply rd_range|lia].
Qed.

(** The set of touched pages is the set of accessed pages: after
    [reset_protection], the faults of an iteration (distinct addresses in pages of
    the versioned heap) leave exactly the pages they lie in accessible and marked
    with bit 7 in their first metadata byte; every other heap page is inaccessible
    and unmarked, and no other metadata bit changes. *)
Theorem touched_exactly_accessed w wid addrs :
  (∀ a, e_mprotect_ok (w_env w) a = true) → NoDup (shadow_heaps (w_p w)) →
  separation_off (p_sep (w_p w)) → NoDup addrs →
  (∀ a, a ∈ addrs → GET_SHADOW_OF (Z.land a PAGE_MASK) ∈ shadow_heaps (w_p w) ∧
     is_in_ro (p_sep (w_p w)) (Z.land a PAGE_MASK) = false) →
  ∃ p', (reset_protection wid ;;; for_ addrs handler) w = Ok tt (set_p p' w) ∧
    tracked (shadow_heaps (w_p w)) (w_p w) p' addrs.
Proof.
  intros Hok Hnd Hoff Hnda Hin. destruct (reset_tracked w wid Hok Hnd Hoff) as (p1 & E1 & T1).
  unfold bind. rewrite E1. clear E1. set (l := shadow_heaps (w_p w)) in *.
  assert (∀ rest done p, tracked l (w_p w) p done → NoDup (done ++ rest) →
    (∀ a, a ∈ rest → GET_SHADOW_OF (Z.land a PAGE_MASK) ∈ l ∧
       is_in_ro (p_sep (w_p w)) (Z.land a PAGE_MASK) = false) →
    ∃ p', for_ rest handler (set_p p w) = Ok tt (set_p p' w) ∧ tracked l (w_p w) p' (done ++ rest)) as H;
    [|exact (H addrs [] p1 T1 Hnda Hin)].
  clear T1 Hnda Hin p1. induction rest as [|a rest IH]; intros prev p T Hnda Hin; simpl.
  { exists p. by rewrite app_nil_r. }
  destruct (Hin a ltac:(apply elem_of_cons; by left)) as [H1 H2].
  destruct (handler_tracked l (w_p w) (set_p p w) prev a Hok eq_refl T H1 H2) as (p2 & E2 & T2).
  { apply NoDup_app in Hnda as (_ & Hd & _). intros Ha. apply (Hd a Ha), elem_of_cons. by left. }
  rewrite cons_middle, app_assoc in Hnda.
  destruct (IH (prev ++ [a]) p2 T2 Hnda) as (p' & E & T').
  { intros b Hb. apply Hin, elem_of_cons. by right. }
  exists p'. unfold bind. rewrite E2. rewrite <-app_assoc in T'. split; [exact E|exact T'].
Qed.

(** Three heap pages, two faults in the second one and one in the third. *)
Definition demo_prot_world : world :=
  World shared0 (set_shadow_heaps (GET_SHADOW_OF <$> [0x100000000000; 0x100000001000; 0x100000002000])
    (set_worker_id 1 proc0)) demo_env.

Lemma touched_exactly_accessed_witness :
  ∃ p', (reset_protection 1 ;;; for_ [0x100000001008; 0x100000001010; 0x100000002000] handler) demo_prot_world
      = Ok tt (set_p p' demo_prot_world) ∧
    page_state p' (GET_SHADOW_OF 0x100000000000) PROT_NONE false ∧
    page_state p' (GET_SHADOW_OF 0x100000001000) PROT_RW true.
Proof.
  destruct (touched_exactly_accessed demo_prot_world 1 [0x100000001008; 0x100000001010; 0x100000002000])
    as (p' & E & T).
  - done.
  - apply NoDup_ListNoDup. repeat constructor; simpl; intros H; repeat destruct H as [H|H]; done.
  - done.
  - apply NoDup_ListNoDup. repeat constructor; simpl; intros H; repeat destruct H as [H|H]; done.
  - intros a Ha. rewrite !elem_of_cons, elem_of_nil in Ha.
    destruct Ha as [->|[->|[->|[]]]]; (split; [|done]); apply set_mem_spec; by vm_compute.
  - exists p'. split; [exact E|]. split.
    + apply (tk_closed _ _ _ _ T); [apply set_mem_spec; by vm_compute|].
      intros a Ha. rewrite !elem_of_cons, elem_of_nil in Ha. destruct Ha as [->|[->|[->|[]]]]; by vm_compute.
    + apply (tk_open _ _ _ _ T); [apply set_mem_spec; by vm_compute|].
      exists 0x100000001008. split; [apply elem_of_cons; by left|]. by vm_compute.
Defined.
