(* ===== verification/Prediction.v ===== *)
(** Value prediction ([smtx/prediction.cpp]).

    Two kinds of loads are predicted: loop-invariant ones, whose value is taken
    from the memory committed after the first iteration, and linear ones, whose
    value is [a * iteration + b].  The first stage writes the predicted values
    into its memory before an iteration; the try-commit units verify them. *)
From S2P Require Import Prelude Machine Strategy SwQueue Packet State Communicate Malloc Separation Speculation Protection Pages.
From Stdlib Require Import SpecFloat.
From stdpp Require Import strings.
#[local] Open Scope Z_scope.

(** ** Doubles

    [double] and [float] are IEEE 754 binary64 and binary32 with rounding to
    nearest; a NaN result is the default quiet NaN. *)

Definition decode64 (z : Z) : spec_float :=
  let s := Z.testbit z 63 in
  let e := Z.land (Z.shiftr z 52) 0x7ff in
  let f := Z.land z (2 ^ 52 - 1) in
  if e =? 0x7ff then if f =? 0 then S754_infinity s else S754_nan
  else let (m, x) := if e =? 0 then (f, -1074) else (f + 2 ^ 52, e - 1075) in
       match m with Zpos m => S754_finite s m x | _ => S754_zero s end.

(** The bits of a number of [mw] fraction bits and exponent bias [bias]. *)
Definition encode (mw ew bias : Z) (x : spec_float) : Z :=
  let sign (s : bool) := if s then Z.shiftl 1 (mw + ew) else 0 in
  let special := Z.shiftl (2 ^ ew - 1) mw in
  match x with
  | S754_zero s => sign s
  | S754_infinity s => sign s + special
  | S754_nan => special + 2 ^ (mw - 1)
  | S754_finite s m e =>
      sign s + (if Zpos m <? 2 ^ mw then Zpos m
                else Z.shiftl (e + bias + mw) mw + (Zpos m - 2 ^ mw))
  end.
Definition encode64 : spec_float → Z := encode 52 11 1023.
Definition encode32 : spec_float → Z := encode 23 8 127.

(** [(float)x] and the conversion of an [int32_t]. *)
Definition to_float (x : spec_float) : spec_float :=
  match x with
  | S754_finite s m e => binary_normalize 24 128 (if s then Zneg m else Zpos m) e s
  | _ => x
  end.
Definition double_of_int (i : Z) : spec_float := binary_normalize 53 1024 i 0 false.

(** [a * iteration + b] as [int64_t] and as [double]. *)
Definition linear_int (a iteration b : Z) : Z := i64 (a * iteration + b).
Definition linear_double (a iteration b : Z) : spec_float :=
  SFadd 53 1024 (SFmul 53 1024 (decode64 a) (double_of_int iteration)) (decode64 b).

(** ** Tables *)

(** An entry outside the mapped tables is a fault. *)
Definition li_at (i j : Z) : W LoopInvariantBuffer :=
  let! t := getsh loop_invariant_buffer in
  match t !! (i, j) with Some e => ret e | None => halt Fault end.
Definition put_li (i j : Z) (e : LoopInvariantBuffer) : W unit :=
  modsh (λ s, set_loop_invariant_buffer (<[(i, j) := e]> (loop_invariant_buffer s)) s).
Definition lp_at (i j : Z) : W LinearPredictor :=
  let! t := getsh linear_predictors in
  match t !! (i, j) with Some e => ret e | None => halt Fault end.
Definition put_lp (i j : Z) (e : LinearPredictor) : W unit :=
  modsh (λ s, set_linear_predictors (<[(i, j) := e]> (linear_predictors s)) s).
Definition coeff_at (t : gmap (Z * Z) Z) (i j : Z) : Z := default 0 (t !! (i, j)).

Definition pred {A} (f : predictors → A) : W A := getp (λ p, f (p_pred p)).

(** A table of [n] rows of [c] entries. *)
Definition table {A} (n c : Z) (f : Z → Z → A) : gmap (Z * Z) A :=
  foldl (λ t i, foldl (λ t j, <[(i, j) := f i j]> t) t (seqZ 0 c)) ∅ (seqZ 0 n).

(** The two nested loops over a table. *)
Definition grid (n c : Z) : list (Z * Z) := seqZ 0 n ≫= λ i, (λ j, (i, j)) <$> seqZ 0 c.
Definition for_li (body : Z → Z → W unit) : W unit :=
  let! n := pred num_loop_invariant_loads in
  let! c := pred num_contexts in
  for_ (seqZ 0 n) (λ i, for_ (seqZ 0 c) (λ j, body i j)).
Definition for_lp (body : Z → Z → W unit) : W unit :=
  let! n := pred num_linear_predictable_loads in
  let! c := pred num_contexts in
  for_ (seqZ 0 n) (λ i, for_ (seqZ 0 c) (λ j, body i j)).

(** A loop whose body may leave the function with [false]. *)
Fixpoint for_all {A} (l : list A) (body : A → W bool) : W bool :=
  match l with
  | [] => ret true
  | x :: l' => let! b := body x in if b then for_all l' body else ret false
  end.

(** ** Initialisation *)

Definition init_loop_invariant_buffer (loads contexts : Z) : W unit :=
  let! n := pred num_loop_invariant_loads in
  let! c := pred num_contexts in
  modsh (set_loop_invariant_buffer (table n c (λ _ _, li0))).

Definition init_linear_predictors (loads contexts : Z) : W unit :=
  modsh (set_linear_predictors (table loads contexts (λ _ _, lp0))) ;;;
  modpred (λ p, set_is_double (table loads contexts (λ _ _, 0)) (set_coeff_b (table loads contexts (λ _ _, 0))
    (set_coeff_a (table loads contexts (λ _ _, 0)) p))).

(** [va] are the variadic arguments: all [a], then all [b], then the types. *)
Definition init_predictors (loop_invariant_loads linear_predictable_loads contexts : Z) (va : list Z) : W unit :=
  modpred (λ p, set_num_contexts contexts (set_num_linear_predictable_loads linear_predictable_loads
    (set_num_loop_invariant_loads loop_invariant_loads p))) ;;;
  init_loop_invariant_buffer loop_invariant_loads contexts ;;;
  init_linear_predictors linear_predictable_loads contexts ;;;
  let n := linear_predictable_loads in
  let arg k := nth (Z.to_nat k) va 0 in
  modpred (set_coeff_a (table n contexts (λ i j, arg (i * contexts + j)))) ;;;
  modpred (set_coeff_b (table n contexts (λ i j, arg (n * contexts + i * contexts + j)))) ;;;
  modpred (set_is_double (table n contexts (λ i j, arg (2 * n * contexts + i * contexts + j)))) ;;;
  modsh (set_good_to_go (Some 0)).

Definition reset_predictors : W unit :=
  for_li (λ i j, let! li := li_at i j in put_li i j (LIBuf 0 (li_value li) (li_size li))) ;;;
  for_lp (λ i j, let! lp := lp_at i j in put_lp i j (LPred 0 (lp_size lp))).

Definition fini_predictors : W unit :=
  modsh (set_loop_invariant_buffer ∅) ;;;
  modpred (set_num_loop_invariant_loads 0) ;;;
  modsh (set_linear_predictors ∅) ;;;
  modpred (λ p, set_num_contexts 0 (set_num_linear_predictable_loads 0
    (set_is_double ∅ (set_coeff_b ∅ (set_coeff_a ∅ p))))) ;;;
  modsh (set_good_to_go None).

(** ** Loop-invariant loads *)

Definition check_loop_invariant (load_id context read_ptr read_size : Z) : W unit :=
  let! li := li_at load_id context in
  if negb (read_ptr =? li_ptr li) then misspec "loop-invariant speculation failed" else ret tt.

Definition register_loop_invariant_buffer (load_id context read_ptr read_size : Z) : W unit :=
  let! li := li_at load_id context in
  put_li load_id context (LIBuf read_ptr (li_value li) (u8 read_size)).

Definition update_loop_invariant_buffer : W unit :=
  for_li (λ i j,
    let! li := li_at i j in
    when (negb (li_ptr li =? 0))
      (let! m := getp p_mem in
       put_li i j (LIBuf (li_ptr li) (i64 (load 8 m (li_ptr li))) (li_size li)))).

(** The cases of [switch (size)]. *)
Definition width_of (size : Z) : option nat :=
  if size =? 1 then Some 1%nat else if size =? 2 then Some 2%nat
  else if size =? 4 then Some 4%nat else if size =? 8 then Some 8%nat else None.

(** Write a predicted value and mark its bytes as written. *)
Definition store_predicted (n : nat) (ptr value : Z) : W unit :=
  modmem (λ m, store n m ptr value) ;;;
  modmem (λ m, store n m (GET_SHADOW_OF ptr) (rep n 0x02)).

Definition update_loop_invariant (i j : Z) : W unit :=
  let! li := li_at i j in
  when (negb (li_ptr li =? 0))
    (set_page_rw (Z.land (li_ptr li) PAGE_MASK) ;;;
     match width_of (li_size li) with
     | Some n => store_predicted n (li_ptr li) (li_value li)
     | None => assert_ false
     end).

Definition update_loop_invariants : W unit := for_li update_loop_invariant.

Definition update_shadow_for_loop_invariants : W unit :=
  for_li (λ i j,
    let! li := li_at i j in
    when (negb (li_ptr li =? 0))
      (let shadow := GET_SHADOW_OF (li_ptr li) in
       for_ (seqZ 0 (li_size li)) (λ k,
         modmem (λ m, wr m (shadow + k) (Z.land (rd m (shadow + k)) 0xfe))))).

(** [(ptr >> PAGE_SHIFT) % num_aux_workers == my_try_commit_id]. *)
Definition is_mine (ptr : Z) : W bool :=
  let! wid := my_worker_id in
  let! tcb := ctl try_commit_begin in
  let! n_aux := ctl num_aux_workers in
  ret (target_try_commit n_aux ptr =? u32 (wid - tcb)).

(** One round of the loop of [verify_loop_invariants]. *)
Definition verify_loop_invariant (i j : Z) : W bool :=
  let! li := li_at i j in
  if li_ptr li =? 0 then ret true else
  let! mine := is_mine (li_ptr li) in
  if negb mine then ret true else
  match width_of (li_size li) with
  | Some n =>
      let! m := getp p_mem in
      ret (load n m (li_ptr li) =? wrap (8 * Z.of_nat n) (li_value li))
  | None => ret false
  end.

Definition verify_loop_invariants : W bool :=
  let! n := pred num_loop_invariant_loads in
  let! c := pred num_contexts in
  for_all (seqZ 0 n) (λ i, for_all (seqZ 0 c) (λ j, verify_loop_invariant i j)).

(** The copy loop of the two [try_commit_update] functions, for a predicted
    location that lies in the packet. *)
Definition update_predicted (ptr psize addr : Z) (data shadow : mem) (size : Z) : W unit :=
  if ptr =? 0 then ret tt else
  let! mine := is_mine ptr in
  if negb mine then ret tt else
  if (ptr <? addr) || (addr + size <=? ptr) then ret tt else
  assert_ (ptr + psize <=? addr + size) ;;;
  let off := ptr - addr in
  for_ (seqZ 0 psize) (λ k,
    when (negb (Z.land (rd shadow (off + k)) 0x2 =? 0))
      (modmem (λ m, wr m (addr + (off + k)) (rd data (off + k))))).

Definition try_commit_update_loop_invariants (addr : Z) (data shadow : mem) (size : Z) : W unit :=
  for_li (λ i j, let! li := li_at i j in update_predicted (li_ptr li) (li_size li) addr data shadow size).

(** ** Linear loads *)

Definition check_and_register_linear_predictor (valid : bool) (load_id context read_ptr read_size : Z) : W unit :=
  if negb valid then ret tt else
  let! iteration := current_iter in
  let! lp := lp_at load_id context in
  if negb (iteration =? 0)
  then if negb (read_ptr =? lp_ptr lp) then misspec "loop-invariant speculation failed" else ret tt
  else put_lp load_id context (LPred read_ptr (u8 read_size)).

(** The value that is stored for, and compared with, a location of [size]
    bytes; [None] is the failing assertion or the default case. *)
Definition predicted_word (a b d iteration size : Z) : option (nat * Z) :=
  match width_of size with
  | Some n =>
      if d =? 0 then Some (n, linear_int a iteration b)
      else if size =? 4 then Some (n, encode32 (to_float (linear_double a iteration b)))
      else if size =? 8 then Some (n, encode64 (linear_double a iteration b))
      else None
  | None => None
  end.

Definition update_linear_predicted_values : W unit :=
  let! cur := current_iter in
  let iteration := i32 (cur + 1) in
  let! pr := pred id in
  for_lp (λ i j,
    let! lp := lp_at i j in
    when (negb (lp_ptr lp =? 0))
      (let a := coeff_at (coeff_a pr) i j in
       let b := coeff_at (coeff_b pr) i j in
       let d := coeff_at (is_double pr) i j in
       set_page_rw (Z.land (lp_ptr lp) PAGE_MASK) ;;;
       match predicted_word a b d iteration (lp_size lp) with
       | Some (n, v) => store_predicted n (lp_ptr lp) v
       | None => assert_ false
       end)).

Definition update_shadow_for_linear_predicted_values : W unit :=
  for_lp (λ i j,
    let! lp := lp_at i j in
    when (negb (lp_ptr lp =? 0))
      (let shadow := GET_SHADOW_OF (lp_ptr lp) in
       for_ (seqZ 0 (lp_size lp)) (λ k,
         modmem (λ m, if negb (Z.land (rd m (shadow + k)) 0x1 =? 0)
                      then wr m (shadow + k) (Z.lor (rd m (shadow + k)) 0x8) else m)))).

(** One round of the loop of [verify_linear_predicted_values]: [assert( !d )]
    fails in the cases 1 and 2; other sizes return [false]. *)
Definition verify_linear_predicted_value (pr : predictors) (iteration i j : Z) : W bool :=
  let! lp := lp_at i j in
  if lp_ptr lp =? 0 then ret true else
  let! mine := is_mine (lp_ptr lp) in
  if negb mine then ret true else
  let a := coeff_at (coeff_a pr) i j in
  let b := coeff_at (coeff_b pr) i j in
  let d := coeff_at (is_double pr) i j in
  match width_of (lp_size lp), predicted_word a b d iteration (lp_size lp) with
  | None, _ => ret false
  | Some _, None => assert_ false ;;; ret false
  | Some _, Some (n, v) =>
      let! m := getp p_mem in
      ret (load n m (lp_ptr lp) =? wrap (8 * Z.of_nat n) v)
  end.

Definition verify_linear_predicted_values : W bool :=
  let! cur := current_iter in
  let iteration := i32 (cur + 1) in
  let! pr := pred id in
  for_all (seqZ 0 (num_linear_predictable_loads pr)) (λ i, for_all (seqZ 0 (num_contexts pr)) (λ j,
    verify_linear_predicted_value pr iteration i j)).

Definition try_commit_update_linear_predicted_values (addr : Z) (data shadow : mem) (size : Z) : W unit :=
  for_lp (λ i j, let! lp := lp_at i j in update_predicted (lp_ptr lp) (lp_size lp) addr data shadow size).

(** 1.5 * 2 + 0.25 = 3.25, also as a float; -0.5 * 1 + 0.5 = 0. *)
Example linear_double_value :
  encode64 (linear_double 0x3FF8000000000000 2 0x3FD0000000000000) = 0x400A000000000000 ∧
  encode32 (to_float (linear_double 0x3FF8000000000000 2 0x3FD0000000000000)) = 0x40500000 ∧
  encode64 (linear_double 0xBFE0000000000000 1 0x3FE0000000000000) = 0.
Proof. by vm_compute. Qed.

(** ** Loops over the tables *)

Lemma for_li_grid body w :
  let p := p_pred (w_p w) in
  for_li body w = for_ (grid (num_loop_invariant_loads p) (num_contexts p)) (λ ij, body ij.1 ij.2) w.
Proof.
  unfold for_li, grid, pred. run_w. rewrite for_bind. apply for_ext. intros i t. by rewrite for_fmap.
Qed.

Lemma for_lp_grid body w :
  let p := p_pred (w_p w) in
  for_lp body w = for_ (grid (num_linear_predictable_loads p) (num_contexts p)) (λ ij, body ij.1 ij.2) w.
Proof.
  unfold for_lp, grid, pred. run_w. rewrite for_bind. apply for_ext. intros i t. by rewrite for_fmap.
Qed.

Lemma elem_of_grid n c i j : (i, j) ∈ grid n c ↔ 0 ≤ i < n ∧ 0 ≤ j < c.
Proof.
  unfold grid. rewrite list_elem_of_bind. split.
  - intros (x & (y & [= -> ->] & Hy%elem_of_seqZ)%list_elem_of_fmap & Hx%elem_of_seqZ). lia.
  - intros [? ?]. exists i. split; [|apply elem_of_seqZ; lia]. apply list_elem_of_fmap. exists j.
    split; [done|]. apply elem_of_seqZ. lia.
Qed.

(** A loop whose body only inspects the state. *)
Lemma for_all_pure {A} (l : list A) (body : A → W bool) (f : A → bool) w :
  (∀ x, x ∈ l → body x w = Ok (f x) w) → for_all l body w = Ok (forallb f l) w.
Proof.
  induction l as [|x l IH]; intros H; simpl; [done|]. unfold bind.
  rewrite H by (apply elem_of_cons; by left). destruct (f x); simpl; [|done].
  apply IH. intros y Hy. apply H, elem_of_cons. by right.
Qed.

Definition forall_grid (n c : Z) (f : Z → Z → bool) : bool := forallb (λ i, forallb (f i) (seqZ 0 c)) (seqZ 0 n).

Lemma for_all_grid n c (body : Z → Z → W bool) (f : Z → Z → bool) w :
  (∀ i j, 0 ≤ i < n → 0 ≤ j < c → body i j w = Ok (f i j) w) →
  for_all (seqZ 0 n) (λ i, for_all (seqZ 0 c) (λ j, body i j)) w = Ok (forall_grid n c f) w.
Proof.
  intros H. apply (for_all_pure _ _ (λ i, forallb (f i) (seqZ 0 c))). intros i Hi%elem_of_seqZ.
  apply for_all_pure. intros j Hj%elem_of_seqZ. apply H; lia.
Qed.

Lemma forall_grid_spec n c f : forall_grid n c f = true ↔ ∀ i j, 0 ≤ i < n → 0 ≤ j < c → f i j = true.
Proof.
  unfold forall_grid. rewrite forallb_forall. split.
  - intros F i j Hi Hj. specialize (F i). rewrite <-list_elem_of_In, elem_of_seqZ, forallb_forall in F.
    apply F; [lia|]. apply list_elem_of_In, elem_of_seqZ. lia.
  - intros F i Hi%list_elem_of_In%elem_of_seqZ. apply forallb_forall.
    intros j Hj%list_elem_of_In%elem_of_seqZ. apply F; lia.
Qed.

(** Both tables cover the predicted loads. *)
Definition li_table_ok (w : world) : Prop :=
  let p := p_pred (w_p w) in
  ∀ i j, 0 ≤ i < num_loop_invariant_loads p → 0 ≤ j < num_contexts p →
    is_Some (loop_invariant_buffer (w_sh w) !! (i, j)).
Definition lp_table_ok (w : world) : Prop :=
  let p := p_pred (w_p w) in
  ∀ i j, 0 ≤ i < num_linear_predictable_loads p → 0 ≤ j < num_contexts p →
    is_Some (linear_predictors (w_sh w) !! (i, j)).

(** A registered location that this try-commit unit verifies. *)
Definition mine (w : world) (ptr : Z) : Prop :=
  ptr ≠ 0 ∧ target_try_commit (num_aux_workers (p_ctl (w_p w))) ptr =
            u32 (worker_id (w_p w) - try_commit_begin (p_ctl (w_p w))).

(** The [n] bytes at [ptr] are the low bytes of [v]. *)
Definition bytes_are (m : mem) (n : nat) (ptr v : Z) : Prop :=
  ∀ k, 0 ≤ k < Z.of_nat n → rd m (ptr + k) = u8 (Z.shiftr v (8 * k)).

Lemma load_eq_bytes n m ptr v : (load n m ptr =? wrap (8 * Z.of_nat n) v) = true ↔ bytes_are m n ptr v.
Proof.
  rewrite Z.eqb_eq. split.
  - intros H k Hk. rewrite <-(load_byte n), H by done. bitwise i Hi.
    destruct (Z.ltb_spec i 8); [|done]. simpl. by replace (i + 8 * k <? 8 * Z.of_nat n) with true by zbool.
  - intros H. bitwise i Hi. rewrite load_testbit by done.
    destruct (Z.ltb_spec i (8 * Z.of_nat n)); [|done]. simpl.
    assert (0 ≤ i / 8 < Z.of_nat n ∧ 0 ≤ i mod 8 < 8 ∧ i = 8 * (i / 8) + i mod 8)
      as (?&?&?) by (Z.to_euclidean_division_equations; lia).
    rewrite H by done. rewrite wrap_testbit, Z.shiftr_spec by lia.
    replace (i mod 8 <? 8) with true by zbool. simpl. f_equal. lia.
Qed.

(** The test of [verify_loop_invariants] and [verify_linear_predicted_values] on
    one location. *)
Definition location_check (w : world) (ptr : Z) (word : option (nat * Z)) : bool :=
  if ptr =? 0 then true else
  if negb (target_try_commit (num_aux_workers (p_ctl (w_p w))) ptr =?
           u32 (worker_id (w_p w) - try_commit_begin (p_ctl (w_p w)))) then true else
  match word with
  | Some (n, v) => load n (p_mem (w_p w)) ptr =? wrap (8 * Z.of_nat n) v
  | None => false
  end.

Lemma location_check_spec w ptr word : location_check w ptr word = true ↔
  (mine w ptr → ∃ n v, word = Some (n, v) ∧ bytes_are (p_mem (w_p w)) n ptr v).
Proof.
  unfold location_check, mine. destruct (Z.eqb_spec ptr 0) as [->|Hp]; [split; [by intros _ []|done]|].
  destruct (Z.eqb_spec (target_try_commit (num_aux_workers (p_ctl (w_p w))) ptr)
    (u32 (worker_id (w_p w) - try_commit_begin (p_ctl (w_p w))))) as [E|E]; simpl.
  - destruct word as [[n v]|].
    + rewrite load_eq_bytes. split; [eauto|]. intros H. destruct (H ltac:(done)) as (n' & v' & [= <- <-] & ?). done.
    + split; [done|]. intros H. by destruct (H ltac:(done)) as (n' & v' & ? & _).
  - split; [by intros _ []|done].
Qed.

(** The verdicts as functions of the state. *)
Definition li_verdict (w : world) : bool :=
  let p := p_pred (w_p w) in
  forall_grid (num_loop_invariant_loads p) (num_contexts p) (λ i j,
    default true ((λ e, location_check w (li_ptr e) ((λ n, (n, li_value e)) <$> width_of (li_size e))) <$>
      loop_invariant_buffer (w_sh w) !! (i, j))).

Definition lp_word (p : proc) (i j : Z) (e : LinearPredictor) : option (nat * Z) :=
  let t := p_pred p in
  predicted_word (coeff_at (coeff_a t) i j) (coeff_at (coeff_b t) i j) (coeff_at (is_double t) i j)
    (i32 (current_iteration p + 1)) (lp_size e).

Definition lp_verdict (w : world) : bool :=
  let p := p_pred (w_p w) in
  forall_grid (num_linear_predictable_loads p) (num_contexts p) (λ i j,
    default true ((λ e, location_check w (lp_ptr e) (lp_word (w_p w) i j e)) <$> linear_predictors (w_sh w) !! (i, j))).

(** No registered location runs into the assertion that doubles have 4 or 8
    bytes. *)
Definition lp_sizes_ok (w : world) : Prop :=
  let p := p_pred (w_p w) in
  ∀ i j e, 0 ≤ i < num_linear_predictable_loads p → 0 ≤ j < num_contexts p →
    linear_predictors (w_sh w) !! (i, j) = Some e →
    is_Some (width_of (lp_size e)) → is_Some (lp_word (w_p w) i j e).

Lemma verify_loop_invariants_run w : li_table_ok w → verify_loop_invariants w = Ok (li_verdict w) w.
Proof.
  intros Hok. unfold verify_loop_invariants, pred. do 2 (unfold bind at 1, getp at 1, gets at 1).
  unfold li_verdict. apply for_all_grid. intros i j Hi Hj. destruct (Hok i j Hi Hj) as [e He].
  unfold verify_loop_invariant, li_at, is_mine. run_w. rewrite He. simpl.
  unfold location_check. destruct (li_ptr e =? 0); [done|]. destruct (target_try_commit _ _ =? _); [|done].
  simpl. by destruct (width_of _).
Qed.

Lemma verify_linear_run w : lp_table_ok w → lp_sizes_ok w → verify_linear_predicted_values w = Ok (lp_verdict w) w.
Proof.
  intros Hok Hsz. unfold verify_linear_predicted_values, pred.
  unfold bind at 1, current_iter, getp at 1, gets at 1. unfold bind at 1, getp at 1, gets at 1.
  unfold lp_verdict. apply for_all_grid. intros i j Hi Hj. destruct (Hok i j Hi Hj) as [e He].
  specialize (Hsz i j e Hi Hj He). unfold verify_linear_predicted_value, is_mine, lp_at. run_w. rewrite He. simpl.
  unfold location_check. destruct (Z.eqb_spec (lp_ptr e) 0); [done|].
  destruct (target_try_commit _ _ =? _); [|done]. simpl. fold (lp_word (w_p w) i j e).
  destruct (width_of (lp_size e)) eqn:Ew.
  - destruct Hsz as [[n' v'] Hw]; [done|]. by rewrite Hw.
  - unfold lp_word, predicted_word. by rewrite Ew.
Qed.

(** Verification of the loop-invariant loads never stops early or changes
    the state, and succeeds exactly when every registered location in the pages
    of this try-commit unit has a supported size and holds the buffered value. *)
Theorem verify_loop_invariants_iff w : li_table_ok w →
  ∃ b, verify_loop_invariants w = Ok b w ∧
    (b = true ↔ ∀ i j e, 0 ≤ i < num_loop_invariant_loads (p_pred (w_p w)) → 0 ≤ j < num_contexts (p_pred (w_p w)) →
       loop_invariant_buffer (w_sh w) !! (i, j) = Some e → mine w (li_ptr e) →
       ∃ n, width_of (li_size e) = Some n ∧ bytes_are (p_mem (w_p w)) n (li_ptr e) (li_value e)).
Proof.
  intros Hok. eexists. split; [by apply verify_loop_invariants_run|]. unfold li_verdict. rewrite forall_grid_spec. split.
  - intros H i j e Hi Hj He Hm. specialize (H i j Hi Hj). rewrite He in H.
    destruct (proj1 (location_check_spec _ _ _) H Hm) as (n & v & Hw & ?).
    destruct (width_of (li_size e)); [|done]. injection Hw as -> <-. eauto.
  - intros H i j Hi Hj. destruct (loop_invariant_buffer (w_sh w) !! (i, j)) as [e|] eqn:He; [|done].
    apply location_check_spec. intros Hm. destruct (H i j e Hi Hj He Hm) as (n & -> & ?). simpl. eauto.
Qed.

(** The same for the linear loads: verification succeeds exactly when every
    registered location of this unit holds the prediction for the current iteration
    ([a * (iteration + 1) + b], as an integer or as a double). *)
Theorem verify_linear_iff w : lp_table_ok w → lp_sizes_ok w →
  ∃ b, verify_linear_predicted_values w = Ok b w ∧
    (b = true ↔ ∀ i j e, 0 ≤ i < num_linear_predictable_loads (p_pred (w_p w)) → 0 ≤ j < num_contexts (p_pred (w_p w)) →
       linear_predictors (w_sh w) !! (i, j) = Some e → mine w (lp_ptr e) →
       ∃ n v, lp_word (w_p w) i j e = Some (n, v) ∧ bytes_are (p_mem (w_p w)) n (lp_ptr e) v).
Proof.
  intros Hok Hsz. eexists. split; [by apply verify_linear_run|]. unfold lp_verdict. rewrite forall_grid_spec. split.
  - intros H i j e Hi Hj He Hm. specialize (H i j Hi Hj). rewrite He in H.
    exact (proj1 (location_check_spec _ _ _) H Hm).
  - intros H i j Hi Hj. destruct (linear_predictors (w_sh w) !! (i, j)) as [e|] eqn:He; [|done].
    apply location_check_spec. by apply H.
Qed.

(** ** From the committed memory to the workers *)

(** An entry after [update_loop_invariant_buffer] in a process with memory [m]. *)
Definition refresh (m : mem) (e : LoopInvariantBuffer) : LoopInvariantBuffer :=
  if li_ptr e =? 0 then e else LIBuf (li_ptr e) (i64 (load 8 m (li_ptr e))) (li_size e).

Lemma refresh_ptr m e : li_ptr (refresh m e) = li_ptr e ∧ li_size (refresh m e) = li_size e.
Proof. unfold refresh. by destruct (li_ptr e =? 0). Qed.

Lemma refresh_idem m e : refresh m (refresh m e) = refresh m e.
Proof. unfold refresh. destruct (li_ptr e =? 0) eqn:E; simpl; by rewrite E. Qed.

Lemma update_loop_invariant_buffer_run w : li_table_ok w →
  let p := p_pred (w_p w) in
  ∃ t, update_loop_invariant_buffer w = Ok tt (set_sh (set_loop_invariant_buffer t (w_sh w)) w) ∧
    ∀ i j, t !! (i, j) =
      if decide ((i, j) ∈ grid (num_loop_invariant_loads p) (num_contexts p))
      then refresh (p_mem (w_p w)) <$> loop_invariant_buffer (w_sh w) !! (i, j)
      else loop_invariant_buffer (w_sh w) !! (i, j).
Proof.
  intros Hok p. unfold update_loop_invariant_buffer. rewrite for_li_grid. fold p.
  assert (∀ x, x ∈ grid (num_loop_invariant_loads p) (num_contexts p) →
    is_Some (loop_invariant_buffer (w_sh w) !! x)) as Hs.
  { intros [i j] [Hi Hj]%elem_of_grid. by apply Hok. }
  clear Hok. revert Hs. generalize (grid (num_loop_invariant_loads p) (num_contexts p)). intros l.
  induction l as [|x l IH] using rev_ind; intros Hs.
  { exists (loop_invariant_buffer (w_sh w)). split; [by destruct w as [[] ? ?]|].
    intros i j. by rewrite decide_False by apply not_elem_of_nil. }
  destruct IH as (t & E & Ht); [intros y Hy; apply Hs, elem_of_app; by left|].
  rewrite for_app. unfold bind at 1. rewrite E. simpl. destruct x as [i0 j0].
  destruct (Hs (i0, j0)) as [e He]; [apply elem_of_app; right; by apply list_elem_of_singleton|].
  assert (∃ e', t !! (i0, j0) = Some e' ∧ refresh (p_mem (w_p w)) e' = refresh (p_mem (w_p w)) e) as (e' & He' & Hr).
  { rewrite Ht, He. destruct (decide _); simpl; [|eauto]. eexists. split; [done|]. apply refresh_idem. }
  exists (<[(i0, j0) := refresh (p_mem (w_p w)) e']> t). split.
  - unfold li_at, put_li. run_w. rewrite He'. unfold refresh. destruct (li_ptr e' =? 0) eqn:E0; simpl; [|done].
    by rewrite insert_id.
  - intros i j. destruct (decide ((i0, j0) = (i, j))) as [[= <- <-]|Hne].
    + rewrite lookup_insert_eq, decide_True, He, Hr; [done|]. apply elem_of_app. right. by apply list_elem_of_singleton.
    + rewrite lookup_insert_ne, Ht by done. destruct (decide ((i, j) ∈ l)) as [H|H].
      * rewrite decide_True; [done|]. apply elem_of_app. by left.
      * rewrite decide_False; [done|]. rewrite elem_of_app, list_elem_of_singleton. intros [?|?]; congruence.
Qed.

(** The bytes of the registered locations. *)
Definition predicted_bytes (es : list LoopInvariantBuffer) (a : Z) : Prop :=
  ∃ e n, e ∈ es ∧ li_ptr e ≠ 0 ∧ width_of (li_size e) = Some n ∧ li_ptr e ≤ a < li_ptr e + Z.of_nat n.

(** Memory [m'] has the bytes of [m] there, marked as written. *)
Definition in_step (es : list LoopInvariantBuffer) (m m' : mem) : Prop :=
  ∀ a, predicted_bytes es a → rd m' a = rd m a ∧ rd m' (GET_SHADOW_OF a) = 2.

Lemma width_of_le size n : width_of size = Some n → (n ≤ 8)%nat ∧ Z.of_nat n = size.
Proof.
  unfold width_of. destruct (Z.eqb_spec size 1), (Z.eqb_spec size 2), (Z.eqb_spec size 4), (Z.eqb_spec size 8);
    intros [= <-]; lia.
Qed.

(** Byte [k] of the value read from [m]. *)
Lemma value_byte m ptr k : 0 ≤ k < 8 → u8 (Z.shiftr (i64 (load 8 m ptr)) (8 * k)) = rd m (ptr + k).
Proof.
  intros Hk. rewrite <-(load_byte 8) by lia. change (byte_at (i64 (load 8 m ptr)) k = byte_at (load 8 m ptr) k).
  by apply byte_at_i64.
Qed.

Lemma in_step_snoc (all es : list LoopInvariantBuffer) e n m m' :
  (∀ a b, predicted_bytes all a → predicted_bytes all b → a ≠ GET_SHADOW_OF b) →
  (∀ x, x ∈ es ++ [e] → x ∈ all) → li_ptr e ≠ 0 → width_of (li_size e) = Some n → shadow_room (li_ptr e) 8 →
  in_step es m m' →
  in_step (es ++ [e]) m (store n (store n m' (li_ptr e) (i64 (load 8 m (li_ptr e)))) (GET_SHADOW_OF (li_ptr e)) (rep n 2)).
Proof.
  intros Hdis Hsub Hp Hw Hroom Hin a Ha. pose proof (width_of_le _ _ Hw) as [Hn _].
  set (ptr := li_ptr e) in *.
  assert (∀ es', (∀ x, x ∈ es' → x ∈ all) → predicted_bytes es' a → predicted_bytes all a) as Hmono.
  { intros es' Hs (x & k & Hx & H). exists x, k. split; [by apply Hs|done]. }
  assert (∀ k, 0 ≤ k < Z.of_nat n → predicted_bytes all (ptr + k)) as He.
  { intros k Hk. exists e, n. split_and!; try done; [|lia|lia].
    apply Hsub, elem_of_app. right. by apply list_elem_of_singleton. }
  assert (∀ b, GET_SHADOW_OF ptr ≤ b < GET_SHADOW_OF ptr + Z.of_nat n →
    ∃ c, b = GET_SHADOW_OF c ∧ ptr ≤ c < ptr + Z.of_nat n) as Hsh.
  { intros b Hb. exists (ptr + (b - GET_SHADOW_OF ptr)). split; [|lia].
    rewrite (shadow_add ptr 8) by (done || lia). lia. }
  pose proof (Hmono _ Hsub Ha) as Hall.
  assert (predicted_bytes es a ∨ ptr ≤ a < ptr + Z.of_nat n) as Hcase.
  { destruct Ha as (x & k & [Hx| ->%list_elem_of_singleton]%elem_of_app & Hx0 & Hxw & Hr).
    - left. by exists x, k.
    - right. fold ptr in Hr. rewrite Hw in Hxw. injection Hxw as <-. done. }
  rewrite !rd_store. split.
  - destruct (decide (GET_SHADOW_OF ptr ≤ a < GET_SHADOW_OF ptr + Z.of_nat n)) as [Hb|Hb].
    + destruct (Hsh a Hb) as (c & -> & Hc). exfalso.
      apply (Hdis (GET_SHADOW_OF c) c); [done|by replace c with (ptr + (c - ptr)) by lia; apply He; lia|done].
    + destruct (decide (ptr ≤ a < ptr + Z.of_nat n)) as [Hc|Hc].
      * rewrite value_byte by lia. f_equal. lia.
      * destruct Hcase as [Hes|]; [|lia]. by apply Hin.
  - destruct (decide (GET_SHADOW_OF ptr ≤ GET_SHADOW_OF a < GET_SHADOW_OF ptr + Z.of_nat n)) as [Hb|Hb].
    + apply rep_byte; lia.
    + destruct Hcase as [Hes|Hr].
      * destruct (decide (ptr ≤ GET_SHADOW_OF a < ptr + Z.of_nat n)) as [Hc|Hc]; [|by apply Hin].
        exfalso. apply (Hdis (GET_SHADOW_OF a) a); [|done|done].
        replace (GET_SHADOW_OF a) with (ptr + (GET_SHADOW_OF a - ptr)) by lia. apply He. lia.
      * exfalso. apply Hb. replace a with (ptr + (a - ptr)) by lia.
        rewrite (shadow_add ptr 8) by (done || lia). lia.
Qed.

Lemma set_page_rw_run {A} page w (k : W A) : (∀ a, e_mprotect_ok (w_env w) a = true) →
  (set_page_rw page ;;; k) w = k (set_p (set_p_prot (<[page := PROT_RW]> (p_prot (w_p w))) (w_p w)) w).
Proof. intros Hok. unfold set_page_rw, bind. by rewrite mprotect_page, Hok. Qed.

Lemma update_loop_invariant_run i j x m w :
  loop_invariant_buffer (w_sh w) !! (i, j) = Some (refresh m x) → (∀ a, e_mprotect_ok (w_env w) a = true) →
  (li_ptr x ≠ 0 → is_Some (width_of (li_size x))) →
  ∃ p', update_loop_invariant i j w = Ok tt (set_p p' w) ∧ p_mem p' =
    match width_of (li_size x) with
    | Some n => if li_ptr x =? 0 then p_mem (w_p w) else
        store n (store n (p_mem (w_p w)) (li_ptr x) (i64 (load 8 m (li_ptr x)))) (GET_SHADOW_OF (li_ptr x)) (rep n 2)
    | None => p_mem (w_p w)
    end.
Proof.
  intros Ht Hok Hw. unfold update_loop_invariant. unfold bind at 1, li_at, getsh, gets. unfold bind at 1.
  rewrite Ht. unfold ret at 1. unfold refresh. destruct (Z.eqb_spec (li_ptr x) 0) as [E0|E0].
  - simpl. rewrite E0, Z.eqb_refl. exists (w_p w). split; [by destruct w|]. by destruct (width_of _).
  - cbn [li_ptr li_size li_value]. rewrite (proj2 (Z.eqb_neq _ _) E0). destruct (Hw E0) as [n Hn]. rewrite Hn.
    cbn [negb when]. rewrite set_page_rw_run by done. eexists. by split.
Qed.

Lemma update_loop_invariants_in_step (w : world) (t : gmap (Z * Z) LoopInvariantBuffer) m l : ∀ l1 l2 p e,
  (∀ ij, ij ∈ l → ∃ x, t !! ij = Some x ∧ loop_invariant_buffer (w_sh w) !! ij = Some (refresh m x)) →
  (∀ a, e_mprotect_ok e a = true) →
  let es := omap (λ ij, t !! ij) l in
  (∀ x, x ∈ es → li_ptr x ≠ 0 → is_Some (width_of (li_size x)) ∧ shadow_room (li_ptr x) 8) →
  (∀ a b, predicted_bytes es a → predicted_bytes es b → a ≠ GET_SHADOW_OF b) →
  l = l1 ++ l2 → in_step (omap (λ ij, t !! ij) l1) m (p_mem p) →
  ∃ p', for_ l2 (λ ij, update_loop_invariant ij.1 ij.2) (World (w_sh w) p e) = Ok tt (World (w_sh w) p' e) ∧
    in_step es m (p_mem p').
Proof.
  intros l1 l2. revert l1. induction l2 as [|[i j] l2 IH]; intros l1 p e Ht He es Hes Hdis El Hin; simpl.
  { exists p. split; [done|]. rewrite app_nil_r in El. unfold es. by rewrite El. }
  assert ((i, j) ∈ l) as Hij by (rewrite El; apply elem_of_app; right; apply elem_of_cons; by left).
  destruct (Ht (i, j) Hij) as (x & Hx & Hr).
  assert (x ∈ es) as Hxe by (apply list_elem_of_omap; eauto).
  destruct (update_loop_invariant_run i j x m (World (w_sh w) p e) Hr He) as (p1 & E1 & M1).
  { intros Hp. by apply Hes. }
  assert (l = (l1 ++ [(i, j)]) ++ l2) as El' by (by rewrite <-app_assoc).
  destruct (IH (l1 ++ [(i, j)]) p1 e Ht He Hes Hdis El') as (p2 & E2 & H2).
  2:{ exists p2. unfold bind. rewrite E1. split; [exact E2|exact H2]. }
  rewrite omap_app. simpl. rewrite Hx, M1. destruct (Z.eqb_spec (li_ptr x) 0) as [E0|E0].
  - intros a (y & n & [Hy| ->%list_elem_of_singleton]%elem_of_app & Hy0 & Hrest); [|done].
    assert (predicted_bytes (omap (λ ij, t !! ij) l1) a) as Ha by (by exists y, n).
    destruct (width_of (li_size x)); by apply Hin.
  - destruct (Hes x Hxe E0) as [[n Hn] Hroom]. rewrite Hn. apply (in_step_snoc es); try done.
    intros y [Hy| ->%list_elem_of_singleton]%elem_of_app; [|done]. unfold es. rewrite El, omap_app.
    apply elem_of_app. by left.
Qed.

(** What the commit process buffers after the first iteration is what the
    workers start the next one with: after [update_loop_invariant_buffer] in a
    process with memory [m] and [update_loop_invariants] in another process, all
    bytes of the registered loop-invariant locations have their value in [m] and
    are marked as written, however the locations overlap. *)
Theorem loop_invariants_agree w p e :
  li_table_ok w → num_loop_invariant_loads (p_pred p) = num_loop_invariant_loads (p_pred (w_p w)) →
  num_contexts (p_pred p) = num_contexts (p_pred (w_p w)) → (∀ a, e_mprotect_ok e a = true) →
  let l := grid (num_loop_invariant_loads (p_pred p)) (num_contexts (p_pred p)) in
  let es := omap (λ ij, loop_invariant_buffer (w_sh w) !! ij) l in
  (∀ x, x ∈ es → li_ptr x ≠ 0 → is_Some (width_of (li_size x)) ∧ shadow_room (li_ptr x) 8) →
  (∀ a b, predicted_bytes es a → predicted_bytes es b → a ≠ GET_SHADOW_OF b) →
  ∃ w1 p2, update_loop_invariant_buffer w = Ok tt w1 ∧
    update_loop_invariants (World (w_sh w1) p e) = Ok tt (World (w_sh w1) p2 e) ∧
    in_step es (p_mem (w_p w)) (p_mem p2).
Proof.
  intros Hok En Ec He l es Hes Hdis. destruct (update_loop_invariant_buffer_run w Hok) as (t & E1 & Ht).
  set (w1 := set_sh _ _) in E1. rewrite <-En, <-Ec in Ht. fold l in Ht.
  destruct (update_loop_invariants_in_step w1 (loop_invariant_buffer (w_sh w)) (p_mem (w_p w)) l [] l p e)
    as (p2 & E2 & H2); try done.
  - intros [i j] Hij. pose proof (proj1 (elem_of_grid _ _ _ _) Hij) as [Hi Hj].
    destruct (Hok i j) as [x Hx]; [lia|lia|]. exists x. split; [done|]. simpl. by rewrite Ht, decide_True, Hx.
  - by intros a (x & ? & Hx%elem_of_nil & _).
  - exists w1, p2. split; [exact E1|]. split; [|exact H2]. unfold update_loop_invariants. by rewrite for_li_grid.
Qed.

(** ** A concrete table

    One loop-invariant load of 4 bytes at [0x7000] and one linear load of 8 bytes
    at [0x7010]; the try-commit unit is worker 4 of the example region. *)
Definition demo_pred_world : world :=
  World (set_linear_predictors {[(0, 0) := LPred 0x7010 8]}
          (set_loop_invariant_buffer {[(0, 0) := LIBuf 0x7000 0 4]} shared0))
    (set_p_mem (store 8 (store 8 ∅ 0x7000 0x11223344) 0x7010 (3 * 5 + 2))
      (set_current_iteration 4 (set_worker_id 4
        (set_p_pred (Predictors 1 1 1 {[(0, 0) := 3]} {[(0, 0) := 2]} ∅) demo_proc)))) demo_env.

Lemma demo_index n i j : n = 1 → 0 ≤ i < n → 0 ≤ j < n → (i, j) = (0, 0).
Proof. intros. f_equal; lia. Qed.

Lemma demo_li_table_ok : li_table_ok demo_pred_world.
Proof. intros i j Hi Hj. rewrite (demo_index 1 i j) by done. by eexists. Qed.

Lemma verify_loop_invariants_iff_witness : verify_loop_invariants demo_pred_world = Ok false demo_pred_world.
Proof.
  destruct (verify_loop_invariants_iff demo_pred_world demo_li_table_ok) as (b & E & Hb).
  rewrite E. destruct b; [|done]. exfalso.
  destruct (proj1 Hb eq_refl 0 0 (LIBuf 0x7000 0 4)) as (n & Hn & H); [done|done|done|by vm_compute|].
  injection Hn as <-. specialize (H 0 ltac:(lia)). by vm_compute in H.
Defined.

Lemma verify_linear_iff_witness : verify_linear_predicted_values demo_pred_world = Ok true demo_pred_world.
Proof.
  destruct (verify_linear_iff demo_pred_world) as (b & E & Hb).
  - intros i j Hi Hj. rewrite (demo_index 1 i j) by done. by eexists.
  - intros i j e Hi Hj He _. pose proof (demo_index 1 i j eq_refl Hi Hj) as [= -> ->]. injection He as <-. by eexists.
  - rewrite E. destruct b; [done|]. exfalso. assert (false = true) as H; [|done]. apply Hb.
    intros i j e Hi Hj He _. pose proof (demo_index 1 i j eq_refl Hi Hj) as [= -> ->]. injection He as <-.
    exists 8%nat, 17. split; [by vm_compute|]. apply load_eq_bytes. vm_compute. reflexivity.
Defined.

Lemma loop_invariants_agree_witness : ∃ w1 p2, update_loop_invariant_buffer demo_pred_world = Ok tt w1 ∧
  update_loop_invariants (World (w_sh w1) (set_p_mem ∅ (w_p demo_pred_world)) demo_env)
    = Ok tt (World (w_sh w1) p2 demo_env) ∧ rd (p_mem p2) 0x7001 = 0x33.
Proof.
  destruct (loop_invariants_agree demo_pred_world (set_p_mem ∅ (w_p demo_pred_world)) demo_env)
    as (w1 & p2 & E1 & E2 & H).
  - exact demo_li_table_ok.
  - done.
  - done.
  - done.
  - intros x Hx _. change (x ∈ [LIBuf 0x7000 0 4]) in Hx. rewrite list_elem_of_singleton in Hx. subst x.
    split; [by eexists|by vm_compute].
  - intros a b (x & n & Hx & _ & Hn & Ha) (y & n' & Hy & _ & Hn' & Hb) ->.
    change (x ∈ [LIBuf 0x7000 0 4]) in Hx. change (y ∈ [LIBuf 0x7000 0 4]) in Hy.
    rewrite list_elem_of_singleton in Hx, Hy. subst x y. injection Hn as <-. injection Hn' as <-. simpl in *.
    destruct (shadow_dist b); lia.
  - exists w1, p2. split; [exact E1|]. split; [exact E2|]. destruct (H 0x7001) as [-> _]; [|by vm_compute].
    exists (LIBuf 0x7000 0 4), 4%nat. split; [by apply list_elem_of_singleton|]. simpl. lia || (split_and!; (done || lia)).
Defined.
