(* ===== verification/Units.v ===== *)
(** The receiving units ([smtx/units.cpp]): what a worker does with the packets
    of earlier stages, the try-commit unit that validates iterations, and the
    commit unit of the main process. *)
From S2P Require Import Prelude Machine Strategy Pages SwQueue Packet State Communicate Malloc Separation Speculation Protection Prediction.
From stdpp Require Import strings.
#[local] Open Scope Z_scope.

(** ** Packets *)

(** The next packet of a queue, as a pointer. *)
Definition recv (c : chan) : W (Z * Z) := let! v := consume_from c in as_packet v.

Definition update_super_packet (stage : Z) (p shadow_p : Z * Z) : W unit :=
  let! pk := packet_at p in
  let! spk := packet_at shadow_p in
  let! mem_chunk := as_chunk (pk_value pk) in
  let! shadow_chunk := as_chunk (pk_value spk) in
  let! mc := chunk_at mem_chunk in
  let! sc := chunk_at shadow_chunk in
  modmem (λ m, update_page m (pk_ptr pk) (ck_data mc) (ck_data sc)) ;;;
  release_chunk stage mem_chunk ;;;
  release_chunk stage shadow_chunk ;;;
  release_packet shadow_p.

(** [update_normal_packet(p, shadow_p)] on the process memory. *)
Definition update_normal (p shadow_p : Z * Z) : W unit :=
  let! pk := packet_at p in
  let! spk := packet_at shadow_p in
  let! value := as_int (pk_value pk) in
  let! shadow := as_int (pk_value spk) in
  modmem (λ m, update_normal_packet m (pk_ptr pk) value shadow).

(** A loop with [break]: the body returns [false]. *)
Fixpoint for_break {A} (l : list A) (body : A → W bool) : W unit :=
  match l with
  | [] => ret tt
  | x :: l' => let! b := body x in if b then for_break l' body else ret tt
  end.

(** The fields of a [VerMallocInstance]. *)
Definition vmi_ptr (data : mem) (k : Z) : Z := load 8 data (k * SIZEOF_VerMallocInstance).
Definition vmi_size (data : mem) (k : Z) : Z := load 4 data (k * SIZEOF_VerMallocInstance + 8).
Definition vmi_heap (data : mem) (k : Z) : Z := i32 (load 4 data (k * SIZEOF_VerMallocInstance + 12)).

Definition replay_instance (source_wid : Z) (data : mem) (k : Z) : W unit :=
  (if vmi_heap data k =? -1
   then update_ver_malloc source_wid (vmi_size data k) (vmi_ptr data k)
   else update_ver_separation_malloc (vmi_size data k) source_wid (u32 (vmi_heap data k)) (vmi_ptr data k)) ;;;
  ret tt.

(** The loop over a chunk of allocations; [also] is what the commit unit does
    in addition. *)
Definition replay_chunk (source_wid : Z) (data : mem) (also : Z → W unit) : W unit :=
  for_break (seqZ 0 (PAGE_SIZE / SIZEOF_VerMallocInstance)) (λ k,
    if vmi_ptr data k =? 0 then ret false else
    replay_instance source_wid data k ;;; also k ;;; ret true).

(** ** Workers *)

(** At most [2^13] packets are in a queue: [2^14] rounds are enough for every
    loop that consumes one packet per round. *)
Definition process_reverse_commit_queue (wid : Z) : W unit :=
  loop 14
    (let! empty := is_empty (Reverse wid) in
     if empty then ret false else
     let! p := recv (Reverse wid) in
     let! pk := packet_at p in
     let! g := g_ in
     let! value := as_int (pk_value pk) in
     (if pk_is_write pk =? REGULAR then
        let source_wid := u32 value in
        when ((GET_MY_STAGE g wid <=? GET_MY_STAGE g source_wid) && negb (source_wid =? wid))
          (update_ver_malloc source_wid (pk_size pk) (pk_ptr pk) ;;; ret tt)
      else
        assert_ (pk_is_write pk =? SEPARATION) ;;;
        let source_wid := u32 (Z.shiftr (u64 value) 32) in
        let heapid := u32 value in
        when ((GET_MY_STAGE g wid <=? GET_MY_STAGE g source_wid) && negb (source_wid =? wid))
          (update_ver_separation_malloc (pk_size pk) source_wid heapid (pk_ptr pk) ;;; ret tt)) ;;;
     ret true).

(** The body of the packet loop for one queue; the result tells whether to go
    on. *)
Definition process_packet (my_stage source_wid : Z) (c : chan) : W bool :=
  let! p := recv c in
  let! pk := packet_at p in
  let type := pk_type pk in
  let! stop :=
    if type =? NORMAL then
      let! shadow_p := recv c in
      update_normal p shadow_p ;;; ret false
    else if type =? SUPER then
      (if pk_is_write pk =? CHECK_RO_PAGE then
         let! mem_chunk := as_chunk (pk_value pk) in
         release_chunk my_stage mem_chunk ;;; ret false
       else
         let! shadow_p := recv c in
         update_super_packet my_stage p shadow_p ;;; ret false)
    else if (type =? EOI) || (type =? MISSPEC) || (type =? EOW) then ret true
    else if type =? ALLOC then
      (if pk_size pk =? 0 then
         let! chunk := as_chunk (pk_value pk) in
         let! ck := chunk_at chunk in
         replay_chunk source_wid (ck_data ck) (λ _, ret tt) ;;;
         release_chunk my_stage chunk ;;; ret false
       else ret false)
    else if type =? FREE then update_ver_free source_wid (pk_ptr pk) ;;; ret false
    else if type =? BOI then ret false
    else assert_ false ;;; ret false in
  release_packet p ;;;
  ret (negb stop).

Definition process_incoming_packets (wid iter : Z) : W unit :=
  let! g := g_ in
  let my_stage := GET_MY_STAGE g wid in
  let! tcb := ctl try_commit_begin in
  assert_ (wid <? tcb) ;;;
  for_ (seqZ 0 my_stage) (λ i,
    let source_wid := wid_of_iter g iter i in
    loop 14 (process_packet my_stage source_wid (Ucvf source_wid wid))).

(** ** The try-commit unit *)

(** [try_commit_buffer] up to [buf_index]; entries beyond it are never read. *)
Definition forward_values_to_commit (wid : Z) (buf : list packet) : W unit :=
  let! tcb := ctl try_commit_begin in
  assert_ (tcb <=? wid) ;;;
  for_ buf (λ p, send wid (pk_ptr p) (pk_value p) (pk_size p) (pk_is_write p) (pk_type p) (ToCommit (wid - tcb))).

Definition buffer_packet (buf : list packet) (p : Z * Z) : W (list packet) :=
  let! buf :=
    if lenZ buf =? PACKET_POOL_SIZE then
      let! wid := my_worker_id in forward_values_to_commit wid buf ;;; ret []
    else ret buf in
  let! pk := packet_at p in
  ret (buf ++ [pk]).

Definition try_commit_failed {A} : W A := misspec "try-commit failed" ;;; assert_ false ;;; halt Fault.

(** The local variables of the loop over the packets of one stage. *)
Record tc_state := TC {
  tc_buf : list packet;
  tc_terminated_iter : Z;
  tc_done : bool;
  tc_misspec : bool }.
Definition with_buf (st : tc_state) (buf : list packet) : tc_state :=
  TC buf (tc_terminated_iter st) (tc_done st) (tc_misspec st).

(** [check_packet] and [check_page] on the process memory.  The bytes that were
    updated before a conflict are dropped: the process ends then. *)
Definition run_check (f : mem → option mem) : W bool :=
  let! m := getp p_mem in
  match f m with
  | Some m' => modmem (λ _, m') ;;; ret true
  | None => ret false
  end.

Definition tc_normal (stage : Z) (c : chan) (p : Z * Z) (st : tc_state) : W tc_state :=
  let! pk := packet_at p in
  let! shadow_p := recv c in
  let! spk := packet_at shadow_p in
  let! data := as_int (pk_value pk) in
  let! shadow := as_int (pk_value spk) in
  let! g := g_ in
  when (pk_is_write pk =? CHECK_REQUIRED)
    (assert_ (pk_size pk =? 8) ;;;
     let! ok := run_check (λ m, check_packet g m (pk_ptr pk) (u64 data) (u64 shadow) stage) in
     if ok then ret tt else try_commit_failed) ;;;
  let! buf := buffer_packet (tc_buf st) p in
  let! buf := buffer_packet buf shadow_p in
  release_packet shadow_p ;;;
  ret (with_buf st buf).

Definition tc_super (stage : Z) (c : chan) (p : Z * Z) (st : tc_state) : W tc_state :=
  let! pk := packet_at p in
  let! g := g_ in
  let! mem_chunk := as_chunk (pk_value pk) in
  let! mc := chunk_at mem_chunk in
  if pk_is_write pk =? CHECK_RO_PAGE then
    let! m := getp p_mem in
    for_ (seqZ 0 (PAGE_SIZE / 8)) (λ pageindex,
      (* the result is not used *)
      let! _ := ret (check_ro_page g m (load 8 (ck_data mc) (8 * pageindex)) stage) in ret tt) ;;;
    release_chunk 0 mem_chunk ;;;
    ret st
  else
    let! shadow_p := recv c in
    let! spk := packet_at shadow_p in
    let! shadow_chunk := as_chunk (pk_value spk) in
    let! sc := chunk_at shadow_chunk in
    when (pk_is_write pk =? CHECK_REQUIRED)
      (let! ok := run_check (λ m, check_page g m (pk_ptr pk) (ck_data mc) (ck_data sc) stage) in
       if ok then ret tt else try_commit_failed) ;;;
    let! buf := buffer_packet (tc_buf st) p in
    let! buf := buffer_packet buf shadow_p in
    release_packet shadow_p ;;;
    ret (with_buf st buf).

Definition tc_boi (st : tc_state) : W tc_state :=
  let! ok := verify_loop_invariants in
  (if ok then ret tt else try_commit_failed) ;;;
  let! ok := verify_linear_predicted_values in
  (if ok then ret tt else try_commit_failed) ;;;
  ret st.

Definition tc_eow (stage num_stages iter : Z) (p : Z * Z) (st : tc_state) : W tc_state :=
  let! t :=
    if tc_terminated_iter st =? -1 then ret iter
    else assert_ (tc_terminated_iter st =? iter) ;;; ret (tc_terminated_iter st) in
  let! buf := if stage =? num_stages - 1 then buffer_packet (tc_buf st) p else ret (tc_buf st) in
  ret (TC buf t true (tc_misspec st)).

Definition tc_alloc (my_try_commit_id source_wid : Z) (p : Z * Z) (st : tc_state) : W tc_state :=
  let! pk := packet_at p in
  let! buf := if my_try_commit_id =? 0 then buffer_packet (tc_buf st) p else ret (tc_buf st) in
  when (pk_size pk =? 0)
    (let! chunk := as_chunk (pk_value pk) in
     let! ck := chunk_at chunk in
     replay_chunk source_wid (ck_data ck) (λ _, ret tt)) ;;;
  ret (with_buf st buf).

(** One packet of stage [stage], by its type. *)
Definition tc_packet (my_try_commit_id stage num_stages source_wid iter : Z) (c : chan) (st : tc_state)
    : W tc_state :=
  let! p := recv c in
  let! pk := packet_at p in
  let type := pk_type pk in
  let! st :=
    if type =? NORMAL then tc_normal stage c p st
    else if type =? SUPER then tc_super stage c p st
    else if type =? BOI then tc_boi st
    else if type =? EOI then
      let! buf := buffer_packet (tc_buf st) p in
      ret (TC buf (tc_terminated_iter st) true (tc_misspec st))
    else if type =? MISSPEC then ret (TC (tc_buf st) (tc_terminated_iter st) (tc_done st) true)
    else if type =? EOW then tc_eow stage num_stages iter p st
    else if type =? ALLOC then tc_alloc my_try_commit_id source_wid p st
    else if type =? FREE then
      let! buf := if my_try_commit_id =? 0 then buffer_packet (tc_buf st) p else ret (tc_buf st) in
      update_ver_free source_wid (pk_ptr pk) ;;; ret (with_buf st buf)
    else assert_ false ;;; ret st in
  release_packet p ;;;
  ret st.

(** [while (!done && !misspec)] for one stage. *)
Definition tc_stage (my_try_commit_id num_stages iter stage : Z) (buf : list packet) (terminated_iter : Z)
    : W tc_state :=
  let! g := g_ in
  let source_wid := wid_of_iter g iter stage in
  let c := ToTryCommit source_wid my_try_commit_id in
  loop_with 14 (λ st,
    let! st := tc_packet my_try_commit_id stage num_stages source_wid iter c st in
    ret (if tc_done st || tc_misspec st then inr st else inl st))
    (TC buf terminated_iter false false).

(** The loop over the stages; [None] is the early return on misspeculation. *)
Fixpoint tc_stages (my_try_commit_id num_stages iter : Z) (stages : list Z) (buf : list packet)
    (terminated_iter : Z) : W (option (list packet * Z)) :=
  match stages with
  | [] => ret (Some (buf, terminated_iter))
  | i :: stages' =>
      let! st := tc_stage my_try_commit_id num_stages iter i buf terminated_iter in
      if tc_misspec st then ret None
      else tc_stages my_try_commit_id num_stages iter stages' (tc_buf st) (tc_terminated_iter st)
  end.

(** One round of [while (true)]: validate one iteration and forward it; [true]
    to go on. *)
Definition try_commit_iter : W bool :=
  let! g := g_ in
  let num_stages := GET_NUM_STAGES g in
  let! wid := my_worker_id in
  let! tcb := ctl try_commit_begin in
  let my_try_commit_id := u32 (wid - tcb) in
  let! iter := current_iter in
  let! r := tc_stages my_try_commit_id num_stages iter (seqZ 0 num_stages) [] (-1) in
  match r with
  | None => ret false
  | Some (buf, terminated_iter) =>
      forward_values_to_commit wid buf ;;;
      if negb (terminated_iter =? -1) then ret false else advance_iter ;;; ret true
  end.

Definition try_commit : W unit := loop 14 try_commit_iter.

(** ** The commit unit *)

Record cm_state := CM {
  cm_wait : gmap Z bool;
  cm_eoi : gmap Z bool;
  cm_stage : Z }.
Definition flag (t : gmap Z bool) (i : Z) : bool := default false (t !! i).

(** All stages of the current iteration are committed. *)
Definition cm_iteration : W unit :=
  let! iter := current_iter in
  modpcb (set_last_committed_iteration iter) ;;;
  when (iter =? 0)
    (update_loop_invariant_buffer ;;;
     let! g := getsh good_to_go in
     match g with Some _ => modsh (set_good_to_go (Some 1)) | None => halt Fault end) ;;;
  advance_iter.

(** The end of an iteration of one stage, reported by try-commit unit [i]. *)
Definition cm_eoi_packet (num_stages n_aux i : Z) (st : cm_state) : W cm_state :=
  let eoi := <[i := true]> (cm_eoi st) in
  let synched := forallb (flag eoi) (seqZ 0 n_aux) in
  if negb synched then ret (CM (<[i := true]> (cm_wait st)) eoi (cm_stage st)) else
  let eoi := foldl (λ t j, <[j := false]> t) eoi (seqZ 0 n_aux) in
  let wait := foldl (λ t j, <[j := false]> t) (cm_wait st) (seqZ 0 n_aux) in
  if cm_stage st =? num_stages - 1 then cm_iteration ;;; ret (CM wait eoi 0)
  else ret (CM wait eoi (cm_stage st + 1)).

(** The ALLOC packet of iteration 0 is passed on to all workers. *)
Definition cm_broadcast (iter source_wid : Z) (data : mem) (k : Z) : W unit :=
  when (iter =? 0)
    (let heap := vmi_heap data k in
     let value := if heap =? -1 then source_wid
                  else Z.lor (u64 (Z.shiftl source_wid 32)) (Z.land (u64 heap) 0xffffffff) in
     let write := if heap =? -1 then REGULAR else SEPARATION in
     commit_queue_broadcast_event MAIN_PROCESS_WID (vmi_ptr data k) (vmi_size data k) (WInt value) write ALLOC).

Definition cm_packet (num_stages n_aux i : Z) (st : cm_state) : W cm_state :=
  let c := ToCommit i in
  let! p := recv c in
  let! pk := packet_at p in
  let type := pk_type pk in
  let! g := g_ in
  let! iter := current_iter in
  let source_wid := wid_of_iter g iter (cm_stage st) in
  let! st :=
    if type =? NORMAL then
      let! shadow_p := recv c in
      update_normal p shadow_p ;;; release_packet shadow_p ;;; ret st
    else if type =? BOI then assert_ false ;;; ret st
    else if type =? SUPER then
      let! shadow_p := recv c in
      update_super_packet 0 p shadow_p ;;; ret st
    else if type =? EOI then cm_eoi_packet num_stages n_aux i st
    else if type =? EOW then ret st
    else if type =? ALLOC then
      when (pk_size pk =? 0)
        (let! chunk := as_chunk (pk_value pk) in
         let! ck := chunk_at chunk in
         replay_chunk source_wid (ck_data ck) (cm_broadcast iter source_wid (ck_data ck)) ;;;
         release_chunk 0 chunk) ;;;
      ret st
    else if type =? FREE then update_ver_free source_wid (pk_ptr pk) ;;; ret st
    else assert_ false ;;; ret st in
  release_packet p ;;;
  ret st.

(** [while (!empty)] over the queue of unit [i]. *)
Definition cm_unit (num_stages n_aux i : Z) (st : cm_state) : W cm_state :=
  if flag (cm_wait st) i then ret st else
  loop_with 14 (λ st,
    let! empty := is_empty (ToCommit i) in
    if empty then ret (inr st) else
    let! st := cm_packet num_stages n_aux i st in
    ret (if flag (cm_wait st) i then inr st else inl st)) st.

Fixpoint cm_units (num_stages n_aux : Z) (units : list Z) (st : cm_state) : W cm_state :=
  match units with
  | [] => ret st
  | i :: units' => let! st := cm_unit num_stages n_aux i st in cm_units num_stages n_aux units' st
  end.

Section commit.
(** What the other processes do to the shared state before round [r], and
    whether [waitpid] reports in round [r] that worker [wid] has exited. *)
Context (others : Z → shared → shared) (exited : Z → Z → bool).

Definition commit_round (n_all_workers num_stages n_aux r : Z) (st : cm_state) : W (cm_state * bool) :=
  modsh (others r) ;;;
  let! st := cm_units num_stages n_aux (seqZ 0 n_aux) st in
  let all_terminated := forallb (exited r) (seqZ 0 n_all_workers) in
  let! s := getsh id in
  let empty := forallb (λ i, match chan_get s (ToCommit i) with Some q => sw_queue_empty q | None => false end)
                       (seqZ 0 n_aux) in
  ret (st, all_terminated && empty).

(** [while (true)], at most [2^31] rounds. *)
Definition commit (n_all_workers : Z) : W unit :=
  let! n_aux := ctl num_aux_workers in
  let! g := g_ in
  let num_stages := GET_NUM_STAGES g in
  let! _ := loop_with 31 (λ '(r, st),
    let! res := commit_round n_all_workers num_stages n_aux r st in
    ret (if (res.2 : bool) then inr (r, res.1) else inl (r + 1, res.1))) (0, CM ∅ ∅ 0) in
  ret tt.
End commit.

(** ** The barrier of the commit unit

    The commit unit reaches the end of a stage of an iteration when every
    try-commit unit has sent its EOI packet; units that are ahead are not served
    until then. *)
Section barrier.
Context (num_stages n_aux iter0 : Z).

(** What the commit unit needs to handle the end of an iteration. *)
Definition commit_ready (w : world) : Prop := li_table_ok w ∧ is_Some (good_to_go (w_sh w)).

(** The steps besides EOI packets do not touch these. *)
Definition same_progress (w w' : world) : Prop :=
  current_iteration (w_p w') = current_iteration (w_p w) ∧
  last_committed_iteration <$> the_pcb (w_sh w') = last_committed_iteration <$> the_pcb (w_sh w) ∧
  good_to_go (w_sh w') = good_to_go (w_sh w).

(** [eoi_reach sent w st]: unit [i] had [sent i] EOI packets handled. *)
Inductive eoi_reach : (Z → Z) → world → cm_state → Prop :=
| er_start w : commit_ready w → current_iteration (w_p w) = iter0 → is_Some (the_pcb (w_sh w)) →
    eoi_reach (λ _, 0) w (CM ∅ ∅ 0)
| er_eoi sent w st i w' st' : eoi_reach sent w st → 0 ≤ i < n_aux → flag (cm_wait st) i = false →
    cm_eoi_packet num_stages n_aux i st w = Ok st' w' →
    eoi_reach (λ j, if j =? i then sent j + 1 else sent j) w' st'
| er_other sent w st w' : eoi_reach sent w st → same_progress w w' → commit_ready w' → eoi_reach sent w' st.

(** After [b] barriers. *)
Record barriers (sent : Z → Z) (w : world) (st : cm_state) (b : Z) : Prop := {
  br_pos : 0 ≤ b;
  br_sent i : 0 ≤ i < n_aux → sent i = b + (if flag (cm_wait st) i then 1 else 0);
  br_slow : ∃ i, 0 ≤ i < n_aux ∧ sent i = b;
  br_eoi i : 0 ≤ i < n_aux → flag (cm_eoi st) i = flag (cm_wait st) i;
  br_stage : cm_stage st = b mod num_stages;
  br_iter : current_iteration (w_p w) = i32 (iter0 + b / num_stages);
  br_last : num_stages ≤ b →
    last_committed_iteration <$> the_pcb (w_sh w) = Some (i32 (iter0 + b / num_stages - 1));
  br_go : iter0 = 0 → num_stages ≤ b → good_to_go (w_sh w) = Some 1;
  br_pcb : is_Some (the_pcb (w_sh w));
  br_ready : commit_ready w }.

Lemma flag_insert t i j b : flag (<[i := b]> t) j = if decide (i = j) then b else flag t j.
Proof. unfold flag. destruct (decide (i = j)) as [->|]; [by rewrite lookup_insert_eq|by rewrite lookup_insert_ne]. Qed.

Lemma flag_reset l : ∀ t j, j ∈ l → flag (foldl (λ t j, <[j := false]> t) t l) j = false.
Proof.
  induction l as [|x l IH] using rev_ind; intros t j Hj; [by apply elem_of_nil in Hj|].
  rewrite foldl_app. simpl. rewrite flag_insert. destruct (decide (x = j)); [done|].
  apply elem_of_app in Hj as [Hj|Hj%list_elem_of_singleton]; [by apply IH|by subst].
Qed.

Lemma i32_succ x : i32 (i32 x + 1) = i32 (x + 1).
Proof.
  unfold swrap, wrap. f_equal. change (32 - 1) with 31.
  replace ((x + 2 ^ 31) mod 2 ^ 32 - 2 ^ 31 + 1 + 2 ^ 31) with ((x + 2 ^ 31) mod 2 ^ 32 + 1) by lia.
  rewrite Zplus_mod_idemp_l. f_equal. lia.
Qed.

(** What handling an EOI packet leaves alone. *)
Definition eoi_frame (w w' : world) : Prop :=
  p_mem (w_p w') = p_mem (w_p w) ∧ sh_pools (w_sh w') = sh_pools (w_sh w) ∧
  (∀ c, chan_get (w_sh w') c = chan_get (w_sh w) c) ∧ w_env w' = w_env w.

(** Handling the last EOI packet of an iteration. *)
Definition committed (w w' : world) : Prop :=
  let iter := current_iteration (w_p w) in
  current_iteration (w_p w') = i32 (iter + 1) ∧
  last_committed_iteration <$> the_pcb (w_sh w') = Some iter ∧
  good_to_go (w_sh w') = (if iter =? 0 then Some 1 else good_to_go (w_sh w)) ∧
  commit_ready w' ∧ eoi_frame w w'.

Lemma cm_iteration_run w : commit_ready w → is_Some (the_pcb (w_sh w)) →
  ∃ w', cm_iteration w = Ok tt w' ∧ committed w w'.
Proof.
  intros [Hli [g Hg]] [p Hp]. unfold cm_iteration. unfold bind at 1, current_iter, getp at 1, gets at 1.
  unfold bind at 1. rewrite (modpcb_ok _ p w Hp). set (w1 := set_pcb _ w). unfold committed.
  destruct (Z.eqb_spec (current_iteration (w_p w)) 0) as [E0|E0].
  - destruct (update_loop_invariant_buffer_run w1) as (t & E & Ht); [exact Hli|].
    unfold bind at 1. cbn [when]. unfold bind at 1. rewrite E. unfold bind at 1, getsh, gets. simpl. rewrite Hg.
    eexists. split; [done|]. simpl. rewrite E0.
    refine (conj eq_refl (conj eq_refl (conj eq_refl (conj _ (conj eq_refl (conj eq_refl (conj _ eq_refl)))))));
      [|by intros []]. split; simpl; [|eauto]. intros i j Hi Hj. simpl in *. rewrite Ht. destruct (Hli i j Hi Hj) as [e He]. simpl in *.
    rewrite He. destruct (decide _); simpl; eauto.
  - unfold bind at 1. cbn [when ret]. eexists. split; [done|]. simpl. split_and!; try done.
Qed.

(** The flags once the unit that completes a barrier has reported, and when
    some unit has not. *)
Lemma eoi_all sent w st i b : barriers sent w st b → flag (cm_wait st) i = false →
  forallb (flag (<[i := true]> (cm_eoi st))) (seqZ 0 n_aux) = true →
  ∀ j, 0 ≤ j < n_aux → (if j =? i then sent j + 1 else sent j) = b + 1.
Proof.
  intros B Hwi Hsy j Hj. rewrite forallb_forall in Hsy. specialize (Hsy j).
  rewrite <-list_elem_of_In, elem_of_seqZ, flag_insert in Hsy. specialize (Hsy ltac:(lia)).
  pose proof (br_eoi _ _ _ _ B j Hj) as He. rewrite (br_sent _ _ _ _ B j Hj), <-He.
  destruct (Z.eqb_spec j i) as [->|]; [rewrite He, Hwi; lia|].
  rewrite decide_False in Hsy by done. rewrite Hsy. lia.
Qed.

Lemma eoi_missing t : forallb (flag t) (seqZ 0 n_aux) = false → ∃ j, 0 ≤ j < n_aux ∧ flag t j = false.
Proof.
  intros Hsy. apply not_true_iff_false in Hsy. rewrite forallb_forall in Hsy.
  destruct (decide (Exists (λ j, flag t j = false) (seqZ 0 n_aux))) as [Hx|Hx].
  - apply Exists_exists in Hx as (j & Hj%elem_of_seqZ & Hf). exists j. split; [lia|done].
  - destruct Hsy. intros j Hj%list_elem_of_In. destruct (flag t j) eqn:Ef; [done|]. destruct Hx.
    apply Exists_exists. eauto.
Qed.

Lemma flags_reset t j : 0 ≤ j < n_aux → flag (foldl (λ t j, <[j := false]> t) t (seqZ 0 n_aux)) j = false.
Proof. intros Hj. apply flag_reset, elem_of_seqZ. lia. Qed.

(** A report that completes no barrier. *)
Lemma barriers_wait sent w st i b : barriers sent w st b → 0 ≤ i < n_aux → flag (cm_wait st) i = false →
  forallb (flag (<[i := true]> (cm_eoi st))) (seqZ 0 n_aux) = false →
  barriers (λ j, if j =? i then sent j + 1 else sent j) w
    (CM (<[i := true]> (cm_wait st)) (<[i := true]> (cm_eoi st)) (cm_stage st)) b.
Proof.
  intros B Hi Hwi Hsy. destruct (eoi_missing _ Hsy) as (j & Hj & Hfj).
  rewrite flag_insert in Hfj. destruct (decide (i = j)) as [|Hij]; [done|]. destruct B as [Hpos Hsent Hslow Heoi Hst Hit Hlast Hgo Hpcb Hrd].
  split; simpl; try done.
  - intros k Hk. rewrite flag_insert, (Hsent k Hk). destruct (Z.eqb_spec k i) as [->|].
    + rewrite Hwi, decide_True by done. lia.
    + by rewrite decide_False by done.
  - exists j. split; [done|]. rewrite (proj2 (Z.eqb_neq _ _)) by done. rewrite Hsent by done.
    rewrite <-Heoi, Hfj by done. lia.
  - intros k Hk. rewrite !flag_insert. destruct (decide (i = k)); [done|]. by apply Heoi.
Qed.

(** The barrier before a stage that is not the first. *)
Lemma barriers_next sent sent' w st st' b : 0 < num_stages → 0 < n_aux → barriers sent w st b → cm_stage st ≠ num_stages - 1 →
  (∀ j, 0 ≤ j < n_aux → sent' j = b + 1) → (∀ j, 0 ≤ j < n_aux → flag (cm_wait st') j = false ∧ flag (cm_eoi st') j = false) →
  cm_stage st' = cm_stage st + 1 → barriers sent' w st' (b + 1).
Proof.
  intros Hns Hna [Hpos Hsent Hslow Heoi Hst Hit Hlast Hgo Hpcb Hrd] Enot Hall Hrs Hst'.
  assert ((b + 1) mod num_stages = b mod num_stages + 1 ∧ (b + 1) / num_stages = b / num_stages) as [Em Ed].
  { rewrite Hst in Enot. pose proof (Z.div_mod b num_stages ltac:(lia)).
    pose proof (Z.mod_pos_bound b num_stages Hns).
    split; symmetry; [apply (Z.mod_unique_pos _ _ (b / num_stages))|
      apply (Z.div_unique_pos _ _ _ (b mod num_stages + 1))]; lia. }
  assert (num_stages ≤ b + 1 → num_stages ≤ b) as Hle.
  { intros Hb. destruct (decide (num_stages ≤ b)); [done|]. rewrite Hst, Z.mod_small in Enot by lia. lia. }
  split; rewrite ?Em, ?Ed; try done; [lia| | | |lia| |].
  - intros j Hj. rewrite Hall, (proj1 (Hrs j Hj)) by done. lia.
  - exists 0. split; [lia|]. apply Hall. lia.
  - intros j Hj. by destruct (Hrs j Hj) as [-> ->].
  - intros Hb. apply Hlast, Hle, Hb.
  - intros H0 Hb. apply Hgo; [done|]. apply Hle, Hb.
Qed.

(** The barrier at the end of an iteration. *)
Lemma barriers_commit sent sent' w w' st st' b : 0 < num_stages → 0 < n_aux → barriers sent w st b → cm_stage st = num_stages - 1 →
  committed w w' →
  (∀ j, 0 ≤ j < n_aux → sent' j = b + 1) → (∀ j, 0 ≤ j < n_aux → flag (cm_wait st') j = false ∧ flag (cm_eoi st') j = false) →
  cm_stage st' = 0 → barriers sent' w' st' (b + 1).
Proof.
  intros Hns Hna [Hpos Hsent Hslow Heoi Hst Hit Hlast Hgo Hpcb Hrd] Elast (Hc1 & Hc2 & Hc3 & Hc4 & _) Hall Hrs Hst'.
  assert ((b + 1) mod num_stages = 0 ∧ (b + 1) / num_stages = b / num_stages + 1) as [Em Ed].
  { rewrite Hst in Elast. pose proof (Z.div_mod b num_stages ltac:(lia)).
    assert (b + 1 = num_stages * (b / num_stages + 1) + 0) as E1 by lia. split.
    - symmetry. by apply (Z.mod_unique_pos _ _ (b / num_stages + 1)); lia.
    - symmetry. by apply (Z.div_unique_pos _ _ _ 0); lia. }
  split; rewrite ?Em, ?Ed; try done; [lia| | | | | | |].
  - intros j Hj. rewrite Hall, (proj1 (Hrs j Hj)) by done. lia.
  - exists 0. split; [lia|]. apply Hall. lia.
  - intros j Hj. by destruct (Hrs j Hj) as [-> ->].
  - rewrite Hc1, Hit, i32_succ. f_equal. lia.
  - intros _. rewrite Hc2, Hit. do 2 f_equal. lia.
  - intros H0 Hb. rewrite Hc3. destruct (Z.eqb_spec (current_iteration (w_p w)) 0) as [|Hne]; [done|].
    apply Hgo; [done|]. destruct (decide (num_stages ≤ b)) as [|Hlt]; [done|]. exfalso. apply Hne.
    rewrite Hit, H0, Z.div_small by lia. done.
  - destruct (the_pcb (w_sh w')); [eauto|done].
Qed.

Lemma barriers_step sent w st i b : 0 < num_stages → barriers sent w st b → 0 ≤ i < n_aux →
  flag (cm_wait st) i = false →
  ∃ st' w', cm_eoi_packet num_stages n_aux i st w = Ok st' w' ∧ eoi_frame w w' ∧
    ∃ b', barriers (λ j, if j =? i then sent j + 1 else sent j) w' st' b'.
Proof.
  intros Hns B Hi Hwi. unfold cm_eoi_packet.
  destruct (forallb (flag (<[i := true]> (cm_eoi st))) (seqZ 0 n_aux)) eqn:Hsy; simpl.
  - pose proof (eoi_all _ _ _ _ _ B Hwi Hsy) as Hall.
    destruct (Z.eqb_spec (cm_stage st) (num_stages - 1)) as [Elast|Enot].
    + destruct (cm_iteration_run w) as (w' & E & Hc); [apply B|apply B|].
      unfold bind. rewrite E. eexists _, _. split; [done|]. split; [apply Hc|]. exists (b + 1).
      eapply barriers_commit; eauto; [lia|]. intros j Hj. simpl. by rewrite !flags_reset.
    + eexists _, _. split; [done|]. split; [by split_and!|]. exists (b + 1).
      eapply barriers_next; eauto; [lia|]. intros j Hj. simpl. by rewrite !flags_reset.
  - eexists _, _. split; [done|]. split; [by split_and!|]. exists b. by apply barriers_wait.
Qed.

Lemma barriers_start w : 0 < num_stages → 0 < n_aux → -2 ^ 31 ≤ iter0 < 2 ^ 31 →
  commit_ready w → current_iteration (w_p w) = iter0 → is_Some (the_pcb (w_sh w)) →
  barriers (λ _, 0) w (CM ∅ ∅ 0) 0.
Proof.
  intros Hns Haux Hi0 Hrd Hit Hpcb. split; simpl; try done.
  - by exists 0.
  - rewrite Z.div_0_l, Z.add_0_r by lia. rewrite Hit. unfold swrap, wrap.
    rewrite Z.mod_small; [lia|]. change (32 - 1) with 31. lia.
  - lia.
  - lia.
Qed.

(** [C38] The commit unit as a barrier: however the EOI packets of the
    try-commit units are interleaved, after each of them the number of completed
    barriers is the number of EOI packets of the slowest unit, no unit is more than
    one ahead, and every [num_stages] barriers commit one iteration: the iteration
    counter, [last_committed_iteration] and the start signal for the workers follow
    it.  A unit that is not waiting can always be served. *)
Theorem commit_barrier sent w st :
  0 < num_stages → 0 < n_aux → -2 ^ 31 ≤ iter0 < 2 ^ 31 → eoi_reach sent w st →
  (∃ b, barriers sent w st b) ∧
  (∀ i, 0 ≤ i < n_aux → flag (cm_wait st) i = false →
     ∃ st' w', cm_eoi_packet num_stages n_aux i st w = Ok st' w').
Proof.
  intros Hns Haux Hi0 H. assert (∃ b, barriers sent w st b) as [b Hb].
  { induction H as [w Hrd Hit Hpcb|sent w st i w' st' _ [b IH] Hi Hw E|sent w st w' _ [b IH] (S1 & S2 & S3) Hrd].
    - exists 0. by apply barriers_start.
    - destruct (barriers_step sent w st i b Hns IH Hi Hw) as (st1 & w1 & E1 & _ & Hb).
      rewrite E in E1. injection E1 as <- <-. exact Hb.
    - exists b. destruct IH as [? ? ? ? ? ? ? ? [p Hp] ?]. split; try done.
      + by rewrite S1.
      + intros Hn. rewrite S2. auto.
      + intros H0 Hn. rewrite S3. auto.
      + rewrite Hp in S2. destruct (the_pcb (w_sh w')); [eauto|done]. }
  split; [by exists b|]. intros i Hi Hw. destruct (barriers_step sent w st i b Hns Hb Hi Hw) as (st1 & w1 & E1 & _).
  eauto.
Qed.

End barrier.

(** Two try-commit units and a loop of one stage: unit 1, then unit 0 end
    iteration 4. *)
Definition demo_commit_world : world :=
  let w := demo_pred_world in
  set_sh (set_good_to_go (Some 1) (set_the_pcb (Some pcb0) (w_sh w))) w.

Lemma commit_barrier_witness : ∃ w st, eoi_reach 1 2 4 (λ j, if j =? 0 then (if j =? 1 then 0 + 1 else 0) + 1
    else if j =? 1 then 0 + 1 else 0) w st ∧ last_committed_iteration <$> the_pcb (w_sh w) = Some 4.
Proof.
  assert (eoi_reach 1 2 4 (λ _, 0) demo_commit_world (CM ∅ ∅ 0)) as R0.
  { apply er_start; [|done|by eexists]. split; [exact demo_li_table_ok|]. by eexists. }
  destruct (commit_barrier 1 2 4 _ _ _ ltac:(lia) ltac:(lia) ltac:(lia) R0) as [_ H0].
  destruct (H0 1 ltac:(lia) eq_refl) as (st1 & w1 & E1).
  pose proof (er_eoi 1 2 4 _ _ _ 1 _ _ R0 ltac:(lia) eq_refl E1) as R1.
  destruct (commit_barrier 1 2 4 _ _ _ ltac:(lia) ltac:(lia) ltac:(lia) R1) as [_ H1].
  assert (st1 = CM {[1 := true]} {[1 := true]} 0 ∧ w1 = demo_commit_world) as [-> ->].
  { vm_compute in E1. injection E1 as <- <-. split; by vm_compute. }
  destruct (H1 0 ltac:(lia) eq_refl) as (st2 & w2 & E2).
  pose proof (er_eoi 1 2 4 _ _ _ 0 _ _ R1 ltac:(lia) eq_refl E2) as R2.
  exists w2, st2. split; [exact R2|].
  destruct (commit_barrier 1 2 4 _ _ _ ltac:(lia) ltac:(lia) ltac:(lia) R2) as [[b Hb] _].
  assert (b = 1) as ->.
  { destruct (br_slow _ _ _ _ _ _ _ Hb) as (i & Hi & Hs). assert (i = 0 ∨ i = 1) as [->| ->] by lia; simpl in Hs; lia. }
  apply (br_last _ _ _ _ _ _ _ Hb). lia.
Defined.
