(* ===== verification/Messages.v ===== *)
(** Messages in queues: the abstract view of the packets that workers, try-commit
    units and the commit unit exchange, and what receiving them does. *)
From S2P Require Import Prelude Machine Strategy Pages SwQueue Packet State Communicate Malloc Separation Speculation Prediction Units.

(** A word or a page with its metadata (two packets), the list of read-only
    pages, a deallocation, the begin of an iteration, and the packets that end a
    stage of an iteration (EOI, MISSPEC, EOW). *)
Inductive msg :=
| MWord (ptr value shadow check : Z)
| MPage (ptr : Z) (data shadow : mem) (check : Z)
| MReadOnly
| MFree
| MBoi
| MEnd (type : Z).

Definition is_end (type : Z) : Prop := type = EOI ∨ type = MISSPEC ∨ type = EOW.

(** What a message does to the memory of a receiver. *)
Definition apply_msg (m : mem) (x : msg) : mem :=
  match x with
  | MWord ptr value shadow _ => update_normal_packet m ptr value shadow
  | MPage ptr data shadow _ => update_page m ptr data shadow
  | _ => m
  end.

(** [carries P ids x]: the packets [ids] of the pools [P] are message [x]. *)
Inductive carries (P : pools) : list vptr → msg → Prop :=
| ca_word o i o' i' ptr value shadow size' check wr' ty' sg sg' ptr' :
    get_packet P o i = Packet ptr (WInt value) 8 check NORMAL sg →
    get_packet P o' i' = Packet ptr' (WInt shadow) size' wr' ty' sg' →
    (o, i) ≠ (o', i') →
    carries P [WPacket o i; WPacket o' i'] (MWord ptr value shadow check)
| ca_page o i o' i' ptr co ci so si size size' check wr' ty' sg sg' ptr' :
    get_packet P o i = Packet ptr (WChunk co ci) size check SUPER sg →
    get_packet P o' i' = Packet ptr' (WChunk so si) size' wr' ty' sg' →
    check ≠ CHECK_RO_PAGE → (o, i) ≠ (o', i') →
    carries P [WPacket o i; WPacket o' i']
      (MPage ptr (ck_data (get_chunk P co ci)) (ck_data (get_chunk P so si)) check)
| ca_ro o i ptr co ci size sg :
    get_packet P o i = Packet ptr (WChunk co ci) size CHECK_RO_PAGE SUPER sg → carries P [WPacket o i] MReadOnly
| ca_free o i ptr value size wr sg :
    get_packet P o i = Packet ptr value size wr FREE sg → carries P [WPacket o i] MFree
| ca_boi o i ptr value size wr sg :
    get_packet P o i = Packet ptr value size wr BOI sg → carries P [WPacket o i] MBoi
| ca_end o i ptr value size wr type sg : is_end type →
    get_packet P o i = Packet ptr value size wr type sg → carries P [WPacket o i] (MEnd type).

(** A sequence of packets that carries a sequence of messages. *)
Inductive encodes (P : pools) : list vptr → list msg → Prop :=
| en_nil : encodes P [] []
| en_cons ids x vs xs : carries P ids x → encodes P vs xs → encodes P (ids ++ vs) (x :: xs).

(** Pools that agree on some packets and on the data of all chunks. *)
Definition agree (ids : list vptr) (P P' : pools) : Prop :=
  (∀ o i, WPacket o i ∈ ids → get_packet P' o i = get_packet P o i) ∧
  (∀ o i, ck_data (get_chunk P' o i) = ck_data (get_chunk P o i)).

Lemma carries_agree P P' ids x : carries P ids x → agree ids P P' → carries P' ids x.
Proof.
  intros H [Hp Hc].
  assert (∀ o i vs, ids = WPacket o i :: vs → get_packet P' o i = get_packet P o i) as H1.
  { intros o i vs ->. apply Hp, elem_of_cons. by left. }
  assert (∀ o i v, ids = [v; WPacket o i] → get_packet P' o i = get_packet P o i) as H2.
  { intros o i v ->. apply Hp, elem_of_cons. right. by apply list_elem_of_singleton. }
  destruct H; rewrite <-?Hc; econstructor; (done || by rewrite (H1 _ _ _ eq_refl) || by rewrite (H2 _ _ _ eq_refl)).
Qed.

Lemma encodes_agree P P' ids xs : encodes P ids xs → agree ids P P' → encodes P' ids xs.
Proof.
  induction 1 as [|ids x vs xs Hx _ IH]; intros [Hp Hc]; constructor.
  - eapply carries_agree; [done|]. split; [|done]. intros o i Hi. apply Hp, elem_of_app. by left.
  - apply IH. split; [|done]. intros o i Hi. apply Hp, elem_of_app. by right.
Qed.

Lemma encodes_app P ids xs ids' xs' : encodes P ids xs → encodes P ids' xs' → encodes P (ids ++ ids') (xs ++ xs').
Proof.
  induction 1 as [|i x vs xs Hx _ IH]; intros H; simpl; [done|]. rewrite <-app_assoc. constructor; auto.
Qed.

Lemma carries_length P ids x : carries P ids x → 1 ≤ lenZ ids ≤ 2.
Proof. by destruct 1; unfold lenZ; simpl. Qed.

Lemma encodes_length P ids xs : encodes P ids xs → lenZ xs ≤ lenZ ids.
Proof.
  induction 1 as [|i x vs xs Hx _ IH]; [done|]. apply carries_length in Hx.
  unfold lenZ in *. rewrite length_app. simpl. lia.
Qed.

(** ** Receiving packets

    [received w w' c ids]: the packets [ids] were taken from queue [c]; they may
    have been released, the others and the contents of all chunks are as before. *)
Record received (w w' : world) (c : chan) (ids : list vptr) : Prop := {
  rv_queue vs : chan_holds (w_sh w) c (ids ++ vs) → chan_holds (w_sh w') c vs;
  rv_other d vs : d ≠ c → chan_holds (w_sh w) d vs → chan_holds (w_sh w') d vs;
  rv_some d : is_Some (chan_get (w_sh w') d) ↔ is_Some (chan_get (w_sh w) d);
  rv_packet o i : WPacket o i ∉ ids → get_packet (sh_pools (w_sh w')) o i = get_packet (sh_pools (w_sh w)) o i;
  rv_data o i : ck_data (get_chunk (sh_pools (w_sh w')) o i) = ck_data (get_chunk (sh_pools (w_sh w)) o i);
  rv_next o : packet_next (sh_pools (w_sh w')) o = packet_next (sh_pools (w_sh w)) o;
  rv_free o i : pk_ptr (get_packet (sh_pools (w_sh w)) o i) = 0 → pk_ptr (get_packet (sh_pools (w_sh w')) o i) = 0;
  rv_pools : pools_ok (sh_pools (w_sh w)) → pools_ok (sh_pools (w_sh w'));
  rv_rest : rest_of (w_sh w') = rest_of (w_sh w);
  rv_proc : w_p w' = set_p_mem (p_mem (w_p w')) (w_p w);
  rv_env : w_env w' = w_env w }.

Lemma set_p_mem_id p : set_p_mem (p_mem p) p = p.
Proof. by destruct p. Qed.

Lemma received_nil w c : received w w c [].
Proof. split; try done. by rewrite set_p_mem_id. Qed.

Lemma received_trans w w1 w2 c ids ids' : received w w1 c ids → received w1 w2 c ids' → received w w2 c (ids ++ ids').
Proof.
  intros [Q1 O1 S1 P1 D1 N1 F1 K1 R1 M1 E1] [Q2 O2 S2 P2 D2 N2 F2 K2 R2 M2 E2]. split.
  - intros vs H. rewrite <-app_assoc in H. auto.
  - auto.
  - intros d. by rewrite S2.
  - intros o i [H1 H2]%not_elem_of_app. rewrite P2, P1 by done. done.
  - intros o i. by rewrite D2.
  - intros o. by rewrite N2.
  - auto.
  - auto.
  - congruence.
  - rewrite M2, M1. done.
  - congruence.
Qed.

Lemma received_agree w w' c ids vs : received w w' c ids →
  NoDup (ids ++ vs) → agree vs (sh_pools (w_sh w)) (sh_pools (w_sh w')).
Proof.
  intros R Hnd. split; [|apply (rv_data _ _ _ _ R)]. intros o i Hi. apply (rv_packet _ _ _ _ R).
  intros H. apply NoDup_app in Hnd as (_ & Hd & _). by apply (Hd _ H).
Qed.

(** Changing the memory. *)
Lemma received_mem w w' c ids f : received w w' c ids →
  received w (set_p (set_p_mem (f (p_mem (w_p w'))) (w_p w')) w') c ids.
Proof. intros [? ? ? ? ? ? ? ? ? M ?]. split; try done. simpl. by rewrite M. Qed.

Lemma recv_run w c o i vs : chan_holds (w_sh w) c (WPacket o i :: vs) →
  ∃ w', recv c w = Ok (o, i) w' ∧ received w w' c [WPacket o i] ∧
    sh_pools (w_sh w') = sh_pools (w_sh w) ∧ w_p w' = w_p w.
Proof.
  intros H. destruct (consume_from_spec c w _ _ H) as (q & E & Hq).
  unfold recv, bind. rewrite E. eexists. split; [done|]. simpl. rewrite chan_set_pools. split; [|done].
  split; simpl; rewrite ?chan_set_pools; try done.
  - intros us Hus. apply chan_holds_set. rewrite decide_True by done.
    assert (vs = us) as <-; [|done]. destruct H as (q1 & E1 & H1), Hus as (q2 & E2 & H2).
    rewrite E1 in E2. injection E2 as <-. pose proof (queue_holds_fun _ _ _ H1 H2) as Eq. by injection Eq.
  - intros d us Hd Hh. apply chan_holds_set. by rewrite decide_False by congruence.
  - intros d. rewrite chan_get_set. destruct (decide (c = d)) as [<-|]; [|done].
    destruct H as (q1 & -> & _). done.
  - by rewrite rest_of_chan_set.
  - by rewrite set_p_mem_id.
Qed.

(** Releasing what was received. *)
Lemma release_packet_run {A} w w1 c ids o i (k : W A) : received w w1 c ids → WPacket o i ∈ ids →
  ∃ w2, (release_packet (o, i) ;;; k) w1 = k w2 ∧ received w w2 c ids ∧ w_p w2 = w_p w1 ∧
    pk_ptr (get_packet (sh_pools (w_sh w2)) o i) = 0.
Proof.
  intros R Hi. eexists. split; [reflexivity|]. simpl. split; [|split; [done|]].
  - destruct R as [? ? RS RP RD RN RF RK ? ? ?].
    split; simpl; try (setoid_rewrite chan_holds_pools); try (setoid_rewrite chan_get_pools); try done.
    + intros o' i' Hne. rewrite get_put_packet, decide_False; [by apply RP|]. intros [= -> ->]. done.
    + intros o' i' H. rewrite get_put_packet. destruct (decide _); [done|]. by apply RF.
    + intros HP. destruct (RK HP) as [K1 K2 K3]. by split.
  - by rewrite get_put_packet, decide_True.
Qed.

Lemma release_chunk_run {A} w w1 c ids stage id (k : W A) : received w w1 c ids →
  ∃ w2, (release_chunk stage id ;;; k) w1 = k w2 ∧ received w w2 c ids ∧ w_p w2 = w_p w1 ∧
    pl_packets (sh_pools (w_sh w2)) = pl_packets (sh_pools (w_sh w1)).
Proof.
  intros R. eexists. split; [reflexivity|]. simpl. split; [|split; done].
  destruct R as [? ? RS RP RD RN RF RK ? ? ?]. split; simpl; try (setoid_rewrite chan_holds_pools); try (setoid_rewrite chan_get_pools); try done.
  - intros o i. rewrite <-RD. unfold get_chunk at 1, put_chunk. simpl. destruct (decide (id = (o, i))) as [->|Hne].
    + by rewrite <-surjective_pairing, lookup_insert_eq.
    + rewrite <-surjective_pairing, lookup_insert_ne by done. done.
  - intros HP. destruct (RK HP) as [K1 K2 K3]. by split.
Qed.

(** The steps of [process_packet], [tc_packet] and [cm_packet] on one message. *)
Lemma update_normal_run w o i o' i' ptr value shadow size size' check wr' ty ty' sg sg' ptr' :
  get_packet (sh_pools (w_sh w)) o i = Packet ptr (WInt value) size check ty sg →
  get_packet (sh_pools (w_sh w)) o' i' = Packet ptr' (WInt shadow) size' wr' ty' sg' →
  update_normal (o, i) (o', i') w =
  Ok tt (set_p (set_p_mem (update_normal_packet (p_mem (w_p w)) ptr value shadow) (w_p w)) w).
Proof. intros E E'. unfold update_normal, packet_at. run_w. by rewrite E, E'. Qed.

Lemma update_super_run {A} w w1 c ids stage o i o' i' ptr co ci so si size size' check wr' ty ty' sg sg' ptr'
    (k : W A) :
  received w w1 c ids → WPacket o' i' ∈ ids →
  get_packet (sh_pools (w_sh w1)) o i = Packet ptr (WChunk co ci) size check ty sg →
  get_packet (sh_pools (w_sh w1)) o' i' = Packet ptr' (WChunk so si) size' wr' ty' sg' →
  ∃ w2, (update_super_packet stage (o, i) (o', i') ;;; k) w1 = k w2 ∧ received w w2 c ids ∧
    w_p w2 = set_p_mem (update_page (p_mem (w_p w1)) ptr (ck_data (get_chunk (sh_pools (w_sh w)) co ci))
      (ck_data (get_chunk (sh_pools (w_sh w)) so si))) (w_p w1).
Proof.
  intros R Hi E E'. rewrite <-!(rv_data _ _ _ _ R).
  set (f m := update_page m ptr (ck_data (get_chunk (sh_pools (w_sh w1)) co ci))
      (ck_data (get_chunk (sh_pools (w_sh w1)) so si))).
  pose proof (received_mem _ _ _ _ f R) as R1. set (w1' := set_p _ w1) in R1.
  destruct (release_chunk_run w w1' c ids stage (co, ci) (release_chunk stage (so, si) ;;; release_packet (o', i') ;;; k) R1)
    as (w2 & E2 & R2 & P2 & _).
  destruct (release_chunk_run w w2 c ids stage (so, si) (release_packet (o', i') ;;; k) R2) as (w3 & E3 & R3 & P3 & _).
  destruct (release_packet_run w w3 c ids o' i' k R3 Hi) as (w4 & E4 & R4 & P4 & _).
  exists w4. split; [|split; [done|by rewrite P4, P3, P2]]. rewrite <-E4, <-E3, <-E2.
  unfold update_super_packet, packet_at, chunk_at, bind, getsh, gets. simpl. rewrite E, E'. done.
Qed.

Definition goes_on (x : msg) : bool := match x with MEnd _ => false | _ => true end.

(** Select the case of [switch (p->type)] for a packet of known type. *)
Ltac packet_case :=
  cbn [NORMAL SUPER BOI EOI MISSPEC EOW ALLOC FREE CHECK_RO_PAGE Z.eqb Pos.eqb orb].

(** A word that was written, whose first packet was received. *)
Lemma process_word c w w1 o i o' i' vs ptr value shadow size size' check wr' ty' sg sg' ptr' :
  received w w1 c [WPacket o i] → chan_holds (w_sh w1) c (WPacket o' i' :: vs) →
  get_packet (sh_pools (w_sh w1)) o i = Packet ptr (WInt value) size check NORMAL sg →
  get_packet (sh_pools (w_sh w1)) o' i' = Packet ptr' (WInt shadow) size' wr' ty' sg' →
  ∃ w', (let! stop := (let! shadow_p := recv c in update_normal (o, i) shadow_p ;;; ret false) in
         release_packet (o, i) ;;; ret (negb stop)) w1 = Ok true w' ∧
    received w w' c [WPacket o i; WPacket o' i'] ∧
    p_mem (w_p w') = update_normal_packet (p_mem (w_p w1)) ptr value shadow.
Proof.
  intros R1 Hh1 Ep Es. rewrite bind_bind. destruct (recv_run w1 c o' i' vs Hh1) as (w2 & E2 & R2 & P2 & M2).
  unfold bind at 1. rewrite E2. rewrite <-P2 in Ep, Es. rewrite bind_bind. unfold bind at 1.
  rewrite (update_normal_run _ _ _ _ _ _ _ _ _ _ _ _ _ _ _ _ _ Ep Es). unfold bind at 1, ret at 1.
  pose proof (received_mem _ _ _ _ (λ m, update_normal_packet m ptr value shadow) (received_trans _ _ _ _ _ _ R1 R2)) as R.
  destruct (release_packet_run _ _ _ _ o i (ret (negb false)) R) as (w' & E & R' & M' & _);
    [apply elem_of_cons; by left|].
  exists w'. split; [exact E|]. split; [exact R'|]. rewrite M'. simpl. by rewrite M2.
Qed.

(** [process_packet] handles one message. *)
Lemma process_msg w c stage src ids x vs :
  chan_holds (w_sh w) c (ids ++ vs) → carries (sh_pools (w_sh w)) ids x →
  ∃ w', process_packet stage src c w = Ok (goes_on x) w' ∧ received w w' c ids ∧
    p_mem (w_p w') = apply_msg (p_mem (w_p w)) x.
Proof.
  intros Hh Hx. unfold process_packet.
  assert (∃ o i rest, ids = WPacket o i :: rest) as (o & i & rest & ->) by (destruct Hx; eauto).
  destruct (recv_run w c o i (rest ++ vs) Hh) as (w1 & E1 & R1 & P1 & M1). rewrite <-P1 in Hx.
  unfold bind at 1. rewrite E1. unfold bind at 1, packet_at, getsh, gets. cbn [fst snd].
  pose proof (rv_queue _ _ _ _ R1 _ Hh) as Hh1.
  inversion Hx as [? ? o' i' ptr value shadow ? ? ? ? ? ? ? Ep Es|
    ? ? o' i' ptr co ci so si ? ? ? ? ? ? ? ? Ep Es Hro|? ? ptr co ci ? ? Ep|? ? ? ? ? ? ? Ep|? ? ? ? ? ? ? Ep|? ? ? ? ? ? type ? Hty Ep];
    subst; rewrite Ep; cbn [pk_type pk_value pk_is_write pk_ptr pk_size]; packet_case.
  - destruct (process_word c w w1 o i o' i' vs _ _ _ _ _ _ _ _ _ _ _ R1 Hh1 Ep Es) as (w' & E & R' & M').
    exists w'. split; [exact E|]. split; [exact R'|]. by rewrite M', M1.
  - rewrite (proj2 (Z.eqb_neq _ _) Hro). rewrite bind_bind.
    destruct (recv_run w1 c o' i' vs Hh1) as (w2 & E2 & R2 & P2 & M2).
    unfold bind at 1. rewrite E2, bind_bind. rewrite <-P2 in Ep, Es.
    destruct (update_super_run w w2 c [WPacket o i; WPacket o' i'] stage o i o' i' ptr co ci so si size size' check wr'
      SUPER ty' sg sg' ptr' (let! stop := ret false in release_packet (o, i) ;;; ret (negb stop))
      (received_trans _ _ _ _ _ _ R1 R2)) as (w3 & E3 & R3 & M3);
      [apply elem_of_cons; right; by apply list_elem_of_singleton|done|done|].
    rewrite E3. unfold bind at 1, ret at 1.
    destruct (release_packet_run _ _ _ _ o i (ret (negb false)) R3) as (w' & E & R' & M' & _);
      [apply elem_of_cons; by left|].
    exists w'. split; [exact E|]. split; [exact R'|]. rewrite M', M3. simpl. by rewrite M2, M1, P1.
  - cbn [as_chunk]. rewrite bind_bind. unfold bind at 1, ret at 1. rewrite bind_bind.
    destruct (release_chunk_run w w1 c _ stage (co, ci)
      (let! stop := ret false in release_packet (o, i) ;;; ret (negb stop)) R1) as (w2 & E2 & R2 & M2 & _).
    rewrite E2. unfold bind at 1, ret at 1.
    destruct (release_packet_run _ _ _ _ o i (ret (negb false)) R2) as (w' & E & R' & M' & _);
      [by apply list_elem_of_singleton|].
    exists w'. split; [exact E|]. split; [exact R'|]. rewrite M', M2, M1. done.
  - rewrite bind_bind. unfold update_ver_free. unfold bind at 1, ret at 1. unfold bind at 1, ret at 1.
    destruct (release_packet_run _ _ _ _ o i (ret (negb false)) R1) as (w' & E & R' & M' & _);
      [by apply list_elem_of_singleton|].
    exists w'. split; [exact E|]. split; [exact R'|]. by rewrite M', M1.
  - unfold bind at 1, ret at 1.
    destruct (release_packet_run _ _ _ _ o i (ret (negb false)) R1) as (w' & E & R' & M' & _);
      [by apply list_elem_of_singleton|].
    exists w'. split; [exact E|]. split; [exact R'|]. by rewrite M', M1.
  - destruct (release_packet_run _ _ _ _ o i (ret (negb true)) R1) as (w' & E & R' & M' & _);
      [by apply list_elem_of_singleton|].
    exists w'. split; [|split; [exact R'|by rewrite M', M1]].
    etrans; [|exact E]. destruct Hty as [->|[->| ->]]; done.
Qed.

(** ** Receiving one stage of an iteration *)

Definition all_go_on (xs : list msg) : Prop := Forall (λ x, goes_on x = true) xs.

Lemma receive_rounds stage src c end_ids type xs : ∀ w ids vs,
  chan_holds (w_sh w) c ((ids ++ end_ids) ++ vs) → encodes (sh_pools (w_sh w)) ids xs → all_go_on xs →
  carries (sh_pools (w_sh w)) end_ids (MEnd type) → NoDup (ids ++ end_ids) →
  ∃ w', rounds_lin (length xs + 1) (loop_round (process_packet stage src c)) w = inr (Ok tt w') ∧
    received w w' c (ids ++ end_ids) ∧ p_mem (w_p w') = foldl apply_msg (p_mem (w_p w)) xs.
Proof.
  induction xs as [|x xs IH]; intros w ids vs Hh Hen Hgo Hend Hnd.
  - inversion Hen; subst. simpl in *. destruct (process_msg w c stage src end_ids _ vs Hh Hend) as (w' & E & R & M).
    exists w'. unfold loop_round. rewrite E. done.
  - inversion Hen as [|ids1 ? ids2 ? Hx Hxs]; subst. inversion Hgo as [|? ? Hg Hgs]; subst.
    rewrite <-app_assoc in Hnd. rewrite <-(app_assoc ids1), <-app_assoc in Hh.
    destruct (process_msg w c stage src ids1 x _ Hh Hx) as (w1 & E1 & R1 & M1).
    pose proof (received_agree _ _ _ _ _ R1 Hnd) as Hag.
    assert (agree ids2 (sh_pools (w_sh w)) (sh_pools (w_sh w1))) as Hag1.
    { split; [|apply Hag]. intros o i Hi. apply Hag, elem_of_app. by left. }
    assert (agree end_ids (sh_pools (w_sh w)) (sh_pools (w_sh w1))) as Hag2.
    { split; [|apply Hag]. intros o i Hi. apply Hag, elem_of_app. by right. }
    destruct (IH w1 ids2 vs) as (w' & E & R & M).
    + by apply (rv_queue _ _ _ _ R1).
    + by eapply encodes_agree.
    + done.
    + by eapply carries_agree.
    + by apply NoDup_app in Hnd as (_ & _ & ?).
    + exists w'. split; [|split].
      * simpl. unfold loop_round at 1. rewrite E1, Hg. exact E.
      * rewrite <-app_assoc. by eapply received_trans.
      * rewrite M, M1. done.
Qed.

Lemma chan_bound s c vs : chan_holds s c vs → lenZ vs ≤ PAIRS.
Proof. intros (q & _ & H). by eapply queue_bound. Qed.

(** [2^14] rounds are enough for what a queue can hold. *)
Lemma rounds_enough k : Z.of_nat k ≤ PAIRS → (k ≤ 2 ^ 14)%nat.
Proof.
  intros H. apply Nat2Z.inj_le. rewrite Nat2Z.inj_pow. change (Z.of_nat 2 ^ Z.of_nat 14) with 16384.
  unfold PAIRS in H. lia.
Qed.

Lemma receive_stage stage src c w ids xs end_ids type vs :
  chan_holds (w_sh w) c ((ids ++ end_ids) ++ vs) → encodes (sh_pools (w_sh w)) ids xs → all_go_on xs →
  carries (sh_pools (w_sh w)) end_ids (MEnd type) → NoDup (ids ++ end_ids) →
  ∃ w', loop 14 (process_packet stage src c) w = Ok tt w' ∧
    received w w' c (ids ++ end_ids) ∧ p_mem (w_p w') = foldl apply_msg (p_mem (w_p w)) xs.
Proof.
  intros Hh Hen Hgo Hend Hnd.
  destruct (receive_rounds stage src c end_ids type xs w ids vs Hh Hen Hgo Hend Hnd) as (w' & E & R & M).
  exists w'. split; [|done]. eapply loop_enough; [exact E|]. apply rounds_enough.
  apply chan_bound in Hh. apply encodes_length in Hen. apply carries_length in Hend.
  unfold lenZ in *. rewrite !length_app in Hh. lia.
Qed.

(** ** The input of a worker *)

(** What is in the queue of an earlier stage: the messages of the iteration, the
    packet that ends it, and what follows. *)
Record inbox := Inbox {
  ib_ids : list vptr;
  ib_msgs : list msg;
  ib_end_ids : list vptr;
  ib_rest : list vptr }.

Record inbox_ok (w : world) (c : chan) (b : inbox) : Prop := {
  bo_holds : chan_holds (w_sh w) c ((ib_ids b ++ ib_end_ids b) ++ ib_rest b);
  bo_msgs : encodes (sh_pools (w_sh w)) (ib_ids b) (ib_msgs b);
  bo_go : all_go_on (ib_msgs b);
  bo_end : ∃ type, carries (sh_pools (w_sh w)) (ib_end_ids b) (MEnd type) }.

Definition box_ids (b : inbox) : list vptr := ib_ids b ++ ib_end_ids b.

Lemma inbox_other w w' c d ids b : received w w' c ids → d ≠ c → inbox_ok w d b →
  agree (box_ids b) (sh_pools (w_sh w)) (sh_pools (w_sh w')) → inbox_ok w' d b.
Proof.
  intros R Hd [H1 H2 H3 (ty & H4)] [Ha Hb]. split.
  - by apply (rv_other _ _ _ _ R).
  - eapply encodes_agree; [done|]. split; [|done]. intros o i Hi. apply Ha, elem_of_app. by left.
  - done.
  - exists ty. eapply carries_agree; [done|]. split; [|done]. intros o i Hi. apply Ha, elem_of_app. by right.
Qed.

Lemma receive_stages my_stage wid (src : Z → Z) (box : Z → inbox) stages : ∀ w,
  (∀ i, i ∈ stages → inbox_ok w (Ucvf (src i) wid) (box i)) →
  (∀ i j, i ∈ stages → j ∈ stages → src i = src j → i = j) → NoDup stages →
  NoDup (stages ≫= λ i, box_ids (box i)) →
  ∃ w', for_ stages (λ i, loop 14 (process_packet my_stage (src i) (Ucvf (src i) wid))) w = Ok tt w' ∧
    w_p w' = set_p_mem (foldl apply_msg (p_mem (w_p w)) (stages ≫= λ i, ib_msgs (box i))) (w_p w) ∧
    w_env w' = w_env w ∧ rest_of (w_sh w') = rest_of (w_sh w) ∧
    (∀ i, i ∈ stages → chan_holds (w_sh w') (Ucvf (src i) wid) (ib_rest (box i))) ∧
    (∀ d vs, (∀ i, i ∈ stages → d ≠ Ucvf (src i) wid) → chan_holds (w_sh w) d vs → chan_holds (w_sh w') d vs).
Proof.
  induction stages as [|s stages IH]; intros w Hbox Hinj Hnds Hnd; simpl.
  { exists w. split_and!; try done; [by rewrite set_p_mem_id|]. intros i Hi. by apply elem_of_nil in Hi. }
  apply NoDup_cons in Hnds as [Hs Hnds]. simpl in Hnd. pose proof Hnd as (Hnd1 & Hdis & Hnd2)%NoDup_app.
  destruct (Hbox s ltac:(apply elem_of_cons; by left)) as [B1 B2 B3 (ty & B4)].
  destruct (receive_stage my_stage (src s) _ w _ _ _ ty _ B1 B2 B3 B4 Hnd1) as (w1 & E1 & R1 & M1).
  assert (∀ i, i ∈ stages → src i ≠ src s) as Hne.
  { intros i Hi Heq. apply Hs. rewrite <-(Hinj i s); [done|apply elem_of_cons; by right|apply elem_of_cons; by left|done]. }
  destruct (IH w1) as (w' & E & M & Ee & Er & Hin & Hout).
  - intros i Hi. eapply inbox_other; [exact R1|specialize (Hne i Hi); congruence|apply Hbox, elem_of_cons; by right|].
    pose proof (received_agree _ _ _ _ _ R1 Hnd) as [Ha Hb]. split; [|done]. intros o k Hk. apply Ha.
    apply list_elem_of_bind. eauto.
  - intros i j Hi Hj. apply Hinj; apply elem_of_cons; by right.
  - done.
  - done.
  - exists w'. unfold bind. rewrite E1. split; [exact E|]. split_and!.
    + rewrite M, (rv_proc _ _ _ _ R1), foldl_app, M1. done.
    + rewrite Ee. apply R1.
    + rewrite Er. apply R1.
    + intros i [->|Hi]%elem_of_cons; [|by apply Hin]. apply Hout.
      * intros j Hj. specialize (Hne j Hj). congruence.
      * by apply (rv_queue _ _ _ _ R1).
    + intros d vs Hd H. apply Hout; [intros i Hi; apply Hd, elem_of_cons; by right|].
      apply (rv_other _ _ _ _ R1); [apply Hd, elem_of_cons; by left|done].
Qed.

(** [process_incoming_packets] reads, stage by stage, the queue of the worker that
    runs the iteration up to the packet that ends it. *)
Lemma process_incoming_run w wid iter (box : Z → inbox) :
  worker_ok w wid →
  let g := e_strategy (w_env w) in
  let src i := wid_of_iter g iter i in
  let stages := seqZ 0 (GET_MY_STAGE g wid) in
  (∀ i, i ∈ stages → inbox_ok w (Ucvf (src i) wid) (box i)) →
  NoDup (stages ≫= λ i, box_ids (box i)) →
  ∃ w', process_incoming_packets wid iter w = Ok tt w' ∧
    w_p w' = set_p_mem (foldl apply_msg (p_mem (w_p w)) (stages ≫= λ i, ib_msgs (box i))) (w_p w) ∧
    w_env w' = w_env w ∧ rest_of (w_sh w') = rest_of (w_sh w) ∧
    (∀ i, i ∈ stages → chan_holds (w_sh w') (Ucvf (src i) wid) (ib_rest (box i))) ∧
    (∀ d vs, (∀ i, i ∈ stages → d ≠ Ucvf (src i) wid) → chan_holds (w_sh w) d vs → chan_holds (w_sh w') d vs).
Proof.
  intros [Hst Hwid Hmax Haux] g src stages Hbox Hnd.
  destruct (receive_stages (GET_MY_STAGE g wid) wid src box stages w Hbox) as (w' & E & M & He & Hr & Hin & Hout).
  - pose proof (ok_stage _ _ Hst wid Hwid) as Hs. intros i j Hi Hj Eij.
    apply elem_of_seqZ in Hi, Hj. fold g in Hs.
    destruct (wid_of_iter_stage g _ iter i Hst ltac:(lia)) as [_ <-].
    destruct (wid_of_iter_stage g _ iter j Hst ltac:(lia)) as [_ <-]. unfold src in Eij. by rewrite Eij.
  - apply NoDup_seqZ.
  - done.
  - exists w'. split; [|done]. unfold process_incoming_packets. unfold bind at 1, g_, gete, gets.
    unfold bind at 1, ctl, getp, gets. fold g. rewrite (proj2 (Z.ltb_lt _ _)) by lia. exact E.
Qed.

(** ** Concrete messages *)
Definition queue_of (vs : list vptr) : queue_t :=
  foldl (λ q v, default q (sw_queue_produce q v)) sw_queue_create vs.

Lemma queue_of_holds vs : lenZ vs ≤ PAIRS → queue_holds (queue_of vs) vs.
Proof.
  unfold queue_of. induction vs as [|v vs IH] using rev_ind; intros Hl; [apply create_holds|].
  rewrite foldl_app. simpl. unfold lenZ in Hl. rewrite length_app in Hl. simpl in Hl.
  destruct (produce_room _ vs v (IH ltac:(unfold lenZ; lia)) ltac:(unfold lenZ; lia)) as (q & -> & Hq). done.
Qed.

(** The packets of one word and of the end of the iteration, in the pool of
    worker [o]. *)
Definition word_pools (o : Z) (P : pools) : pools :=
  put_packet (put_packet (put_packet P o 0 (Packet 0x7008 (WInt 0x55) 8 CHECK_REQUIRED NORMAL 0))
    o 1 (Packet 0 (WInt 0x2) 8 CHECK_REQUIRED NORMAL 0)) o 2 (Packet 0xDEADBEEF NULL 0 WRITE EOI 0).
Definition word_ids (o : Z) : list vptr := [WPacket o 0; WPacket o 1; WPacket o 2].
Definition word_msg : msg := MWord 0x7008 0x55 0x2 CHECK_REQUIRED.

Definition with_word (o : Z) (c : chan) (w : world) : world :=
  set_sh (chan_set c (queue_of (word_ids o)) (set_sh_pools (word_pools o (sh_pools (w_sh w))) (w_sh w))) w.

Lemma with_word_ok o c w :
  inbox_ok (with_word o c w) c (Inbox [WPacket o 0; WPacket o 1] [word_msg] [WPacket o 2] []) ∧
  carries (sh_pools (w_sh (with_word o c w))) [WPacket o 2] (MEnd EOI).
Proof.
  assert (∀ i p, get_packet (word_pools o (sh_pools (w_sh w))) o i = p →
    get_packet (sh_pools (w_sh (with_word o c w))) o i = p) as Hp.
  { intros i p <-. unfold with_word. simpl. by rewrite chan_set_pools. }
  assert (carries (sh_pools (w_sh (with_word o c w))) [WPacket o 2] (MEnd EOI)) as He.
  { eapply ca_end; [by left|]. apply Hp. unfold word_pools. by rewrite get_put_packet, decide_True. }
  split; [|done]. split; simpl.
  - apply chan_holds_set. rewrite decide_True by done. by apply queue_of_holds.
  - apply (en_cons _ [WPacket o 0; WPacket o 1] _ [] []); [|constructor]. unfold word_msg.
    eapply ca_word; [apply Hp|apply Hp|congruence]; unfold word_pools;
      rewrite !get_put_packet; repeat (rewrite decide_False by congruence); rewrite decide_True by done; done.
  - repeat constructor.
  - by exists EOI.
Qed.
