(* ===== verification/Commit.v ===== *)
(** The commit unit on the messages of a validated iteration. *)
From S2P Require Import Prelude Machine Strategy Pages SwQueue Packet State Communicate Malloc Separation Speculation Prediction Units Messages.

(** What the commit unit receives: everything but read-only pages, begin markers
    and misspeculation. *)
Definition committable (x : msg) : Prop :=
  match x with MReadOnly | MBoi => False | MEnd type => type = EOI ∨ type = EOW | _ => True end.

Definition is_eoi (x : msg) : bool := match x with MEnd type => type =? EOI | _ => false end.
Definition count_eoi (xs : list msg) : Z := foldr (λ x n, n + (if is_eoi x then 1 else 0)) 0 xs.

(** Packets [ids] were taken from [c]: the part of [received] that EOI packets,
    which also change the control block, share. *)
Record taken (w w' : world) (c : chan) (ids : list vptr) : Prop := {
  ta_queue vs : chan_holds (w_sh w) c (ids ++ vs) → chan_holds (w_sh w') c vs;
  ta_packet o i : WPacket o i ∉ ids → get_packet (sh_pools (w_sh w')) o i = get_packet (sh_pools (w_sh w)) o i;
  ta_data o i : ck_data (get_chunk (sh_pools (w_sh w')) o i) = ck_data (get_chunk (sh_pools (w_sh w)) o i);
  ta_env : w_env w' = w_env w }.

Lemma received_taken w w' c ids : received w w' c ids → taken w w' c ids.
Proof. by intros []. Qed.

Lemma frame_taken w w' c : eoi_frame w w' → taken w w' c [].
Proof.
  intros (_ & Hp & Hc & He). split; try (by rewrite Hp); try done.
  intros vs (q & Hq & H). exists q. by rewrite Hc.
Qed.

Lemma taken_trans w w1 w2 c ids ids' : taken w w1 c ids → taken w1 w2 c ids' → taken w w2 c (ids ++ ids').
Proof.
  intros [Q1 P1 D1 E1] [Q2 P2 D2 E2]. split.
  - intros vs H. rewrite <-app_assoc in H. auto.
  - intros o i [H1 H2]%not_elem_of_app. rewrite P2, P1 by done. done.
  - intros o i. by rewrite D2.
  - congruence.
Qed.

Lemma taken_agree w w' c ids vs : taken w w' c ids →
  NoDup (ids ++ vs) → agree vs (sh_pools (w_sh w)) (sh_pools (w_sh w')).
Proof.
  intros R Hnd. split; [|apply (ta_data _ _ _ _ R)]. intros o i Hi. apply (ta_packet _ _ _ _ R).
  intros H. apply NoDup_app in Hnd as (_ & Hd & _). by apply (Hd _ H).
Qed.

Lemma taken_release {A} w w1 c ids o i (k : W A) : taken w w1 c ids → WPacket o i ∈ ids →
  ∃ w2, (release_packet (o, i) ;;; k) w1 = k w2 ∧ taken w w2 c ids ∧ w_p w2 = w_p w1 ∧ rest_of (w_sh w2) = rest_of (w_sh w1).
Proof.
  intros [Q P D E] Hi. eexists. split; [reflexivity|]. simpl. split; [|done].
  split; simpl; try (setoid_rewrite chan_holds_pools); try done.
  intros o' i' Hne. rewrite get_put_packet, decide_False; [by apply P|]. intros [= -> ->]. done.
Qed.

Lemma received_progress w w' c ids : received w w' c ids → same_progress w w'.
Proof.
  intros R. pose proof (rv_rest _ _ _ _ R) as Hr. unfold rest_of in Hr. injection Hr as H1 H2 _ _.
  split_and!; [by rewrite (rv_proc _ _ _ _ R)|by rewrite H1|done].
Qed.

Lemma received_ready w w' c ids : received w w' c ids → commit_ready w → commit_ready w'.
Proof.
  intros R [H1 H2]. pose proof (rv_rest _ _ _ _ R) as Hr. unfold rest_of in Hr. injection Hr as _ E2 E3 _.
  split; [|by rewrite E2]. unfold li_table_ok in *. rewrite (rv_proc _ _ _ _ R), E3. exact H1.
Qed.

(** A message that is not EOI. *)
Lemma cm_msg ns n_aux i w st ids x vs :
  chan_holds (w_sh w) (ToCommit i) (ids ++ vs) → carries (sh_pools (w_sh w)) ids x → committable x → is_eoi x = false →
  ∃ w', cm_packet ns n_aux i st w = Ok st w' ∧ received w w' (ToCommit i) ids ∧
    p_mem (w_p w') = apply_msg (p_mem (w_p w)) x.
Proof.
  intros Hh Hx Hcm Hne. unfold cm_packet. set (c := ToCommit i) in *.
  assert (∃ o i rest, ids = WPacket o i :: rest) as (o & k & rest & ->) by (destruct Hx; eauto).
  destruct (recv_run w c o k (rest ++ vs) Hh) as (w1 & E1 & R1 & P1 & M1). rewrite <-P1 in Hx.
  unfold bind at 1. rewrite E1. unfold bind at 1, packet_at, getsh, gets. cbn [fst snd].
  unfold bind at 1, g_, gete, gets. unfold bind at 1, current_iter, getp, gets.
  pose proof (rv_queue _ _ _ _ R1 _ Hh) as Hh1.
  inversion Hx as [? ? o' i' ptr value shadow ? ? ? ? ? ? ? Ep Es|
    ? ? o' i' ptr co ci so si ? ? ? ? ? ? ? ? Ep Es Hro|? ? ptr co ci ? ? Ep|? ? ? ? ? ? ? Ep|? ? ? ? ? ? ? Ep|? ? ? ? ? ? type ? Hty Ep];
    subst; rewrite Ep; cbn [pk_type pk_value pk_is_write pk_ptr pk_size]; packet_case; try done.
  - rewrite bind_bind. destruct (recv_run w1 c o' i' vs Hh1) as (w2 & E2 & R2 & P2 & M2).
    unfold bind at 1. rewrite E2. rewrite <-P2 in Ep, Es. rewrite bind_bind. unfold bind at 1.
    rewrite (update_normal_run _ _ _ _ _ _ _ _ _ _ _ _ _ _ _ _ _ Ep Es). rewrite bind_bind.
    pose proof (received_mem _ _ _ _ (λ m, update_normal_packet m ptr value shadow) (received_trans _ _ _ _ _ _ R1 R2)) as R.
    destruct (release_packet_run _ _ _ _ o' i' (let! st0 := ret st in release_packet (o, k) ;;; ret st0) R)
      as (w3 & E3 & R3 & M3 & _); [apply elem_of_cons; right; by apply list_elem_of_singleton|].
    rewrite E3. unfold bind at 1, ret at 1.
    destruct (release_packet_run _ _ _ _ o k (ret st) R3) as (w' & E & R' & M' & _); [apply elem_of_cons; by left|].
    exists w'. split; [exact E|]. split; [exact R'|]. rewrite M', M3. simpl. by rewrite M2, M1.
  - rewrite bind_bind. destruct (recv_run w1 c o' i' vs Hh1) as (w2 & E2 & R2 & P2 & M2).
    unfold bind at 1. rewrite E2, bind_bind. rewrite <-P2 in Ep, Es.
    destruct (update_super_run w w2 c [WPacket o k; WPacket o' i'] 0 o k o' i' ptr co ci so si size size' check wr'
      SUPER ty' sg sg' ptr' (let! st0 := ret st in release_packet (o, k) ;;; ret st0)
      (received_trans _ _ _ _ _ _ R1 R2)) as (w3 & E3 & R3 & M3);
      [apply elem_of_cons; right; by apply list_elem_of_singleton|done|done|].
    rewrite E3. unfold bind at 1, ret at 1.
    destruct (release_packet_run _ _ _ _ o k (ret st) R3) as (w' & E & R' & M' & _); [apply elem_of_cons; by left|].
    exists w'. split; [exact E|]. split; [exact R'|]. rewrite M', M3. simpl. by rewrite M2, M1, P1.
  - rewrite bind_bind. unfold update_ver_free. unfold bind at 1, ret at 1. unfold bind at 1, ret at 1.
    destruct (release_packet_run _ _ _ _ o k (ret st) R1) as (w' & E & R' & M' & _); [by apply list_elem_of_singleton|].
    exists w'. split; [exact E|]. split; [exact R'|]. by rewrite M', M1.
  - destruct (release_packet_run _ _ _ _ o k (ret st) R1) as (w' & E & R' & M' & _); [by apply list_elem_of_singleton|].
    exists w'. split; [|split; [exact R'|by rewrite M', M1]].
    simpl in Hcm. destruct Hcm as [->| ->]; [done|]. exact E.
Qed.

(** The state of the commit unit with one try-commit unit. *)
Abbreviation progress ns iter0 := (barriers ns 1 iter0).

Lemma progress_not_waiting ns iter0 sent w st b : progress ns iter0 sent w st b → flag (cm_wait st) 0 = false ∧ sent 0 = b.
Proof.
  intros B. destruct (br_slow _ _ _ _ _ _ _ B) as (i & Hi & Hs). replace i with 0 in Hs by lia.
  pose proof (br_sent _ _ _ _ _ _ _ B 0 ltac:(lia)) as H. destruct (flag (cm_wait st) 0); [lia|done].
Qed.

Lemma barriers_same ns n iter0 sent w w' st b : barriers ns n iter0 sent w st b → same_progress w w' →
  commit_ready w' → barriers ns n iter0 sent w' st b.
Proof.
  intros [? ? ? ? ? ? ? ? [p Hp] ?] (S1 & S2 & S3) Hr. split; try done.
  - by rewrite S1.
  - intros Hn. rewrite S2. auto.
  - intros H0 Hn. rewrite S3. auto.
  - rewrite Hp in S2. destruct (the_pcb (w_sh w')); [eauto|done].
Qed.

(** An EOI message. *)
Lemma cm_eoi ns iter0 sent w st b ids vs : 0 < ns →
  chan_holds (w_sh w) (ToCommit 0) (ids ++ vs) → carries (sh_pools (w_sh w)) ids (MEnd EOI) →
  progress ns iter0 sent w st b →
  ∃ st' w' sent', cm_packet ns 1 0 st w = Ok st' w' ∧ taken w w' (ToCommit 0) ids ∧
    p_mem (w_p w') = p_mem (w_p w) ∧ progress ns iter0 sent' w' st' (b + 1).
Proof.
  intros Hns Hh Hx HB. unfold cm_packet. set (c := ToCommit 0) in *.
  inversion Hx as [| | | | |o k ptr value size wr ty sg Hty Ep]; subst.
  destruct (recv_run w c o k vs Hh) as (w1 & E1 & R1 & P1 & M1). rewrite <-P1 in Ep.
  unfold bind at 1. rewrite E1. unfold bind at 1, packet_at, getsh, gets. cbn [fst snd].
  unfold bind at 1, g_, gete, gets. unfold bind at 1, current_iter, getp, gets.
  rewrite Ep. cbn [pk_type]. packet_case.
  pose proof (barriers_same _ _ _ _ _ _ _ _ HB (received_progress _ _ _ _ R1)
    (received_ready _ _ _ _ R1 (br_ready _ _ _ _ _ _ _ HB))) as HB1.
  destruct (progress_not_waiting _ _ _ _ _ _ HB1) as [Hnw Hs0].
  destruct (barriers_step ns 1 iter0 sent w1 st 0 b Hns HB1 ltac:(lia) Hnw) as (st' & w2 & E2 & F2 & b' & HB2).
  unfold bind at 1. rewrite E2.
  pose proof (taken_trans _ _ _ _ _ _ (received_taken _ _ _ _ R1) (frame_taken _ _ c F2)) as T2. rewrite app_nil_r in T2.
  destruct (taken_release w w2 c _ o k (ret st') T2) as (w' & E & T' & M' & S'); [by apply list_elem_of_singleton|].
  exists st', w', (λ j, if j =? 0 then sent j + 1 else sent j). split; [exact E|]. split; [exact T'|]. split.
  - rewrite M'. destruct F2 as (-> & _). by rewrite M1.
  - destruct (progress_not_waiting _ _ _ _ _ _ HB2) as [_ Hb']. simpl in Hb'. rewrite Hs0 in Hb'. subst b'.
    unfold rest_of in S'. injection S' as S1 S2 S3 _.
    eapply barriers_same; [exact HB2|split_and!; [by rewrite M'|by rewrite S1|done]|].
    pose proof (br_ready _ _ _ _ _ _ _ HB2) as [Hr1 Hr2]. split; [|by rewrite S2].
    unfold li_table_ok in *. rewrite M', S3. exact Hr1.
Qed.

Lemma commit_rounds ns iter0 xs : 0 < ns → ∀ w st sent b ids,
  chan_holds (w_sh w) (ToCommit 0) ids → encodes (sh_pools (w_sh w)) ids xs → Forall committable xs → NoDup ids →
  progress ns iter0 sent w st b →
  ∃ st' w' sent', rounds_lin (length xs + 1) (loop_round_with (λ st,
      let! empty := is_empty (ToCommit 0) in
      if empty then ret (inr st) else
      let! st := cm_packet ns 1 0 st in
      ret (if flag (cm_wait st) 0 then inr st else inl st))) (st, w) = inr (Ok st' w') ∧
    p_mem (w_p w') = foldl apply_msg (p_mem (w_p w)) xs ∧ chan_holds (w_sh w') (ToCommit 0) [] ∧
    progress ns iter0 sent' w' st' (b + count_eoi xs) ∧ w_env w' = w_env w.
Proof.
  intros Hns. induction xs as [|x xs IH]; intros w st sent b ids Hh Hen Hcm Hnd HB.
  { inversion Hen; subst. exists st, w, sent. simpl. unfold loop_round_with, bind. simpl.
    rewrite (is_empty_spec _ _ _ Hh). simpl. rewrite Z.add_0_r. done. }
  inversion Hen as [|ids1 ? ids2 ? Hx Hxs]; subst. inversion Hcm as [|? ? Hc Hcs]; subst.
  assert (∃ st1 w1 sent1, cm_packet ns 1 0 st w = Ok st1 w1 ∧ taken w w1 (ToCommit 0) ids1 ∧
    p_mem (w_p w1) = apply_msg (p_mem (w_p w)) x ∧
    progress ns iter0 sent1 w1 st1 (b + (if is_eoi x then 1 else 0))) as (st1 & w1 & sent1 & E1 & T1 & M1 & B1).
  { destruct (is_eoi x) eqn:Ee.
    - destruct x as [| | | | |ty]; try discriminate Ee. simpl in Ee. apply Z.eqb_eq in Ee as ->.
      by apply (cm_eoi ns iter0 sent w st b ids1 ids2).
    - destruct (cm_msg ns 1 0 w st ids1 x ids2 Hh Hx Hc Ee) as (w1 & E1 & R1 & M1).
      exists st, w1, sent. split; [done|]. split; [by apply received_taken|]. split; [done|]. rewrite Z.add_0_r.
      eapply barriers_same; [exact HB|by eapply received_progress|].
      by eapply received_ready, (br_ready _ _ _ _ _ _ _ HB). }
  destruct (IH w1 st1 sent1 (b + (if is_eoi x then 1 else 0)) ids2) as (st' & w' & sent' & E & M & Hq & B & Ee).
  - by apply (ta_queue _ _ _ _ T1).
  - eapply encodes_agree; [exact Hxs|]. by eapply taken_agree.
  - done.
  - by apply NoDup_app in Hnd as (_ & _ & ?).
  - exact B1.
  - exists st', w', sent'. split.
    + cbn [length Nat.add rounds_lin]. unfold loop_round_with at 1. cbn [fst snd]. unfold bind at 1.
      rewrite (is_empty_spec _ _ _ Hh). rewrite bool_decide_eq_false_2.
      2:{ apply carries_length in Hx. destruct ids1; [unfold lenZ in Hx; simpl in Hx; lia|done]. }
      unfold bind at 1. rewrite E1. destruct (progress_not_waiting _ _ _ _ _ _ B1) as [-> _]. exact E.
    + split; [by rewrite M, M1|]. split; [done|]. split; [|by rewrite Ee; apply T1].
      simpl. replace (b + (count_eoi xs + (if is_eoi x then 1 else 0)))
        with (b + (if is_eoi x then 1 else 0) + count_eoi xs) by lia. exact B.
Qed.

(** Serving the queue of the only try-commit unit. *)
Lemma commit_unit_run ns iter0 w st sent b ids xs :
  0 < ns → progress ns iter0 sent w st b →
  chan_holds (w_sh w) (ToCommit 0) ids → encodes (sh_pools (w_sh w)) ids xs → Forall committable xs → NoDup ids →
  ∃ st' w' sent', cm_unit ns 1 0 st w = Ok st' w' ∧
    p_mem (w_p w') = foldl apply_msg (p_mem (w_p w)) xs ∧ chan_holds (w_sh w') (ToCommit 0) [] ∧
    progress ns iter0 sent' w' st' (b + count_eoi xs).
Proof.
  intros Hns HB Hh Hen Hcm Hnd.
  destruct (commit_rounds ns iter0 xs Hns w st sent b ids Hh Hen Hcm Hnd HB) as (st' & w' & sent' & E & M & Hq & B & _).
  exists st', w', sent'. split_and!; try done.
  unfold cm_unit. destruct (progress_not_waiting _ _ _ _ _ _ HB) as [-> _]. eapply loop_with_enough; [exact E|].
  apply chan_bound in Hh. apply encodes_length in Hen. apply Nat2Z.inj_le. rewrite Nat2Z.inj_pow.
  change (Z.of_nat 2 ^ Z.of_nat 14) with 16384. unfold lenZ, PAIRS in *. lia.
Qed.

(** The commit unit applies validated iterations in order: with one
    try-commit unit, serving its queue takes every packet, makes the memory of the
    main process the result of applying all received words and pages in the order
    of the queue, and for every [num_stages] ends of a stage advances the iteration
    counter and [last_committed_iteration] by one. *)
Theorem commit_applies ns iter0 w st sent b ids xs :
  0 < ns → progress ns iter0 sent w st b →
  chan_holds (w_sh w) (ToCommit 0) ids → encodes (sh_pools (w_sh w)) ids xs → Forall committable xs → NoDup ids →
  ∃ st' w', cm_unit ns 1 0 st w = Ok st' w' ∧
    p_mem (w_p w') = foldl apply_msg (p_mem (w_p w)) xs ∧ chan_holds (w_sh w') (ToCommit 0) [] ∧
    let b' := b + count_eoi xs in
    cm_stage st' = b' mod ns ∧ current_iteration (w_p w') = i32 (iter0 + b' / ns) ∧
    (ns ≤ b' → last_committed_iteration <$> the_pcb (w_sh w') = Some (i32 (iter0 + b' / ns - 1))).
Proof.
  intros Hns HB Hh Hen Hcm Hnd.
  destruct (commit_unit_run ns iter0 w st sent b ids xs Hns HB Hh Hen Hcm Hnd) as (st' & w' & sent' & E & M & Hq & B).
  exists st', w'. split_and!; try done. destruct B. done.
Qed.

(** A loop of one stage: the queue holds one word and the end of iteration 4. *)
Lemma commit_applies_witness :
  ∃ st' w', cm_unit 1 1 0 (CM ∅ ∅ 0) (with_word 4 (ToCommit 0) demo_commit_world) = Ok st' w' ∧
    rd (p_mem (w_p w')) 0x7008 = 0x55 ∧ last_committed_iteration <$> the_pcb (w_sh w') = Some 4.
Proof.
  pose proof (with_word_ok 4 (ToCommit 0) demo_commit_world) as [[H1 H2 _ _] H3].
  destruct (commit_applies 1 4 (with_word 4 (ToCommit 0) demo_commit_world) (CM ∅ ∅ 0) (λ _, 0) 0
    (word_ids 4) [word_msg; MEnd EOI]) as (st' & w' & E & M & _ & _ & _ & Hl).
  - lia.
  - apply barriers_start; [lia|lia|lia| |done|by eexists]. split; [exact demo_li_table_ok|by eexists].
  - exact H1.
  - apply (encodes_app _ [WPacket 4 0; WPacket 4 1] [word_msg]); [exact H2|].
    apply (en_cons _ [WPacket 4 2] _ [] []); [exact H3|constructor].
  - repeat (apply List.Forall_cons; [simpl; auto|]). apply List.Forall_nil.
  - apply NoDup_ListNoDup. repeat constructor; simpl; intros H; repeat destruct H as [H|H]; done.
  - exists st', w'. split; [exact E|]. split.
    + rewrite M. change (rd (apply_msg (p_mem (w_p demo_commit_world)) word_msg) 0x7008 = 0x55). by vm_compute.
    + apply Hl. by vm_compute.
Defined.
