(* ===== verification/TryCommit.v ===== *)
(** The try-commit unit on the messages of one iteration. *)
From S2P Require Import Prelude Machine Strategy Pages SwQueue Packet State Communicate Malloc Separation Speculation Prediction Units Messages.
From stdpp Require Import strings.
#[local] Open Scope Z_scope.

(** ** The abstract check *)

(** The check of one message of stage [stage] against the memory of the unit;
    [verdict] tells whether the predicted values hold in a memory. *)
Definition check_msg (g : strategy) (verdict : mem → bool) (stage : Z) (m : mem) (x : msg) : option mem :=
  match x with
  | MWord ptr value shadow check =>
      if check =? CHECK_REQUIRED then check_packet g m ptr (u64 value) (u64 shadow) stage else Some m
  | MPage ptr data shadow check =>
      if check =? CHECK_REQUIRED then check_page g m ptr data shadow stage else Some m
  | MBoi => if verdict m then Some m else None
  | _ => Some m
  end.

Definition with_mem (m : mem) (w : world) : world := set_p (set_p_mem m (w_p w)) w.

(** The predictions of [w] on another memory. *)
Definition predictions_hold (w : world) (m : mem) : bool := li_verdict (with_mem m w) && lp_verdict (with_mem m w).

(** The messages that are passed on to the commit unit. *)
Definition kept (t : Z) (x : msg) : bool :=
  match x with MReadOnly | MBoi => false | MFree => t =? 0 | _ => true end.

(** ** Copies of packets *)

Definition same_packet (p q : packet) : Prop :=
  pk_ptr p = pk_ptr q ∧ pk_value p = pk_value q ∧ pk_size p = pk_size q ∧ pk_is_write p = pk_is_write q ∧
  pk_type p = pk_type q.

Definition packets_of (P : pools) (ids : list vptr) : list packet :=
  (λ v, match v with WPacket o i => get_packet P o i | _ => packet0 end) <$> ids.

(** The packets [ids] of [P] have the contents [ps]. *)
Definition hold_packets (P : pools) (ids : list vptr) (ps : list packet) : Prop :=
  Forall2 (λ v p, ∃ o i, v = WPacket o i ∧ same_packet (get_packet P o i) p) ids ps.

(** The buffered packets [ps] are the message [x] (or nothing). *)
Definition contents (P : pools) (ps : list packet) (x : msg) : Prop :=
  ∀ P' ids, (∀ o i, ck_data (get_chunk P' o i) = ck_data (get_chunk P o i)) → hold_packets P' ids ps → NoDup ids →
    carries P' ids x.

Lemma same_packet_eq p q ptr v size wr ty sg : same_packet p q → q = Packet ptr v size wr ty sg →
  p = Packet ptr v size wr ty (pk_sign p).
Proof. intros (H1 & H2 & H3 & H4 & H5) ->. destruct p; simpl in *. by subst. Qed.

Lemma carries_contents P ids x : carries P ids x → contents P (packets_of P ids) x.
Proof.
  intros H P' ids' Hd Hh Hnd. unfold hold_packets in Hh.
  destruct H as [o i o' i' ? ? ? ? ? ? ? ? ? ? Ep Es Hne|o i o' i' ? ? ? ? ? ? ? ? ? ? ? ? ? Ep Es Hro Hne|
    o i ? ? ? ? ? Ep|o i ? ? ? ? ? Ep|o i ? ? ? ? ? Ep|o i ? ? ? ? ? ? Hty Ep]; simpl in Hh.
  1,2: apply Forall2_cons_inv_r in Hh as (v & l & (a & b & -> & S1) & Hl & ->);
    apply Forall2_cons_inv_r in Hl as (v & l' & (a' & b' & -> & S2) & Hl & ->); apply Forall2_nil_inv_r in Hl as ->;
    apply NoDup_cons in Hnd as [Hnd _]; rewrite list_elem_of_singleton in Hnd;
    pose proof (same_packet_eq _ _ _ _ _ _ _ _ S1 Ep) as E1; pose proof (same_packet_eq _ _ _ _ _ _ _ _ S2 Es) as E2.
  3,4,5,6: apply Forall2_cons_inv_r in Hh as (v & l & (a & b & -> & S1) & Hl & ->);
    apply Forall2_nil_inv_r in Hl as ->; pose proof (same_packet_eq _ _ _ _ _ _ _ _ S1 Ep) as E1.
  - eapply ca_word; [exact E1|exact E2|congruence].
  - rewrite <-!Hd. eapply ca_page; [exact E1|exact E2|done|congruence].
  - by eapply ca_ro.
  - by eapply ca_free.
  - by eapply ca_boi.
  - by eapply ca_end.
Qed.

(** The buffered packets [ps] are the messages [xs]. *)
Inductive buffered (P : pools) : list packet → list msg → Prop :=
| bf_nil : buffered P [] []
| bf_snoc ps xs qs x : buffered P ps xs → contents P qs x → buffered P (ps ++ qs) (xs ++ [x]).

Lemma buffered_encodes P P' ps xs : buffered P ps xs →
  (∀ o i, ck_data (get_chunk P' o i) = ck_data (get_chunk P o i)) →
  ∀ ids, hold_packets P' ids ps → NoDup ids → encodes P' ids xs.
Proof.
  intros H Hd. induction H as [|ps xs qs x H IH Hx]; intros ids Hh Hnd.
  - apply Forall2_nil_inv_r in Hh as ->. constructor.
  - apply Forall2_app_inv_r in Hh as (l1 & l2 & H1 & H2 & ->). apply NoDup_app in Hnd as (N1 & _ & N2).
    apply encodes_app; [by apply IH|]. rewrite <-(app_nil_r l2). constructor; [|constructor]. by apply Hx.
Qed.

Lemma contents_data P P' ps x : (∀ o i, ck_data (get_chunk P' o i) = ck_data (get_chunk P o i)) →
  contents P ps x → contents P' ps x.
Proof. intros Hd H P2 ids H2 Hh Hnd. apply H; [|done|done]. intros o i. by rewrite H2, Hd. Qed.

Lemma buffered_data P P' ps xs : (∀ o i, ck_data (get_chunk P' o i) = ck_data (get_chunk P o i)) →
  buffered P ps xs → buffered P' ps xs.
Proof. intros Hd. induction 1; constructor; [done|]. by eapply contents_data. Qed.

(** ** The unit *)

Record unit_core (w : world) : Prop := {
  uo_wid : 0 ≤ try_commit_begin (p_ctl (w_p w)) ≤ worker_id (w_p w);
  uo_main : worker_id (w_p w) < MAIN_PROCESS_WID;
  uo_queues : queues_ok (w_sh w);
  uo_incoming c : c ∈ incoming (try_commit_begin (p_ctl (w_p w))) (worker_id (w_p w)) → is_Some (chan_get (w_sh w) c) }.

Record unit_ok (w : world) : Prop := {
  uo_core : unit_core w;
  uo_pcb : is_Some (the_pcb (w_sh w));
  uo_li : li_table_ok w;
  uo_lp : lp_table_ok w;
  uo_sizes : lp_sizes_ok w }.

Lemma received_proc w w' c ids : received w w' c ids → ∃ m, w_p w' = set_p_mem m (w_p w).
Proof. intros R. eexists. apply (rv_proc _ _ _ _ R). Qed.

Lemma received_queues_ok w w' c ids vs : received w w' c ids → chan_holds (w_sh w) c (ids ++ vs) →
  queues_ok (w_sh w) → queues_ok (w_sh w').
Proof.
  intros R Hh Hok d q Hq. assert (∃ us, chan_holds (w_sh w') d us) as (us & q' & Hq' & H).
  { destruct (decide (d = c)) as [->|Hne]; [eexists; by apply (rv_queue _ _ _ _ R)|].
    destruct (proj1 (rv_some _ _ _ _ R d) ltac:(by eexists)) as [q0 Hq0]. destruct (Hok d q0 Hq0) as [us Hus].
    exists us. apply (rv_other _ _ _ _ R); [done|]. by exists q0. }
  rewrite Hq in Hq'. injection Hq' as <-. eauto.
Qed.

Lemma received_unit_ok w w' c ids vs : received w w' c ids → chan_holds (w_sh w) c (ids ++ vs) →
  unit_ok w → unit_ok w'.
Proof.
  intros R Hh [[? ? Hq Hin] Hpcb Hli Hlp Hsz]. pose proof (rv_rest _ _ _ _ R) as Hr. unfold rest_of in Hr.
  injection Hr as R1 _ R3 R4. destruct (received_proc _ _ _ _ R) as [m M].
  split; unfold li_table_ok, lp_table_ok, lp_sizes_ok in *; rewrite ?M, ?R1, ?R3, ?R4; try done.
  split; rewrite ?M; try done; [by eapply received_queues_ok|].
  intros d Hd. apply (rv_some _ _ _ _ R). by apply Hin.
Qed.

Lemma predictions_received w w' c ids m : received w w' c ids → predictions_hold w' m = predictions_hold w m.
Proof.
  intros R. pose proof (rv_rest _ _ _ _ R) as Hr. unfold rest_of in Hr. injection Hr as _ _ R3 R4.
  unfold predictions_hold, li_verdict, lp_verdict, location_check, lp_word, with_mem. simpl.
  destruct (received_proc _ _ _ _ R) as [m' ->]. by rewrite R3, R4.
Qed.

(** A failing check ends the process: the current iteration is recorded in the
    control block as misspeculated, and nothing is passed on. *)
Definition rejected {A} (w : world) (r : res world A) : Prop :=
  ∃ w' p, r = Stop (Exited 0) w' ∧ the_pcb (w_sh w) = Some p ∧
    the_pcb (w_sh w') = Some (record_misspec (worker_id (w_p w)) (current_iteration (w_p w)) "try-commit failed" p) ∧
    ∀ k vs, chan_holds (w_sh w) (ToCommit k) vs → chan_holds (w_sh w') (ToCommit k) vs.

(** Rejection does not depend on what was received before. *)
Lemma rejected_mono {A} w w1 (r : res world A) :
  (∀ k vs, chan_holds (w_sh w) (ToCommit k) vs → chan_holds (w_sh w1) (ToCommit k) vs) →
  the_pcb (w_sh w1) = the_pcb (w_sh w) → (∃ m, w_p w1 = set_p_mem m (w_p w)) → rejected w1 r → rejected w r.
Proof.
  intros H Hp [m Hm] (w' & p & E & Hp1 & Hp2 & Hk). exists w', p. rewrite Hm, Hp in *. split_and!; auto.
Qed.

Lemma rejected_received {A} w w1 c ids (r : res world A) : received w w1 c ids → (∀ k, c ≠ ToCommit k) →
  rejected w1 r → rejected w r.
Proof.
  intros R Hc. pose proof (rv_rest _ _ _ _ R) as Hr. unfold rest_of in Hr. injection Hr as R1 _ _ _.
  apply rejected_mono; [|done|by eapply received_proc]. intros k vs H. by apply (rv_other _ _ _ _ R).
Qed.

Lemma rejected_bind {A B} w (c : W A) (k : A → W B) t : rejected w (c t) → rejected w (bind c k t).
Proof. intros (w' & p & E & H). exists w', p. unfold bind. by rewrite E. Qed.

Lemma commit_not_incoming tcb wid k : ToCommit k ∉ incoming tcb wid.
Proof. unfold incoming. case_match; intros (? & ? & _)%list_elem_of_fmap; done. Qed.

Lemma unit_clear w : unit_core w → ∃ w', clear_incoming_queues (worker_id (w_p w)) w = Ok tt w' ∧
  cleared (incoming (try_commit_begin (p_ctl (w_p w))) (worker_id (w_p w))) w w'.
Proof. intros U. apply clear_incoming_ok; [apply U|]. intros _. apply U. Qed.

Lemma unit_broadcast w ptr size value wr ty : unit_core w →
  broadcast_event (worker_id (w_p w)) ptr size value wr ty w = Ok 0 w.
Proof.
  intros [? ? _ _]. unfold broadcast_event, bind, ctl, getp, gets. by rewrite (proj2 (Z.leb_le _ _)) by lia.
Qed.

Lemma cleared_unit_core w w' l : cleared l w w' → unit_core w → unit_core w'.
Proof.
  intros [_ _ Hs Hok _ _ Hp He] [? ? Hq Hin]. split; rewrite ?Hp; try done. intros d Hd. apply Hs. by apply Hin.
Qed.

Lemma unit_finishes w : unit_core w → ∃ w', worker_finishes 0 w = Stop (Exited 0) w' ∧
  cleared (incoming (try_commit_begin (p_ctl (w_p w))) (worker_id (w_p w))) w w'.
Proof.
  intros U. destruct (unit_clear w U) as (w' & E & C). exists w'. split; [|done].
  pose proof (uo_main _ U). pose proof (uo_wid _ U).
  unfold worker_finishes. unfold bind at 1, my_worker_id, getp at 1, gets at 1. unfold bind at 1.
  rewrite (proj2 (Z.eqb_neq _ _)) by lia. cbn [negb assert_ ret]. unfold bind at 1, ctl, getp at 1, gets at 1.
  rewrite (proj2 (Z.ltb_ge _ _)) by lia. cbn [when]. unfold bind at 1, ret at 1. unfold bind at 1.
  rewrite unit_broadcast by done. unfold bind. by rewrite E.
Qed.

Lemma failed_run {A} w : unit_ok w → rejected w ((try_commit_failed : W A) w).
Proof.
  intros [U [p Hp] _ _ _]. unfold try_commit_failed. apply rejected_bind. unfold misspec.
  unfold bind at 1, current_iter, getp at 1, gets at 1. unfold bind at 1, my_worker_id, getp at 1, gets at 1.
  unfold bind at 1. rewrite (modpcb_ok _ p w Hp). set (p1 := record_misspec _ _ _ p). set (w1 := set_pcb p1 w).
  assert (unit_core w1) as U1.
  { destruct U as [? ? Hq Hin]. by split. }
  unfold bind at 1. change (worker_id (w_p w)) with (worker_id (w_p w1)). rewrite unit_broadcast by done.
  destruct (unit_clear w1 U1) as (w2 & E2 & C2). unfold bind at 1. rewrite E2.
  pose proof (uo_main _ U1). rewrite (proj2 (Z.eqb_neq _ _)) by lia. cbn [negb].
  pose proof (cleared_unit_core _ _ _ C2 U1) as U2.
  destruct (unit_finishes w2 U2) as (w3 & E3 & C3). exists w3, p. split; [exact E3|]. split; [done|].
  split; [by rewrite (cd_pcb _ _ _ C3), (cd_pcb _ _ _ C2)|].
  intros k vs Hk. apply (cd_out _ _ _ C3); [apply commit_not_incoming|].
  apply (cd_out _ _ _ C2); [apply commit_not_incoming|]. by apply chan_holds_pcb.
Qed.

(** ** One message *)

Lemma buffer_packet_run buf o i w : lenZ buf < PACKET_POOL_SIZE →
  buffer_packet buf (o, i) w = Ok (buf ++ [get_packet (sh_pools (w_sh w)) o i]) w.
Proof.
  intros H. unfold buffer_packet. unfold bind at 1. rewrite (proj2 (Z.eqb_neq _ _)) by lia. done.
Qed.

Lemma run_check_run f w : run_check f w =
  match f (p_mem (w_p w)) with Some m' => Ok true (with_mem m' w) | None => Ok false w end.
Proof. unfold run_check. run_w. by destruct (f _). Qed.

(** A check that is only made on demand. *)
Lemma checked_run {A} (b : bool) f w (k : W A) :
  unit_ok w →
  match (if b then f (p_mem (w_p w)) else Some (p_mem (w_p w))) with
  | Some m' => (when b (let! ok := run_check f in if ok then ret tt else try_commit_failed) ;;; k) w = k (with_mem m' w)
  | None => rejected w ((when b (let! ok := run_check f in if ok then ret tt else try_commit_failed) ;;; k) w)
  end.
Proof.
  intros U. destruct b; simpl.
  - destruct (f (p_mem (w_p w))) as [m'|] eqn:E.
    + unfold bind. by rewrite run_check_run, E.
    + apply rejected_bind. unfold bind. rewrite run_check_run, E. by apply failed_run.
  - unfold bind, ret. f_equal. unfold with_mem. rewrite set_p_mem_id. by destruct w.
Qed.

Lemma lenZ_snoc {A} (l : list A) x : lenZ (l ++ [x]) = lenZ l + 1.
Proof. unfold lenZ. rewrite length_app. simpl. lia. Qed.

(** Buffer a pair of packets and release them. *)
Lemma buffer_pair_run w w1 c o i o' i' st :
  received w w1 c [WPacket o i; WPacket o' i'] → lenZ (tc_buf st) + 2 ≤ PACKET_POOL_SIZE →
  ∃ w', (let! st' := (let! buf := buffer_packet (tc_buf st) (o, i) in let! buf := buffer_packet buf (o', i') in
                      release_packet (o', i') ;;; ret (with_buf st buf)) in
         release_packet (o, i) ;;; ret st') w1 =
      Ok (with_buf st (tc_buf st ++ packets_of (sh_pools (w_sh w1)) [WPacket o i; WPacket o' i'])) w' ∧
    received w w' c [WPacket o i; WPacket o' i'] ∧ w_p w' = w_p w1.
Proof.
  intros R Hb. set (buf := tc_buf st ++ packets_of (sh_pools (w_sh w1)) [WPacket o i; WPacket o' i']).
  destruct (release_packet_run w w1 c _ o' i' (let! st' := ret (with_buf st buf) in release_packet (o, i) ;;; ret st') R)
    as (w2 & E2 & R2 & M2 & _); [apply elem_of_cons; right; by apply list_elem_of_singleton|].
  destruct (release_packet_run w w2 c _ o i (ret (with_buf st buf)) R2) as (w3 & E3 & R3 & M3 & _);
    [apply elem_of_cons; by left|].
  exists w3. split; [|split; [done|by rewrite M3]]. unfold ret at 2 in E3. rewrite <-E3.
  rewrite bind_bind. unfold bind at 1. rewrite buffer_packet_run by lia. rewrite bind_bind. unfold bind at 1.
  rewrite buffer_packet_run by (rewrite lenZ_snoc; lia). rewrite bind_bind.
  replace ((tc_buf st ++ [get_packet (sh_pools (w_sh w1)) o i]) ++ [get_packet (sh_pools (w_sh w1)) o' i']) with buf
    by (unfold buf; simpl; by rewrite <-app_assoc).
  exact E2.
Qed.

(** The outcome of one message. *)
Definition tc_outcome (w : world) (c : chan) (ids : list vptr) (st : tc_state) (ps : list packet) (m' : option mem)
    (r : res world tc_state) : Prop :=
  match m' with
  | Some m' => ∃ w', r = Ok (with_buf st (tc_buf st ++ ps)) w' ∧ received w w' c ids ∧ p_mem (w_p w') = m'
  | None => rejected w r
  end.

(** A pair of packets that is checked and buffered. *)
Lemma tc_pair w w2 c o i o' i' st (b : bool) f :
  unit_ok w2 → (∀ k, c ≠ ToCommit k) → received w w2 c [WPacket o i; WPacket o' i'] →
  lenZ (tc_buf st) + 2 ≤ PACKET_POOL_SIZE →
  tc_outcome w c [WPacket o i; WPacket o' i'] st (packets_of (sh_pools (w_sh w2)) [WPacket o i; WPacket o' i'])
    (if b then f (p_mem (w_p w2)) else Some (p_mem (w_p w2)))
    ((let! st' := (when b (let! ok := run_check f in if ok then ret tt else try_commit_failed) ;;;
                   let! buf := buffer_packet (tc_buf st) (o, i) in let! buf := buffer_packet buf (o', i') in
                   release_packet (o', i') ;;; ret (with_buf st buf)) in
      release_packet (o, i) ;;; ret st') w2).
Proof.
  intros U Hc R Hb. unfold tc_outcome. rewrite bind_bind.
  pose proof (checked_run b f w2 (let! st' := (let! buf := buffer_packet (tc_buf st) (o, i) in
    let! buf := buffer_packet buf (o', i') in release_packet (o', i') ;;; ret (with_buf st buf)) in
    release_packet (o, i) ;;; ret st') U) as H.
  destruct (if b then f (p_mem (w_p w2)) else Some (p_mem (w_p w2))) as [m'|].
  - rewrite H. pose proof (received_mem _ _ _ _ (λ _, m') R) as R3.
    destruct (buffer_pair_run w (with_mem m' w2) c o i o' i' st R3 Hb) as (w' & E & R' & M').
    exists w'. split; [exact E|]. split; [done|]. by rewrite M'.
  - by eapply rejected_received.
Qed.

Lemma ro_loop_run g data stage m (l : list Z) (w : world) :
  for_ l (λ pageindex, let! _ := ret (check_ro_page g m (load 8 data (8 * pageindex)) stage) in ret tt) w = Ok tt w.
Proof. induction l as [|x l IH]; [done|]. cbn [for_]. unfold bind at 1, ret at 1. exact IH. Qed.

(** A packet that is only released. *)
Lemma tc_release w w1 c ids st o i m : received w w1 c ids → WPacket o i ∈ ids → p_mem (w_p w1) = m →
  tc_outcome w c ids st [] (Some m) ((release_packet (o, i) ;;; ret st) w1).
Proof.
  intros R Hi <-. destruct (release_packet_run w w1 c ids o i (ret st) R Hi) as (w' & E & R' & M' & _).
  exists w'. rewrite app_nil_r. split; [rewrite E; by destruct st|]. split; [done|]. by rewrite M'.
Qed.

(** Each kind of message, after its first packet was received. *)

Lemma tc_word stage c w w1 o i o' i' st vs ptr value shadow size' check wr' ty' sg sg' ptr' :
  received w w1 c [WPacket o i] → unit_ok w1 → (∀ k, c ≠ ToCommit k) → chan_holds (w_sh w1) c (WPacket o' i' :: vs) →
  get_packet (sh_pools (w_sh w1)) o i = Packet ptr (WInt value) 8 check NORMAL sg →
  get_packet (sh_pools (w_sh w1)) o' i' = Packet ptr' (WInt shadow) size' wr' ty' sg' →
  lenZ (tc_buf st) + 2 ≤ PACKET_POOL_SIZE →
  tc_outcome w c [WPacket o i; WPacket o' i'] st (packets_of (sh_pools (w_sh w1)) [WPacket o i; WPacket o' i'])
    (if check =? CHECK_REQUIRED then check_packet (e_strategy (w_env w1)) (p_mem (w_p w1)) ptr (u64 value) (u64 shadow) stage
     else Some (p_mem (w_p w1)))
    ((let! st' := tc_normal stage c (o, i) st in release_packet (o, i) ;;; ret st') w1).
Proof.
  intros R1 U1 Hc Hh1 Ep Es Hb. unfold tc_normal. rewrite bind_bind. unfold bind at 1, packet_at at 1, getsh, gets. cbn [fst snd].
  destruct (recv_run w1 c o' i' vs Hh1) as (w2 & E2 & R2 & P2 & M2).
  rewrite bind_bind. unfold bind at 1. rewrite E2. rewrite bind_bind. unfold bind at 1, packet_at, getsh, gets. cbn [fst snd].
  rewrite Ep, P2, Es. cbn [pk_value pk_ptr pk_is_write]. do 2 (rewrite bind_bind; unfold bind at 1; cbn [as_int ret]).
  rewrite bind_bind. unfold bind at 1, g_, gete, gets.
  pose proof (tc_pair w w2 c o i o' i' st (check =? CHECK_REQUIRED)
    (λ m, check_packet (e_strategy (w_env w2)) m ptr (u64 value) (u64 shadow) stage)
    (received_unit_ok _ _ _ _ _ R2 Hh1 U1) Hc (received_trans _ _ _ _ _ _ R1 R2) Hb) as Hp.
  rewrite P2, M2, (rv_env _ _ _ _ R2) in Hp. rewrite (rv_env _ _ _ _ R2). exact Hp.
Qed.

Lemma tc_page stage c w w1 o i o' i' st vs ptr co ci so si size size' check wr' ty' sg sg' ptr' :
  received w w1 c [WPacket o i] → unit_ok w1 → (∀ k, c ≠ ToCommit k) → chan_holds (w_sh w1) c (WPacket o' i' :: vs) →
  get_packet (sh_pools (w_sh w1)) o i = Packet ptr (WChunk co ci) size check SUPER sg →
  get_packet (sh_pools (w_sh w1)) o' i' = Packet ptr' (WChunk so si) size' wr' ty' sg' →
  check ≠ CHECK_RO_PAGE → lenZ (tc_buf st) + 2 ≤ PACKET_POOL_SIZE →
  tc_outcome w c [WPacket o i; WPacket o' i'] st (packets_of (sh_pools (w_sh w1)) [WPacket o i; WPacket o' i'])
    (if check =? CHECK_REQUIRED
     then check_page (e_strategy (w_env w1)) (p_mem (w_p w1)) ptr (ck_data (get_chunk (sh_pools (w_sh w1)) co ci))
            (ck_data (get_chunk (sh_pools (w_sh w1)) so si)) stage
     else Some (p_mem (w_p w1)))
    ((let! st' := tc_super stage c (o, i) st in release_packet (o, i) ;;; ret st') w1).
Proof.
  intros R1 U1 Hc Hh1 Ep Es Hro Hb. unfold tc_super. rewrite bind_bind. unfold bind at 1, packet_at at 1, getsh, gets. cbn [fst snd].
  rewrite bind_bind. unfold bind at 1, g_, gete, gets. rewrite Ep. cbn [pk_value pk_ptr pk_is_write].
  rewrite bind_bind. unfold bind at 1. cbn [as_chunk ret]. rewrite bind_bind.
  unfold bind at 1, chunk_at at 1, getsh, gets. cbn [fst snd]. rewrite (proj2 (Z.eqb_neq _ _) Hro).
  destruct (recv_run w1 c o' i' vs Hh1) as (w2 & E2 & R2 & P2 & M2).
  rewrite bind_bind. unfold bind at 1. rewrite E2. rewrite bind_bind. unfold bind at 1, packet_at, getsh, gets. cbn [fst snd].
  rewrite P2, Es. cbn [pk_value]. rewrite bind_bind. unfold bind at 1. cbn [as_chunk ret]. rewrite bind_bind.
  unfold bind at 1, chunk_at at 1, getsh, gets. cbn [fst snd]. rewrite P2.
  pose proof (tc_pair w w2 c o i o' i' st (check =? CHECK_REQUIRED)
    (λ m, check_page (e_strategy (w_env w1)) m ptr (ck_data (get_chunk (sh_pools (w_sh w1)) co ci))
      (ck_data (get_chunk (sh_pools (w_sh w1)) so si)) stage)
    (received_unit_ok _ _ _ _ _ R2 Hh1 U1) Hc (received_trans _ _ _ _ _ _ R1 R2) Hb) as Hp.
  rewrite P2, M2 in Hp. exact Hp.
Qed.

Lemma tc_read_only stage c w w1 o i st ptr co ci size sg :
  received w w1 c [WPacket o i] →
  get_packet (sh_pools (w_sh w1)) o i = Packet ptr (WChunk co ci) size CHECK_RO_PAGE SUPER sg →
  tc_outcome w c [WPacket o i] st [] (Some (p_mem (w_p w1)))
    ((let! st' := tc_super stage c (o, i) st in release_packet (o, i) ;;; ret st') w1).
Proof.
  intros R1 Ep. unfold tc_super. rewrite bind_bind. unfold bind at 1, packet_at at 1, getsh, gets. cbn [fst snd].
  rewrite bind_bind. unfold bind at 1, g_, gete, gets. rewrite Ep. cbn [pk_value pk_ptr pk_is_write].
  rewrite bind_bind. unfold bind at 1. cbn [as_chunk ret]. rewrite bind_bind.
  unfold bind at 1, chunk_at at 1, getsh, gets. cbn [fst snd]. cbn [CHECK_RO_PAGE Z.eqb Pos.eqb].
  rewrite bind_bind. unfold bind at 1, getp, gets. rewrite bind_bind. unfold bind at 1. rewrite ro_loop_run.
  rewrite bind_bind.
  destruct (release_chunk_run w w1 c _ 0 (co, ci) (let! st' := ret st in release_packet (o, i) ;;; ret st') R1)
    as (w2 & E2 & R2 & M2 & _). rewrite E2. unfold bind at 1, ret at 1.
  apply tc_release; [done|by apply list_elem_of_singleton|by rewrite M2].
Qed.

Lemma tc_free t src c w w1 o i st ptr :
  received w w1 c [WPacket o i] → lenZ (tc_buf st) + 2 ≤ PACKET_POOL_SIZE →
  tc_outcome w c [WPacket o i] st (if t =? 0 then packets_of (sh_pools (w_sh w1)) [WPacket o i] else [])
    (Some (p_mem (w_p w1)))
    ((let! st' := (let! buf := if t =? 0 then buffer_packet (tc_buf st) (o, i) else ret (tc_buf st) in
                   update_ver_free src ptr ;;; ret (with_buf st buf)) in release_packet (o, i) ;;; ret st') w1).
Proof.
  intros R1 Hb. unfold update_ver_free. destruct (t =? 0).
  - rewrite bind_bind. unfold bind at 1. rewrite buffer_packet_run by lia. unfold bind at 1 2, ret at 1 2.
    destruct (release_packet_run w w1 c _ o i (ret (with_buf st (tc_buf st ++ [get_packet (sh_pools (w_sh w1)) o i]))) R1)
      as (w' & E & R' & M' & _); [by apply list_elem_of_singleton|].
    exists w'. split; [exact E|]. split; [done|]. by rewrite M'.
  - rewrite bind_bind. unfold bind at 1, ret at 1. rewrite bind_bind. unfold bind at 1, ret at 1. unfold bind at 1, ret at 1.
    replace (with_buf st (tc_buf st)) with st by (by destruct st).
    apply tc_release; [done|by apply list_elem_of_singleton|done].
Qed.

Lemma tc_begin c w w1 o i st : received w w1 c [WPacket o i] → unit_ok w1 → (∀ k, c ≠ ToCommit k) →
  p_mem (w_p w1) = p_mem (w_p w) →
  tc_outcome w c [WPacket o i] st [] (if predictions_hold w (p_mem (w_p w1)) then Some (p_mem (w_p w1)) else None)
    ((let! st' := tc_boi st in release_packet (o, i) ;;; ret st') w1).
Proof.
  intros R1 U1 Hc M1. unfold tc_boi. rewrite bind_bind. unfold bind at 1. rewrite verify_loop_invariants_run by apply U1.
  assert (predictions_hold w (p_mem (w_p w1)) = li_verdict w1 && lp_verdict w1) as ->.
  { rewrite <-(predictions_received _ _ _ _ _ R1). unfold predictions_hold, with_mem.
    rewrite set_p_mem_id. by destruct w1. }
  rewrite bind_bind. destruct (li_verdict w1); simpl.
  2:{ eapply rejected_received; [done|done|]. apply rejected_bind. by apply failed_run. }
  unfold bind at 1, ret at 1. rewrite bind_bind. unfold bind at 1. rewrite verify_linear_run by apply U1.
  rewrite bind_bind. destruct (lp_verdict w1); simpl.
  2:{ eapply rejected_received; [done|done|]. apply rejected_bind. by apply failed_run. }
  unfold bind at 1, ret at 1. unfold bind at 1, ret at 1.
  apply tc_release; [done|by apply list_elem_of_singleton|done].
Qed.

Lemma tc_msg t stage ns src iter c w st ids x vs :
  unit_ok w → (∀ k, c ≠ ToCommit k) → chan_holds (w_sh w) c (ids ++ vs) →
  carries (sh_pools (w_sh w)) ids x → goes_on x = true → lenZ (tc_buf st) + 2 ≤ PACKET_POOL_SIZE →
  tc_outcome w c ids st (if kept t x then packets_of (sh_pools (w_sh w)) ids else [])
    (check_msg (e_strategy (w_env w)) (predictions_hold w) stage (p_mem (w_p w)) x)
    (tc_packet t stage ns src iter c st w).
Proof.
  intros U Hc Hh Hx Hgo Hb. unfold tc_packet.
  assert (∃ o i rest, ids = WPacket o i :: rest) as (o & i & rest & ->) by (destruct Hx; eauto).
  destruct (recv_run w c o i (rest ++ vs) Hh) as (w1 & E1 & R1 & P1 & M1). rewrite <-P1 in *.
  pose proof (received_unit_ok _ _ _ _ _ R1 Hh U) as U1. pose proof (rv_env _ _ _ _ R1) as V1.
  unfold bind at 1. rewrite E1. unfold bind at 1, packet_at, getsh, gets. cbn [fst snd].
  pose proof (rv_queue _ _ _ _ R1 _ Hh) as Hh1.
  inversion Hx as [? ? o' i' ptr value shadow ? ? ? ? ? ? ? Ep Es|
    ? ? o' i' ptr co ci so si ? ? ? ? ? ? ? ? Ep Es Hro|? ? ptr co ci ? ? Ep|? ? ? ? ? ? ? Ep|? ? ? ? ? ? ? Ep|? ? ? ? ? ? type ? Hty Ep];
    subst; rewrite Ep; cbn [pk_type pk_value pk_is_write pk_ptr pk_size]; packet_case; [| | | | |done].
  - pose proof (tc_word stage c w w1 o i o' i' st vs _ _ _ _ _ _ _ _ _ _ R1 U1 Hc Hh1 Ep Es Hb) as Ho.
    rewrite M1, V1 in Ho. exact Ho.
  - pose proof (tc_page stage c w w1 o i o' i' st vs _ _ _ _ _ _ _ _ _ _ _ _ _ R1 U1 Hc Hh1 Ep Es Hro Hb) as Ho.
    rewrite M1, V1 in Ho. exact Ho.
  - rewrite <-M1. by eapply tc_read_only.
  - rewrite <-M1. by apply tc_free.
  - simpl. rewrite <-M1. apply tc_begin; [done|done|done|by rewrite M1].
Qed.

(** The packet that ends a stage. *)
Lemma tc_eoi t stage ns src iter c w st ids vs :
  chan_holds (w_sh w) c (ids ++ vs) → carries (sh_pools (w_sh w)) ids (MEnd EOI) →
  lenZ (tc_buf st) < PACKET_POOL_SIZE →
  ∃ w', tc_packet t stage ns src iter c st w =
      Ok (TC (tc_buf st ++ packets_of (sh_pools (w_sh w)) ids) (tc_terminated_iter st) true (tc_misspec st)) w' ∧
    received w w' c ids ∧ p_mem (w_p w') = p_mem (w_p w).
Proof.
  intros Hh Hx Hb. unfold tc_packet. inversion Hx as [| | | | |o i ptr value size wr ty sg Hty Ep]; subst.
  destruct (recv_run w c o i vs Hh) as (w1 & E1 & R1 & P1 & M1). rewrite <-P1 in *.
  unfold bind at 1. rewrite E1. unfold bind at 1, packet_at, getsh, gets. cbn [fst snd].
  rewrite Ep. cbn [pk_type]. packet_case. rewrite bind_bind. unfold bind at 1. rewrite buffer_packet_run by done.
  unfold bind at 1, ret at 1.
  destruct (release_packet_run w w1 c _ o i (ret (TC (tc_buf st ++ [get_packet (sh_pools (w_sh w1)) o i])
    (tc_terminated_iter st) true (tc_misspec st))) R1) as (w' & E & R' & M' & _); [by apply list_elem_of_singleton|].
  exists w'. split; [exact E|]. split; [done|]. by rewrite M', M1.
Qed.

Lemma packets_of_length P ids : lenZ (packets_of P ids) = lenZ ids.
Proof. unfold lenZ, packets_of. by rewrite length_fmap. Qed.

(** ** One stage *)

Definition tc_body (t ns iter stage src : Z) (c : chan) (st : tc_state) : W (tc_state + tc_state) :=
  let! st := tc_packet t stage ns src iter c st in
  ret (if tc_done st || tc_misspec st then inr st else inl st).

Record stage_done (w w' : world) (c : chan) (ids : list vptr) (buf buf' : list packet) (xs : list msg)
    (m' : mem) : Prop := {
  sd_recv : received w w' c ids;
  sd_mem : p_mem (w_p w') = m';
  sd_len : lenZ buf' ≤ lenZ buf + lenZ ids;
  sd_buf ys : buffered (sh_pools (w_sh w)) buf ys → buffered (sh_pools (w_sh w')) buf' (ys ++ xs) }.

Lemma check_msg_ext g v v' stage m x : (∀ m, v m = v' m) → check_msg g v stage m x = check_msg g v' stage m x.
Proof. intros H. destruct x; simpl; by rewrite ?H. Qed.

(** A message in front of the rest of a stage. *)
Lemma stage_done_cons t w w1 w' c ids1 ids2 buf buf' x xs m' :
  received w w1 c ids1 → carries (sh_pools (w_sh w)) ids1 x →
  let ps := if kept t x then packets_of (sh_pools (w_sh w)) ids1 else [] in
  stage_done w1 w' c ids2 (buf ++ ps) buf' (List.filter (kept t) xs ++ [MEnd EOI]) m' →
  stage_done w w' c (ids1 ++ ids2) buf buf' (List.filter (kept t) (x :: xs) ++ [MEnd EOI]) m'.
Proof.
  intros R1 Hx ps [R2 M2 L B]. split; [by eapply received_trans|done| |].
  - assert (lenZ ps ≤ lenZ ids1).
    { unfold ps. destruct (kept t x); [by rewrite packets_of_length|]. unfold lenZ. simpl. lia. }
    unfold lenZ in *. rewrite !length_app in *. lia.
  - intros ys Hys. assert (List.filter (kept t) (x :: xs) = (if kept t x then [x] else []) ++ List.filter (kept t) xs)
      as -> by (simpl; by destruct (kept t x)).
    rewrite <-app_assoc, app_assoc. apply B.
    eapply buffered_data; [apply (rv_data _ _ _ _ R1)|]. unfold ps. destruct (kept t x).
    + constructor; [done|]. by apply carries_contents.
    + by rewrite !app_nil_r.
Qed.

Lemma stage_rounds t ns iter stage src c end_ids xs : (∀ k, c ≠ ToCommit k) → ∀ w st ids vs,
  unit_ok w → chan_holds (w_sh w) c ((ids ++ end_ids) ++ vs) → encodes (sh_pools (w_sh w)) ids xs → all_go_on xs →
  carries (sh_pools (w_sh w)) end_ids (MEnd EOI) → NoDup (ids ++ end_ids) →
  lenZ (tc_buf st) + lenZ (ids ++ end_ids) ≤ PACKET_POOL_SIZE → tc_done st = false → tc_misspec st = false →
  ∃ r, rounds_lin (length xs + 1) (loop_round_with (tc_body t ns iter stage src c)) (st, w) = inr r ∧
    match fold_opt (check_msg (e_strategy (w_env w)) (predictions_hold w) stage) xs (p_mem (w_p w)) with
    | Some m' => ∃ w' buf', r = Ok (TC buf' (tc_terminated_iter st) true false) w' ∧
        stage_done w w' c (ids ++ end_ids) (tc_buf st) buf' (List.filter (kept t) xs ++ [MEnd EOI]) m'
    | None => rejected w r
    end.
Proof.
  intros Hc. induction xs as [|x xs IH]; intros w st ids vs U Hh Hen Hgo Hend Hnd Hlen Hd Hm.
  - inversion Hen; subst. simpl in Hh, Hlen |- *. pose proof (carries_length _ _ _ Hend) as Hl.
    destruct (tc_eoi t stage ns src iter c w st end_ids vs Hh Hend ltac:(lia)) as (w' & E & R & M).
    eexists. unfold loop_round_with, tc_body, bind. cbn [fst snd]. rewrite E. simpl. split; [reflexivity|].
    rewrite Hm. eexists _, _. split; [reflexivity|]. split; [exact R|done| |].
    + pose proof (packets_of_length (sh_pools (w_sh w)) end_ids). unfold lenZ in *. rewrite length_app. lia.
    + intros ys Hys. eapply buffered_data; [apply (rv_data _ _ _ _ R)|]. constructor; [done|].
      by apply carries_contents.
  - inversion Hen as [|ids1 ? ids2 ? Hx Hxs]; subst. inversion Hgo as [|? ? Hg Hgs]; subst.
    rewrite <-app_assoc in Hnd. rewrite <-(app_assoc ids1), <-app_assoc in Hh.
    pose proof (carries_length _ _ _ Hx) as L1. pose proof (carries_length _ _ _ Hend) as L2.
    assert (lenZ ((ids1 ++ ids2) ++ end_ids) = lenZ ids1 + lenZ (ids2 ++ end_ids)) as L3.
    { unfold lenZ. rewrite !length_app. lia. }
    assert (lenZ end_ids ≤ lenZ (ids2 ++ end_ids)) as L4 by (unfold lenZ; rewrite length_app; lia).
    pose proof (tc_msg t stage ns src iter c w st ids1 x _ U Hc Hh Hx Hg ltac:(lia)) as Hout.
    simpl fold_opt. unfold tc_outcome in Hout.
    destruct (check_msg (e_strategy (w_env w)) (predictions_hold w) stage (p_mem (w_p w)) x) as [m1|].
    2:{ destruct Hout as (w' & p & E & Hrest). exists (Stop (Exited 0) w'). split; [|by exists w', p].
        cbn [length Nat.add rounds_lin]. unfold loop_round_with at 1, tc_body at 1, bind at 1. cbn [fst snd]. by rewrite E. }
    destruct Hout as (w1 & E1 & R1 & M1). set (ps := if kept t x then _ else _) in *.
    pose proof (received_agree _ _ _ _ _ R1 Hnd) as Hag.
    assert (lenZ ps ≤ lenZ ids1) as Lp.
    { unfold ps. destruct (kept t x); [by rewrite packets_of_length|]. unfold lenZ. simpl. lia. }
    assert (lenZ (tc_buf st ++ ps) = lenZ (tc_buf st) + lenZ ps) as Lb by (unfold lenZ; rewrite length_app; lia).
    destruct (IH w1 (with_buf st (tc_buf st ++ ps)) ids2 vs) as (r & Er & Hr).
    + by eapply received_unit_ok.
    + by apply (rv_queue _ _ _ _ R1).
    + eapply encodes_agree; [done|]. split; [|apply Hag]. intros o i Hi. apply Hag, elem_of_app. by left.
    + done.
    + eapply carries_agree; [done|]. split; [|apply Hag]. intros o i Hi. apply Hag, elem_of_app. by right.
    + by apply NoDup_app in Hnd as (_ & _ & ?).
    + simpl. lia.
    + done.
    + done.
    + exists r. split.
      { cbn [length Nat.add rounds_lin]. unfold loop_round_with at 1, tc_body at 1, bind at 1. cbn [fst snd].
        rewrite E1. cbn [with_buf tc_done tc_misspec]. rewrite Hd, Hm. exact Er. }
      rewrite M1, (rv_env _ _ _ _ R1) in Hr.
      rewrite (fold_opt_ext _ (check_msg (e_strategy (w_env w)) (predictions_hold w) stage)) in Hr
        by (intros m y; apply check_msg_ext; intros; by eapply predictions_received).
      destruct (fold_opt _ xs m1) as [m'|].
      * destruct Hr as (w' & buf' & -> & D). exists w', buf'. split; [done|].
        rewrite <-app_assoc. by eapply stage_done_cons.
      * by eapply rejected_received.
Qed.
