(* ===== verification/Validate.v ===== *)
(** One iteration of the try-commit unit: all stages are validated in order, then
    everything that has to be committed is sent to the commit unit. *)
From S2P Require Import Prelude Machine Strategy Pages SwQueue Packet State Communicate Malloc Separation Speculation Prediction Units Messages Commit TryCommit.
From stdpp Require Import strings.
#[local] Open Scope Z_scope.

(** ** All stages *)

(** The input of one stage, ended by an EOI packet. *)
Record stage_input (w : world) (c : chan) (b : inbox) : Prop := {
  si_box : inbox_ok w c b;
  si_eoi : carries (sh_pools (w_sh w)) (ib_end_ids b) (MEnd EOI) }.

(** The abstract validation of an iteration: the messages of the stages in
    order, against the memory of the unit. *)
Definition validate (g : strategy) (verdict : mem → bool) (box : Z → inbox) (stages : list Z) (m : mem) : option mem :=
  fold_opt (λ m i, fold_opt (check_msg g verdict i) (ib_msgs (box i)) m) stages m.

(** What is sent to the commit unit. *)
Definition validated (t : Z) (box : Z → inbox) (stages : list Z) : list msg :=
  stages ≫= λ i, List.filter (kept t) (ib_msgs (box i)) ++ [MEnd EOI].

Lemma stage_run t ns iter stage w buf term b :
  let c := ToTryCommit (wid_of_iter (e_strategy (w_env w)) iter stage) t in
  unit_ok w → stage_input w c b → NoDup (box_ids b) → lenZ buf + lenZ (box_ids b) ≤ PACKET_POOL_SIZE →
  match fold_opt (check_msg (e_strategy (w_env w)) (predictions_hold w) stage) (ib_msgs b) (p_mem (w_p w)) with
  | Some m' => ∃ w' buf', tc_stage t ns iter stage buf term w = Ok (TC buf' term true false) w' ∧
      stage_done w w' c (box_ids b) buf buf' (List.filter (kept t) (ib_msgs b) ++ [MEnd EOI]) m'
  | None => rejected w (tc_stage t ns iter stage buf term w)
  end.
Proof.
  intros c U [[B1 B2 B3 _] B4] Hnd Hlen.
  destruct (stage_rounds t ns iter stage (wid_of_iter (e_strategy (w_env w)) iter stage) c (ib_end_ids b) (ib_msgs b)
    ltac:(done) w (TC buf term false false) (ib_ids b) (ib_rest b) U B1 B2 B3 B4 Hnd Hlen eq_refl eq_refl) as (r & E & Hr).
  assert (tc_stage t ns iter stage buf term w = r) as ->; [|done].
  unfold tc_stage. unfold bind at 1, g_, gete, gets. eapply loop_with_enough; [exact E|].
  apply rounds_enough. apply chan_bound in B1. apply encodes_length in B2. apply carries_length in B4.
  unfold lenZ in *. rewrite !length_app in B1. lia.
Qed.

Record stages_done (t : Z) (src : Z → Z) (box : Z → inbox) (stages : list Z) (w w' : world)
    (buf buf' : list packet) (m' : mem) : Prop := {
  sg_proc : w_p w' = set_p_mem m' (w_p w);
  sg_env : w_env w' = w_env w;
  sg_rest : rest_of (w_sh w') = rest_of (w_sh w);
  sg_in i : i ∈ stages → chan_holds (w_sh w') (ToTryCommit (src i) t) (ib_rest (box i));
  sg_out d vs : (∀ i, i ∈ stages → d ≠ ToTryCommit (src i) t) → chan_holds (w_sh w) d vs → chan_holds (w_sh w') d vs;
  sg_len : lenZ buf' ≤ lenZ buf + lenZ (stages ≫= λ i, box_ids (box i));
  sg_buf ys : buffered (sh_pools (w_sh w)) buf ys → buffered (sh_pools (w_sh w')) buf' (ys ++ validated t box stages);
  sg_room o k : pool_room (sh_pools (w_sh w)) o k → pool_room (sh_pools (w_sh w')) o k }.

Lemma received_room w w' c ids o k : received w w' c ids →
  pool_room (sh_pools (w_sh w)) o k → pool_room (sh_pools (w_sh w')) o k.
Proof.
  intros R [Hok Hs Hf]. split; [by apply (rv_pools _ _ _ _ R)|done|]. intros e He.
  apply (rv_free _ _ _ _ R). rewrite (rv_next _ _ _ _ R). by apply Hf.
Qed.

Lemma stages_done_cons t src box s stages w w1 w' buf buf1 buf' m1 m' :
  (∀ i, i ∈ stages → src i ≠ src s) → chan_holds (w_sh w) (ToTryCommit (src s) t) (box_ids (box s) ++ ib_rest (box s)) →
  stage_done w w1 (ToTryCommit (src s) t) (box_ids (box s)) buf buf1 (List.filter (kept t) (ib_msgs (box s)) ++ [MEnd EOI]) m1 →
  stages_done t src box stages w1 w' buf1 buf' m' → stages_done t src box (s :: stages) w w' buf buf' m'.
Proof.
  intros Hne Hh [R1 M1 L1 B1] [P2 E2 S2 I2 O2 L2 B2 K2]. split.
  - destruct (received_proc _ _ _ _ R1) as [m0 M0]. by rewrite P2, M0.
  - rewrite E2. apply R1.
  - rewrite S2. apply R1.
  - intros i [->|Hi]%elem_of_cons; [|by apply I2]. apply O2; [|by apply (rv_queue _ _ _ _ R1)].
    intros j Hj. specialize (Hne j Hj). congruence.
  - intros d vs Hd H. apply O2; [intros i Hi; apply Hd, elem_of_cons; by right|].
    apply (rv_other _ _ _ _ R1); [apply Hd, elem_of_cons; by left|done].
  - cbn [mbind list_bind]. unfold lenZ in *. rewrite length_app. lia.
  - intros ys Hys. unfold validated. cbn [mbind list_bind]. rewrite app_assoc. by apply B2, B1.
  - intros o k Hr. apply K2. by eapply received_room.
Qed.

Lemma stages_run t ns iter src box stages : ∀ w buf term,
  unit_ok w → (∀ i, src i = wid_of_iter (e_strategy (w_env w)) iter i) →
  (∀ i, i ∈ stages → stage_input w (ToTryCommit (src i) t) (box i)) →
  (∀ i j, i ∈ stages → j ∈ stages → src i = src j → i = j) → NoDup stages →
  NoDup (stages ≫= λ i, box_ids (box i)) → lenZ buf + lenZ (stages ≫= λ i, box_ids (box i)) ≤ PACKET_POOL_SIZE →
  match validate (e_strategy (w_env w)) (predictions_hold w) box stages (p_mem (w_p w)) with
  | Some m' => ∃ w' buf', tc_stages t ns iter stages buf term w = Ok (Some (buf', term)) w' ∧
      stages_done t src box stages w w' buf buf' m'
  | None => rejected w (tc_stages t ns iter stages buf term w)
  end.
Proof.
  induction stages as [|s stages IH]; intros w buf term U Hsrc Hbox Hinj Hnds Hnd Hlen.
  { simpl. exists w, buf. split; [done|]. split; try done; [by rewrite set_p_mem_id|by intros i ?%elem_of_nil|
      unfold lenZ; simpl; lia|]. intros ys. unfold validated. simpl. by rewrite app_nil_r. }
  apply NoDup_cons in Hnds as [Hs Hnds]. cbn [mbind list_bind] in Hnd, Hlen.
  assert (lenZ (box_ids (box s) ++ (stages ≫= λ i, box_ids (box i))) =
    lenZ (box_ids (box s)) + lenZ (stages ≫= λ i, box_ids (box i))) as Hl by (unfold lenZ; rewrite length_app; lia).
  pose proof Hnd as (Hnd1 & _ & Hnd2)%NoDup_app. assert (0 ≤ lenZ (stages ≫= λ i, box_ids (box i))) by (unfold lenZ; lia).
  pose proof (Hbox s ltac:(apply elem_of_cons; by left)) as Bs.
  pose proof (stage_run t ns iter s w buf term (box s)) as H1. rewrite <-Hsrc in H1. specialize (H1 U Bs Hnd1 ltac:(lia)).
  unfold validate. cbn [fold_opt]. destruct (fold_opt _ (ib_msgs (box s)) _) as [m1|].
  2:{ cbn [tc_stages]. by apply rejected_bind. }
  destruct H1 as (w1 & buf1 & E1 & D1). pose proof (sd_recv _ _ _ _ _ _ _ _ D1) as R1.
  pose proof (sd_len _ _ _ _ _ _ _ _ D1) as L1. pose proof (sd_mem _ _ _ _ _ _ _ _ D1) as M1.
  pose proof (bo_holds _ _ _ (si_box _ _ _ Bs)) as Hh.
  assert (∀ i, i ∈ stages → src i ≠ src s) as Hne.
  { intros i Hi Heq. apply Hs. rewrite <-(Hinj i s); [done|apply elem_of_cons; by right|apply elem_of_cons; by left|done]. }
  cbn [tc_stages]. unfold bind. rewrite E1. cbn [tc_misspec tc_buf tc_terminated_iter].
  specialize (IH w1 buf1 term (received_unit_ok _ _ _ _ _ R1 Hh U)). rewrite (rv_env _ _ _ _ R1) in IH.
  specialize (IH Hsrc).
  assert (∀ m, validate (e_strategy (w_env w)) (predictions_hold w1) box stages m =
    validate (e_strategy (w_env w)) (predictions_hold w) box stages m) as Hv.
  { intros m. apply fold_opt_ext. intros m0 i. apply fold_opt_ext. intros m2 x. apply check_msg_ext. intros m3.
    by eapply predictions_received. }
  rewrite Hv, M1 in IH. fold (validate (e_strategy (w_env w)) (predictions_hold w) box stages m1).
  pose proof (received_agree _ _ _ _ _ R1 Hnd) as [Ha Hb].
  assert (∀ i, i ∈ stages → agree (box_ids (box i)) (sh_pools (w_sh w)) (sh_pools (w_sh w1))) as Hag.
  { intros i Hi. split; [|done]. intros o k Hk. apply Ha. apply list_elem_of_bind. eauto. }
  assert (∀ i, i ∈ stages → stage_input w1 (ToTryCommit (src i) t) (box i)) as Hbox1.
  { intros i Hi. destruct (Hbox i ltac:(apply elem_of_cons; by right)) as [C1 C2]. specialize (Hag i Hi). split.
    - eapply inbox_other; [exact R1|specialize (Hne i Hi); congruence|done|done].
    - destruct Hag as [A1 A2]. eapply carries_agree; [done|]. split; [|done]. intros o k Hk. apply A1, elem_of_app. by right. }
  specialize (IH Hbox1 ltac:(intros i j Hi Hj; apply Hinj; apply elem_of_cons; by right) Hnds Hnd2 ltac:(lia)).
  destruct (validate _ _ _ _ m1) as [m'|].
  - destruct IH as (w' & buf' & E' & D'). exists w', buf'. split; [done|]. by eapply stages_done_cons.
  - by eapply rejected_received.
Qed.

(** ** Forwarding *)

(** Pool entries [e, e + 1, ...] of worker [wid], counted from [next]. *)
Definition pool_ids (wid next : Z) (n : nat) : list vptr := (λ e, WPacket wid (nth_from next e)) <$> seqZ 0 (Z.of_nat n).

Lemma pool_ids_cons wid next n : in_pool next →
  pool_ids wid next (S n) = WPacket wid next :: pool_ids wid (nth_from next 1) n.
Proof.
  intros Hn. unfold pool_ids. rewrite (seqZ_cons 0) by lia. rewrite fmap_cons, nth_from_0 by done. f_equal.
  replace (Z.pred (Z.of_nat (S n))) with (Z.of_nat n) by lia.
  change (Z.succ 0) with (0 + 1). rewrite (Z.add_comm 0 1), <-(fmap_add_seqZ 1 0 (Z.of_nat n)), <-list_fmap_compose.
  apply list_fmap_ext. intros i x _. simpl. by rewrite nth_from_bump_e, (Z.add_comm x 1).
Qed.

Lemma pool_ids_NoDup wid next n : Z.of_nat n ≤ PACKET_POOL_SIZE → NoDup (pool_ids wid next n).
Proof.
  intros Hn. apply NoDup_fmap_2_strong; [|apply NoDup_seqZ]. intros x y Hx Hy [= E].
  apply elem_of_seqZ in Hx, Hy. destruct (decide (x = y)) as [|Hne]; [done|].
  by apply nth_from_neq in E; [|lia|lia|].
Qed.

(** The state after sending copies of the packets [buf] to [c]. *)
Record forwarded (w w' : world) (wid : Z) (c : chan) (buf : list packet) : Prop := {
  fw_in vs : chan_holds (w_sh w) c vs →
    chan_holds (w_sh w') c (vs ++ pool_ids wid (packet_next (sh_pools (w_sh w)) wid) (length buf));
  fw_out d vs : d ≠ c → chan_holds (w_sh w) d vs → chan_holds (w_sh w') d vs;
  fw_packets : hold_packets (sh_pools (w_sh w')) (pool_ids wid (packet_next (sh_pools (w_sh w)) wid) (length buf)) buf;
  fw_frame o j : (∀ e, 0 ≤ e < lenZ buf → (o, j) ≠ (wid, nth_from (packet_next (sh_pools (w_sh w)) wid) e)) →
    get_packet (sh_pools (w_sh w')) o j = get_packet (sh_pools (w_sh w)) o j;
  fw_data o i : ck_data (get_chunk (sh_pools (w_sh w')) o i) = ck_data (get_chunk (sh_pools (w_sh w)) o i);
  fw_rest : rest_of (w_sh w') = rest_of (w_sh w);
  fw_proc : w_p w' = w_p w;
  fw_env : w_env w' = w_env w }.

Lemma forward_all wid c buf : wid ≠ MAIN_PROCESS_WID → ∀ w vs,
  pool_room (sh_pools (w_sh w)) wid (lenZ buf) → chan_holds (w_sh w) c vs → lenZ vs + lenZ buf ≤ PAIRS →
  ∃ w', for_ buf (λ p, send wid (pk_ptr p) (pk_value p) (pk_size p) (pk_is_write p) (pk_type p) c) w = Ok tt w' ∧
    forwarded w w' wid c buf.
Proof.
  intros Hwid. induction buf as [|p buf IH]; intros w vs Hroom Hc Hlen.
  { exists w. split; [done|]. split; try done; [|constructor]. intros us H. unfold pool_ids. simpl. by rewrite app_nil_r. }
  assert (lenZ (p :: buf) = lenZ buf + 1) as L by (unfold lenZ; simpl; lia). rewrite L in *.
  assert (0 ≤ lenZ buf) by (unfold lenZ; lia).
  destruct (send_delivered w wid (pk_ptr p) (pk_value p) (pk_size p) (pk_is_write p) (pk_type p) c vs Hwid)
    as (w1 & E1 & D1); [eapply pool_room_le; [done|lia]|done|lia|].
  pose proof (delivered_room _ _ _ _ _ _ _ _ _ _ D1 Hroom ltac:(unfold lenZ; simpl; lia)) as Hroom1.
  change (lenZ [c]) with 1 in Hroom1. replace (lenZ buf + 1 - 1) with (lenZ buf) in Hroom1 by lia.
  destruct D1 as [Hi Ho Hf Hn _ [Hck _] _ Hr Hp He]. change (lenZ [c]) with 1 in *.
  destruct (Hi c vs ltac:(by apply list_elem_of_singleton) Hc) as (e & sg & He0 & H1 & H2).
  pose proof (po_packet _ (pr_ok _ _ _ Hroom) wid) as Hin. pose proof (pr_size _ _ _ Hroom) as Hsz.
  replace e with 0 in * by lia. rewrite nth_from_0 in H1, H2 by done.
  destruct (IH w1 _ Hroom1 H1) as (w' & E' & [F1 F2 F3 F4 F5 F6 F7 F8]); [rewrite lenZ_snoc; lia|].
  exists w'. cbn [for_]. unfold bind. rewrite E1. split; [exact E'|]. rewrite Hn in *.
  set (next := packet_next (sh_pools (w_sh w)) wid) in *.
  assert (∀ e, nth_from (nth_from next 1) e = nth_from next (e + 1)) as Hsh by (intros; by apply nth_from_bump_e).
  split; cbn [length]; rewrite ?pool_ids_cons by done.
  - intros us Hus. destruct (Hi c us ltac:(by apply list_elem_of_singleton) Hus) as (e1 & _ & He1 & Hu & _).
    replace e1 with 0 in * by lia. rewrite nth_from_0 in Hu by done. apply F1 in Hu. by rewrite <-app_assoc in Hu.
  - intros d us Hd Hus. apply F2; [done|]. apply Ho; [|done]. by rewrite list_elem_of_singleton.
  - constructor; [|done]. exists wid, next. split; [done|]. rewrite F4; [by rewrite H2|]. intros e1 He1 [= Eq].
    rewrite Hsh in Eq. rewrite <-(nth_from_0 next) in Eq at 1 by done. by apply nth_from_neq in Eq; [|lia|lia|lia].
  - rewrite L. intros o j Hne. rewrite F4, Hf; [done| |].
    + intros e1 He1. replace e1 with 0 by lia. apply Hne. lia.
    + intros e1 He1. rewrite Hsh. apply Hne. lia.
  - intros o i. rewrite F5. unfold get_chunk. by rewrite Hck.
  - congruence.
  - congruence.
  - congruence.
Qed.

(** ** The whole iteration *)

(** What the unit needs for an iteration: its own state, the input of every
    stage, and room for what it sends to the commit unit. *)
Record unit_input (w : world) (box : Z → inbox) (pending : list vptr) : Prop := {
  ui_unit : unit_ok w;
  ui_strategy : strategy_ok (e_strategy (w_env w)) (try_commit_begin (p_ctl (w_p w)));
  ui_stage i : 0 ≤ i < GET_NUM_STAGES (e_strategy (w_env w)) →
    stage_input w (ToTryCommit (wid_of_iter (e_strategy (w_env w)) (current_iteration (w_p w)) i)
                     (worker_id (w_p w) - try_commit_begin (p_ctl (w_p w)))) (box i);
  ui_NoDup : NoDup (seqZ 0 (GET_NUM_STAGES (e_strategy (w_env w))) ≫= λ i, box_ids (box i));
  ui_room : pool_room (sh_pools (w_sh w)) (worker_id (w_p w))
    (lenZ (seqZ 0 (GET_NUM_STAGES (e_strategy (w_env w))) ≫= λ i, box_ids (box i)));
  ui_pending : chan_holds (w_sh w) (ToCommit (worker_id (w_p w) - try_commit_begin (p_ctl (w_p w)))) pending;
  ui_fits : lenZ pending + lenZ (seqZ 0 (GET_NUM_STAGES (e_strategy (w_env w))) ≫= λ i, box_ids (box i)) ≤ PAIRS }.

(** The iteration was validated and sent to the commit unit. *)
Record accepted_iter (t : Z) (box : Z → inbox) (pending ids : list vptr) (m' : mem) (w w' : world) : Prop := {
  ac_sent : chan_holds (w_sh w') (ToCommit t) (pending ++ ids);
  ac_msgs : encodes (sh_pools (w_sh w')) ids (validated t box (seqZ 0 (GET_NUM_STAGES (e_strategy (w_env w)))));
  ac_NoDup : NoDup ids;
  ac_proc : w_p w' = set_current_iteration (i32 (current_iteration (w_p w) + 1)) (set_p_mem m' (w_p w));
  ac_rest : rest_of (w_sh w') = rest_of (w_sh w);
  ac_in i : 0 ≤ i < GET_NUM_STAGES (e_strategy (w_env w)) →
    chan_holds (w_sh w') (ToTryCommit (wid_of_iter (e_strategy (w_env w)) (current_iteration (w_p w)) i) t) (ib_rest (box i)) }.

Lemma wid_of_iter_inj g n iter i j : strategy_ok g n → 0 ≤ i < num_stages g → 0 ≤ j < num_stages g →
  wid_of_iter g iter i = wid_of_iter g iter j → i = j.
Proof.
  intros Hst Hi Hj E. destruct (wid_of_iter_stage g n iter i Hst Hi) as [_ <-].
  destruct (wid_of_iter_stage g n iter j Hst Hj) as [_ <-]. by rewrite E.
Qed.

Lemma unit_iteration w box pending : unit_input w box pending →
  let g := e_strategy (w_env w) in
  let t := worker_id (w_p w) - try_commit_begin (p_ctl (w_p w)) in
  match validate g (predictions_hold w) box (seqZ 0 (GET_NUM_STAGES g)) (p_mem (w_p w)) with
  | Some m' => ∃ w' ids, try_commit_iter w = Ok true w' ∧ accepted_iter t box pending ids m' w w'
  | None => rejected w (try_commit_iter w)
  end.
Proof.
  intros [U Hst Hin Hnd Hroom Hpend Hfit] g t.
  pose proof (uo_wid _ (uo_core _ U)) as Hwid. pose proof (uo_main _ (uo_core _ U)) as Hmain.
  assert (u32 t = t) as Ht.
  { unfold u32, t. apply wrap_small. change MAIN_PROCESS_WID with 4294967295 in Hmain. lia. }
  assert (PAIRS ≤ PACKET_POOL_SIZE) as Hps by done. assert (0 ≤ lenZ pending) as Hp0 by (unfold lenZ; lia).
  pose proof (stages_run t (GET_NUM_STAGES g) (current_iteration (w_p w)) (wid_of_iter g (current_iteration (w_p w))) box
    (seqZ 0 (GET_NUM_STAGES g)) w [] (-1) U ltac:(done)) as H. fold g in Hin, Hnd, Hroom, Hfit, Hst.
  specialize (H ltac:(intros i Hi%elem_of_seqZ; by apply Hin)).
  specialize (H ltac:(intros i j Hi%elem_of_seqZ Hj%elem_of_seqZ; eapply wid_of_iter_inj; [done|done|done])).
  specialize (H ltac:(apply NoDup_seqZ) Hnd ltac:(change (lenZ []) with 0; lia)).
  assert (try_commit_iter w = (let! r := tc_stages (u32 t) (GET_NUM_STAGES g) (current_iteration (w_p w))
      (seqZ 0 (GET_NUM_STAGES g)) [] (-1) in
    match r with
    | None => ret false
    | Some (buf, terminated_iter) =>
        forward_values_to_commit (worker_id (w_p w)) buf ;;;
        if negb (terminated_iter =? -1) then ret false else advance_iter ;;; ret true
    end) w) as -> by reflexivity.
  rewrite Ht.
  destruct (validate _ _ _ _ _) as [m'|]; [|by apply rejected_bind].
  destruct H as (w1 & buf & E1 & [P1 V1 R1 I1 O1 L1 B1 K1]). unfold bind at 1. rewrite E1.
  change (lenZ []) with 0 in L1. specialize (B1 [] (bf_nil _)).
  assert (chan_holds (w_sh w1) (ToCommit t) pending) as Hp1 by (by apply O1).
  destruct (forward_all (worker_id (w_p w)) (ToCommit t) buf ltac:(lia) w1 pending) as (w2 & E2 & [F1 F2 F3 _ F5 F6 F7 F8]);
    [eapply pool_room_le; [by apply K1|lia]|done|lia|].
  assert (forward_values_to_commit (worker_id (w_p w)) buf w1 = Ok tt w2) as E3.
  { unfold forward_values_to_commit. unfold bind at 1, ctl, getp, gets. rewrite P1. cbn [set_p_mem p_ctl].
    rewrite (proj2 (Z.leb_le _ _)) by lia. exact E2. }
  unfold bind at 1. rewrite E3. cbn [Z.eqb negb Pos.eqb]. eexists _, _. split; [reflexivity|]. cbn [w_p w_sh set_p].
  pose proof (pool_ids_NoDup (worker_id (w_p w)) (packet_next (sh_pools (w_sh w1)) (worker_id (w_p w))) (length buf)
    ltac:(unfold lenZ in *; lia)) as Hnd2.
  split; cbn [w_p w_sh set_p].
  - by apply F1.
  - by eapply buffered_encodes.
  - done.
  - by rewrite F7, P1.
  - congruence.
  - intros i Hi. apply F2; [done|]. apply I1. apply elem_of_seqZ. fold g in Hi. lia.
Qed.

(** [C3] Validation of an iteration: the try-commit unit accepts the iteration
    exactly when the abstract check of the messages of all stages, in order,
    succeeds.  Then its memory is the checked one, everything that has to be
    committed is appended to its queue to the commit unit, in order and closed by
    one EOI per stage, the packets of later iterations stay queued and the unit
    goes on with the next iteration.  Otherwise the process ends, the iteration is
    recorded as misspeculated, and no packet of it reaches the commit unit. *)
Theorem try_commit_validates w box pending : unit_input w box pending →
  let g := e_strategy (w_env w) in
  let t := worker_id (w_p w) - try_commit_begin (p_ctl (w_p w)) in
  match validate g (predictions_hold w) box (seqZ 0 (GET_NUM_STAGES g)) (p_mem (w_p w)) with
  | Some m' => ∃ w' ids, try_commit_iter w = Ok true w' ∧ accepted_iter t box pending ids m' w w'
  | None => rejected w (try_commit_iter w)
  end.
Proof. apply unit_iteration. Qed.

(** ** From the workers to the main process *)

Lemma kept_committable t xs : all_go_on xs → Forall committable (List.filter (kept t) xs).
Proof.
  intros H. apply Forall_forall. intros x Hx. apply list_elem_of_In, filter_In in Hx as [Hx Hk].
  unfold all_go_on in H. rewrite Forall_forall in H. specialize (H x ltac:(by apply list_elem_of_In)).
  by destruct x.
Qed.

Lemma validated_committable t box stages : (∀ i, i ∈ stages → all_go_on (ib_msgs (box i))) →
  Forall committable (validated t box stages).
Proof.
  intros H. unfold validated. apply Forall_forall. intros x (i & Hx & Hi)%list_elem_of_bind.
  apply elem_of_app in Hx as [Hx|Hx].
  - pose proof (kept_committable t _ (H i Hi)) as Hc. rewrite Forall_forall in Hc. by apply Hc.
  - apply list_elem_of_singleton in Hx as ->. by left.
Qed.

Lemma apply_kept t xs : ∀ m, foldl apply_msg m (List.filter (kept t) xs) = foldl apply_msg m xs.
Proof.
  induction xs as [|x xs IH]; intros m; [done|]. cbn [List.filter foldl]. destruct (kept t x) eqn:E; [apply IH|].
  rewrite IH. by destruct x.
Qed.

Lemma apply_validated t box stages : ∀ m,
  foldl apply_msg m (validated t box stages) = foldl apply_msg m (stages ≫= λ i, ib_msgs (box i)).
Proof.
  unfold validated. induction stages as [|i stages IH]; intros m; [done|]. cbn [mbind list_bind].
  rewrite !foldl_app, apply_kept. apply IH.
Qed.

Lemma count_eoi_app xs ys : count_eoi (xs ++ ys) = count_eoi xs + count_eoi ys.
Proof. induction xs as [|x xs IH]; simpl; [lia|]. rewrite IH. lia. Qed.

Lemma count_eoi_none xs : all_go_on xs → count_eoi xs = 0.
Proof. induction 1 as [|x xs Hx _ IH]; simpl; [done|]. rewrite IH. by destruct x. Qed.

Lemma count_eoi_validated t box stages : (∀ i, i ∈ stages → all_go_on (ib_msgs (box i))) →
  count_eoi (validated t box stages) = lenZ stages.
Proof.
  unfold validated. induction stages as [|i stages IH]; intros H; [done|]. cbn [mbind list_bind].
  rewrite !count_eoi_app, IH, (count_eoi_none (List.filter _ _)).
  - unfold lenZ. simpl. lia.
  - apply Forall_forall. intros x Hx. apply list_elem_of_In, filter_In in Hx as [Hx _].
    specialize (H i ltac:(apply elem_of_cons; by left)). unfold all_go_on in H. rewrite Forall_forall in H.
    by apply H, list_elem_of_In.
  - intros j Hj. apply H, elem_of_cons. by right.
Qed.

Lemma progress_shared ns iter0 sent s s' p e st b : rest_of s' = rest_of s →
  progress ns iter0 sent (World s p e) st b → progress ns iter0 sent (World s' p e) st b.
Proof.
  intros Hr B. unfold rest_of in Hr. injection Hr as R1 R2 R3 R4. eapply barriers_same; [done| |].
  - split_and!; simpl; by rewrite ?R1, ?R2.
  - destruct (br_ready _ _ _ _ _ _ _ B) as [H1 H2]. unfold commit_ready, li_table_ok in *. simpl in *. by rewrite R2, R3.
Qed.

(** The commit unit on an accepted and on a rejected iteration. *)
Lemma accepted_commits w w' box ids m' pm em sent st b iter0 :
  let g := e_strategy (w_env w) in
  let ns := GET_NUM_STAGES g in
  0 < ns → progress ns iter0 sent (World (w_sh w) pm em) st b → b mod ns = 0 →
  (∀ i, i ∈ seqZ 0 ns → all_go_on (ib_msgs (box i))) → accepted_iter 0 box [] ids m' w w' →
  ∃ st' v', cm_unit ns 1 0 st (World (w_sh w') pm em) = Ok st' v' ∧
    p_mem (w_p v') = foldl apply_msg (p_mem pm) (seqZ 0 ns ≫= λ i, ib_msgs (box i)) ∧
    current_iteration (w_p v') = i32 (iter0 + b / ns + 1) ∧
    last_committed_iteration <$> the_pcb (w_sh v') = Some (i32 (iter0 + b / ns)).
Proof.
  intros g ns Hns HB Hb Hgo [A1 A2 A3 A4 A5 A6]. fold g ns in A2.
  destruct (commit_unit_run ns iter0 (World (w_sh w') pm em) st sent b ids _ Hns
    (progress_shared _ _ _ _ _ _ _ _ _ A5 HB) A1 A2 (validated_committable 0 box _ Hgo) A3)
    as (st' & v' & sent' & E & M & _ & B).
  exists st', v'. split; [exact E|]. split; [rewrite M; apply apply_validated|].
  rewrite count_eoi_validated in B by done. unfold lenZ in B. rewrite length_seqZ, Z2Nat.id in B by lia.
  assert ((b + ns) / ns = b / ns + 1) as Hd.
  { replace (b + ns) with (b + 1 * ns) by lia. by rewrite Z.div_add by lia. }
  pose proof (br_pos _ _ _ _ _ _ _ HB). pose proof (br_iter _ _ _ _ _ _ _ B) as B1.
  pose proof (br_last _ _ _ _ _ _ _ B ltac:(lia)) as B2. rewrite Hd in B1, B2.
  split; [by rewrite B1, Z.add_assoc|]. rewrite B2. do 2 f_equal. lia.
Qed.

Lemma empty_commits ns iter0 sent s s' pm em st b : progress ns iter0 sent (World s pm em) st b →
  chan_holds s' (ToCommit 0) [] → cm_unit ns 1 0 st (World s' pm em) = Ok st (World s' pm em).
Proof.
  intros HB Hq. unfold cm_unit. destruct (progress_not_waiting _ _ _ _ _ _ HB) as [-> _].
  apply (loop_with_enough _ 1); [|apply (rounds_enough 1); by vm_compute].
  cbn [rounds_lin]. unfold loop_round_with, bind. cbn [fst snd]. by rewrite (is_empty_spec _ (World s' pm em) [] Hq).
Qed.

(** [C7] From the workers to the memory of the main process, with one try-commit
    unit: when the unit accepts an iteration and the commit unit then serves its
    queue, the memory of the main process is the result of applying all stores of
    all stages of the iteration, in stage order, and exactly one more iteration is
    committed.  When the unit rejects it, serving the queue changes neither the
    memory nor the counters. *)
Theorem iteration_commits w box pm em sent st b iter0 :
  unit_input w box [] → worker_id (w_p w) = try_commit_begin (p_ctl (w_p w)) →
  let g := e_strategy (w_env w) in
  let ns := GET_NUM_STAGES g in
  0 < ns → progress ns iter0 sent (World (w_sh w) pm em) st b → b mod ns = 0 →
  match try_commit_iter w with
  | Ok _ w' =>
      is_Some (validate g (predictions_hold w) box (seqZ 0 ns) (p_mem (w_p w))) ∧
      ∃ st' v', cm_unit ns 1 0 st (World (w_sh w') pm em) = Ok st' v' ∧
        p_mem (w_p v') = foldl apply_msg (p_mem pm) (seqZ 0 ns ≫= λ i, ib_msgs (box i)) ∧
        current_iteration (w_p v') = i32 (iter0 + b / ns + 1) ∧
        last_committed_iteration <$> the_pcb (w_sh v') = Some (i32 (iter0 + b / ns))
  | Stop why w' =>
      validate g (predictions_hold w) box (seqZ 0 ns) (p_mem (w_p w)) = None ∧ why = Exited 0 ∧
      cm_unit ns 1 0 st (World (w_sh w') pm em) = Ok st (World (w_sh w') pm em)
  end.
Proof.
  intros UI Hwid g ns Hns HB Hb. pose proof (unit_iteration w box [] UI) as H. simpl in H. fold g ns in H.
  rewrite Hwid, Z.sub_diag in H. destruct (validate _ _ _ _ _) as [m'|].
  - destruct H as (w' & ids & -> & A). split; [by eexists|]. eapply accepted_commits; [done|done|done| |exact A].
    intros i Hi%elem_of_seqZ. apply (ui_stage _ _ _ UI i). exact Hi.
  - destruct H as (w' & p & -> & _ & _ & Hq). split; [done|]. split; [done|].
    pose proof (ui_pending _ _ _ UI) as Hp. rewrite Hwid, Z.sub_diag in Hp.
    eapply empty_commits; [exact HB|by apply Hq].
Qed.

(** ** A concrete input

    One sequential stage (worker 0), the try-commit unit is process 1; worker 0
    wrote one word in iteration 0. *)
Definition one_stage : strategy := default (e_strategy demo_env) (inform_strategy 1 [1]).
Definition one_stage_world : world :=
  with_word 0 (ToTryCommit 0 0)
    (World (set_good_to_go (Some 1) (set_the_pcb (Some pcb0) (set_commit_queues {[0 := sw_queue_create]}
             (set_sh_pools (init_packets 2) shared0))))
      (set_p_ctl (Control 3 1 0 2 1 0 0) (set_worker_id 1 proc0)) (Env one_stage 0x500000 0x600000 (λ _, true) (λ _, true))).
Definition one_stage_box (i : Z) : inbox := Inbox [WPacket 0 0; WPacket 0 1] [word_msg] [WPacket 0 2] [].

Lemma one_stage_ok : strategy_ok one_stage 1.
Proof.
  apply (inform_strategy_ok 1 [1]); [|by vm_compute]. repeat (apply List.Forall_cons || apply List.Forall_nil); lia.
Qed.

Lemma one_stage_queues : queues_ok (w_sh one_stage_world).
Proof.
  intros c q E. unfold one_stage_world, with_word in E. cbn [w_sh set_sh] in E.
  rewrite chan_get_set, chan_get_pools in E. destruct (decide _) as [_|_].
  - injection E as <-. eexists. by apply queue_of_holds.
  - exists []. revert q E. destruct c; simpl; intros q E; try done.
    apply lookup_singleton_Some in E as [_ <-]. apply create_holds.
Qed.

Lemma one_stage_room k : k ≤ PACKET_POOL_SIZE → pool_room (sh_pools (w_sh one_stage_world)) 1 k.
Proof.
  intros Hk. assert (sh_pools (w_sh one_stage_world) = word_pools 0 (init_packets 2)) as -> by done.
  destruct (init_packets_ok 2) as [H1 H2 H3].
  split; [by split|done|]. intros e _. unfold word_pools. rewrite !get_put_packet.
  repeat (rewrite decide_False by congruence). unfold get_packet. simpl. by rewrite lookup_empty.
Qed.

Lemma one_stage_input : unit_input one_stage_world one_stage_box [].
Proof.
  assert (stage_input one_stage_world (ToTryCommit 0 0) (one_stage_box 0)) as Hin
    by (split; apply with_word_ok).
  assert (GET_NUM_STAGES one_stage = 1) as Hns by done.
  split; try (change (GET_NUM_STAGES (e_strategy (w_env one_stage_world))) with 1).
  - split; [split|by eexists| | |].
    + by vm_compute.
    + by vm_compute.
    + apply one_stage_queues.
    + intros c Hc. change (c ∈ [ToTryCommit 0 0]) in Hc. apply list_elem_of_singleton in Hc as ->. by eexists.
    + intros i j Hi. change (0 ≤ i < 0) in Hi. lia.
    + intros i j Hi. change (0 ≤ i < 0) in Hi. lia.
    + intros i j e Hi. change (0 ≤ i < 0) in Hi. lia.
  - exact one_stage_ok.
  - intros i Hi. replace i with 0 by lia. exact Hin.
  - apply NoDup_ListNoDup. vm_compute. repeat constructor; simpl; intros H; repeat destruct H as [H|H]; done.
  - by apply one_stage_room.
  - exists sw_queue_create. split; [done|apply create_holds].
  - by vm_compute.
Qed.

Lemma try_commit_validates_witness :
  ∃ w', try_commit_iter one_stage_world = Ok true w' ∧ rd (p_mem (w_p w')) 0x7008 = 0x55.
Proof.
  pose proof (try_commit_validates one_stage_world one_stage_box [] one_stage_input) as H. cbv zeta in H.
  destruct (validate _ _ _ _ _) as [m'|] eqn:E; [|by vm_compute in E].
  destruct H as (w' & ids & Ew & A). exists w'. split; [exact Ew|]. rewrite (ac_proc _ _ _ _ _ _ _ A).
  cbn [p_mem set_current_iteration set_p_mem]. revert E. vm_compute. intros [= <-]. done.
Defined.

Lemma iteration_commits_witness :
  match try_commit_iter one_stage_world with
  | Ok _ w' => ∃ st' v', cm_unit 1 1 0 (CM ∅ ∅ 0) (World (w_sh w') proc0 demo_env) = Ok st' v' ∧
      last_committed_iteration <$> the_pcb (w_sh v') = Some 0
  | Stop _ _ => False
  end.
Proof.
  pose proof (iteration_commits one_stage_world one_stage_box proc0 demo_env (λ _, 0) (CM ∅ ∅ 0) 0 0
    one_stage_input eq_refl) as H.
  cbv zeta in H. change (GET_NUM_STAGES (e_strategy (w_env one_stage_world))) with 1 in H. specialize (H ltac:(lia)).
  assert (progress 1 0 (λ _, 0) (World (w_sh one_stage_world) proc0 demo_env) (CM ∅ ∅ 0) 0) as B.
  { apply barriers_start; [lia|lia|lia| |done|by eexists]. split; [|by eexists].
    intros i j Hi. change (0 ≤ i < 0) in Hi. lia. }
  specialize (H B eq_refl). destruct (try_commit_iter one_stage_world) as [r w'|why w'].
  - destruct H as (_ & st' & v' & E & _ & _ & Hl). exists st', v'. split; [exact E|exact Hl].
  - destruct H as [H _]. by vm_compute in H.
Defined.
