(* ===== verification/Text.v ===== *)
(** The functions of the C and C++ libraries on text that the runtime uses:
    [getline] on a string stream, [strtoul], [atoi], and [operator>>] to a
    [uint64_t].  A [std::string] is a list of characters. *)
From S2P Require Import Prelude Machine.
From Stdlib Require Import Ascii String.
From stdpp Require Import strings.
#[global] Open Scope Z_scope.

Definition str : Type := list ascii.

Definition code (c : ascii) : Z := Z.of_N (N_of_ascii c).
Definition chr (z : Z) : ascii := ascii_of_N (Z.to_N z).

Lemma code_chr z : 0 ≤ z < 256 → code (chr z) = z.
Proof. intros H. unfold code, chr. rewrite N_ascii_embedding by lia. lia. Qed.

(** [isspace] in the C locale. *)
Definition isspace (c : ascii) : bool := (code c =? 32) || ((9 <=? code c) && (code c <=? 13)).

Fixpoint skip_space (s : str) : str :=
  match s with c :: s' => if isspace c then skip_space s' else s | [] => [] end.

(** An optional sign: whether the number is negated, and the rest. *)
Definition sign (s : str) : bool * str :=
  match s with
  | c :: s' => if code c =? 45 then (true, s') else if code c =? 43 then (false, s') else (false, s)
  | [] => (false, s)
  end.

(** The value of a digit. *)
Definition digit (base : Z) (c : ascii) : option Z :=
  let d := if (48 <=? code c) && (code c <=? 57) then code c - 48
           else if (97 <=? code c) && (code c <=? 122) then code c - 87
           else if (65 <=? code c) && (code c <=? 90) then code c - 55
           else base in
  if d <? base then Some d else None.

(** The values of the longest prefix of digits. *)
Fixpoint digits (base : Z) (s : str) : list Z :=
  match s with
  | c :: s' => match digit base c with Some d => d :: digits base s' | None => [] end
  | [] => []
  end.

Definition value_of (base : Z) (ds : list Z) : Z := foldl (λ n d, n * base + d) 0 ds.

(** [0x] before a hexadecimal digit. *)
Definition skip_0x (s : str) : str :=
  match s with
  | c0 :: x :: c :: s' =>
      if (code c0 =? 48) && ((code x =? 120) || (code x =? 88)) &&
         (match digit 16 c with Some _ => true | None => false end)
      then c :: s' else s
  | _ => s
  end.

Definition ULONG_MAX : Z := 2 ^ 64 - 1.

(** [strtoul(s, NULL, 16)]. *)
Definition strtoul16 (s : str) : Z :=
  let '(neg, s) := sign (skip_space s) in
  let v := value_of 16 (digits 16 (skip_0x s)) in
  if ULONG_MAX <? v then ULONG_MAX else if (neg : bool) then u64 (- v) else v.

(** [ss >> ret] for a [uint64_t], in the default decimal format; [None] when the
    stream fails. *)
Definition string_to_uint64 (s : str) : option Z :=
  let '(neg, s) := sign (skip_space s) in
  match digits 10 s with
  | [] => None
  | ds =>
      let v := value_of 10 ds in
      if ULONG_MAX <? v then None else Some (if (neg : bool) then u64 (- v) else v)
  end.

(** [atoi]: [(int) strtol(s, NULL, 10)]. *)
Definition atoi (s : str) : Z :=
  let '(neg, s) := sign (skip_space s) in
  let v := value_of 10 (digits 10 s) in
  i32 (if (neg : bool) then Z.max (- 2 ^ 63) (- v) else Z.min (2 ^ 63 - 1) v).

(** All fields between delimiters. *)
Fixpoint fields (delim : ascii) (s : str) : list str :=
  match s with
  | [] => [[]]
  | c :: s' =>
      if decide (c = delim) then [] :: fields delim s'
      else match fields delim s' with f :: fs => (c :: f) :: fs | [] => [[c]] end
  end.

(** [while (getline(ss, item, delim)) if (!item.empty()) tokens.push_back(item)]:
    a last empty field, which [getline] does not return, is dropped anyway. *)
Definition split (s : str) (delim : ascii) : list str :=
  List.filter (λ f, match f with [] => false | _ => true end) (fields delim s).

(** ** Splitting what was joined *)

Lemma fields_plain delim f : delim ∉ f → fields delim f = [f].
Proof.
  induction f as [|c f IH]; intros H; [done|]. apply not_elem_of_cons in H as [H1 H2]. simpl.
  rewrite decide_False by congruence. by rewrite IH.
Qed.

Lemma fields_app delim f s : delim ∉ f → fields delim (f ++ delim :: s) = f :: fields delim s.
Proof.
  induction f as [|c f IH]; intros H; simpl; [by rewrite decide_True|].
  apply not_elem_of_cons in H as [H1 H2]. rewrite decide_False by congruence. by rewrite IH.
Qed.

Definition joined (delim : ascii) (fs : list str) : str :=
  match fs with [] => [] | f :: fs' => f ++ (fs' ≫= (λ g, delim :: g)) end.

Lemma fields_joined delim fs : fs ≠ [] → Forall (λ f, delim ∉ f) fs → fields delim (joined delim fs) = fs.
Proof.
  destruct fs as [|f fs]; [done|]. intros _ H. simpl. revert f H. induction fs as [|g fs IH]; intros f H.
  - inversion H; subst. simpl. rewrite app_nil_r. by apply fields_plain.
  - inversion H as [|? ? H1 H2]; subst. cbn [mbind list_bind]. rewrite <-app_comm_cons, fields_app by done.
    f_equal. by apply IH.
Qed.

Definition nonempty (f : str) : bool := match f with [] => false | _ => true end.

(** The non-empty fields come back. *)
Lemma split_joined delim fs : fs ≠ [] → Forall (λ f, delim ∉ f) fs → split (joined delim fs) delim = List.filter nonempty fs.
Proof. intros Hne H. unfold split. by rewrite fields_joined. Qed.

(** ** Numbers that were printed *)

Definition digit_char (d : Z) : ascii := chr (if d <? 10 then d + 48 else d + 87).

(** The digits of [n] in base [base], most significant first, as [%lx] and [%lu]
    print them; [fuel] bounds their number. *)
Fixpoint print_digits (base : Z) (fuel : nat) (n : Z) : list Z :=
  match fuel with
  | O => []
  | S fuel' => if n <? base then [n] else print_digits base fuel' (n / base) ++ [n mod base]
  end.
Definition print (base n : Z) : str := digit_char <$> print_digits base 64 n.

Lemma digit_digit_char base d : 2 ≤ base ≤ 16 → 0 ≤ d < base → digit base (digit_char d) = Some d.
Proof.
  intros Hb Hd. unfold digit, digit_char. destruct (Z.ltb_spec d 10).
  - rewrite code_chr by lia. rewrite (proj2 (Z.leb_le 48 _)), (proj2 (Z.leb_le _ 57)) by lia. simpl.
    rewrite (proj2 (Z.ltb_lt _ _)) by lia. f_equal. lia.
  - rewrite code_chr by lia. rewrite (proj2 (Z.leb_gt _ 57)) by lia. rewrite andb_false_r.
    rewrite (proj2 (Z.leb_le 97 _)), (proj2 (Z.leb_le _ 122)) by lia. simpl.
    rewrite (proj2 (Z.ltb_lt _ _)) by lia. f_equal. lia.
Qed.

Lemma digits_print base ds : 2 ≤ base ≤ 16 → Forall (λ d, 0 ≤ d < base) ds → digits base (digit_char <$> ds) = ds.
Proof.
  intros Hb. induction 1 as [|d ds Hd _ IH]; [done|]. rewrite fmap_cons. cbn [digits].
  rewrite digit_digit_char by done. by f_equal.
Qed.

Lemma print_digits_ok base fuel : 2 ≤ base → ∀ n, 0 ≤ n < base ^ Z.of_nat fuel →
  Forall (λ d, 0 ≤ d < base) (print_digits base fuel n) ∧ value_of base (print_digits base fuel n) = n.
Proof.
  intros Hb. induction fuel as [|fuel IH]; intros n Hn; [simpl in *; split; [constructor|unfold value_of; simpl; lia]|].
  rewrite Nat2Z.inj_succ, Z.pow_succ_r in Hn by lia. cbn [print_digits]. destruct (Z.ltb_spec n base).
  - split; [constructor; [lia|constructor]|]. unfold value_of. simpl. lia.
  - destruct (IH (n / base)) as [H1 H2].
    { split; [apply Z.div_pos; lia|]. apply Z.div_lt_upper_bound; lia. }
    split; [apply Forall_app; split; [done|]; constructor; [|constructor]; apply Z.mod_pos_bound; lia|].
    unfold value_of in *. rewrite foldl_app, H2. simpl. rewrite (Z.div_mod n base) at 3 by lia. lia.
Qed.

Lemma print_digits_nil base fuel n : (0 < fuel)%nat → print_digits base fuel n ≠ [].
Proof. destruct fuel; [lia|]. intros _. simpl. case_match; [done|]. by destruct (print_digits _ _ _). Qed.

Lemma print_nonempty base n : print base n ≠ [].
Proof.
  unfold print. pose proof (print_digits_nil base 64 n ltac:(lia)). by destruct (print_digits base 64 n).
Qed.

(** A printed number is made of the characters [0-9a-f]. *)
Lemma print_chars base n c : 2 ≤ base ≤ 16 → 0 ≤ n < base ^ 64 → c ∈ print base n →
  48 ≤ code c ≤ 57 ∨ 97 ≤ code c ≤ 102.
Proof.
  intros Hb Hn Hc. destruct (print_digits_ok base 64 ltac:(lia) n Hn) as [H _].
  unfold print in Hc. apply list_elem_of_fmap in Hc as (d & -> & Hd). rewrite Forall_forall in H. specialize (H d Hd).
  simpl in H. unfold digit_char. destruct (Z.ltb_spec d 10); rewrite code_chr by lia; lia.
Qed.

Lemma print_value base n : 2 ≤ base ≤ 16 → 0 ≤ n < base ^ 64 → value_of base (digits base (print base n)) = n.
Proof.
  intros Hb Hn. destruct (print_digits_ok base 64 ltac:(lia) n Hn) as [H1 H2].
  unfold print. by rewrite digits_print.
Qed.

(** Neither white space nor a sign nor [0x] is in front of it. *)
Lemma print_plain base n : 2 ≤ base ≤ 16 → 0 ≤ n < base ^ 64 →
  sign (skip_space (print base n)) = (false, print base n) ∧ skip_0x (print base n) = print base n.
Proof.
  intros Hb Hn. pose proof (print_chars base n) as Hc. destruct (print base n) as [|c s] eqn:E; [by apply print_nonempty in E|].
  assert (∀ x, x ∈ c :: s → 48 ≤ code x ≤ 57 ∨ 97 ≤ code x ≤ 102) as Hx by (intros x Hx; by apply Hc).
  pose proof (Hx c ltac:(apply elem_of_cons; by left)) as H0. split.
  - simpl. unfold isspace. rewrite (proj2 (Z.eqb_neq (code c) 32)), (proj2 (Z.leb_gt (code c) 13)) by lia.
    rewrite andb_false_r. simpl. by rewrite (proj2 (Z.eqb_neq (code c) 45)), (proj2 (Z.eqb_neq (code c) 43)) by lia.
  - destruct s as [|x [|d s]]; [done|done|]. simpl.
    pose proof (Hx x ltac:(apply elem_of_cons; right; apply elem_of_cons; by left)) as H1.
    rewrite (proj2 (Z.eqb_neq (code x) 120)), (proj2 (Z.eqb_neq (code x) 88)) by lia. by rewrite andb_false_r.
Qed.

Lemma pow_64_bound base n : 2 ≤ base → 0 ≤ n ≤ ULONG_MAX → 0 ≤ n < base ^ 64.
Proof.
  intros Hb Hn. unfold ULONG_MAX in Hn. pose proof (Z.pow_le_mono_l 2 base 64 ltac:(lia)). lia.
Qed.

Lemma strtoul16_print n : 0 ≤ n ≤ ULONG_MAX → strtoul16 (print 16 n) = n.
Proof.
  intros Hn. pose proof (pow_64_bound 16 n ltac:(lia) Hn) as Hb. unfold strtoul16.
  destruct (print_plain 16 n ltac:(lia) Hb) as [-> ->]. rewrite print_value by (done || lia).
  by rewrite (proj2 (Z.ltb_ge _ _)) by lia.
Qed.

Lemma string_to_uint64_print n : 0 ≤ n ≤ ULONG_MAX → string_to_uint64 (print 10 n) = Some n.
Proof.
  intros Hn. pose proof (pow_64_bound 10 n ltac:(lia) Hn) as Hb. unfold string_to_uint64.
  destruct (print_plain 10 n ltac:(lia) Hb) as [-> _]. pose proof (print_value 10 n ltac:(lia) Hb) as Hv.
  destruct (digits 10 (print 10 n)) as [|d ds] eqn:E.
  - exfalso. unfold print in E. destruct (print_digits_ok 10 64 ltac:(lia) n Hb) as [H1 _].
    rewrite digits_print in E by (done || lia). by apply print_digits_nil in E; [|lia].
  - rewrite Hv. by rewrite (proj2 (Z.ltb_ge _ _)) by lia.
Qed.

(** [atoi] reads printed [int] values. *)
Lemma atoi_print n : 0 ≤ n < 2 ^ 31 → atoi (print 10 n) = n.
Proof.
  intros Hn. pose proof (pow_64_bound 10 n ltac:(lia) ltac:(unfold ULONG_MAX; lia)) as Hb. unfold atoi.
  destruct (print_plain 10 n ltac:(lia) Hb) as [-> _]. rewrite print_value by (done || lia).
  rewrite Z.min_r by lia. unfold swrap. rewrite wrap_small; lia.
Qed.
