(* ===== verification/ProcMaps.v ===== *)
(** The memory map of the process ([include/internals/smtx/procmapsinfo.h]): the
    lines of [/proc/self/maps] as an ordered set of regions, and the questions
    that the initialisation of the runtime asks about it. *)
From S2P Require Import Prelude Machine Text.
From Stdlib Require Import Ascii String Sorted.
From stdpp Require Import strings.
#[local] Open Scope Z_scope.

Record Region := MkRegion {
  rg_begin : Z;
  rg_end : Z;
  rg_read : bool;
  rg_write : bool;
  rg_execute : bool;
  rg_shared : bool;
  rg_offset : Z;
  rg_dev : str;
  rg_inode : Z;
  rg_pathname : str }.

Definition space : ascii := chr 32.
Definition dash : ascii := chr 45.

(** [s[k] == c]; reading the character after the last one gives [NUL], reading
    beyond it is undefined. *)
Definition char_is (s : str) (k : nat) (c : Z) : option bool :=
  match s !! k with
  | Some d => Some (code d =? c)
  | None => if decide (k = length s) then Some (c =? 0) else None
  end.

(** The constructor [Region(line)]: a failed assertion, an access outside of a
    string or vector, or the region. *)
Definition parse_region (line : str) : stop + Region :=
  match Text.split line space with
  | t0 :: t1 :: t2 :: t3 :: t4 :: more =>
      match more with
      | _ :: _ :: _ => inl AssertFail
      | _ =>
          match Text.split t0 dash with
          | a0 :: a1 :: _ =>
              match char_is t1 0 114, char_is t1 1 119, char_is t1 2 120, char_is t1 3 115 with
              | Some r, Some w, Some x, Some s =>
                  match string_to_uint64 t2, string_to_uint64 t4 with
                  | Some offset, Some inode =>
                      inr (MkRegion (strtoul16 a0) (strtoul16 a1) r w x s offset t3 inode (default [] (head more)))
                  | _, _ => inl AssertFail
                  end
              | _, _, _, _ => inl Fault
              end
          | _ => inl Fault
          end
      end
  | _ => inl AssertFail
  end.

(** [std::set<Region, CompareRegion>::insert]: regions are equal when their
    [begin] is. *)
Fixpoint insert_region (r : Region) (l : list Region) : list Region :=
  match l with
  | [] => [r]
  | x :: l' =>
      if rg_begin r <? rg_begin x then r :: l
      else if rg_begin x <? rg_begin r then x :: insert_region r l' else l
  end.

(** The loop over the lines of the file. *)
Fixpoint read_regions (lines : list str) (regions : list Region) : stop + list Region :=
  match lines with
  | [] => inr regions
  | [] :: lines' => read_regions lines' regions
  | line :: lines' =>
      match parse_region line with
      | inl why => inl why
      | inr r => read_regions lines' (insert_region r regions)
      end
  end.

(** The constructor; [None] when the file cannot be opened. *)
Definition ProcMapsInfo (file : option (list str)) : stop + list Region :=
  match file with
  | Some lines => read_regions lines []
  | None => inl AssertFail
  end.

(** The loop of [isReadOnly] and [doesExist]: it stops at the first region that
    begins after the address. *)
Fixpoint find_region (regions : list Region) (addr : Z) : option Region :=
  match regions with
  | [] => None
  | i :: regions' =>
      if rg_begin i <=? addr
      then if addr <? rg_end i then Some i else find_region regions' addr
      else None
  end.

Definition isReadOnly (regions : list Region) (addr : Z) : bool :=
  match find_region regions addr with Some i => rg_read i && negb (rg_write i) | None => false end.
Definition doesExist (regions : list Region) (addr : Z) : bool :=
  match find_region regions addr with Some _ => true | None => false end.

Definition stack_name : str := list_ascii_of_string "[stack]".

Fixpoint getStackRegion (regions : list Region) : stop + (Z * Z) :=
  match regions with
  | [] => inl AssertFail
  | i :: regions' =>
      if decide (rg_pathname i = stack_name) then inr (rg_begin i, rg_end i) else getStackRegion regions'
  end.

(** ** The set of regions *)

Definition contains (r : Region) (addr : Z) : Prop := rg_begin r ≤ addr < rg_end r.
Definition sorted_regions (l : list Region) : Prop := StronglySorted (λ x y, rg_begin x < rg_begin y) l.

(** The kernel reports non-empty regions that do not overlap. *)
Definition kernel_map (rs : list Region) : Prop :=
  NoDup rs ∧ (∀ r, r ∈ rs → rg_begin r < rg_end r) ∧
  (∀ r1 r2 a, r1 ∈ rs → r2 ∈ rs → contains r1 a → contains r2 a → r1 = r2).

Lemma insert_region_elem r l x : x ∈ insert_region r l → x = r ∨ x ∈ l.
Proof.
  induction l as [|y l IH]; simpl; [intros ->%list_elem_of_singleton; by left|].
  destruct (Z.ltb_spec (rg_begin r) (rg_begin y)); [by intros [->|H']%elem_of_cons; [left|right]|].
  destruct (Z.ltb_spec (rg_begin y) (rg_begin r)); [|by right].
  intros [->|Hx]%elem_of_cons; [right; apply elem_of_cons; by left|].
  destruct (IH Hx) as [->|?]; [by left|right; apply elem_of_cons; by right].
Qed.

Lemma insert_region_old r l x : x ∈ l → x ∈ insert_region r l.
Proof.
  induction l as [|y l IH]; simpl; [by intros ?%elem_of_nil|]. intros Hx.
  destruct (_ <? _); [apply elem_of_cons; by right|]. destruct (_ <? _); [|done].
  apply elem_of_cons in Hx as [->|Hx]; apply elem_of_cons; [by left|right; auto].
Qed.

Lemma insert_region_new r l : (∀ x, x ∈ l → rg_begin x ≠ rg_begin r) → r ∈ insert_region r l.
Proof.
  induction l as [|y l IH]; simpl; intros H; [by apply list_elem_of_singleton|].
  destruct (Z.ltb_spec (rg_begin r) (rg_begin y)); [apply elem_of_cons; by left|].
  pose proof (H y ltac:(apply elem_of_cons; by left)). rewrite (proj2 (Z.ltb_lt _ _)) by lia.
  apply elem_of_cons. right. apply IH. intros x Hx. apply H, elem_of_cons. by right.
Qed.

Lemma insert_region_sorted r l : sorted_regions l → sorted_regions (insert_region r l).
Proof.
  unfold sorted_regions. induction 1 as [|y l Hl IH Hy]; simpl; [repeat constructor|].
  rewrite Forall_forall in Hy.
  destruct (Z.ltb_spec (rg_begin r) (rg_begin y)).
  - constructor; [constructor; [done|by apply Forall_forall]|]. apply Forall_forall.
    intros x [->|Hx]%elem_of_cons; [done|]. specialize (Hy x Hx). simpl in Hy. lia.
  - destruct (Z.ltb_spec (rg_begin y) (rg_begin r)); [|constructor; [done|by apply Forall_forall]].
    constructor; [done|]. apply Forall_forall. intros x Hx.
    destruct (insert_region_elem _ _ _ Hx) as [->|?]; [done|by apply Hy].
Qed.

(** Inserting all regions of a kernel map, one after the other. *)
Lemma insert_all_regions rs : ∀ l, sorted_regions l → kernel_map (l ++ rs) →
  let l' := foldl (λ l r, insert_region r l) l rs in
  sorted_regions l' ∧ ∀ x, x ∈ l' ↔ x ∈ l ++ rs.
Proof.
  induction rs as [|r rs IH]; intros l Hs Hk; simpl.
  { split; [done|]. intros x. by rewrite app_nil_r. }
  pose proof Hk as (Hnd & Hne & Hdis). pose proof Hnd as (N1 & N2 & N3)%NoDup_app.
  apply NoDup_cons in N3 as [N3 N4].
  assert (r ∈ l ++ r :: rs) as Hr by (apply elem_of_app; right; apply elem_of_cons; by left).
  assert (∀ x, x ∈ l → rg_begin x ≠ rg_begin r) as Hb.
  { intros x Hx E. assert (x = r) as ->.
    { apply (Hdis x r (rg_begin r)); [apply elem_of_app; by left|done| |]; unfold contains;
        [pose proof (Hne x ltac:(apply elem_of_app; by left))|pose proof (Hne r Hr)]; lia. }
    apply (N2 r Hx). apply elem_of_cons. by left. }
  pose proof (insert_region_sorted r l Hs) as Hs1.
  assert (∀ x, x ∈ insert_region r l ↔ x ∈ l ∨ x = r) as Hel.
  { intros x. split; [intros [->|?]%insert_region_elem; auto|].
    intros [?| ->]; [by apply insert_region_old|by apply insert_region_new]. }
  assert (∀ x, x ∈ insert_region r l ++ rs ↔ x ∈ l ++ r :: rs) as Happ.
  { intros x. rewrite !elem_of_app, Hel, elem_of_cons. tauto. }
  destruct (IH _ Hs1) as [H1 H2].
  - split; [|split].
    + apply NoDup_app. split; [|split; [|done]].
      * clear -Hs1. induction Hs1 as [|x l' H IH Hx]; constructor; [|done]. intros Hin.
        rewrite Forall_forall in Hx. specialize (Hx x Hin). simpl in Hx. lia.
      * intros x [Hx| ->]%Hel Hin; [|done]. apply (N2 x Hx). apply elem_of_cons. by right.
    + intros x Hx. by apply Hne, Happ.
    + intros x y a Hx Hy. apply Hdis; by apply Happ.
  - split; [done|]. intros x. by rewrite H2, Happ.
Qed.

Lemma read_regions_ok lines rs : ∀ l,
  Forall2 (λ line r, line ≠ [] ∧ parse_region line = inr r) lines rs →
  read_regions lines l = inr (foldl (λ l r, insert_region r l) l rs).
Proof.
  intros l H. revert l. induction H as [|line r lines rs [Hne Hp] _ IH]; intros l; [done|].
  destruct line; [done|]. cbn [read_regions foldl]. rewrite Hp. apply IH.
Qed.

Lemma find_region_sorted l addr : sorted_regions l →
  (∀ r1 r2 a, r1 ∈ l → r2 ∈ l → contains r1 a → contains r2 a → r1 = r2) →
  ∀ r, find_region l addr = Some r ↔ r ∈ l ∧ contains r addr.
Proof.
  intros Hs Hd. assert (∀ l', sorted_regions l' → (∀ x, x ∈ l' → x ∈ l) → ∀ r, find_region l' addr = Some r ↔ r ∈ l' ∧ contains r addr)
    as H; [|by apply H].
  intros l' Hs'. induction Hs' as [|x l' Hl IH Hx]; intros Hin r; simpl.
  { split; [done|]. by intros [?%elem_of_nil _]. }
  rewrite Forall_forall in Hx. rewrite elem_of_cons. unfold contains in *.
  destruct (Z.leb_spec (rg_begin x) addr).
  - destruct (Z.ltb_spec addr (rg_end x)).
    + split; [intros [= <-]; auto|]. intros [[->|Hr] Hc]; [done|]. f_equal.
      apply (Hd x r addr); [apply Hin, elem_of_cons; by left|apply Hin, elem_of_cons; by right|lia|lia].
    + rewrite IH by (intros y Hy; apply Hin, elem_of_cons; by right).
      split; [by intros [? ?]; auto|]. intros [[->|Hr] Hc]; [lia|done].
  - split; [done|]. intros [[->|Hr] Hc]; [lia|]. specialize (Hx r Hr). simpl in Hx. lia.
Qed.

(** The lookups in the memory map: when every line of the file is a region and
    the regions are non-empty and do not overlap, the map is read without error,
    and, although the search stops at the first region that begins after the
    address, an address exists exactly when some region contains it, and it is
    read-only exactly when that region can be read and not written. *)
Theorem procmaps_lookup lines rs :
  Forall2 (λ line r, line ≠ [] ∧ parse_region line = inr r) lines rs → kernel_map rs →
  ∃ regions, ProcMapsInfo (Some lines) = inr regions ∧ ∀ addr,
    (doesExist regions addr = true ↔ ∃ r, r ∈ rs ∧ contains r addr) ∧
    (isReadOnly regions addr = true ↔ ∃ r, r ∈ rs ∧ contains r addr ∧ rg_read r = true ∧ rg_write r = false).
Proof.
  intros Hp Hk. eexists. split; [simpl; by apply read_regions_ok|].
  destruct (insert_all_regions rs [] (SSorted_nil _) Hk) as [Hs Hel]. set (l := foldl _ _ _) in *. simpl in Hel.
  destruct Hk as (_ & _ & Hd). intros addr.
  assert (∀ r, find_region l addr = Some r ↔ r ∈ rs ∧ contains r addr) as Hf.
  { intros r. rewrite <-Hel. apply find_region_sorted; [done|]. intros r1 r2 a H1 H2. apply Hd; by apply Hel. }
  unfold doesExist, isReadOnly. destruct (find_region l addr) as [r|] eqn:E.
  - destruct (proj1 (Hf r) eq_refl) as [H1 H2]. split; [split; eauto|]. rewrite andb_true_iff, negb_true_iff. split.
    + intros [? ?]. eauto.
    + intros (r' & H1' & H2' & ? & ?). by rewrite (Hd r r' addr).
  - assert (∀ r, r ∈ rs → ¬ contains r addr) as Hno by (intros r H1 H2; by discriminate (proj2 (Hf r) (conj H1 H2))).
    split; (split; [done|]); [intros (r & H1 & H2)|intros (r & H1 & H2 & _)]; by destruct (Hno r).
Qed.

(** ** Lines of the file *)

Definition flag_char (b : bool) (c : Z) : ascii := chr (if b then c else 45).
Definition perms (r : Region) : str :=
  [flag_char (rg_read r) 114; flag_char (rg_write r) 119; flag_char (rg_execute r) 120;
   chr (if rg_shared r then 115 else 112)].

(** [%08lx]. *)
Definition pad8 (s : str) : str := replicate (8 - length s) (chr 48) ++ s.

(** The format of proc(5): [begin-end perms offset dev inode], then [pad] spaces and
    the path, if there is one.  [offset] is the offset of the mapping. *)
Definition maps_line (r : Region) (offset : Z) (pad : nat) : str :=
  joined space ([print 16 (rg_begin r) ++ dash :: print 16 (rg_end r); perms r; pad8 (print 16 offset);
                 rg_dev r; print 10 (rg_inode r)] ++ replicate pad [] ++ [rg_pathname r]).

Record printable (r : Region) : Prop := {
  pt_begin : 0 ≤ rg_begin r ≤ ULONG_MAX;
  pt_end : 0 ≤ rg_end r ≤ ULONG_MAX;
  pt_inode : 0 ≤ rg_inode r ≤ ULONG_MAX;
  pt_dev : (space ∉ rg_dev r) ∧ rg_dev r ≠ [] }.

Definition with_offset (r : Region) (offset : Z) (path : str) : Region :=
  MkRegion (rg_begin r) (rg_end r) (rg_read r) (rg_write r) (rg_execute r) (rg_shared r) offset (rg_dev r)
    (rg_inode r) path.

Lemma print_no_char base n c : 2 ≤ base ≤ 16 → 0 ≤ n ≤ ULONG_MAX → code c < 48 → c ∉ print base n.
Proof.
  intros Hb Hn Hc H. apply print_chars in H; [lia|done|]. apply pow_64_bound; [lia|done].
Qed.

Lemma pad8_no_space n : 0 ≤ n ≤ ULONG_MAX → (space ∉ pad8 (print 16 n)) ∧ pad8 (print 16 n) ≠ [].
Proof.
  intros Hn. unfold pad8. split.
  - rewrite elem_of_app. intros [H|H]; [|by apply print_no_char in H; [|lia|done|done]].
    apply elem_of_replicate in H as [H _]. done.
  - intros [_ H]%app_eq_nil. by apply print_nonempty in H.
Qed.

Lemma char_is_flag b c k s : 0 ≤ c < 256 → c ≠ 45 → s !! k = Some (flag_char b c) → char_is s k c = Some b.
Proof.
  intros Hc Hne Hk. unfold char_is, flag_char in *. rewrite Hk. destruct b; rewrite code_chr by lia; f_equal;
    [by apply Z.eqb_eq|by apply Z.eqb_neq].
Qed.

Lemma perms_no_space r : space ∉ perms r.
Proof.
  unfold perms, flag_char. rewrite !elem_of_cons, elem_of_nil.
  destruct (rg_read r), (rg_write r), (rg_execute r), (rg_shared r); intros H; repeat destruct H as [H|H]; done.
Qed.

Lemma addresses_split r : printable r →
  let t := print 16 (rg_begin r) ++ dash :: print 16 (rg_end r) in
  Text.split t dash = [print 16 (rg_begin r); print 16 (rg_end r)] ∧ (space ∉ t) ∧ t ≠ [].
Proof.
  intros [Hb He _ _] t. split_and!.
  - assert (t = joined dash [print 16 (rg_begin r); print 16 (rg_end r)]) as ->.
    { unfold t, joined. cbn [mbind list_bind]. by rewrite app_nil_r. }
    rewrite split_joined; [|done|repeat constructor; by apply print_no_char].
    simpl. pose proof (print_nonempty 16 (rg_begin r)). pose proof (print_nonempty 16 (rg_end r)).
    by destruct (print 16 (rg_begin r)), (print 16 (rg_end r)).
  - unfold t. rewrite elem_of_app, elem_of_cons. intros [H|[H|H]]; [|done|];
      by apply print_no_char in H; [|lia|done|done].
  - unfold t. by destruct (print 16 (rg_begin r)).
Qed.

(** A last field that may contain blanks. *)
Lemma fields_last delim fs p : Forall (λ f, delim ∉ f) fs → fields delim (joined delim (fs ++ [p])) = fs ++ fields delim p.
Proof.
  destruct fs as [|f fs]; [intros _; simpl; by rewrite app_nil_r|]. revert f. induction fs as [|g fs IH]; intros f [Hf H]%Forall_cons.
  - simpl. rewrite app_nil_r. by apply fields_app.
  - cbn [app joined mbind list_bind]. rewrite fields_app by done. f_equal. by apply IH.
Qed.

Lemma split_fields s delim : Text.split s delim = List.filter nonempty (fields delim s).
Proof. done. Qed.

Lemma filter_padding pad : List.filter nonempty (replicate pad []) = [].
Proof. by induction pad. Qed.

Lemma maps_line_tokens r offset pad : printable r → 0 ≤ offset ≤ ULONG_MAX →
  Text.split (maps_line r offset pad) space =
    [print 16 (rg_begin r) ++ dash :: print 16 (rg_end r); perms r; pad8 (print 16 offset); rg_dev r;
     print 10 (rg_inode r)] ++ Text.split (rg_pathname r) space.
Proof.
  intros Hr Ho. destruct (addresses_split r Hr) as (_ & T1 & T2). destruct (pad8_no_space offset Ho) as [O1 O2].
  destruct Hr as [_ _ Hi [D1 D2]]. unfold maps_line. rewrite !split_fields, (app_assoc _ (replicate pad [])), fields_last.
  - rewrite !List.filter_app, filter_padding, app_nil_r. f_equal. cbn [List.filter].
    assert (∀ f, f ≠ [] → nonempty f = true) as Hn by (by intros []).
    rewrite !Hn; [done|apply print_nonempty|done|done|done|done].
  - apply Forall_app. split.
    + repeat constructor; [done|apply perms_no_space|done|done|by apply print_no_char].
    + apply Forall_forall. intros f [-> _]%elem_of_replicate. apply not_elem_of_nil.
Qed.

(** [C40] Reading a line of the memory map in the format of the kernel.  If the path
    has no blanks, or is missing, the region comes back with its addresses,
    permissions, device, inode and path, whatever the padding; only the offset, which
    is written in hexadecimal, is read as a decimal number: it comes back as its
    leading decimal digits.  In general blanks around the path are dropped, and
    reading fails an assertion exactly when the path has two words or more or the
    offset has no leading decimal number that fits. *)
Theorem parse_printed_region r offset pad : printable r → 0 ≤ offset ≤ ULONG_MAX →
  let decimal := string_to_uint64 (pad8 (print 16 offset)) in
  (space ∉ rg_pathname r → parse_region (maps_line r offset pad) =
     match decimal with Some d => inr (with_offset r d (rg_pathname r)) | None => inl AssertFail end) ∧
  parse_region (maps_line r offset pad) =
    match Text.split (rg_pathname r) space, decimal with
    | [], Some d => inr (with_offset r d [])
    | [path], Some d => inr (with_offset r d path)
    | _, _ => inl AssertFail
    end.
Proof.
  intros Hr Ho decimal.
  assert (parse_region (maps_line r offset pad) = match Text.split (rg_pathname r) space, decimal with
    | [], Some d => inr (with_offset r d []) | [path], Some d => inr (with_offset r d path) | _, _ => inl AssertFail end) as E.
  { unfold parse_region. rewrite maps_line_tokens by done.
    destruct (addresses_split r Hr) as [Ha _]. destruct Hr as [Hb He Hi _].
    assert (char_is (perms r) 0 114 = Some (rg_read r)) as P0 by (by apply char_is_flag).
    assert (char_is (perms r) 1 119 = Some (rg_write r)) as P1 by (by apply char_is_flag).
    assert (char_is (perms r) 2 120 = Some (rg_execute r)) as P2 by (by apply char_is_flag).
    assert (char_is (perms r) 3 115 = Some (rg_shared r)) as P3 by (unfold char_is, perms; simpl; by destruct (rg_shared r)).
    destruct (Text.split (rg_pathname r) space) as [|p [|q ps]]; cbn [app];
      try (rewrite Ha, P0, P1, P2, P3, string_to_uint64_print, !strtoul16_print by done; fold decimal); by destruct decimal. }
  split; [|done]. intros Hp. rewrite E. unfold Text.split. rewrite fields_plain by done.
  destruct (rg_pathname r) as [|c p]; by destruct decimal.
Qed.

(** ** Concrete lines *)

Definition text_line : str := list_ascii_of_string "00400000-00452000 r-xp 00001000 08:02 173521      /usr/bin/dbus-daemon".
Definition stack_line : str := list_ascii_of_string "7ffc0000-7ffd0000 rw-p 00000000 00:00 0      [stack]".
Definition text_region : Region :=
  MkRegion 0x400000 0x452000 true false true false 1000 (list_ascii_of_string "08:02") 173521
    (list_ascii_of_string "/usr/bin/dbus-daemon").
Definition stack_region : Region :=
  MkRegion 0x7ffc0000 0x7ffd0000 true true false false 0 (list_ascii_of_string "00:00") 0 stack_name.

Lemma demo_kernel_map : kernel_map [stack_region; text_region].
Proof.
  split; [apply NoDup_ListNoDup; repeat constructor; simpl; intros H; repeat destruct H as [H|H]; done|].
  split; [intros r; rewrite !elem_of_cons, elem_of_nil; intros [->|[->|[]]]; done|].
  intros r1 r2 a. rewrite !elem_of_cons, !elem_of_nil. unfold contains, text_region, stack_region.
  intros [->|[->|[]]] [->|[->|[]]]; simpl; (done || lia).
Qed.

Lemma procmaps_lookup_witness : ∃ regions, ProcMapsInfo (Some [stack_line; text_line]) = inr regions ∧
  isReadOnly regions 0x401000 = true ∧ doesExist regions 0x500000 = false.
Proof.
  destruct (procmaps_lookup [stack_line; text_line] [stack_region; text_region]) as (regions & E & H).
  - repeat (apply List.Forall2_cons || apply List.Forall2_nil); (split; [by vm_compute|vm_compute; reflexivity]).
  - exact demo_kernel_map.
  - exists regions. split; [exact E|]. split.
    + apply (H 0x401000). exists text_region. split; [apply elem_of_cons; right; by apply list_elem_of_singleton|]. done.
    + apply not_true_is_false. intros (r & Hr & Hc)%(H 0x500000). unfold contains in Hc.
      rewrite !elem_of_cons, elem_of_nil in Hr. destruct Hr as [->|[->|[]]]; simpl in Hc; lia.
Defined.

Definition printed_region : Region :=
  MkRegion 0x400000 0x452000 true false true false 0x1000 (list_ascii_of_string "08:02") 173521
    (list_ascii_of_string "/usr/bin/dbus-daemon").

Lemma printed_region_printable : printable printed_region.
Proof. split; [by vm_compute|by vm_compute|by vm_compute|]. rewrite list_elem_of_In; simpl; intuition discriminate. Qed.

Lemma parse_printed_region_witness : parse_region (maps_line printed_region 0x1000 5) = inr text_region.
Proof.
  destruct (parse_printed_region printed_region 0x1000 5) as [_ E]; [exact printed_region_printable|done|].
  rewrite E. vm_compute. reflexivity.
Defined.

(** A mapping at an offset of 2.5 GB and one of a deleted file cannot be read. *)
Example large_offset :
  parse_region (maps_line text_region 0xa0000000 5) = inl AssertFail.
Proof. vm_compute. reflexivity. Qed.

Example deleted_file :
  parse_region (list_ascii_of_string "00400000-00452000 r-xp 00000000 08:02 173521 /tmp/a (deleted)") = inl AssertFail.
Proof. vm_compute. reflexivity. Qed.
