(* ===== verification/Control.v ===== *)
(** Processes and their life cycle: initialisation of the runtime
    ([smtx/smtx.cpp]), spawning and joining the worker processes
    ([control.cpp]).

    Scheduling calls ([sched_setaffinity], [sleep]) and the registration of signal
    handlers have no effect on the modelled state. *)
From S2P Require Import Prelude Machine Strategy Text ProcMaps SwQueue Packet State Communicate Malloc Separation Speculation Protection Prediction Units.
From stdpp Require Import strings.
#[local] Open Scope Z_scope.

(** The pages of [for (i = begin; i < bound; i += PAGE_SIZE)]. *)
Definition page_range (begin bound : Z) : list Z :=
  (λ k, begin + PAGE_SIZE * k) <$> seqZ 0 ((bound - begin + PAGE_SIZE - 1) / PAGE_SIZE).

(** [munmap(addr, len)]. *)
Definition munmap (addr len : Z) : W unit :=
  modp (λ p, set_p_prot (filter (λ '(a, _), ¬ (addr ≤ a < addr + len)) (p_prot p)) p).

(** ** [smtx/smtx.cpp] and the rest of [smtx/malloc.cpp] *)

(** A chunk and its metadata are unmapped. *)
Definition unmap_chunk (c : heap_chunk) : W unit :=
  let sz := u64 (hc_nextchunk c - hc_begin c) in
  munmap (hc_begin c) sz ;;;
  munmap (GET_SHADOW_OF (hc_begin c)) sz.

Definition ver_malloc_fini : W unit :=
  for_ (seqZ 0 MAX_WORKERS) (λ i,
    let! c := get_part (ver_part i) in unmap_chunk c) ;;;
  modp (set_ver_malloc_chunks ∅).

(** [separation_fini]; the freed sets and tables must not be used before the next
    [separation_init]. *)
Definition separation_fini (num_non_versioned_heaps num_versioned_heaps : Z) : W unit :=
  if (num_non_versioned_heaps =? 0) && (num_versioned_heaps =? 0) then ret tt else
  modsep (λ s, set_ver_stage_private_regions None (set_stage_private_regions None s)) ;;;
  modsep (λ s, set_ver_nrbw_regions None (set_nrbw_regions None (set_ver_ro_regions None
    (set_ro_regions None (set_ver_uc_regions None (set_uc_regions None s)))))) ;;;
  for_ (seqZ 0 num_non_versioned_heaps) (λ i, let! s := sep id in unmap_chunk (heap_at s i)) ;;;
  modsep (set_heaps ∅) ;;;
  when (negb (num_versioned_heaps =? 0))
    (for_ (seqZ 0 MAX_WORKERS) (λ i, for_ (seqZ 0 num_versioned_heaps) (λ j,
       let! s := sep id in unmap_chunk (ver_heap_at s i j))) ;;;
     modsep (set_versioned_heaps ∅)).

Definition lift {A} (r : stop + A) : W A := match r with inl why => halt why | inr a => ret a end.

(** The shadow of one page of globals. *)
Definition init_global (regions : list Region) (i : Z) : W unit :=
  if negb (doesExist regions i) then ret tt else
  let! ok := mmap_page (GET_SHADOW_OF i) in
  assert_ ok ;;;
  if isReadOnly regions i then ret tt
  else modp (λ p, set_shadow_globals (shadow_globals p ++ [GET_SHADOW_OF i]) p).

Definition init_stack_page (i : Z) : W unit :=
  let! ok := mmap_page (GET_SHADOW_OF i) in
  assert_ ok ;;;
  modp (λ p, set_shadow_stacks (shadow_stacks p ++ [GET_SHADOW_OF i]) p).

(** [__specpriv_init]; the addresses of the linker symbols [etext] and [end], and
    the contents of [/proc/self/maps]. *)
Definition init (etext end_ : Z) (maps : option (list str)) : W unit :=
  modp (λ p, set_heap_size_map ∅ (set_shadow_heaps [] (set_shadow_stacks [] (set_shadow_globals [] p)))) ;;;
  let! procmapsinfo := lift (ProcMapsInfo maps) in
  let heap_bound := ROUND_UP end_ PAGE_SIZE in
  let heap_begin := Z.land etext PAGE_MASK in
  for_ (page_range heap_begin heap_bound) (init_global procmapsinfo) ;;;
  let! stack_region := lift (getStackRegion procmapsinfo) in
  let stack_begin := Z.land stack_region.1 PAGE_MASK in
  let stack_bound := ROUND_UP stack_region.2 PAGE_SIZE in
  modp (set_stack_range (stack_begin, stack_bound)) ;;;
  for_ (page_range stack_begin stack_bound) init_stack_page ;;;
  ver_malloc_init.

(** [__specpriv_fini]. *)
Definition fini : W unit :=
  ver_malloc_fini ;;;
  let! globals := getp shadow_globals in
  for_ globals (λ shadow, munmap shadow PAGE_SIZE) ;;;
  modp (λ p, set_heap_size_map ∅ (set_shadow_stacks [] (set_shadow_heaps [] (set_shadow_globals [] p)))).

(** ** [control.cpp] *)

(** [fini_packets]: the pools of the workers are given up; the pool of the main
    process stays mapped. *)
Definition fini_packets (n_all_workers : Z) : W unit :=
  modpools (λ P, Pools (filter (λ '((o, _), _), ¬ (0 ≤ o < n_all_workers)) (pl_packets P)) ∅ (pl_commit_next P)
    (filter (λ '((o, _), _), ¬ (0 ≤ o < n_all_workers)) (pl_chunks P)) ∅).

(** [nprocessors] is the value of the environment variable. *)
Definition num_available_workers (nprocessors : option str) : W Z :=
  let! n := ctl num_available_workers_ in
  (if n =? -1 then
     match nprocessors with
     | Some s =>
         modctl (λ c, set_num_aux_workers 1 (set_num_procs (atoi s) c)) ;;;
         let! np := ctl num_procs in
         modctl (set_num_available_workers_ (if 0 <? i32 (np - 2) then i32 (np - 2) else 0))
     | None => modctl (set_num_available_workers_ 0)
     end
   else ret tt) ;;;
  ctl num_available_workers_.

Section processes.
(** What [fork] returns to this process when it is called for worker [wid]: zero
    in the new process. *)
Context (fork : Z → Z).

(** The loop over the workers: the new process initialises itself and leaves the
    loop, the old one goes on.  The process ids, which only [waitpid] uses, are
    not kept. *)
Fixpoint fork_workers (wids : list Z) (current_iter : Z) : W Z :=
  match wids with
  | [] => set_current_iter current_iter ;;; ret MAIN_PROCESS_WID
  | wid :: wids' =>
      if fork wid =? 0 then init_worker current_iter wid ;;; ret wid
      else fork_workers wids' current_iter
  end.

Definition spawn_workers (num_workers n_aux_workers current_iter : Z) : W Z :=
  modctl (set_num_active_workers num_workers) ;;;
  modctl (λ c, set_num_available_workers_ (i32 (num_available_workers_ c - num_workers)) c) ;;;
  set_try_commit_begin_ (u32 num_workers) ;;;
  let num_all_workers := u32 (num_workers + n_aux_workers) in
  fork_workers (seqZ 0 num_all_workers) current_iter.

(** [callback] is the function of the parallelised program that the workers run. *)
Definition spawn_workers_callback (nprocessors : option str) (current_iter : Z) (callback : W unit) : W Z :=
  let! me := my_worker_id in
  assert_ (me =? MAIN_PROCESS_WID) ;;;
  let! n := num_available_workers nprocessors in
  let num_workers := u32 n in
  let! n_aux := ctl num_aux_workers in
  init_queues num_workers (u32 n_aux) ;;;
  modsh (set_sh_pools (init_packets (u32 (num_workers + n_aux)))) ;;;
  let! g := getsh good_to_go in
  (match g with Some _ => modsh (set_good_to_go (Some 0)) | None => halt Fault end) ;;;
  let! id := spawn_workers (i32 num_workers) n_aux current_iter in
  if id =? MAIN_PROCESS_WID then ret id else
  (if id <? num_workers then callback
   else if id <? u32 (num_workers + n_aux) then try_commit
   else assert_ false) ;;;
  worker_finishes 0 ;;;
  assert_ false ;;;
  ret 0.
End processes.

Section join.
Context (others : Z → shared → shared) (exited : Z → Z → bool).

(** What [join_children] does after all workers have finished. *)
Definition join_cleanup : W Z :=
  reset_predictors ;;;
  let! active := ctl num_active_workers in
  let! n_aux := ctl num_aux_workers in
  fini_queues (u32 active) (u32 n_aux) ;;;
  fini_packets (u32 (active + n_aux)) ;;;
  reset_try_commit_begin ;;;
  modctl (λ c, set_num_available_workers_ (i32 (num_available_workers_ c + num_active_workers c)) c) ;;;
  modctl (set_num_active_workers 0) ;;;
  let! p := get_pcb in
  ret (if misspeculation_happened p =? 0 then exit_taken p else 0).

Definition join_children : W Z :=
  let! me := my_worker_id in
  assert_ (me =? MAIN_PROCESS_WID) ;;;
  let! active := ctl num_active_workers in
  let! n_aux := ctl num_aux_workers in
  commit others exited (u32 (u32 active + u32 n_aux)) ;;;
  join_cleanup.
End join.

(** ** [loopevent.cpp]: invocations *)

(** [frame] is the frame pointer of the caller. *)
Definition begin_invocation (nprocessors : option str) (frame : Z) : W Z :=
  modp (λ p, set_stack_range ((stack_range p).1, frame) p) ;;;
  reset_current_iter ;;;
  modpcb (λ p, set_last_committed_iteration (-1) (set_misspeculation_reason None
    (set_misspeculated_iteration (-1) (set_misspeculated_worker 0 (set_misspeculation_happened 0
      (set_exit_taken 0 p)))))) ;;;
  let! n := num_available_workers nprocessors in
  ret (u32 n).

Definition end_invocation : W Z :=
  let! p := get_pcb in
  destroy_pcb ;;;
  ret (exit_taken p).
