(* ===== verification/LoopEvent.v ===== *)
(** What a worker does at the begin and at the end of an iteration
    ([loopevent.cpp]): it merges the work of the earlier stages, and at the end
    sends every page it touched to the later stages and to the try-commit unit. *)
From S2P Require Import Prelude Machine Strategy Pages SwQueue Packet State Communicate Malloc Separation Speculation Protection Prediction Units Control.
From stdpp Require Import strings.
#[local] Open Scope Z_scope.

(** ** Begin of an iteration *)

Definition check_misspec : W unit :=
  let! pcb := get_pcb in
  let! iter := current_iter in
  if negb (misspeculation_happened pcb =? 0) then
    if misspeculated_iteration pcb <=? iter then halt (Exited 0) else ret tt
  else ret tt.

Section begin_iter.
(** What the other processes do to the shared state before round [r] of the
    waiting loop. *)
Context (others : Z → shared → shared).

(** [while (!( *good_to_go )) process_reverse_commit_queue(wid)], at most [2^31]
    rounds. *)
Definition wait_round (wid r : Z) : W (Z + Z) :=
  modsh (others r) ;;;
  let! g := getsh good_to_go in
  match g with
  | None => halt Fault
  | Some v => if v =? 0 then process_reverse_commit_queue wid ;;; ret (inl (r + 1)) else ret (inr r)
  end.
Definition wait_good_to_go (wid : Z) : W unit :=
  let! _ := loop_with 31 (wait_round wid) 0 in
  ret tt.

Definition begin_iter : W unit :=
  let! wid := my_worker_id in
  let! iter := current_iter in
  when (negb (iter =? 0)) (wait_good_to_go wid) ;;;
  process_incoming_packets wid iter ;;;
  check_misspec ;;;
  let! g := g_ in
  let stage := GET_MY_STAGE g wid in
  when (negb (iter =? 0) && (stage =? 0))
    (update_loop_invariants ;;;
     update_linear_predicted_values ;;;
     to_try_commit wid 0xDEADBEEF 0 NULL WRITE BOI ;;; ret tt) ;;;
  when (run_iteration g wid iter) (reset_protection wid).
End begin_iter.

(** ** End of an iteration *)

Definition RO_ENTRY_BUFFER_SIZE : Z := PAGE_SIZE / 8.

Definition forward_ro_page (wid iter : Z) : W unit :=
  let! index := getp ro_page_index in
  when (negb (index =? 0))
    (let! data := gete e_ro_page_buffer in
     forward_page wid iter data CHECK_RO_PAGE ;;;
     modmem (λ m, memset m data 0 PAGE_SIZE)).

Definition buffer_ro_page (wid iter page : Z) : W unit :=
  let! index := getp ro_page_index in
  when (index =? RO_ENTRY_BUFFER_SIZE)
    (forward_ro_page wid iter ;;;
     modp (set_ro_page_index 0)) ;;;
  let! data := gete e_ro_page_buffer in
  let! index := getp ro_page_index in
  modmem (λ m, store 8 m (data + 8 * index) page) ;;;
  modp (λ p, set_ro_page_index (u32 (ro_page_index p + 1)) p).

(** One word of a page with few marked words. *)
Definition forward_word (wid iter mem_ shadow check i : Z) : W unit :=
  let! m := getp p_mem in
  let sv := load 8 m (shadow + i) in
  when (negb (sv =? 0))
    (forward_packet wid iter (mem_ + i) (WInt (load 8 m (mem_ + i))) 8 check ;;;
     forward_packet wid iter 0 (WInt sv) 8 check ;;;
     ret tt).

Definition forward_pair (nonzero wid iter mem_ shadow check : Z) : W unit :=
  (if 8 <? nonzero then
     forward_page wid iter mem_ check ;;;
     forward_page wid iter shadow check ;;; ret tt
   else if negb (nonzero =? 0) then
     for_ (strided (PAGE_SIZE / 8) 8) (forward_word wid iter mem_ shadow check)
   else buffer_ro_page wid iter mem_) ;;;
  modmem (λ m, set_zero_page m shadow).

(** [unsigned nonzero = clear_read(shadow)] on the process memory. *)
Definition run_clear_read (shadow : Z) : W Z :=
  let! m := getp p_mem in
  modmem (λ _, (clear_read m shadow).2) ;;;
  ret (clear_read m shadow).1.

(** [if ( *shadow & 0x80 ) { *shadow = *shadow & 0x7f; ... }]. *)
Definition if_touched (shadow : Z) (k : W unit) : W unit :=
  let! m := getp p_mem in
  when (negb (Z.land (rd m shadow) 0x80 =? 0))
    (modmem (λ m, wr m shadow (Z.land (rd m shadow) 0x7f)) ;;; k).

(** The page loops of the separation heaps. *)
Definition check_nrbw_page (wid iter page : Z) : W unit :=
  let shadow := GET_SHADOW_OF page in
  if_touched shadow
    (let! nonzero := run_clear_read shadow in
     let! m := getp p_mem in
     if check_nrbw m shadow then forward_pair nonzero wid iter page shadow CHECK_FREE
     else misspec "nrbw check failed
").

Definition forward_region_page (wid iter check page : Z) : W unit :=
  let shadow := GET_SHADOW_OF page in
  if_touched shadow
    (let! nonzero := run_clear_read shadow in
     forward_pair nonzero wid iter page shadow check).

(** The loops over the pages of the heaps of a region, of one process and of all
    workers; a null region is skipped. *)
Definition for_region (region : option (list Z)) (body : Z → W unit) : W unit :=
  let! s := sep id in
  for_ (default [] region) (λ i, for_ (page_range (heap_begin s i) (heap_bound s i)) body).
Definition for_versioned_region (region : option (list Z)) (body : Z → W unit) : W unit :=
  let! s := sep id in
  for_ (default [] region) (λ i, for_ (seqZ 0 MAX_WORKERS) (λ j,
    for_ (page_range (versioned_heap_begin s j i) (versioned_heap_bound s j i)) body)).

Definition check_region_nrbw (region : option (list Z)) (wid iter : Z) : W unit :=
  for_region region (check_nrbw_page wid iter).
Definition check_versioned_region_nrbw (region : option (list Z)) (wid iter : Z) : W unit :=
  for_versioned_region region (check_nrbw_page wid iter).
Definition forward_region (region : option (list Z)) (wid iter check : Z) : W unit :=
  for_region region (forward_region_page wid iter check).
Definition forward_versioned_region (region : option (list Z)) (wid iter check : Z) : W unit :=
  for_versioned_region region (forward_region_page wid iter check).

(** The body of the three loops over the pages of globals, stacks and heaps. *)
Definition end_page (wid iter shadow : Z) : W unit :=
  if_touched shadow
    (let! m := getp p_mem in
     if is_zero_page m shadow then ret tt else
     let! nonzero := run_clear_read shadow in
     forward_pair nonzero wid iter (GET_ORIGINAL_OF shadow) shadow CHECK_REQUIRED).

(** The allocations that were not yet reported. *)
Definition flush_ver_mallocs (wid : Z) : W unit :=
  let! base := gete e_ver_malloc_buffer in
  let! m := getp p_mem in
  let index := load 8 m (buf_index base wid) in
  broadcast_malloc_chunk wid (buf_elem base wid) (u32 (index * SIZEOF_VerMallocInstance)) ;;;
  modmem (λ m, memset m (buf_elem base wid) 0 (SIZEOF_VerMallocInstance * PAGE_SIZE)) ;;;
  modmem (λ m, store 8 m (buf_index base wid) 0).

Definition end_iter : W unit :=
  let! wid := my_worker_id in
  let! iter := current_iter in
  let! g := g_ in
  let stage := GET_MY_STAGE g wid in
  when (run_iteration g wid iter)
    (update_shadow_for_loop_invariants ;;;
     update_shadow_for_linear_predicted_values ;;;
     flush_ver_mallocs wid ;;;
     let! globals := getp shadow_globals in
     for_ globals (end_page wid iter) ;;;
     let! stacks := getp shadow_stacks in
     for_ stacks (end_page wid iter) ;;;
     let! heaps_ := getp shadow_heaps in
     for_ heaps_ (end_page wid iter) ;;;
     forward_ro_page wid iter) ;;;
  let wid_offset := GET_WID_OFFSET_IN_STAGE g (u32 iter) stage in
  when (u32 (wid - GET_FIRST_WID_OF_STAGE g stage) =? wid_offset)
    (broadcast_event wid 0xDEADBEEF 0 NULL WRITE EOI ;;; ret tt) ;;;
  advance_iter.
