(* ===== verification/BeginIter.v ===== *)
(** The begin of an iteration: a worker waits until the first iteration was
    committed, merges the work of the earlier stages and starts to watch pages. *)
From S2P Require Import Prelude Machine Strategy Pages SwQueue Packet State Communicate Malloc Separation Speculation Protection Prediction Units Messages Control LoopEvent.
From stdpp Require Import strings.
#[local] Open Scope Z_scope.

(** ** Waiting *)

(** What the replay of allocations leaves alone: the identity of the process, its
    iteration and its tables. *)
Definition identity (w : world) : Z * Z * control * predictors * env :=
  (worker_id (w_p w), current_iteration (w_p w), p_ctl (w_p w), p_pred (w_p w), w_env w).
Definition keeps_identity {A} (c : W A) : Prop := ∀ x w, identity w = x → holds (λ w, identity w = x) (c w).

Lemma keeps_bind {A B} (c : W A) (k : A → W B) : keeps_identity c → (∀ a, keeps_identity (k a)) → keeps_identity (bind c k).
Proof. intros Hc Hk x w Hw. apply holds_bind; [by apply Hc|]. intros a t Ht. by apply Hk. Qed.
Lemma keeps_consume c : keeps_identity (consume_from c).
Proof.
  intros x w <-. unfold consume_from. destruct (chan_get _ _) as [q|]; [|done]. by destruct (sw_queue_consume q) as [[??]|].
Qed.
Lemma keeps_is_empty c : keeps_identity (is_empty c).
Proof. intros x w <-. unfold is_empty. by destruct (chan_get _ _). Qed.
#[local] Hint Resolve keeps_consume keeps_is_empty : smtx.

(** Steps through a program whose writes change only memory, pages and heaps. *)
Ltac keeps :=
  lazymatch goal with
  | |- keeps_identity (bind _ _) => apply keeps_bind; [|intros ?]; keeps
  | |- keeps_identity (match ?x with _ => _ end) => destruct x; keeps
  | _ => first [ solve [auto with smtx] | by intros ? ? <- ]
  end.

Lemma keeps_map_chunk a : keeps_identity (map_chunk a).
Proof. unfold map_chunk, mmap_page. keeps. Qed.
#[local] Hint Resolve keeps_map_chunk : smtx.

Lemma keeps_update_ver_malloc wid size ptr : keeps_identity (update_ver_malloc wid size ptr).
Proof. unfold update_ver_malloc, when, assert_. keeps. Qed.
Lemma keeps_update_ver_separation_malloc size wid heap ptr : keeps_identity (update_ver_separation_malloc size wid heap ptr).
Proof. unfold update_ver_separation_malloc, when, assert_. keeps. Qed.
#[local] Hint Resolve keeps_update_ver_malloc keeps_update_ver_separation_malloc : smtx.

Lemma keeps_reverse wid : keeps_identity (process_reverse_commit_queue wid).
Proof.
  intros x w Hw. unfold process_reverse_commit_queue. apply loop_inv; [|exact Hw]. clear w Hw. intros w Hw. revert x w Hw.
  lazymatch goal with |- ∀ x w, _ → holds _ (?c w) => change (keeps_identity c) end.
  unfold recv, as_packet, as_int, when, assert_. keeps.
Qed.

Section waiting.
Context (others : Z → shared → shared) (wid : Z).

(** [waiting n r w w']: from round [r] on, the worker waits [n] rounds, in which
    it replays the allocations in its reverse queue, then sees the flag set; its
    world changes from [w] to [w']. *)
Inductive waiting : nat → Z → world → world → Prop :=
| wt_go r w v : good_to_go (others r (w_sh w)) = Some v → v ≠ 0 → waiting 0 r w (set_sh (others r (w_sh w)) w)
| wt_round n r w w1 w' : good_to_go (others r (w_sh w)) = Some 0 →
    process_reverse_commit_queue wid (set_sh (others r (w_sh w)) w) = Ok tt w1 →
    waiting n (r + 1) w1 w' → waiting (S n) r w w'.

Lemma waiting_identity n r w w' : waiting n r w w' → identity w' = identity w.
Proof.
  induction 1 as [r w v _ _|n r w w1 w' _ E _ IH]; [done|]. rewrite IH.
  pose proof (keeps_reverse wid _ (set_sh (others r (w_sh w)) w) eq_refl) as K. rewrite E in K. exact K.
Qed.

Lemma reverse_empty w : chan_holds (w_sh w) (Reverse wid) [] → process_reverse_commit_queue wid w = Ok tt w.
Proof.
  intros H. unfold process_reverse_commit_queue. apply (loop_enough _ 1); [|apply (rounds_enough 1); by vm_compute].
  cbn [rounds_lin]. unfold loop_round, bind. by rewrite (is_empty_spec _ w [] H).
Qed.

Lemma wait_rounds n r w w' : waiting n r w w' →
  ∃ r', rounds_lin (S n) (loop_round_with (wait_round others wid)) (r, w) = inr (Ok r' w').
Proof.
  induction 1 as [r w v Hg Hv|n r w w1 w' Hg Hr _ IH].
  - exists r. cbn [rounds_lin]. unfold loop_round_with, wait_round. cbn [fst snd]. run_w. rewrite Hg.
    by rewrite (proj2 (Z.eqb_neq _ _)).
  - destruct IH as (r' & E). exists r'.
    cbn [rounds_lin] in *. unfold loop_round_with at 1, wait_round at 1. cbn [fst snd].
    unfold bind at 1, modsh, modify. unfold bind at 1, getsh, gets. cbn [w_sh set_sh].
    rewrite Hg. cbn [Z.eqb]. unfold bind. rewrite Hr. exact E.
Qed.

Lemma wait_run n w w' : waiting n 0 w w' → Z.of_nat n < 2 ^ 31 → wait_good_to_go others wid w = Ok tt w'.
Proof.
  intros H Hn. destruct (wait_rounds n 0 _ w' H) as (r & E). unfold wait_good_to_go, bind.
  rewrite (loop_with_enough 31 (S n) _ 0 w _ E); [done|].
  apply Nat2Z.inj_le. rewrite Nat2Z.inj_succ, Nat2Z.inj_pow. change (Z.of_nat 2 ^ Z.of_nat 31) with (2 ^ 31). lia.
Qed.
End waiting.

(** ** Predicted values *)

(** A registered location with the width and the value that is predicted for it;
    [None] is an unsupported size. *)
Definition place : Type := Z * option (nat * Z).
Definition li_places (w : world) : list place :=
  omap (λ ij, (λ e, (li_ptr e, (λ n, (n, li_value e)) <$> width_of (li_size e))) <$> loop_invariant_buffer (w_sh w) !! ij)
    (grid (num_loop_invariant_loads (p_pred (w_p w))) (num_contexts (p_pred (w_p w)))).
Definition lp_places (w : world) : list place :=
  omap (λ ij, (λ e, (lp_ptr e, lp_word (w_p w) ij.1 ij.2 e)) <$> linear_predictors (w_sh w) !! ij)
    (grid (num_linear_predictable_loads (p_pred (w_p w))) (num_contexts (p_pred (w_p w)))).
Definition places (w : world) : list place := li_places w ++ lp_places w.

(** The predicted value is written, its bytes are marked as written and its page
    is writable. *)
Definition put_predicted (p : proc) (x : place) : proc :=
  match x with
  | (ptr, Some (n, v)) =>
      if ptr =? 0 then p else
      set_p_mem (store n (store n (p_mem p) ptr v) (GET_SHADOW_OF ptr) (rep n 0x02))
        (set_p_prot (<[Z.land ptr PAGE_MASK := PROT_RW]> (p_prot p)) p)
  | (_, None) => p
  end.

(** The tables cover the predicted loads, and every registered location has a
    size that the runtime supports. *)
Record predictable (w : world) : Prop := {
  pd_li : li_table_ok w;
  pd_lp : lp_table_ok w;
  pd_sizes x : x ∈ places w → x.1 ≠ 0 → is_Some x.2;
  pd_mprotect a : e_mprotect_ok (w_env w) a = true }.

Definition frame_of (p : proc) : Z * Z * control * predictors * list Z * separation :=
  (worker_id p, current_iteration p, p_ctl p, p_pred p, shadow_heaps p, p_sep p).
Lemma predict_frame l : ∀ p, frame_of (foldl put_predicted p l) = frame_of p.
Proof.
  induction l as [|x l IH]; intros p; simpl; [done|]. etrans; [apply IH|]. destruct x as [ptr [[n v]|]]; [|done].
  simpl. by destruct (ptr =? 0).
Qed.

(** A loop that writes one predicted value per round. *)
Lemma predict_loop (body : Z * Z → W unit) (f : Z * Z → option place) s e l : ∀ p,
  (∀ ij q, ij ∈ l → ∃ x, f ij = Some x ∧ body ij (World s q e) = Ok tt (World s (put_predicted q x) e)) →
  for_ l body (World s p e) = Ok tt (World s (foldl put_predicted p (omap f l)) e).
Proof.
  induction l as [|ij l IH]; intros p H; simpl; [done|].
  destruct (H ij p ltac:(apply elem_of_cons; by left)) as (x & -> & E). unfold bind. rewrite E.
  apply IH. intros ij' q Hij. apply H, elem_of_cons. by right.
Qed.

Lemma update_loop_invariants_predict w : predictable w →
  update_loop_invariants w = Ok tt (set_p (foldl put_predicted (w_p w) (li_places w)) w).
Proof.
  intros [Hli _ Hsz Hok]. unfold update_loop_invariants. rewrite for_li_grid. destruct w as [s p e].
  apply predict_loop. intros [i j] q Hij. pose proof (proj1 (elem_of_grid _ _ _ _) Hij) as [Hi Hj].
  destruct (Hli i j Hi Hj) as [x Hx]. eexists. cbn [w_sh] in Hx |- *. rewrite Hx. split; [done|].
  unfold update_loop_invariant. unfold bind at 1, li_at, getsh, gets. unfold bind at 1. cbn [fst snd w_sh]. rewrite Hx. unfold ret at 1.
  pose proof (Hsz (li_ptr x, (λ n, (n, li_value x)) <$> width_of (li_size x))) as Hs.
  unfold put_predicted. destruct (Z.eqb_spec (li_ptr x) 0) as [E0|E0].
  { cbn [negb when]. by destruct (width_of _). }
  destruct Hs as [[n v] Hn]; [|done|].
  { apply elem_of_app. left. apply list_elem_of_omap. exists (i, j). cbn [w_sh]. by rewrite Hx. }
  cbn [negb when]. rewrite set_page_rw_run by done. cbn [snd] in Hn. rewrite Hn.
  destruct (width_of (li_size x)); [|done]. by injection Hn as -> ->.
Qed.

Lemma update_linear_predict w : predictable w →
  update_linear_predicted_values w = Ok tt (set_p (foldl put_predicted (w_p w) (lp_places w)) w).
Proof.
  intros [_ Hlp Hsz Hok]. unfold update_linear_predicted_values, Prediction.pred.
  unfold bind at 1, current_iter, getp at 1, gets at 1. unfold bind at 1, getp at 1, gets at 1.
  rewrite for_lp_grid. destruct w as [s p e].
  apply predict_loop. intros [i j] q Hij. pose proof (proj1 (elem_of_grid _ _ _ _) Hij) as [Hi Hj].
  destruct (Hlp i j Hi Hj) as [x Hx]. eexists. cbn [w_sh] in Hx |- *. rewrite Hx. split; [done|].
  unfold bind at 1, lp_at, getsh, gets. unfold bind at 1. cbn [fst snd w_sh w_p]. rewrite Hx. unfold ret at 1.
  pose proof (Hsz (lp_ptr x, lp_word p i j x)) as Hs.
  unfold put_predicted. destruct (Z.eqb_spec (lp_ptr x) 0) as [E0|E0].
  { cbn [negb when]. by destruct (lp_word _ _ _ _) as [[??]|]. }
  destruct Hs as [[n v] Hn]; [|done|].
  { apply elem_of_app. right. apply list_elem_of_omap. exists (i, j). cbn [w_sh w_p fst snd]. by rewrite Hx. }
  cbn [negb when]. rewrite set_page_rw_run by done. cbn [snd] in Hn. rewrite Hn.
  unfold lp_word in Hn. unfold id. cbv zeta beta. by rewrite Hn.
Qed.

Lemma predictions_run {A} w (k : W A) : predictable w →
  (update_loop_invariants ;;; update_linear_predicted_values ;;; k) w = k (set_p (foldl put_predicted (w_p w) (places w)) w).
Proof.
  intros P. unfold bind at 1. rewrite update_loop_invariants_predict by done. unfold places. rewrite foldl_app.
  set (p1 := foldl put_predicted (w_p w) (li_places w)). pose proof (predict_frame (li_places w) (w_p w)) as F. fold p1 in F.
  injection F as _ F2 _ F4 _ _.
  assert (li_places (set_p p1 w) = li_places w) as E1 by (unfold li_places; cbn [w_p w_sh set_p]; by rewrite F4).
  assert (lp_places (set_p p1 w) = lp_places w) as E2
    by (unfold lp_places, lp_word; cbn [w_p w_sh set_p]; by rewrite F4, F2).
  unfold bind at 1. rewrite update_linear_predict; [by rewrite E2|]. destruct P as [H1 H2 H3 H4].
  split; [| |unfold places; by rewrite E1, E2|done]; intros i j; cbn [w_p w_sh set_p]; rewrite F4; [apply H1|apply H2].
Qed.

(** ** Begin of an iteration *)

(** A packet that announces the begin of an iteration. *)
Definition is_boi (P : pools) (v : vptr) : Prop :=
  ∃ o i, v = WPacket o i ∧ pk_type (get_packet P o i) = BOI ∧ pk_ptr (get_packet P o i) ≠ 0.

(** A worker of the first stage in a later iteration writes the predictions. *)
Definition leads (w : world) (wid : Z) : bool :=
  negb (current_iteration (w_p w) =? 0) && (GET_MY_STAGE (e_strategy (w_env w)) wid =? 0).

(** Predictions can be written and announced. *)
Record announcing (w : world) (wid : Z) : Prop := {
  an_predict : predictable w;
  an_room : pool_room (sh_pools (w_sh w)) wid (num_aux_workers (p_ctl (w_p w)));
  an_ready : chans_ready w (ToTryCommit wid <$> seqZ 0 (num_aux_workers (p_ctl (w_p w)))) }.

(** A worker at the begin of an iteration, in world [w0] once the first iteration
    was committed; the queues of the earlier stages hold [box]. *)
Record beginning (others : Z → shared → shared) (w : world) (wid : Z) (w0 : world) (box : Z → inbox) (p : pcb) : Prop := {
  bg_worker : worker_ok w wid;
  bg_wid : worker_id (w_p w) = wid;
  bg_wait : if current_iteration (w_p w) =? 0 then w0 = w
            else ∃ n, Z.of_nat n < 2 ^ 31 ∧ waiting others wid n 0 w w0;
  bg_box i : i ∈ seqZ 0 (GET_MY_STAGE (e_strategy (w_env w)) wid) →
    inbox_ok w0 (Ucvf (wid_of_iter (e_strategy (w_env w)) (current_iteration (w_p w)) i) wid) (box i);
  bg_NoDup : NoDup (seqZ 0 (GET_MY_STAGE (e_strategy (w_env w)) wid) ≫= λ i, box_ids (box i));
  bg_pcb : the_pcb (w_sh w0) = Some p;
  bg_lead : leads w wid = true → announcing w0 wid;
  bg_mprotect a : e_mprotect_ok (w_env w) a = true;
  bg_heaps : NoDup (shadow_heaps (w_p w0));
  bg_sep : separation_off (p_sep (w_p w0)) }.

Lemma beginning_wait others w wid w0 box p : beginning others w wid w0 box p →
  when (negb (current_iteration (w_p w) =? 0)) (wait_good_to_go others wid) w = Ok tt w0 ∧ identity w0 = identity w.
Proof.
  intros [_ _ Hwait _ _ _ _ _ _ _]. destruct (_ =? 0); cbn [negb when]; [by rewrite Hwait|].
  destruct Hwait as (n & Hn & H). split; [by eapply wait_run|by eapply waiting_identity].
Qed.

Lemma check_misspec_run w p : the_pcb (w_sh w) = Some p →
  check_misspec w = if negb (misspeculation_happened p =? 0) && (misspeculated_iteration p <=? current_iteration (w_p w))
                    then Stop (Exited 0) w else Ok tt w.
Proof.
  intros H. unfold check_misspec, get_pcb. run_w. rewrite H. by destruct (negb _), (_ <=? _).
Qed.

(** The queues of a worker to the try-commit units, between two worlds: one more
    BOI packet in each, or no change. *)
Definition announced (first : bool) (w w' : world) (wid : Z) : Prop :=
  (first = true → ∀ i vs, 0 ≤ i < num_aux_workers (p_ctl (w_p w)) → chan_holds (w_sh w) (ToTryCommit wid i) vs →
    ∃ v, chan_holds (w_sh w') (ToTryCommit wid i) (vs ++ [v]) ∧ is_boi (sh_pools (w_sh w')) v) ∧
  (∀ d vs, (first = true → ∀ i, d ≠ ToTryCommit wid i) → chan_holds (w_sh w) d vs → chan_holds (w_sh w') d vs).

Lemma announce_run w wid : worker_ok w wid → announcing w wid →
  ∃ w', (update_loop_invariants ;;; update_linear_predicted_values ;;;
         to_try_commit wid 0xDEADBEEF 0 NULL WRITE BOI ;;; ret tt) w = Ok tt w' ∧
    w_p w' = foldl put_predicted (w_p w) (places w) ∧ w_env w' = w_env w ∧ announced true w w' wid.
Proof.
  intros Hw [Hpd Hroom Hready]. rewrite predictions_run by done. set (w1 := set_p _ w).
  set (n := num_aux_workers (p_ctl (w_p w))) in *. set (cs := ToTryCommit wid <$> seqZ 0 n) in *.
  assert (lenZ cs = n) as Hlen.
  { pose proof (wo_aux _ _ Hw) as Hn. fold n in Hn. unfold cs, lenZ. rewrite length_fmap, length_seqZ. lia. }
  destruct (sends_delivered wid 0xDEADBEEF NULL 0 WRITE BOI cs w1) as (w2 & E & D).
  - by eapply worker_not_main.
  - apply NoDup_fmap_2; [congruence|apply NoDup_seqZ].
  - by rewrite Hlen.
  - exact Hready.
  - exists w2. split_and!; [|apply D|apply D|split].
    + unfold to_try_commit. unfold bind at 1, bind at 1, ctl, getp, gets.
      pose proof (predict_frame (places w) (w_p w)) as F. injection F as _ _ F _ _ _. cbn [w_p set_p w1]. rewrite F. fold n.
      unfold cs in E. rewrite for_fmap in E. unfold bind. by rewrite E.
    + intros _ i vs Hi Hc. destruct (dl_in _ _ _ _ _ _ _ _ _ D (ToTryCommit wid i) vs) as (e & sg & _ & H1 & H2); [|exact Hc|].
      { apply list_elem_of_fmap. exists i. split; [done|]. apply elem_of_seqZ. lia. }
      eexists. split; [exact H1|]. eexists _, _. split; [done|]. by rewrite H2.
    + intros d vs Hd Hc. apply (dl_out _ _ _ _ _ _ _ _ _ D); [|exact Hc]. intros (i & -> & _)%list_elem_of_fmap. by apply (Hd eq_refl i).
Qed.

(** The worker that leads has no earlier stage. *)
Lemma lead_incoming w wid iter : worker_ok w wid → GET_MY_STAGE (e_strategy (w_env w)) wid = 0 →
  process_incoming_packets wid iter w = Ok tt w.
Proof.
  intros Hw H0. unfold process_incoming_packets. unfold bind at 1, g_, gete, gets. unfold bind at 1, ctl, getp, gets.
  pose proof (wo_wid _ _ Hw). rewrite (proj2 (Z.ltb_lt _ _)) by lia. by rewrite H0.
Qed.

(** The part of [begin_iter] after the check. *)
Definition after_check (wid iter : Z) : W unit :=
  let! g := g_ in
  when (negb (iter =? 0) && (GET_MY_STAGE g wid =? 0))
    (update_loop_invariants ;;; update_linear_predicted_values ;;;
     to_try_commit wid 0xDEADBEEF 0 NULL WRITE BOI ;;; ret tt) ;;;
  when (run_iteration g wid iter) (reset_protection wid).

Lemma lead_step w wid : worker_ok w wid → (leads w wid = true → announcing w wid) →
  ∃ w', when (leads w wid)
    (update_loop_invariants ;;; update_linear_predicted_values ;;;
     to_try_commit wid 0xDEADBEEF 0 NULL WRITE BOI ;;; ret tt) w = Ok tt w' ∧
    w_p w' = (if leads w wid then foldl put_predicted (w_p w) (places w) else w_p w) ∧
    w_env w' = w_env w ∧ announced (leads w wid) w w' wid.
Proof.
  intros Hw Hlead. destruct (leads w wid); [by apply announce_run; auto|]. exists w. by split_and!.
Qed.

Lemma after_check_run w wid iter : worker_ok w wid → current_iteration (w_p w) = iter →
  (leads w wid = true → announcing w wid) → (∀ a, e_mprotect_ok (w_env w) a = true) →
  NoDup (shadow_heaps (w_p w)) → separation_off (p_sep (w_p w)) →
  let predicted := if leads w wid then foldl put_predicted (w_p w) (places w) else w_p w in
  ∃ w', after_check wid iter w = Ok tt w' ∧
    (if run_iteration (e_strategy (w_env w)) wid iter then tracked (shadow_heaps (w_p w)) predicted (w_p w') []
     else w_p w' = predicted) ∧ announced (leads w wid) w w' wid.
Proof.
  intros Hw Hit Hlead Hok Hnh Hoff predicted. destruct (lead_step w wid Hw Hlead) as (w2 & E & P2 & V2 & A).
  fold predicted in P2. unfold leads in E. rewrite Hit in E. unfold after_check. unfold bind at 1, g_, gete, gets.
  unfold bind at 1. rewrite E. destruct (run_iteration _ wid iter); cbn [when]; [|by exists w2].
  assert (frame_of predicted = frame_of (w_p w)) as F by (unfold predicted; destruct (leads w wid); [apply predict_frame|done]).
  injection F as _ _ _ _ F5 F6. destruct (reset_tracked w2 wid) as (p' & E' & T); [by rewrite V2|by rewrite P2, F5|by rewrite P2, F6|].
  rewrite P2, F5 in T. eexists. split; [exact E'|]. split; [exact T|exact A].
Qed.

(** [C39] Begin of an iteration: in every iteration but the first the worker waits
    until the first iteration is committed, replaying the allocations that the
    commit unit reports meanwhile; it then merges, stage by stage and in order,
    what the earlier stages did in this iteration, and every queue keeps exactly the
    packets of later iterations.  When a misspeculation of this or an earlier
    iteration was reported, the process exits.  Otherwise a worker of the first
    stage, except in the first iteration, writes all predicted values into its
    memory, marks their bytes as written and sends one BOI packet to every
    try-commit unit; a worker that runs the iteration ends with all its heap pages
    protected and marked as untouched. *)
Theorem begin_iter_merges others w wid w0 box p : beginning others w wid w0 box p →
  let g := e_strategy (w_env w) in
  let iter := current_iteration (w_p w) in
  let stages := seqZ 0 (GET_MY_STAGE g wid) in
  let first := leads w wid in
  let merged_proc := set_p_mem (foldl apply_msg (p_mem (w_p w0)) (stages ≫= λ i, ib_msgs (box i))) (w_p w0) in
  let predicted := if first then foldl put_predicted merged_proc (places w0) else merged_proc in
  if negb (misspeculation_happened p =? 0) && (misspeculated_iteration p <=? iter)
  then ∃ w', begin_iter others w = Stop (Exited 0) w' ∧ w_p w' = merged_proc
  else ∃ w', begin_iter others w = Ok tt w' ∧
    (if run_iteration g wid iter then tracked (shadow_heaps (w_p w0)) predicted (w_p w') [] else w_p w' = predicted) ∧
    (∀ i, i ∈ stages → chan_holds (w_sh w') (Ucvf (wid_of_iter g iter i) wid) (ib_rest (box i))) ∧
    (first = true → ∀ i vs, 0 ≤ i < num_aux_workers (p_ctl (w_p w)) → chan_holds (w_sh w0) (ToTryCommit wid i) vs →
      ∃ v, chan_holds (w_sh w') (ToTryCommit wid i) (vs ++ [v]) ∧ is_boi (sh_pools (w_sh w')) v) ∧
    (∀ d vs, (∀ i, i ∈ stages → d ≠ Ucvf (wid_of_iter g iter i) wid) → (first = true → ∀ i, d ≠ ToTryCommit wid i) →
      chan_holds (w_sh w0) d vs → chan_holds (w_sh w') d vs).
Proof.
  intros B g iter stages first mp predicted. destruct (beginning_wait _ _ _ _ _ _ B) as [E0 I0].
  destruct B as [Hw Hwid _ Hbox Hnd Hp Hlead Hok Hnh Hoff]. fold g iter in Hbox, Hnd, E0.
  assert (current_iteration (w_p w0) = iter ∧ p_ctl (w_p w0) = p_ctl (w_p w) ∧ w_env w0 = w_env w) as (I2 & I3 & I5)
    by (unfold identity in I0; by injection I0).
  assert (worker_ok w0 wid) as Hw0 by (destruct Hw; split; by rewrite ?I5, ?I3).
  destruct (process_incoming_run w0 wid iter box) as (w1 & E1 & P1 & V1 & R1 & Hin & Hout);
    [exact Hw0|by rewrite I5|by rewrite I5|].
  rewrite I5 in Hin, Hout, P1, V1. fold g stages mp in Hin, Hout, P1.
  assert (the_pcb (w_sh w1) = Some p) as Hp1. { unfold rest_of in R1. injection R1 as -> _ _ _. exact Hp. }
  pose proof (check_misspec_run w1 p Hp1) as Ec. rewrite P1 in Ec. change (current_iteration mp) with (current_iteration (w_p w0)) in Ec.
  rewrite I2 in Ec.
  assert (begin_iter others w = (check_misspec ;;; after_check wid iter) w1) as ->.
  { unfold begin_iter. unfold bind at 1, my_worker_id, getp at 1, gets at 1. rewrite Hwid.
    unfold bind at 1, current_iter, getp at 1, gets at 1. fold iter. unfold bind at 1. rewrite E0. unfold bind at 1. by rewrite E1. }
  revert Ec. destruct (negb _ && _); intros Ec; [exists w1; unfold bind at 1; by rewrite Ec|].
  unfold bind at 1. rewrite Ec.
  assert (leads w1 wid = first) as L1 by (unfold leads; rewrite P1, V1; change (current_iteration mp) with (current_iteration (w_p w0)); by rewrite I2).
  assert (first = true → w1 = w0) as Hsame.
  { intros [_ H0%Z.eqb_eq]%andb_prop. fold g in H0. pose proof (lead_incoming w0 wid iter Hw0) as E. rewrite I5, E1 in E. by injection (E H0). }
  destruct (after_check_run w1 wid iter) as (w2 & E2 & T & [A1 A2]).
  - destruct Hw0. split; by rewrite ?P1, ?V1, <-?I5.
  - by rewrite P1.
  - rewrite L1. intros Hf. rewrite Hsame by done. by apply Hlead.
  - by rewrite V1.
  - by rewrite P1.
  - by rewrite P1.
  - rewrite L1, ?P1, V1 in *. fold g in T. change (shadow_heaps mp) with (shadow_heaps (w_p w0)) in T.
    assert (predicted = if first then foldl put_predicted mp (places w1) else mp) as ->.
    { unfold predicted. destruct first; [|done]. by rewrite Hsame. }
    exists w2. split_and!; [exact E2|exact T| | |].
    + intros i Hi. apply A2; [done|by apply Hin].
    + intros Hf i vs Hi Hc. apply A1; [done|by rewrite <-I3 in Hi|]. rewrite Hsame by done. exact Hc.
    + intros d vs H1 H2 Hc. apply A2; [done|by apply Hout].
Qed.

(** ** Concrete inputs

    Worker 1, of the second stage, begins iteration 2; worker 0 wrote the byte at
    [0x7008] in it.  The first iteration is committed while the worker waits. *)
Definition begin_page : Z := GET_SHADOW_OF 0x100000000000.
Definition begin_world : world :=
  with_word 0 (Ucvf 0 1)
    (World (set_good_to_go (Some 0) (set_the_pcb (Some pcb0) (w_sh demo_world)))
      (set_current_iteration 2 (set_shadow_heaps [begin_page] demo_proc)) demo_env).
Definition begin_others (r : Z) (s : shared) : shared := if r =? 1 then set_good_to_go (Some 1) s else s.
Definition gone (w : world) : world := set_sh (set_good_to_go (Some 1) (w_sh w)) w.
Definition begin_box (i : Z) : inbox := Inbox [WPacket 0 0; WPacket 0 1] [word_msg] [WPacket 0 2] [].

(** Worker 0, of the first stage, begins iteration 1 with one loop-invariant load
    of 4 bytes and one linear load of 8 bytes. *)
Definition lead_world : world :=
  World (set_good_to_go (Some 0) (set_the_pcb (Some pcb0)
      (set_linear_predictors {[(0, 0) := LPred 0x7010 8]}
        (set_loop_invariant_buffer {[(0, 0) := LIBuf 0x7000 0x11223344 4]} (w_sh demo_world)))))
    (set_worker_id 0 (set_current_iteration 1 (set_p_pred (Predictors 1 1 1 {[(0, 0) := 3]} {[(0, 0) := 2]} ∅)
      (set_shadow_heaps [begin_page] demo_proc)))) demo_env.

Lemma begin_waits w wid : good_to_go (w_sh w) = Some 0 → chan_get (w_sh w) (Reverse wid) = Some sw_queue_create →
  ∃ n, Z.of_nat n < 2 ^ 31 ∧ waiting begin_others wid n 0 w (gone w).
Proof.
  intros Hg Hq. exists 1%nat. split; [lia|]. apply wt_round with w; [done| |by apply (wt_go begin_others wid 1 w 1)].
  destruct w as [s p e]. apply reverse_empty. exists sw_queue_create. split; [exact Hq|apply create_holds].
Qed.

Lemma begin_world_beginning : beginning begin_others begin_world 1 (gone begin_world) begin_box pcb0.
Proof.
  split; try done.
  - split; [exact demo_strategy_ok|done|done|done].
  - apply begin_waits; [done|by vm_compute].
  - intros i Hi. change (i ∈ [0]) in Hi. apply list_elem_of_singleton in Hi as ->.
    destruct (with_word_ok 0 (Ucvf 0 1) (World (set_good_to_go (Some 0) (set_the_pcb (Some pcb0) (w_sh demo_world)))
      (set_current_iteration 2 (set_shadow_heaps [begin_page] demo_proc)) demo_env)) as [[H1 H2 H3 H4] _].
    split; [exact H1|exact H2|exact H3|exact H4].
  - apply NoDup_ListNoDup. vm_compute. repeat constructor; simpl; intros H; repeat destruct H as [H|H]; done.
  - apply NoDup_singleton.
Qed.

Lemma lead_queue : chan_holds (w_sh (gone lead_world)) (ToTryCommit 0 0) [].
Proof. exists sw_queue_create. split; [by vm_compute|apply create_holds]. Qed.

Lemma lead_announcing : announcing (gone lead_world) 0.
Proof.
  split; [split| |].
  - intros i j Hi Hj. rewrite (demo_index 1 i j) by done. by eexists.
  - intros i j Hi Hj. rewrite (demo_index 1 i j) by done. by eexists.
  - intros x Hx _. change (x ∈ [(0x7000, Some (4%nat, 0x11223344)); (0x7010, Some (8%nat, 8))]) in Hx.
    apply elem_of_cons in Hx as [->|Hx%list_elem_of_singleton]; [|subst x]; by eexists.
  - done.
  - by apply demo_pool_room.
  - intros c Hc. change (c ∈ [ToTryCommit 0 0]) in Hc. apply list_elem_of_singleton in Hc as ->.
    exists []. split; [exact lead_queue|done].
Qed.

Lemma lead_beginning : beginning begin_others lead_world 0 (gone lead_world) begin_box pcb0.
Proof.
  split; try done.
  - split; [exact demo_strategy_ok|done|done|done].
  - apply begin_waits; [done|by vm_compute].
  - intros i Hi. by apply not_elem_of_nil in Hi.
  - apply NoDup_nil_2.
  - intros _. exact lead_announcing.
  - apply NoDup_singleton.
Qed.

Lemma begin_iter_merges_witness :
  (∃ w', begin_iter begin_others begin_world = Ok tt w' ∧
    page_state (w_p w') begin_page PROT_NONE false ∧ chan_holds (w_sh w') (Ucvf 0 1) []) ∧
  ∃ w' v, begin_iter begin_others lead_world = Ok tt w' ∧ chan_holds (w_sh w') (ToTryCommit 0 0) [v] ∧
    Z.testbit (rd (p_mem (w_p w')) 0x7000) 2 = true.
Proof.
  split.
  - assert (0 ∈ seqZ 0 (GET_MY_STAGE (e_strategy (w_env begin_world)) 1)) as H0 by (by apply elem_of_seqZ).
    destruct (begin_iter_merges _ _ _ _ _ _ begin_world_beginning) as (w' & E & T & Hq & _).
    exists w'. split; [exact E|]. split.
    + apply (tk_closed _ _ _ _ T); [by apply list_elem_of_singleton|]. intros a Ha. destruct (not_elem_of_nil a Ha).
    + exact (Hq 0 H0).
  - destruct (begin_iter_merges _ _ _ _ _ _ lead_beginning) as (w' & E & T & _ & Hq & _).
    destruct (Hq eq_refl 0 [] ltac:(done) lead_queue) as (v & Hv & _). exists w', v. split; [exact E|]. split; [exact Hv|].
    rewrite (tk_bits _ _ _ _ T) by done. by vm_compute.
Defined.
