(* ===== verification/Forward.v ===== *)
(** What a worker sends at the end of an iteration.

    A touched page is sent as two pages (data and metadata) or, when few of its
    words are marked, as pairs of words; for the receivers this makes no
    difference. *)
From S2P Require Import Prelude Machine Strategy Pages SwQueue Packet State Communicate Malloc Separation Speculation Protection Prediction Units Messages TryCommit Control LoopEvent.
From stdpp Require Import strings.
#[local] Open Scope Z_scope.

(** ** Words and pages *)

(** The words of the page at [addr] with metadata at [shadow] in [m], as messages. *)
Definition word_msgs (m : mem) (addr shadow check i : Z) : list msg :=
  let sv := load 8 m (shadow + i) in
  if sv =? 0 then [] else [MWord (addr + i) (load 8 m (addr + i)) sv check].
Definition page_words (m : mem) (addr shadow check : Z) : list msg :=
  strided (PAGE_SIZE / 8) 8 ≫= word_msgs m addr shadow check.

(** [d] is a copy of the page at [addr]. *)
Definition copy_of (m : mem) (addr : Z) (d : mem) : Prop := ∀ k, 0 ≤ k < PAGE_SIZE → rd d k = rd m (addr + k).

Lemma word_byte m a k : 0 ≤ k < 8 → byte_at (load 8 m a) k = rd m (a + k).
Proof. intros Hk. by apply (byte_at_load 8). Qed.

Lemma zero_word m a k : load 8 m a = 0 → 0 ≤ k < 8 → rd m (a + k) = 0.
Proof. intros E Hk. rewrite <-word_byte, E by done. unfold byte_at. by rewrite Z.shiftr_0_l. Qed.

Lemma apply_words r m addr shadow check a :
  rd (foldl apply_msg r (page_words m addr shadow check)) a =
  if decide (addr ≤ a < addr + PAGE_SIZE)
  then if Z.testbit (rd m (shadow + (a - addr))) 1 then rd m a else rd r a
  else rd r a.
Proof.
  unfold page_words. rewrite foldl_bind.
  rewrite (strided_loop _ (λ a b, if Z.testbit (rd m (shadow + (a - addr))) 1 then rd m a else b) addr 8 (PAGE_SIZE / 8));
    [done|lia|done|].
  intros r' i b Hi. unfold word_msgs. destruct (Z.eqb_spec (load 8 m (shadow + 8 * i)) 0) as [E|_]; cbn [foldl].
  - destruct (decide _); [|done].
    replace (shadow + (b - addr)) with (shadow + 8 * i + (b - (addr + 8 * i))) by lia.
    by rewrite (zero_word m _ (b - (addr + 8 * i))) by (done || lia).
  - cbn [apply_msg]. rewrite update_normal_packet_merged. destruct (decide _); [|done].
    rewrite !word_byte by lia. replace (addr + 8 * i + (b - (addr + 8 * i))) with b by lia.
    replace (shadow + 8 * i + (b - (addr + 8 * i))) with (shadow + (b - addr)) by lia. done.
Qed.

(** The byte rule of the checks, for a block inside of a page. *)
Lemma check_spec_shift addr off n shb dab shb' dab' ref sid m r :
  shadow_room addr (off + n) → 0 ≤ off → 0 < n →
  (∀ k, 0 ≤ k < n → shb' k = shb (off + k) ∧ dab' k = dab (off + k)) →
  check_spec (addr + off) shb' dab' ref sid m 0 n r → check_spec addr shb dab ref sid m off (off + n) r.
Proof.
  intros Hroom Hoff Hn He H. pose proof (shadow_add addr (off + n) off Hroom ltac:(lia)) as Hsh.
  assert (∀ k, 0 ≤ k < n → conflict (addr + off) shb' ref m k ↔ conflict addr shb ref m (off + k)) as Hc.
  { intros k Hk. unfold conflict. rewrite Hsh, Z.add_assoc. by destruct (He k Hk) as [-> _]. }
  destruct r as [m'|]; simpl in *.
  - destruct H as [H1 H2]. split.
    + intros k Hk. replace k with (off + (k - off)) by lia. rewrite <-Hc by lia. apply H1. lia.
    + intros a. rewrite H2. unfold accepted. rewrite Hsh.
      replace (addr + off + 0) with (addr + off) by lia. replace (addr + (off + n)) with (addr + off + n) by lia.
      replace (GET_SHADOW_OF addr + off + 0) with (GET_SHADOW_OF addr + off) by lia.
      replace (GET_SHADOW_OF addr + (off + n)) with (GET_SHADOW_OF addr + off + n) by lia.
      destruct (decide (addr + off ≤ a < addr + off + n)).
      { destruct (He (a - (addr + off)) ltac:(lia)) as [-> ->]. by replace (off + (a - (addr + off))) with (a - addr) by lia. }
      destruct (decide (GET_SHADOW_OF addr + off ≤ a < GET_SHADOW_OF addr + off + n)); [|done].
      destruct (He (a - (GET_SHADOW_OF addr + off)) ltac:(lia)) as [-> _].
      by replace (off + (a - (GET_SHADOW_OF addr + off))) with (a - GET_SHADOW_OF addr) by lia.
  - destruct H as (k & Hk & Hk'). exists (off + k). split; [lia|]. by apply Hc.
Qed.

Lemma check_spec_ext addr shb dab shb' dab' ref sid m n r :
  (∀ k, 0 ≤ k < n → shb' k = shb k ∧ dab' k = dab k) →
  check_spec addr shb dab ref sid m 0 n r → check_spec addr shb' dab' ref sid m 0 n r.
Proof.
  intros He. destruct r as [m'|]; simpl.
  - intros [H1 H2]. split.
    + intros k Hk. unfold conflict. destruct (He k Hk) as [-> _]. by apply H1.
    + intros a. rewrite H2. unfold accepted. rewrite !Z.add_0_r.
      destruct (decide (addr ≤ a < addr + n)); [by destruct (He (a - addr) ltac:(lia)) as [-> ->]|].
      destruct (decide _); [|done]. by destruct (He (a - GET_SHADOW_OF addr) ltac:(lia)) as [-> _].
  - intros (k & Hk & Hk'). exists k. split; [done|]. unfold conflict in *. by destruct (He k Hk) as [-> _].
Qed.

Lemma shadow_room_off addr n off len : shadow_room addr n → 0 ≤ off → off + len ≤ n → 0 < len → shadow_room (addr + off) len.
Proof.
  unfold shadow_room. intros H Ho Hl Hlen. rewrite (Z.add_mod addr off) by lia.
  pose proof (Z.mod_pos_bound addr (2 ^ 45) ltac:(lia)). rewrite (Z.mod_small off) by lia.
  rewrite Z.mod_small by lia. lia.
Qed.

Lemma check_words g verdict r m addr shadow stage : shadow_room addr PAGE_SIZE →
  check_spec addr (λ k, rd m (shadow + k)) (λ k, rd m (addr + k)) (stage_ref g stage) (u8 (stage + 1)) r 0 PAGE_SIZE
    (fold_opt (check_msg g verdict stage) (page_words m addr shadow CHECK_REQUIRED) r).
Proof.
  intros Hroom. unfold page_words. rewrite fold_opt_bind. change PAGE_SIZE with (8 * 512) at 1.
  change (PAGE_SIZE / 8) with 512.
  apply (check_loop addr _ _ _ _ (λ _, True)); [lia|lia|lia|done| |done].
  intros r' i Hi _. unfold word_msgs.
  destruct (Z.eqb_spec (load 8 m (shadow + 8 * i)) 0) as [E|_]; cbn [fold_opt].
  - assert (∀ k, 8 * i ≤ k < 8 * i + 8 → rd m (shadow + k) = 0) as H0.
    { intros k Hk. replace (shadow + k) with (shadow + 8 * i + (k - 8 * i)) by lia. apply zero_word; [done|lia]. }
    split.
    + intros k Hk [Hb _]. by rewrite H0 in Hb by done.
    + intros a. unfold accepted. destruct (decide _); [by rewrite H0 by lia|].
      destruct (decide _); [by rewrite H0 by lia|done].
  - cbn [check_msg]. rewrite Z.eqb_refl. rewrite !(wrap_small 64) by apply (load_range 8).
    assert (PAGE_SIZE = 4096) as Hps by done.
    destruct (check_packet g r' (addr + 8 * i) (load 8 m (addr + 8 * i)) (load 8 m (shadow + 8 * i)) stage) as [r1|] eqn:E;
      (apply (check_spec_shift _ _ 8 _ _ (byte_at (load 8 m (shadow + 8 * i))) (byte_at (load 8 m (addr + 8 * i))));
       [unfold shadow_room in *; lia|lia|lia|intros k Hk; rewrite !word_byte, !Z.add_assoc by done; done|]);
      rewrite <-E; apply check_packet_spec; (eapply shadow_room_off; [done|lia|lia|lia]).
Qed.

(** The two encodings of a touched page are equivalent: whether the end of
    an iteration sends a page as a whole or as pairs of words with their metadata,
    every receiver merges the same bytes into its memory, and the try-commit unit
    gives the same verdict and, when it accepts, ends with the same memory. *)
Theorem words_equal_page m addr shadow data meta :
  copy_of m addr data → copy_of m shadow meta →
  (∀ r check, mem_eq (foldl apply_msg r (page_words m addr shadow check)) (apply_msg r (MPage addr data meta check))) ∧
  (∀ g verdict r stage, shadow_room addr PAGE_SIZE → 0 ≤ stage < MAX_STAGE_NUM → stage_bounded addr r →
     match fold_opt (check_msg g verdict stage) (page_words m addr shadow CHECK_REQUIRED) r,
           check_msg g verdict stage r (MPage addr data meta CHECK_REQUIRED) with
     | None, None => True | Some r1, Some r2 => mem_eq r1 r2 | _, _ => False
     end).
Proof.
  intros Hd Hm. split.
  - intros r check a. rewrite apply_words. cbn [apply_msg]. rewrite update_page_merged. unfold merged.
    destruct (decide _); [|done]. rewrite Hm, Hd by lia. by replace (addr + (a - addr)) with a by lia.
  - intros g verdict r stage Hroom Hst Hb. eapply check_spec_same; [by apply check_words|].
    cbn [check_msg]. rewrite Z.eqb_refl.
    eapply check_spec_ext; [|by apply check_page_spec]. intros k Hk. by rewrite Hm, Hd.
Qed.

Lemma words_equal_page_witness :
  let m := wr (wr ∅ 0x10005 0x77) (GET_SHADOW_OF 0x10005) 0x2 in
  rd (foldl apply_msg ∅ (page_words m 0x10000 (GET_SHADOW_OF 0x10000) CHECK_REQUIRED)) 0x10005 = 0x77.
Proof.
  intros m. destruct (words_equal_page m 0x10000 (GET_SHADOW_OF 0x10000) (memcpy ∅ 0 m 0x10000 PAGE_SIZE)
    (memcpy ∅ 0 m (GET_SHADOW_OF 0x10000) PAGE_SIZE)) as [H _].
  - intros k Hk. rewrite rd_memcpy, decide_True by lia. f_equal. lia.
  - intros k Hk. rewrite rd_memcpy, decide_True by lia. f_equal. lia.
  - rewrite H. vm_compute. reflexivity.
Defined.
