(* ===== verification/Posted.v ===== *)
(** Series of packets sent to the same queues.

    A worker sends the packets of an iteration to one worker of every later stage
    and to the try-commit unit: every one of these queues gets the same packets in
    the same order. *)
From S2P Require Import Prelude Machine Strategy Pages SwQueue Packet State Communicate Malloc Separation Speculation Protection Prediction Units Messages TryCommit Validate.

(** ** Posting

    [posted s s' wid cs k ps]: copies of the packets [ps] were appended to all the
    queues [cs]; they are taken from the [lenZ ps * lenZ cs] packets and the [k]
    chunks that follow the [next] pointers of worker [wid]. *)
Record posted (s s' : shared) (wid : Z) (cs : list chan) (k : Z) (ps : list packet) : Prop := {
  pd_in c vs : c ∈ cs → chan_holds s c vs → ∃ ids, chan_holds s' c (vs ++ ids) ∧
    hold_packets (sh_pools s') ids ps ∧ NoDup ids ∧
    ∀ v, v ∈ ids → ∃ e, 0 ≤ e < lenZ ps * lenZ cs ∧ v = WPacket wid (nth_from (packet_next (sh_pools s) wid) e);
  pd_out c vs : c ∉ cs → chan_holds s c vs → chan_holds s' c vs;
  pd_frame o j :
    (∀ e, 0 ≤ e < lenZ ps * lenZ cs → (o, j) ≠ (wid, nth_from (packet_next (sh_pools s) wid) e)) →
    get_packet (sh_pools s') o j = get_packet (sh_pools s) o j;
  pd_chunk_frame o j :
    (∀ e, 0 ≤ e < k → (o, j) ≠ (wid, nth_from (chunk_next (sh_pools s) wid) e)) →
    get_chunk (sh_pools s') o j = get_chunk (sh_pools s) o j;
  pd_chunks p o i : p ∈ ps → pk_value p = WChunk o i →
    ∃ e, 0 ≤ e < k ∧ (o, i) = (wid, nth_from (chunk_next (sh_pools s) wid) e);
  pd_next : packet_next (sh_pools s') wid = nth_from (packet_next (sh_pools s) wid) (lenZ ps * lenZ cs);
  pd_chunk_next : chunk_next (sh_pools s') wid = nth_from (chunk_next (sh_pools s) wid) k;
  pd_pools : pools_ok (sh_pools s');
  pd_some c : is_Some (chan_get s' c) ↔ is_Some (chan_get s c);
  pd_rest : rest_of s' = rest_of s;
  pd_count : 0 ≤ k ≤ lenZ ps }.

(** Room for [n] packets and [l] chunks in the pools, and for [l] entries in every
    queue. *)
Record room (s : shared) (wid : Z) (cs : list chan) (n l : Z) : Prop := {
  rm_pool : pool_room (sh_pools s) wid n;
  rm_size : l ≤ PACKET_POOL_SIZE;
  rm_chunks e : 0 ≤ e < l →
    is_chunk_available (get_chunk (sh_pools s) wid (nth_from (chunk_next (sh_pools s) wid) e)) = true;
  rm_chans c : c ∈ cs → ∃ vs, chan_holds s c vs ∧ lenZ vs + l ≤ PAIRS }.

Lemma room_le s wid cs n l n' l' : room s wid cs n l → n' ≤ n → l' ≤ l → room s wid cs n' l'.
Proof.
  intros [H1 H2 H3 H4] Hn Hl. split; [by eapply pool_room_le|lia|intros e He; apply H3; lia|].
  intros c Hc. destruct (H4 c Hc) as (vs & ? & ?). exists vs. split; [done|lia].
Qed.

Lemma hold_packets_length P ids ps : hold_packets P ids ps → lenZ ids = lenZ ps.
Proof. intros H. apply Forall2_length in H. unfold lenZ. by rewrite H. Qed.

Lemma hold_packets_agree P P' ids ps : hold_packets P ids ps →
  (∀ o i, WPacket o i ∈ ids → get_packet P' o i = get_packet P o i) → hold_packets P' ids ps.
Proof.
  induction 1 as [|v p ids ps (o & i & -> & Hs) H IH]; intros Ha; constructor.
  - exists o, i. split; [done|]. rewrite Ha; [done|]. apply elem_of_cons. by left.
  - apply IH. intros o' i' Hi. apply Ha, elem_of_cons. by right.
Qed.

Lemma lenZ_nonneg {A} (l : list A) : 0 ≤ lenZ l.
Proof. unfold lenZ. lia. Qed.
Lemma lenZ_app' {A} (l1 l2 : list A) : lenZ (l1 ++ l2) = lenZ l1 + lenZ l2.
Proof. unfold lenZ. rewrite length_app. lia. Qed.

Lemma posted_nil s wid cs : pools_ok (sh_pools s) → posted s s wid cs 0 [].
Proof.
  intros Hok. split; try done.
  - intros c vs _ H. exists []. rewrite app_nil_r. split_and!; [done|constructor|constructor|].
    by intros v ?%elem_of_nil.
  - by intros p o i ?%elem_of_nil.
  - rewrite nth_from_0; [done|]. apply Hok.
  - rewrite nth_from_0; [done|]. apply Hok.
Qed.

Lemma posted_room s s' wid cs k ps n l : posted s s' wid cs k ps → room s wid cs n l →
  lenZ ps * lenZ cs ≤ n → lenZ ps ≤ l → room s' wid cs (n - lenZ ps * lenZ cs) (l - lenZ ps).
Proof.
  intros D [[Hok Hs Hf] Hl Hck Hch] Hn Hll. pose proof (pd_count _ _ _ _ _ _ D) as Hk.
  pose proof (lenZ_nonneg ps) as Hp0. pose proof (lenZ_nonneg cs) as Hc0. split.
  - split; [apply D|nia|]. intros e He. rewrite (pd_next _ _ _ _ _ _ D), nth_from_add, (pd_frame _ _ _ _ _ _ D).
    + apply Hf. lia.
    + intros e' He' [= E]. apply nth_from_neq in E; [done|nia|nia|lia].
  - lia.
  - intros e He. rewrite (pd_chunk_next _ _ _ _ _ _ D), nth_from_add, (pd_chunk_frame _ _ _ _ _ _ D).
    + apply Hck. lia.
    + intros e' He' [= E]. apply nth_from_neq in E; [done|lia|lia|lia].
  - intros c Hc. destruct (Hch c Hc) as (vs & Hv & Hb). destruct (pd_in _ _ _ _ _ _ D c vs Hc Hv) as (ids & Hi & Hh & _).
    exists (vs ++ ids). split; [done|]. rewrite lenZ_app', (hold_packets_length _ _ _ Hh). lia.
Qed.

Lemma posted_trans s s1 s2 wid cs k k' ps qs :
  posted s s1 wid cs k ps → posted s1 s2 wid cs k' qs →
  lenZ (ps ++ qs) * lenZ cs ≤ PACKET_POOL_SIZE → lenZ (ps ++ qs) ≤ PACKET_POOL_SIZE →
  posted s s2 wid cs (k + k') (ps ++ qs).
Proof.
  intros D1 D2 Hn Hl. rewrite lenZ_app' in *.
  pose proof (pd_count _ _ _ _ _ _ D1) as K1. pose proof (pd_count _ _ _ _ _ _ D2) as K2.
  pose proof (lenZ_nonneg ps) as Hp0. pose proof (lenZ_nonneg qs) as Hq0. pose proof (lenZ_nonneg cs) as Hc0.
  set (n1 := lenZ ps * lenZ cs) in *. set (n2 := lenZ qs * lenZ cs) in *.
  assert ((lenZ ps + lenZ qs) * lenZ cs = n1 + n2) as Hsum by (unfold n1, n2; lia). rewrite Hsum in *.
  assert (0 ≤ n1 ∧ 0 ≤ n2) as [Hn1 Hn2] by (unfold n1, n2; split; apply Z.mul_nonneg_nonneg; done).
  destruct D1 as [I1 O1 F1 G1 C1 N1 M1 P1 S1 R1 _], D2 as [I2 O2 F2 G2 C2 N2 M2 P2 S2 R2 _].
  fold n1 in I1, F1, N1. fold n2 in I2, F2, N2.
  split; rewrite ?lenZ_app', ?Hsum.
  - intros c vs Hc Hh. destruct (I1 c vs Hc Hh) as (ids & H1 & H2 & H3 & H4).
    destruct (I2 c _ Hc H1) as (jds & J1 & J2 & J3 & J4). exists (ids ++ jds).
    assert (∀ v, v ∈ jds → ∃ e, n1 ≤ e < n1 + n2 ∧ v = WPacket wid (nth_from (packet_next (sh_pools s) wid) e)) as J5.
    { intros v Hv. destruct (J4 v Hv) as (e & He & ->). exists (n1 + e). split; [lia|]. by rewrite N1, nth_from_add. }
    split_and!.
    + by rewrite app_assoc.
    + apply Forall2_app; [|done]. eapply hold_packets_agree; [done|]. intros o i Hi. apply F2. intros e He [= -> E].
      rewrite N1, nth_from_add in E. destruct (H4 _ Hi) as (e' & He' & [= E']). rewrite E' in E.
      apply nth_from_neq in E; [done|lia|lia|lia].
    + apply NoDup_app. split; [done|]. split; [|done]. intros v Hv Hv'.
      destruct (H4 v Hv) as (e & He & ->). destruct (J5 _ Hv') as (e' & He' & [= E]).
      apply nth_from_neq in E; [done|lia|lia|lia].
    + intros v [Hv|Hv]%elem_of_app.
      * destruct (H4 v Hv) as (e & He & ->). exists e. split; [lia|done].
      * destruct (J5 v Hv) as (e & He & ->). exists e. split; [lia|done].
  - auto.
  - intros o j Hne. rewrite F2, F1; [done| |].
    + intros e He. apply Hne. lia.
    + intros e He. rewrite N1, nth_from_add. apply Hne. lia.
  - intros o j Hne. rewrite G2, G1; [done| |].
    + intros e He. apply Hne. lia.
    + intros e He. rewrite M1, nth_from_add. apply Hne. lia.
  - intros p o i [Hp|Hp]%elem_of_app Hv.
    + destruct (C1 p o i Hp Hv) as (e & He & E). exists e. split; [lia|done].
    + destruct (C2 p o i Hp Hv) as (e & He & E). exists (k + e). split; [lia|]. by rewrite <-nth_from_add, <-M1.
  - by rewrite N2, N1, nth_from_add.
  - by rewrite M2, M1, nth_from_add.
  - done.
  - intros c. by rewrite S2.
  - congruence.
  - lia.
Qed.

(** ** One packet to every queue *)

Lemma hold_one P wid i ptr value size wr ty sg sg' : get_packet P wid i = Packet ptr value size wr ty sg →
  hold_packets P [WPacket wid i] [Packet ptr value size wr ty sg'].
Proof. intros E. constructor; [|constructor]. exists wid, i. split; [done|]. by rewrite E. Qed.

Lemma posted_delivered w w' wid cs ptr value size wr ty :
  delivered w w' wid cs ptr value size wr ty → (∀ o i, value ≠ WChunk o i) →
  pools_ok (sh_pools (w_sh w)) →
  posted (w_sh w) (w_sh w') wid cs 0 [Packet ptr value size wr ty 0].
Proof.
  intros [Hi Ho Hf Hn Hok [Hc1 Hc2] Hs Hr _ _] Hv Hok0.
  assert (lenZ [Packet ptr value size wr ty 0] * lenZ cs = lenZ cs) as L by (unfold lenZ; simpl length; lia).
  split; rewrite ?L; try done.
  - intros c vs Hc Hh. destruct (Hi c vs Hc Hh) as (e & sg & He & H1 & H2). eexists. split; [exact H1|].
    split; [by eapply hold_one|]. split; [apply NoDup_singleton|].
    intros v ->%list_elem_of_singleton. by exists e.
  - intros o j _. unfold get_chunk. by rewrite Hc1.
  - intros p o i ->%list_elem_of_singleton H. by destruct (Hv o i).
  - unfold chunk_next. rewrite Hc2. fold (chunk_next (sh_pools (w_sh w)) wid). rewrite nth_from_0; [done|]. apply Hok0.
Qed.

(** The sender: a worker of a region with one try-commit unit. *)
Record sender (w : world) (wid : Z) : Prop := {
  sn_worker : worker_ok w wid;
  sn_aux : num_aux_workers (p_ctl (w_p w)) = 1 }.

(** The queues to which the packets of iteration [iter] are sent. *)
Definition targets (g : strategy) (wid iter : Z) : list chan := forward_targets g 1 wid iter 0.

Lemma forward_targets_one g wid iter addr : forward_targets g 1 wid iter addr = targets g wid iter.
Proof. unfold targets, forward_targets, target_try_commit. by rewrite !Z.mod_1_r. Qed.

Lemma room_ready w wid cs n l : room (w_sh w) wid cs n l → 1 ≤ l → chans_ready w cs.
Proof. intros R Hl c Hc. destruct (rm_chans _ _ _ _ _ R c Hc) as (vs & ? & ?). exists vs. split; [done|lia]. Qed.

Lemma forward_packet_posted w wid iter addr value size check :
  sender w wid → check ≠ CHECK_FREE → (∀ o i, value ≠ WChunk o i) →
  let cs := targets (e_strategy (w_env w)) wid iter in
  room (w_sh w) wid cs (lenZ cs) 1 →
  ∃ w', forward_packet wid iter addr value size check w = Ok 0 w' ∧ w_p w' = w_p w ∧ w_env w' = w_env w ∧
    posted (w_sh w) (w_sh w') wid cs 0 [Packet addr value size check NORMAL 0].
Proof.
  intros [Hw Ha] Hc Hv cs R. rewrite forward_packet_sends by done. rewrite Ha, forward_targets_one. fold cs.
  destruct (sends_delivered wid addr value size check NORMAL cs w) as (w' & E & D).
  - by eapply worker_not_main.
  - unfold cs. eapply forward_targets_NoDup; apply Hw.
  - apply R.
  - by eapply room_ready.
  - exists w'. unfold bind. rewrite E. split; [done|]. split; [apply D|]. split; [apply D|].
    apply posted_delivered; [done|done|]. apply R.
Qed.

Lemma with_page_chunk_frame w wid addr o j : (o, j) ≠ (wid, chunk_next (sh_pools (w_sh w)) wid) →
  get_chunk (sh_pools (w_sh (with_page_chunk w wid addr))) o j = get_chunk (sh_pools (w_sh w)) o j.
Proof. intros H. unfold get_chunk. simpl. by rewrite lookup_insert_ne by congruence. Qed.

Lemma with_page_chunk_next w wid addr : pools_ok (sh_pools (w_sh w)) →
  chunk_next (sh_pools (w_sh (with_page_chunk w wid addr))) wid = nth_from (chunk_next (sh_pools (w_sh w)) wid) 1.
Proof. intros H. unfold chunk_next at 1. simpl. rewrite lookup_insert_eq. apply bump_nth, H. Qed.

Lemma posted_page w w' wid cs ptr size wr ty addr :
  let v := WChunk wid (chunk_next (sh_pools (w_sh w)) wid) in
  delivered (with_page_chunk w wid addr) w' wid cs ptr v size wr ty →
  pools_ok (sh_pools (w_sh w)) →
  posted (w_sh w) (w_sh w') wid cs 1 [Packet ptr v size wr ty 0].
Proof.
  intros v [Hi Ho Hf Hn Hok [Hc1 Hc2] Hs Hr _ _] Hok0.
  change (packet_next (sh_pools (w_sh (with_page_chunk w wid addr))) wid) with (packet_next (sh_pools (w_sh w)) wid) in *.
  assert (lenZ [Packet ptr v size wr ty 0] * lenZ cs = lenZ cs) as L by (unfold lenZ; simpl length; lia).
  split; rewrite ?L; try done.
  - intros c vs Hc Hh. destruct (Hi c vs Hc ltac:(by apply with_page_chunk_chans)) as (e & sg & He & H1 & H2).
    eexists. split; [exact H1|]. split; [by eapply hold_one|]. split; [apply NoDup_singleton|].
    intros u ->%list_elem_of_singleton. by exists e.
  - intros o j Hne. unfold get_chunk at 1. rewrite Hc1. apply with_page_chunk_frame.
    specialize (Hne 0 ltac:(lia)). rewrite nth_from_0 in Hne; [done|]. apply Hok0.
  - intros p o i ->%list_elem_of_singleton [= <- <-]. exists 0. split; [lia|]. rewrite nth_from_0; [done|]. apply Hok0.
  - unfold chunk_next at 1. rewrite Hc2. by apply with_page_chunk_next.
Qed.

Definition page_packet (w : world) (wid addr check : Z) : packet :=
  Packet addr (WChunk wid (chunk_next (sh_pools (w_sh w)) wid)) SIZEOF_PACKET_CHUNK check SUPER 0.

Lemma forward_page_posted w wid iter addr check :
  sender w wid →
  let cs := targets (e_strategy (w_env w)) wid iter in
  room (w_sh w) wid cs (lenZ cs) 1 →
  ∃ w', forward_page wid iter addr check w = Ok 0 w' ∧ w_p w' = w_p w ∧ w_env w' = w_env w ∧
    posted (w_sh w) (w_sh w') wid cs 1 [page_packet w wid addr check] ∧
    ∀ k, 0 ≤ k < PAGE_SIZE →
      rd (ck_data (get_chunk (sh_pools (w_sh w')) wid (chunk_next (sh_pools (w_sh w)) wid))) k = rd (p_mem (w_p w)) (addr + k).
Proof.
  intros [Hw Ha] cs R. pose proof (pr_ok _ _ _ (rm_pool _ _ _ _ _ R)) as Hok.
  assert (chunk_ready w wid) as Hr.
  { pose proof (rm_chunks _ _ _ _ _ R 0 ltac:(lia)) as H. rewrite nth_from_0 in H by apply Hok. exact H. }
  rewrite forward_page_sends by done. rewrite Ha, forward_targets_one. fold cs.
  destruct (sends_delivered wid addr (WChunk wid (chunk_next (sh_pools (w_sh w)) wid)) SIZEOF_PACKET_CHUNK check SUPER cs
    (with_page_chunk w wid addr)) as (w' & E & D).
  - by eapply worker_not_main.
  - unfold cs. eapply forward_targets_NoDup; apply Hw.
  - apply with_page_chunk_room, R.
  - intros c Hc. destruct (rm_chans _ _ _ _ _ R c Hc) as (vs & ? & ?). exists vs.
    split; [by apply with_page_chunk_chans|lia].
  - exists w'. unfold bind. rewrite E. split; [done|]. split; [apply D|]. split; [apply D|]. split.
    + by apply (posted_page w w' wid cs addr _ _ _ addr).
    + intros k Hk. destruct (dl_chunks _ _ _ _ _ _ _ _ _ D) as [Ec _]. unfold get_chunk. rewrite Ec.
      fold (get_chunk (sh_pools (w_sh (with_page_chunk w wid addr))) wid (chunk_next (sh_pools (w_sh w)) wid)).
      rewrite get_page_chunk. simpl. rewrite rd_memcpy, decide_True by lia. f_equal. lia.
Qed.

(** ** What packets stand for *)

Inductive denotes (P : pools) : list packet → list msg → Prop :=
| dn_nil : denotes P [] []
| dn_word ptr value shadow size' check wr' ty' sg sg' ptr' ps xs : denotes P ps xs →
    denotes P (Packet ptr (WInt value) 8 check NORMAL sg :: Packet ptr' (WInt shadow) size' wr' ty' sg' :: ps)
      (MWord ptr value shadow check :: xs)
| dn_page ptr co ci so si size size' check wr' ty' sg sg' ptr' ps xs : check ≠ CHECK_RO_PAGE → denotes P ps xs →
    denotes P (Packet ptr (WChunk co ci) size check SUPER sg :: Packet ptr' (WChunk so si) size' wr' ty' sg' :: ps)
      (MPage ptr (ck_data (get_chunk P co ci)) (ck_data (get_chunk P so si)) check :: xs)
| dn_ro ptr co ci size sg ps xs : denotes P ps xs →
    denotes P (Packet ptr (WChunk co ci) size CHECK_RO_PAGE SUPER sg :: ps) (MReadOnly :: xs)
| dn_end ptr value size wr type sg ps xs : is_end type → denotes P ps xs →
    denotes P (Packet ptr value size wr type sg :: ps) (MEnd type :: xs).

Lemma denotes_app P ps xs qs ys : denotes P ps xs → denotes P qs ys → denotes P (ps ++ qs) (xs ++ ys).
Proof. induction 1; intros; simpl; [done| | | |]; constructor; auto. Qed.

Lemma denotes_frame P P' ps xs : denotes P ps xs →
  (∀ p o i, p ∈ ps → pk_value p = WChunk o i → get_chunk P' o i = get_chunk P o i) → denotes P' ps xs.
Proof.
  induction 1 as [|? ? ? ? ? ? ? ? ? ? ps xs H IH|? co ci so si ? ? ? ? ? ? ? ? ps xs Hc H IH|? ? ? ? ? ps xs H IH|? ? ? ? ? ? ps xs Ht H IH];
    intros Hf; [constructor| | | |].
  - constructor. apply IH. intros p o i Hp. apply Hf. do 2 (apply elem_of_cons; right). done.
  - rewrite <-(Hf _ co ci ltac:(apply elem_of_cons; by left) eq_refl).
    rewrite <-(Hf _ so si ltac:(apply elem_of_cons; right; apply elem_of_cons; by left) eq_refl).
    constructor; [done|]. apply IH. intros p o i Hp. apply Hf. do 2 (apply elem_of_cons; right). done.
  - constructor. apply IH. intros p o i Hp. apply Hf. by apply elem_of_cons; right.
  - constructor; [done|]. apply IH. intros p o i Hp. apply Hf. by apply elem_of_cons; right.
Qed.

Lemma denotes_encodes P ps xs : denotes P ps xs → ∀ ids, hold_packets P ids ps → NoDup ids → encodes P ids xs.
Proof.
  assert (∀ p o i ptr v size wr ty sg, same_packet (get_packet P o i) p → p = Packet ptr v size wr ty sg →
    ∃ sg', get_packet P o i = Packet ptr v size wr ty sg') as Hsame.
  { intros p o i ptr v size wr ty sg Hs E. eexists. by eapply same_packet_eq. }
  induction 1 as [|? ? ? ? ? ? ? ? ? ? ps xs H IH|? co ci so si ? ? ? ? ? ? ? ? ps xs Hc H IH|? ? ? ? ? ps xs H IH|? ? ? ? ? ? ps xs Ht H IH];
    intros ids Hh Hnd.
  { apply Forall2_nil_inv_r in Hh as ->. constructor. }
  1,2: apply Forall2_cons_inv_r in Hh as (v & l & (o & i & -> & S1) & Hl & ->);
    apply Forall2_cons_inv_r in Hl as (v & l' & (o' & i' & -> & S2) & Hl & ->);
    apply NoDup_cons in Hnd as [N1 Hnd]; apply NoDup_cons in Hnd as [_ Hnd]; apply not_elem_of_cons in N1 as [N1 _];
    destruct (Hsame _ _ _ _ _ _ _ _ _ S1 eq_refl) as [sg1 E1]; destruct (Hsame _ _ _ _ _ _ _ _ _ S2 eq_refl) as [sg2 E2];
    apply (en_cons P [WPacket o i; WPacket o' i']); [|by apply IH].
  3,4: apply Forall2_cons_inv_r in Hh as (v & l & (o & i & -> & S1) & Hl & ->);
    apply NoDup_cons in Hnd as [_ Hnd]; destruct (Hsame _ _ _ _ _ _ _ _ _ S1 eq_refl) as [sg1 E1];
    apply (en_cons P [WPacket o i]); [|by apply IH].
  - eapply ca_word; [done|done|congruence].
  - eapply ca_page; [done|done|done|congruence].
  - by eapply ca_ro.
  - by eapply ca_end.
Qed.

(** Later packets leave the meaning of the earlier ones alone. *)
Lemma posted_denotes s s1 s2 wid cs k k' ps qs xs : posted s s1 wid cs k ps → posted s1 s2 wid cs k' qs →
  lenZ (ps ++ qs) ≤ PACKET_POOL_SIZE → denotes (sh_pools s1) ps xs → denotes (sh_pools s2) ps xs.
Proof.
  intros D1 D2 Hl Hd. eapply denotes_frame; [done|]. intros p o i Hp Hv. apply (pd_chunk_frame _ _ _ _ _ _ D2).
  pose proof (pd_count _ _ _ _ _ _ D1). pose proof (pd_count _ _ _ _ _ _ D2). rewrite lenZ_app' in Hl.
  destruct (pd_chunks _ _ _ _ _ _ D1 p o i Hp Hv) as (e & He & E). intros e' He' E'. rewrite E in E'.
  injection E' as E'. rewrite (pd_chunk_next _ _ _ _ _ _ D1), nth_from_add in E'.
  apply nth_from_neq in E'; [done|lia|lia|lia].
Qed.
