(* ===== verification/EndIter.v ===== *)
(** The end of an iteration: the worker that runs it sends what it wrote. *)
From S2P Require Import Prelude Machine Strategy Pages SwQueue Packet State Communicate Malloc Separation Speculation Protection Prediction Units Messages TryCommit Validate Control LoopEvent Forward Posted.
From stdpp Require Import strings.
#[local] Open Scope Z_scope.

(** ** Messages sent to all targets *)

(** At most [l] packets per queue, which stand for the messages [xs]. *)
Definition sent (s s' : shared) (wid : Z) (cs : list chan) (l : Z) (xs : list msg) : Prop :=
  ∃ k ps, posted s s' wid cs k ps ∧ denotes (sh_pools s') ps xs ∧ lenZ ps ≤ l.

(** Room for [l] packets per queue, and [b] packets besides. *)
Definition room_for (s : shared) (wid : Z) (cs : list chan) (b l : Z) : Prop := room s wid cs (l * lenZ cs + b) l.

Lemma sent_nil s wid cs : pools_ok (sh_pools s) → sent s s wid cs 0 [].
Proof. intros H. exists 0, []. split; [by apply posted_nil|]. split; [constructor|done]. Qed.

Lemma sent_room s s' wid cs l xs b l' : sent s s' wid cs l xs → room_for s wid cs b l' → l ≤ l' → 0 ≤ b →
  room_for s' wid cs b (l' - l).
Proof.
  intros (k & ps & D & _ & Hl) R Hll Hb. pose proof (lenZ_nonneg ps) as Hp0. pose proof (lenZ_nonneg cs) as Hc0.
  unfold room_for in *. eapply room_le; [eapply posted_room; [exact D|exact R| |]|nia|lia]; [nia|lia].
Qed.

Lemma sent_trans s s1 s2 wid cs l l' xs ys b : sent s s1 wid cs l xs → sent s1 s2 wid cs l' ys →
  room_for s wid cs b (l + l') → 0 ≤ b → sent s s2 wid cs (l + l') (xs ++ ys).
Proof.
  intros (k & ps & D & Hd & Hl) (k' & qs & D' & Hd' & Hl') [[_ R1 _] R2 _ _] Hb.
  pose proof (lenZ_nonneg cs). assert (lenZ (ps ++ qs) ≤ l + l') as Hlen by (rewrite lenZ_app'; lia).
  exists (k + k'), (ps ++ qs). split; [eapply posted_trans; [done|done|nia|lia]|]. split; [|lia].
  apply denotes_app; [|done]. eapply posted_denotes; [done|done|lia|done].
Qed.

Lemma sent_le s s' wid cs l l' xs : sent s s' wid cs l xs → l ≤ l' → sent s s' wid cs l' xs.
Proof. intros (k & ps & ? & ? & ?) ?. exists k, ps. split_and!; [done|done|lia]. Qed.

Lemma sender_frame w w' wid : sender w wid → p_ctl (w_p w') = p_ctl (w_p w) → w_env w' = w_env w → sender w' wid.
Proof. intros [[? ? ? ?] ?] Hp He. split; [split|]; by rewrite ?Hp, ?He. Qed.

(** Two packets or pages make a message. *)
Lemma forward_word_pair w wid iter addr value shadow check :
  sender w wid → check ≠ CHECK_FREE →
  let cs := targets (e_strategy (w_env w)) wid iter in
  room_for (w_sh w) wid cs 0 2 →
  ∃ w', (forward_packet wid iter addr (WInt value) 8 check ;;; forward_packet wid iter 0 (WInt shadow) 8 check ;;; ret tt) w
      = Ok tt w' ∧ w_p w' = w_p w ∧ w_env w' = w_env w ∧ sent (w_sh w) (w_sh w') wid cs 2 [MWord addr value shadow check].
Proof.
  intros Hs Hc cs R. pose proof (lenZ_nonneg cs). unfold room_for in R.
  destruct (forward_packet_posted w wid iter addr (WInt value) 8 check Hs Hc ltac:(done)) as (w1 & E1 & P1 & V1 & D1);
    [eapply room_le; [done|fold cs; lia|lia]|].
  pose proof (sender_frame _ _ _ Hs (f_equal _ P1) V1) as Hs1.
  pose proof (posted_room _ _ _ _ _ _ _ _ D1 R ltac:(unfold lenZ at 1; simpl length; fold cs; lia) ltac:(by vm_compute)) as R1.
  destruct (forward_packet_posted w1 wid iter 0 (WInt shadow) 8 check Hs1 Hc ltac:(done)) as (w2 & E2 & P2 & V2 & D2).
  { rewrite V1. fold cs. eapply room_le; [exact R1| |by vm_compute]. unfold lenZ at 3. simpl length. fold cs. lia. }
  rewrite V1 in D2. fold cs in D1, D2.
  exists w2. unfold bind. rewrite E1, E2. split; [done|]. split; [congruence|]. split; [congruence|].
  exists (0 + 0), ([Packet addr (WInt value) 8 check NORMAL 0] ++ [Packet 0 (WInt shadow) 8 check NORMAL 0]).
  destruct R as [[_ R2 _] R3 _ _]. split; [eapply posted_trans; [done|done| |done]|].
  { change (lenZ (_ ++ _)) with 2. lia. }
  split; [|done]. constructor. constructor.
Qed.

Lemma forward_page_pair w wid iter addr shadow check :
  sender w wid → check ≠ CHECK_RO_PAGE →
  let cs := targets (e_strategy (w_env w)) wid iter in
  room_for (w_sh w) wid cs 0 2 →
  ∃ w' data meta, (forward_page wid iter addr check ;;; forward_page wid iter shadow check ;;; ret tt) w = Ok tt w' ∧
    w_p w' = w_p w ∧ w_env w' = w_env w ∧ sent (w_sh w) (w_sh w') wid cs 2 [MPage addr data meta check] ∧
    copy_of (p_mem (w_p w)) addr data ∧ copy_of (p_mem (w_p w)) shadow meta.
Proof.
  intros Hs Hc cs R. pose proof (lenZ_nonneg cs). unfold room_for in R.
  destruct (forward_page_posted w wid iter addr check Hs) as (w1 & E1 & P1 & V1 & D1 & C1);
    [eapply room_le; [done|fold cs; lia|lia]|].
  pose proof (sender_frame _ _ _ Hs (f_equal _ P1) V1) as Hs1.
  pose proof (posted_room _ _ _ _ _ _ _ _ D1 R ltac:(unfold lenZ at 1; simpl length; fold cs; lia) ltac:(by vm_compute)) as R1.
  destruct (forward_page_posted w1 wid iter shadow check Hs1) as (w2 & E2 & P2 & V2 & D2 & C2).
  { rewrite V1. fold cs. eapply room_le; [exact R1| |by vm_compute]. unfold lenZ at 3. simpl length. fold cs. lia. }
  rewrite V1 in D2. fold cs in D1, D2. rewrite P1 in C2. destruct R as [[Hok R2 _] R3 _ _].
  exists w2. eexists _, _. unfold bind. rewrite E1, E2. split; [done|]. split; [congruence|]. split; [congruence|]. split.
  - exists (1 + 1), ([page_packet w wid addr check] ++ [page_packet w1 wid shadow check]).
    split; [eapply posted_trans; [done|done| |done]|]. { change (lenZ (_ ++ _)) with 2. lia. }
    split; [|done]. constructor; [done|constructor].
  - split; [|done]. intros k Hk. rewrite (pd_chunk_frame _ _ _ _ _ _ D2); [by apply C1|].
    intros e He [= E]. rewrite (pd_chunk_next _ _ _ _ _ _ D1), nth_from_add in E.
    rewrite <-(nth_from_0 (chunk_next (sh_pools (w_sh w)) wid)) in E at 1 by apply Hok.
    apply nth_from_neq in E; [done|done| |lia]. assert (PACKET_POOL_SIZE = 524288) by done. lia.
Qed.

(** ** The words of a page *)

Lemma forward_words_run wid iter addr shadow check m l : check ≠ CHECK_FREE → ∀ w,
  p_mem (w_p w) = m → sender w wid →
  let cs := targets (e_strategy (w_env w)) wid iter in
  let xs := l ≫= word_msgs m addr shadow check in
  room_for (w_sh w) wid cs 0 (2 * lenZ xs) →
  ∃ w', for_ l (forward_word wid iter addr shadow check) w = Ok tt w' ∧ w_p w' = w_p w ∧ w_env w' = w_env w ∧
    sent (w_sh w) (w_sh w') wid cs (2 * lenZ xs) xs.
Proof.
  intros Hc. induction l as [|i l IH]; intros w Hm Hs cs xs R.
  { exists w. split_and!; try done. apply sent_nil, (rm_pool _ _ _ _ _ R). }
  unfold xs in *. clear xs. cbn [mbind list_bind] in *. set (ys := l ≫= word_msgs m addr shadow check) in *.
  pose proof (lenZ_nonneg cs) as Hc0. pose proof (lenZ_nonneg ys) as Hy0.
  assert (∃ w1, forward_word wid iter addr shadow check i w = Ok tt w1 ∧ w_p w1 = w_p w ∧ w_env w1 = w_env w ∧
    sent (w_sh w) (w_sh w1) wid cs (2 * lenZ (word_msgs m addr shadow check i)) (word_msgs m addr shadow check i))
    as (w1 & E1 & P1 & V1 & S1).
  { unfold forward_word. unfold bind at 1, getp, gets. rewrite Hm. unfold word_msgs in *.
    destruct (Z.eqb_spec (load 8 m (shadow + i)) 0) as [E|E]; cbn [negb when].
    - exists w. split_and!; try done. apply sent_nil, (rm_pool _ _ _ _ _ R).
    - change (2 * lenZ [_]) with 2. apply forward_word_pair; [done|done|]. fold cs.
      unfold room_for in *. rewrite lenZ_app' in R. change (lenZ [_]) with 1 in R.
      eapply room_le; [exact R|nia|lia]. }
  rewrite lenZ_app' in *. set (n := lenZ (word_msgs m addr shadow check i)) in *.
  assert (0 ≤ n) as Hn by apply lenZ_nonneg.
  destruct (IH w1 ltac:(by rewrite P1) (sender_frame _ _ _ Hs (f_equal _ P1) V1)) as (w2 & E2 & P2 & V2 & S2).
  { rewrite V1. fold cs. replace (2 * lenZ ys) with (2 * (n + lenZ ys) - 2 * n) by lia.
    eapply sent_room; [exact S1|exact R|lia|lia]. }
  rewrite V1 in S2. fold cs in S2.
  exists w2. cbn [for_]. unfold bind. rewrite E1. split; [exact E2|]. split; [congruence|]. split; [congruence|].
  rewrite Z.mul_add_distr_l in *. eapply sent_trans; [exact S1|exact S2|exact R|lia].
Qed.

Lemma words_count m addr shadow check n : 0 ≤ n →
  lenZ (strided n 8 ≫= word_msgs m addr shadow check) = count_nz m shadow n.
Proof.
  revert n. apply Z_up_ind; [done|]. intros n Hn IH. unfold strided in *.
  rewrite seqZ_snoc, fmap_app, bind_app, lenZ_app', IH, count_nz_succ by lia. f_equal. rewrite Z.add_0_l.
  cbn [fmap list_fmap mbind list_bind]. rewrite app_nil_r. unfold word_msgs, word_nz.
  by destruct (load 8 m (shadow + 8 * n) =? 0).
Qed.

(** ** One touched page *)

Definition touched (m : mem) (s : Z) : bool := Z.testbit (rd m s) 7.

(** Byte [a] is in the page with metadata [s], the page was touched and the byte
    written. *)
Definition written (m : mem) (s a : Z) : Prop :=
  GET_ORIGINAL_OF s ≤ a < GET_ORIGINAL_OF s + PAGE_SIZE ∧ touched m s = true ∧
  Z.testbit (rd m (s + (a - GET_ORIGINAL_OF s))) 1 = true.

#[global] Instance written_dec m s a : Decision (written m s a).
Proof. unfold written. apply _. Defined.

(** The messages [xs] make a receiver take over exactly the written bytes. *)
Definition page_effect (m : mem) (s : Z) (xs : list msg) : Prop :=
  all_go_on xs ∧ ∀ r a, rd (foldl apply_msg r xs) a = if decide (written m s a) then rd m a else rd r a.

Lemma clear_bit7_rd m s : rd (wr m s (Z.land (rd m s) 0x7f)) s = Z.land (rd m s) 0x7f.
Proof.
  rewrite rd_wr_eq. apply wrap_small. pose proof (rd_range m s). split; [apply Z.land_nonneg; lia|].
  change 0x7f with (Z.ones 7). rewrite Z.land_ones by lia. pose proof (Z.mod_pos_bound (rd m s) (2 ^ 7)). lia.
Qed.

(** The metadata without the touched bit. *)
Lemma clear_touched m s k : 0 ≤ k →
  Z.testbit (rd (wr m s (Z.land (rd m s) 0x7f)) (s + k)) 1 = Z.testbit (rd m (s + k)) 1.
Proof.
  intros Hk. destruct (decide (k = 0)) as [->|].
  - rewrite Z.add_0_r, clear_bit7_rd, Z.land_spec. apply andb_true_r.
  - by rewrite rd_wr_ne by lia.
Qed.

Lemma touched_land m s : negb (Z.land (rd m s) 0x80 =? 0) = touched m s.
Proof. apply (land_bit (rd m s) 7). lia. Qed.

Lemma original_far s a : GET_ORIGINAL_OF s ≤ a < GET_ORIGINAL_OF s + PAGE_SIZE → ¬ (s ≤ a < s + PAGE_SIZE).
Proof.
  change (GET_ORIGINAL_OF s) with (GET_SHADOW_OF s). unfold PAGE_SIZE. intros H. pose proof (shadow_dist s). lia.
Qed.

(** A page of which only loads were recorded has no written byte. *)
Lemma read_only_page m s : forallb (word_ro m s) (seqZ 0 512) = true →
  ∀ k, 0 ≤ k < PAGE_SIZE → Z.testbit (rd m (s + k)) 1 = false.
Proof.
  intros H k Hk. rewrite forallb_forall in H. assert (PAGE_SIZE = 4096) as Hp by done.
  assert (0 ≤ k / 8 < 512 ∧ 0 ≤ k mod 8 < 8 ∧ k = 8 * (k / 8) + k mod 8) as (Hq & Hr & E)
    by (Z.to_euclidean_division_equations; lia).
  assert (k / 8 ∈ seqZ 0 512) as Hin by (apply elem_of_seqZ; lia). specialize (H (k / 8) (proj1 (list_elem_of_In _ _) Hin)).
  unfold word_ro in H. apply Z.eqb_eq in H.
  assert (Z.testbit (Z.land (load 8 m (s + 8 * (k / 8))) 0xfbfbfbfbfbfbfbfb) (8 * (k mod 8) + 1) = false) as Hb
    by (by rewrite H, Z.testbit_0_l).
  rewrite Z.land_spec in Hb.
  assert (Z.testbit 0xfbfbfbfbfbfbfbfb (8 * (k mod 8) + 1) = true) as Hmask.
  { assert (k mod 8 = 0 ∨ k mod 8 = 1 ∨ k mod 8 = 2 ∨ k mod 8 = 3 ∨ k mod 8 = 4 ∨ k mod 8 = 5 ∨ k mod 8 = 6 ∨ k mod 8 = 7)
      as Hc by lia. repeat destruct Hc as [Hc|Hc]; rewrite Hc; done. }
  rewrite Hmask, andb_true_r in Hb. rewrite E at 1. rewrite Z.add_assoc, <-word_byte by done.
  by rewrite byte_at_bit by lia.
Qed.

(** The three ways in which [forward_pair] sends a page all have the effect of the
    page; [m1] is the memory without the touched bit. *)
Lemma effect_of m s m1 xs : touched m s = true → all_go_on xs →
  (∀ a, ¬ (s ≤ a < s + PAGE_SIZE) → rd m1 a = rd m a) →
  (∀ k, 0 ≤ k < PAGE_SIZE → Z.testbit (rd m1 (s + k)) 1 = Z.testbit (rd m (s + k)) 1) →
  (∀ r a, rd (foldl apply_msg r xs) a =
     if decide (GET_ORIGINAL_OF s ≤ a < GET_ORIGINAL_OF s + PAGE_SIZE)
     then if Z.testbit (rd m1 (s + (a - GET_ORIGINAL_OF s))) 1 then rd m1 a else rd r a else rd r a) →
  page_effect m s xs.
Proof.
  intros Ht Hg Ho Hb He. split; [done|]. intros r a. rewrite He. destruct (decide (written m s a)) as [Hw|Hw].
  - destruct Hw as (Ha & _ & Hw). rewrite decide_True by done. rewrite Hb by lia. rewrite Hw.
    by rewrite Ho by (by apply original_far).
  - destruct (decide _) as [Ha|]; [|done]. rewrite Hb by lia. destruct (Z.testbit _ 1) eqn:E; [|done].
    destruct Hw. split; [done|]. split; [done|exact E].
Qed.

Lemma no_effect m s : (∀ k, 0 ≤ k < PAGE_SIZE → touched m s = true → Z.testbit (rd m (s + k)) 1 = false) → page_effect m s [].
Proof.
  intros H. split; [constructor|]. intros r a. simpl. rewrite decide_False; [done|].
  intros (Ha & Ht & Hb). rewrite H in Hb; [done|lia|done].
Qed.

(** What the page loop body leaves of the memory. *)
Record page_done (ro : Z) (m m' : mem) (s : Z) : Prop := {
  pg_zero a : touched m s = true → s ≤ a < s + PAGE_SIZE → rd m' a = 0;
  pg_keep a : ¬ (s ≤ a < s + PAGE_SIZE ∧ touched m s = true) → ¬ (ro ≤ a < ro + PAGE_SIZE) → rd m' a = rd m a }.

Lemma forward_ro_page_run w wid iter b :
  let cs := targets (e_strategy (w_env w)) wid iter in
  sender w wid → room_for (w_sh w) wid cs b 1 → 0 ≤ b →
  ∃ w' m' xs, forward_ro_page wid iter w = Ok tt w' ∧ w_env w' = w_env w ∧ w_p w' = set_p_mem m' (w_p w) ∧
    sent (w_sh w) (w_sh w') wid cs 1 xs ∧ (xs = [] ∨ xs = [MReadOnly]) ∧
    ∀ a, ¬ (e_ro_page_buffer (w_env w) ≤ a < e_ro_page_buffer (w_env w) + PAGE_SIZE) → rd m' a = rd (p_mem (w_p w)) a.
Proof.
  intros cs Hs R Hb. pose proof (lenZ_nonneg cs) as Hc0. unfold forward_ro_page. unfold bind at 1, getp, gets.
  destruct (ro_page_index (w_p w) =? 0); cbn [negb when].
  { exists w, (p_mem (w_p w)), []. split; [done|]. split; [done|]. split; [by rewrite set_p_mem_id|].
    split; [eapply sent_le; [apply sent_nil, (rm_pool _ _ _ _ _ R)|lia]|]. split; [by left|done]. }
  unfold bind at 1, gete, gets.
  destruct (forward_page_posted w wid iter (e_ro_page_buffer (w_env w)) CHECK_RO_PAGE Hs) as (w1 & E & P & V & D & _).
  { fold cs. unfold room_for in R. eapply room_le; [exact R|nia|lia]. }
  unfold bind. rewrite E. eexists _, _, [MReadOnly]. split; [reflexivity|]. split; [exact V|].
  split; [simpl; by rewrite P|]. split.
  - exists 1, [page_packet w wid (e_ro_page_buffer (w_env w)) CHECK_RO_PAGE]. split; [exact D|]. split; [|done].
    constructor. constructor.
  - split; [by right|]. intros a Ha. rewrite rd_memset by done. rewrite decide_False; [done|]. exact Ha.
Qed.

(** A page that was only read is entered in the list; a full list is sent first. *)
Lemma buffer_ro_page_run wid iter page w b :
  let cs := targets (e_strategy (w_env w)) wid iter in
  sender w wid → room_for (w_sh w) wid cs b 1 → 0 ≤ b → 0 ≤ ro_page_index (w_p w) ≤ RO_ENTRY_BUFFER_SIZE →
  ∃ w' m' idx xs, buffer_ro_page wid iter page w = Ok tt w' ∧ w_env w' = w_env w ∧
    w_p w' = set_ro_page_index idx (set_p_mem m' (w_p w)) ∧ 0 ≤ idx ≤ RO_ENTRY_BUFFER_SIZE ∧
    sent (w_sh w) (w_sh w') wid cs 1 xs ∧ (xs = [] ∨ xs = [MReadOnly]) ∧
    ∀ a, ¬ (e_ro_page_buffer (w_env w) ≤ a < e_ro_page_buffer (w_env w) + PAGE_SIZE) → rd m' a = rd (p_mem (w_p w)) a.
Proof.
  intros cs Hs R Hb Hro. set (buf := e_ro_page_buffer (w_env w)). assert (RO_ENTRY_BUFFER_SIZE = 512) as Hsz by done.
  assert (∀ v, 0 ≤ ro_page_index (w_p v) < 512 → w_env v = w_env w →
    ∃ m', (let! data := gete e_ro_page_buffer in let! index := getp ro_page_index in
           modmem (λ m, store 8 m (data + 8 * index) page) ;;;
           modp (λ p, set_ro_page_index (u32 (ro_page_index p + 1)) p)) v =
        Ok tt (set_p (set_ro_page_index (ro_page_index (w_p v) + 1) (set_p_mem m' (w_p v))) v) ∧
      ∀ a, ¬ (buf ≤ a < buf + PAGE_SIZE) → rd m' a = rd (p_mem (w_p v)) a) as Hstore.
  { intros v Hv He. eexists. split.
    - run_w. rewrite (wrap_small 32) by lia. reflexivity.
    - intros a Ha. rewrite rd_store, He. fold buf. rewrite decide_False; [done|]. unfold PAGE_SIZE in Ha. lia. }
  unfold buffer_ro_page. unfold bind at 1, getp, gets. rewrite Hsz.
  destruct (Z.eqb_spec (ro_page_index (w_p w)) 512) as [E|E]; cbn [when].
  - destruct (forward_ro_page_run w wid iter b Hs R Hb) as (w1 & m1 & xs & E1 & V1 & P1 & S1 & X1 & K1).
    set (w2 := set_p (set_ro_page_index 0 (w_p w1)) w1).
    destruct (Hstore w2 ltac:(simpl; lia) V1) as (m' & E2 & K2).
    eexists _, m', 1, xs. split.
    { rewrite bind_bind. unfold bind at 1. rewrite E1. unfold bind at 1, modp at 1, modify at 1. exact E2. }
    split; [exact V1|]. split; [simpl; by rewrite P1|]. split; [lia|]. split; [exact S1|]. split; [exact X1|].
    intros a Ha. rewrite K2 by done. simpl. rewrite P1. simpl. by apply K1.
  - destruct (Hstore w ltac:(lia) eq_refl) as (m' & E2 & K2).
    eexists _, m', (ro_page_index (w_p w) + 1), []. split; [unfold bind at 1, ret at 1; exact E2|].
    split; [done|]. split; [done|]. split; [lia|].
    split; [eapply sent_le; [apply sent_nil, (rm_pool _ _ _ _ _ R)|lia]|]. split; [by left|exact K2].
Qed.

Lemma page_words_go m addr shadow check : all_go_on (page_words m addr shadow check).
Proof.
  apply Forall_forall. unfold page_words. intros x (i & Hx & _)%list_elem_of_bind. unfold word_msgs in Hx.
  destruct (_ =? 0); [by apply elem_of_nil in Hx|]. by apply list_elem_of_singleton in Hx as ->.
Qed.

Lemma set_ro_id p m : set_ro_page_index (ro_page_index p) (set_p_mem m p) = set_p_mem m p.
Proof. by destruct p. Qed.

(** What is left after sending: another index in the list of read-only pages, and
    memory [m']. *)
Definition after_page (w w' : world) (m' : mem) : Prop :=
  w_env w' = w_env w ∧ ∃ idx, w_p w' = set_ro_page_index idx (set_p_mem m' (w_p w)) ∧ 0 ≤ idx ≤ RO_ENTRY_BUFFER_SIZE.

(** How many marked words [clear_read] reports. *)
Definition marked (m : mem) (s : Z) : Z := if forallb (word_ro m s) (seqZ 0 512) then 0 else count_nz m s 512.

(** The first part of [forward_pair]. *)
Lemma send_page_run w wid iter s b :
  let m := p_mem (w_p w) in
  let addr := GET_ORIGINAL_OF s in
  let cs := targets (e_strategy (w_env w)) wid iter in
  sender w wid → 0 ≤ ro_page_index (w_p w) ≤ RO_ENTRY_BUFFER_SIZE → room_for (w_sh w) wid cs b 16 → 0 ≤ b →
  ∃ w' xs m', (if 8 <? marked m s then
       forward_page wid iter addr CHECK_REQUIRED ;;; forward_page wid iter s CHECK_REQUIRED ;;; ret tt
     else if negb (marked m s =? 0) then
       for_ (strided (PAGE_SIZE / 8) 8) (forward_word wid iter addr s CHECK_REQUIRED)
     else buffer_ro_page wid iter addr) w = Ok tt w' ∧
    after_page w w' m' ∧ sent (w_sh w) (w_sh w') wid cs 16 xs ∧ all_go_on xs ∧
    (∀ r a, rd (foldl apply_msg r xs) a =
      if decide (addr ≤ a < addr + PAGE_SIZE) then if Z.testbit (rd m (s + (a - addr))) 1 then rd m a else rd r a else rd r a) ∧
    (∀ a, ¬ (e_ro_page_buffer (w_env w) ≤ a < e_ro_page_buffer (w_env w) + PAGE_SIZE) → rd m' a = rd m a).
Proof.
  intros m addr cs Hs Hro R Hb. pose proof (lenZ_nonneg cs) as Hc0.
  assert (∀ w', w_p w' = w_p w → w_env w' = w_env w → after_page w w' m) as Hsame.
  { intros w' Hp He. split; [done|]. exists (ro_page_index (w_p w)). split; [|lia].
    rewrite set_ro_id. unfold m. by rewrite set_p_mem_id. }
  destruct (Z.ltb_spec 8 (marked m s)) as [Hbig|Hsmall].
  - destruct (forward_page_pair w wid iter addr s CHECK_REQUIRED Hs ltac:(done)) as (w' & data & meta & E & P & V & S & C1 & C2).
    { fold cs. unfold room_for in *. eapply room_le; [exact R|nia|lia]. }
    exists w', [MPage addr data meta CHECK_REQUIRED], m. split; [exact E|]. split; [by apply Hsame|].
    split; [eapply sent_le; [exact S|lia]|]. split; [by repeat constructor|]. split; [|done].
    intros r a. cbn [foldl apply_msg]. rewrite update_page_merged. unfold merged.
    destruct (decide _); [|done]. rewrite C1, C2 by lia. by replace (addr + (a - addr)) with a by lia.
  - unfold marked in *. destruct (forallb (word_ro m s) (seqZ 0 512)) eqn:Ero.
    + cbn [Z.eqb negb]. destruct (buffer_ro_page_run wid iter addr w b Hs) as (w' & m' & idx & xs & E & V & P & Hi & S & X & Hm');
        [unfold room_for in *; eapply room_le; [exact R|fold cs; nia|lia]|done|done|].
      exists w', xs, m'. split; [exact E|]. split; [split; [exact V|]; by exists idx|].
      split; [eapply sent_le; [exact S|lia]|].
      assert (all_go_on xs ∧ ∀ r, foldl apply_msg r xs = r) as [Hgo Hid]
        by (destruct X as [->| ->]; (split; [by repeat constructor|done])).
      split; [done|]. split; [|exact Hm'].
      intros r a. rewrite Hid. destruct (decide _); [|done]. by rewrite (read_only_page m s Ero) by lia.
    + pose proof (count_nz_bound m s 512 ltac:(lia)) as Hcb.
      destruct (Z.eqb_spec (count_nz m s 512) 0) as [E0|E0]; cbn [negb].
      * exfalso. apply not_true_iff_false in Ero. apply Ero. apply forallb_forall. intros k Hk.
        unfold word_ro. unfold count_nz in E0. apply (f_equal Z.to_nat) in E0. rewrite Nat2Z.id in E0.
        apply nil_length_inv in E0. apply Z.eqb_eq. destruct (load 8 m (s + 8 * k) =? 0) eqn:El.
        { apply Z.eqb_eq in El. by rewrite El, Z.land_0_l. }
        exfalso. apply (not_elem_of_nil k). rewrite <-E0. apply list_elem_of_filter.
        split; [unfold word_nz; by rewrite El|by apply list_elem_of_In].
      * pose proof (words_count m addr s CHECK_REQUIRED 512 ltac:(lia)) as Hwc.
        destruct (forward_words_run wid iter addr s CHECK_REQUIRED m (strided (PAGE_SIZE / 8) 8) ltac:(done) w eq_refl Hs)
          as (w' & E & P & V & S).
        { fold cs. change (PAGE_SIZE / 8) with 512. rewrite Hwc. unfold room_for in *.
          eapply room_le; [exact R|nia|lia]. }
        exists w', (page_words m addr s CHECK_REQUIRED), m. split; [exact E|]. split; [by apply Hsame|].
        split; [eapply sent_le; [exact S|change (PAGE_SIZE / 8) with 512; rewrite Hwc; lia]|].
        split; [apply page_words_go|]. split; [|done]. intros r a. apply apply_words.
Qed.

Lemma marked_eq m m' s : mem_eq m m' → marked m s = marked m' s.
Proof.
  intros H. unfold marked.
  assert (∀ k, load 8 m (s + 8 * k) = load 8 m' (s + 8 * k)) as Hl by (intros; by apply load_proper).
  assert (forallb (word_ro m s) (seqZ 0 512) = forallb (word_ro m' s) (seqZ 0 512)) as ->.
  { induction (seqZ 0 512) as [|k l IH]; [done|]. cbn [forallb]. rewrite IH. unfold word_ro. by rewrite Hl. }
  destruct (forallb _ _); [done|]. unfold count_nz. f_equal. f_equal.
  apply list_filter_iff. intros k. unfold word_nz. by rewrite Hl.
Qed.

Lemma after_page_ctl w w' m' : after_page w w' m' → p_ctl (w_p w') = p_ctl (w_p w) ∧ p_mem (w_p w') = m'.
Proof. intros (_ & idx & -> & _). done. Qed.

Lemma if_touched_run s k w : if_touched s k w =
  if touched (p_mem (w_p w)) s then k (with_mem (wr (p_mem (w_p w)) s (Z.land (rd (p_mem (w_p w)) s) 0x7f)) w) else Ok tt w.
Proof. unfold if_touched. unfold bind at 1, getp, gets. rewrite touched_land. by destruct (touched _ s). Qed.

Lemma run_clear_read_run s w : ∃ m2, run_clear_read s w = Ok (marked m2 s) (with_mem m2 w) ∧ mem_eq m2 (p_mem (w_p w)).
Proof.
  destruct (clear_read_spec (p_mem (w_p w)) s) as [Hm2 Hnz]. exists (clear_read (p_mem (w_p w)) s).2. split; [|done].
  rewrite (marked_eq _ _ s Hm2). unfold marked. rewrite <-Hnz. done.
Qed.

Lemma forward_pair_run w wid iter s b :
  let m := p_mem (w_p w) in
  let addr := GET_ORIGINAL_OF s in
  let cs := targets (e_strategy (w_env w)) wid iter in
  sender w wid → 0 ≤ ro_page_index (w_p w) ≤ RO_ENTRY_BUFFER_SIZE → room_for (w_sh w) wid cs b 16 → 0 ≤ b →
  ∃ w' xs m', forward_pair (marked m s) wid iter addr s CHECK_REQUIRED w = Ok tt w' ∧
    after_page w w' (set_zero_page m' s) ∧ sent (w_sh w) (w_sh w') wid cs 16 xs ∧ all_go_on xs ∧
    (∀ r a, rd (foldl apply_msg r xs) a =
      if decide (addr ≤ a < addr + PAGE_SIZE) then if Z.testbit (rd m (s + (a - addr))) 1 then rd m a else rd r a else rd r a) ∧
    (∀ a, ¬ (e_ro_page_buffer (w_env w) ≤ a < e_ro_page_buffer (w_env w) + PAGE_SIZE) → rd m' a = rd m a).
Proof.
  intros m addr cs Hs Hro R Hb.
  destruct (send_page_run w wid iter s b Hs Hro R Hb) as (w3 & xs & m3 & E & (Ae & idx & Ap & Ai) & S & Hgo & Heff & Hm3).
  exists (with_mem (set_zero_page m3 s) w3), xs, m3. split.
  - unfold forward_pair. unfold bind at 1. fold m addr in E. rewrite E. unfold modmem, modp, modify, with_mem. by rewrite Ap.
  - split; [|done]. split; [exact Ae|]. exists idx. split; [|exact Ai]. unfold with_mem. simpl. by rewrite Ap.
Qed.

Lemma after_page_mem w m1 w' m' : after_page (with_mem m1 w) w' m' → after_page w w' m'.
Proof. intros (Ae & idx & Ap & Ai). split; [exact Ae|]. exists idx. split; [exact Ap|exact Ai]. Qed.

Lemma after_page_same w m : 0 ≤ ro_page_index (w_p w) ≤ RO_ENTRY_BUFFER_SIZE → after_page w (with_mem m w) m.
Proof.
  intros H. split; [done|]. exists (ro_page_index (w_p w)). split; [|lia]. unfold with_mem. simpl. by rewrite set_ro_id.
Qed.

Lemma with_mem_id w : with_mem (p_mem (w_p w)) w = w.
Proof. unfold with_mem. rewrite set_p_mem_id. by destruct w. Qed.

(** A touched page takes at most 16 packets, the others none. *)
Definition page_packets (m : mem) (s : Z) : Z := if touched m s then 16 else 0.

Lemma end_page_run w wid iter s b :
  let m := p_mem (w_p w) in
  let cs := targets (e_strategy (w_env w)) wid iter in
  sender w wid → 0 ≤ ro_page_index (w_p w) ≤ RO_ENTRY_BUFFER_SIZE → room_for (w_sh w) wid cs b (page_packets m s) → 0 ≤ b →
  ∃ w' xs m', end_page wid iter s w = Ok tt w' ∧ after_page w w' m' ∧
    sent (w_sh w) (w_sh w') wid cs (page_packets m s) xs ∧
    page_effect m s xs ∧ page_done (e_ro_page_buffer (w_env w)) m m' s.
Proof.
  intros m cs Hs Hro R Hb. unfold end_page. rewrite if_touched_run. fold m. unfold page_packets in *.
  destruct (touched m s) eqn:Ht.
  2:{ exists w, [], m. split; [done|]. split; [rewrite <-(with_mem_id w) at 2; by apply after_page_same|].
      split; [apply sent_nil, (rm_pool _ _ _ _ _ R)|].
      split; [apply no_effect; congruence|]. split; [congruence|done]. }
  set (m1 := wr m s _).
  assert (∀ a, ¬ (s ≤ a < s + PAGE_SIZE) → rd m1 a = rd m a) as Hout.
  { intros a Ha. unfold m1. apply rd_wr_ne. unfold PAGE_SIZE in Ha. lia. }
  assert (∀ k, 0 ≤ k < PAGE_SIZE → Z.testbit (rd m1 (s + k)) 1 = Z.testbit (rd m (s + k)) 1) as Hbit
    by (intros k Hk; apply clear_touched; lia).
  clearbody m1. unfold bind at 1, getp, gets. change (p_mem (w_p (with_mem m1 w))) with m1.
  destruct (is_zero_page m1 s) eqn:Ez.
  { pose proof (proj1 (is_zero_page_spec m1 s) Ez) as Hz. exists (with_mem m1 w), [], m1.
    split; [done|]. split; [by apply after_page_same|]. split; [eapply sent_le; [apply sent_nil, (rm_pool _ _ _ _ _ R)|lia]|].
    split; [apply no_effect; intros k Hk _; by rewrite <-Hbit, Hz by done|]. split.
    - intros a _ Ha. specialize (Hz (a - s) ltac:(lia)). by replace (s + (a - s)) with a in Hz by lia.
    - intros a Ha _. apply Hout. intros H. by apply Ha. }
  destruct (run_clear_read_run s (with_mem m1 w)) as (m2 & E2 & Hm2). unfold bind. rewrite E2.
  change (p_mem (w_p (with_mem m1 w))) with m1 in Hm2.
  destruct (forward_pair_run (with_mem m2 (with_mem m1 w)) wid iter s b) as (w3 & xs & m3 & E & A & S & Hgo & Heff & Hm3);
    [by eapply sender_frame|done|done|done|].
  change (p_mem (w_p (with_mem m2 (with_mem m1 w)))) with m2 in E, Heff, Hm3.
  exists w3, xs, (set_zero_page m3 s). split; [exact E|]. split; [by do 2 eapply after_page_mem|]. split; [exact S|]. split.
  - apply (effect_of m s m2 xs Ht Hgo); [| |exact Heff].
    + intros a Ha. rewrite Hm2. by apply Hout.
    + intros k Hk. rewrite Hm2. by apply Hbit.
  - split.
    + intros a _ Ha. by rewrite rd_set_zero_page, decide_True.
    + intros a Ha Hr. rewrite rd_set_zero_page. destruct (decide _) as [H|H]; [by destruct Ha|].
      rewrite Hm3 by done. rewrite Hm2. by apply Hout.
Qed.

(** ** All pages of an iteration *)

Definition in_page (p a : Z) : Prop := p ≤ a < p + PAGE_SIZE.
(** [a] is in the page with metadata [s], or one of its metadata. *)
Definition near (s a : Z) : Prop := in_page s a ∨ in_page (GET_ORIGINAL_OF s) a.

(** The metadata pages [l] of an iteration: different pages, none of them the data
    of another one, and apart from the runtime's own buffers. *)
Record pages_ok (own : Z → Prop) (l : list Z) : Prop := {
  po_NoDup : NoDup l;
  po_aligned s : s ∈ l → s mod PAGE_SIZE = 0;
  po_shadow s t : s ∈ l → t ∈ l → GET_ORIGINAL_OF s ≠ t;
  po_own s a : s ∈ l → near s a → ¬ own a }.

Lemma aligned_page p q a : p mod PAGE_SIZE = 0 → q mod PAGE_SIZE = 0 → in_page p a → in_page q a → p = q.
Proof. unfold in_page. change PAGE_SIZE with 4096. intros. Z.to_euclidean_division_equations. lia. Qed.

Lemma original_aligned s : s mod PAGE_SIZE = 0 → GET_ORIGINAL_OF s mod PAGE_SIZE = 0.
Proof.
  change (GET_ORIGINAL_OF s) with (GET_SHADOW_OF s). change PAGE_SIZE with 4096. intros H.
  destruct (shadow_dist s) as [-> | ->]; Z.to_euclidean_division_equations; lia.
Qed.

Lemma pages_ok_near own l s t a : pages_ok own l → s ∈ l → t ∈ l → s ≠ t → in_page s a → ¬ near t a.
Proof.
  intros H Hs Ht Hne Ha [Hb|Hb].
  - apply Hne. eapply aligned_page; [by eapply po_aligned|by eapply po_aligned|done|done].
  - apply (po_shadow _ _ H t s Ht Hs). eapply aligned_page; [|by eapply po_aligned|done|done].
    apply original_aligned. by eapply po_aligned.
Qed.

Lemma pages_ok_original own l s t a : pages_ok own l → s ∈ l → t ∈ l → in_page (GET_ORIGINAL_OF s) a →
  in_page (GET_ORIGINAL_OF t) a → s = t.
Proof.
  intros H Hs Ht Ha Hb. apply shadow_injective. change GET_SHADOW_OF with GET_ORIGINAL_OF.
  eapply aligned_page; [| |done|done]; apply original_aligned; by eapply po_aligned.
Qed.

Lemma pages_ok_cons own s l : pages_ok own (s :: l) → pages_ok own l ∧ s ∉ l.
Proof.
  intros [[Hs Hnd]%NoDup_cons H2 H3 H4]. split; [|done].
  split; [done|intros t Ht; apply H2|intros t u Ht Hu; apply H3|intros t a Ht; apply H4]; apply elem_of_cons; by right.
Qed.

(** The receivers of [xs] take over the bytes that were written in some page of
    [l], and no others. *)
Definition pages_effect (m : mem) (l : list Z) (xs : list msg) : Prop :=
  all_go_on xs ∧ ∀ r a,
    (∀ s, s ∈ l → written m s a → rd (foldl apply_msg r xs) a = rd m a) ∧
    ((∀ s, s ∈ l → ¬ written m s a) → rd (foldl apply_msg r xs) a = rd r a).

Lemma written_near m m1 s a : (∀ a, near s a → rd m1 a = rd m a) → written m1 s a ↔ written m s a.
Proof.
  intros H. unfold written, touched.
  assert (rd m1 s = rd m s) as -> by (apply H; left; unfold in_page, PAGE_SIZE; lia).
  split; intros (Ha & Ht & Hb); (split; [done|]; split; [done|]).
  - rewrite <-H; [done|]. left. unfold in_page. lia.
  - rewrite H; [done|]. left. unfold in_page. lia.
Qed.

Lemma pages_effect_cons own m m1 s l xs ys : pages_ok own (s :: l) →
  (∀ t a, t ∈ l → near t a → rd m1 a = rd m a) →
  page_effect m s xs → pages_effect m1 l ys → pages_effect m (s :: l) (xs ++ ys).
Proof.
  intros Hok Hm [G1 E1] [G2 E2]. split; [by apply Forall_app|]. intros r a. rewrite foldl_app.
  assert (s ∈ s :: l) as Hsl by (apply elem_of_cons; by left).
  assert (∀ t, t ∈ l → t ∈ s :: l) as Hin by (intros; apply elem_of_cons; by right).
  assert (∀ t, t ∈ l → written m1 t a ↔ written m t a) as Hw by (intros t Ht; apply written_near; intros; by eapply Hm).
  destruct (E2 (foldl apply_msg r xs) a) as [F1 F2]. split.
  - intros t [->|Ht]%elem_of_cons Hwr.
    + rewrite F2; [by rewrite E1, decide_True|]. intros t Ht Hwt%Hw; [|done].
      pose proof (pages_ok_original _ _ s t a Hok Hsl (Hin t Ht) (proj1 Hwr) (proj1 Hwt)) as ->.
      by apply pages_ok_cons in Hok as [_ ?].
    + rewrite (F1 t Ht) by (by apply Hw). apply (Hm t); [done|]. right. apply Hwr.
  - intros Hno. rewrite F2 by (intros t Ht Hwt%Hw; [by apply (Hno t (Hin t Ht))|done]).
    rewrite E1, decide_False; [done|]. by apply Hno.
Qed.

(** After the loop: the metadata of touched pages are cleared. *)
Definition pages_done (own : Z → Prop) (m m' : mem) (l : list Z) : Prop :=
  (∀ s a, s ∈ l → touched m s = true → in_page s a → rd m' a = 0) ∧
  (∀ a, (∀ s, s ∈ l → ¬ in_page s a) → ¬ own a → rd m' a = rd m a).

Definition after_pages (w w' : world) : Prop := after_page w w' (p_mem (w_p w')).

(** At most so many packets are sent for the pages [l]. *)
Definition packets (m : mem) (l : list Z) : Z := foldr (λ s n, page_packets m s + n) 0 l.

Lemma page_packets_range m s : 0 ≤ page_packets m s ≤ 16.
Proof. unfold page_packets. destruct (touched m s); lia. Qed.

Lemma packets_nonneg m l : 0 ≤ packets m l.
Proof. induction l as [|s l IH]; simpl; [lia|]. pose proof (page_packets_range m s). lia. Qed.

Lemma packets_app m l1 l2 : packets m (l1 ++ l2) = packets m l1 + packets m l2.
Proof. induction l1 as [|s l IH]; simpl; lia. Qed.

Lemma packets_touched m m' l : (∀ s, s ∈ l → touched m' s = touched m s) → packets m' l = packets m l.
Proof.
  induction l as [|s l IH]; intros H; simpl; [done|]. rewrite IH by (intros t Ht; apply H, elem_of_cons; by right).
  unfold page_packets. by rewrite H by (apply elem_of_cons; by left).
Qed.

Lemma pages_run wid iter b l : 0 ≤ b → ∀ w,
  let cs := targets (e_strategy (w_env w)) wid iter in
  sender w wid → 0 ≤ ro_page_index (w_p w) ≤ RO_ENTRY_BUFFER_SIZE →
  room_for (w_sh w) wid cs b (packets (p_mem (w_p w)) l) → pages_ok (in_page (e_ro_page_buffer (w_env w))) l →
  ∃ w' xs, for_ l (end_page wid iter) w = Ok tt w' ∧ after_pages w w' ∧
    sent (w_sh w) (w_sh w') wid cs (packets (p_mem (w_p w)) l) xs ∧ pages_effect (p_mem (w_p w)) l xs ∧
    pages_done (in_page (e_ro_page_buffer (w_env w))) (p_mem (w_p w)) (p_mem (w_p w')) l.
Proof.
  intros Hb. induction l as [|s l IH]; intros w cs Hs Hro R Hok.
  { exists w, []. split; [done|]. split.
    { split; [done|]. exists (ro_page_index (w_p w)). split; [|done]. by rewrite set_ro_id, set_p_mem_id. }
    split; [apply sent_nil, (rm_pool _ _ _ _ _ R)|]. split; [split; [constructor|]|].
    - intros r a. split; [|done]. by intros s ?%elem_of_nil.
    - split; [by intros s a ?%elem_of_nil|done]. }
  cbn [packets foldr] in *. fold (packets (p_mem (w_p w)) l) in *. set (n := page_packets (p_mem (w_p w)) s) in *.
  pose proof (packets_nonneg (p_mem (w_p w)) l) as Hl0. pose proof (page_packets_range (p_mem (w_p w)) s) as Hn. fold n in Hn.
  pose proof (lenZ_nonneg cs) as Hc0. pose proof (pages_ok_cons _ _ _ Hok) as [Hok1 Hsn].
  assert (s ∈ s :: l) as Hsl by (apply elem_of_cons; by left).
  assert (∀ t, t ∈ l → t ∈ s :: l) as Hin by (intros; apply elem_of_cons; by right).
  destruct (end_page_run w wid iter s b Hs Hro) as (w1 & xs & m1 & E1 & A1 & S1 & F1 & [Z1 K1]);
    [unfold room_for in *; eapply room_le; [exact R|fold cs n; nia|fold n; lia]|done|]. fold cs n in S1.
  pose proof (after_page_ctl _ _ _ A1) as [Hctl Hmem]. destruct A1 as (V1 & idx & P1 & I1).
  assert (ro_page_index (w_p w1) = idx) as Hidx by (by rewrite P1).
  assert (∀ a t, t ∈ l → in_page s a → ¬ near t a) as Hfar.
  { intros a t Ht Ha. apply (pages_ok_near _ _ s t a Hok); [done|by apply Hin|congruence|done]. }
  assert (∀ t a, t ∈ l → near t a → rd m1 a = rd (p_mem (w_p w)) a) as Hm1.
  { intros t a Ht Hn'. apply K1; [intros [Ha _]; by apply (Hfar a t)|]. by apply (po_own _ _ Hok t a); [apply Hin|]. }
  assert (∀ t, t ∈ l → touched m1 t = touched (p_mem (w_p w)) t) as Ht1.
  { intros t Ht. unfold touched. rewrite (Hm1 t t); [done|done|]. left. unfold in_page, PAGE_SIZE. lia. }
  pose proof (packets_touched _ _ _ Ht1) as Hp1.
  destruct (IH w1) as (w2 & ys & E2 & (V2 & idx2 & P2 & I2) & S2 & F2 & [Z2 K2]).
  - by eapply sender_frame.
  - lia.
  - rewrite V1, Hmem, Hp1. fold cs. replace (packets _ l) with (n + packets (p_mem (w_p w)) l - n) by lia.
    eapply sent_room; [exact S1|exact R|lia|lia].
  - by rewrite V1.
  - rewrite V1, Hmem in *. rewrite Hp1 in S2. fold cs in S2. exists w2, (xs ++ ys). cbn [for_]. unfold bind. rewrite E1.
    split; [exact E2|]. split.
    { split; [congruence|]. exists idx2. rewrite P2 at 1. rewrite P1. done. }
    split; [by eapply sent_trans|]. split; [by eapply pages_effect_cons|]. split.
    + intros t a [->|Ht]%elem_of_cons Htt Ha.
      * rewrite K2; [by apply Z1| |]; [intros t Ht Hta; apply (Hfar a t Ht Ha); by left|].
        apply (po_own _ _ Hok s a Hsl). by left.
      * apply (Z2 t a Ht); [by rewrite Ht1|done].
    + intros a Ha Hown. rewrite K2, K1; [done| |done| |done].
      * intros [Ha' _]. by apply (Ha s Hsl).
      * intros t Ht. apply Ha. by apply Hin.
Qed.

(** ** The whole end of an iteration *)

(** Without allocations to report, [flush_ver_mallocs] only clears the buffer. *)
Definition malloc_buffer (w : world) (wid a : Z) : Prop :=
  buf_elem (e_ver_malloc_buffer (w_env w)) wid ≤ a < buf_elem (e_ver_malloc_buffer (w_env w)) wid + SIZEOF_VerMallocBuffer.

Lemma broadcast_no_chunk wid addr w : broadcast_malloc_chunk wid addr (u32 (0 * SIZEOF_VerMallocInstance)) w = Ok tt w.
Proof. unfold broadcast_malloc_chunk. unfold bind, ctl, getp, gets. by destruct (_ <=? _). Qed.

Lemma modmem_run f w : modmem f w = Ok tt (with_mem (f (p_mem (w_p w))) w).
Proof. done. Qed.

(** The buffer after it was reset; kept folded, it is 64 kB long. *)
Definition reset_buffer (m : mem) (base wid : Z) : mem :=
  store 8 (memset m (buf_elem base wid) 0 (SIZEOF_VerMallocInstance * PAGE_SIZE)) (buf_index base wid) 0.

Lemma rd_reset_buffer m base wid a : ¬ (buf_elem base wid ≤ a < buf_elem base wid + SIZEOF_VerMallocBuffer) →
  rd (reset_buffer m base wid) a = rd m a.
Proof.
  intros Ha. assert (SIZEOF_VerMallocBuffer = 65544) as E1 by done.
  assert (SIZEOF_VerMallocInstance * PAGE_SIZE = 65536) as E2 by done.
  assert (PAGE_SIZE * SIZEOF_VerMallocInstance = 65536) as E3 by done.
  unfold reset_buffer. rewrite rd_store, decide_False by (unfold buf_index; lia).
  rewrite E2, rd_memset, decide_False by lia. done.
Qed.

Lemma flush_empty w wid :
  load 8 (p_mem (w_p w)) (buf_index (e_ver_malloc_buffer (w_env w)) wid) = 0 →
  flush_ver_mallocs wid w = Ok tt (with_mem (reset_buffer (p_mem (w_p w)) (e_ver_malloc_buffer (w_env w)) wid) w).
Proof.
  intros H0. unfold flush_ver_mallocs. unfold bind at 1, gete, gets. unfold bind at 1, getp, gets. rewrite H0.
  unfold bind. rewrite broadcast_no_chunk, modmem_run. cbv beta iota. unfold reset_buffer.
  generalize (memset (p_mem (w_p w)) (buf_elem (e_ver_malloc_buffer (w_env w)) wid) 0 (SIZEOF_VerMallocInstance * PAGE_SIZE)).
  intros m1. reflexivity.
Qed.

Lemma pages_effect_agree m m1 l xs : (∀ t a, t ∈ l → near t a → rd m1 a = rd m a) →
  pages_effect m1 l xs → pages_effect m l xs.
Proof.
  intros Hm [G E]. split; [done|]. intros r a. destruct (E r a) as [E1 E2].
  assert (∀ t, t ∈ l → written m1 t a ↔ written m t a) as Hw by (intros t Ht; apply written_near; intros; by eapply Hm).
  split.
  - intros s Hs Hwr. rewrite (E1 s Hs) by (by apply Hw). apply (Hm s); [done|]. right. apply Hwr.
  - intros Hno. apply E2. intros s Hs Hwr%Hw; [|done]. by apply (Hno s).
Qed.

Lemma pages_effect_ro m l xs ys : ys = [] ∨ ys = [MReadOnly] → pages_effect m l xs → pages_effect m l (xs ++ ys).
Proof.
  intros Hy [G E]. assert (all_go_on ys ∧ ∀ r, foldl apply_msg r ys = r) as [Gy Ey]
    by (destruct Hy as [->| ->]; (split; [by repeat constructor|done])).
  split; [by apply Forall_app|]. intros r a. rewrite foldl_app, Ey. apply E.
Qed.

Lemma targets_broadcast g n wid iter : strategy_ok g n → 0 ≤ wid < n →
  ∀ c, c ∈ targets g wid iter → c ∈ broadcast_targets g 1 wid.
Proof.
  intros Hst Hw c Hc. pose proof (ok_stage _ _ Hst _ Hw) as Hs. unfold targets, forward_targets, broadcast_targets in *.
  apply elem_of_app. apply elem_of_app in Hc as [Hc|Hc].
  - left. apply list_elem_of_fmap in Hc as (i & -> & Hi). apply list_elem_of_bind. exists i. split; [|done].
    apply elem_of_later_stages in Hi. apply list_elem_of_fmap. eexists. split; [reflexivity|]. apply elem_of_seqZ.
    unfold wid_of_iter. pose proof (ok_rep _ _ Hst i ltac:(unfold GET_NUM_STAGES in Hi; lia)) as Hr.
    pose proof (Z.mod_pos_bound (u32 iter) (GET_REPLICATION_FACTOR g i) ltac:(lia)). lia.
  - right. apply list_elem_of_singleton in Hc as ->. apply list_elem_of_fmap. exists 0. split; [|by apply elem_of_seqZ].
    unfold target_try_commit. by rewrite Z.mod_1_r.
Qed.
