(* ===== verification/Iteration.v ===== *)
(** What the receivers get of an iteration: [end_iter] of a worker that ran it. *)
From S2P Require Import Prelude Machine Shadow Strategy Pages SwQueue Packet State Communicate Malloc Separation Speculation Protection Prediction Units Messages TryCommit Validate Control LoopEvent Forward Posted EndIter.
From stdpp Require Import strings.
#[local] Open Scope Z_scope.

(** ** Metadata of predicted locations *)

(** The metadata of the registered locations. *)
Definition predicted_mark (s : shared) (a : Z) : Prop :=
  (∃ x e, loop_invariant_buffer s !! x = Some e ∧ li_ptr e ≠ 0 ∧
     GET_SHADOW_OF (li_ptr e) ≤ a < GET_SHADOW_OF (li_ptr e) + li_size e) ∨
  (∃ x e, linear_predictors s !! x = Some e ∧ lp_ptr e ≠ 0 ∧
     GET_SHADOW_OF (lp_ptr e) ≤ a < GET_SHADOW_OF (lp_ptr e) + lp_size e).

(** [m'] is [m] but for the bits 0 and 3 of the bytes in [P]. *)
Record marks (P : Z → Prop) (m m' : mem) : Prop := {
  mk_bits a b : 0 ≤ b → b ≠ 0 → b ≠ 3 → Z.testbit (rd m' a) b = Z.testbit (rd m a) b;
  mk_out a : ¬ P a → rd m' a = rd m a }.

Lemma marks_refl P m : marks P m m.
Proof. by split. Qed.

Lemma marks_trans P m1 m2 m3 : marks P m1 m2 → marks P m2 m3 → marks P m1 m3.
Proof.
  intros [A1 A2] [B1 B2]. split; [intros a b H0 H1 H2; by rewrite B1, A1|intros a H; by rewrite B2, A2].
Qed.

Lemma rd_testbit_high m a b : 8 ≤ b → Z.testbit (rd m a) b = false.
Proof. 
  intros H. rewrite <-(wrap_small 8 (rd m a)) by (pose proof (rd_range m a); lia). rewrite wrap_testbit by lia.
  by rewrite (proj2 (Z.ltb_ge _ _)).
 Qed.

Lemma marks_wr (P : Z → Prop) m a v : P a → (∀ b, 0 ≤ b < 8 → b ≠ 0 → b ≠ 3 → Z.testbit v b = Z.testbit (rd m a) b) →
  marks P m (wr m a v).
Proof.
  intros Ha Hv. split.
  - intros x b H0 H1 H2. rewrite rd_wr. destruct (decide (a = x)) as [->|]; [|done]. rewrite wrap_testbit by lia.
    destruct (Z.ltb_spec b 8); [by apply Hv|]. by rewrite rd_testbit_high.
  - intros x Hx. apply rd_wr_ne. congruence.
Qed.

(** Loops whose bodies only set marks. *)
Lemma for_marks {A} P w (l : list A) body :
  (∀ x m, x ∈ l → ∃ m', body x (with_mem m w) = Ok tt (with_mem m' w) ∧ marks P m m') →
  ∀ m, ∃ m', for_ l body (with_mem m w) = Ok tt (with_mem m' w) ∧ marks P m m'.
Proof.
  induction l as [|x l IH]; intros H m; [exists m; split; [done|apply marks_refl]|].
  destruct (H x m ltac:(apply elem_of_cons; by left)) as (m1 & E1 & M1).
  destruct (IH ltac:(intros y m' Hy; apply H, elem_of_cons; by right) m1) as (m2 & E2 & M2).
  exists m2. cbn [for_]. unfold bind. rewrite E1. split; [exact E2|by eapply marks_trans].
Qed.

Ltac small_bit b := assert (b = 1 ∨ b = 2 ∨ b = 4 ∨ b = 5 ∨ b = 6 ∨ b = 7) as Hsmall by lia;
  repeat destruct Hsmall as [Hsmall|Hsmall]; rewrite Hsmall.

Lemma li_marks_run w : li_table_ok w → ∀ m, ∃ m',
  update_shadow_for_loop_invariants (with_mem m w) = Ok tt (with_mem m' w) ∧ marks (predicted_mark (w_sh w)) m m'.
Proof.
  intros Hok m. unfold update_shadow_for_loop_invariants. rewrite for_li_grid. apply for_marks.
  intros [i j] m0 [Hi Hj]%elem_of_grid. destruct (Hok i j Hi Hj) as [e He].
  unfold bind at 1, li_at. unfold bind at 1, getsh, gets. simpl. rewrite He. cbn [ret].
  unfold ret. destruct (Z.eqb_spec (li_ptr e) 0) as [E|E]; cbn [negb when]; [exists m0; split; [done|apply marks_refl]|].
  apply for_marks. intros k m1 Hk%elem_of_seqZ. eexists. split; [reflexivity|]. cbn [p_mem w_p with_mem].
  apply marks_wr; [left; exists (i, j), e; split_and!; [done|done|lia|lia]|].
  intros b Hb H0 H3. rewrite Z.land_spec. small_bit b; apply andb_true_r.
Qed.

Lemma lp_marks_run w : lp_table_ok w → ∀ m, ∃ m',
  update_shadow_for_linear_predicted_values (with_mem m w) = Ok tt (with_mem m' w) ∧
  marks (predicted_mark (w_sh w)) m m'.
Proof.
  intros Hok m. unfold update_shadow_for_linear_predicted_values. rewrite for_lp_grid. apply for_marks.
  intros [i j] m0 [Hi Hj]%elem_of_grid. destruct (Hok i j Hi Hj) as [e He].
  unfold bind at 1, lp_at. unfold bind at 1, getsh, gets. simpl. rewrite He. unfold ret.
  destruct (Z.eqb_spec (lp_ptr e) 0) as [E|E]; cbn [negb when]; [exists m0; split; [done|apply marks_refl]|].
  apply for_marks. intros k m1 Hk%elem_of_seqZ. eexists. split; [reflexivity|]. cbn [p_mem w_p with_mem set_p set_p_mem].
  destruct (negb _); [|apply marks_refl].
  apply marks_wr; [right; exists (i, j), e; split_and!; [done|done|lia|lia]|].
  intros b Hb H0 H3. rewrite Z.lor_spec. small_bit b; apply orb_false_r.
Qed.

Lemma marks_run w : li_table_ok w → lp_table_ok w → ∃ m,
  (update_shadow_for_loop_invariants ;;; update_shadow_for_linear_predicted_values) w = Ok tt (with_mem m w) ∧
  marks (predicted_mark (w_sh w)) (p_mem (w_p w)) m.
Proof.
  intros Hli Hlp. destruct (li_marks_run w Hli (p_mem (w_p w))) as (m1 & E1 & M1). rewrite with_mem_id in E1.
  destruct (lp_marks_run w Hlp m1) as (m2 & E2 & M2). exists m2. unfold bind. rewrite E1.
  split; [exact E2|by eapply marks_trans].
Qed.

(** What depends on the bits 1 and 7 only is as before. *)
Lemma marks_touched P m m' s : marks P m m' → touched m' s = touched m s.
Proof. intros M. unfold touched. by rewrite (mk_bits _ _ _ M) by lia. Qed.

Lemma marks_written P m m' s a : marks P m m' → written m' s a ↔ written m s a.
Proof. intros M. unfold written. by rewrite (marks_touched _ _ _ _ M), (mk_bits _ _ _ M) by lia. Qed.

Lemma pages_effect_marks P m m' l xs : marks P m m' →
  (∀ s a, s ∈ l → in_page (GET_ORIGINAL_OF s) a → ¬ P a) → pages_effect m' l xs → pages_effect m l xs.
Proof.
  intros M HP [G E]. split; [done|]. intros r a. destruct (E r a) as [E1 E2]. split.
  - intros s Hs Hw. rewrite (E1 s Hs) by (by apply (marks_written _ _ _ s a M)). apply (mk_out _ _ _ M), (HP s a Hs), Hw.
  - intros Hno. apply E2. intros s Hs Hw. apply (Hno s Hs). by apply (marks_written _ _ _ s a M).
Qed.

(** ** An event after the packets of the iteration *)

(** One of the next [k] packets of a pool. *)
Definition next_packet (P : pools) (wid k : Z) (v : vptr) : Prop :=
  ∃ e, 0 ≤ e < k ∧ v = WPacket wid (nth_from (packet_next P wid) e).

(** The queues [cs] got at most [n] packets that stand for [xs] and an event, the
    other queues [bs] the event alone; all of them are new. *)
Record posted_event (s s' : shared) (wid : Z) (cs bs : list chan) (n : Z) (xs : list msg) (ty : Z) : Prop := {
  pe_in c vs : c ∈ cs → chan_holds s c vs → ∃ ids, chan_holds s' c (vs ++ ids) ∧
    encodes (sh_pools s') ids (xs ++ [MEnd ty]) ∧ NoDup ids ∧ lenZ ids ≤ n ∧
    ∀ v, v ∈ ids → next_packet (sh_pools s) wid ((n - 1) * lenZ cs + lenZ bs) v;
  pe_event c vs : c ∈ bs → c ∉ cs → chan_holds s c vs → ∃ v, chan_holds s' c (vs ++ [v]) ∧
    encodes (sh_pools s') [v] [MEnd ty];
  pe_out c vs : c ∉ bs → chan_holds s c vs → chan_holds s' c vs;
  pe_some c : is_Some (chan_get s' c) ↔ is_Some (chan_get s c);
  pe_rest : rest_of s' = rest_of s;
  pe_packet o j : ¬ next_packet (sh_pools s) wid ((n - 1) * lenZ cs + lenZ bs) (WPacket o j) →
    get_packet (sh_pools s') o j = get_packet (sh_pools s) o j;
  pe_pools : pools_ok (sh_pools s') }.

Lemma sent_event s w w' wid cs bs l xs ptr value size wr ty :
  sent s (w_sh w) wid cs l xs → delivered w w' wid bs ptr value size wr ty → is_end ty →
  l * lenZ cs + lenZ bs ≤ PACKET_POOL_SIZE → (∀ c, c ∈ cs → c ∈ bs) →
  posted_event s (w_sh w') wid cs bs (l + 1) xs ty.
Proof.
  intros (k & ps & D & Hd & Hl) V Hty Hsz Hsub. pose proof (lenZ_nonneg cs) as Hc0. pose proof (lenZ_nonneg ps) as Hp0.
  assert (lenZ ps * lenZ cs ≤ l * lenZ cs) as Hn by nia.
  assert (∀ c vs, c ∈ bs → chan_holds (w_sh w) c vs → ∃ e, 0 ≤ e < lenZ bs ∧
    let v := WPacket wid (nth_from (packet_next (sh_pools s) wid) (lenZ ps * lenZ cs + e)) in
    chan_holds (w_sh w') c (vs ++ [v]) ∧ encodes (sh_pools (w_sh w')) [v] [MEnd ty]) as Hev.
  { intros c vs Hc Hh. destruct (dl_in _ _ _ _ _ _ _ _ _ V c vs Hc Hh) as (e & sg & He & H1 & H2).
    rewrite (pd_next _ _ _ _ _ _ D), nth_from_add in H1, H2. exists e. split; [done|]. split; [exact H1|].
    apply (en_cons _ [_]); [by eapply ca_end|constructor]. }
  split.
  - intros c vs Hc Hh. destruct (pd_in _ _ _ _ _ _ D c vs Hc Hh) as (ids & H1 & H2 & H3 & H4).
    destruct (Hev c _ (Hsub c Hc) H1) as (e & He & H5 & H6). eexists. rewrite app_assoc. split; [exact H5|]. split_and!.
    + apply encodes_app; [|exact H6]. apply (encodes_agree (sh_pools (w_sh w))); [by eapply denotes_encodes|]. split.
      * intros o i Hi. destruct (H4 _ Hi) as (e' & He' & [= -> ->]). apply (dl_frame _ _ _ _ _ _ _ _ _ V).
        intros e'' He'' [= E]. rewrite (pd_next _ _ _ _ _ _ D), nth_from_add in E. apply nth_from_neq in E; [done|lia|lia|lia].
      * intros o i. unfold get_chunk. by rewrite (proj1 (dl_chunks _ _ _ _ _ _ _ _ _ V)).
    + apply NoDup_app. split; [done|]. split; [|apply NoDup_singleton]. intros v Hv ->%list_elem_of_singleton.
      destruct (H4 _ Hv) as (e' & He' & [= E]). apply nth_from_neq in E; [done|lia|lia|lia].
    + rewrite lenZ_app', (hold_packets_length _ _ _ H2). change (lenZ [_]) with 1. lia.
    + rewrite Z.add_simpl_r. pose proof (lenZ_nonneg bs). intros v [Hv|Hv%list_elem_of_singleton]%elem_of_app.
      * destruct (H4 _ Hv) as (e' & He' & ->). exists e'. split; [lia|done].
      * subst v. exists (lenZ ps * lenZ cs + e). split; [lia|done].
  - intros c vs Hc Hn' Hh. pose proof (pd_out _ _ _ _ _ _ D c vs Hn' Hh) as H1.
    destruct (Hev c vs Hc H1) as (e & _ & H). by eexists.
  - intros c vs Hc Hh. apply (dl_out _ _ _ _ _ _ _ _ _ V); [done|]. apply (pd_out _ _ _ _ _ _ D); [|done].
    intros H. by apply Hc, Hsub.
  - intros c. by rewrite (dl_some _ _ _ _ _ _ _ _ _ V), (pd_some _ _ _ _ _ _ D).
  - by rewrite (dl_rest _ _ _ _ _ _ _ _ _ V), (pd_rest _ _ _ _ _ _ D).
  - rewrite Z.add_simpl_r. pose proof (lenZ_nonneg bs). intros o j Hne. rewrite (dl_frame _ _ _ _ _ _ _ _ _ V).
    + apply (pd_frame _ _ _ _ _ _ D). intros e He [= -> ->]. apply Hne. exists e. split; [lia|done].
    + intros e He [= -> ->]. apply Hne. rewrite (pd_next _ _ _ _ _ _ D), nth_from_add. exists (lenZ ps * lenZ cs + e). split; [lia|done].
  - apply V.
Qed.

(** ** [end_iter] *)

(** A worker at the end of an iteration it ran, with the metadata pages [l] and no
    allocation to report. *)
Record ending (w : world) (wid : Z) (l : list Z) : Prop := {
  ed_sender : sender w wid;
  ed_wid : worker_id (w_p w) = wid;
  ed_run : run_iteration (e_strategy (w_env w)) wid (current_iteration (w_p w)) = true;
  ed_li : li_table_ok w;
  ed_lp : lp_table_ok w;
  ed_marks a : predicted_mark (w_sh w) a →
    ¬ malloc_buffer w wid a ∧ ∀ s, s ∈ l → ¬ in_page (GET_ORIGINAL_OF s) a;
  ed_alloc : load 8 (p_mem (w_p w)) (buf_index (e_ver_malloc_buffer (w_env w)) wid) = 0;
  ed_list : l = shadow_globals (w_p w) ++ shadow_stacks (w_p w) ++ shadow_heaps (w_p w);
  ed_pages : pages_ok (λ a, in_page (e_ro_page_buffer (w_env w)) a ∨ malloc_buffer w wid a) l;
  ed_index : 0 ≤ ro_page_index (w_p w) ≤ RO_ENTRY_BUFFER_SIZE;
  ed_room : let g := e_strategy (w_env w) in
    room_for (w_sh w) wid (targets g wid (current_iteration (w_p w))) (lenZ (broadcast_targets g 1 wid))
      (packets (p_mem (w_p w)) l + 2);
  ed_ready : chans_ready w (broadcast_targets (e_strategy (w_env w)) 1 wid) }.

Lemma pages_ok_weaken (own own' : Z → Prop) l : (∀ a, own' a → own a) → pages_ok own l → pages_ok own' l.
Proof. intros H [H1 H2 H3 H4]. split; try done. intros s a Hs Ha Ho. by eapply H4; [| |apply H]. Qed.

(** The part of [end_iter] that prepares the metadata. *)
Definition end_prepare (wid : Z) : W unit :=
  update_shadow_for_loop_invariants ;;; update_shadow_for_linear_predicted_values ;;; flush_ver_mallocs wid.

Lemma end_prepare_run w wid l : ending w wid l → ∃ m, end_prepare wid w = Ok tt (with_mem m w) ∧
  (∀ s, s ∈ l → touched m s = touched (p_mem (w_p w)) s) ∧
  (∀ s a, s ∈ l → in_page (GET_ORIGINAL_OF s) a → rd m a = rd (p_mem (w_p w)) a) ∧
  (∀ xs, pages_effect m l xs → pages_effect (p_mem (w_p w)) l xs).
Proof.
  intros [_ _ _ Hli Hlp Hm H0 _ Hpg _ _ _]. destruct (marks_run w Hli Hlp) as (m1 & E1 & M1).
  set (base := e_ver_malloc_buffer (w_env w)) in *.
  assert (∀ a, malloc_buffer w wid a → rd m1 a = rd (p_mem (w_p w)) a) as Hb.
  { intros a Ha. apply (mk_out _ _ _ M1). by intros [? _]%Hm. }
  assert (load 8 m1 (buf_index base wid) = 0) as H1.
  { rewrite <-H0. apply load_ext. intros k Hk. apply Hb. unfold malloc_buffer, buf_index in *. fold base.
    change SIZEOF_VerMallocBuffer with 65544. change (PAGE_SIZE * SIZEOF_VerMallocInstance) with 65536. lia. }
  pose proof (flush_empty (with_mem m1 w) wid H1) as E2. change (p_mem (w_p (with_mem m1 w))) with m1 in E2.
  change (e_ver_malloc_buffer (w_env (with_mem m1 w))) with base in E2.
  pose proof (rd_reset_buffer m1 base wid) as Hr. revert E2 Hr. generalize (reset_buffer m1 base wid). intros m2 E2 Hr.
  assert (∀ s a, s ∈ l → near s a → rd m2 a = rd m1 a) as H2.
  { intros s a Hs Ha. apply Hr. intros Hma. apply (po_own _ _ Hpg s a Hs Ha). by right. }
  exists m2. split_and!.
  - unfold end_prepare. rewrite <-bind_bind. unfold bind at 1. rewrite E1. exact E2.
  - intros s Hs. rewrite <-(marks_touched _ _ _ s M1). unfold touched. rewrite (H2 s s Hs); [done|].
    left. unfold in_page, PAGE_SIZE. lia.
  - intros s a Hs Ha. rewrite (H2 s a Hs) by (by right). apply (mk_out _ _ _ M1). intros [_ H]%Hm. by apply (H s Hs).
  - intros xs Hx. apply (pages_effect_marks _ _ _ _ _ M1); [intros s a Hs Ha [_ H]%Hm; by apply (H s Hs)|].
    eapply pages_effect_agree; [exact H2|done].
Qed.

(** The page loops and the list of read-only pages. *)
Definition end_send (wid iter : Z) : W unit :=
  let! globals := getp shadow_globals in
  for_ globals (end_page wid iter) ;;;
  let! stacks := getp shadow_stacks in
  for_ stacks (end_page wid iter) ;;;
  let! heaps_ := getp shadow_heaps in
  for_ heaps_ (end_page wid iter) ;;;
  forward_ro_page wid iter.

Lemma pages_ok_app own l1 l2 : pages_ok own (l1 ++ l2) → pages_ok own l1.
Proof.
  intros [(H1 & _)%NoDup_app H2 H3 H4]. assert (∀ s, s ∈ l1 → s ∈ l1 ++ l2) as H by (intros; apply elem_of_app; by left).
  split; eauto.
Qed.

(** The three loops are one loop over all pages. *)
Lemma end_send_loop w wid iter :
  let l := shadow_globals (w_p w) ++ shadow_stacks (w_p w) ++ shadow_heaps (w_p w) in
  let cs := targets (e_strategy (w_env w)) wid iter in
  sender w wid → 0 ≤ ro_page_index (w_p w) ≤ RO_ENTRY_BUFFER_SIZE →
  room_for (w_sh w) wid cs 0 (packets (p_mem (w_p w)) l) → pages_ok (in_page (e_ro_page_buffer (w_env w))) l →
  end_send wid iter w = (for_ l (end_page wid iter) ;;; forward_ro_page wid iter) w.
Proof.
  intros l cs Hs Hro R Hok. pose proof (lenZ_nonneg cs) as Hc0.
  assert (∀ l1 l2, l = l1 ++ l2 → ∃ w1, for_ l1 (end_page wid iter) w = Ok tt w1 ∧
    shadow_stacks (w_p w1) = shadow_stacks (w_p w) ∧ shadow_heaps (w_p w1) = shadow_heaps (w_p w)) as Hpre.
  { intros l1 l2 E. rewrite E in *. rewrite packets_app in *. pose proof (packets_nonneg (p_mem (w_p w)) l1).
    pose proof (packets_nonneg (p_mem (w_p w)) l2).
    destruct (pages_run wid iter 0 l1 ltac:(lia) w Hs Hro) as (w1 & xs & E1 & (_ & idx & P1 & _) & _).
    - unfold room_for in *. eapply room_le; [exact R|fold cs; nia|lia].
    - by eapply pages_ok_app.
    - exists w1. rewrite P1. done. }
  destruct (Hpre (shadow_globals (w_p w)) _ eq_refl) as (w1 & E1 & S1 & _).
  destruct (Hpre (shadow_globals (w_p w) ++ shadow_stacks (w_p w)) _ ltac:(by rewrite <-app_assoc)) as (w2 & E2 & _ & H2).
  rewrite for_app in E2. unfold bind in E2. rewrite E1 in E2.
  unfold end_send, l. unfold bind at 1, getp, gets. unfold bind. rewrite E1, S1, E2, H2.
  rewrite for_app. unfold bind. rewrite E1, for_app. unfold bind. by rewrite E2.
Qed.

Lemma end_send_run w wid iter b l :
  l = shadow_globals (w_p w) ++ shadow_stacks (w_p w) ++ shadow_heaps (w_p w) →
  let cs := targets (e_strategy (w_env w)) wid iter in
  sender w wid → 0 ≤ ro_page_index (w_p w) ≤ RO_ENTRY_BUFFER_SIZE →
  0 ≤ b → room_for (w_sh w) wid cs b (packets (p_mem (w_p w)) l + 1) → pages_ok (in_page (e_ro_page_buffer (w_env w))) l →
  ∃ w' xs, end_send wid iter w = Ok tt w' ∧ w_env w' = w_env w ∧ p_ctl (w_p w') = p_ctl (w_p w) ∧
    current_iteration (w_p w') = current_iteration (w_p w) ∧
    sent (w_sh w) (w_sh w') wid cs (packets (p_mem (w_p w)) l + 1) xs ∧ pages_effect (p_mem (w_p w)) l xs ∧
    pages_done (in_page (e_ro_page_buffer (w_env w))) (p_mem (w_p w)) (p_mem (w_p w')) l.
Proof.
  intros Hl cs Hs Hro Hb R Hok. pose proof (lenZ_nonneg cs) as Hc0. pose proof (packets_nonneg (p_mem (w_p w)) l) as Hl0.
  pose proof (end_send_loop w wid iter) as Hloop. cbv zeta in Hloop. rewrite <-Hl in Hloop. fold cs in Hloop.
  rewrite Hloop; [|done|done|unfold room_for in *; eapply room_le; [exact R|nia|lia]|done].
  destruct (pages_run wid iter b l Hb w Hs Hro) as (w1 & xs & E1 & (V1 & idx & P1 & _) & S1 & F1 & [Z1 K1]);
    [unfold room_for in *; eapply room_le; [exact R|fold cs; nia|lia]|done|]. fold cs in S1.
  pose proof (f_equal p_ctl P1) as C1. pose proof (f_equal current_iteration P1) as I1. cbn in C1, I1.
  destruct (forward_ro_page_run w1 wid iter b) as (w2 & m2 & ys & E2 & V2 & P2 & S2 & Hy & K2).
  - by eapply sender_frame.
  - rewrite V1. fold cs. replace 1 with (packets (p_mem (w_p w)) l + 1 - packets (p_mem (w_p w)) l) by lia. eapply sent_room; [done|done|lia|done].
  - done.
  - rewrite V1 in S2, K2. fold cs in S2. exists w2, (xs ++ ys). unfold bind. rewrite E1. split; [exact E2|].
    split; [congruence|]. split; [by rewrite P2|]. split; [by rewrite P2|].
    split; [by eapply sent_trans|]. split; [by apply pages_effect_ro|]. rewrite P2. cbn [p_mem set_p_mem].
    assert (∀ a s, s ∈ l → in_page s a → ¬ in_page (e_ro_page_buffer (w_env w)) a) as Hout.
    { intros a s Hsl Ha. apply (po_own _ _ Hok s a Hsl). by left. }
    split; [intros s a Hsl Ht Ha; rewrite K2 by (by eapply Hout); by apply (Z1 s a)|].
    intros a Ha Hna. rewrite K2 by done. by apply K1.
Qed.

(** The EOI event that follows the packets. *)
Lemma end_event w s wid iter l xs :
  let g := e_strategy (w_env w) in
  let cs := targets g wid iter in
  let bs := broadcast_targets g 1 wid in
  sender w wid → sent s (w_sh w) wid cs l xs → room_for s wid cs (lenZ bs) (l + 1) → 0 ≤ l →
  (∀ c, c ∈ bs → ∃ vs, chan_holds s c vs ∧ lenZ vs < PAIRS) →
  ∃ w', broadcast_event wid 0xDEADBEEF 0 NULL WRITE EOI w = Ok 0 w' ∧
    delivered w w' wid bs 0xDEADBEEF NULL 0 WRITE EOI.
Proof.
  intros g cs bs [Hw Ha] S R Hl Hbs. pose proof (lenZ_nonneg cs) as Hc0. pose proof (lenZ_nonneg bs) as Hb0.
  pose proof (sent_room _ _ _ _ _ _ _ _ S R ltac:(lia) Hb0) as R1. replace (l + 1 - l) with 1 in R1 by lia.
  destruct (broadcast_event_run w wid 0xDEADBEEF 0 NULL WRITE EOI Hw) as (w' & E & D).
  - rewrite Ha. eapply pool_room_le; [apply R1|]. fold g bs. lia.
  - rewrite Ha. fold g bs. intros c Hc. destruct (decide (c ∈ cs)) as [Hin|Hout].
    + destruct (rm_chans _ _ _ _ _ R1 c Hin) as (vs & ? & ?). exists vs. split; [done|lia].
    + destruct (Hbs c Hc) as (vs & Hv & Hlt). exists vs. split; [|done].
      destruct S as (k & ps & P & _). by apply (pd_out _ _ _ _ _ _ P).
  - exists w'. rewrite Ha in D. by split.
Qed.

(** The steps of [end_iter] in an iteration that the worker runs. *)
Lemma end_iter_steps w wid w0 w1 w2 :
  worker_ok w wid → worker_id (w_p w) = wid →
  run_iteration (e_strategy (w_env w)) wid (current_iteration (w_p w)) = true →
  end_prepare wid w = Ok tt w0 → end_send wid (current_iteration (w_p w)) w0 = Ok tt w1 →
  broadcast_event wid 0xDEADBEEF 0 NULL WRITE EOI w1 = Ok 0 w2 →
  end_iter w = Ok tt (set_p (set_current_iteration (i32 (current_iteration (w_p w2) + 1)) (w_p w2)) w2).
Proof.
  intros Hw Hwid Hrun E0 E1 E2. set (g := e_strategy (w_env w)) in *. set (iter := current_iteration (w_p w)) in *.
  assert (end_iter w = (let me := worker_id (w_p w) in
    when (run_iteration g me iter)
      (update_shadow_for_loop_invariants ;;; update_shadow_for_linear_predicted_values ;;; flush_ver_mallocs me ;;;
       end_send me iter) ;;;
    when (u32 (me - GET_FIRST_WID_OF_STAGE g (GET_MY_STAGE g me)) =?
          GET_WID_OFFSET_IN_STAGE g (u32 iter) (GET_MY_STAGE g me))
      (broadcast_event me 0xDEADBEEF 0 NULL WRITE EOI ;;; ret tt) ;;;
    advance_iter) w) as -> by reflexivity.
  cbv zeta. rewrite Hwid, Hrun. cbn [when].
  assert ((update_shadow_for_loop_invariants ;;; update_shadow_for_linear_predicted_values ;;; flush_ver_mallocs wid ;;;
    end_send wid iter) w = Ok tt w1) as E01.
  { unfold end_prepare, bind in E0. unfold bind. destruct (update_shadow_for_loop_invariants w) as [[] v|]; [|done].
    destruct (update_shadow_for_linear_predicted_values v) as [[] v'|]; [|done]. by rewrite E0. }
  unfold bind at 1. rewrite E01. clear E01.
  assert ((u32 (wid - GET_FIRST_WID_OF_STAGE g (GET_MY_STAGE g wid)) =?
           GET_WID_OFFSET_IN_STAGE g (u32 iter) (GET_MY_STAGE g wid)) = true) as ->.
  { unfold run_iteration in Hrun. apply Z.eqb_eq in Hrun. apply Z.eqb_eq. unfold GET_WID_OFFSET_IN_STAGE.
    pose proof (wo_strategy _ _ Hw) as Hst. pose proof (ok_rep _ _ Hst _ (ok_stage _ _ Hst _ (wo_wid _ _ Hw))) as Hr. fold g in Hr.
    rewrite <-Hrun at 1. rewrite Z.add_simpl_l. fold (GET_REPLICATION_FACTOR g (GET_MY_STAGE g wid)). apply wrap_small. assert (0 ≤ u32 iter < 2 ^ 32) as Hu by (apply Z.mod_pos_bound; lia).
    pose proof (Z.mod_pos_bound (u32 iter) (GET_REPLICATION_FACTOR g (GET_MY_STAGE g wid)) ltac:(lia)).
    pose proof (Z.mod_le (u32 iter) (GET_REPLICATION_FACTOR g (GET_MY_STAGE g wid)) ltac:(lia) ltac:(lia)). lia. }
  cbn [when]. unfold bind at 1. unfold bind at 1. by rewrite E2.
Qed.

Lemma end_iter_run w wid l : ending w wid l →
  let g := e_strategy (w_env w) in
  let cs := targets g wid (current_iteration (w_p w)) in
  let bs := broadcast_targets g 1 wid in
  ∃ w' xs, end_iter w = Ok tt w' ∧ posted_event (w_sh w) (w_sh w') wid cs bs (packets (p_mem (w_p w)) l + 2) xs EOI ∧
    pages_effect (p_mem (w_p w)) l xs ∧
    (∀ s a, s ∈ l → touched (p_mem (w_p w)) s = true → in_page s a → rd (p_mem (w_p w')) a = 0) ∧
    (∀ s a, s ∈ l → in_page (GET_ORIGINAL_OF s) a → rd (p_mem (w_p w')) a = rd (p_mem (w_p w)) a) ∧
    current_iteration (w_p w') = i32 (current_iteration (w_p w) + 1).
Proof.
  intros H g cs bs. destruct (end_prepare_run w wid l H) as (m & E0 & T0 & D0 & X0).
  pose proof (packets_touched _ _ _ T0) as Hpk.
  destruct H as [Hs Hwid Hrun _ _ _ _ Hl Hpg Hix R Hbs]. fold g in Hrun, R, Hbs. cbv zeta in R. fold cs bs in R, Hbs.
  pose proof (lenZ_nonneg cs) as Hc0. pose proof (lenZ_nonneg bs) as Hb0.
  pose proof (packets_nonneg (p_mem (w_p w)) l) as Hl0. rewrite <-Hpk in *. set (w0 := with_mem m w) in *. set (n := packets m l) in *.
  assert (room_for (w_sh w0) wid cs (lenZ bs) (n + 1)) as R1
    by (unfold room_for in *; eapply room_le; [exact R|nia|lia]).
  destruct (end_send_run w0 wid (current_iteration (w_p w)) (lenZ bs) l Hl) as (w1 & xs & E1 & V1 & C1 & I1 & S1 & F1 & [Z1 K1]);
    [by eapply sender_frame|done|done|done|eapply pages_ok_weaken; [|exact Hpg]; intros a Ha; by left|].
  change (w_sh w0) with (w_sh w) in S1, R1. change (p_mem (w_p w0)) with m in F1, Z1, K1.
  change (e_ro_page_buffer (w_env w0)) with (e_ro_page_buffer (w_env w)) in Z1, K1.
  change (targets (e_strategy (w_env w0)) wid (current_iteration (w_p w))) with cs in S1.
  change (packets (p_mem (w_p w0)) l) with n in S1.
  assert (e_strategy (w_env w1) = g) as Hg by (by rewrite V1).
  destruct (end_event w1 (w_sh w) wid (current_iteration (w_p w)) (n + 1) xs) as (w2 & E2 & D2).
  - eapply sender_frame; [exact Hs|exact C1|exact V1].
  - by rewrite Hg.
  - rewrite Hg. fold cs bs. by replace (n + 1 + 1) with (n + 2) by lia.
  - lia.
  - rewrite Hg. exact Hbs.
  - rewrite Hg in D2. fold bs in D2. pose proof (pr_size _ _ _ (rm_pool _ _ _ _ _ R1)) as Hsz.
    pose proof (sent_event _ _ _ _ _ _ _ _ _ _ _ _ _ S1 D2 (or_introl eq_refl) Hsz
      (targets_broadcast _ _ _ _ (wo_strategy _ _ (sn_worker _ _ Hs)) (wo_wid _ _ (sn_worker _ _ Hs)))) as Q.
    replace (n + 1 + 1) with (n + 2) in Q by lia.
    pose proof (dl_proc _ _ _ _ _ _ _ _ _ D2) as P2.
    eexists _, xs. split; [exact (end_iter_steps w wid w0 w1 w2 (sn_worker _ _ Hs) Hwid Hrun E0 E1 E2)|].
    cbn [w_sh w_p set_p p_mem current_iteration set_current_iteration]. rewrite P2, I1.
    split_and!; [exact Q|by apply X0| | |done].
    + intros s a Hsl Ht Ha. apply (Z1 s a Hsl); [by rewrite T0|done].
    + intros s a Hsl Ha. rewrite K1; [by eapply D0| |].
      * intros t Ht Hta. apply (po_shadow _ _ Hpg s t Hsl Ht). eapply aligned_page; [|by eapply po_aligned|done|done].
        by eapply original_aligned, po_aligned.
      * intros Hro. apply (po_own _ _ Hpg s a Hsl); [by right|by left].
Qed.

(** [C6] End of an iteration: the worker that ran it sends to one worker of every
    later stage, and to the try-commit unit, messages that make the receiver take
    over exactly the bytes the iteration wrote, closed by EOI; the other workers
    of the later stages get the EOI only, and all other queues nothing.  The
    metadata of the touched pages are cleared for the next iteration, the data are
    unchanged, and the worker goes on to the next iteration. *)
Theorem end_iter_sends w wid l : ending w wid l →
  let g := e_strategy (w_env w) in
  let cs := targets g wid (current_iteration (w_p w)) in
  let bs := broadcast_targets g 1 wid in
  ∃ w' xs, end_iter w = Ok tt w' ∧ pages_effect (p_mem (w_p w)) l xs ∧
    (∀ c vs, c ∈ cs → chan_holds (w_sh w) c vs → ∃ ids, chan_holds (w_sh w') c (vs ++ ids) ∧
       encodes (sh_pools (w_sh w')) ids (xs ++ [MEnd EOI]) ∧ NoDup ids) ∧
    (∀ c vs, c ∈ bs → c ∉ cs → chan_holds (w_sh w) c vs → ∃ v, chan_holds (w_sh w') c (vs ++ [v]) ∧
       encodes (sh_pools (w_sh w')) [v] [MEnd EOI]) ∧
    (∀ c vs, c ∉ bs → chan_holds (w_sh w) c vs → chan_holds (w_sh w') c vs) ∧
    (∀ s a, s ∈ l → touched (p_mem (w_p w)) s = true → in_page s a → rd (p_mem (w_p w')) a = 0) ∧
    (∀ s a, s ∈ l → in_page (GET_ORIGINAL_OF s) a → rd (p_mem (w_p w')) a = rd (p_mem (w_p w)) a) ∧
    current_iteration (w_p w') = i32 (current_iteration (w_p w) + 1).
Proof.
  intros H g cs bs. destruct (end_iter_run w wid l H) as (w' & xs & E & [Q1 Q2 Q3 _ _ _ _] & X & Hclear & Hdata & Hi).
  fold g cs bs in Q1, Q2, Q3. exists w', xs. split_and!; [done|done| |done|done|done|done|done].
  intros c vs Hc Hh. destruct (Q1 c vs Hc Hh) as (ids & ? & ? & ? & _). by exists ids.
Qed.

(** ** A concrete input

    Worker 0 of a one-stage pipeline wrote one byte of the page at [0x7000]. *)
Definition end_page_shadow : Z := GET_SHADOW_OF 0x7000.
Definition end_world : world :=
  World (chan_set (ToTryCommit 0 0) sw_queue_create (chan_set (ToCommit 0) sw_queue_create
          (set_good_to_go (Some 1) (set_the_pcb (Some pcb0) (set_sh_pools (init_packets 2) shared0)))))
    (set_p_mem (wr (wr (wr ∅ end_page_shadow 0x80) (end_page_shadow + 8) 2) 0x7008 0x55)
      (set_shadow_globals [end_page_shadow] (set_p_ctl (Control 3 1 0 2 1 0 0) (set_worker_id 0 proc0))))
    (Env one_stage 0x500000 0x600000 (λ _, true) (λ _, true)).

Lemma end_world_room cs b l : lenZ cs = 1 → (∀ c, c ∈ cs → c = ToTryCommit 0 0) → 0 ≤ b → 0 ≤ l → l + b ≤ PAIRS →
  room_for (w_sh end_world) 0 cs b l.
Proof.
  intros Hcs Hc Hb Hl Hp. assert (PAIRS ≤ PACKET_POOL_SIZE) as Hps by done.
  unfold room_for. rewrite Hcs. split.
  - split; [apply (init_packets_ok 2)|lia|]. intros e _. unfold get_packet. simpl. by rewrite lookup_empty.
  - lia.
  - intros e _. unfold get_chunk. simpl. by rewrite lookup_empty.
  - intros c ->%Hc. exists []. split; [exists sw_queue_create; split; [done|apply create_holds]|]. unfold lenZ. simpl. lia.
Qed.

Lemma end_world_ending : ending end_world 0 [end_page_shadow].
Proof.
  assert (∀ c, c ∈ broadcast_targets one_stage 1 0 → c = ToTryCommit 0 0) as Hc
    by (intros c H; by apply list_elem_of_singleton in H).
  assert (∀ c, c ∈ targets one_stage 0 0 → c = ToTryCommit 0 0) as Hc'
    by (intros c H; by apply list_elem_of_singleton in H).
  split; try done.
  - split; [split; [exact one_stage_ok|done|done|done]|done].
  - intros i j Hi. change (0 ≤ i < 0) in Hi. lia.
  - intros i j Hi. change (0 ≤ i < 0) in Hi. lia.
  - intros a [(x & e & H & _)|(x & e & H & _)].
    + change (loop_invariant_buffer (w_sh end_world)) with (∅ : gmap (Z * Z) LoopInvariantBuffer) in H. by rewrite lookup_empty in H.
    + change (linear_predictors (w_sh end_world)) with (∅ : gmap (Z * Z) LinearPredictor) in H. by rewrite lookup_empty in H.
  - split; [apply NoDup_singleton|by intros s ->%list_elem_of_singleton| |].
    + intros s t ->%list_elem_of_singleton ->%list_elem_of_singleton. by vm_compute.
    + intros s a ->%list_elem_of_singleton Hn Ho. unfold near, in_page, malloc_buffer in *.
      assert (GET_ORIGINAL_OF end_page_shadow = 0x7000) as E1 by done. rewrite E1 in Hn.
      assert (end_page_shadow = 0x200000007000) as E2 by done. rewrite E2 in Hn.
      change (e_ro_page_buffer (w_env end_world)) with 0x500000 in Ho.
      change (buf_elem (e_ver_malloc_buffer (w_env end_world)) 0) with 0x600000 in Ho.
      change SIZEOF_VerMallocBuffer with 65544 in Ho. unfold PAGE_SIZE in *. lia.
  - apply end_world_room; [done|exact Hc'|done|done|by vm_compute].
  - intros c ->%Hc. exists []. split; [exists sw_queue_create; split; [done|apply create_holds]|done].
Qed.

Lemma end_world_written : touched (p_mem (w_p end_world)) end_page_shadow = true ∧
  written (p_mem (w_p end_world)) end_page_shadow 0x7008 ∧ in_page end_page_shadow (end_page_shadow + 8) ∧
  rd (p_mem (w_p end_world)) 0x7008 = 0x55.
Proof. split_and!; by vm_compute. Qed.

Lemma end_iter_sends_witness : ∃ w' xs ids, end_iter end_world = Ok tt w' ∧
  chan_holds (w_sh w') (ToTryCommit 0 0) ids ∧ encodes (sh_pools (w_sh w')) ids (xs ++ [MEnd EOI]) ∧
  rd (foldl apply_msg ∅ xs) 0x7008 = 0x55 ∧ rd (p_mem (w_p w')) (end_page_shadow + 8) = 0.
Proof.
  destruct (end_iter_sends end_world 0 [end_page_shadow] end_world_ending) as (w' & xs & E & [_ F] & H1 & _ & _ & H2 & _).
  destruct (H1 (ToTryCommit 0 0) []) as (ids & H3 & H4 & _).
  - by apply list_elem_of_singleton.
  - exists sw_queue_create. split; [done|apply create_holds].
  - exists w', xs, ids. split_and!; [exact E|exact H3|exact H4| |].
    + rewrite (proj1 (F ∅ 0x7008) end_page_shadow); [apply end_world_written|by apply list_elem_of_singleton|apply end_world_written].
    + apply (H2 end_page_shadow); [by apply list_elem_of_singleton|apply end_world_written|apply end_world_written].
Defined.
