(* ===== verification/Doall.v ===== *)
(** One iteration of a parallel loop from end to end.

    A loop with one (replicated) stage: the worker that ran the iteration sends
    its work, the try-commit unit validates it, and the commit unit of the main
    process applies it.  Three processes with private memories take part; they
    share the queues and the packet pools. *)
From S2P Require Import Prelude Machine Shadow Strategy Pages SwQueue Packet State Communicate Malloc Separation Speculation Protection Prediction Units Messages Commit TryCommit Validate Control LoopEvent BeginIter Forward Posted EndIter Iteration.
From stdpp Require Import strings.
#[local] Open Scope Z_scope.

(** ** Shared state after [end_iter] *)

Lemma posted_event_queues s s' wid cs bs n xs ty : posted_event s s' wid cs bs n xs ty → queues_ok s → queues_ok s'.
Proof.
  intros [Qin Qev Qout Qs _ _ _] Hok c q Hq. destruct (proj1 (Qs c) ltac:(by eexists)) as [q0 Hq0].
  destruct (Hok c q0 Hq0) as [vs Hvs]. assert (chan_holds s c vs) as Hh by (by exists q0).
  assert (∃ us, chan_holds s' c us) as (us & q' & Hq' & Hus).
  { destruct (decide (c ∈ cs)) as [Hc|Hc]; [destruct (Qin c vs Hc Hh) as (ids & ? & _); by eexists|].
    destruct (decide (c ∈ bs)) as [Hb|Hb]; [destruct (Qev c vs Hb Hc Hh) as (v & ? & _); by eexists|].
    eexists. by apply Qout. }
  rewrite Hq in Hq'. injection Hq' as <-. by exists us.
Qed.

Lemma posted_event_unit s s' wid cs bs n xs ty p e : posted_event s s' wid cs bs n xs ty →
  unit_ok (World s p e) → unit_ok (World s' p e).
Proof.
  intros Q [[H1 H2 H3 H4] Hp Hli Hlp Hsz]. pose proof (pe_rest _ _ _ _ _ _ _ _ Q) as Hr. unfold rest_of in Hr.
  injection Hr as R1 R2 R3 R4. unfold li_table_ok, lp_table_ok, lp_sizes_ok in *. simpl in *.
  split; unfold li_table_ok, lp_table_ok, lp_sizes_ok; simpl; rewrite ?R1, ?R3, ?R4; try done.
  split; simpl; [done|done|by eapply posted_event_queues|]. intros c Hc. apply (pe_some _ _ _ _ _ _ _ _ Q). by apply H4.
Qed.

(** A queue that carries messages and an end. *)
Lemma encodes_split P ids xs ys : encodes P ids (xs ++ ys) →
  ∃ ids1 ids2, ids = ids1 ++ ids2 ∧ encodes P ids1 xs ∧ encodes P ids2 ys.
Proof.
  revert ids. induction xs as [|x xs IH]; intros ids H; [exists [], ids; split_and!; [done|constructor|done]|].
  cbn [app] in H. inversion H as [|i x' vs xs' Hx Hv]; subst. destruct (IH vs Hv) as (l1 & l2 & -> & H1 & H2).
  exists (i ++ l1), l2. split; [by rewrite app_assoc|]. split; [by constructor|done].
Qed.

Lemma encodes_one P ids x : encodes P ids [x] → carries P ids x.
Proof. intros H. inversion H as [|i x' vs xs' Hx Hv]; subst. inversion Hv. by rewrite app_nil_r. Qed.

(** ** Begin packets

    Every begin of an iteration but the first sends a BOI packet, also to the units
    of the workers that do not run the iteration; so any number of them precedes the
    work of an iteration. *)

Lemma boi_encodes P P' ids : Forall (is_boi P) ids → (∀ o i, WPacket o i ∈ ids → get_packet P' o i = get_packet P o i) →
  encodes P' ids (replicate (length ids) MBoi).
Proof.
  induction 1 as [|v ids (o & i & -> & Ht & Hp) _ IH]; intros Hs; [constructor|].
  apply (en_cons _ [WPacket o i]); [|apply IH; intros o' i' Hi; apply Hs, elem_of_cons; by right].
  assert (get_packet P' o i = get_packet P o i) as E by (apply Hs, elem_of_cons; by left).
  destruct (get_packet P o i) as [ptr value size wr ty sg]. simpl in Ht. subst ty. by eapply ca_boi.
Qed.

Lemma boi_go n : all_go_on (replicate n MBoi).
Proof. by apply Forall_replicate. Qed.

Lemma boi_apply n m : foldl apply_msg m (replicate n MBoi) = m.
Proof. induction n as [|n IH]; [done|exact IH]. Qed.

(** ** The three processes *)

Record doall (w : world) (wid : Z) (l : list Z) (pt : proc) : Prop := {
  da_worker : ending w wid l;
  da_stages : GET_NUM_STAGES (e_strategy (w_env w)) = 1;
  da_tcb : try_commit_begin (p_ctl pt) = try_commit_begin (p_ctl (w_p w));
  da_id : worker_id pt = try_commit_begin (p_ctl pt);
  da_iter : current_iteration pt = current_iteration (w_p w);
  da_unit : unit_ok (World (w_sh w) pt (w_env w));
  da_boi : ∃ ids, chan_holds (w_sh w) (ToTryCommit wid 0) ids ∧ Forall (is_boi (sh_pools (w_sh w))) ids ∧ NoDup ids ∧
    lenZ ids + (packets (p_mem (w_p w)) l + 2) ≤ PAIRS;
  da_commit : chan_holds (w_sh w) (ToCommit 0) [];
  da_pool i : pk_ptr (get_packet (sh_pools (w_sh w)) (worker_id pt) i) = 0 }.

(** The worker of the only stage. *)
Lemma doall_wid w wid l pt : doall w wid l pt →
  wid_of_iter (e_strategy (w_env w)) (current_iteration (w_p w)) 0 = wid.
Proof.
  intros [[[Hw _] _ Hrun _ _ _ _ _ _ _ _ _] Hns _ _ _ _ _ _ _].
  pose proof (ok_stage _ _ (wo_strategy _ _ Hw) _ (wo_wid _ _ Hw)) as Hs. unfold GET_NUM_STAGES in Hns.
  unfold run_iteration in Hrun. apply Z.eqb_eq in Hrun.
  replace (GET_MY_STAGE (e_strategy (w_env w)) wid) with 0 in Hrun by lia. exact Hrun.
Qed.

Lemma doall_unit_input w wid l pt s' bs xs : doall w wid l pt → all_go_on xs →
  posted_event (w_sh w) s' wid (targets (e_strategy (w_env w)) wid (current_iteration (w_p w))) bs (packets (p_mem (w_p w)) l + 2) xs EOI →
  (∀ u, ToCommit u ∉ bs) → lenZ bs = lenZ (broadcast_targets (e_strategy (w_env w)) 1 wid) →
  ∃ box n, unit_input (World s' pt (w_env w)) box [] ∧ ∀ i, ib_msgs (box i) = replicate n MBoi ++ xs.
Proof.
  intros D Hgo Q Hbs Hbl. pose proof (doall_wid _ _ _ _ D) as Hwid.
  destruct D as [[[Hw Ha] _ _ _ _ _ _ _ _ _ R _] Hns Htcb Hid Hit Hu (pre & He & Hboi & Hnd & Hfit) Hc Hpool].
  set (g := e_strategy (w_env w)) in *. set (cs := targets g wid (current_iteration (w_p w))) in *.
  assert (ToTryCommit wid 0 ∈ cs) as Hin.
  { apply elem_of_app. right. apply list_elem_of_singleton. unfold target_try_commit. by rewrite Z.mod_1_r. }
  destruct (pe_in _ _ _ _ _ _ _ _ Q _ _ Hin He) as (ids & H1 & H2 & H3 & H4 & H5).
  assert (∀ o i, WPacket o i ∈ pre → ¬ next_packet (sh_pools (w_sh w)) wid
    ((packets (p_mem (w_p w)) l + 2 - 1) * lenZ cs + lenZ bs) (WPacket o i)) as Hused.
  { intros o i Hi (e & Hee & [= -> ->]). rewrite Forall_forall in Hboi. destruct (Hboi _ Hi) as (? & ? & [= <- <-] & _ & Hp).
    apply Hp. apply (pr_free _ _ _ (rm_pool _ _ _ _ _ R)). fold cs. rewrite Hbl in Hee. pose proof (lenZ_nonneg cs). fold g in Hee. lia. }
  destruct (encodes_split _ _ _ _ H2) as (i1 & i2 & -> & E1 & E2%encodes_one).
  pose proof (wo_wid _ _ Hw) as Hlt. pose proof (lenZ_nonneg pre). rewrite lenZ_app' in H4.
  assert (NoDup (pre ++ i1 ++ i2)) as Hnd'.
  { apply NoDup_app. split; [done|]. split; [|done]. intros v Hv Hv'. rewrite Forall_forall in Hboi.
    destruct (Hboi _ Hv) as (o & i & -> & _). by apply (Hused o i Hv), H5. }
  exists (λ _, Inbox (pre ++ i1) (replicate (length pre) MBoi ++ xs) i2 []), (length pre). split; [|done].
  assert ((seqZ 0 1 ≫= λ i, box_ids (Inbox (pre ++ i1) (replicate (length pre) MBoi ++ xs) i2 [])) = pre ++ i1 ++ i2) as Hall
    by (change (seqZ 0 1) with [0]; cbn; by rewrite app_nil_r, <-app_assoc).
  assert (lenZ (pre ++ i1 ++ i2) ≤ PAIRS) as Hlen by (rewrite !lenZ_app'; lia).
  split; cbn [w_p w_sh w_env]; fold g; rewrite ?Hns, ?Hall.
  - by eapply posted_event_unit.
  - rewrite Htcb. apply Hw.
  - intros i Hi. replace i with 0 by lia. rewrite Hit, Hwid, Hid, Z.sub_diag. split; [split; simpl|done].
    + by rewrite app_nil_r, <-app_assoc.
    + apply encodes_app; [|exact E1]. eapply boi_encodes; [exact Hboi|]. intros o j Hj.
      apply (pe_packet _ _ _ _ _ _ _ _ Q). by apply Hused.
    + apply Forall_app. split; [apply boi_go|done].
    + by eexists.
  - done.
  - assert (PAIRS ≤ PACKET_POOL_SIZE) as Hps by done. split; [apply Q|lia|].
    intros e _. rewrite (pe_packet _ _ _ _ _ _ _ _ Q); [apply Hpool|]. intros (e' & _ & [= E' _]). lia.
  - rewrite Hid, Z.sub_diag. by apply (pe_out _ _ _ _ _ _ _ _ Q).
  - change (lenZ []) with 0. lia.
Qed.

(** [C2] One iteration, the first or a later one, of a parallel loop with one stage
    and one try-commit unit, from the worker to the main process: the worker, whose
    begins of iterations may have queued BOI packets, sends its work; when the try-commit unit accepts it, the commit
    unit changes exactly the bytes that the iteration wrote in the memory of the
    main process, to the values of the worker, and counts one more committed
    iteration; when the unit rejects it, because of a conflict or a wrong
    prediction, the misspeculation is recorded and the
    main process keeps its memory and its counters. *)
Theorem doall_iteration w wid l pt pm em sent st b iter0 :
  doall w wid l pt → progress 1 iter0 sent (World (w_sh w) pm em) st b →
  ∃ w1, end_iter w = Ok tt w1 ∧
  match try_commit_iter (World (w_sh w1) pt (w_env w)) with
  | Ok _ w2 => ∃ st' v', cm_unit 1 1 0 st (World (w_sh w2) pm em) = Ok st' v' ∧
      (∀ s a, s ∈ l → written (p_mem (w_p w)) s a → rd (p_mem (w_p v')) a = rd (p_mem (w_p w)) a) ∧
      (∀ a, (∀ s, s ∈ l → ¬ written (p_mem (w_p w)) s a) → rd (p_mem (w_p v')) a = rd (p_mem pm) a) ∧
      current_iteration (w_p v') = i32 (iter0 + b + 1) ∧
      last_committed_iteration <$> the_pcb (w_sh v') = Some (i32 (iter0 + b))
  | Stop why w2 => why = Exited 0 ∧
      (∃ p, the_pcb (w_sh w) = Some p ∧
        the_pcb (w_sh w2) = Some (record_misspec (worker_id pt) (current_iteration pt) "try-commit failed" p)) ∧
      cm_unit 1 1 0 st (World (w_sh w2) pm em) = Ok st (World (w_sh w2) pm em)
  end.
Proof.
  intros D HB. destruct (end_iter_run w wid l (da_worker _ _ _ _ D)) as (w1 & xs & E & Q & [Hgo X] & _).
  exists w1. split; [exact E|].
  destruct (doall_unit_input w wid l pt (w_sh w1) _ xs D Hgo Q) as (box & n & UI & Hbox); [|done|].
  { intros u Hu. by apply elem_of_app in Hu as [(x & (y & [=] & _)%list_elem_of_fmap & _)%list_elem_of_bind|
      (y & [=] & _)%list_elem_of_fmap]. }
  set (v := World (w_sh w1) pt (w_env w)) in *. pose proof (pe_rest _ _ _ _ _ _ _ _ Q) as Hr.
  pose proof (progress_shared 1 iter0 sent (w_sh w) (w_sh w1) pm em st b Hr HB) as HB1.
  pose proof (unit_iteration v box [] UI) as H. cbv zeta in H. cbn [w_p w_env v] in H.
  rewrite (da_id _ _ _ _ D), Z.sub_diag, (da_stages _ _ _ _ D) in H.
  destruct (validate _ _ _ _ _) as [m'|].
  - destruct H as (w2 & ids & -> & A).
    destruct (accepted_commits v w2 box ids m' pm em sent st b iter0) as (st' & v' & Ec & Em & Ei & Ep).
    + cbn [w_env v]. by rewrite (da_stages _ _ _ _ D).
    + cbn [w_env v]. by rewrite (da_stages _ _ _ _ D).
    + cbn [w_env v]. rewrite (da_stages _ _ _ _ D). apply Z.mod_1_r.
    + intros i _. rewrite Hbox. apply Forall_app. split; [apply boi_go|done].
    + exact A.
    + cbn [w_env v] in *. rewrite (da_stages _ _ _ _ D), Z.div_1_r in *. change (seqZ 0 1) with [0] in Em.
      cbn [mbind list_bind] in Em. rewrite app_nil_r, Hbox, foldl_app, boi_apply in Em.
      exists st', v'. split_and!; [done| | |done|done].
      * intros s a Hs Hw. rewrite Em. by apply (proj1 (X (p_mem pm) a) s).
      * intros a Ha. rewrite Em. by apply X.
  - destruct H as (w2 & p & -> & Hp & Hp2 & Hq). split; [done|]. unfold rest_of in Hr. injection Hr as R1 _ _ _.
    split; [exists p; split; [by rewrite <-R1|exact Hp2]|].
    eapply empty_commits; [exact HB1|]. apply Hq. pose proof (ui_pending _ _ _ UI) as Hpend. cbn [w_p w_sh v] in Hpend.
    by rewrite (da_id _ _ _ _ D), Z.sub_diag in Hpend.
Qed.

(** ** A concrete input

    The worker of [end_world] in iteration 1, with the BOI packet of the begin of
    this iteration in the queue to the try-commit unit. *)

Definition boi_index : Z := PACKET_POOL_SIZE - 1.
Definition boi_pools : pools := put_packet (init_packets 2) 0 boi_index (Packet 0xDEADBEEF NULL 0 WRITE BOI 0).
Definition boi_shared : shared :=
  chan_set (ToTryCommit 0 0) (queue_of [WPacket 0 boi_index]) (set_sh_pools boi_pools (w_sh end_world)).
Definition boi_world : world := World boi_shared (set_current_iteration 1 (w_p end_world)) (w_env end_world).
Definition boi_unit : proc := set_p_ctl (Control 3 1 0 2 1 0 0) (set_worker_id 1 (set_current_iteration 1 proc0)).
Definition boi_main : proc := set_current_iteration 1 proc0.

Lemma boi_queue : chan_holds boi_shared (ToTryCommit 0 0) [WPacket 0 boi_index].
Proof. exists (queue_of [WPacket 0 boi_index]). split; [done|]. by apply queue_of_holds. Qed.

Lemma boi_other c vs : c ≠ ToTryCommit 0 0 → chan_holds boi_shared c vs ↔ chan_holds (w_sh end_world) c vs.
Proof. intros Hc. unfold boi_shared. by rewrite chan_holds_set, decide_False, chan_holds_pools by done. Qed.

Lemma boi_room cs b l : lenZ cs = 1 → (∀ c, c ∈ cs → c = ToTryCommit 0 0) → 0 ≤ b → 0 ≤ l → l + b < PAIRS →
  room_for boi_shared 0 cs b l.
Proof.
  intros Hcs Hc Hb Hl Hp. assert (PAIRS < PACKET_POOL_SIZE) as Hps by done. unfold room_for. rewrite Hcs.
  assert (sh_pools boi_shared = boi_pools) as E by done. split; rewrite ?E.
  - split; [destruct (init_packets_ok 2) as [Ho1 Ho2 Ho3]; by split|lia|]. intros e He. unfold boi_pools. rewrite get_put_packet, decide_False.
    + unfold get_packet. simpl. by rewrite lookup_empty.
    + intros [= Ei]. change (packet_next (put_packet (init_packets 2) 0 boi_index _) 0) with 0 in Ei. unfold nth_from, boi_index in Ei.
      rewrite Z.add_0_l, Z.mod_small in Ei by lia. lia.
  - lia.
  - intros e _. unfold get_chunk. simpl. by rewrite lookup_empty.
  - intros c ->%Hc. exists [WPacket 0 boi_index]. split; [apply boi_queue|]. unfold lenZ. simpl. lia.
Qed.

Lemma boi_ending : ending boi_world 0 [end_page_shadow].
Proof.
  assert (∀ c, c ∈ broadcast_targets one_stage 1 0 → c = ToTryCommit 0 0) as Hc
    by (intros c H; by apply list_elem_of_singleton in H).
  assert (∀ c, c ∈ targets one_stage 0 1 → c = ToTryCommit 0 0) as Hc'
    by (intros c H; by apply list_elem_of_singleton in H).
  destruct end_world_ending as [H1 H2 H3 H4 H5 H6 H7 H8 H9 H10 _ _]. destruct H1 as [[W1 W2 W3 W4] Hb].
  split; try done.
  - apply boi_room; [done|exact Hc'|done|done|by vm_compute].
  - intros c ->%Hc. eexists. split; [apply boi_queue|done].
Qed.

Lemma boi_unit_queues : queues_ok boi_shared.
Proof.
  intros c q E. unfold boi_shared in E. rewrite chan_get_set in E. destruct (decide (ToTryCommit 0 0 = c)) as [_|Hne].
  { injection E as <-. eexists. by apply queue_of_holds. }
  exists []. assert (q = sw_queue_create) as ->; [|apply create_holds]. rewrite chan_get_pools in E.
  change (w_sh end_world) with (chan_set (ToTryCommit 0 0) sw_queue_create (chan_set (ToCommit 0) sw_queue_create
    (set_good_to_go (Some 1) (set_the_pcb (Some pcb0) (set_sh_pools (init_packets 2) shared0))))) in E.
  rewrite !chan_get_set in E. do 2 (destruct (decide _); [by injection E|]).
  destruct c; simpl in E; by rewrite lookup_empty in E.
Qed.

Lemma boi_doall : doall boi_world 0 [end_page_shadow] boi_unit.
Proof.
  split; try done.
  - exact boi_ending.
  - split; [split|by eexists| | |].
    + by vm_compute.
    + by vm_compute.
    + exact boi_unit_queues.
    + intros c Hc. change (c ∈ [ToTryCommit 0 0]) in Hc. apply list_elem_of_singleton in Hc as ->. by eexists.
    + intros i j Hi. change (0 ≤ i < 0) in Hi. lia.
    + intros i j Hi. change (0 ≤ i < 0) in Hi. lia.
    + intros i j e Hi. change (0 ≤ i < 0) in Hi. lia.
  - exists [WPacket 0 boi_index]. split; [exact boi_queue|]. split; [|split; [apply NoDup_singleton|by vm_compute]].
    apply Forall_singleton. by exists 0, boi_index.
  - apply boi_other; [done|]. exists sw_queue_create. split; [done|apply create_holds].
  - intros i. change (pk_ptr (get_packet boi_pools 1 i) = 0). unfold boi_pools.
    rewrite get_put_packet, decide_False by congruence. unfold get_packet. simpl. by rewrite lookup_empty.
Qed.

Lemma boi_progress : progress 1 1 (λ _, 0) (World boi_shared boi_main (w_env end_world)) (CM ∅ ∅ 0) 0.
Proof. apply barriers_start; [lia|lia|lia| |done|by eexists]. split; [intros i j Hi; change (0 ≤ i < 0) in Hi; lia|by eexists]. Qed.

Lemma doall_iteration_witness : ∃ w1, end_iter boi_world = Ok tt w1 ∧
  match try_commit_iter (World (w_sh w1) boi_unit (w_env end_world)) with
  | Ok _ w2 => ∃ st' v', cm_unit 1 1 0 (CM ∅ ∅ 0) (World (w_sh w2) boi_main (w_env end_world)) = Ok st' v' ∧
      rd (p_mem (w_p v')) 0x7008 = 0x55 ∧ current_iteration (w_p v') = 2
  | Stop why _ => why = Exited 0
  end.
Proof.
  destruct (doall_iteration boi_world 0 [end_page_shadow] boi_unit boi_main (w_env end_world) _ _ 0 1 boi_doall boi_progress)
    as (w1 & E & H). exists w1. split; [exact E|]. destruct (try_commit_iter _) as [b w2|why w2].
  - destruct H as (st' & v' & Ec & H1 & _ & H2 & _). exists st', v'. split; [exact Ec|]. split; [|exact H2].
    rewrite (H1 end_page_shadow); [apply end_world_written|by apply list_elem_of_singleton|apply end_world_written].
  - by destruct H as [-> _].
Defined.
