(* ===== verification/Spawn.v ===== *)
(** The life cycle of an invocation: spawning establishes what the operations of
    the workers rely on, joining restores the state from before. *)
From S2P Require Import Prelude Machine Strategy Text SwQueue Packet State Communicate Malloc Separation Speculation Protection Prediction Units Messages TryCommit Validate Control LoopEvent Posted EndIter Iteration.
From stdpp Require Import strings.
#[local] Open Scope Z_scope.

(** ** New queues *)

Lemma foldl_insert {K A} `{Countable K} (skip : K → bool) (v : A) l : ∀ (t : gmap K A) x,
  foldl (λ t k, if skip k then t else <[k := v]> t) t l !! x =
  if decide (x ∈ l ∧ skip x = false) then Some v else t !! x.
Proof.
  induction l as [|k l IH] using rev_ind; intros t x.
  { rewrite decide_False; [done|]. by intros [?%elem_of_nil _]. }
  rewrite foldl_app. simpl. specialize (IH t x).
  assert (x ∈ l ++ [k] ↔ x ∈ l ∨ x = k) as Hin by (by rewrite elem_of_app, list_elem_of_singleton).
  destruct (skip k) eqn:Hk.
  - rewrite IH. apply decide_ext. rewrite Hin. split; [tauto|]. intros [[?| ->] ?]; [done|congruence].
  - destruct (decide (k = x)) as [->|Hne].
    + rewrite lookup_insert_eq, decide_True; [done|]. rewrite Hin. tauto.
    + rewrite lookup_insert_ne, IH by done. apply decide_ext. rewrite Hin. split; [tauto|].
      intros [[?| ->] ?]; done.
Qed.

Lemma foldl_pairs {S} (f : S → Z * Z → S) (h : Z → list Z) l : ∀ s,
  foldl (λ s i, foldl (λ s j, f s (i, j)) s (h i)) s l = foldl f s (l ≫= λ i, (λ j, (i, j)) <$> h i).
Proof.
  induction l as [|i l IH]; intros s; [done|]. cbn [foldl mbind list_bind]. rewrite foldl_app, <-IH. f_equal.
  clear IH. revert s. induction (h i) as [|j js IH]; intros s; [done|]. apply IH.
Qed.

(** The queues of [n] workers and [a] try-commit units. *)
Definition chan_valid (g : strategy) (n a : Z) (c : chan) : Prop :=
  match c with
  | Ucvf i j => 0 ≤ i < j ∧ j < n ∧ GET_MY_STAGE g i ≠ GET_MY_STAGE g j
  | ToTryCommit i u => 0 ≤ i < n ∧ 0 ≤ u < a
  | ToCommit u => 0 ≤ u < a
  | Reverse i => 0 ≤ i < n
  end.

#[global] Instance chan_valid_dec g n a c : Decision (chan_valid g n a c).
Proof. destruct c; apply _. Defined.

Lemma init_queues_run n a w : ∃ s, init_queues n a w = Ok tt (set_sh s w) ∧ sh_pools s = sh_pools (w_sh w) ∧
  rest_of s = rest_of (w_sh w) ∧
  ∀ c, chan_get s c = if decide (chan_valid (e_strategy (w_env w)) n a c) then Some sw_queue_create else None.
Proof.
  set (g := e_strategy (w_env w)). eexists. split; [unfold init_queues; run_w; reflexivity|]. split; [done|]. split; [done|]. fold g.
  intros [i j|i u|u|i]; simpl.
  - transitivity (foldl (λ t k, if GET_MY_STAGE g k.1 =? GET_MY_STAGE g k.2 then t else <[k := sw_queue_create]> t) (∅ : gmap (Z * Z) queue_t)
      (seqZ 0 n ≫= λ i, (λ j, (i, j)) <$> seqZ (i + 1) (n - (i + 1))) !! (i, j)).
    { by rewrite <-foldl_pairs. }
    rewrite (foldl_insert (λ k, GET_MY_STAGE g k.1 =? GET_MY_STAGE g k.2)), lookup_empty. apply decide_ext.
    rewrite list_elem_of_bind, Z.eqb_neq. simpl. split.
    + intros [(x & (y & [= -> ->] & Hy%elem_of_seqZ)%list_elem_of_fmap & Hx%elem_of_seqZ) Hs]. split_and!; [lia|lia|lia|done].
    + intros (H1 & H2 & Hs). split; [|done]. exists i. rewrite elem_of_seqZ, list_elem_of_fmap. split; [|lia].
      exists j. split; [done|]. apply elem_of_seqZ. lia.
  - transitivity (foldl (λ t k, if false then t else <[k := sw_queue_create]> t) (∅ : gmap (Z * Z) queue_t)
      (seqZ 0 n ≫= λ i, (λ j, (i, j)) <$> seqZ 0 a) !! (i, u)).
    { by rewrite <-foldl_pairs. }
    rewrite (foldl_insert (λ _, false)), lookup_empty. apply decide_ext. fold (grid n a). rewrite elem_of_grid. tauto.
  - rewrite (foldl_insert (λ _, false)), lookup_empty. apply decide_ext. rewrite elem_of_seqZ. intuition lia.
  - rewrite (foldl_insert (λ _, false)), lookup_empty. apply decide_ext. rewrite elem_of_seqZ. intuition lia.
Qed.

(** ** Spawning *)

Section fork.
Context (fork : Z → Z).

Lemma fork_parent l iter w : (∀ i, i ∈ l → fork i ≠ 0) →
  fork_workers fork l iter w = Ok MAIN_PROCESS_WID (set_p (set_current_iteration iter (w_p w)) w).
Proof.
  induction l as [|i l IH]; intros H; [done|]. cbn [fork_workers].
  rewrite (proj2 (Z.eqb_neq _ _)) by (apply H, elem_of_cons; by left). apply IH.
  intros j Hj. apply H, elem_of_cons. by right.
Qed.

Lemma fork_child l1 wid l2 iter w : (∀ i, i ∈ l1 → fork i ≠ 0) → fork wid = 0 → wid ≠ MAIN_PROCESS_WID →
  fork_workers fork (l1 ++ wid :: l2) iter w =
  Ok wid (set_p (set_current_iteration iter (set_worker_id wid (w_p w))) w).
Proof.
  intros H H0 Hm. induction l1 as [|i l IH]; cbn [fork_workers app].
  - rewrite H0. simpl. unfold init_worker. run_w. by rewrite (proj2 (Z.eqb_neq _ _)).
  - rewrite (proj2 (Z.eqb_neq _ _)) by (apply H, elem_of_cons; by left). apply IH.
    intros j Hj. apply H, elem_of_cons. by right.
Qed.
End fork.

(** The main process before an invocation with [n] workers and one try-commit
    unit. *)
Record spawnable (w : world) (n : Z) : Prop := {
  sp_main : worker_id (w_p w) = MAIN_PROCESS_WID;
  sp_ctl : num_available_workers_ (p_ctl (w_p w)) = n ∧ num_active_workers (p_ctl (w_p w)) = 0 ∧
           num_aux_workers (p_ctl (w_p w)) = 1 ∧ try_commit_begin (p_ctl (w_p w)) = 0;
  sp_pos : 0 < n ≤ MAX_WORKERS;
  sp_strategy : strategy_ok (e_strategy (w_env w)) n;
  sp_go : is_Some (good_to_go (w_sh w)) }.

(** The counters while the [n] workers run. *)
Definition spawned_ctl (n : Z) (c : control) : control :=
  set_try_commit_begin n (set_num_available_workers_ 0 (set_num_active_workers n c)).

(** Shared memory when the processes start: empty queues, free pools. *)
Record fresh (g : strategy) (n : Z) (s : shared) : Prop := {
  fr_chans c : chan_get s c = if decide (chan_valid g n 1 c) then Some sw_queue_create else None;
  fr_pools : sh_pools s = init_packets (n + 1);
  fr_go : good_to_go s = Some 0 }.

Lemma spawn_workers_run fork n iter w : 0 < n ≤ MAX_WORKERS → num_available_workers_ (p_ctl (w_p w)) = n →
  try_commit_begin (p_ctl (w_p w)) = 0 →
  spawn_workers fork n 1 iter w =
  fork_workers fork (seqZ 0 (n + 1)) iter (set_p (set_p_ctl (spawned_ctl n (p_ctl (w_p w))) (w_p w)) w).
Proof.
  intros Hn Ha Ht. assert (MAX_WORKERS = 31) as Hmax by done.
  unfold spawn_workers. unfold bind at 1, modctl, modp, modify. unfold bind at 1. cbn [w_p set_p p_ctl set_p_ctl num_available_workers_
    set_num_active_workers]. rewrite Ha, Z.sub_diag. change (i32 0) with 0.
  unfold set_try_commit_begin_. rewrite bind_bind. unfold bind at 1, ctl, getp, gets. cbn [w_p set_p p_ctl set_p_ctl try_commit_begin
    set_num_available_workers_ set_num_active_workers]. rewrite Ht, !wrap_small by lia. done.
Qed.

Lemma setup_run w n np : spawnable w n → ∃ s, fresh (e_strategy (w_env w)) n s ∧
  the_pcb s = the_pcb (w_sh w) ∧ loop_invariant_buffer s = loop_invariant_buffer (w_sh w) ∧
  linear_predictors s = linear_predictors (w_sh w) ∧
  ∀ fork iter callback, spawn_workers_callback fork np iter callback w =
    (let! id := fork_workers fork (seqZ 0 (n + 1)) iter in
     if id =? MAIN_PROCESS_WID then ret id else
     (if id <? n then callback else if id <? n + 1 then try_commit else assert_ false) ;;;
     worker_finishes 0 ;;; assert_ false ;;; ret 0)
    (World s (set_p_ctl (spawned_ctl n (p_ctl (w_p w))) (w_p w)) (w_env w)).
Proof.
  intros [Hm (Ha & Hac & Hx & Ht) Hn Hst [go Hgo]]. assert (MAX_WORKERS = 31) as Hmax by done.
  assert (u32 n = n ∧ i32 n = n ∧ u32 (n + 1) = n + 1 ∧ i32 (n - n) = 0) as (U1 & U2 & U3 & U4).
  { rewrite Z.sub_diag. unfold swrap. change (2 ^ (32 - 1)) with 2147483648. rewrite !wrap_small by lia. lia. }
  destruct (init_queues_run n 1 w) as (s & E & Hp & Hr & Hc). unfold rest_of in Hr. injection Hr as R1 R2 R3 R4.
  exists (set_good_to_go (Some 0) (set_sh_pools (init_packets (n + 1)) s)).
  split; [split; [intros c; rewrite <-Hc; by destruct c|done|done]|]. split_and!; try done.
  intros fork iter callback.
  assert (num_available_workers np w = Ok n w) as E1.
  { unfold num_available_workers. unfold bind at 1, ctl, getp, gets. rewrite Ha.
    rewrite (proj2 (Z.eqb_neq _ _)) by lia. unfold bind, ret. by rewrite Ha. }
  unfold spawn_workers_callback. unfold bind at 1, my_worker_id, getp, gets. rewrite Hm.
  change (assert_ (MAIN_PROCESS_WID =? MAIN_PROCESS_WID)) with (@ret world unit tt). unfold bind at 1, ret at 1.
  unfold bind at 1. rewrite E1, U1. unfold bind at 1, ctl, getp, gets. rewrite Hx. change (u32 1) with 1.
  unfold bind at 1. rewrite E, U3. unfold bind at 1, modsh, modify. unfold bind at 1, getsh, gets. cbn [w_sh set_sh].
  change (good_to_go (set_sh_pools (init_packets (n + 1)) s)) with (good_to_go s).
  rewrite R2, Hgo. unfold bind at 1. unfold bind at 1. rewrite U2, spawn_workers_run; done.
Qed.

(** ** Joining *)

Definition unregister_li (e : LoopInvariantBuffer) : LoopInvariantBuffer := LIBuf 0 (li_value e) (li_size e).
Definition unregister_lp (e : LinearPredictor) : LinearPredictor := LPred 0 (lp_size e).

(** A loop that replaces entries of a table by [f]. *)
Lemma replace_entries {A} (f : A → A) (l : list (Z * Z)) (t : gmap (Z * Z) A) (step : gmap (Z * Z) A → Z * Z → gmap (Z * Z) A) :
  (∀ t x e, t !! x = Some e → step t x = <[x := f e]> t) → (∀ e, f (f e) = f e) → (∀ x, x ∈ l → is_Some (t !! x)) →
  ∀ x, foldl step t l !! x = if decide (x ∈ l) then f <$> t !! x else t !! x.
Proof.
  intros Hstep Hf. induction l as [|y l IH] using rev_ind; intros Hs x.
  { by rewrite decide_False by apply not_elem_of_nil. }
  assert (∀ z, z ∈ l ++ [y] ↔ z ∈ l ∨ z = y) as Hin by (intros z; by rewrite elem_of_app, list_elem_of_singleton).
  specialize (IH (λ z Hz, Hs z (proj2 (Hin z) (or_introl Hz)))). rewrite foldl_app. simpl.
  destruct (Hs y (proj2 (Hin y) (or_intror eq_refl))) as [e He].
  assert (∃ e', foldl step t l !! y = Some e' ∧ f e' = f e) as (e' & He' & Hfe).
  { rewrite IH, He. destruct (decide _); simpl; eexists; (split; [done|]); [apply Hf|done]. }
  rewrite (Hstep _ _ _ He'). destruct (decide (y = x)) as [->|Hne].
  - by rewrite lookup_insert_eq, decide_True, He, Hfe by (apply Hin; by right).
  - rewrite lookup_insert_ne, IH by done. destruct (decide (x ∈ l)) as [H|H].
    + by rewrite decide_True by (apply Hin; by left).
    + rewrite decide_False; [done|]. rewrite Hin. intros [?| ->]; done.
Qed.

Definition replace {A} (f : A → A) (t : gmap (Z * Z) A) (x : Z * Z) : gmap (Z * Z) A :=
  match t !! x with Some e => <[x := f e]> t | None => t end.

Lemma replace_Some {A} (f : A → A) t x y : is_Some (t !! y) → is_Some (replace f t x !! y).
Proof.
  intros H. unfold replace. destruct (t !! x) eqn:E; [|done].
  destruct (decide (x = y)) as [->|]; [rewrite lookup_insert_eq; by eexists|by rewrite lookup_insert_ne].
Qed.

Lemma replace_all {A} (f : A → A) l t : (∀ e, f (f e) = f e) → (∀ x, x ∈ l → is_Some (t !! x)) →
  ∀ x, foldl (replace f) t l !! x = if decide (x ∈ l) then f <$> t !! x else t !! x.
Proof. intros Hf Hs. apply replace_entries; [|done|done]. intros u x e E. unfold replace. by rewrite E. Qed.

Lemma reset_li_run l : ∀ w, (∀ x, x ∈ l → is_Some (loop_invariant_buffer (w_sh w) !! x)) →
  for_ l (λ x, let! li := li_at x.1 x.2 in put_li x.1 x.2 (LIBuf 0 (li_value li) (li_size li))) w =
  Ok tt (set_sh (set_loop_invariant_buffer (foldl (replace unregister_li) (loop_invariant_buffer (w_sh w)) l) (w_sh w)) w).
Proof.
  induction l as [|[i j] l IH]; intros w Hs; [by destruct w as [[] ? ?]|].
  destruct (Hs (i, j)) as [e He]; [apply elem_of_cons; by left|].
  set (w1 := set_sh (set_loop_invariant_buffer (<[(i, j) := unregister_li e]> (loop_invariant_buffer (w_sh w))) (w_sh w)) w).
  assert (replace unregister_li (loop_invariant_buffer (w_sh w)) (i, j) = loop_invariant_buffer (w_sh w1)) as E
    by (unfold replace; by rewrite He).
  cbn [for_ foldl]. rewrite E. transitivity (for_ l (λ x, let! li := li_at x.1 x.2 in
    put_li x.1 x.2 (LIBuf 0 (li_value li) (li_size li))) w1).
  - unfold li_at, put_li. run_w. by rewrite He.
  - rewrite IH; [done|]. intros x Hx. rewrite <-E. apply replace_Some, Hs, elem_of_cons. by right.
Qed.

Lemma reset_lp_run l : ∀ w, (∀ x, x ∈ l → is_Some (linear_predictors (w_sh w) !! x)) →
  for_ l (λ x, let! lp := lp_at x.1 x.2 in put_lp x.1 x.2 (LPred 0 (lp_size lp))) w =
  Ok tt (set_sh (set_linear_predictors (foldl (replace unregister_lp) (linear_predictors (w_sh w)) l) (w_sh w)) w).
Proof.
  induction l as [|[i j] l IH]; intros w Hs; [by destruct w as [[] ? ?]|].
  destruct (Hs (i, j)) as [e He]; [apply elem_of_cons; by left|].
  set (w1 := set_sh (set_linear_predictors (<[(i, j) := unregister_lp e]> (linear_predictors (w_sh w))) (w_sh w)) w).
  assert (replace unregister_lp (linear_predictors (w_sh w)) (i, j) = linear_predictors (w_sh w1)) as E
    by (unfold replace; by rewrite He).
  cbn [for_ foldl]. rewrite E. transitivity (for_ l (λ x, let! lp := lp_at x.1 x.2 in
    put_lp x.1 x.2 (LPred 0 (lp_size lp))) w1).
  - unfold lp_at, put_lp. run_w. by rewrite He.
  - rewrite IH; [done|]. intros x Hx. rewrite <-E. apply replace_Some, Hs, elem_of_cons. by right.
Qed.

(** No location is registered. *)
Definition none_registered (w : world) : Prop :=
  let p := p_pred (w_p w) in
  (∀ i j, 0 ≤ i < num_loop_invariant_loads p → 0 ≤ j < num_contexts p →
     ∃ e, loop_invariant_buffer (w_sh w) !! (i, j) = Some e ∧ li_ptr e = 0) ∧
  (∀ i j, 0 ≤ i < num_linear_predictable_loads p → 0 ≤ j < num_contexts p →
     ∃ e, linear_predictors (w_sh w) !! (i, j) = Some e ∧ lp_ptr e = 0).

Lemma reset_predictors_run w : li_table_ok w → lp_table_ok w → ∃ t u,
  let w' := set_sh (set_linear_predictors u (set_loop_invariant_buffer t (w_sh w))) w in
  reset_predictors w = Ok tt w' ∧ none_registered w'.
Proof.
  intros Hli Hlp. set (p := p_pred (w_p w)).
  assert (∀ x, x ∈ grid (num_loop_invariant_loads p) (num_contexts p) → is_Some (loop_invariant_buffer (w_sh w) !! x)) as H1
    by (intros [i j] [Hi Hj]%elem_of_grid; by apply Hli).
  assert (∀ x, x ∈ grid (num_linear_predictable_loads p) (num_contexts p) → is_Some (linear_predictors (w_sh w) !! x)) as H2
    by (intros [i j] [Hi Hj]%elem_of_grid; by apply Hlp).
  eexists _, _. split.
  - unfold reset_predictors. unfold bind at 1. rewrite for_li_grid. fold p. rewrite reset_li_run by done.
    rewrite for_lp_grid. cbn [w_p set_sh]. fold p. by rewrite reset_lp_run.
  - split; intros i j Hi Hj; cbn [w_sh set_sh loop_invariant_buffer set_loop_invariant_buffer linear_predictors set_linear_predictors].
    + destruct (Hli i j Hi Hj) as [e He]. rewrite replace_all, decide_True, He by (done || by apply elem_of_grid). by eexists.
    + destruct (Hlp i j Hi Hj) as [e He]. rewrite replace_all, decide_True, He by (done || by apply elem_of_grid). by eexists.
Qed.

Lemma join_cleanup_run v n c p : num_available_workers_ c = n → num_active_workers c = 0 → try_commit_begin c = 0 →
  0 < n ≤ MAX_WORKERS → p_ctl (w_p v) = spawned_ctl n c → li_table_ok v → lp_table_ok v → the_pcb (w_sh v) = Some p →
  ∃ v', join_cleanup v = Ok (if misspeculation_happened p =? 0 then exit_taken p else 0) v' ∧
    p_ctl (w_p v') = c ∧ p_mem (w_p v') = p_mem (w_p v) ∧ current_iteration (w_p v') = current_iteration (w_p v) ∧
    none_registered v' ∧ ∀ ch, chan_get (w_sh v') ch = None.
Proof.
  intros Ha Hac Ht Hn Hc Hli Hlp Hp. assert (MAX_WORKERS = 31) as Hmax by done.
  destruct (reset_predictors_run v Hli Hlp) as (t & u & E & Hnone). unfold join_cleanup.
  unfold bind at 1. rewrite E. revert Hnone. clear E.
  set (s := set_linear_predictors u (set_loop_invariant_buffer t (w_sh v))). intros Hnone.
  assert (i32 (0 + n) = n) as Hi by (unfold swrap; change (2 ^ (32 - 1)) with 2147483648; rewrite wrap_small; lia).
  eexists. split.
  - unfold fini_queues, fini_packets, reset_try_commit_begin, get_pcb. run_w. rewrite Hp. reflexivity.
  - cbn [w_p set_p p_ctl set_p_ctl p_mem current_iteration w_sh]. rewrite Hc.
    cbn [spawned_ctl num_available_workers_ num_active_workers set_num_available_workers_ set_num_active_workers set_try_commit_begin].
    rewrite Hi. split; [by destruct c; simpl in *; subst|]. split; [done|]. split; [done|]. split; [exact Hnone|].
    intros ch. by destruct ch; simpl; rewrite lookup_empty.
Qed.

(** ** Properties *)

Lemma spawned_worker w n s iter wid : spawnable w n → fresh (e_strategy (w_env w)) n s → 0 ≤ wid < n →
  let g := e_strategy (w_env w) in
  let v := World s (set_current_iteration iter (set_worker_id wid (set_p_ctl (spawned_ctl n (p_ctl (w_p w))) (w_p w)))) (w_env w) in
  sender v wid ∧ chans_ready v (broadcast_targets g 1 wid) ∧
  ∀ it b l, 0 ≤ b → 0 ≤ l ≤ PAIRS → l * lenZ (targets g wid it) + b ≤ PACKET_POOL_SIZE →
    room_for s wid (targets g wid it) b l.
Proof.
  intros [Hm (Ha & Hac & Hx & Ht) Hn Hst Hgo] [Fc Fp _] Hw g v. fold g in Hst, Fc.
  assert (∀ c, c ∈ broadcast_targets g 1 wid → chan_holds s c []) as Hempty.
  { intros c Hc. exists sw_queue_create. split; [|apply create_holds]. rewrite Fc, decide_True; [done|].
    pose proof (elem_of_broadcast g n 1 wid) as Hb. destruct c as [i j|i u|u|i].
    - assert (i = wid) as -> by (apply elem_of_app in Hc as [(x & (y & [= ? ?] & _)%list_elem_of_fmap & _)%list_elem_of_bind|
        (y & [=] & _)%list_elem_of_fmap]; done).
      apply (Hb j Hst Hw) in Hc as [Hj Hlt]. pose proof (ok_first _ _ Hst _ Hw) as F1. pose proof (ok_first _ _ Hst _ Hj) as F2.
      pose proof (ok_stage _ _ Hst _ Hw). pose proof (ok_stage _ _ Hst _ Hj).
      pose proof (ok_order _ _ Hst (GET_MY_STAGE g wid) (GET_MY_STAGE g j) ltac:(lia) ltac:(lia)).
      split; [lia|]. split; [lia|]. lia.
    - apply elem_of_app in Hc as [(x & (y & [=] & _)%list_elem_of_fmap & _)%list_elem_of_bind|
        (y & [= -> ->] & Hy%elem_of_seqZ)%list_elem_of_fmap]. split; [done|lia].
    - by apply elem_of_app in Hc as [(x & (y & [=] & _)%list_elem_of_fmap & _)%list_elem_of_bind| (y & [=] & _)%list_elem_of_fmap].
    - by apply elem_of_app in Hc as [(x & (y & [=] & _)%list_elem_of_fmap & _)%list_elem_of_bind| (y & [=] & _)%list_elem_of_fmap]. }
  split; [split; [split; simpl; [done|done|lia|lia]|done]|]. split.
  - intros c Hc. exists []. split; [by apply Hempty|done].
  - intros it b l Hb Hl Hsz. assert (PAIRS ≤ PACKET_POOL_SIZE) as Hps by done. split.
    + rewrite Fp. split; [apply init_packets_ok|done|]. intros e _. unfold get_packet. simpl. by rewrite lookup_empty.
    + lia.
    + intros e _. rewrite Fp. unfold get_chunk. simpl. by rewrite lookup_empty.
    + intros c Hc. exists []. split; [apply Hempty; by apply (targets_broadcast g n wid it)|]. unfold lenZ. simpl. lia.
Qed.

(** The life cycle of the processes: spawning gives every process empty
    queues and free packet pools in shared memory, and its own number; every
    worker can send, the last process runs the try-commit unit, all of them end
    with [worker_finishes], and only the main process returns.  Joining removes
    the queues, restores the counters of the main process and unregisters all
    predicted locations; it returns the exit of the loop, or zero after a
    misspeculation. *)
Theorem spawn_and_join w n np iter : spawnable w n →
  let g := e_strategy (w_env w) in
  let c := spawned_ctl n (p_ctl (w_p w)) in
  ∃ s, fresh g n s ∧ the_pcb s = the_pcb (w_sh w) ∧
    (∀ fork callback, (∀ i, 0 ≤ i ≤ n → fork i ≠ 0) →
      spawn_workers_callback fork np iter callback w =
      Ok MAIN_PROCESS_WID (World s (set_current_iteration iter (set_p_ctl c (w_p w))) (w_env w))) ∧
    (∀ fork callback wid, 0 ≤ wid ≤ n → fork wid = 0 → (∀ i, 0 ≤ i < wid → fork i ≠ 0) →
      let v := World s (set_current_iteration iter (set_worker_id wid (set_p_ctl c (w_p w)))) (w_env w) in
      spawn_workers_callback fork np iter callback w =
        ((if wid <? n then callback else try_commit) ;;; worker_finishes 0 ;;; assert_ false ;;; ret 0) v ∧
      (wid < n → sender v wid ∧ chans_ready v (broadcast_targets g 1 wid) ∧
        ∀ it b l, 0 ≤ b → 0 ≤ l ≤ PAIRS → l * lenZ (targets g wid it) + b ≤ PACKET_POOL_SIZE →
          room_for s wid (targets g wid it) b l)) ∧
    (∀ v p, p_ctl (w_p v) = c → li_table_ok v → lp_table_ok v → the_pcb (w_sh v) = Some p →
      ∃ v', join_cleanup v = Ok (if misspeculation_happened p =? 0 then exit_taken p else 0) v' ∧
        p_ctl (w_p v') = p_ctl (w_p w) ∧ p_mem (w_p v') = p_mem (w_p v) ∧
        current_iteration (w_p v') = current_iteration (w_p v) ∧
        none_registered v' ∧ ∀ ch, chan_get (w_sh v') ch = None).
Proof.
  intros H g c. pose proof H as [_ (Ha & Hac & Hx & Ht) Hn Hst _]. destruct (setup_run w n np H) as (s & Hf & Hpcb & _ & _ & E).
  assert (MAX_WORKERS = 31) as Hmax by done. assert (MAIN_PROCESS_WID = 4294967295) as Hmain by done.
  exists s. split; [exact Hf|]. split; [exact Hpcb|]. split; [|split].
  - intros fork callback Hp. rewrite E. unfold bind at 1. rewrite fork_parent; [done|].
    intros i Hi%elem_of_seqZ. apply Hp. lia.
  - intros fork callback wid Hw H0 Hp v. split; [|intros Hlt; apply (spawned_worker w n s iter wid H Hf); lia].
    rewrite E. replace (n + 1) with (wid + (n - wid + 1)) at 1 by lia. rewrite seqZ_app by lia.
    rewrite (seqZ_cons (0 + wid)) by lia. unfold bind at 1. rewrite fork_child; [|intros i Hi%elem_of_seqZ; apply Hp; lia|by rewrite Z.add_0_l|lia].
    rewrite Z.add_0_l, (proj2 (Z.eqb_neq wid MAIN_PROCESS_WID)) by lia. rewrite (proj2 (Z.ltb_lt wid (n + 1))) by lia. done.
  - intros v p Hc Hli Hlp Hpc. by eapply join_cleanup_run.
Qed.

(** ** A concrete input: one worker and one try-commit unit *)

Definition spawn_world : world :=
  World (set_good_to_go (Some 1) (set_the_pcb (Some pcb0) shared0))
    (set_p_ctl (Control 3 1 1 0 0 0 0) proc0) (Env one_stage 0x500000 0x600000 (λ _, true) (λ _, true)).

Lemma spawn_and_join_witness : ∃ w', spawn_workers_callback (λ i, i + 100) None 0 (ret tt) spawn_world = Ok MAIN_PROCESS_WID w' ∧
  ∃ v', join_cleanup w' = Ok 0 v' ∧ p_ctl (w_p v') = p_ctl (w_p spawn_world) ∧ chan_get (w_sh v') (ToTryCommit 0 0) = None.
Proof.
  destruct (spawn_and_join spawn_world 1 None 0) as (s & F & Hp & H1 & _ & H2).
  { split; [done|done|done|exact one_stage_ok|by eexists]. }
  eexists. split; [apply H1; lia|]. set (v := World s _ _). destruct (H2 v pcb0) as (v' & E & Hc & _ & _ & _ & Hq); [| | | |exists v'; split; [exact E|by split]].
  - done.
  - intros i j Hi. change (0 ≤ i < 0) in Hi. lia.
  - intros i j Hi. change (0 ≤ i < 0) in Hi. lia.
  - exact Hp.
Defined.
