(* ===== verification/Exec.v ===== *)
(** The state of the process-based runtime.

    [src/liberty/support/specpriv-executive] is the second runtime of the
    repository: it runs a DOALL loop on worker processes that each have a private
    copy of the loop's data, records in a shadow byte per private byte how the
    byte was used, and merges the copies through checkpoints in shared memory.
    This file models [constants.h], [config.h], [types.h], the structures of
    [checkpoint.h], [pcb.h], [redux.h], [io.h] and the static variables of
    [api.c], [private.c], [fiveheaps.c], [io.c] and [checkpoint.c], and the two
    ways the runtime reports misspeculation ([api.c]).

    A process has its own memory at the natural addresses of the heaps.  A
    [Heap] is an object of shared memory: its bytes are kept by offset, so that
    byte [k] is at [base + k] wherever the object is mapped. *)
From S2P Require Import Prelude Machine.
From stdpp Require Import strings.
#[global] Open Scope Z_scope.

(** ** Constants ([constants.h], [config.h]) *)

Definition POINTER_BITS : Z := 43.
Definition META_ADDR : Z := Z.shiftl 1 POINTER_BITS.
Definition REDUX_ADDR : Z := Z.shiftl 2 POINTER_BITS.
Definition PRIV_ADDR : Z := Z.shiftl 3 POINTER_BITS.
Definition SHARED_ADDR : Z := Z.shiftl 4 POINTER_BITS.
Definition RO_ADDR : Z := Z.shiftl 5 POINTER_BITS.
Definition LOCAL_ADDR : Z := Z.shiftl 6 POINTER_BITS.
Definition SHADOW_ADDR : Z := Z.shiftl 7 POINTER_BITS.
Definition KILLPRIV_ADDR : Z := Z.shiftl 8 POINTER_BITS.
Definition SHAREPRIV_ADDR : Z := Z.shiftl 10 POINTER_BITS.
Definition SHARESHADOW_ADDR : Z := Z.shiftl 11 POINTER_BITS.

(** [~(Wid)0]. *)
Definition MAIN_PROCESS : Z := not_w 32 0.
(** Of heap allocations. *)
Definition HEAP_ALIGNMENT : Z := 16.
Definition MAX_WORKERS : Z := 64.
Definition HEAP_SIZE : Z := 16 * (1024 * (1024 * 1024)).
Definition MAX_CHECKPOINT : Z := 128 * (1024 * (1024 * 1024)).
Definition LAST_ITERATION : Z := 2 ^ 31 - 1.

(** Shadow codes. *)
Definition NUM_DISTINCT_UINT8_VALUES : Z := Z.shiftl 1 (8 * 1).
Definition NUM_RESERVED_SHADOW_VALUES : Z := 3.
Definition MAX_CHECKPOINT_GRANULARITY : Z :=
  NUM_DISTINCT_UINT8_VALUES - NUM_RESERVED_SHADOW_VALUES.
Definition LIVE_IN : Z := 0.
Definition READ_LIVE_IN : Z := 1.
Definition OLD_ITERATION : Z := 2.
Definition WAS_WRITTEN_EVER (b : Z) : bool := OLD_ITERATION <=? b.

Definition V16 (b : Z) : Z := Z.lor (u16 (Z.shiftl (u16 b) 8)) (u16 b).
Definition V32 (b : Z) : Z := Z.lor (u32 (Z.shiftl (u32 (V16 b)) 16)) (u32 (V16 b)).
Definition V64 (b : Z) : Z := Z.lor (u64 (Z.shiftl (u64 (V32 b)) 32)) (u64 (V32 b)).

(** [ROUND_DOWN(n,k)] where [k] is a [size_t] or [int], and where it is an
    [unsigned], whose mask is zero-extended to 64 bits. *)
Definition RoundDown (n k : Z) : Z := Z.land (u64 (Z.lnot (k - 1))) (u64 n).
Definition RoundUp (n k : Z) : Z := RoundDown (u64 (n + (k - 1))) k.
Definition RoundDown32 (n k : Z) : Z := Z.land (u32 (Z.lnot (k - 1))) (u64 n).
Definition RoundUp32 (n k : Z) : Z := RoundDown32 (u64 (n + (k - 1))) k.

(** ** Heaps ([heap.h]) *)

(** A heap object: its natural base, its size and its bytes by offset. *)
Record Heap := MkHeap {
  h_base : Z;
  h_size : Z;
  h_data : mem }.

Definition set_h_base (x : Z) (r : Heap) : Heap :=
    MkHeap x (h_size r) (h_data r).
Definition set_h_size (x : Z) (r : Heap) : Heap :=
    MkHeap (h_base r) x (h_data r).
Definition set_h_data (x : mem) (r : Heap) : Heap :=
    MkHeap (h_base r) (h_size r) x.

(** A mapping of a heap: the base of the heap object if it is mapped (the only
    part of it that is used), the size, the address of the mapping and the next
    free address. *)
Record MappedHeap := MkMapped {
  mh_heap : option Z;
  mh_size : Z;
  mh_base : Z;
  mh_next : Z }.

Definition set_mh_heap (x : option Z) (r : MappedHeap) : MappedHeap :=
    MkMapped x (mh_size r) (mh_base r) (mh_next r).
Definition set_mh_size (x : Z) (r : MappedHeap) : MappedHeap :=
    MkMapped (mh_heap r) x (mh_base r) (mh_next r).
Definition set_mh_base (x : Z) (r : MappedHeap) : MappedHeap :=
    MkMapped (mh_heap r) (mh_size r) x (mh_next r).
Definition set_mh_next (x : Z) (r : MappedHeap) : MappedHeap :=
    MkMapped (mh_heap r) (mh_size r) (mh_base r) x.

(** ** Reductions ([redux.h]) and deferred output ([io.h]) *)

(** One reduction object. *)
Record ReductionInfo := MkRedux {
  ri_au : Z;
  ri_size : Z;
  ri_type : Z;
  ri_reg : Z;
  ri_depAU : Z;
  ri_depSize : Z;
  ri_depType : Z }.

Definition set_ri_au (x : Z) (r : ReductionInfo) : ReductionInfo :=
    MkRedux x (ri_size r) (ri_type r) (ri_reg r) (ri_depAU r) (ri_depSize r) (ri_depType
    r).
Definition set_ri_size (x : Z) (r : ReductionInfo) : ReductionInfo :=
    MkRedux (ri_au r) x (ri_type r) (ri_reg r) (ri_depAU r) (ri_depSize r) (ri_depType r).
Definition set_ri_type (x : Z) (r : ReductionInfo) : ReductionInfo :=
    MkRedux (ri_au r) (ri_size r) x (ri_reg r) (ri_depAU r) (ri_depSize r) (ri_depType r).
Definition set_ri_reg (x : Z) (r : ReductionInfo) : ReductionInfo :=
    MkRedux (ri_au r) (ri_size r) (ri_type r) x (ri_depAU r) (ri_depSize r) (ri_depType r).
Definition set_ri_depAU (x : Z) (r : ReductionInfo) : ReductionInfo :=
    MkRedux (ri_au r) (ri_size r) (ri_type r) (ri_reg r) x (ri_depSize r) (ri_depType r).
Definition set_ri_depSize (x : Z) (r : ReductionInfo) : ReductionInfo :=
    MkRedux (ri_au r) (ri_size r) (ri_type r) (ri_reg r) (ri_depAU r) x (ri_depType r).
Definition set_ri_depType (x : Z) (r : ReductionInfo) : ReductionInfo :=
    MkRedux (ri_au r) (ri_size r) (ri_type r) (ri_reg r) (ri_depAU r) (ri_depSize r) x.

(** A deferred output operation; [buffer] is an address. *)
Record IOEvt := MkIOEvt {
  ev_iter : Z;
  ev_stream : Z;
  ev_len : Z;
  ev_buffer : Z }.

Definition set_ev_iter (x : Z) (r : IOEvt) : IOEvt :=
    MkIOEvt x (ev_stream r) (ev_len r) (ev_buffer r).
Definition set_ev_stream (x : Z) (r : IOEvt) : IOEvt :=
    MkIOEvt (ev_iter r) x (ev_len r) (ev_buffer r).
Definition set_ev_len (x : Z) (r : IOEvt) : IOEvt :=
    MkIOEvt (ev_iter r) (ev_stream r) x (ev_buffer r).
Definition set_ev_buffer (x : Z) (r : IOEvt) : IOEvt :=
    MkIOEvt (ev_iter r) (ev_stream r) (ev_len r) x.

(** Per worker, the address of its list and the number of events in it. *)
Record IOEvtSet := MkIOEvtSet {
  ios_lists : gmap Z Z;
  ios_num : gmap Z Z }.

Definition set_ios_lists (x : gmap Z Z) (r : IOEvtSet) : IOEvtSet :=
    MkIOEvtSet x (ios_num r).
Definition set_ios_num (x : gmap Z Z) (r : IOEvtSet) : IOEvtSet :=
    MkIOEvtSet (ios_lists r) x.

(** ** Checkpoints ([checkpoint.h]) *)

(** Life cycle. *)
Inductive CheckpointLife : Type :=
| CL_Free | CL_Partial | CL_Complete | CL_Broken | CL_Main.

#[global] Instance CheckpointLife_eq_dec : EqDecision CheckpointLife.
Proof. solve_decision. Defined.

(** A checkpoint object; [0] is the null pointer in [prev] and [next]. *)
Record Checkpoint := MkCheckpoint {
  c_lock : Z;
  c_type : CheckpointLife;
  heap_priv : Heap;
  heap_killpriv : Heap;
  heap_sharepriv : Heap;
  heap_shadow : Heap;
  heap_shareshadow : Heap;
  heap_redux : Heap;
  c_shadow_lowest_inclusive : Z;
  c_shadow_highest_exclusive : Z;
  c_shareshadow_lowest_inclusive : Z;
  c_shareshadow_highest_exclusive : Z;
  redux_used : Z;
  lastUpdateIteration : Z;
  c_iteration : Z;
  c_num_workers : Z;
  io_events : IOEvtSet;
  c_prev : Z;
  c_next : Z }.

Definition set_c_lock (x : Z) (r : Checkpoint) : Checkpoint :=
    MkCheckpoint x (c_type r) (heap_priv r) (heap_killpriv r) (heap_sharepriv r)
    (heap_shadow r) (heap_shareshadow r) (heap_redux r) (c_shadow_lowest_inclusive r)
    (c_shadow_highest_exclusive r) (c_shareshadow_lowest_inclusive r)
    (c_shareshadow_highest_exclusive r) (redux_used r) (lastUpdateIteration r)
    (c_iteration r) (c_num_workers r) (io_events r) (c_prev r) (c_next r).
Definition set_c_type (x : CheckpointLife) (r : Checkpoint) : Checkpoint :=
    MkCheckpoint (c_lock r) x (heap_priv r) (heap_killpriv r) (heap_sharepriv r)
    (heap_shadow r) (heap_shareshadow r) (heap_redux r) (c_shadow_lowest_inclusive r)
    (c_shadow_highest_exclusive r) (c_shareshadow_lowest_inclusive r)
    (c_shareshadow_highest_exclusive r) (redux_used r) (lastUpdateIteration r)
    (c_iteration r) (c_num_workers r) (io_events r) (c_prev r) (c_next r).
Definition set_heap_priv (x : Heap) (r : Checkpoint) : Checkpoint :=
    MkCheckpoint (c_lock r) (c_type r) x (heap_killpriv r) (heap_sharepriv r) (heap_shadow
    r) (heap_shareshadow r) (heap_redux r) (c_shadow_lowest_inclusive r)
    (c_shadow_highest_exclusive r) (c_shareshadow_lowest_inclusive r)
    (c_shareshadow_highest_exclusive r) (redux_used r) (lastUpdateIteration r)
    (c_iteration r) (c_num_workers r) (io_events r) (c_prev r) (c_next r).
Definition set_heap_killpriv (x : Heap) (r : Checkpoint) : Checkpoint :=
    MkCheckpoint (c_lock r) (c_type r) (heap_priv r) x (heap_sharepriv r) (heap_shadow r)
    (heap_shareshadow r) (heap_redux r) (c_shadow_lowest_inclusive r)
    (c_shadow_highest_exclusive r) (c_shareshadow_lowest_inclusive r)
    (c_shareshadow_highest_exclusive r) (redux_used r) (lastUpdateIteration r)
    (c_iteration r) (c_num_workers r) (io_events r) (c_prev r) (c_next r).
Definition set_heap_sharepriv (x : Heap) (r : Checkpoint) : Checkpoint :=
    MkCheckpoint (c_lock r) (c_type r) (heap_priv r) (heap_killpriv r) x (heap_shadow r)
    (heap_shareshadow r) (heap_redux r) (c_shadow_lowest_inclusive r)
    (c_shadow_highest_exclusive r) (c_shareshadow_lowest_inclusive r)
    (c_shareshadow_highest_exclusive r) (redux_used r) (lastUpdateIteration r)
    (c_iteration r) (c_num_workers r) (io_events r) (c_prev r) (c_next r).
Definition set_heap_shadow (x : Heap) (r : Checkpoint) : Checkpoint :=
    MkCheckpoint (c_lock r) (c_type r) (heap_priv r) (heap_killpriv r) (heap_sharepriv r)
    x (heap_shareshadow r) (heap_redux r) (c_shadow_lowest_inclusive r)
    (c_shadow_highest_exclusive r) (c_shareshadow_lowest_inclusive r)
    (c_shareshadow_highest_exclusive r) (redux_used r) (lastUpdateIteration r)
    (c_iteration r) (c_num_workers r) (io_events r) (c_prev r) (c_next r).
Definition set_heap_shareshadow (x : Heap) (r : Checkpoint) : Checkpoint :=
    MkCheckpoint (c_lock r) (c_type r) (heap_priv r) (heap_killpriv r) (heap_sharepriv r)
    (heap_shadow r) x (heap_redux r) (c_shadow_lowest_inclusive r)
    (c_shadow_highest_exclusive r) (c_shareshadow_lowest_inclusive r)
    (c_shareshadow_highest_exclusive r) (redux_used r) (lastUpdateIteration r)
    (c_iteration r) (c_num_workers r) (io_events r) (c_prev r) (c_next r).
Definition set_heap_redux (x : Heap) (r : Checkpoint) : Checkpoint :=
    MkCheckpoint (c_lock r) (c_type r) (heap_priv r) (heap_killpriv r) (heap_sharepriv r)
    (heap_shadow r) (heap_shareshadow r) x (c_shadow_lowest_inclusive r)
    (c_shadow_highest_exclusive r) (c_shareshadow_lowest_inclusive r)
    (c_shareshadow_highest_exclusive r) (redux_used r) (lastUpdateIteration r)
    (c_iteration r) (c_num_workers r) (io_events r) (c_prev r) (c_next r).
Definition set_c_shadow_lowest_inclusive (x : Z) (r : Checkpoint) : Checkpoint :=
    MkCheckpoint (c_lock r) (c_type r) (heap_priv r) (heap_killpriv r) (heap_sharepriv r)
    (heap_shadow r) (heap_shareshadow r) (heap_redux r) x (c_shadow_highest_exclusive r)
    (c_shareshadow_lowest_inclusive r) (c_shareshadow_highest_exclusive r) (redux_used r)
    (lastUpdateIteration r) (c_iteration r) (c_num_workers r) (io_events r) (c_prev r)
    (c_next r).
Definition set_c_shadow_highest_exclusive (x : Z) (r : Checkpoint) : Checkpoint :=
    MkCheckpoint (c_lock r) (c_type r) (heap_priv r) (heap_killpriv r) (heap_sharepriv r)
    (heap_shadow r) (heap_shareshadow r) (heap_redux r) (c_shadow_lowest_inclusive r) x
    (c_shareshadow_lowest_inclusive r) (c_shareshadow_highest_exclusive r) (redux_used r)
    (lastUpdateIteration r) (c_iteration r) (c_num_workers r) (io_events r) (c_prev r)
    (c_next r).
Definition set_c_shareshadow_lowest_inclusive (x : Z) (r : Checkpoint) : Checkpoint :=
    MkCheckpoint (c_lock r) (c_type r) (heap_priv r) (heap_killpriv r) (heap_sharepriv r)
    (heap_shadow r) (heap_shareshadow r) (heap_redux r) (c_shadow_lowest_inclusive r)
    (c_shadow_highest_exclusive r) x (c_shareshadow_highest_exclusive r) (redux_used r)
    (lastUpdateIteration r) (c_iteration r) (c_num_workers r) (io_events r) (c_prev r)
    (c_next r).
Definition set_c_shareshadow_highest_exclusive (x : Z) (r : Checkpoint) : Checkpoint :=
    MkCheckpoint (c_lock r) (c_type r) (heap_priv r) (heap_killpriv r) (heap_sharepriv r)
    (heap_shadow r) (heap_shareshadow r) (heap_redux r) (c_shadow_lowest_inclusive r)
    (c_shadow_highest_exclusive r) (c_shareshadow_lowest_inclusive r) x (redux_used r)
    (lastUpdateIteration r) (c_iteration r) (c_num_workers r) (io_events r) (c_prev r)
    (c_next r).
Definition set_redux_used (x : Z) (r : Checkpoint) : Checkpoint :=
    MkCheckpoint (c_lock r) (c_type r) (heap_priv r) (heap_killpriv r) (heap_sharepriv r)
    (heap_shadow r) (heap_shareshadow r) (heap_redux r) (c_shadow_lowest_inclusive r)
    (c_shadow_highest_exclusive r) (c_shareshadow_lowest_inclusive r)
    (c_shareshadow_highest_exclusive r) x (lastUpdateIteration r) (c_iteration r)
    (c_num_workers r) (io_events r) (c_prev r) (c_next r).
Definition set_lastUpdateIteration (x : Z) (r : Checkpoint) : Checkpoint :=
    MkCheckpoint (c_lock r) (c_type r) (heap_priv r) (heap_killpriv r) (heap_sharepriv r)
    (heap_shadow r) (heap_shareshadow r) (heap_redux r) (c_shadow_lowest_inclusive r)
    (c_shadow_highest_exclusive r) (c_shareshadow_lowest_inclusive r)
    (c_shareshadow_highest_exclusive r) (redux_used r) x (c_iteration r) (c_num_workers r)
    (io_events r) (c_prev r) (c_next r).
Definition set_c_iteration (x : Z) (r : Checkpoint) : Checkpoint :=
    MkCheckpoint (c_lock r) (c_type r) (heap_priv r) (heap_killpriv r) (heap_sharepriv r)
    (heap_shadow r) (heap_shareshadow r) (heap_redux r) (c_shadow_lowest_inclusive r)
    (c_shadow_highest_exclusive r) (c_shareshadow_lowest_inclusive r)
    (c_shareshadow_highest_exclusive r) (redux_used r) (lastUpdateIteration r) x
    (c_num_workers r) (io_events r) (c_prev r) (c_next r).
Definition set_c_num_workers (x : Z) (r : Checkpoint) : Checkpoint :=
    MkCheckpoint (c_lock r) (c_type r) (heap_priv r) (heap_killpriv r) (heap_sharepriv r)
    (heap_shadow r) (heap_shareshadow r) (heap_redux r) (c_shadow_lowest_inclusive r)
    (c_shadow_highest_exclusive r) (c_shareshadow_lowest_inclusive r)
    (c_shareshadow_highest_exclusive r) (redux_used r) (lastUpdateIteration r)
    (c_iteration r) x (io_events r) (c_prev r) (c_next r).
Definition set_io_events (x : IOEvtSet) (r : Checkpoint) : Checkpoint :=
    MkCheckpoint (c_lock r) (c_type r) (heap_priv r) (heap_killpriv r) (heap_sharepriv r)
    (heap_shadow r) (heap_shareshadow r) (heap_redux r) (c_shadow_lowest_inclusive r)
    (c_shadow_highest_exclusive r) (c_shareshadow_lowest_inclusive r)
    (c_shareshadow_highest_exclusive r) (redux_used r) (lastUpdateIteration r)
    (c_iteration r) (c_num_workers r) x (c_prev r) (c_next r).
Definition set_c_prev (x : Z) (r : Checkpoint) : Checkpoint :=
    MkCheckpoint (c_lock r) (c_type r) (heap_priv r) (heap_killpriv r) (heap_sharepriv r)
    (heap_shadow r) (heap_shareshadow r) (heap_redux r) (c_shadow_lowest_inclusive r)
    (c_shadow_highest_exclusive r) (c_shareshadow_lowest_inclusive r)
    (c_shareshadow_highest_exclusive r) (redux_used r) (lastUpdateIteration r)
    (c_iteration r) (c_num_workers r) (io_events r) x (c_next r).
Definition set_c_next (x : Z) (r : Checkpoint) : Checkpoint :=
    MkCheckpoint (c_lock r) (c_type r) (heap_priv r) (heap_killpriv r) (heap_sharepriv r)
    (heap_shadow r) (heap_shareshadow r) (heap_redux r) (c_shadow_lowest_inclusive r)
    (c_shadow_highest_exclusive r) (c_shareshadow_lowest_inclusive r)
    (c_shareshadow_highest_exclusive r) (redux_used r) (lastUpdateIteration r)
    (c_iteration r) (c_num_workers r) (io_events r) (c_prev r) x.

(** A list of checkpoints. *)
Record CheckpointList := MkList {
  l_first : Z;
  l_last : Z }.

Definition set_l_first (x : Z) (r : CheckpointList) : CheckpointList :=
    MkList x (l_last r).
Definition set_l_last (x : Z) (r : CheckpointList) : CheckpointList :=
    MkList (l_first r) x.

(** The checkpoint manager. *)
Record CheckpointManager := MkManager {
  m_lock : Z;
  total_checkpoint_objects : Z;
  main_checkpoint : Z;
  m_used : CheckpointList;
  m_free : CheckpointList }.

Definition set_m_lock (x : Z) (r : CheckpointManager) : CheckpointManager :=
    MkManager x (total_checkpoint_objects r) (main_checkpoint r) (m_used r) (m_free r).
Definition set_total_checkpoint_objects (x : Z) (r : CheckpointManager) : CheckpointManager :=
    MkManager (m_lock r) x (main_checkpoint r) (m_used r) (m_free r).
Definition set_main_checkpoint (x : Z) (r : CheckpointManager) : CheckpointManager :=
    MkManager (m_lock r) (total_checkpoint_objects r) x (m_used r) (m_free r).
Definition set_m_used (x : CheckpointList) (r : CheckpointManager) : CheckpointManager :=
    MkManager (m_lock r) (total_checkpoint_objects r) (main_checkpoint r) x (m_free r).
Definition set_m_free (x : CheckpointList) (r : CheckpointManager) : CheckpointManager :=
    MkManager (m_lock r) (total_checkpoint_objects r) (main_checkpoint r) (m_used r) x.

(** The parallel control block ([pcb.h]). *)
Record ParallelControlBlock := MkPcb {
  exit_taken : Z;
  misspeculation_happened : Z;
  misspeculated_worker : Z;
  misspeculated_iteration : Z;
  misspeculation_reason : option string;
  last_committed : Z;
  checkpoints : CheckpointManager;
  workerDoneFlags : gmap Z Z }.

Definition set_exit_taken (x : Z) (r : ParallelControlBlock) : ParallelControlBlock :=
    MkPcb x (misspeculation_happened r) (misspeculated_worker r) (misspeculated_iteration
    r) (misspeculation_reason r) (last_committed r) (checkpoints r) (workerDoneFlags r).
Definition set_misspeculation_happened (x : Z) (r : ParallelControlBlock) : ParallelControlBlock :=
    MkPcb (exit_taken r) x (misspeculated_worker r) (misspeculated_iteration r)
    (misspeculation_reason r) (last_committed r) (checkpoints r) (workerDoneFlags r).
Definition set_misspeculated_worker (x : Z) (r : ParallelControlBlock) : ParallelControlBlock :=
    MkPcb (exit_taken r) (misspeculation_happened r) x (misspeculated_iteration r)
    (misspeculation_reason r) (last_committed r) (checkpoints r) (workerDoneFlags r).
Definition set_misspeculated_iteration (x : Z) (r : ParallelControlBlock) : ParallelControlBlock :=
    MkPcb (exit_taken r) (misspeculation_happened r) (misspeculated_worker r) x
    (misspeculation_reason r) (last_committed r) (checkpoints r) (workerDoneFlags r).
Definition set_misspeculation_reason (x : option string) (r : ParallelControlBlock) : ParallelControlBlock :=
    MkPcb (exit_taken r) (misspeculation_happened r) (misspeculated_worker r)
    (misspeculated_iteration r) x (last_committed r) (checkpoints r) (workerDoneFlags r).
Definition set_last_committed (x : Z) (r : ParallelControlBlock) : ParallelControlBlock :=
    MkPcb (exit_taken r) (misspeculation_happened r) (misspeculated_worker r)
    (misspeculated_iteration r) (misspeculation_reason r) x (checkpoints r)
    (workerDoneFlags r).
Definition set_checkpoints (x : CheckpointManager) (r : ParallelControlBlock) : ParallelControlBlock :=
    MkPcb (exit_taken r) (misspeculation_happened r) (misspeculated_worker r)
    (misspeculated_iteration r) (misspeculation_reason r) (last_committed r) x
    (workerDoneFlags r).
Definition set_workerDoneFlags (x : gmap Z Z) (r : ParallelControlBlock) : ParallelControlBlock :=
    MkPcb (exit_taken r) (misspeculation_happened r) (misspeculated_worker r)
    (misspeculated_iteration r) (misspeculation_reason r) (last_committed r) (checkpoints
    r) x.

(** ** Static variables of the source files *)

(** [private.c]. *)
Record PrivateVars := MkPrivate {
  firstIteration : Z;
  checkpointGranularity : Z;
  shadow_lowest_inclusive : Z;
  shadow_highest_exclusive : Z;
  shareshadow_lowest_inclusive : Z;
  shareshadow_highest_exclusive : Z;
  code8 : Z;
  code16 : Z;
  code32 : Z;
  code64 : Z;
  last_read_live_in_ptr_start : Z;
  last_read_live_in_ptr_end : Z }.

Definition set_firstIteration (x : Z) (r : PrivateVars) : PrivateVars :=
    MkPrivate x (checkpointGranularity r) (shadow_lowest_inclusive r)
    (shadow_highest_exclusive r) (shareshadow_lowest_inclusive r)
    (shareshadow_highest_exclusive r) (code8 r) (code16 r) (code32 r) (code64 r)
    (last_read_live_in_ptr_start r) (last_read_live_in_ptr_end r).
Definition set_checkpointGranularity (x : Z) (r : PrivateVars) : PrivateVars :=
    MkPrivate (firstIteration r) x (shadow_lowest_inclusive r) (shadow_highest_exclusive
    r) (shareshadow_lowest_inclusive r) (shareshadow_highest_exclusive r) (code8 r)
    (code16 r) (code32 r) (code64 r) (last_read_live_in_ptr_start r)
    (last_read_live_in_ptr_end r).
Definition set_shadow_lowest_inclusive (x : Z) (r : PrivateVars) : PrivateVars :=
    MkPrivate (firstIteration r) (checkpointGranularity r) x (shadow_highest_exclusive r)
    (shareshadow_lowest_inclusive r) (shareshadow_highest_exclusive r) (code8 r) (code16
    r) (code32 r) (code64 r) (last_read_live_in_ptr_start r) (last_read_live_in_ptr_end r).
Definition set_shadow_highest_exclusive (x : Z) (r : PrivateVars) : PrivateVars :=
    MkPrivate (firstIteration r) (checkpointGranularity r) (shadow_lowest_inclusive r) x
    (shareshadow_lowest_inclusive r) (shareshadow_highest_exclusive r) (code8 r) (code16
    r) (code32 r) (code64 r) (last_read_live_in_ptr_start r) (last_read_live_in_ptr_end r).
Definition set_shareshadow_lowest_inclusive (x : Z) (r : PrivateVars) : PrivateVars :=
    MkPrivate (firstIteration r) (checkpointGranularity r) (shadow_lowest_inclusive r)
    (shadow_highest_exclusive r) x (shareshadow_highest_exclusive r) (code8 r) (code16 r)
    (code32 r) (code64 r) (last_read_live_in_ptr_start r) (last_read_live_in_ptr_end r).
Definition set_shareshadow_highest_exclusive (x : Z) (r : PrivateVars) : PrivateVars :=
    MkPrivate (firstIteration r) (checkpointGranularity r) (shadow_lowest_inclusive r)
    (shadow_highest_exclusive r) (shareshadow_lowest_inclusive r) x (code8 r) (code16 r)
    (code32 r) (code64 r) (last_read_live_in_ptr_start r) (last_read_live_in_ptr_end r).
Definition set_code8 (x : Z) (r : PrivateVars) : PrivateVars :=
    MkPrivate (firstIteration r) (checkpointGranularity r) (shadow_lowest_inclusive r)
    (shadow_highest_exclusive r) (shareshadow_lowest_inclusive r)
    (shareshadow_highest_exclusive r) x (code16 r) (code32 r) (code64 r)
    (last_read_live_in_ptr_start r) (last_read_live_in_ptr_end r).
Definition set_code16 (x : Z) (r : PrivateVars) : PrivateVars :=
    MkPrivate (firstIteration r) (checkpointGranularity r) (shadow_lowest_inclusive r)
    (shadow_highest_exclusive r) (shareshadow_lowest_inclusive r)
    (shareshadow_highest_exclusive r) (code8 r) x (code32 r) (code64 r)
    (last_read_live_in_ptr_start r) (last_read_live_in_ptr_end r).
Definition set_code32 (x : Z) (r : PrivateVars) : PrivateVars :=
    MkPrivate (firstIteration r) (checkpointGranularity r) (shadow_lowest_inclusive r)
    (shadow_highest_exclusive r) (shareshadow_lowest_inclusive r)
    (shareshadow_highest_exclusive r) (code8 r) (code16 r) x (code64 r)
    (last_read_live_in_ptr_start r) (last_read_live_in_ptr_end r).
Definition set_code64 (x : Z) (r : PrivateVars) : PrivateVars :=
    MkPrivate (firstIteration r) (checkpointGranularity r) (shadow_lowest_inclusive r)
    (shadow_highest_exclusive r) (shareshadow_lowest_inclusive r)
    (shareshadow_highest_exclusive r) (code8 r) (code16 r) (code32 r) x
    (last_read_live_in_ptr_start r) (last_read_live_in_ptr_end r).
Definition set_last_read_live_in_ptr_start (x : Z) (r : PrivateVars) : PrivateVars :=
    MkPrivate (firstIteration r) (checkpointGranularity r) (shadow_lowest_inclusive r)
    (shadow_highest_exclusive r) (shareshadow_lowest_inclusive r)
    (shareshadow_highest_exclusive r) (code8 r) (code16 r) (code32 r) (code64 r) x
    (last_read_live_in_ptr_end r).
Definition set_last_read_live_in_ptr_end (x : Z) (r : PrivateVars) : PrivateVars :=
    MkPrivate (firstIteration r) (checkpointGranularity r) (shadow_lowest_inclusive r)
    (shadow_highest_exclusive r) (shareshadow_lowest_inclusive r)
    (shareshadow_highest_exclusive r) (code8 r) (code16 r) (code32 r) (code64 r)
    (last_read_live_in_ptr_start r) x.

(** [api.c]; the strategy of the loop gives the stage of a worker. *)
Record ApiVars := MkApi {
  numWorkers : Z;
  myWorkerId : Z;
  runOnEveryIter : Z;
  currentIter : Z;
  api_checkpointGranularity : Z;
  lastReduxUpdateIter : Z;
  ckpt_check : Z;
  curLoop_num_stages : Z;
  curLoop_wid2stage : gmap Z Z }.

Definition set_numWorkers (x : Z) (r : ApiVars) : ApiVars :=
    MkApi x (myWorkerId r) (runOnEveryIter r) (currentIter r) (api_checkpointGranularity
    r) (lastReduxUpdateIter r) (ckpt_check r) (curLoop_num_stages r) (curLoop_wid2stage r).
Definition set_myWorkerId (x : Z) (r : ApiVars) : ApiVars :=
    MkApi (numWorkers r) x (runOnEveryIter r) (currentIter r) (api_checkpointGranularity
    r) (lastReduxUpdateIter r) (ckpt_check r) (curLoop_num_stages r) (curLoop_wid2stage r).
Definition set_runOnEveryIter (x : Z) (r : ApiVars) : ApiVars :=
    MkApi (numWorkers r) (myWorkerId r) x (currentIter r) (api_checkpointGranularity r)
    (lastReduxUpdateIter r) (ckpt_check r) (curLoop_num_stages r) (curLoop_wid2stage r).
Definition set_currentIter (x : Z) (r : ApiVars) : ApiVars :=
    MkApi (numWorkers r) (myWorkerId r) (runOnEveryIter r) x (api_checkpointGranularity r)
    (lastReduxUpdateIter r) (ckpt_check r) (curLoop_num_stages r) (curLoop_wid2stage r).
Definition set_api_checkpointGranularity (x : Z) (r : ApiVars) : ApiVars :=
    MkApi (numWorkers r) (myWorkerId r) (runOnEveryIter r) (currentIter r) x
    (lastReduxUpdateIter r) (ckpt_check r) (curLoop_num_stages r) (curLoop_wid2stage r).
Definition set_lastReduxUpdateIter (x : Z) (r : ApiVars) : ApiVars :=
    MkApi (numWorkers r) (myWorkerId r) (runOnEveryIter r) (currentIter r)
    (api_checkpointGranularity r) x (ckpt_check r) (curLoop_num_stages r)
    (curLoop_wid2stage r).
Definition set_ckpt_check (x : Z) (r : ApiVars) : ApiVars :=
    MkApi (numWorkers r) (myWorkerId r) (runOnEveryIter r) (currentIter r)
    (api_checkpointGranularity r) (lastReduxUpdateIter r) x (curLoop_num_stages r)
    (curLoop_wid2stage r).
Definition set_curLoop_num_stages (x : Z) (r : ApiVars) : ApiVars :=
    MkApi (numWorkers r) (myWorkerId r) (runOnEveryIter r) (currentIter r)
    (api_checkpointGranularity r) (lastReduxUpdateIter r) (ckpt_check r) x
    (curLoop_wid2stage r).
Definition set_curLoop_wid2stage (x : gmap Z Z) (r : ApiVars) : ApiVars :=
    MkApi (numWorkers r) (myWorkerId r) (runOnEveryIter r) (currentIter r)
    (api_checkpointGranularity r) (lastReduxUpdateIter r) (ckpt_check r)
    (curLoop_num_stages r) x.

(** [fiveheaps.c]: the mappings, the reduction list and the sizes. *)
Record HeapVars := MkHeaps {
  mshared : MappedHeap;
  mpriv0 : MappedHeap;
  mkillpriv0 : MappedHeap;
  msharepriv0 : MappedHeap;
  mredux0 : MappedHeap;
  mro : MappedHeap;
  myLocal : MappedHeap;
  myRedux : MappedHeap;
  myShadow : MappedHeap;
  myShareShadow : MappedHeap;
  numLocalAUs : Z;
  reduction_info : list ReductionInfo;
  sizeof_private : Z;
  sizeof_killprivate : Z;
  sizeof_shareprivate : Z;
  sizeof_redux : Z;
  sizeof_ro : Z;
  sizeof_local : Z }.

Definition set_mshared (x : MappedHeap) (r : HeapVars) : HeapVars :=
    MkHeaps x (mpriv0 r) (mkillpriv0 r) (msharepriv0 r) (mredux0 r) (mro r) (myLocal r)
    (myRedux r) (myShadow r) (myShareShadow r) (numLocalAUs r) (reduction_info r)
    (sizeof_private r) (sizeof_killprivate r) (sizeof_shareprivate r) (sizeof_redux r)
    (sizeof_ro r) (sizeof_local r).
Definition set_mpriv0 (x : MappedHeap) (r : HeapVars) : HeapVars :=
    MkHeaps (mshared r) x (mkillpriv0 r) (msharepriv0 r) (mredux0 r) (mro r) (myLocal r)
    (myRedux r) (myShadow r) (myShareShadow r) (numLocalAUs r) (reduction_info r)
    (sizeof_private r) (sizeof_killprivate r) (sizeof_shareprivate r) (sizeof_redux r)
    (sizeof_ro r) (sizeof_local r).
Definition set_mkillpriv0 (x : MappedHeap) (r : HeapVars) : HeapVars :=
    MkHeaps (mshared r) (mpriv0 r) x (msharepriv0 r) (mredux0 r) (mro r) (myLocal r)
    (myRedux r) (myShadow r) (myShareShadow r) (numLocalAUs r) (reduction_info r)
    (sizeof_private r) (sizeof_killprivate r) (sizeof_shareprivate r) (sizeof_redux r)
    (sizeof_ro r) (sizeof_local r).
Definition set_msharepriv0 (x : MappedHeap) (r : HeapVars) : HeapVars :=
    MkHeaps (mshared r) (mpriv0 r) (mkillpriv0 r) x (mredux0 r) (mro r) (myLocal r)
    (myRedux r) (myShadow r) (myShareShadow r) (numLocalAUs r) (reduction_info r)
    (sizeof_private r) (sizeof_killprivate r) (sizeof_shareprivate r) (sizeof_redux r)
    (sizeof_ro r) (sizeof_local r).
Definition set_mredux0 (x : MappedHeap) (r : HeapVars) : HeapVars :=
    MkHeaps (mshared r) (mpriv0 r) (mkillpriv0 r) (msharepriv0 r) x (mro r) (myLocal r)
    (myRedux r) (myShadow r) (myShareShadow r) (numLocalAUs r) (reduction_info r)
    (sizeof_private r) (sizeof_killprivate r) (sizeof_shareprivate r) (sizeof_redux r)
    (sizeof_ro r) (sizeof_local r).
Definition set_mro (x : MappedHeap) (r : HeapVars) : HeapVars :=
    MkHeaps (mshared r) (mpriv0 r) (mkillpriv0 r) (msharepriv0 r) (mredux0 r) x (myLocal
    r) (myRedux r) (myShadow r) (myShareShadow r) (numLocalAUs r) (reduction_info r)
    (sizeof_private r) (sizeof_killprivate r) (sizeof_shareprivate r) (sizeof_redux r)
    (sizeof_ro r) (sizeof_local r).
Definition set_myLocal (x : MappedHeap) (r : HeapVars) : HeapVars :=
    MkHeaps (mshared r) (mpriv0 r) (mkillpriv0 r) (msharepriv0 r) (mredux0 r) (mro r) x
    (myRedux r) (myShadow r) (myShareShadow r) (numLocalAUs r) (reduction_info r)
    (sizeof_private r) (sizeof_killprivate r) (sizeof_shareprivate r) (sizeof_redux r)
    (sizeof_ro r) (sizeof_local r).
Definition set_myRedux (x : MappedHeap) (r : HeapVars) : HeapVars :=
    MkHeaps (mshared r) (mpriv0 r) (mkillpriv0 r) (msharepriv0 r) (mredux0 r) (mro r)
    (myLocal r) x (myShadow r) (myShareShadow r) (numLocalAUs r) (reduction_info r)
    (sizeof_private r) (sizeof_killprivate r) (sizeof_shareprivate r) (sizeof_redux r)
    (sizeof_ro r) (sizeof_local r).
Definition set_myShadow (x : MappedHeap) (r : HeapVars) : HeapVars :=
    MkHeaps (mshared r) (mpriv0 r) (mkillpriv0 r) (msharepriv0 r) (mredux0 r) (mro r)
    (myLocal r) (myRedux r) x (myShareShadow r) (numLocalAUs r) (reduction_info r)
    (sizeof_private r) (sizeof_killprivate r) (sizeof_shareprivate r) (sizeof_redux r)
    (sizeof_ro r) (sizeof_local r).
Definition set_myShareShadow (x : MappedHeap) (r : HeapVars) : HeapVars :=
    MkHeaps (mshared r) (mpriv0 r) (mkillpriv0 r) (msharepriv0 r) (mredux0 r) (mro r)
    (myLocal r) (myRedux r) (myShadow r) x (numLocalAUs r) (reduction_info r)
    (sizeof_private r) (sizeof_killprivate r) (sizeof_shareprivate r) (sizeof_redux r)
    (sizeof_ro r) (sizeof_local r).
Definition set_numLocalAUs (x : Z) (r : HeapVars) : HeapVars :=
    MkHeaps (mshared r) (mpriv0 r) (mkillpriv0 r) (msharepriv0 r) (mredux0 r) (mro r)
    (myLocal r) (myRedux r) (myShadow r) (myShareShadow r) x (reduction_info r)
    (sizeof_private r) (sizeof_killprivate r) (sizeof_shareprivate r) (sizeof_redux r)
    (sizeof_ro r) (sizeof_local r).
Definition set_reduction_info (x : list ReductionInfo) (r : HeapVars) : HeapVars :=
    MkHeaps (mshared r) (mpriv0 r) (mkillpriv0 r) (msharepriv0 r) (mredux0 r) (mro r)
    (myLocal r) (myRedux r) (myShadow r) (myShareShadow r) (numLocalAUs r) x
    (sizeof_private r) (sizeof_killprivate r) (sizeof_shareprivate r) (sizeof_redux r)
    (sizeof_ro r) (sizeof_local r).
Definition set_sizeof_private (x : Z) (r : HeapVars) : HeapVars :=
    MkHeaps (mshared r) (mpriv0 r) (mkillpriv0 r) (msharepriv0 r) (mredux0 r) (mro r)
    (myLocal r) (myRedux r) (myShadow r) (myShareShadow r) (numLocalAUs r) (reduction_info
    r) x (sizeof_killprivate r) (sizeof_shareprivate r) (sizeof_redux r) (sizeof_ro r)
    (sizeof_local r).
Definition set_sizeof_killprivate (x : Z) (r : HeapVars) : HeapVars :=
    MkHeaps (mshared r) (mpriv0 r) (mkillpriv0 r) (msharepriv0 r) (mredux0 r) (mro r)
    (myLocal r) (myRedux r) (myShadow r) (myShareShadow r) (numLocalAUs r) (reduction_info
    r) (sizeof_private r) x (sizeof_shareprivate r) (sizeof_redux r) (sizeof_ro r)
    (sizeof_local r).
Definition set_sizeof_shareprivate (x : Z) (r : HeapVars) : HeapVars :=
    MkHeaps (mshared r) (mpriv0 r) (mkillpriv0 r) (msharepriv0 r) (mredux0 r) (mro r)
    (myLocal r) (myRedux r) (myShadow r) (myShareShadow r) (numLocalAUs r) (reduction_info
    r) (sizeof_private r) (sizeof_killprivate r) x (sizeof_redux r) (sizeof_ro r)
    (sizeof_local r).
Definition set_sizeof_redux (x : Z) (r : HeapVars) : HeapVars :=
    MkHeaps (mshared r) (mpriv0 r) (mkillpriv0 r) (msharepriv0 r) (mredux0 r) (mro r)
    (myLocal r) (myRedux r) (myShadow r) (myShareShadow r) (numLocalAUs r) (reduction_info
    r) (sizeof_private r) (sizeof_killprivate r) (sizeof_shareprivate r) x (sizeof_ro r)
    (sizeof_local r).
Definition set_sizeof_ro (x : Z) (r : HeapVars) : HeapVars :=
    MkHeaps (mshared r) (mpriv0 r) (mkillpriv0 r) (msharepriv0 r) (mredux0 r) (mro r)
    (myLocal r) (myRedux r) (myShadow r) (myShareShadow r) (numLocalAUs r) (reduction_info
    r) (sizeof_private r) (sizeof_killprivate r) (sizeof_shareprivate r) (sizeof_redux r)
    x (sizeof_local r).
Definition set_sizeof_local (x : Z) (r : HeapVars) : HeapVars :=
    MkHeaps (mshared r) (mpriv0 r) (mkillpriv0 r) (msharepriv0 r) (mredux0 r) (mro r)
    (myLocal r) (myRedux r) (myShadow r) (myShareShadow r) (numLocalAUs r) (reduction_info
    r) (sizeof_private r) (sizeof_killprivate r) (sizeof_shareprivate r) (sizeof_redux r)
    (sizeof_ro r) x.

(** [io.c]: the events of this worker, and the capacity of its array. *)
Record IOVars := MkIO {
  worker_io_events : list IOEvt;
  worker_cap_io_events : Z }.

Definition set_worker_io_events (x : list IOEvt) (r : IOVars) : IOVars :=
    MkIO x (worker_cap_io_events r).
Definition set_worker_cap_io_events (x : Z) (r : IOVars) : IOVars :=
    MkIO (worker_io_events r) x.

(** What the processes share: the control block, the checkpoint objects by
    address, the objects of the other heaps and the reduction heaps of the
    workers, and what was written to files (stream and bytes). *)
Record Shared := MkShared {
  sh_pcb : ParallelControlBlock;
  sh_chkpts : gmap Z Checkpoint;
  sh_shared : Heap;
  sh_ro : Heap;
  sh_local : Heap;
  sh_redux : gmap Z Heap;
  sh_meta_next : Z;
  sh_out : list (Z * list Z) }.

Definition set_sh_pcb (x : ParallelControlBlock) (r : Shared) : Shared :=
    MkShared x (sh_chkpts r) (sh_shared r) (sh_ro r) (sh_local r) (sh_redux r)
    (sh_meta_next r) (sh_out r).
Definition set_sh_chkpts (x : gmap Z Checkpoint) (r : Shared) : Shared :=
    MkShared (sh_pcb r) x (sh_shared r) (sh_ro r) (sh_local r) (sh_redux r) (sh_meta_next
    r) (sh_out r).
Definition set_sh_shared (x : Heap) (r : Shared) : Shared :=
    MkShared (sh_pcb r) (sh_chkpts r) x (sh_ro r) (sh_local r) (sh_redux r) (sh_meta_next
    r) (sh_out r).
Definition set_sh_ro (x : Heap) (r : Shared) : Shared :=
    MkShared (sh_pcb r) (sh_chkpts r) (sh_shared r) x (sh_local r) (sh_redux r)
    (sh_meta_next r) (sh_out r).
Definition set_sh_local (x : Heap) (r : Shared) : Shared :=
    MkShared (sh_pcb r) (sh_chkpts r) (sh_shared r) (sh_ro r) x (sh_redux r) (sh_meta_next
    r) (sh_out r).
Definition set_sh_redux (x : gmap Z Heap) (r : Shared) : Shared :=
    MkShared (sh_pcb r) (sh_chkpts r) (sh_shared r) (sh_ro r) (sh_local r) x (sh_meta_next
    r) (sh_out r).
Definition set_sh_meta_next (x : Z) (r : Shared) : Shared :=
    MkShared (sh_pcb r) (sh_chkpts r) (sh_shared r) (sh_ro r) (sh_local r) (sh_redux r) x
    (sh_out r).
Definition set_sh_out (x : list (Z * list Z)) (r : Shared) : Shared :=
    MkShared (sh_pcb r) (sh_chkpts r) (sh_shared r) (sh_ro r) (sh_local r) (sh_redux r)
    (sh_meta_next r) x.

(** Floating-point addition and comparison, on the bits of [float] and
    [double] values. *)
Record FloatOps := MkFloat {
  f32_add : Z → Z → Z;
  f32_gt : Z → Z → bool;
  f32_eq : Z → Z → bool;
  f64_add : Z → Z → Z;
  f64_gt : Z → Z → bool;
  f64_eq : Z → Z → bool }.

Definition set_f32_add (x : Z → Z → Z) (r : FloatOps) : FloatOps :=
    MkFloat x (f32_gt r) (f32_eq r) (f64_add r) (f64_gt r) (f64_eq r).
Definition set_f32_gt (x : Z → Z → bool) (r : FloatOps) : FloatOps :=
    MkFloat (f32_add r) x (f32_eq r) (f64_add r) (f64_gt r) (f64_eq r).
Definition set_f32_eq (x : Z → Z → bool) (r : FloatOps) : FloatOps :=
    MkFloat (f32_add r) (f32_gt r) x (f64_add r) (f64_gt r) (f64_eq r).
Definition set_f64_add (x : Z → Z → Z) (r : FloatOps) : FloatOps :=
    MkFloat (f32_add r) (f32_gt r) (f32_eq r) x (f64_gt r) (f64_eq r).
Definition set_f64_gt (x : Z → Z → bool) (r : FloatOps) : FloatOps :=
    MkFloat (f32_add r) (f32_gt r) (f32_eq r) (f64_add r) x (f64_eq r).
Definition set_f64_eq (x : Z → Z → bool) (r : FloatOps) : FloatOps :=
    MkFloat (f32_add r) (f32_gt r) (f32_eq r) (f64_add r) (f64_gt r) x.

(** One process together with what it shares; [w_map] is where the system
    maps a heap that may be mapped anywhere, [w_fpu] its floating-point unit. *)
Record World := MkWorld {
  w_priv : PrivateVars;
  w_api : ApiVars;
  w_heaps : HeapVars;
  w_io : IOVars;
  worker_last_committed : Z;
  w_mem : mem;
  w_map : Z;
  w_fpu : FloatOps;
  w_shared : Shared }.

Definition set_w_priv (x : PrivateVars) (r : World) : World :=
    MkWorld x (w_api r) (w_heaps r) (w_io r) (worker_last_committed r) (w_mem r) (w_map r)
    (w_fpu r) (w_shared r).
Definition set_w_api (x : ApiVars) (r : World) : World :=
    MkWorld (w_priv r) x (w_heaps r) (w_io r) (worker_last_committed r) (w_mem r) (w_map
    r) (w_fpu r) (w_shared r).
Definition set_w_heaps (x : HeapVars) (r : World) : World :=
    MkWorld (w_priv r) (w_api r) x (w_io r) (worker_last_committed r) (w_mem r) (w_map r)
    (w_fpu r) (w_shared r).
Definition set_w_io (x : IOVars) (r : World) : World :=
    MkWorld (w_priv r) (w_api r) (w_heaps r) x (worker_last_committed r) (w_mem r) (w_map
    r) (w_fpu r) (w_shared r).
Definition set_worker_last_committed (x : Z) (r : World) : World :=
    MkWorld (w_priv r) (w_api r) (w_heaps r) (w_io r) x (w_mem r) (w_map r) (w_fpu r)
    (w_shared r).
Definition set_w_mem (x : mem) (r : World) : World :=
    MkWorld (w_priv r) (w_api r) (w_heaps r) (w_io r) (worker_last_committed r) x (w_map
    r) (w_fpu r) (w_shared r).
Definition set_w_map (x : Z) (r : World) : World :=
    MkWorld (w_priv r) (w_api r) (w_heaps r) (w_io r) (worker_last_committed r) (w_mem r)
    x (w_fpu r) (w_shared r).
Definition set_w_fpu (x : FloatOps) (r : World) : World :=
    MkWorld (w_priv r) (w_api r) (w_heaps r) (w_io r) (worker_last_committed r) (w_mem r)
    (w_map r) x (w_shared r).
Definition set_w_shared (x : Shared) (r : World) : World :=
    MkWorld (w_priv r) (w_api r) (w_heaps r) (w_io r) (worker_last_committed r) (w_mem r)
    (w_map r) (w_fpu r) x.

Abbreviation X A := (M World A).

(** ** Access to the state *)

Definition pv {A} (f : PrivateVars → A) : X A := gets (λ w, f (w_priv w)).
Definition av {A} (f : ApiVars → A) : X A := gets (λ w, f (w_api w)).
Definition hv {A} (f : HeapVars → A) : X A := gets (λ w, f (w_heaps w)).
Definition upd_pv (f : PrivateVars → PrivateVars) : X unit :=
  modify (λ w, set_w_priv (f (w_priv w)) w).
Definition upd_av (f : ApiVars → ApiVars) : X unit :=
  modify (λ w, set_w_api (f (w_api w)) w).
Definition upd_hv (f : HeapVars → HeapVars) : X unit :=
  modify (λ w, set_w_heaps (f (w_heaps w)) w).
Definition upd_io (f : IOVars → IOVars) : X unit :=
  modify (λ w, set_w_io (f (w_io w)) w).
Definition upd_mem (f : mem → mem) : X unit :=
  modify (λ w, set_w_mem (f (w_mem w)) w).
Definition upd_shared (f : Shared → Shared) : X unit :=
  modify (λ w, set_w_shared (f (w_shared w)) w).
Definition pcb_ (w : World) : ParallelControlBlock := sh_pcb (w_shared w).
Definition upd_pcb (f : ParallelControlBlock → ParallelControlBlock) : X unit :=
  upd_shared (λ s, set_sh_pcb (f (sh_pcb s)) s).

(** Loads and stores of this process. *)
Definition ld (n : nat) (a : Z) : X Z := gets (λ w, load n (w_mem w) a).
Definition st (n : nat) (a v : Z) : X unit := upd_mem (λ m, store n m a v).
Definition ldb (a : Z) : X Z := gets (λ w, rd (w_mem w) a).
Definition stb (a v : Z) : X unit := upd_mem (λ m, wr m a v).

(** ** Mapping memory

    [mmap] with [MAP_FIXED] replaces what was mapped; a private mapping of an
    object starts with the bytes of the object, an anonymous one with zeros. *)
Definition munmap (m : mem) (base size : Z) : mem :=
  filter (λ '(a, _), ¬ (base ≤ a < base + size)) m.
Definition map_private (m : mem) (base size : Z) (data : mem) : mem :=
  kmap (Z.add base) (filter (λ '(k, _), 0 ≤ k < size) data) ∪ munmap m base size.

(** ** Queries of [api.c] *)

Definition i_am_main_process : X bool := av (λ a, myWorkerId a =? MAIN_PROCESS).
Definition num_workers : X Z := av numWorkers.

(** The iteration number: [unsigned] arithmetic, converted to [int32_t]. *)
Definition current_iter_of (a : ApiVars) : Z :=
  if negb (runOnEveryIter a =? 0) then currentIter a
  else if myWorkerId a =? MAIN_PROCESS then i32 (u32 (currentIter a * numWorkers a))
  else i32 (u32 (myWorkerId a + currentIter a * numWorkers a)).
Definition current_iter : X Z := av current_iter_of.

(** [myWorkerId == currentIter % numWorkers], compared as [unsigned]. *)
Definition is_on_iter : X bool :=
  av (λ a, myWorkerId a =? u32 (current_iter_of a) mod numWorkers a).

(** ** Misspeculation ([api.c]) *)

(** [heap_unmap] ([heap.c]). *)
Definition heap_unmap (mh : MappedHeap) : MappedHeap := set_mh_next 0 (set_mh_heap None mh).
Definition unmap (get : HeapVars → MappedHeap) (set : MappedHeap → HeapVars → HeapVars) : X unit :=
  let! mh := hv get in
  upd_hv (set (heap_unmap mh)) ;;;
  upd_mem (λ m, munmap m (mh_base mh) (mh_size mh)).

(** [__specpriv_destroy_worker_heaps] ([fiveheaps.c]). *)
Definition destroy_worker_heaps : X unit :=
  unmap myRedux set_myRedux ;;;
  unmap myShadow set_myShadow ;;;
  unmap myShareShadow set_myShareShadow.

(** [pcb->workerDoneFlags[ wid ] = 1], an array of [MAX_WORKERS] entries. *)
Definition set_done (v : Z) (wid : Z) : X unit :=
  if (0 <=? wid) && (wid <? MAX_WORKERS)
  then upd_pcb (λ p, set_workerDoneFlags (<[wid := v]> (workerDoneFlags p)) p)
  else halt Fault.

(** The wait for the last committed checkpoint only delays: it reads the
    checkpoint, sleeps and gives up after a second. *)
Definition misspec_at {A} (iter : Z) (reason : string) : X A :=
  let! wid := av myWorkerId in
  upd_pcb (λ p, set_misspeculation_happened 1
                  (set_misspeculation_reason (Some reason)
                     (set_misspeculated_iteration iter
                        (set_misspeculated_worker wid p)))) ;;;
  destroy_worker_heaps ;;;
  set_done 1 wid ;;;
  halt (Jumped 42).

Definition misspec {A} (reason : string) : X A :=
  let! i := av currentIter in misspec_at i reason.

(** [__specpriv_predict] and [__specpriv_recovery_finished]. *)
Definition predict (observed expected : Z) : X unit :=
  if negb (observed =? expected) then misspec "Value prediction failed" else ret tt.

(** ** Mapped memory *)

Lemma rd_munmap m base size a :
  rd (munmap m base size) a = if decide (base ≤ a < base + size) then 0 else rd m a.
Proof.
  unfold rd, munmap. destruct (decide _) as [Hin|Hout].
  - rewrite (map_lookup_filter_None_2 _ m); [done|]. right. intros x _ H. by apply H.
  - f_equal. destruct (m !! a) as [x|] eqn:E.
    + by rewrite (map_lookup_filter_Some_2 _ m a x).
    + by rewrite (map_lookup_filter_None_2 _ m a) by (by left).
Qed.

#[local] Instance Z_add_inj base : Inj eq eq (Z.add base).
Proof. intros x y. lia. Qed.

Lemma kmap_outside base size (data : mem) a : ¬ (base ≤ a < base + size) →
  kmap (M2:=gmap Z) (Z.add base) (filter (λ '(k, _), 0 ≤ k < size) data) !! a = None.
Proof.
  intros Hout. apply lookup_kmap_None; [apply _|]. intros k ->.
  apply map_lookup_filter_None_2. right. intros x _. lia.
Qed.

Lemma rd_map_private m base size data a :
  rd (map_private m base size data) a =
  if decide (base ≤ a < base + size) then rd data (a - base) else rd m a.
Proof.
  unfold map_private. destruct (decide _) as [Hin|Hout].
  - unfold rd. rewrite lookup_union_l.
    2:{ apply map_lookup_filter_None_2. right. intros x _ H. by apply H. }
    do 2 f_equal. replace a with (base + (a - base)) at 1 by lia.
    rewrite lookup_kmap by apply _.
    destruct (data !! (a - base)) as [x|] eqn:E.
    + rewrite (map_lookup_filter_Some_2 _ data _ x); [done|done|lia].
    + by rewrite (map_lookup_filter_None_2 _ data) by (by left).
  - transitivity (rd (munmap m base size) a).
    + unfold rd. by rewrite lookup_union_r by by apply kmap_outside.
    + by rewrite rd_munmap, decide_False.
Qed.

(** ** Replicated codes and addresses of the shadow *)

Lemma V64_LIVE_IN : V64 LIVE_IN = 0.
Proof. done. Qed.

(** ** Running a process *)

(** The world of a run, and whether it returned. *)
Definition world_of {A} (r : res World A) : World := match r with Ok _ w | Stop _ w => w end.
Definition returned {A} (r : res World A) : bool := match r with Ok _ _ => true | Stop _ _ => false end.

Lemma returned_ok (r : res World unit) : returned r = true → r = Ok tt (world_of r).
Proof. by destruct r as [[] w|]. Qed.

Lemma some_default {A} (d : A) (o : option A) : bool_decide (is_Some o) = true → o = Some (default d o).
Proof. by destruct o. Qed.

(** A process before the runtime is set up, with integers in place of
    floating-point numbers. *)
Definition no_mapping : MappedHeap := MkMapped None 0 0 0.
Definition int_ops : FloatOps :=
  MkFloat Z.add Z.gtb Z.eqb Z.add Z.gtb Z.eqb.
Definition blank : World :=
  MkWorld (MkPrivate 0 0 0 0 0 0 0 0 0 0 0 0) (MkApi 0 0 0 0 0 0 0 0 ∅)
    (MkHeaps no_mapping no_mapping no_mapping no_mapping no_mapping no_mapping no_mapping no_mapping
       no_mapping no_mapping 0 [] 0 0 0 0 0 0)
    (MkIO [] 0) 0 ∅ (2 ^ 46) int_ops
    (MkShared (MkPcb 0 0 0 0 None 0 (MkManager 0 0 0 (MkList 0 0) (MkList 0 0)) ∅) ∅
       (MkHeap 0 0 ∅) (MkHeap 0 0 ∅) (MkHeap 0 0 ∅) ∅ 0 []).
