(* ===== verification/Privacy.v ===== *)
(** Privacy checks: the access hooks of [private.c].

    Every byte of the private heap has a shadow byte.  A byte that was not
    touched since the last checkpoint is [LIVE_IN]; a read of such a byte makes
    it [READ_LIVE_IN]; a write makes it the code of the current iteration.  A
    read of a byte written by an earlier iteration, and a write of a byte that
    was read as live-in, are misspeculation. *)
From S2P Require Import Prelude Machine Exec.
From stdpp Require Import strings.
#[local] Open Scope Z_scope.

(** ** The touched range *)

Definition reset_shadow_range : X unit :=
  upd_pv (λ p, set_shadow_highest_exclusive SHADOW_ADDR
                 (set_shadow_lowest_inclusive (SHADOW_ADDR + Z.shiftl 1 POINTER_BITS) p)).

Definition update_shadow_range (shadow len : Z) : X unit :=
  upd_pv (λ p, if shadow <? shadow_lowest_inclusive p
               then set_shadow_lowest_inclusive shadow p else p) ;;;
  upd_pv (λ p, if shadow_highest_exclusive p <? u64 (shadow + len)
               then set_shadow_highest_exclusive (u64 (shadow + len)) p else p).

Definition reset_shareshadow_range : X unit :=
  upd_pv (λ p, set_shareshadow_highest_exclusive SHARESHADOW_ADDR
                 (set_shareshadow_lowest_inclusive
                    (SHARESHADOW_ADDR + Z.shiftl 1 POINTER_BITS) p)).

Definition update_shareshadow_range (shareshadow len : Z) : X unit :=
  upd_pv (λ p, if shareshadow <? shareshadow_lowest_inclusive p
               then set_shareshadow_lowest_inclusive shareshadow p else p) ;;;
  upd_pv (λ p, if shareshadow_highest_exclusive p <? u64 (shareshadow + len)
               then set_shareshadow_highest_exclusive (u64 (shareshadow + len)) p else p).

(** ** Iterations *)

Definition init_private : X unit :=
  let! n := num_workers in
  upd_pv (set_checkpointGranularity
            (MAX_CHECKPOINT_GRANULARITY - MAX_CHECKPOINT_GRANULARITY mod n)) ;;;
  reset_shadow_range ;;;
  reset_shareshadow_range.

(** The code of iteration [i]. *)
Definition iter_code (first gran i : Z) : Z :=
  u8 (Z.rem (i - first) gran + NUM_RESERVED_SHADOW_VALUES).

Definition set_iter (i : Z) : X unit :=
  upd_pv (λ p,
    let c8 := iter_code (firstIteration p) (checkpointGranularity p) i in
    let c16 := u16 (Z.lor c8 (Z.shiftl (u16 c8) 8)) in
    let c32 := u32 (Z.lor c16 (Z.shiftl (u32 c16) 16)) in
    let c64 := u64 (Z.lor c32 (Z.shiftl (u64 c32) 32)) in
    set_code64 c64 (set_code32 c32 (set_code16 c16 (set_code8 c8 p)))).

Definition set_first_iter (i : Z) : X unit :=
  upd_pv (set_firstIteration i) ;;; set_iter i.

Definition get_first_iter : X Z := pv firstIteration.

(** ** Bytes and words of the shadow *)

(** The shadow address: [SHADOW_ADDR | (uint64_t)ptr]. *)
Definition shadow_of (ptr : Z) : Z := Z.lor SHADOW_ADDR ptr.

(** [memchr(s, c, n) != 0]. *)
Definition memchr (m : mem) (s c n : Z) : bool :=
  existsb (λ i, rd m (s + i) =? c) (seqZ 0 n).
Definition find (s c n : Z) : X bool := gets (λ w, memchr (w_mem w) s c n).

(** The addresses of [for (p = lo; p < hi; p += k)]. *)
Definition steps (lo hi k : Z) : list Z := (λ i, lo + k * i) <$> seqZ 0 ((hi - lo + (k - 1)) / k).

(** Check of a byte whose metadata is [meta], for a read. *)
Definition check_byte (a meta : Z) (name : string) : X unit :=
  let! c := pv code8 in
  if meta =? LIVE_IN then stb a READ_LIVE_IN
  else if negb (meta =? c) && negb (meta =? READ_LIVE_IN) then misspec name
  else ret tt.
Definition read_byte (name : string) (a : Z) : X unit :=
  let! meta := ldb a in check_byte a meta name.

(** Check of a whole word: all bytes live-in, all read, or all of this
    iteration. *)
Definition read_word4 (name : string) (a : Z) : X unit :=
  let! meta := ld 4 a in
  let! c := pv code32 in
  if meta =? V32 LIVE_IN then st 4 a (V32 READ_LIVE_IN)
  else if negb (meta =? c) && negb (meta =? V32 READ_LIVE_IN) then misspec name
  else ret tt.
(** [to] is the address written, which is [a] except in one case below. *)
Definition read_word8 (name : string) (a to : Z) : X unit :=
  let! meta := ld 8 a in
  let! c := pv code64 in
  if meta =? V64 LIVE_IN then st 8 to (V64 READ_LIVE_IN)
  else if negb (meta =? c) && negb (meta =? V64 READ_LIVE_IN) then misspec name
  else ret tt.

(** The bytes of a word that was already loaded, one by one. *)
Definition check_bytes (n : nat) (a meta : Z) (name : string) : X unit :=
  for_ (seqZ 0 (Z.of_nat n))
    (λ j, check_byte (a + j) (Z.land (Z.shiftr meta (8 * j)) 0xff) name).

(** ** Ranges *)

Definition private_write_range (ptr len : Z) : X unit :=
  let! main := i_am_main_process in
  when (negb main)
    (let shadow := shadow_of ptr in
     let! hit := find shadow READ_LIVE_IN len in
     (if hit then misspec "misspec during private write range (1)" else ret tt) ;;;
     let! c := pv code8 in
     upd_mem (λ m, memset m shadow c len) ;;;
     update_shadow_range shadow len).

Definition shareprivate_write_range (ptr len : Z) : X unit :=
  let! main := i_am_main_process in
  when (negb main)
    (let shadow := Z.lor SHARESHADOW_ADDR ptr in update_shareshadow_range shadow len).

Definition private_read_range_internal (start stop : Z) (name : string) : X unit :=
  let lo8 := RoundUp start 8 in
  let hi8 := RoundDown stop 8 in
  for_ (steps start lo8 1) (read_byte name) ;;;
  for_ (steps lo8 hi8 8) (λ a, read_word8 name a a) ;;;
  for_ (steps hi8 stop 1) (read_byte name).

Definition private_read_range (ptr len : Z) (name : string) : X unit :=
  let! main := i_am_main_process in
  when (negb main)
    (let shadow := shadow_of ptr in
     private_read_range_internal shadow (u64 (shadow + len)) name ;;;
     update_shadow_range shadow len).

(** ** One byte *)

Definition private_write_1b (ptr : Z) : X unit :=
  let! main := i_am_main_process in
  when (negb main)
    (let shadow := shadow_of ptr in
     let! meta := ldb shadow in
     (if meta =? READ_LIVE_IN then misspec "misspec during private write 1b" else ret tt) ;;;
     let! c := pv code8 in
     stb shadow c ;;;
     update_shadow_range shadow 1).

Definition private_read_1b (ptr : Z) (name : string) : X unit :=
  private_read_range ptr 1 name.

(** ** Two bytes *)

Definition private_write_2b (ptr : Z) : X unit :=
  let! main := i_am_main_process in
  when (negb main)
    (let shadow := shadow_of ptr in
     let! meta := ld 2 shadow in
     (if Z.land (Z.shiftr meta 8) 0xff =? READ_LIVE_IN
      then misspec "misspec during private write 2b" else ret tt) ;;;
     (if Z.land meta 0xff =? READ_LIVE_IN
      then misspec "misspec during private write 2b" else ret tt) ;;;
     let! c := pv code16 in
     st 2 shadow c ;;;
     update_shadow_range shadow 2).

Definition private_read_2b (ptr : Z) (name : string) : X unit :=
  let! main := i_am_main_process in
  when (negb main)
    (let shadow := shadow_of ptr in
     let! meta := ld 2 shadow in
     update_shadow_range shadow 2 ;;;
     let! c := pv code16 in
     if meta =? c then ret tt
     else if meta =? V16 LIVE_IN then st 2 shadow (V16 READ_LIVE_IN)
     else if meta =? V16 READ_LIVE_IN then ret tt
     else check_bytes 2 shadow meta name).

(** ** Four and eight bytes

    The hooks remember the last run of consecutive live-in reads of this
    iteration; a write inside it is not checked. *)

Definition outside_last_read (ptr len : Z) : X bool :=
  pv (λ p, (ptr <? last_read_live_in_ptr_start p) ||
           (last_read_live_in_ptr_end p <? u64 (ptr + len))).

Definition noted (ptr len : Z) (p : PrivateVars) : PrivateVars :=
  if (last_read_live_in_ptr_start p =? 0) || negb (last_read_live_in_ptr_end p =? ptr)
  then set_last_read_live_in_ptr_end (u64 (ptr + len)) (set_last_read_live_in_ptr_start ptr p)
  else set_last_read_live_in_ptr_end (u64 (last_read_live_in_ptr_end p + len)) p.
Definition note_live_in_read (ptr len : Z) : X unit := upd_pv (noted ptr len).

Definition private_write_4b (ptr : Z) : X unit :=
  let! main := i_am_main_process in
  when (negb main)
    (let shadow := shadow_of ptr in
     let! out := outside_last_read ptr 4 in
     let! hit := find shadow READ_LIVE_IN 4 in
     (if out && hit then misspec "misspec during private write 4b" else ret tt) ;;;
     let! c := pv code32 in
     st 4 shadow c ;;;
     update_shadow_range shadow 4).

Definition private_read_4b (ptr : Z) (name : string) : X unit :=
  let! main := i_am_main_process in
  when (negb main)
    (let shadow := shadow_of ptr in
     let! meta := ld 4 shadow in
     update_shadow_range shadow 4 ;;;
     let! c := pv code32 in
     if meta =? c then ret tt
     else if meta =? V32 LIVE_IN then st 4 shadow (V32 READ_LIVE_IN) ;;; note_live_in_read ptr 4
     else if meta =? V32 READ_LIVE_IN then ret tt
     else check_bytes 4 shadow meta name).

Definition private_write_8b (ptr : Z) : X unit :=
  let! main := i_am_main_process in
  when (negb main)
    (let shadow := shadow_of ptr in
     let! out := outside_last_read ptr 8 in
     let! hit := find shadow READ_LIVE_IN 8 in
     (if out && hit then misspec "misspec in private write 8b" else ret tt) ;;;
     let! c := pv code64 in
     st 8 shadow c ;;;
     update_shadow_range shadow 8).

Definition private_read_8b (ptr : Z) (name : string) : X unit :=
  let! main := i_am_main_process in
  when (negb main)
    (let shadow := shadow_of ptr in
     let! meta := ld 8 shadow in
     update_shadow_range shadow 8 ;;;
     let! c := pv code64 in
     if meta =? V64 LIVE_IN then st 8 shadow (V64 READ_LIVE_IN) ;;; note_live_in_read ptr 8
     else if (meta =? c) || (meta =? V64 READ_LIVE_IN) then ret tt
     else check_bytes 8 shadow meta name).

(** ** Strided ranges *)

Definition stride_range (cbase nStrides strideWidth lenPerStride : Z) : X unit :=
  let high := u64 (cbase + u64 (u64 (nStrides - 1) * strideWidth) + lenPerStride) in
  upd_pv (λ p, if cbase <? shadow_lowest_inclusive p
               then set_shadow_lowest_inclusive cbase p else p) ;;;
  upd_pv (λ p, if shadow_highest_exclusive p <? high
               then set_shadow_highest_exclusive high p else p).

(** The check that follows the store of the code: the bytes of the old
    metadata in order. *)
Definition check_written (n : nat) (meta : Z) (why : string) : X unit :=
  for_ (seqZ 0 (Z.of_nat n))
    (λ j, if Z.land (Z.shiftr meta (8 * j)) 0xff =? READ_LIVE_IN then misspec why else ret tt).

Definition private_write_range_stride (base nStrides strideWidth lenPerStride : Z) : X unit :=
  let! main := i_am_main_process in
  when (negb main && (0 <? nStrides))
    (let cbase := shadow_of base in
     stride_range cbase nStrides strideWidth lenPerStride ;;;
     for_ (seqZ 0 nStrides) (λ i,
       let a := u64 (cbase + i * strideWidth) in
       if lenPerStride =? 4 then
         let! meta := ld 4 a in
         let! c := pv code32 in
         st 4 a c ;;;
         when (negb (meta =? V32 LIVE_IN))
           (check_written 4 meta "misspec during private write range string, lenPerStride=4")
       else if lenPerStride =? 8 then
         let! meta := ld 8 a in
         let! c := pv code64 in
         st 8 a c ;;;
         when (negb (meta =? V64 LIVE_IN))
           (check_written 8 meta "misspec during private write range string, lenPerStride=8")
       else
         let! hit := find a READ_LIVE_IN lenPerStride in
         (if hit then misspec "misspec during private_write_range_stride, lenPerStride=x"
          else ret tt) ;;;
         let! c := pv code8 in
         upd_mem (λ m, memset m a c lenPerStride))).

(** The 16-byte case marks [ibase[2]] where it has checked [ibase[1]]. *)
Definition private_read_range_stride (base nStrides strideWidth lenPerStride : Z)
    (message : string) : X unit :=
  let! main := i_am_main_process in
  when (negb main)
    (let cbase := shadow_of base in
     when (0 <? nStrides) (stride_range cbase nStrides strideWidth lenPerStride) ;;;
     for_ (seqZ 0 nStrides) (λ i,
       let a := u64 (cbase + i * strideWidth) in
       if lenPerStride =? 4 then read_word4 message a
       else if lenPerStride =? 8 then read_word8 message a a
       else if lenPerStride =? 16 then
         read_word8 message a a ;;; read_word8 message (a + 8) (a + 16)
       else private_read_range_internal a (u64 (a + lenPerStride)) message)).

(** ** Replicated codes *)

(** The wide codes repeat the byte code. *)
Record codes_ok (p : PrivateVars) : Prop := {
  codes_range : NUM_RESERVED_SHADOW_VALUES ≤ code8 p < 256;
  codes_16 : code16 p = rep 2 (code8 p);
  codes_32 : code32 p = rep 4 (code8 p);
  codes_64 : code64 p = rep 8 (code8 p) }.

Definition wide_codes_agree (c8 : Z) : bool :=
  let c16 := u16 (Z.lor c8 (Z.shiftl (u16 c8) 8)) in
  let c32 := u32 (Z.lor c16 (Z.shiftl (u32 c16) 16)) in
  let c64 := u64 (Z.lor c32 (Z.shiftl (u64 c32) 32)) in
  (c16 =? rep 2 c8) && (c32 =? rep 4 c8) && (c64 =? rep 8 c8).

Lemma wide_codes_all : forallb wide_codes_agree (seqZ 0 256) = true.
Proof. vm_compute. reflexivity. Qed.

Lemma wide_codes c8 : 0 ≤ c8 < 256 → wide_codes_agree c8 = true.
Proof.
  intros H. apply (proj1 (forallb_forall _ _) wide_codes_all).
  apply list_elem_of_In, elem_of_seqZ. lia.
Qed.

Lemma V16_rep : V16 LIVE_IN = rep 2 0 ∧ V16 READ_LIVE_IN = rep 2 1.
Proof. done. Qed.
Lemma V32_rep : V32 LIVE_IN = rep 4 0 ∧ V32 READ_LIVE_IN = rep 4 1.
Proof. done. Qed.
Lemma V64_rep : V64 LIVE_IN = rep 8 0 ∧ V64 READ_LIVE_IN = rep 8 1.
Proof. done. Qed.

(** [set_iter] establishes the invariant. *)
Lemma set_iter_codes i w w' : 0 < checkpointGranularity (w_priv w) ≤ MAX_CHECKPOINT_GRANULARITY →
  firstIteration (w_priv w) ≤ i → set_iter i w = Ok tt w' →
  codes_ok (w_priv w') ∧
  code8 (w_priv w') = (i - firstIteration (w_priv w)) mod checkpointGranularity (w_priv w) + 3.
Proof.
  intros Hg Hi [= <-]. simpl.
  set (first := firstIteration (w_priv w)) in *. set (g := checkpointGranularity (w_priv w)) in *.
  change MAX_CHECKPOINT_GRANULARITY with 253 in Hg.
  assert (iter_code first g i = (i - first) mod g + 3 ∧ 3 ≤ iter_code first g i < 256) as [Hc Hr].
  { unfold iter_code. change NUM_RESERVED_SHADOW_VALUES with 3.
    rewrite Z.rem_mod_nonneg by lia. pose proof (Z.mod_pos_bound (i - first) g).
    rewrite wrap_small by (change (2 ^ 8) with 256; lia). lia. }
  split; [|exact Hc].
  pose proof (wide_codes (iter_code first g i) ltac:(lia)) as H.
  unfold wide_codes_agree in H. apply andb_true_iff in H as [[H1 H2]%andb_true_iff H3].
  apply Z.eqb_eq in H1, H2, H3. constructor; simpl; [exact Hr|exact H1|exact H2|exact H3].
Qed.

(** ** Addresses *)

Definition heap_span : Z := 2 ^ 43.

Lemma shadow_of_priv k : 0 ≤ k < heap_span → shadow_of (PRIV_ADDR + k) = SHADOW_ADDR + k.
Proof.
  unfold heap_span. intros Hk. unfold shadow_of.
  change PRIV_ADDR with (Z.shiftl 3 43). change SHADOW_ADDR with (Z.shiftl 7 43).
  assert (∀ x, Z.shiftl x 43 + k = Z.lor (Z.shiftl x 43) k) as E.
  { intros x. rewrite <-Z.lxor_lor, <-Z.add_nocarry_lxor; [done| |];
      bitwise i Hi; rewrite Z.testbit_0_l; destruct (Z.ltb_spec i 43);
      [by rewrite (Z.testbit_neg_r _ (i - 43)) by lia
      |by rewrite (testbit_ge_width 43 k i), andb_false_r by lia
      |by rewrite (Z.testbit_neg_r _ (i - 43)) by lia
      |by rewrite (testbit_ge_width 43 k i), andb_false_r by lia]. }
  rewrite !E, Z.lor_assoc, <-Z.shiftl_lor. done.
Qed.

(** ** Misspeculation never returns *)

Lemma misspec_not_ok {A} why w (a : A) w' : misspec why w ≠ Ok a w'.
Proof.
  intros (? & ? & _ & H)%bind_ok. unfold misspec_at in H. by inv_bind.
Qed.

(** ** Effect of a read check

    A read of the bytes [S] succeeds when each is live-in, read or written by
    this iteration, and marks the live-in ones. *)

Definition readable (c x : Z) : Prop := x = LIVE_IN ∨ x = READ_LIVE_IN ∨ x = c.
Definition mark (x : Z) : Z := if x =? LIVE_IN then READ_LIVE_IN else x.

Record reads (S : Z → bool) (w w' : World) : Prop := {
  reads_frame : w' = set_w_mem (w_mem w') w;
  reads_check : ∀ a, S a = true → readable (code8 (w_priv w)) (rd (w_mem w) a);
  reads_mem : ∀ a, rd (w_mem w') a = if S a then mark (rd (w_mem w) a) else rd (w_mem w) a }.

Lemma mark_readable c x : readable c (mark x) ↔ readable c x.
Proof. unfold readable, mark, LIVE_IN, READ_LIVE_IN. destruct (Z.eqb_spec x 0); lia. Qed.

Lemma mark_mark x : mark (mark x) = mark x.
Proof. unfold mark, LIVE_IN, READ_LIVE_IN. by destruct (Z.eqb_spec x 0); [|destruct (Z.eqb_spec x 0)]. Qed.

Lemma set_w_mem_id w : set_w_mem (w_mem w) w = w.
Proof. by destruct w. Qed.

Lemma reads_nil w : reads (λ _, false) w w.
Proof. constructor; [by rewrite set_w_mem_id|done|done]. Qed.

Lemma reads_ext S T w w' : (∀ a, S a = T a) → reads S w w' → reads T w w'.
Proof.
  intros E [Hf Hc Hm]. constructor; [done| |].
  - intros a Ha. apply Hc. by rewrite E.
  - intros a. by rewrite Hm, E.
Qed.

Lemma reads_app S T w w1 w2 : reads S w w1 → reads T w1 w2 → reads (λ a, S a || T a) w w2.
Proof.
  intros [Hf1 Hc1 Hm1] [Hf2 Hc2 Hm2]. constructor.
  - rewrite Hf2, Hf1. done.
  - intros a Ha. destruct (S a) eqn:ES; [by apply Hc1|]. simpl in Ha.
    specialize (Hc2 a Ha). rewrite Hf1 in Hc2 at 1. by rewrite Hm1, ES in Hc2.
  - intros a. rewrite Hm2, Hm1. destruct (S a), (T a); simpl; [apply mark_mark|done..].
Qed.

Lemma reads_for {A} (body : A → X unit) (S : A → Z → bool) l : ∀ w w',
  (∀ x w w', x ∈ l → codes_ok (w_priv w) → body x w = Ok tt w' → reads (S x) w w') →
  codes_ok (w_priv w) → for_ l body w = Ok tt w' → reads (λ a, existsb (λ x, S x a) l) w w'.
Proof.
  induction l as [|x l IH]; intros w w' Hb Hok; simpl.
  - intros [= <-]. apply reads_nil.
  - intros ([] & w1 & H1 & H2)%bind_ok.
    assert (reads (S x) w w1) as R1 by (apply Hb; [by left|done|done]).
    eapply (reads_app (S x) (λ a, existsb (λ x, S x a) l)); [exact R1|].
    apply IH; [|by rewrite (reads_frame _ _ _ R1)|done].
    intros y v v' ???. apply Hb; [by right|done..].
Qed.

(** One byte. *)
Definition at_ (b a : Z) : bool := a =? b.
(** [n] bytes. *)
Definition span (b n a : Z) : bool := (b <=? a) && (a <? b + n).

Lemma span_iff b n a : span b n a = true ↔ b ≤ a < b + n.
Proof. unfold span. rewrite andb_true_iff, Z.leb_le, Z.ltb_lt. done. Qed.

Lemma span_if {A} b n a (x y : A) :
  (if span b n a then x else y) = if decide (b ≤ a < b + n) then x else y.
Proof.
  destruct (span b n a) eqn:E; [by rewrite decide_True by by apply span_iff|].
  rewrite decide_False; [done|]. intros H. apply span_iff in H. congruence.
Qed.

Lemma check_byte_reads a name w w' :
  check_byte a (rd (w_mem w) a) name w = Ok tt w' → reads (at_ a) w w'.
Proof.
  intros (c0 & t & [= <- <-] & Hk)%bind_ok. cbn beta in Hk.
  set (m := rd (w_mem w) a) in *. set (c := code8 (w_priv w)) in *.
  destruct (Z.eqb_spec m LIVE_IN) as [E0|E0].
  - injection Hk as <-. constructor; cbn -[rd wr]; [done| |].
    + intros b ->%Z.eqb_eq. by left.
    + intros b. rewrite rd_wr. unfold at_, mark. destruct (decide (a = b)) as [<-|].
      * rewrite Z.eqb_refl. change (rd (w_mem w) a) with m. by rewrite E0.
      * by destruct (Z.eqb_spec b a).
  - destruct (negb (m =? c) && negb (m =? READ_LIVE_IN)) eqn:Eb; [by apply misspec_not_ok in Hk|].
    injection Hk as <-. constructor; simpl; [by rewrite set_w_mem_id| |].
    + intros b ->%Z.eqb_eq. change (rd (w_mem w) a) with m. unfold readable.
      destruct (Z.eqb_spec m c), (Z.eqb_spec m READ_LIVE_IN); simpl in Eb; [tauto..|done].
    + intros b. unfold at_, mark. destruct (Z.eqb_spec b a) as [->|]; [|done].
      change (rd (w_mem w) a) with m. by destruct (Z.eqb_spec m LIVE_IN).
Qed.

Lemma read_byte_reads name a w w' : read_byte name a w = Ok tt w' → reads (at_ a) w w'.
Proof. intros (meta & t & [= <- <-] & H)%bind_ok. by eapply check_byte_reads. Qed.

(** A word whose bytes are all the same. *)
Lemma uniform_reads n a b w : 0 ≤ b < 256 → readable (code8 (w_priv w)) b →
  (∀ k, 0 ≤ k < Z.of_nat n → rd (w_mem w) (a + k) = b) →
  ∀ m', (∀ x, rd m' x = if decide (a ≤ x < a + Z.of_nat n) then mark b else rd (w_mem w) x) →
  reads (span a (Z.of_nat n)) w (set_w_mem m' w).
Proof.
  intros Hb Hr Hall m' Hm'.
  assert (∀ x, a ≤ x < a + Z.of_nat n → rd (w_mem w) x = b) as Hx.
  { intros x Hx. replace x with (a + (x - a)) by lia. apply Hall. lia. }
  constructor; simpl; [done| |].
  - intros x Hsp%span_iff. by rewrite Hx.
  - intros x. rewrite Hm', span_if. destruct (decide _) as [Hd|Hd]; [by rewrite Hx|done].
Qed.

Lemma uniform_same n a b w : 0 ≤ b < 256 → b ≠ LIVE_IN → readable (code8 (w_priv w)) b →
  load n (w_mem w) a = rep n b → reads (span a (Z.of_nat n)) w w.
Proof.
  intros Hb H0 Hr Hl. rewrite load_rep_iff in Hl by done.
  rewrite <-(set_w_mem_id w) at 2. apply (uniform_reads n a b); [done..|].
  intros x. unfold mark. destruct (Z.eqb_spec b LIVE_IN); [done|].
  destruct (decide _); [|done]. replace x with (a + (x - a)) by lia. apply Hl. lia.
Qed.

Lemma uniform_fresh n a w : load n (w_mem w) a = rep n 0 →
  reads (span a (Z.of_nat n)) w (set_w_mem (store n (w_mem w) a (rep n 1)) w).
Proof.
  intros Hl. rewrite load_rep_iff in Hl by lia.
  apply (uniform_reads n a 0); [lia|by left|done|].
  intros x. by rewrite rd_store_rep by lia.
Qed.

(** ** Word checks *)

Lemma codes_byte p : codes_ok p → 0 ≤ code8 p < 256 ∧ code8 p ≠ LIVE_IN.
Proof. intros [Hr _ _ _]. unfold NUM_RESERVED_SHADOW_VALUES, LIVE_IN in *. lia. Qed.

(** The three uniform words a check accepts. *)
Lemma word_cases n a w :
  codes_ok (w_priv w) →
  load n (w_mem w) a = rep n (code8 (w_priv w)) ∨ load n (w_mem w) a = rep n 1 →
  reads (span a (Z.of_nat n)) w w.
Proof.
  intros Hok [H|H].
  - destruct (codes_byte _ Hok). eapply uniform_same; [done|done| |done]. by right; right.
  - eapply uniform_same; [| | |exact H]; [lia|done|]. by right; left.
Qed.

Lemma read_word4_reads name a w w' : codes_ok (w_priv w) →
  read_word4 name a w = Ok tt w' → reads (span a 4) w w'.
Proof.
  intros Hok (meta & t & [= <- <-] & (c & t' & [= <- <-] & H)%bind_ok)%bind_ok. cbn beta in H.
  destruct V32_rep as [E0 E1]. rewrite E0, E1, (codes_32 _ Hok) in H.
  destruct (Z.eqb_spec (load 4 (w_mem w) a) (rep 4 0)) as [El|El].
  - injection H as <-. by apply (uniform_fresh 4).
  - destruct (negb _ && negb _) eqn:Eb; [by apply misspec_not_ok in H|]. injection H as <-.
    apply (word_cases 4 a w); [done|].
    destruct (Z.eqb_spec (load 4 (w_mem w) a) (rep 4 (code8 (w_priv w)))); [by left|].
    right. by destruct (Z.eqb_spec (load 4 (w_mem w) a) (rep 4 1)).
Qed.

Lemma read_word8_reads name a w w' : codes_ok (w_priv w) →
  read_word8 name a a w = Ok tt w' → reads (span a 8) w w'.
Proof.
  intros Hok (meta & t & [= <- <-] & (c & t' & [= <- <-] & H)%bind_ok)%bind_ok. cbn beta in H.
  destruct V64_rep as [E0 E1]. rewrite E0, E1, (codes_64 _ Hok) in H.
  destruct (Z.eqb_spec (load 8 (w_mem w) a) (rep 8 0)) as [El|El].
  - injection H as <-. by apply (uniform_fresh 8).
  - destruct (negb _ && negb _) eqn:Eb; [by apply misspec_not_ok in H|]. injection H as <-.
    apply (word_cases 8 a w); [done|].
    destruct (Z.eqb_spec (load 8 (w_mem w) a) (rep 8 (code8 (w_priv w)))); [by left|].
    right. by destruct (Z.eqb_spec (load 8 (w_mem w) a) (rep 8 1)).
Qed.

(** ** Bytes of a loaded word *)

Lemma loaded_byte n m a j : 0 ≤ j < Z.of_nat n →
  Z.land (Z.shiftr (load n m a) (8 * j)) 0xff = rd m (a + j).
Proof. intros. by rewrite land_ff, load_byte. Qed.

(** [check_byte] changes at most its own byte. *)
Lemma check_byte_frame a x meta name w w' : a ≠ x →
  check_byte a meta name w = Ok tt w' → rd (w_mem w') x = rd (w_mem w) x.
Proof.
  intros Hne (c0 & t & [= <- <-] & Hk)%bind_ok. cbn beta in Hk.
  destruct (meta =? LIVE_IN).
  - injection Hk as <-. cbn -[rd wr]. by rewrite rd_wr_ne.
  - destruct (negb _ && negb _); [by apply misspec_not_ok in Hk|]. by injection Hk as <-.
Qed.

(** The metadata bytes of a word that was loaded before the loop are those the
    loop would load itself. *)
Lemma check_bytes_bytewise n m a name : ∀ l w, NoDup l →
  (∀ j, j ∈ l → 0 ≤ j < Z.of_nat n ∧ rd (w_mem w) (a + j) = rd m (a + j)) →
  for_ l (λ j, check_byte (a + j) (Z.land (Z.shiftr (load n m a) (8 * j)) 0xff) name) w =
  for_ l (λ j, read_byte name (a + j)) w.
Proof.
  induction l as [|j l IH]; intros w Hnd Hl; simpl; [done|].
  apply NoDup_cons in Hnd as [Hj Hnd].
  destruct (Hl j) as [Hb Hv]; [by left|].
  unfold bind at 1 2. unfold read_byte at 1, bind at 1. simpl.
  rewrite loaded_byte by done. rewrite <-Hv.
  destruct (check_byte (a + j) (rd (w_mem w) (a + j)) name w) as [[] w'|] eqn:E; [|done].
  apply IH; [done|]. intros k Hk. destruct (Hl k) as [? Hvk]; [by right|]. split; [done|].
  rewrite <-Hvk. eapply check_byte_frame; [|exact E]. intros ?. assert (j = k) by lia. by subst.
Qed.

Lemma check_bytes_eq n a name w :
  check_bytes n a (load n (w_mem w) a) name w =
  for_ (seqZ 0 (Z.of_nat n)) (λ j, read_byte name (a + j)) w.
Proof.
  unfold check_bytes. apply check_bytes_bytewise; [apply NoDup_seqZ|].
  intros j Hj%elem_of_seqZ. split; [lia|done].
Qed.

Lemma existsb_span a n x : existsb (λ j, at_ (a + j) x) (seqZ 0 n) = span a n x.
Proof.
  apply eq_iff_eq_true. rewrite span_iff, existsb_exists. split.
  - intros (j & Hj%list_elem_of_In%elem_of_seqZ & Hx%Z.eqb_eq). lia.
  - intros H. exists (x - a). split; [apply list_elem_of_In, elem_of_seqZ; lia|apply Z.eqb_eq; lia].
Qed.

Lemma bytewise_reads a n name w w' : codes_ok (w_priv w) →
  for_ (seqZ 0 n) (λ j, read_byte name (a + j)) w = Ok tt w' → reads (span a n) w w'.
Proof.
  intros Hok H. eapply reads_ext; [intros x; apply existsb_span|].
  eapply (reads_for _ (λ j, at_ (a + j))); [|done|exact H].
  intros j v v' _ _. apply read_byte_reads.
Qed.

(** ** The loops over a range *)

Lemma RoundDown8 n : 0 ≤ n < 2 ^ 64 → RoundDown n 8 = n - n mod 8.
Proof. intros. by apply (ROUND_DOWN_spec n 3). Qed.

Lemma RoundUp8 n : 0 ≤ n → n + 7 < 2 ^ 64 → RoundUp n 8 = n + 7 - (n + 7) mod 8.
Proof.
  intros. unfold RoundUp. change (8 - 1) with 7. rewrite (wrap_small 64) by lia.
  apply RoundDown8. lia.
Qed.

Lemma steps_bytes lo hi x : existsb (λ a, at_ a x) (steps lo hi 1) = span lo (hi - lo) x.
Proof.
  unfold steps. apply eq_iff_eq_true. rewrite span_iff, existsb_exists. split.
  - intros (a & Ha%list_elem_of_In & Hx%Z.eqb_eq).
    apply list_elem_of_fmap in Ha as (i & -> & Hi%elem_of_seqZ). rewrite Z.div_1_r in Hi. lia.
  - intros H. exists x. split; [|apply Z.eqb_refl].
    apply list_elem_of_In, list_elem_of_fmap. exists (x - lo).
    rewrite elem_of_seqZ, Z.div_1_r. lia.
Qed.

Lemma steps_words lo hi x : lo mod 8 = 0 → hi mod 8 = 0 →
  existsb (λ a, span a 8 x) (steps lo hi 8) = span lo (hi - lo) x.
Proof.
  intros Hlo Hhi. unfold steps. apply eq_iff_eq_true. rewrite span_iff, existsb_exists.
  change (8 - 1) with 7. split.
  - intros (a & Ha%list_elem_of_In & Hx%span_iff).
    apply list_elem_of_fmap in Ha as (i & -> & Hi%elem_of_seqZ).
    Z.to_euclidean_division_equations; lia.
  - intros H. exists (lo + 8 * ((x - lo) / 8)). split.
    + apply list_elem_of_In, list_elem_of_fmap. exists ((x - lo) / 8).
      rewrite elem_of_seqZ. split; [done|]. Z.to_euclidean_division_equations; lia.
    + apply span_iff. Z.to_euclidean_division_equations; lia.
Qed.

(** The bytes a range read checks: all of the range, and when the range begins
    and ends inside one word also the other bytes of that word that the two
    byte loops pass over. *)
Definition range_bytes (start stop a : Z) : bool :=
  span start (RoundUp start 8 - start) a ||
  (span (RoundUp start 8) (RoundDown stop 8 - RoundUp start 8) a ||
   span (RoundDown stop 8) (stop - RoundDown stop 8) a).

Lemma range_bytes_cover start stop a : 0 ≤ start → stop + 7 < 2 ^ 64 → start + 7 < 2 ^ 64 →
  start ≤ a < stop → range_bytes start stop a = true.
Proof.
  intros H0 Hs Hs' Ha. unfold range_bytes. rewrite RoundUp8, RoundDown8 by lia.
  rewrite !orb_true_iff, !span_iff. Z.to_euclidean_division_equations; lia.
Qed.

Lemma range_bytes_words start stop a : 0 ≤ start ≤ stop → stop + 7 < 2 ^ 64 →
  range_bytes start stop a = true → start - start mod 8 ≤ a < stop + 7 - (stop + 7) mod 8.
Proof.
  intros H0 Hs. unfold range_bytes. rewrite RoundUp8, RoundDown8 by lia.
  rewrite !orb_true_iff, !span_iff. Z.to_euclidean_division_equations; lia.
Qed.

Lemma range_internal_reads start stop name w w' : 0 ≤ start → 0 ≤ stop → stop + 7 < 2 ^ 64 → start + 7 < 2 ^ 64 →
  codes_ok (w_priv w) → private_read_range_internal start stop name w = Ok tt w' →
  reads (range_bytes start stop) w w'.
Proof.
  intros H0 H0' Hs Hs' Hok ([] & w1 & H1 & ([] & w2 & H2 & H3)%bind_ok)%bind_ok.
  assert (reads (span start (RoundUp start 8 - start)) w w1) as R1.
  { eapply reads_ext; [intros x; apply steps_bytes|].
    eapply (reads_for _ at_); [|done|exact H1]. intros a v v' _ _. apply read_byte_reads. }
  assert (codes_ok (w_priv w1)) as Hok1 by (by rewrite (reads_frame _ _ _ R1)).
  assert (reads (span (RoundUp start 8) (RoundDown stop 8 - RoundUp start 8)) w1 w2) as R2.
  { eapply reads_ext; [intros x; apply steps_words|].
    - rewrite RoundUp8 by lia. Z.to_euclidean_division_equations; lia.
    - rewrite RoundDown8 by lia. Z.to_euclidean_division_equations; lia.
    - eapply (reads_for _ (λ a, span a 8)); [|done|exact H2].
      intros a v v' _ ?. by apply read_word8_reads. }
  assert (codes_ok (w_priv w2)) as Hok2 by (by rewrite (reads_frame _ _ _ R2)).
  eapply reads_app; [exact R1|]. eapply reads_app; [exact R2|].
  eapply reads_ext; [intros x; apply steps_bytes|].
  eapply (reads_for _ at_); [|done|exact H3]. intros a v v' _ _. apply read_byte_reads.
Qed.

(** ** The effect of a hook

    Interface between the hooks and the rest of the runtime.  A hook that
    returns has checked the bytes it reads and writes, recorded the accesses in
    the shadow, and extended the touched range; only the shadow bytes, the range
    and the note of the last live-in read change. *)

Definition in_words (lo hi a : Z) : Prop := lo - lo mod 8 ≤ a < hi + 7 - (hi + 7) mod 8.

(** Change of the variables a hook may change. *)
Definition ranged (lo hi s e : Z) (p : PrivateVars) : PrivateVars :=
  set_last_read_live_in_ptr_end e (set_last_read_live_in_ptr_start s
    (set_shadow_highest_exclusive hi (set_shadow_lowest_inclusive lo p))).

(** Access of [n] bytes at shadow address [s]; [R] and [W] are the bytes that
    were checked for reading and for writing. *)
Record hook_effect (s n : Z) (R W : Z → bool) (w w' : World) : Prop := {
  he_frame : ∃ lo hi b e, w' = set_w_priv (ranged lo hi b e (w_priv w)) (set_w_mem (w_mem w') w);
  he_range :
    shadow_lowest_inclusive (w_priv w') = Z.min (shadow_lowest_inclusive (w_priv w)) s ∧
    shadow_highest_exclusive (w_priv w') = Z.max (shadow_highest_exclusive (w_priv w)) (s + n);
  he_cover : ∀ a, R a = true ∨ W a = true →
    in_words (shadow_lowest_inclusive (w_priv w')) (shadow_highest_exclusive (w_priv w')) a;
  he_read : ∀ a, R a = true → readable (code8 (w_priv w)) (rd (w_mem w) a);
  he_write : ∀ a, W a = true → rd (w_mem w) a ≠ READ_LIVE_IN;
  he_mem : ∀ a, rd (w_mem w') a =
    if W a then code8 (w_priv w) else if R a then mark (rd (w_mem w) a) else rd (w_mem w) a }.

(** The same without the checks. *)
Record hook_marks (s n : Z) (R W : Z → bool) (w w' : World) : Prop := {
  hm_frame : ∃ lo hi b e, w' = set_w_priv (ranged lo hi b e (w_priv w)) (set_w_mem (w_mem w') w);
  hm_range :
    shadow_lowest_inclusive (w_priv w') = Z.min (shadow_lowest_inclusive (w_priv w)) s ∧
    shadow_highest_exclusive (w_priv w') = Z.max (shadow_highest_exclusive (w_priv w)) (s + n);
  hm_cover : ∀ a, R a = true ∨ W a = true →
    in_words (shadow_lowest_inclusive (w_priv w')) (shadow_highest_exclusive (w_priv w')) a;
  hm_mem : ∀ a, rd (w_mem w') a =
    if W a then code8 (w_priv w) else if R a then mark (rd (w_mem w) a) else rd (w_mem w) a }.

Lemma marks_effect s n R W w w' : hook_marks s n R W w w' →
  (∀ a, R a = true → readable (code8 (w_priv w)) (rd (w_mem w) a)) →
  (∀ a, W a = true → rd (w_mem w) a ≠ READ_LIVE_IN) → hook_effect s n R W w w'.
Proof. intros [H1 H2 H3 H4] Hr Hw. by constructor. Qed.

(** The run of [update_shadow_range]. *)
Definition widened (s n : Z) (p : PrivateVars) : PrivateVars :=
  ranged (Z.min (shadow_lowest_inclusive p) s) (Z.max (shadow_highest_exclusive p) (s + n))
    (last_read_live_in_ptr_start p) (last_read_live_in_ptr_end p) p.

Lemma update_shadow_range_run s n w : 0 ≤ s + n < 2 ^ 64 →
  update_shadow_range s n w = Ok tt (set_w_priv (widened s n (w_priv w)) w).
Proof.
  intros H. unfold update_shadow_range, bind, upd_pv, modify, widened. rewrite (wrap_small 64) by lia.
  destruct w as [[first gran lo hi slo shi c1 c2 c4 c8 b e] ? ? ? ? ? ? ? ?]. simpl.
  replace (Z.min lo s) with (if s <? lo then s else lo) by (destruct (Z.ltb_spec s lo); lia).
  replace (Z.max hi (s + n)) with (if hi <? s + n then s + n else hi)
    by (destruct (Z.ltb_spec hi (s + n)); lia).
  destruct (s <? lo); simpl; destruct (hi <? s + n); reflexivity.
Qed.

Lemma widened_cover s n p a : 0 ≤ n → s - s mod 8 ≤ a < s + n + 7 - (s + n + 7) mod 8 →
  in_words (shadow_lowest_inclusive (widened s n p)) (shadow_highest_exclusive (widened s n p)) a.
Proof.
  intros Hn Ha. unfold in_words, widened, ranged. simpl.
  destruct (Z.min_spec (shadow_lowest_inclusive p) s) as [[? ->]|[? ->]];
    destruct (Z.max_spec (shadow_highest_exclusive p) (s + n)) as [[? ->]|[? ->]];
    Z.to_euclidean_division_equations; lia.
Qed.

(** A read: checked bytes, then the range. *)
Lemma effect_read S s n p w w' : 0 ≤ n →
  (∀ a, S a = true → s - s mod 8 ≤ a < s + n + 7 - (s + n + 7) mod 8) →
  reads S w w' → (∃ b e, p = ranged (shadow_lowest_inclusive (widened s n (w_priv w)))
    (shadow_highest_exclusive (widened s n (w_priv w))) b e (w_priv w)) →
  hook_effect s n S (λ _, false) w (set_w_priv p w').
Proof.
  intros Hn HS [Hf Hc Hm] (b & e & ->). constructor; simpl.
  - eexists _, _, _, _. rewrite Hf. simpl. reflexivity.
  - done.
  - intros a [Ha|]; [|done]. apply widened_cover; [done|]. by apply HS.
  - done.
  - done.
  - done.
Qed.

Lemma marks_write s n w m' : 0 ≤ n →
  (∀ a, rd m' a = if decide (s ≤ a < s + n) then code8 (w_priv w) else rd (w_mem w) a) →
  hook_marks s n (λ _, false) (span s n) w (set_w_priv (widened s n (w_priv w)) (set_w_mem m' w)).
Proof.
  intros Hn Hm. constructor; simpl.
  - by eexists _, _, _, _.
  - done.
  - intros a [|Ha%span_iff]; [done|]. apply widened_cover; [done|].
    Z.to_euclidean_division_equations; lia.
  - intros a. by rewrite Hm, span_if.
Qed.

Lemma memchr_false m s c n : memchr m s c n = false → ∀ a, span s n a = true → rd m a ≠ c.
Proof.
  intros H a Ha%span_iff E. apply not_true_iff_false in H. apply H.
  apply existsb_exists. exists (a - s). split; [apply list_elem_of_In, elem_of_seqZ; lia|].
  apply Z.eqb_eq. rewrite <-E. f_equal. lia.
Qed.

(** ** The hooks as one family *)

Inductive hook : Type :=
| Read_range (len : Z) | Read_1b | Read_2b | Read_4b | Read_8b
| Write_range (len : Z) | Write_1b | Write_2b | Write_4b | Write_8b.

Definition hook_len (h : hook) : Z :=
  match h with
  | Read_range n | Write_range n => n
  | Read_1b | Write_1b => 1 | Read_2b | Write_2b => 2
  | Read_4b | Write_4b => 4 | Read_8b | Write_8b => 8
  end.
Definition is_write (h : hook) : bool :=
  match h with Write_range _ | Write_1b | Write_2b | Write_4b | Write_8b => true | _ => false end.

Definition run_hook (h : hook) (ptr : Z) (name : string) : X unit :=
  match h with
  | Read_range n => private_read_range ptr n name
  | Read_1b => private_read_1b ptr name
  | Read_2b => private_read_2b ptr name
  | Read_4b => private_read_4b ptr name
  | Read_8b => private_read_8b ptr name
  | Write_range n => private_write_range ptr n
  | Write_1b => private_write_1b ptr
  | Write_2b => private_write_2b ptr
  | Write_4b => private_write_4b ptr
  | Write_8b => private_write_8b ptr
  end.

(** The hooks that skip the check of a write inside the last live-in read. *)
Definition unchecked (h : hook) (ptr : Z) (w : World) : bool :=
  match h with
  | Write_4b | Write_8b =>
      negb ((ptr <? last_read_live_in_ptr_start (w_priv w)) ||
            (last_read_live_in_ptr_end (w_priv w) <? u64 (ptr + hook_len h)))
  | _ => false
  end.

(** A write that the check would have stopped, if it had been made. *)
Definition missed (h : hook) (ptr : Z) (w : World) : bool :=
  unchecked h ptr w && memchr (w_mem w) (shadow_of ptr) READ_LIVE_IN (hook_len h).

Definition is_worker (w : World) : Prop := myWorkerId (w_api w) ≠ MAIN_PROCESS.

Lemma when_worker w (c : X unit) : is_worker w →
  bind i_am_main_process (λ main, when (negb main) c) w = c w.
Proof.
  unfold is_worker. intros H. unfold bind, i_am_main_process, av, gets.
  by destruct (Z.eqb_spec (myWorkerId (w_api w)) MAIN_PROCESS).
Qed.

Lemma set_priv_id w : set_w_priv (w_priv w) w = w.
Proof. by destruct w. Qed.

(** The three wide reads as one function: the fast cases, in an order that does
    not matter, and the byte loop. *)
Definition wide_read (n : nat) (note : PrivateVars → PrivateVars) (s : Z) (name : string)
    (w : World) : res World unit :=
  let w1 := set_w_priv (widened s (Z.of_nat n) (w_priv w)) w in
  let meta := load n (w_mem w) s in
  if meta =? rep n (code8 (w_priv w)) then Ok tt w1
  else if meta =? rep n 0
  then Ok tt (set_w_priv (note (w_priv w1)) (set_w_mem (store n (w_mem w) s (rep n 1)) w1))
  else if meta =? rep n 1 then Ok tt w1
  else check_bytes n s meta name w1.

(** [note] only changes the note. *)
Definition notes (note : PrivateVars → PrivateVars) : Prop :=
  ∀ p, ∃ b e, note p = set_last_read_live_in_ptr_end e (set_last_read_live_in_ptr_start b p).

Lemma notes_id : notes id.
Proof. intros p. exists (last_read_live_in_ptr_start p), (last_read_live_in_ptr_end p). by destruct p. Qed.

Lemma notes_noted ptr len : notes (noted ptr len).
Proof.
  intros p. unfold noted. destruct (_ || _); [by eexists _, _|].
  exists (last_read_live_in_ptr_start p), (u64 (last_read_live_in_ptr_end p + len)). by destruct p.
Qed.

(** Step over the first operation of a sequence. *)
Lemma bind_run {A B} (c : X A) (k : A → X B) w a w1 : c w = Ok a w1 → bind c k w = k a w1.
Proof. intros E. unfold bind. by rewrite E. Qed.

Lemma read_2b_run ptr name w : is_worker w → codes_ok (w_priv w) → 0 ≤ shadow_of ptr + 2 < 2 ^ 64 →
  private_read_2b ptr name w = wide_read 2 id (shadow_of ptr) name w.
Proof.
  intros Hw Hok Hs. unfold private_read_2b. rewrite when_worker by done.
  set (s := shadow_of ptr) in *. rewrite (bind_run _ _ w (load 2 (w_mem w) s) w) by done.
  rewrite (bind_run _ _ _ _ _ (update_shadow_range_run s 2 w Hs)).
  rewrite (bind_run _ _ _ (code16 (w_priv w)) (set_w_priv (widened s 2 (w_priv w)) w)) by done.
  destruct V16_rep as [-> ->]. rewrite (codes_16 _ Hok). unfold wide_read.
  by repeat case_match.
Qed.

Lemma read_4b_run ptr name w : is_worker w → codes_ok (w_priv w) → 0 ≤ shadow_of ptr + 4 < 2 ^ 64 →
  private_read_4b ptr name w = wide_read 4 (noted ptr 4) (shadow_of ptr) name w.
Proof.
  intros Hw Hok Hs. unfold private_read_4b. rewrite when_worker by done.
  set (s := shadow_of ptr) in *. rewrite (bind_run _ _ w (load 4 (w_mem w) s) w) by done.
  rewrite (bind_run _ _ _ _ _ (update_shadow_range_run s 4 w Hs)).
  rewrite (bind_run _ _ _ (code32 (w_priv w)) (set_w_priv (widened s 4 (w_priv w)) w)) by done.
  destruct V32_rep as [-> ->]. rewrite (codes_32 _ Hok). unfold wide_read.
  by repeat case_match.
Qed.

Lemma read_8b_run ptr name w : is_worker w → codes_ok (w_priv w) → 0 ≤ shadow_of ptr + 8 < 2 ^ 64 →
  private_read_8b ptr name w = wide_read 8 (noted ptr 8) (shadow_of ptr) name w.
Proof.
  intros Hw Hok Hs. unfold private_read_8b. rewrite when_worker by done.
  set (s := shadow_of ptr) in *. rewrite (bind_run _ _ w (load 8 (w_mem w) s) w) by done.
  rewrite (bind_run _ _ _ _ _ (update_shadow_range_run s 8 w Hs)).
  rewrite (bind_run _ _ _ (code64 (w_priv w)) (set_w_priv (widened s 8 (w_priv w)) w)) by done.
  destruct V64_rep as [-> ->]. rewrite (codes_64 _ Hok). unfold wide_read.
  destruct (Z.eqb_spec (load 8 (w_mem w) s) (rep 8 (code8 (w_priv w)))) as [E|].
  - destruct (Z.eqb_spec (load 8 (w_mem w) s) (rep 8 0)) as [E0|]; [|done].
    exfalso. destruct (codes_byte _ Hok) as [Hc Hc0]. rewrite load_rep_iff in E, E0 by lia.
    apply Hc0. rewrite <-(E 0), (E0 0) by lia. done.
  - by destruct (Z.eqb_spec (load 8 (w_mem w) s) (rep 8 0)), (Z.eqb_spec (load 8 (w_mem w) s) (rep 8 1)).
Qed.

Lemma wide_read_effect n note s name w w' : (0 < n)%nat → notes note → codes_ok (w_priv w) →
  wide_read n note s name w = Ok tt w' → hook_effect s (Z.of_nat n) (span s (Z.of_nat n)) (λ _, false) w w'.
Proof.
  intros Hn Hnote Hok. unfold wide_read. set (w1 := set_w_priv (widened s (Z.of_nat n) (w_priv w)) w).
  assert (∀ v p, reads (span s (Z.of_nat n)) w v →
    (∃ b e, p = ranged (shadow_lowest_inclusive (w_priv w1)) (shadow_highest_exclusive (w_priv w1)) b e (w_priv w)) →
    hook_effect s (Z.of_nat n) (span s (Z.of_nat n)) (λ _, false) w (set_w_priv p v)) as Hgo.
  { intros v p HR Hp. eapply (effect_read _ s (Z.of_nat n)); [lia| |done|done].
    intros a Ha%span_iff. Z.to_euclidean_division_equations; lia. }
  destruct (Z.eqb_spec (load n (w_mem w) s) (rep n (code8 (w_priv w)))).
  { intros [= <-]. apply (Hgo w); [|by eexists _, _]. apply word_cases; [done|by left]. }
  destruct (Z.eqb_spec (load n (w_mem w) s) (rep n 0)).
  { intros [= <-]. apply (Hgo (set_w_mem (store n (w_mem w) s (rep n 1)) w)); [by apply uniform_fresh|].
    destruct (Hnote (widened s (Z.of_nat n) (w_priv w))) as (b & e1 & ->). by eexists _, _. }
  destruct (Z.eqb_spec (load n (w_mem w) s) (rep n 1)).
  { intros [= <-]. apply (Hgo w); [|by eexists _, _]. apply word_cases; [done|by right]. }
  intros Hc. change (w_mem w) with (w_mem w1) in Hc. rewrite check_bytes_eq in Hc.
  apply bytewise_reads in Hc; [|by destruct Hok].
  destruct Hc as [Hf Hck Hm]. rewrite Hf. apply (Hgo (set_w_mem (w_mem w') w) (w_priv w1)); [|by eexists _, _].
  constructor; [done|exact Hck|exact Hm].
Qed.

Lemma shadow_bound k n : 0 ≤ k → 0 ≤ n → k + n ≤ heap_span → 0 ≤ SHADOW_ADDR + k + n < 2 ^ 47.
Proof. unfold heap_span. change SHADOW_ADDR with (7 * 2 ^ 43). lia. Qed.

Lemma shadow_lt k : 0 ≤ k < heap_span → shadow_of (PRIV_ADDR + k) = SHADOW_ADDR + k ∧ 0 ≤ SHADOW_ADDR + k < 2 ^ 47.
Proof. intros Hk. split; [by apply shadow_of_priv|]. pose proof (shadow_bound k 0). unfold heap_span in *. lia. Qed.

Lemma read_range_effect k n name w w' : is_worker w → codes_ok (w_priv w) →
  0 ≤ k < heap_span → 0 ≤ n → k + n ≤ heap_span →
  private_read_range (PRIV_ADDR + k) n name w = Ok tt w' →
  hook_effect (SHADOW_ADDR + k) n (range_bytes (SHADOW_ADDR + k) (SHADOW_ADDR + k + n)) (λ _, false) w w'.
Proof.
  intros Hw Hok Hk Hn Hb. unfold private_read_range. rewrite when_worker by done.
  destruct (shadow_lt k Hk) as [-> Hs]. pose proof (shadow_bound k n) as Hs2.
  rewrite (wrap_small 64) by lia. set (s := SHADOW_ADDR + k) in *.
  intros ([] & w1 & H1 & H2)%bind_ok.
  apply range_internal_reads in H1; [|lia..|done].
  rewrite update_shadow_range_run in H2 by lia. injection H2 as <-.
  rewrite (reads_frame _ _ _ H1) at 1. simpl.
  eapply (effect_read _ s n); [lia| |done|by eexists _, _].
  intros a Ha. apply range_bytes_words in Ha; lia.
Qed.

(** The bytes that a read hook checks besides its own: those of ranges, of which a
    single byte is one, may be other bytes of the same words. *)
Definition exact_read (h : hook) : bool := match h with Read_2b | Read_4b | Read_8b => true | _ => false end.
Record read_bytes (h : hook) (s : Z) (S : Z → bool) : Prop := {
  rb_all : ∀ a, s ≤ a < s + hook_len h → S a = true;
  rb_words : ∀ a, S a = true → s - s mod 8 ≤ a < s + hook_len h + 7 - (s + hook_len h + 7) mod 8;
  rb_exact : exact_read h = true → ∀ a, S a = true → s ≤ a < s + hook_len h }.

Lemma range_read_bytes h s : 0 ≤ s → 0 ≤ hook_len h → s + hook_len h + 7 < 2 ^ 64 → exact_read h = false →
  read_bytes h s (range_bytes s (s + hook_len h)).
Proof.
  intros Hs Hn Hb He. constructor; [intros a Ha; apply range_bytes_cover; lia| |by rewrite He].
  intros a Ha. apply range_bytes_words in Ha; lia.
Qed.

Lemma wide_read_bytes h s : read_bytes h s (span s (hook_len h)).
Proof.
  constructor; [intros a; by rewrite span_iff| |intros _ a; by rewrite span_iff].
  intros a Ha%span_iff. Z.to_euclidean_division_equations; lia.
Qed.

Lemma read_hook_effect h k name w w' : is_worker w → codes_ok (w_priv w) → is_write h = false →
  0 ≤ k < heap_span → 0 ≤ hook_len h → k + hook_len h ≤ heap_span →
  run_hook h (PRIV_ADDR + k) name w = Ok tt w' →
  ∃ S, hook_effect (SHADOW_ADDR + k) (hook_len h) S (λ _, false) w w' ∧ read_bytes h (SHADOW_ADDR + k) S.
Proof.
  intros Hw Hok Hr Hk Hn Hb Hrun. pose proof (shadow_bound k (hook_len h)) as Hs2.
  destruct (shadow_lt k Hk) as [Es Hs].
  destruct h; try discriminate; cbn [run_hook] in *.
  1-2: eexists; split; [by eapply read_range_effect|]; apply range_read_bytes; (done || lia).
  all: eexists; split; [|apply wide_read_bytes].
  - rewrite read_2b_run, Es in Hrun by (done || cbn [hook_len] in *; lia).
    eapply (wide_read_effect 2); [lia|apply notes_id|done|exact Hrun].
  - rewrite read_4b_run, Es in Hrun by (done || cbn [hook_len] in *; lia).
    eapply (wide_read_effect 4); [lia|apply notes_noted|done|exact Hrun].
  - rewrite read_8b_run, Es in Hrun by (done || cbn [hook_len] in *; lia).
    eapply (wide_read_effect 8); [lia|apply notes_noted|done|exact Hrun].
Qed.

(** ** Writes *)

(** The end of every write hook. *)
Lemma finish_write s n w m' : 0 ≤ n → 0 ≤ s + n < 2 ^ 64 →
  (∀ a, rd m' a = if decide (s ≤ a < s + n) then code8 (w_priv w) else rd (w_mem w) a) →
  ∀ w', update_shadow_range s n (set_w_mem m' w) = Ok tt w' →
  hook_marks s n (λ _, false) (span s n) w w'.
Proof.
  intros Hn Hs Hm w'. rewrite update_shadow_range_run by done. intros [= <-].
  by apply (marks_write s n).
Qed.

(** A test that may misspeculate, then the rest. *)
Lemma guard_ok {A} (b : bool) why (k : unit → X A) w (a : A) w' :
  bind (if b then misspec why else ret tt) k w = Ok a w' → b = false ∧ k tt w = Ok a w'.
Proof.
  intros ([] & t & H & Hk)%bind_ok. destruct b; [by apply misspec_not_ok in H|].
  by injection H as <-.
Qed.

(** Every write hook marks its bytes; all but the skipped checks were made. *)
Lemma write_hook_run h k name w w' : is_worker w → codes_ok (w_priv w) → is_write h = true →
  0 ≤ k < heap_span → 0 ≤ hook_len h → k + hook_len h ≤ heap_span →
  run_hook h (PRIV_ADDR + k) name w = Ok tt w' →
  hook_marks (SHADOW_ADDR + k) (hook_len h) (λ _, false) (span (SHADOW_ADDR + k) (hook_len h)) w w' ∧
  (missed h (PRIV_ADDR + k) w = false → ∀ a, span (SHADOW_ADDR + k) (hook_len h) a = true → rd (w_mem w) a ≠ READ_LIVE_IN).
Proof.
  intros Hw Hok Hr Hk Hn Hb Hrun. pose proof (shadow_bound k (hook_len h)) as Hs2.
  destruct (shadow_lt k Hk) as [Es Hs]. destruct (codes_byte _ Hok) as [Hc8 _].
  unfold missed, unchecked. rewrite Es.
  destruct h; try discriminate; cbn [run_hook hook_len] in *;
    unfold private_write_range, private_write_1b, private_write_2b, private_write_4b, private_write_8b in Hrun;
    rewrite when_worker, Es in Hrun by done; set (s := SHADOW_ADDR + k) in *.
  - apply bind_ok in Hrun as (hit & t & [= <- <-] & [Hm Hrun]%guard_ok). split; [|intros _; by apply memchr_false].
    apply (finish_write s len w (memset (w_mem w) s (code8 (w_priv w)) len)); [lia|lia| |exact Hrun].
    intros a. rewrite rd_memset by done. by rewrite (wrap_small 8) by lia.
  - apply bind_ok in Hrun as (meta & t & [= <- <-] & [Hm Hrun]%guard_ok). split.
    + apply (finish_write s 1 w (wr (w_mem w) s (code8 (w_priv w)))); [lia|lia| |exact Hrun].
      intros a. rewrite rd_wr, (wrap_small 8) by lia.
      destruct (decide (s = a)); [by rewrite decide_True by lia|by rewrite decide_False by lia].
    + intros _ a Ha%span_iff. replace a with s by lia. by apply Z.eqb_neq.
  - apply bind_ok in Hrun as (meta & t & [= <- <-] & [Hm1 [Hm0 Hrun]%guard_ok]%guard_ok). split.
    + apply (finish_write s 2 w (store 2 (w_mem w) s (code16 (w_priv w)))); [lia|lia| |exact Hrun].
      intros a. rewrite (codes_16 _ Hok). apply rd_store_rep. lia.
    + apply Z.eqb_neq in Hm0, Hm1. change 8 with (8 * 1) in Hm1.
      rewrite loaded_byte in Hm1 by lia.
      replace (Z.land (load 2 (w_mem w) s) 255) with (rd (w_mem w) (s + 0)) in Hm0
        by (rewrite <-(loaded_byte 2) by lia; by rewrite Z.mul_0_r, Z.shiftr_0_r).
      intros _ a Ha%span_iff. assert (a = s + 0 ∨ a = s + 1) as [->| ->] by lia; done.
  - apply bind_ok in Hrun as (out & t & [= <- <-] & (hit & t' & [= <- <-] & [Hm Hrun]%guard_ok)%bind_ok). split.
    + apply (finish_write s 4 w (store 4 (w_mem w) s (code32 (w_priv w)))); [lia|lia| |exact Hrun].
      intros a. rewrite (codes_32 _ Hok). apply (rd_store_rep 4). lia.
    + intros Hun. apply memchr_false. revert Hm Hun. by destruct (_ || _), (memchr _ _ _ _).
  - apply bind_ok in Hrun as (out & t & [= <- <-] & (hit & t' & [= <- <-] & [Hm Hrun]%guard_ok)%bind_ok). split.
    + apply (finish_write s 8 w (store 8 (w_mem w) s (code64 (w_priv w)))); [lia|lia| |exact Hrun].
      intros a. rewrite (codes_64 _ Hok). apply (rd_store_rep 8). lia.
    + intros Hun. apply memchr_false. revert Hm Hun. by destruct (_ || _), (memchr _ _ _ _).
Qed.

Lemma write_hook_effect h k name w w' : is_worker w → codes_ok (w_priv w) → is_write h = true →
  missed h (PRIV_ADDR + k) w = false →
  0 ≤ k < heap_span → 0 ≤ hook_len h → k + hook_len h ≤ heap_span →
  run_hook h (PRIV_ADDR + k) name w = Ok tt w' →
  hook_effect (SHADOW_ADDR + k) (hook_len h) (λ _, false) (span (SHADOW_ADDR + k) (hook_len h)) w w'.
Proof.
  intros Hw Hok Hr Hun Hk Hn Hb Hrun. destruct (write_hook_run h k name w w') as [Hm Hc]; [done..|].
  apply marks_effect; [done|done|by apply Hc].
Qed.

(** ** Wide reads against the byte loop *)

(** A read of readable bytes returns. *)
Lemma read_byte_total name a w : readable (code8 (w_priv w)) (rd (w_mem w) a) →
  ∃ w', read_byte name a w = Ok tt w'.
Proof.
  intros H. unfold read_byte, check_byte, bind, ldb, pv, gets.
  destruct (Z.eqb_spec (rd (w_mem w) a) LIVE_IN); [by eexists|].
  destruct (Z.eqb_spec (rd (w_mem w) a) (code8 (w_priv w))); [by eexists|].
  destruct (Z.eqb_spec (rd (w_mem w) a) READ_LIVE_IN); [by eexists|].
  destruct H as [?|[?|?]]; contradiction.
Qed.

Lemma bytewise_total name (l : list Z) : ∀ w,
  (∀ a, a ∈ l → readable (code8 (w_priv w)) (rd (w_mem w) a)) →
  ∃ w', for_ l (read_byte name) w = Ok tt w'.
Proof.
  induction l as [|a l IH]; intros w Hl; simpl; [by eexists|].
  destruct (read_byte_total name a w) as [w1 H1]; [apply Hl; by left|].
  rewrite (bind_run _ _ _ _ _ H1). apply IH. intros b Hb.
  destruct (read_byte_reads _ _ _ _ H1) as [Hf _ Hm]. rewrite Hf at 1. simpl. rewrite Hm.
  destruct (at_ a b); [apply mark_readable|]; apply Hl; by right.
Qed.

(** The reference: every byte on its own. *)
Definition bytewise_read (n : nat) (ptr : Z) (name : string) : X unit :=
  update_shadow_range (shadow_of ptr) (Z.of_nat n) ;;;
  for_ ((λ j, shadow_of ptr + j) <$> seqZ 0 (Z.of_nat n)) (read_byte name).

(** Both return, and then leave the same shadow, range and codes; or both stop
    for the same reason. *)
Definition same_outcome (r1 r2 : res World unit) : Prop :=
  match r1, r2 with
  | Ok _ w1, Ok _ w2 =>
      mem_eq (w_mem w1) (w_mem w2) ∧
      ∃ b e, w_priv w1 = set_last_read_live_in_ptr_end e (set_last_read_live_in_ptr_start b (w_priv w2))
  | Stop s1 _, Stop s2 _ => s1 = s2
  | _, _ => False
  end.

Lemma note_same p : p = set_last_read_live_in_ptr_end (last_read_live_in_ptr_end p)
  (set_last_read_live_in_ptr_start (last_read_live_in_ptr_start p) p).
Proof. by destruct p. Qed.

Lemma same_outcome_refl r : same_outcome r r.
Proof.
  destruct r as [u w|]; simpl; [|reflexivity]. split; [reflexivity|]. eexists _, _. apply note_same.
Qed.

Lemma wide_read_bytewise n note ptr name w : notes note → codes_ok (w_priv w) →
  0 ≤ shadow_of ptr + Z.of_nat n < 2 ^ 64 →
  same_outcome (wide_read n note (shadow_of ptr) name w) (bytewise_read n ptr name w).
Proof.
  intros Hnote Hok Hs. unfold bytewise_read. set (s := shadow_of ptr) in *.
  rewrite (bind_run _ _ _ _ _ (update_shadow_range_run s (Z.of_nat n) w Hs)).
  unfold wide_read. set (w1 := set_w_priv (widened s (Z.of_nat n) (w_priv w)) w).
  assert (∀ v note', reads (span s (Z.of_nat n)) w1 v → notes note' →
    same_outcome (Ok tt (set_w_priv (note' (w_priv w1)) v))
      (for_ ((λ j, s + j) <$> seqZ 0 (Z.of_nat n)) (read_byte name) w1)) as Hgo.
  { intros v note' HR Hn'. destruct (bytewise_total name ((λ j, s + j) <$> seqZ 0 (Z.of_nat n)) w1) as [w2 H2].
    - intros a (j & -> & Hj%elem_of_seqZ)%list_elem_of_fmap. apply (reads_check _ _ _ HR), span_iff. lia.
    - rewrite H2. rewrite for_fmap in H2. apply bytewise_reads in H2; [|by destruct Hok].
      split; simpl; [intros a; by rewrite (reads_mem _ _ _ HR), (reads_mem _ _ _ H2)|].
      rewrite (reads_frame _ _ _ H2). apply (Hn' (w_priv w1)). }
  assert (∀ v, reads (span s (Z.of_nat n)) w v →
    reads (span s (Z.of_nat n)) w1 (set_w_priv (w_priv w1) v)) as Hl.
  { intros v [Hf Hc Hm]. constructor; simpl; [by rewrite Hf|exact Hc|exact Hm]. }
  destruct (Z.eqb_spec (load n (w_mem w) s) (rep n (code8 (w_priv w)))).
  { apply (Hgo w1 id); [|apply notes_id]. apply (Hl w), word_cases; [done|by left]. }
  destruct (Z.eqb_spec (load n (w_mem w) s) (rep n 0)).
  { apply (Hgo (set_w_mem (store n (w_mem w) s (rep n 1)) w1) note); [|done].
    apply (Hl (set_w_mem (store n (w_mem w) s (rep n 1)) w)). by apply uniform_fresh. }
  destruct (Z.eqb_spec (load n (w_mem w) s) (rep n 1)).
  { apply (Hgo w1 id); [|apply notes_id]. apply (Hl w), word_cases; [done|by right]. }
  change (w_mem w) with (w_mem w1). rewrite check_bytes_eq, for_fmap.
  apply same_outcome_refl.
Qed.

(** ** Theorems *)

(** A worker in its first iteration, with code 3. *)
Definition demo_start : X unit :=
  upd_av (set_numWorkers 2) ;;; init_private ;;; upd_av (set_myWorkerId 1) ;;; set_first_iter 0.
Definition demo_access : World := world_of (demo_start blank).
Lemma demo_codes : codes_ok (w_priv demo_access).
Proof. by constructor. Qed.



(** [C14] The reads of 2, 4 and 8 bytes decide exactly what the byte by byte
    check decides: same verdict, same shadow memory, same touched range. *)
Theorem wide_reads_bytewise ptr name w :
  is_worker w → codes_ok (w_priv w) → 0 ≤ shadow_of ptr < 2 ^ 63 →
  same_outcome (private_read_2b ptr name w) (bytewise_read 2 ptr name w) ∧
  same_outcome (private_read_4b ptr name w) (bytewise_read 4 ptr name w) ∧
  same_outcome (private_read_8b ptr name w) (bytewise_read 8 ptr name w).
Proof.
  intros Hw Hok Hs. rewrite read_2b_run, read_4b_run, read_8b_run by (done || lia).
  split_and!; apply wide_read_bytewise; (done || lia || apply notes_id || apply notes_noted).
Qed.

Lemma wide_reads_bytewise_witness :
  same_outcome (private_read_2b (PRIV_ADDR + 8) "x" demo_access) (bytewise_read 2 (PRIV_ADDR + 8) "x" demo_access) ∧
  same_outcome (private_read_4b (PRIV_ADDR + 8) "x" demo_access) (bytewise_read 4 (PRIV_ADDR + 8) "x" demo_access) ∧
  same_outcome (private_read_8b (PRIV_ADDR + 8) "x" demo_access) (bytewise_read 8 (PRIV_ADDR + 8) "x" demo_access).
Proof. apply (wide_reads_bytewise (PRIV_ADDR + 8) "x" demo_access); [by vm_compute|exact demo_codes|by vm_compute]. Defined.

(** The group of iterations between two checkpoints that [i] belongs to. *)
Definition group (first gran i : Z) : Z := (i - first) / gran.

(** [C15] With 1 to 64 workers the checkpoint granularity is a multiple of the
    number of workers, at least half of the available codes, and the codes of
    the iterations of one checkpoint group are bytes above the reserved values
    that are ordered as the iterations are; in particular they are distinct. *)
Theorem iteration_codes_ordered w w1 i j wi wj :
  1 ≤ numWorkers (w_api w) ≤ MAX_WORKERS → init_private w = Ok tt w1 →
  let first := firstIteration (w_priv w1) in
  let gran := checkpointGranularity (w_priv w1) in
  first ≤ i → first ≤ j → group first gran i = group first gran j →
  set_iter i w1 = Ok tt wi → set_iter j w1 = Ok tt wj →
  gran mod numWorkers (w_api w) = 0 ∧ 128 ≤ gran ≤ 253 ∧
  OLD_ITERATION < code8 (w_priv wi) < NUM_DISTINCT_UINT8_VALUES ∧
  (code8 (w_priv wi) < code8 (w_priv wj) ↔ i < j).
Proof.
  intros Hn (n & t & [= <- <-] & H)%bind_ok first gran Hi Hj Hg Hsi Hsj.
  change MAX_WORKERS with 64 in Hn. injection H as <-.
  assert (gran = 253 - 253 mod numWorkers (w_api w)) as Eg by done.
  assert (128 ≤ gran ≤ 253) as Hr.
  { rewrite Eg. pose proof (Z.mod_pos_bound 253 (numWorkers (w_api w))). lia. }
  apply set_iter_codes in Hsi as [Hci Ei]; [|change (0 < gran ≤ 253); lia|done].
  apply set_iter_codes in Hsj as [Hcj Ej]; [|change (0 < gran ≤ 253); lia|done].
  change (code8 (w_priv wi) = (i - first) mod gran + 3) in Ei.
  change (code8 (w_priv wj) = (j - first) mod gran + 3) in Ej. split; [|split; [done|split]].
  - rewrite Eg, Zminus_mod, Zmod_mod, Z.sub_diag. by apply Z.mod_0_l; lia.
  - pose proof (codes_range _ Hci) as Hcr. change (3 ≤ code8 (w_priv wi) < 256) in Hcr.
    change (2 < code8 (w_priv wi) < 256). lia.
  - rewrite Ei, Ej. unfold group in Hg.
    pose proof (Z.div_mod (i - first) gran). pose proof (Z.div_mod (j - first) gran). lia.
Qed.

Lemma iteration_codes_ordered_witness :
  let w := set_w_api (set_numWorkers 5 (w_api blank)) blank in
  let w1 := world_of (init_private w) in
  250 mod 5 = 0 ∧ 128 ≤ 250 ≤ 253 ∧
  OLD_ITERATION < code8 (w_priv (world_of (set_iter 7 w1))) < NUM_DISTINCT_UINT8_VALUES ∧
  (code8 (w_priv (world_of (set_iter 7 w1))) < code8 (w_priv (world_of (set_iter 9 w1))) ↔ 7 < 9).
Proof.
  intros w w1. apply (iteration_codes_ordered w w1 7 9); by vm_compute.
Defined.
