(* ===== verification/Distill.v ===== *)
(** Merging private memory: the second half of [private.c].

    At a checkpoint every worker merges its private bytes into a partial
    checkpoint; a complete checkpoint is merged into the next one, and finally
    into the memory of the main process.  The shadow bytes decide which copy of
    a byte is newer, and reveal reads that should have seen another worker's
    write. *)
From S2P Require Import Prelude Machine Exec Privacy.
From stdpp Require Import strings.
#[local] Open Scope Z_scope.

(** ** Checkpoint objects *)

Definition chk (c : Z) : X Checkpoint :=
  λ w, match sh_chkpts (w_shared w) !! c with Some k => Ok k w | None => Stop Fault w end.
Definition upd_chk (c : Z) (f : Checkpoint → Checkpoint) : X unit :=
  let! k := chk c in
  upd_shared (λ s, set_sh_chkpts (<[c := f k]> (sh_chkpts s)) s).

(** Replace the bytes of a heap object. *)
Definition with_data (d : mem) (h : Heap) : Heap := set_h_data d h.

(** The hull of two ranges. *)
Definition hull_shadow (lo hi : Z) (k : Checkpoint) : Checkpoint :=
  let k1 := if lo <? c_shadow_lowest_inclusive k then set_c_shadow_lowest_inclusive lo k else k in
  if c_shadow_highest_exclusive k1 <? hi then set_c_shadow_highest_exclusive hi k1 else k1.
Definition hull_shareshadow (lo hi : Z) (k : Checkpoint) : Checkpoint :=
  let k1 := if lo <? c_shareshadow_lowest_inclusive k
            then set_c_shareshadow_lowest_inclusive lo k else k in
  if c_shareshadow_highest_exclusive k1 <? hi
  then set_c_shareshadow_highest_exclusive hi k1 else k1.

(** ** Worker into partial checkpoint

    A loop that may return early: the values and shadow of the destination, and
    whether the function returned 1. *)

(** Byte [k]: [ss] and [sp] are the worker's shadow and value. *)
Definition distill_byte (ss sp : Z) (k : Z) (d : mem * mem) : (mem * mem) * bool :=
  let ds := rd (d.2) k in
  if ss =? READ_LIVE_IN then
    if ds =? LIVE_IN then ((d.1, wr (d.2) k READ_LIVE_IN), false)
    else if ds =? READ_LIVE_IN then (d, false)
    else (d, true)
  else if ds =? READ_LIVE_IN then (d, true)
  else if ds <? ss then ((wr (d.1) k sp, wr (d.2) k ss), false)
  else (d, false).

Fixpoint until {A S} (body : A → S → S * bool) (l : list A) (s : S) : S * bool :=
  match l with
  | [] => (s, false)
  | x :: l' => match body x s with (s', true) => (s', true) | (s', false) => until body l' s' end
  end.

(** Word [i] of the worker's shadow: skipped when it is all live-in. *)
Definition distill_word (m : mem) (i : Z) (d : mem * mem) : (mem * mem) * bool :=
  if V64 LIVE_IN =? load 8 m (SHADOW_ADDR + i) then (d, false)
  else until (λ j, distill_byte (rd m (SHADOW_ADDR + (i + j))) (rd m (PRIV_ADDR + (i + j))) (i + j))
         (seqZ 0 8) d.

Definition distill_worker_private_into_partial (partial : Z) : X bool :=
  let! len := hv sizeof_private in
  let! p := pv id in
  let! m := gets w_mem in
  let! k := chk partial in
  let low := u32 (RoundDown32 (shadow_lowest_inclusive p - SHADOW_ADDR) 8) in
  let high := u32 (RoundUp32 (shadow_highest_exclusive p - SHADOW_ADDR) 8) in
  let d0 := (h_data (heap_priv k), h_data (heap_shadow k)) in
  let r := if 0 <? len then until (distill_word m) (steps low high 8) d0 else (d0, false) in
  upd_chk partial (λ k, set_heap_shadow (with_data (r.1.2) (heap_shadow k))
                          (set_heap_priv (with_data (r.1.1) (heap_priv k)) k)) ;;;
  if r.2 then ret true
  else
    upd_chk partial (hull_shadow (shadow_lowest_inclusive p) (shadow_highest_exclusive p)) ;;;
    reset_shadow_range ;;;
    ret false.

(** The kill-private heap has no shadow: the worker of the last iteration
    copies all of it. *)
Definition distill_worker_killprivate_into_partial (partial : Z) : X bool :=
  let! len := hv sizeof_killprivate in
  let! on := is_on_iter in
  if negb on then ret false
  else
    (when (0 <? len)
       (let! m := gets w_mem in
        upd_chk partial (λ k, set_heap_killpriv
          (with_data (memcpy (h_data (heap_killpriv k)) 0 m KILLPRIV_ADDR len) (heap_killpriv k)) k))) ;;;
    ret false.

(** The shadow of the share-private heap holds the values at the start of the
    loop: a byte was updated when it differs from its shadow, and the partial
    checkpoint marks it by a shadow that differs from the value. *)
Definition share_byte (ss sp : Z) (k : Z) (d : mem * mem) : mem * mem :=
  if negb (ss =? sp) then (wr (d.1) k sp, wr (d.2) k (not_w 8 sp)) else d.
Definition share_word (m : mem) (d : mem * mem) (i : Z) : mem * mem :=
  if load 8 m (SHAREPRIV_ADDR + i) =? load 8 m (SHARESHADOW_ADDR + i) then d
  else foldl (λ d j, share_byte (rd m (SHARESHADOW_ADDR + (i + j))) (rd m (SHAREPRIV_ADDR + (i + j)))
                       (i + j) d) d (seqZ 0 8).

Definition distill_worker_shareprivate_into_partial (partial : Z) : X bool :=
  let! len := hv sizeof_shareprivate in
  let! p := pv id in
  let! m := gets w_mem in
  let! k := chk partial in
  let low := u32 (RoundDown32 (shareshadow_lowest_inclusive p - SHARESHADOW_ADDR) 8) in
  let high := u32 (RoundUp32 (shareshadow_highest_exclusive p - SHARESHADOW_ADDR) 8) in
  let d0 := (h_data (heap_sharepriv k), h_data (heap_shareshadow k)) in
  let d := if 0 <? len then foldl (share_word m) d0 (steps low high 8) else d0 in
  upd_chk partial (λ k, set_heap_shareshadow (with_data (d.2) (heap_shareshadow k))
                          (set_heap_sharepriv (with_data (d.1) (heap_sharepriv k)) k)) ;;;
  upd_chk partial (hull_shareshadow (shareshadow_lowest_inclusive p) (shareshadow_highest_exclusive p)) ;;;
  reset_shareshadow_range ;;;
  ret false.

(** ** Committed checkpoint into the next one *)

Definition commit_byte (src_p src_s : mem) (i : Z) (d : mem * mem) : (mem * mem) * bool :=
  let ds := rd (d.2) i in
  if ds =? LIVE_IN then
    if WAS_WRITTEN_EVER (rd src_s i)
    then ((wr (d.1) i (rd src_p i), wr (d.2) i OLD_ITERATION), false) else (d, false)
  else if ds =? READ_LIVE_IN then (d, WAS_WRITTEN_EVER (rd src_s i))
  else (d, false).

Definition distill_committed_private_into_partial (commit partial : Z) : X bool :=
  let! len := hv sizeof_private in
  let! c := chk commit in
  let! k := chk partial in
  let low := u32 (c_shadow_lowest_inclusive c - SHADOW_ADDR) in
  let high := u32 (c_shadow_highest_exclusive c - SHADOW_ADDR) in
  let d0 := (h_data (heap_priv k), h_data (heap_shadow k)) in
  let r := if 0 <? len
           then until (commit_byte (h_data (heap_priv c)) (h_data (heap_shadow c))) (steps low high 1) d0
           else (d0, false) in
  upd_chk partial (λ k, set_heap_shadow (with_data (r.1.2) (heap_shadow k))
                          (set_heap_priv (with_data (r.1.1) (heap_priv k)) k)) ;;;
  if r.2 then ret true
  else
    upd_chk partial (hull_shadow (c_shadow_lowest_inclusive c) (c_shadow_highest_exclusive c)) ;;;
    ret false.

(** Nothing is copied from an older checkpoint. *)
Definition distill_committed_killprivate_into_partial (commit partial : Z) : X bool := ret false.

Definition commit_share_byte (src_p src_s : mem) (d : mem * mem) (i : Z) : mem * mem :=
  let sp := rd src_p i in
  if negb (sp =? rd src_s i) then (wr (d.1) i sp, wr (d.2) i (not_w 8 sp)) else d.

Definition distill_committed_shareprivate_into_partial (commit partial : Z) : X bool :=
  let! len := hv sizeof_shareprivate in
  let! c := chk commit in
  let! k := chk partial in
  let low := u32 (c_shareshadow_lowest_inclusive c - SHARESHADOW_ADDR) in
  let high := u32 (c_shareshadow_highest_exclusive c - SHARESHADOW_ADDR) in
  let d0 := (h_data (heap_sharepriv k), h_data (heap_shareshadow k)) in
  let d := if 0 <? len
           then foldl (commit_share_byte (h_data (heap_sharepriv c)) (h_data (heap_shareshadow c)))
                  d0 (steps low high 1)
           else d0 in
  upd_chk partial (λ k, set_heap_shareshadow (with_data (d.2) (heap_shareshadow k))
                          (set_heap_sharepriv (with_data (d.1) (heap_sharepriv k)) k)) ;;;
  upd_chk partial (hull_shareshadow (c_shareshadow_lowest_inclusive c)
                     (c_shareshadow_highest_exclusive c)) ;;;
  ret false.

(** ** Committed checkpoint into the main process

    The main process has the heaps of the main checkpoint mapped shared at their
    natural addresses, so a store at [PRIV_ADDR + i] is a store to byte [i] of
    that object. *)

Definition main_chk : X Z := gets (λ w, main_checkpoint (checkpoints (pcb_ w))).

Definition main_byte (src_p src_s : mem) (dst_p : mem) (i : Z) : mem :=
  if WAS_WRITTEN_EVER (rd src_s i) then wr dst_p i (rd src_p i) else dst_p.

Definition distill_committed_private_into_main (commit : Z) : X bool :=
  let! len := hv sizeof_private in
  let! c := chk commit in
  let! mc := main_chk in
  let low := u32 (c_shadow_lowest_inclusive c - SHADOW_ADDR) in
  let high := u32 (c_shadow_highest_exclusive c - SHADOW_ADDR) in
  when (0 <? len)
    (upd_chk mc (λ k, set_heap_priv (with_data
       (foldl (main_byte (h_data (heap_priv c)) (h_data (heap_shadow c))) (h_data (heap_priv k))
          (steps low high 1)) (heap_priv k)) k)) ;;;
  ret false.

Definition distill_committed_killprivate_into_main (commit : Z) : X bool :=
  let! len := hv sizeof_killprivate in
  let! c := chk commit in
  let! mc := main_chk in
  when (0 <? len)
    (upd_chk mc (λ k, set_heap_killpriv (with_data
       (memcpy (h_data (heap_killpriv k)) 0 (h_data (heap_killpriv c)) 0 len) (heap_killpriv k)) k)) ;;;
  ret false.

Definition main_share_byte (src_p src_s : mem) (dst_p : mem) (i : Z) : mem :=
  let sp := rd src_p i in
  if negb (sp =? rd src_s i) then wr dst_p i sp else dst_p.

Definition distill_committed_shareprivate_into_main (commit : Z) : X bool :=
  let! len := hv sizeof_shareprivate in
  let! c := chk commit in
  let! mc := main_chk in
  let low := u32 (c_shareshadow_lowest_inclusive c - SHARESHADOW_ADDR) in
  let high := u32 (c_shareshadow_highest_exclusive c - SHARESHADOW_ADDR) in
  when (0 <? len)
    (upd_chk mc (λ k, set_heap_sharepriv (with_data
       (foldl (main_share_byte (h_data (heap_sharepriv c)) (h_data (heap_shareshadow c)))
          (h_data (heap_sharepriv k)) (steps low high 1)) (heap_sharepriv k)) k)) ;;;
  ret false.

(** ** What a merge does to each byte *)

(** No copy of the byte was read as live-in while the other was written. *)
Definition compatible (s1 s2 : Z) : Prop :=
  (s1 = READ_LIVE_IN → s2 ≤ READ_LIVE_IN) ∧ (s2 = READ_LIVE_IN → s1 ≤ READ_LIVE_IN).

(** The bytes [B] of a source with shadow [S] and values [P] were merged into
    [d]: the newer shadow wins, and brings its value. *)
Record merged (S P : Z → Z) (B : Z → bool) (d d' : mem * mem) : Prop := {
  mg_ok : ∀ k, B k = true → compatible (S k) (rd (d.2) k);
  mg_shadow : ∀ k, rd (d'.2) k = if B k then Z.max (S k) (rd (d.2) k) else rd (d.2) k;
  mg_value : ∀ k, rd (d'.1) k =
    if B k && (READ_LIVE_IN <? S k) && (rd (d.2) k <? S k) then P k else rd (d.1) k }.

Definition byte_valued (f : Z → Z) : Prop := ∀ k, 0 ≤ f k < 256.

Lemma byte_valued_rd m (g : Z → Z) : byte_valued (λ k, rd m (g k)).
Proof. intros k. apply rd_range. Qed.

Lemma merged_none S P d : merged S P (λ _, false) d d.
Proof. constructor; [done|done|done]. Qed.

Lemma merged_ext S P B C d d' : (∀ k, B k = C k) → merged S P B d d' → merged S P C d d'.
Proof.
  intros E [H1 H2 H3]. constructor; intros k.
  - rewrite <-E. apply H1.
  - rewrite <-E. apply H2.
  - rewrite <-E. apply H3.
Qed.

Lemma merged_app S P B C d d1 d2 : byte_valued S →
  merged S P B d d1 → merged S P C d1 d2 → merged S P (λ k, B k || C k) d d2.
Proof.
  intros HS [H1 H2 H3] [G1 G2 G3]. constructor; intros k.
  - intros Hk. destruct (B k) eqn:EB; [by apply H1|]. specialize (G1 k Hk). by rewrite H2, EB in G1.
  - rewrite G2, H2. destruct (B k), (C k); simpl; lia.
  - rewrite G3, H3, H2. destruct (B k), (C k); simpl; [|done..].
    destruct (Z.ltb_spec READ_LIVE_IN (S k)); simpl; [|done].
    destruct (Z.ltb_spec (Z.max (S k) (rd (d.2) k)) (S k)); [lia|]. done.
Qed.

(** A byte that is live-in in the source changes nothing. *)
Lemma merged_skip S P B d : (∀ k, B k = true → S k = LIVE_IN) → merged S P B d d.
Proof.
  intros H. constructor; intros k.
  - intros Hk. rewrite (H k Hk). unfold compatible, LIVE_IN, READ_LIVE_IN. lia.
  - destruct (B k) eqn:E; [|done]. rewrite (H k E). pose proof (rd_range (d.2) k). unfold LIVE_IN. lia.
  - destruct (B k) eqn:E; [|done]. by rewrite (H k E).
Qed.

Lemma distill_byte_merged S P k d d' : byte_valued S → byte_valued P →
  distill_byte (S k) (P k) k d = (d', false) → merged S P (at_ k) d d'.
Proof.
  intros HS HP. unfold distill_byte. destruct d as [dp ds]. simpl.
  pose proof (HS k) as Hk. pose proof (HP k) as Hp. pose proof (rd_range ds k) as Hd.
  unfold READ_LIVE_IN, LIVE_IN.
  destruct (Z.eqb_spec (S k) 1); [destruct (Z.eqb_spec (rd ds k) 0); [|destruct (Z.eqb_spec (rd ds k) 1)]|
    destruct (Z.eqb_spec (rd ds k) 1); [|destruct (Z.ltb_spec (rd ds k) (S k))]];
    intros [= <-]; constructor; simpl; intros j; unfold compatible, READ_LIVE_IN;
    try (intros ->%Z.eqb_eq; lia); rewrite ?rd_wr; unfold at_;
    destruct (Z.eqb_spec j k) as [->|Hne]; simpl; repeat destruct (decide _); try congruence;
    rewrite ?(wrap_small 8) by (change (2 ^ 8) with 256; lia);
    destruct (Z.ltb_spec 1 (S k)), (Z.ltb_spec (rd ds k) (S k)); simpl; lia.
Qed.

Lemma until_merged {A} S P (body : A → mem * mem → (mem * mem) * bool) (B : A → Z → bool) l :
  byte_valued S → (∀ x d d', body x d = (d', false) → merged S P (B x) d d') →
  ∀ d d', until body l d = (d', false) → merged S P (λ k, existsb (λ x, B x k) l) d d'.
Proof.
  intros HS Hb. induction l as [|x l IH]; intros d d'; simpl.
  - intros [= <-]. apply merged_none.
  - destruct (body x d) as [d1 []] eqn:E; [done|]. intros H.
    apply (merged_app S P (B x) (λ k, existsb (λ x, B x k) l) d d1 d'); [done|by apply Hb|by apply IH].
Qed.

Lemma distill_word_merged m i d d' :
  distill_word m i d = (d', false) →
  merged (λ k, rd m (SHADOW_ADDR + k)) (λ k, rd m (PRIV_ADDR + k)) (span i 8) d d'.
Proof.
  unfold distill_word. destruct V64_rep as [-> _].
  destruct (Z.eqb_spec (rep 8 0) (load 8 m (SHADOW_ADDR + i))) as [E|_].
  - intros [= <-]. symmetry in E. rewrite load_rep_iff in E by lia.
    apply merged_skip. intros k Hk%span_iff.
    replace (SHADOW_ADDR + k) with (SHADOW_ADDR + i + (k - i)) by lia. apply E. lia.
  - intros H. eapply merged_ext; [intros k; apply existsb_span|].
    eapply until_merged; [apply byte_valued_rd| |exact H].
    intros j e e' He. by apply (distill_byte_merged _ _ (i + j) e e' (byte_valued_rd _ _) (byte_valued_rd _ _)).
Qed.

(** ** The merged range *)

Lemma RoundDown32_8 n : 0 ≤ n < 2 ^ 64 → RoundDown32 n 8 = u32 n - n mod 8.
Proof.
  intros Hn. unfold RoundDown32. rewrite (wrap_small 64 n) by done.
  assert (u32 n - n mod 8 = wrap 32 (RoundDown n 8)) as ->.
  { rewrite RoundDown8 by done. unfold wrap. Z.to_euclidean_division_equations; lia. }
  unfold RoundDown. rewrite (wrap_small 64 n) by done. bitwise i Hi.
  destruct (Z.ltb_spec i 32), (Z.ltb_spec i 64); simpl; (done || lia).
Qed.

(** A touched range: what was touched lies inside the heap, or nothing was. *)
Definition range_ok (len lo hi : Z) : Prop :=
  lo = SHADOW_ADDR + heap_span ∧ hi = SHADOW_ADDR ∨
  SHADOW_ADDR ≤ lo ≤ SHADOW_ADDR + len ∧ SHADOW_ADDR ≤ hi ≤ SHADOW_ADDR + len.

(** The largest size of a heap that a [Len] can give. *)
Definition MAX_LEN : Z := 2 ^ 32 - 16.

Lemma word_range len lo hi k : 0 ≤ len ≤ MAX_LEN → range_ok len lo hi →
  span (u32 (RoundDown32 (lo - SHADOW_ADDR) 8))
    (u32 (RoundUp32 (hi - SHADOW_ADDR) 8) - u32 (RoundDown32 (lo - SHADOW_ADDR) 8)) k = true
  ↔ in_words lo hi (SHADOW_ADDR + k).
Proof.
  unfold MAX_LEN. intros Hlen Hr. rewrite span_iff. unfold RoundUp32, in_words. change (8 - 1) with 7.
  assert (SHADOW_ADDR mod 8 = 0) as H8 by done.
  destruct Hr as [[-> ->]|[Hlo Hhi]].
  - replace (SHADOW_ADDR + heap_span - SHADOW_ADDR) with heap_span by lia. rewrite Z.sub_diag.
    change (u32 (RoundDown32 heap_span 8)) with 0. change (u32 (RoundDown32 (u64 (0 + 7)) 8)) with 0.
    unfold heap_span. change SHADOW_ADDR with (7 * 2 ^ 43). Z.to_euclidean_division_equations; lia.
  - rewrite (wrap_small 64 (hi - SHADOW_ADDR + 7)) by lia. rewrite !RoundDown32_8 by lia.
    rewrite !(wrap_small 32 (_ - SHADOW_ADDR)), !(wrap_small 32 (_ - SHADOW_ADDR + 7)) by lia.
    rewrite !(wrap_small 32) by (Z.to_euclidean_division_equations; lia).
    Z.to_euclidean_division_equations; lia.
Qed.

Lemma steps_words8 lo hi x : lo mod 8 = 0 → hi mod 8 = 0 →
  existsb (λ a, span a 8 x) (steps lo hi 8) = span lo (hi - lo) x.
Proof. apply steps_words. Qed.

Lemma RoundDown32_mod n : 0 ≤ n < 2 ^ 64 → u32 (RoundDown32 n 8) mod 8 = 0.
Proof.
  intros Hn. rewrite RoundDown32_8 by done. unfold wrap. Z.to_euclidean_division_equations; lia.
Qed.

Lemma merged_iff S P B C d d' : (∀ k, B k = true ↔ C k = true) → merged S P B d d' → merged S P C d d'.
Proof. intros H. apply merged_ext. intros k. by apply eq_iff_eq_true. Qed.

(** ** Running the merges *)

Lemma chk_run c w k : sh_chkpts (w_shared w) !! c = Some k → chk c w = Ok k w.
Proof. intros E. unfold chk. by rewrite E. Qed.

(** Replace checkpoint object [c]. *)
Definition put_chk (c : Z) (k : Checkpoint) (w : World) : World :=
  set_w_shared (set_sh_chkpts (<[c := k]> (sh_chkpts (w_shared w))) (w_shared w)) w.

Lemma upd_chk_run c f w k : sh_chkpts (w_shared w) !! c = Some k →
  upd_chk c f w = Ok tt (put_chk c (f k) w).
Proof. intros E. unfold upd_chk. by rewrite (bind_run _ _ _ _ _ (chk_run c w k E)). Qed.

Lemma put_chk_lookup c k w : sh_chkpts (w_shared (put_chk c k w)) !! c = Some k.
Proof. apply lookup_insert_eq. Qed.

Lemma put_chk_put c k k' w : put_chk c k' (put_chk c k w) = put_chk c k' w.
Proof. unfold put_chk. simpl. by rewrite insert_insert_eq. Qed.

(** New private values and shadow of a checkpoint. *)
Definition with_priv (d : mem * mem) (k : Checkpoint) : Checkpoint :=
  set_heap_shadow (with_data (d.2) (heap_shadow k)) (set_heap_priv (with_data (d.1) (heap_priv k)) k).
Definition priv_of (k : Checkpoint) : mem * mem := (h_data (heap_priv k), h_data (heap_shadow k)).

(** The shadow and the values of a worker. *)
Definition shadow_byte (w : World) (k : Z) : Z := rd (w_mem w) (SHADOW_ADDR + k).
Definition priv_byte (w : World) (k : Z) : Z := rd (w_mem w) (PRIV_ADDR + k).

(** The private variables after a merge. *)
Definition range_reset (p : PrivateVars) : PrivateVars :=
  set_shadow_highest_exclusive SHADOW_ADDR
    (set_shadow_lowest_inclusive (SHADOW_ADDR + Z.shiftl 1 POINTER_BITS) p).

Definition touched (w : World) (k : Z) : bool :=
  span (u32 (RoundDown32 (shadow_lowest_inclusive (w_priv w) - SHADOW_ADDR) 8))
    (u32 (RoundUp32 (shadow_highest_exclusive (w_priv w) - SHADOW_ADDR) 8) -
     u32 (RoundDown32 (shadow_lowest_inclusive (w_priv w) - SHADOW_ADDR) 8)) k.

Lemma range_ok_64 len lo hi : 0 ≤ len ≤ MAX_LEN → range_ok len lo hi →
  0 ≤ lo - SHADOW_ADDR < 2 ^ 64 ∧ 0 ≤ hi - SHADOW_ADDR + 7 < 2 ^ 64.
Proof. unfold MAX_LEN, range_ok, heap_span. change SHADOW_ADDR with (7 * 2 ^ 43). lia. Qed.

(** The merge always returns; it returns 0 only if every touched byte is
    compatible, and then the checkpoint holds the merged bytes. *)
Lemma distill_worker_run c w k : sh_chkpts (w_shared w) !! c = Some k →
  0 < sizeof_private (w_heaps w) ≤ MAX_LEN →
  range_ok (sizeof_private (w_heaps w)) (shadow_lowest_inclusive (w_priv w)) (shadow_highest_exclusive (w_priv w)) →
  ∃ d (b : bool), distill_worker_private_into_partial c w =
    (if b then Ok true (put_chk c (with_priv d k) w)
     else Ok false (set_w_priv (range_reset (w_priv w))
            (put_chk c (hull_shadow (shadow_lowest_inclusive (w_priv w)) (shadow_highest_exclusive (w_priv w))
                          (with_priv d k)) w))) ∧
    (b = false → merged (shadow_byte w) (priv_byte w) (touched w) (priv_of k) d).
Proof.
  intros Ek Hlen Hr. unfold distill_worker_private_into_partial.
  rewrite (bind_run _ _ w (sizeof_private (w_heaps w)) w) by done.
  rewrite (bind_run _ _ w (w_priv w) w) by done.
  rewrite (bind_run _ _ w (w_mem w) w) by done.
  rewrite (bind_run _ _ _ _ _ (chk_run c w k Ek)).
  replace (0 <? sizeof_private (w_heaps w)) with true by zbool. cbv zeta.
  destruct (range_ok_64 (sizeof_private (w_heaps w)) _ _ ltac:(lia) Hr) as [H64l H64h].
  set (lo := u32 (RoundDown32 _ 8)). set (hi := u32 (RoundUp32 _ 8)).
  destruct (until (distill_word (w_mem w)) (steps lo hi 8) (h_data (heap_priv k), h_data (heap_shadow k)))
    as [d b] eqn:Eu. exists d, b. split.
  - erewrite bind_run by (by apply upd_chk_run). destruct b; [done|]. cbn [fst snd].
    erewrite bind_run by (apply upd_chk_run, put_chk_lookup).
    rewrite put_chk_put. done.
  - intros ->. eapply merged_ext; [intros j; apply steps_words8|].
    + by apply RoundDown32_mod.
    + unfold hi, RoundUp32. change (8 - 1) with 7. rewrite (wrap_small 64) by lia. by apply RoundDown32_mod.
    + eapply until_merged; [|intros x e e' He; by apply distill_word_merged|exact Eu].
      intros j. apply rd_range.
Qed.

(** ** Merging all workers *)

(** The workers, in the order of [ws], merge into checkpoint [c]; [None] when
    one of them reports misspeculation. *)
Fixpoint distill_all (c : Z) (ws : list World) (sh : Shared) : option Shared :=
  match ws with
  | [] => Some sh
  | w :: ws' =>
      match distill_worker_private_into_partial c (set_w_shared sh w) with
      | Ok false w' => distill_all c ws' (w_shared w')
      | _ => None
      end
  end.

(** A worker before its merge: what it touched lies in its range, and what it
    wrote lies in the exact range. *)
Record mergeable (len : Z) (w : World) : Prop := {
  mb_len : sizeof_private (w_heaps w) = len;
  mb_range : range_ok len (shadow_lowest_inclusive (w_priv w)) (shadow_highest_exclusive (w_priv w));
  mb_touched : ∀ k, 0 ≤ k < len → shadow_byte w k ≠ LIVE_IN →
    in_words (shadow_lowest_inclusive (w_priv w)) (shadow_highest_exclusive (w_priv w)) (SHADOW_ADDR + k);
  mb_written : ∀ k, 0 ≤ k < len → READ_LIVE_IN < shadow_byte w k →
    shadow_lowest_inclusive (w_priv w) ≤ SHADOW_ADDR + k < shadow_highest_exclusive (w_priv w) }.

(** The checkpoint [k] holds what the workers [done] have merged. *)
Record collects (len : Z) (done : list World) (k : Checkpoint) : Prop := {
  co_range : range_ok len (c_shadow_lowest_inclusive k) (c_shadow_highest_exclusive k);
  co_written : ∀ j, 0 ≤ j < len → READ_LIVE_IN < rd (h_data (heap_shadow k)) j →
    c_shadow_lowest_inclusive k ≤ SHADOW_ADDR + j < c_shadow_highest_exclusive k;
  co_newest : ∀ w j, w ∈ done → 0 ≤ j < len → shadow_byte w j ≤ rd (h_data (heap_shadow k)) j;
  co_from : ∀ j, 0 ≤ j < len → rd (h_data (heap_shadow k)) j = LIVE_IN ∨
    ∃ w, w ∈ done ∧ rd (h_data (heap_shadow k)) j = shadow_byte w j ∧
      (READ_LIVE_IN < shadow_byte w j → rd (h_data (heap_priv k)) j = priv_byte w j);
  co_compat : ∀ w j, w ∈ done → 0 ≤ j < len → shadow_byte w j = READ_LIVE_IN →
    rd (h_data (heap_shadow k)) j ≤ READ_LIVE_IN }.

Lemma hull_shadow_fields lo hi k :
  c_shadow_lowest_inclusive (hull_shadow lo hi k) = Z.min lo (c_shadow_lowest_inclusive k) ∧
  c_shadow_highest_exclusive (hull_shadow lo hi k) = Z.max hi (c_shadow_highest_exclusive k) ∧
  priv_of (hull_shadow lo hi k) = priv_of k.
Proof.
  unfold hull_shadow. destruct (Z.ltb_spec lo (c_shadow_lowest_inclusive k)); simpl;
    destruct (Z.ltb_spec (c_shadow_highest_exclusive k) hi); simpl; (split_and!; [lia|lia|done]).
Qed.

Lemma range_ok_hull len lo hi lo' hi' : 0 ≤ len ≤ MAX_LEN → range_ok len lo hi → range_ok len lo' hi' →
  range_ok len (Z.min lo lo') (Z.max hi hi').
Proof. unfold range_ok, MAX_LEN, heap_span. change SHADOW_ADDR with (7 * 2 ^ 43). lia. Qed.

Lemma collects_step len done k w d : 0 ≤ len ≤ MAX_LEN → mergeable len w → collects len done k →
  merged (shadow_byte w) (priv_byte w) (touched w) (priv_of k) d →
  collects len (w :: done) (hull_shadow (shadow_lowest_inclusive (w_priv w))
    (shadow_highest_exclusive (w_priv w)) (with_priv d k)).
Proof.
  intros Hlen [Ml Mr Mt Mw] [Cr Cw Cn Cf Cc] [G1 G2 G3].
  set (k' := hull_shadow _ _ _). destruct (hull_shadow_fields (shadow_lowest_inclusive (w_priv w))
    (shadow_highest_exclusive (w_priv w)) (with_priv d k)) as (El & Eh & Ep).
  fold k' in El, Eh, Ep. injection Ep as Epp Eps.
  change (h_data (heap_priv k') = d.1) in Epp. change (h_data (heap_shadow k') = d.2) in Eps.
  cbn [fst snd priv_of] in G1, G2, G3.
  assert (∀ j, 0 ≤ j < len → touched w j = true ∨ shadow_byte w j = LIVE_IN) as Ht.
  { intros j Hj. destruct (decide (shadow_byte w j = LIVE_IN)); [by right|left].
    rewrite <-Ml in Mr, Hlen. eapply word_range; [exact Hlen|exact Mr|]. by apply Mt. }
  assert (∀ j, 0 ≤ j < len → rd (d.2) j = Z.max (shadow_byte w j) (rd (h_data (heap_shadow k)) j)) as Hmax.
  { intros j Hj. rewrite G2. destruct (touched w j) eqn:E; [done|].
    destruct (Ht j Hj) as [?|E0]; [congruence|]. rewrite E0.
    pose proof (rd_range (h_data (heap_shadow k)) j). unfold LIVE_IN. lia. }
  assert (∀ j, 0 ≤ j < len → compatible (shadow_byte w j) (rd (h_data (heap_shadow k)) j)) as Hcomp.
  { intros j Hj. destruct (Ht j Hj) as [?|E0]; [by apply G1|].
    rewrite E0. unfold compatible, LIVE_IN, READ_LIVE_IN. lia. }
  constructor; rewrite ?El, ?Eh.
  - by apply range_ok_hull.
  - intros j Hj. rewrite Eps, Hmax by done. intros Hlt.
    destruct (decide (READ_LIVE_IN < shadow_byte w j)) as [H|H].
    + specialize (Mw j Hj H). lia.
    + assert (READ_LIVE_IN < rd (h_data (heap_shadow k)) j) as H2 by lia. specialize (Cw j Hj H2). simpl. lia.
  - intros v j Hv Hj. rewrite Eps, Hmax by done. apply elem_of_cons in Hv as [->|Hv]; [lia|].
    specialize (Cn v j Hv Hj). lia.
  - intros j Hj. rewrite Eps, Epp, Hmax by done.
    destruct (Hcomp j Hj) as [Hc1 Hc2]. rewrite G3.
    destruct (decide (rd (h_data (heap_shadow k)) j < shadow_byte w j)) as [Hnew|Hold].
    + right. exists w. split; [by left|]. split; [lia|]. intros H1.
      destruct (Ht j Hj) as [->|E0]; [|unfold LIVE_IN, READ_LIVE_IN in *; lia].
      replace (READ_LIVE_IN <? shadow_byte w j) with true by zbool.
      by replace (rd (h_data (heap_shadow k)) j <? shadow_byte w j) with true by zbool.
    + replace (rd (h_data (heap_shadow k)) j <? shadow_byte w j) with false by zbool.
      rewrite andb_false_r. replace (Z.max _ _) with (rd (h_data (heap_shadow k)) j) by lia.
      destruct (Cf j Hj) as [?|(v & Hv & Hrest)]; [by left|right]. exists v. split; [by right|done].
  - intros v j Hv Hj H1. rewrite Eps, Hmax by done. destruct (Hcomp j Hj) as [Hc1 Hc2].
    unfold READ_LIVE_IN in *. apply elem_of_cons in Hv as [->|Hv].
    + specialize (Hc1 H1). lia.
    + specialize (Cc v j Hv Hj H1). specialize (Cn v j Hv Hj). lia.
Qed.

Lemma distill_all_collects len c ws : ∀ sh sh' k done, 0 < len ≤ MAX_LEN →
  (∀ w, w ∈ ws → mergeable len w) → sh_chkpts sh !! c = Some k → collects len done k →
  distill_all c ws sh = Some sh' →
  ∃ k', sh_chkpts sh' !! c = Some k' ∧ collects len (rev ws ++ done) k' ∧
    sh_pcb sh' = sh_pcb sh ∧ ∀ c', c' ≠ c → sh_chkpts sh' !! c' = sh_chkpts sh !! c'.
Proof.
  induction ws as [|w ws IH]; intros sh sh' k done Hlen Hm Ek Hc; simpl.
  - intros [= <-]. by exists k.
  - destruct (distill_worker_run c (set_w_shared sh w) k) as (d & b & E & Hmg).
    { done. }
    { simpl. by rewrite (mb_len len w) by (apply Hm; by left). }
    { simpl. rewrite (mb_len len w) by (apply Hm; by left). apply (mb_range len w), Hm. by left. }
    rewrite E. destruct b; [done|]. intros H.
    eapply (IH _ _ _ (w :: done)) in H as (k' & E' & Hc' & Hp & Ho);
      [|done|intros v Hv; apply Hm; by right|apply lookup_insert_eq|].
    + exists k'. split; [done|]. split; [by rewrite <-app_assoc|]. split; [done|].
      intros c' Hne. rewrite Ho by done. simpl. by rewrite lookup_insert_ne.
    + apply (collects_step len done k w d); [lia|apply Hm; by left|done|by apply Hmg].
Qed.

(** ** Committing *)

(** The exact range of a checkpoint, as the loops over its bytes see it. *)
Definition in_range (c : Checkpoint) (j : Z) : bool :=
  span (u32 (c_shadow_lowest_inclusive c - SHADOW_ADDR))
    (u32 (c_shadow_highest_exclusive c - SHADOW_ADDR) - u32 (c_shadow_lowest_inclusive c - SHADOW_ADDR)) j.

Lemma in_range_iff len c j : 0 ≤ len ≤ MAX_LEN →
  range_ok len (c_shadow_lowest_inclusive c) (c_shadow_highest_exclusive c) → 0 ≤ j →
  in_range c j = true ↔ c_shadow_lowest_inclusive c ≤ SHADOW_ADDR + j < c_shadow_highest_exclusive c.
Proof.
  unfold in_range, MAX_LEN. intros Hlen Hr Hj. rewrite span_iff. destruct Hr as [[-> ->]|[H1 H2]].
  - replace (SHADOW_ADDR + heap_span - SHADOW_ADDR) with heap_span by lia. rewrite Z.sub_diag.
    change (u32 heap_span) with 0. change (u32 0) with 0. unfold heap_span. lia.
  - rewrite !(wrap_small 32) by lia. lia.
Qed.

Lemma foldl_bytes (f : mem → Z → mem) (h : Z → Z → Z) (l : list Z) :
  (∀ m i a, i ∈ l → rd (f m i) a = if decide (a = i) then h i (rd m i) else rd m a) →
  (∀ i x, h i (h i x) = h i x) →
  ∀ m a, rd (foldl f m l) a = if decide (a ∈ l) then h a (rd m a) else rd m a.
Proof.
  induction l as [|i l IH]; intros Hf Hh m a; cbn [foldl].
  - rewrite decide_False; [done|apply not_elem_of_nil].
  - rewrite IH; [|intros; apply Hf; by right|done]. rewrite Hf by (by left).
    destruct (decide (a ∈ l)), (decide (a = i)) as [->|]; simpl.
    + rewrite decide_True by (by left). apply Hh.
    + rewrite decide_True by (by right). done.
    + rewrite decide_True by (by left). done.
    + rewrite decide_False; [done|]. rewrite elem_of_cons. tauto.
Qed.

Lemma elem_of_steps1 lo hi a : a ∈ steps lo hi 1 ↔ span lo (hi - lo) a = true.
Proof.
  rewrite <-steps_bytes, existsb_exists. split.
  - intros H. exists a. split; [by apply list_elem_of_In|apply Z.eqb_refl].
  - intros (b & Hb%list_elem_of_In & ->%Z.eqb_eq). done.
Qed.

(** The bytes of the main process after a checkpoint is committed. *)
Definition committed (c : Checkpoint) (m : mem) (j : Z) : Z :=
  if in_range c j && WAS_WRITTEN_EVER (rd (h_data (heap_shadow c)) j)
  then rd (h_data (heap_priv c)) j else rd m j.

Lemma main_loop_spec c m j :
  rd (foldl (main_byte (h_data (heap_priv c)) (h_data (heap_shadow c))) m
        (steps (u32 (c_shadow_lowest_inclusive c - SHADOW_ADDR))
           (u32 (c_shadow_highest_exclusive c - SHADOW_ADDR)) 1)) j = committed c m j.
Proof.
  rewrite (foldl_bytes _ (λ i x, if WAS_WRITTEN_EVER (rd (h_data (heap_shadow c)) i)
                                 then rd (h_data (heap_priv c)) i else x)).
  - unfold committed, in_range. set (l := steps _ _ _). destruct (decide (j ∈ l)) as [H|H].
    + apply elem_of_steps1 in H. by rewrite H.
    + rewrite (not_true_is_false (span _ _ j)); [done|]. intros Ht. by apply H, elem_of_steps1.
  - intros m' i a _. unfold main_byte. destruct (WAS_WRITTEN_EVER _).
    + rewrite rd_wr. destruct (decide (i = a)) as [->|]; [rewrite decide_True by done|rewrite decide_False by congruence; done].
      apply wrap_small, rd_range.
    + by destruct (decide (a = i)) as [->|].
  - intros i x. by destruct (WAS_WRITTEN_EVER _).
Qed.

(** The run: it always returns 0. *)
Lemma commit_main_run c w k mk : sh_chkpts (w_shared w) !! c = Some k →
  sh_chkpts (w_shared w) !! main_checkpoint (checkpoints (pcb_ w)) = Some mk →
  0 < sizeof_private (w_heaps w) →
  ∃ mk', distill_committed_private_into_main c w =
    Ok false (put_chk (main_checkpoint (checkpoints (pcb_ w))) mk' w) ∧
    (∀ j, rd (h_data (heap_priv mk')) j = committed k (h_data (heap_priv mk)) j) ∧
    mk' = set_heap_priv (heap_priv mk') mk.
Proof.
  intros Ek Em Hlen. unfold distill_committed_private_into_main.
  rewrite (bind_run _ _ w (sizeof_private (w_heaps w)) w) by done.
  rewrite (bind_run _ _ _ _ _ (chk_run c w k Ek)).
  rewrite (bind_run _ _ w (main_checkpoint (checkpoints (pcb_ w))) w) by done. cbv zeta.
  replace (0 <? sizeof_private (w_heaps w)) with true by zbool. unfold when.
  erewrite bind_run by (by apply upd_chk_run).
  eexists. split; [reflexivity|]. split; [|done]. intros j. apply main_loop_spec.
Qed.

(** ** Combining two checkpoints *)

(** Byte [j] of the newer checkpoint after the older one was merged into it. *)
Lemma commit_byte_spec src_p src_s i d d' : commit_byte src_p src_s i d = (d', false) →
  ¬ (rd (d.2) i = READ_LIVE_IN ∧ WAS_WRITTEN_EVER (rd src_s i) = true) ∧
  (∀ j, rd (d'.2) j = if decide (j = i)
     then (if (rd (d.2) i =? LIVE_IN) && WAS_WRITTEN_EVER (rd src_s i) then OLD_ITERATION else rd (d.2) i)
     else rd (d.2) j) ∧
  (∀ j, rd (d'.1) j = if decide (j = i)
     then (if (rd (d.2) i =? LIVE_IN) && WAS_WRITTEN_EVER (rd src_s i) then rd src_p i else rd (d.1) i)
     else rd (d.1) j).
Proof.
  unfold commit_byte. destruct d as [dp ds]. simpl. unfold LIVE_IN, READ_LIVE_IN, OLD_ITERATION.
  destruct (Z.eqb_spec (rd ds i) 0) as [E0|E0]; simpl.
  - destruct (WAS_WRITTEN_EVER _) eqn:EW; intros [= <-]; simpl;
      (split; [rewrite ?EW; intros [? ?]; (congruence || lia)|]); (split; intros j; rewrite ?rd_wr);
      destruct (decide (j = i)) as [->|]; try (by rewrite decide_True by done);
      try (by rewrite decide_False by congruence); try done.
    rewrite decide_True by done. apply wrap_small, rd_range.
  - intros H. assert (d' = (dp, ds) ∧ ¬ (rd ds i = 1 ∧ WAS_WRITTEN_EVER (rd src_s i) = true)) as [-> Hn].
    { destruct (Z.eqb_spec (rd ds i) 1) as [E1|E1]; [injection H as <- EW|injection H as <-];
        (split; [done|]); intros [? ?]; congruence. }
    split; [done|]. split; intros j; by destruct (decide (j = i)) as [->|].
Qed.

(** A byte that was read as live-in and written by the older checkpoint. *)
Definition conflict (src_s : mem) (ds : mem) (j : Z) : Prop :=
  rd ds j = READ_LIVE_IN ∧ WAS_WRITTEN_EVER (rd src_s j) = true.

Lemma commit_loop_spec src_p src_s l : NoDup l → ∀ d d' b,
  until (commit_byte src_p src_s) l d = (d', b) →
  if b then ∃ j, j ∈ l ∧ conflict src_s (d.2) j
  else (∀ j, j ∈ l → ¬ conflict src_s (d.2) j) ∧
    ∀ j, let old := (rd (d.2) j =? LIVE_IN) && WAS_WRITTEN_EVER (rd src_s j) && bool_decide (j ∈ l) in
      rd (d'.2) j = (if old then OLD_ITERATION else rd (d.2) j) ∧
      rd (d'.1) j = (if old then rd src_p j else rd (d.1) j).
Proof.
  induction l as [|i l IH]; intros Hnd d d' b; cbn [until].
  - intros [= <- <-]. split; [intros j Hj; by apply elem_of_nil in Hj|]. intros j. cbv zeta.
    rewrite bool_decide_eq_false_2 by apply not_elem_of_nil. by rewrite andb_false_r.
  - apply NoDup_cons in Hnd as [Hi Hnd].
    destruct (commit_byte src_p src_s i d) as [d1 []] eqn:E.
    + intros [= <- <-]. exists i. split; [by left|]. revert E. unfold commit_byte, conflict, LIVE_IN.
      destruct (Z.eqb_spec (rd (d.2) i) 0); [by destruct (WAS_WRITTEN_EVER _)|].
      destruct (Z.eqb_spec (rd (d.2) i) READ_LIVE_IN); [|done]. by intros [= _ ?].
    + intros H. apply commit_byte_spec in E as (Hc & E2 & E1). apply IH in H; [|done].
      assert (∀ j, j ∈ l → rd (d1.2) j = rd (d.2) j) as Hsame.
      { intros j Hj. rewrite E2, decide_False; [done|]. by intros ->. }
      destruct b.
      * destruct H as (j & Hj & Hcf). exists j. split; [by right|]. unfold conflict in *. by rewrite <-Hsame.
      * destruct H as [Hn Hv]. split.
        { intros j [->|Hj]%elem_of_cons; [done|]. specialize (Hn j Hj). unfold conflict in *. by rewrite <-Hsame. }
        intros j. cbv zeta in *. destruct (Hv j) as [-> ->]. destruct (decide (j = i)) as [->|Hne].
        -- rewrite (bool_decide_eq_false_2 (i ∈ l)), andb_false_r by done.
           rewrite E1, E2, !decide_True by done. rewrite bool_decide_eq_true_2 by (by left). by rewrite andb_true_r.
        -- rewrite E1, E2, !decide_False by done.
           rewrite (bool_decide_ext (j ∈ i :: l) (j ∈ l)); [done|]. rewrite elem_of_cons. tauto.
Qed.

Lemma NoDup_steps1 lo hi : NoDup (steps lo hi 1).
Proof. unfold steps. apply NoDup_fmap_2; [intros x y; lia|apply NoDup_seqZ]. Qed.

(** The whole merge of an older checkpoint [ca] into a newer one [cb]. *)
Lemma combine_private_run ca cb w ka kb : ca ≠ cb →
  sh_chkpts (w_shared w) !! ca = Some ka → sh_chkpts (w_shared w) !! cb = Some kb →
  0 < sizeof_private (w_heaps w) →
  ∃ d (b : bool), distill_committed_private_into_partial ca cb w =
    (if b then Ok true (put_chk cb (with_priv d kb) w)
     else Ok false (put_chk cb (hull_shadow (c_shadow_lowest_inclusive ka) (c_shadow_highest_exclusive ka)
                                  (with_priv d kb)) w)) ∧
    if b then ∃ j, in_range ka j = true ∧ conflict (h_data (heap_shadow ka)) (h_data (heap_shadow kb)) j
    else (∀ j, in_range ka j = true → ¬ conflict (h_data (heap_shadow ka)) (h_data (heap_shadow kb)) j) ∧
      ∀ j, let old := (rd (h_data (heap_shadow kb)) j =? LIVE_IN) &&
                      WAS_WRITTEN_EVER (rd (h_data (heap_shadow ka)) j) && in_range ka j in
        rd (d.2) j = (if old then OLD_ITERATION else rd (h_data (heap_shadow kb)) j) ∧
        rd (d.1) j = (if old then rd (h_data (heap_priv ka)) j else rd (h_data (heap_priv kb)) j).
Proof.
  intros Hne Ea Eb Hlen. unfold distill_committed_private_into_partial.
  rewrite (bind_run _ _ w (sizeof_private (w_heaps w)) w) by done.
  rewrite (bind_run _ _ _ _ _ (chk_run ca w ka Ea)), (bind_run _ _ _ _ _ (chk_run cb w kb Eb)). cbv zeta.
  replace (0 <? sizeof_private (w_heaps w)) with true by zbool.
  set (l := steps _ _ 1).
  destruct (until _ l _) as [d b] eqn:Eu. exists d, b. split.
  - erewrite bind_run by (by apply upd_chk_run). destruct b; [done|]. cbn [fst snd].
    erewrite bind_run by (apply upd_chk_run, put_chk_lookup). by rewrite put_chk_put.
  - apply commit_loop_spec in Eu; [|apply NoDup_steps1].
    assert (∀ j, j ∈ l ↔ in_range ka j = true) as Hl by (intros j; apply elem_of_steps1).
    destruct b.
    + destruct Eu as (j & Hj & Hc). exists j. split; [by apply Hl|done].
    + destruct Eu as [Hn Hv]. split; [intros j Hj; apply Hn; by apply Hl|].
      intros j. cbv zeta in *. specialize (Hv j).
      replace (bool_decide (j ∈ l)) with (in_range ka j) in Hv; [done|].
      destruct (in_range ka j) eqn:E; [rewrite bool_decide_eq_true_2; [done|by apply Hl]|
        rewrite bool_decide_eq_false_2; [done|]; rewrite Hl; congruence].
Qed.

(** ** Properties *)

(** A checkpoint object before the first worker merges into it. *)
Record fresh_partial (len : Z) (k : Checkpoint) : Prop := {
  fp_shadow : ∀ j, 0 ≤ j < len → rd (h_data (heap_shadow k)) j = LIVE_IN;
  fp_low : c_shadow_lowest_inclusive k = SHADOW_ADDR + heap_span;
  fp_high : c_shadow_highest_exclusive k = SHADOW_ADDR }.

Lemma fresh_collects len k : fresh_partial len k → collects len [] k.
Proof.
  intros [Hs Hl Hh]. constructor.
  - left. by rewrite Hl, Hh.
  - intros j Hj. by rewrite Hs.
  - intros w j Hw. by apply elem_of_nil in Hw.
  - intros j Hj. left. by apply Hs.
  - intros w j Hw. by apply elem_of_nil in Hw.
Qed.

(** What is collected does not depend on the order. *)
Lemma collects_perm len l l' k : l ≡ₚ l' → collects len l k → collects len l' k.
Proof.
  intros P [A B C D E]. constructor; [done|done| | |].
  - intros w j Hw. apply C. by rewrite P.
  - intros j Hj. destruct (D j Hj) as [?|(w & Hw & ?)]; [by left|right]. exists w. by rewrite <-P.
  - intros w j Hw. apply E. by rewrite P.
Qed.

(** The newest of the copies of byte [j]: a shadow no other copy exceeds. *)
Definition newest (ws : list World) (j : Z) (w : World) : Prop :=
  w ∈ ws ∧ ∀ u, u ∈ ws → shadow_byte u j ≤ shadow_byte w j.

(** [C16] All workers of a group merge into a fresh checkpoint, in any order, and
    no merge reports misspeculation.  Then no byte was read as live-in by one of
    them and written by another; the shadow of the checkpoint is the newest
    shadow of every byte; a byte that was written has the value of a worker with
    the newest shadow; what was written is inside the range that the checkpoint
    records, and the other checkpoints are untouched. *)
Theorem workers_merge_newest len c ws sh sh' k : 0 < len ≤ MAX_LEN →
  Forall (mergeable len) ws → sh_chkpts sh !! c = Some k → fresh_partial len k →
  distill_all c ws sh = Some sh' →
  ∃ k', sh_chkpts sh' !! c = Some k' ∧ (∀ c', c' ≠ c → sh_chkpts sh' !! c' = sh_chkpts sh !! c') ∧
    ∀ j, 0 ≤ j < len →
      (∀ u v, u ∈ ws → v ∈ ws → shadow_byte u j = READ_LIVE_IN → shadow_byte v j ≤ READ_LIVE_IN) ∧
      (∀ w, newest ws j w → rd (h_data (heap_shadow k')) j = shadow_byte w j) ∧
      (READ_LIVE_IN < rd (h_data (heap_shadow k')) j →
         in_range k' j = true ∧ ∃ w, newest ws j w ∧ rd (h_data (heap_priv k')) j = priv_byte w j).
Proof.
  intros Hl Hws Ek Hf Hall. rewrite Forall_forall in Hws.
  destruct (distill_all_collects len c ws sh sh' k []) as (k' & Ek' & Hc & _ & Ho); [done|done|done|by apply fresh_collects|done|].
  rewrite app_nil_r in Hc. apply (collects_perm _ _ ws) in Hc; [|by rewrite <-Permutation_rev].
  destruct Hc as [Cr Cw Cn Cf Cc]. exists k'. split; [done|]. split; [done|]. intros j Hj. split_and!.
  - intros u v Hu Hv E. specialize (Cc u j Hu Hj E). specialize (Cn v j Hv Hj). lia.
  - intros w [Hw Hmax]. specialize (Cn w j Hw Hj). pose proof (rd_range (w_mem w) (SHADOW_ADDR + j)) as Hr.
    fold (shadow_byte w j) in Hr.
    destruct (Cf j Hj) as [E|(u & Hu & E & _)]; [unfold LIVE_IN in E|specialize (Hmax u Hu)]; lia.
  - intros H1. split; [apply (in_range_iff len); [lia|done|lia|by apply Cw]|].
    destruct (Cf j Hj) as [E|(w & Hw & E & Hp)]; [unfold LIVE_IN, READ_LIVE_IN in *; lia|].
    exists w. split; [split; [done|intros u Hu; rewrite <-E; by apply Cn]|apply Hp; lia].
Qed.

(** A checkpoint as the merges leave it. *)
Record chk_wf (len : Z) (k : Checkpoint) : Prop := {
  cw_range : range_ok len (c_shadow_lowest_inclusive k) (c_shadow_highest_exclusive k);
  cw_written : ∀ j, 0 ≤ j < len → READ_LIVE_IN < rd (h_data (heap_shadow k)) j → in_range k j = true }.

Lemma in_range_hull len lo hi k k' j : 0 ≤ len ≤ MAX_LEN → range_ok len lo hi →
  range_ok len (c_shadow_lowest_inclusive k) (c_shadow_highest_exclusive k) → 0 ≤ j →
  k' = hull_shadow lo hi k → (in_range k j = true ∨ lo ≤ SHADOW_ADDR + j < hi) → in_range k' j = true.
Proof.
  intros Hl R1 R2 Hj -> H. destruct (hull_shadow_fields lo hi k) as (E1 & E2 & _).
  apply (in_range_iff len); [done|rewrite E1, E2; by apply range_ok_hull|done|]. rewrite E1, E2.
  destruct H as [H|H]; [apply (in_range_iff len) in H; [|done..]|]; lia.
Qed.

(** The bytes of the combined checkpoint, committed. *)
Lemma committed_combined len ka kb d j m : 0 ≤ len ≤ MAX_LEN → chk_wf len ka → chk_wf len kb → 0 ≤ j < len →
  let old := (rd (h_data (heap_shadow kb)) j =? LIVE_IN) &&
             WAS_WRITTEN_EVER (rd (h_data (heap_shadow ka)) j) && in_range ka j in
  ¬ (in_range ka j = true ∧ conflict (h_data (heap_shadow ka)) (h_data (heap_shadow kb)) j) →
  rd (d.2) j = (if old then OLD_ITERATION else rd (h_data (heap_shadow kb)) j) →
  rd (d.1) j = (if old then rd (h_data (heap_priv ka)) j else rd (h_data (heap_priv kb)) j) →
  ∀ m1, rd m1 j = committed ka m j →
  committed (hull_shadow (c_shadow_lowest_inclusive ka) (c_shadow_highest_exclusive ka) (with_priv d kb)) m j =
  committed kb m1 j.
Proof.
  intros Hl [Ra Wa] [Rb Wb] Hj old Hnc Hs Hp m1 Hm1. set (k' := hull_shadow _ _ _).
  assert (priv_of k' = d) as Hd by (subst k'; destruct (hull_shadow_fields (c_shadow_lowest_inclusive ka)
    (c_shadow_highest_exclusive ka) (with_priv d kb)) as (_ & _ & ->); by destruct d).
  assert (h_data (heap_shadow k') = d.2 ∧ h_data (heap_priv k') = d.1) as [Es Ep] by (rewrite <-Hd; done).
  assert (in_range ka j = true ∨ in_range kb j = true → in_range k' j = true) as Hin.
  { intros H. eapply (in_range_hull len _ _ (with_priv d kb)); [done|exact Ra|exact Rb|lia|reflexivity|].
    destruct H as [H|H]; [right; by apply (in_range_iff len) in H; [|done|done|lia]|by left]. }
  unfold committed at 1. rewrite Es, Ep, Hs, Hp. unfold committed at 1. rewrite Hm1. unfold committed.
  specialize (Wb j Hj). unfold conflict in Hnc. subst old.
  unfold WAS_WRITTEN_EVER, OLD_ITERATION, READ_LIVE_IN, LIVE_IN in *.
  pose proof (rd_range (h_data (heap_shadow kb)) j).
  destruct (Z.eqb_spec (rd (h_data (heap_shadow kb)) j) 0) as [E0|E0]; cbn [andb].
  - rewrite E0. change (2 <=? 0) with false. rewrite andb_false_r.
    destruct (2 <=? rd (h_data (heap_shadow ka)) j); [|by rewrite !andb_false_r].
    destruct (in_range ka j); cbn [andb]; [|by rewrite andb_false_r]. by rewrite Hin by by left.
  - destruct (Z.leb_spec 2 (rd (h_data (heap_shadow kb)) j)) as [H2|H2].
    + rewrite Hin by (right; apply Wb; lia). by rewrite Wb by lia.
    + rewrite !andb_false_r. destruct (in_range ka j) eqn:E; [|done].
      destruct (2 <=? rd (h_data (heap_shadow ka)) j); [|done]. exfalso. apply Hnc. split; [done|]. split; [lia|done].
Qed.

(** [C17] A complete checkpoint [ca] is merged into the next one, [cb].  The merge
    returns; it reports misspeculation exactly when a byte that [cb] read as
    live-in was written in [ca]; otherwise committing the merged checkpoint
    leaves in the main process the bytes that committing [ca] and then [cb]
    would have left. *)
Theorem combine_then_commit len ca cb w ka kb mk : let mc := main_checkpoint (checkpoints (pcb_ w)) in
  ca ≠ cb → mc ≠ ca → mc ≠ cb → 0 < len ≤ MAX_LEN → sizeof_private (w_heaps w) = len →
  sh_chkpts (w_shared w) !! ca = Some ka → sh_chkpts (w_shared w) !! cb = Some kb →
  sh_chkpts (w_shared w) !! mc = Some mk → chk_wf len ka → chk_wf len kb →
  ∃ bad w1, distill_committed_private_into_partial ca cb w = Ok bad w1 ∧
    (bad = true → ∃ j, in_range ka j = true ∧ conflict (h_data (heap_shadow ka)) (h_data (heap_shadow kb)) j) ∧
    (bad = false → (∀ j, in_range ka j = true → ¬ conflict (h_data (heap_shadow ka)) (h_data (heap_shadow kb)) j) ∧
      ∃ w2 k2 wa wb kab, distill_committed_private_into_main cb w1 = Ok false w2 ∧
        sh_chkpts (w_shared w2) !! mc = Some k2 ∧
        distill_committed_private_into_main ca w = Ok false wa ∧
        distill_committed_private_into_main cb wa = Ok false wb ∧
        sh_chkpts (w_shared wb) !! mc = Some kab ∧
        ∀ j, 0 ≤ j < len → rd (h_data (heap_priv k2)) j = rd (h_data (heap_priv kab)) j).
Proof.
  intros mc Hab Hma Hmb Hl El Ea Eb Em Wa Wb.
  destruct (combine_private_run ca cb w ka kb Hab Ea Eb) as (d & bad & E & H); [by rewrite El; lia|].
  destruct bad; [by eexists true, _; split_and!|]. destruct H as [Hnc Hd]. eexists false, _.
  split; [exact E|]. split; [done|]. intros _. split; [exact Hnc|].
  set (k' := hull_shadow _ _ _) in *. set (w1 := put_chk cb k' w) in *.
  destruct (commit_main_run cb w1 k' mk) as (k2 & E2 & B2 & _);
    [apply put_chk_lookup|simpl; by rewrite lookup_insert_ne|simpl; lia|].
  destruct (commit_main_run ca w ka mk Ea Em) as (k1 & E1 & B1 & _); [lia|].
  set (wa := put_chk _ k1 w) in *.
  destruct (commit_main_run cb wa kb k1) as (k12 & E12 & B12 & _);
    [simpl; by rewrite lookup_insert_ne|apply lookup_insert_eq|simpl; lia|].
  eexists _, k2, wa, _, k12. split; [exact E2|]. split; [apply put_chk_lookup|]. split; [exact E1|].
  split; [exact E12|]. split; [apply put_chk_lookup|]. intros j Hj. rewrite B2, B12.
  destruct (Hd j) as [Hs Hp]. eapply (committed_combined len); [lia|done|done|done| |exact Hs|exact Hp|apply B1].
  intros [Hr Hcf]. by eapply Hnc.
Qed.

(** A checkpoint with the bytes and shadows [p] and [s] of a range. *)
Definition demo_chk (p s : mem) (lo hi : Z) : Checkpoint :=
  MkCheckpoint 0 CL_Complete (MkHeap PRIV_ADDR HEAP_SIZE p) (MkHeap KILLPRIV_ADDR HEAP_SIZE ∅)
    (MkHeap SHAREPRIV_ADDR HEAP_SIZE ∅) (MkHeap SHADOW_ADDR HEAP_SIZE s) (MkHeap SHARESHADOW_ADDR HEAP_SIZE ∅)
    (MkHeap REDUX_ADDR HEAP_SIZE ∅) lo hi 0 0 0 0 0 0 (MkIOEvtSet ∅ ∅) 0 0.
(** The older one wrote bytes 1 and 2, the newer one read byte 0 and wrote 2. *)
Definition demo_older : Checkpoint := demo_chk {[1 := 11; 2 := 12]} {[1 := 3; 2 := 4]} (SHADOW_ADDR + 1) (SHADOW_ADDR + 3).
Definition demo_newer : Checkpoint := demo_chk {[2 := 22]} {[0 := 1; 2 := 5]} SHADOW_ADDR (SHADOW_ADDR + 3).
Definition demo_combine : World :=
  let s := MkShared (set_checkpoints (MkManager 0 3 1 (MkList 2 3) (MkList 0 0)) (sh_pcb (w_shared blank)))
             {[1 := demo_chk {[2 := 2]} ∅ 0 0; 2 := demo_older; 3 := demo_newer]}
             (MkHeap 0 0 ∅) (MkHeap 0 0 ∅) (MkHeap 0 0 ∅) ∅ 0 [] in
  set_w_heaps (set_sizeof_private 16 (w_heaps blank)) (set_w_shared s blank).

Lemma below_16 (P : Z → Prop) : Forall P (seqZ 0 16) → ∀ j, 0 ≤ j < 16 → P j.
Proof. intros H j Hj. rewrite Forall_forall in H. apply H, elem_of_seqZ. lia. Qed.

Ltac each_byte :=
  unfold in_words;
  match goal with |- ∀ j, 0 ≤ j < 16 → @?P j => apply (below_16 P) end; apply (bool_decide_unpack _); by vm_compute.

Lemma demo_chk_wf : chk_wf 16 demo_older ∧ chk_wf 16 demo_newer.
Proof.
  split; constructor; [right; vm_compute; intuition congruence|each_byte|right; vm_compute; intuition congruence|each_byte].
Qed.

Lemma combine_then_commit_witness :
  ∃ bad w1, distill_committed_private_into_partial 2 3 demo_combine = Ok bad w1 ∧
    (bad = false → ∃ w2 k2, distill_committed_private_into_main 3 w1 = Ok false w2 ∧
       sh_chkpts (w_shared w2) !! 1 = Some k2).
Proof.
  destruct (combine_then_commit 16 2 3 demo_combine demo_older demo_newer (demo_chk {[2 := 2]} ∅ 0 0))
    as (bad & w1 & E & _ & H); [done|done|done|done|done|done|done|done|apply demo_chk_wf|apply demo_chk_wf|].
  exists bad, w1. split; [exact E|]. intros Hb. destruct (H Hb) as (_ & w2 & k2 & _ & _ & _ & E2 & E3 & _).
  exists w2, k2. by split.
Defined.

(** Two workers that wrote bytes 0 and 1. *)
Definition demo_writer (v : Z) : World :=
  let m := {[SHADOW_ADDR + v := 3 + v; SHADOW_ADDR + 2 := 3 + v; PRIV_ADDR + v := 7; PRIV_ADDR + 2 := 9 + v]} in
  set_w_mem m (set_w_heaps (set_sizeof_private 16 (w_heaps blank))
    (set_w_priv (set_shadow_highest_exclusive (SHADOW_ADDR + 3) (set_shadow_lowest_inclusive SHADOW_ADDR (w_priv blank))) blank)).
Definition demo_target : Shared :=
  set_sh_chkpts {[2 := demo_chk ∅ ∅ (SHADOW_ADDR + heap_span) SHADOW_ADDR]} (w_shared blank).

Lemma demo_mergeable : Forall (mergeable 16) [demo_writer 1; demo_writer 0].
Proof.
  assert (∀ v, v = 0 ∨ v = 1 → mergeable 16 (demo_writer v)) as H.
  { intros v [-> | ->]; constructor; [done|right; vm_compute; intuition congruence|each_byte|each_byte|
      done|right; vm_compute; intuition congruence|each_byte|each_byte]. }
  rewrite !Forall_cons. auto.
Qed.

Lemma workers_merge_newest_witness :
  ∃ k', ∀ j, 0 ≤ j < 16 → ∀ w, newest [demo_writer 1; demo_writer 0] j w → rd (h_data (heap_shadow k')) j = shadow_byte w j.
Proof.
  destruct (workers_merge_newest 16 2 [demo_writer 1; demo_writer 0] demo_target
    (default demo_target (distill_all 2 [demo_writer 1; demo_writer 0] demo_target))
    (demo_chk ∅ ∅ (SHADOW_ADDR + heap_span) SHADOW_ADDR)) as (k' & _ & _ & H); [done|apply demo_mergeable|done|by constructor|by vm_compute|].
  exists k'. intros j Hj. by destruct (H j Hj) as (_ & Hn & _).
Defined.
