(* ===== verification/Heaps.v ===== *)
(** Heaps of the process-based runtime: [heap.c] and [fiveheaps.c].

    A heap is an object in shared memory.  A process maps it at its natural
    address (shared, read-only or copy-on-write) or anywhere; allocation only
    moves a pointer forward.  Bytes of shared objects are read and written
    through the object; copy-on-write and anonymous mappings become part of the
    memory of the process. *)
From S2P Require Import Prelude Machine Exec Privacy.
From stdpp Require Import strings.
#[local] Open Scope Z_scope.

(** ** [heap.c] *)

(** [mapped_heap_init] only clears the pointer to the heap. *)
Definition mapped_heap_init (mh : MappedHeap) : MappedHeap := set_mh_heap None mh.

(** [heap_init]: a fresh object, zero-filled by [ftruncate]. *)
Definition heap_init (len forceAddress : Z) : Heap := MkHeap forceAddress len ∅.

(** Mapping [h]: [mmap] returns the natural base, or [at] where it may choose. *)
Definition map_at (h : Heap) (at_addr : Z) : MappedHeap :=
  MkMapped (Some (h_base h)) (h_size h) at_addr at_addr.

Definition heap_alloc (mh : MappedHeap) (sz : Z) : Z * MappedHeap :=
  (mh_next mh, set_mh_next (u64 (RoundUp sz HEAP_ALIGNMENT + mh_next mh)) mh).

(** Freeing does nothing. *)
Definition heap_free (mh : MappedHeap) (ptr : Z) : MappedHeap := mh.

Definition heap_used (mh : MappedHeap) : Z := u64 (mh_next mh - mh_base mh).
Definition heap_reset (mh : MappedHeap) : MappedHeap := set_mh_next (mh_base mh) mh.

(** [None] when the assertion that the heap is mapped fails. *)
Definition heap_translate (ptr : Z) (mh : MappedHeap) : option Z :=
  match mh_heap mh with Some base => Some (u64 (ptr - base + mh_base mh)) | None => None end.
Definition heap_inv_translate (ptr : Z) (mh : MappedHeap) : option Z :=
  match mh_heap mh with Some base => Some (u64 (ptr - mh_base mh + base)) | None => None end.

(** ** Mappings of this process *)

(** A mapping variable of [fiveheaps.c]. *)
Record slot := Slot {
  slot_get : HeapVars → MappedHeap;
  slot_set : MappedHeap → HeapVars → HeapVars }.

Definition s_shared := Slot mshared set_mshared.
Definition s_priv := Slot mpriv0 set_mpriv0.
Definition s_killpriv := Slot mkillpriv0 set_mkillpriv0.
Definition s_sharepriv := Slot msharepriv0 set_msharepriv0.
Definition s_redux0 := Slot mredux0 set_mredux0.
Definition s_ro := Slot mro set_mro.
Definition s_local := Slot myLocal set_myLocal.
Definition s_redux := Slot myRedux set_myRedux.
Definition s_shadow := Slot myShadow set_myShadow.
Definition s_shareshadow := Slot myShareShadow set_myShareShadow.

Definition slot_alloc (s : slot) (sz : Z) : X Z :=
  let! mh := hv (slot_get s) in
  upd_hv (slot_set s ((heap_alloc mh sz).2)) ;;; ret ((heap_alloc mh sz).1).
Definition slot_init (s : slot) : X unit :=
  let! mh := hv (slot_get s) in upd_hv (slot_set s (mapped_heap_init mh)).
Definition slot_unmap (s : slot) : X unit := unmap (slot_get s) (slot_set s).

(** [assert( mh->heap == 0 && "Already mapped!")]. *)
Definition unmapped (mh : MappedHeap) : bool := match mh_heap mh with None => true | _ => false end.

(** Shared and read-only mappings: the bytes stay in the object. *)
Definition heap_map_shared (h : Heap) (s : slot) : X unit :=
  let! mh := hv (slot_get s) in
  assert_ (unmapped mh) ;;;
  upd_hv (slot_set s (map_at h (h_base h))).
Definition heap_map_read_only (h : Heap) (s : slot) : X unit := heap_map_shared h s.

(** Copy-on-write and anonymous mappings. *)
Definition heap_map_cow (h : Heap) (s : slot) : X unit :=
  let! mh := hv (slot_get s) in
  assert_ (unmapped mh) ;;;
  upd_hv (slot_set s (map_at h (h_base h))) ;;;
  upd_mem (λ m, map_private m (h_base h) (h_size h) (h_data h)).
Definition heap_map_anon (len forceAddress : Z) (s : slot) : X unit :=
  let! mh := hv (slot_get s) in
  assert_ (unmapped mh) ;;;
  upd_hv (slot_set s (MkMapped None len forceAddress forceAddress)) ;;;
  upd_mem (λ m, munmap m forceAddress len).

(** ** [fiveheaps.c]: the heaps of a worker *)

(** The main checkpoint object. *)
Definition main_object : X Checkpoint :=
  λ w, match sh_chkpts (w_shared w) !! main_checkpoint (checkpoints (pcb_ w)) with
       | Some k => Ok k w | None => Stop Fault w end.

(** Unmap a mapping if it is in use, map [h] again and restore what was
    allocated in it. *)
Definition worker_unmap (s : slot) : X unit :=
  let! mh := hv (slot_get s) in when (negb (unmapped mh)) (slot_unmap s).
Definition worker_remap (s : slot) (map : X unit) (size : HeapVars → Z) : X unit :=
  worker_unmap s ;;;
  map ;;;
  let! n := hv size in
  when (negb (n =? 0)) (slot_alloc s n ;;; ret tt).

Definition worker_remap_private : X unit :=
  let! k := main_object in worker_remap s_priv (heap_map_cow (heap_priv k) s_priv) sizeof_private.
Definition worker_remap_killprivate : X unit :=
  let! k := main_object in
  worker_remap s_killpriv (heap_map_cow (heap_killpriv k) s_killpriv) sizeof_killprivate.
Definition worker_remap_shareprivate : X unit :=
  let! k := main_object in
  worker_remap s_sharepriv (heap_map_cow (heap_sharepriv k) s_sharepriv) sizeof_shareprivate.
Definition worker_remap_ro : X unit :=
  let! h := gets (λ w, sh_ro (w_shared w)) in
  worker_remap s_ro (heap_map_read_only h s_ro) sizeof_ro.
Definition worker_remap_local : X unit :=
  let! h := gets (λ w, sh_local (w_shared w)) in
  worker_remap s_local (heap_map_cow h s_local) sizeof_local.

(** The reduction heap of this worker. *)
Definition worker_redux_heap : X Heap :=
  λ w, match sh_redux (w_shared w) !! myWorkerId (w_api w) with
       | Some h => Ok h w | None => Stop Fault w end.

(** The reduction heap: the worker's own object, then that of the main process
    again. *)
Definition setup_redux : X unit :=
  worker_unmap s_redux0 ;;;
  slot_init s_redux ;;;
  let! h := worker_redux_heap in
  heap_map_shared h s_redux ;;;
  let! k := main_object in
  heap_map_cow (heap_redux k) s_redux0 ;;;
  let! n := hv sizeof_redux in
  when (negb (n =? 0)) (slot_alloc s_redux n ;;; ret tt).

(** The shadow heaps: zero, and a copy of the share-private heap. *)
Definition setup_shadow : X unit :=
  slot_init s_shadow ;;;
  heap_map_anon HEAP_SIZE SHADOW_ADDR s_shadow ;;;
  slot_init s_shareshadow ;;;
  heap_map_anon HEAP_SIZE SHARESHADOW_ADDR s_shareshadow ;;;
  let! sharelen := hv sizeof_shareprivate in
  when (0 <? sharelen)
    (upd_mem (λ m, memcpy m SHARESHADOW_ADDR m SHAREPRIV_ADDR sharelen)).

Definition initialize_worker_heaps : X unit :=
  worker_remap_private ;;;
  worker_remap_killprivate ;;;
  worker_remap_shareprivate ;;;
  worker_remap_ro ;;;
  worker_remap_local ;;;
  setup_redux ;;;
  setup_shadow.

(** The sizes at the start of an invocation. *)
Definition fiveheaps_begin_invocation : X unit :=
  upd_hv (λ h,
    set_sizeof_local (u32 (heap_used (myLocal h))) (set_sizeof_ro (u32 (heap_used (mro h)))
      (set_sizeof_redux (u32 (heap_used (mredux0 h)))
        (set_sizeof_shareprivate (u32 (heap_used (msharepriv0 h)))
          (set_sizeof_killprivate (u32 (heap_used (mkillpriv0 h)))
            (set_sizeof_private (u32 (heap_used (mpriv0 h))) h)))))).

(** ** [fiveheaps.c]: allocation *)

Definition assert_main : X unit := let! m := i_am_main_process in assert_ m.

Definition alloc_in (s : slot) (size : Z) : X Z := assert_main ;;; slot_alloc s size.
Definition alloc_shared (size : Z) : X Z := alloc_in s_shared size.
Definition alloc_ro (size : Z) : X Z := alloc_in s_ro size.
Definition alloc_priv (size : Z) : X Z := alloc_in s_priv size.
Definition alloc_killpriv (size : Z) : X Z := alloc_in s_killpriv size.
Definition alloc_sharepriv (size : Z) : X Z := alloc_in s_sharepriv size.
Definition free_in : X unit := assert_main.

Definition alloc_local (size : Z) : X Z :=
  let! p := slot_alloc s_local size in
  upd_hv (λ h, set_numLocalAUs (u32 (numLocalAUs h + 1)) h) ;;; ret p.
Definition free_local (ptr : Z) : X unit :=
  upd_hv (λ h, set_numLocalAUs (u32 (numLocalAUs h - 1)) h).

Definition reset_local : X unit :=
  upd_hv (λ h, set_numLocalAUs 0 (set_myLocal (heap_reset (myLocal h)) h)).
Definition add_num_local (n : Z) : X unit :=
  upd_hv (λ h, set_numLocalAUs (u32 (numLocalAUs h + n)) h).
(** Returned as an [int]. *)
Definition num_local : X Z := hv (λ h, i32 (numLocalAUs h)).

(** Metadata: the pointer is itself in shared memory. *)
Definition alloc_meta (len : Z) : X Z :=
  let! p := gets (λ w, sh_meta_next (w_shared w)) in
  upd_shared (λ s, set_sh_meta_next (u64 (RoundUp len HEAP_ALIGNMENT + sh_meta_next s)) s) ;;;
  ret p.

(** A reduction object is put at the front of the list. *)
Definition sizeof_ReductionInfo : Z := 40.
Definition alloc_redux (size type reg depAU depSize depType : Z) : X Z :=
  assert_main ;;;
  alloc_meta sizeof_ReductionInfo ;;;
  let! au := slot_alloc s_redux0 size in
  upd_hv (λ h, set_reduction_info
                 (MkRedux au size type reg depAU depSize depType :: reduction_info h) h) ;;;
  ret au.

Definition alloc_worker_redux (size : Z) : X Z :=
  let! m := i_am_main_process in
  assert_ (negb m) ;;; slot_alloc s_redux size.

(** ** Allocation *)

Lemma RoundUp16 n : 0 ≤ n → n + 15 < 2 ^ 64 → RoundUp n HEAP_ALIGNMENT = 16 * ((n + 15) / 16).
Proof.
  intros H0 H64. unfold RoundUp, HEAP_ALIGNMENT. change (16 - 1) with 15. rewrite (wrap_small 64) by lia.
  change (ROUND_DOWN (n + 15) (2 ^ 4) = 16 * ((n + 15) / 16)). rewrite ROUND_DOWN_spec by lia.
  change (2 ^ 4) with 16. Z.to_euclidean_division_equations; lia.
Qed.

(** The state of a mapping that only moves forward: aligned, and inside. *)
Record heap_wf (mh : MappedHeap) : Prop := {
  hw_base : mh_base mh mod HEAP_ALIGNMENT = 0;
  hw_next : mh_next mh mod HEAP_ALIGNMENT = 0;
  hw_order : 0 ≤ mh_base mh ≤ mh_next mh;
  hw_inside : mh_next mh ≤ mh_base mh + mh_size mh < 2 ^ 64 }.

(** Several allocations, and the pointers they return. *)
Fixpoint heap_allocs (mh : MappedHeap) (sizes : list Z) : list Z * MappedHeap :=
  match sizes with
  | [] => ([], mh)
  | sz :: l => let '(p, mh1) := heap_alloc mh sz in
               let '(ps, mh2) := heap_allocs mh1 l in (p :: ps, mh2)
  end.

(** What they take. *)
Definition rounded_total (sizes : list Z) : Z := foldr (λ sz s, 16 * ((sz + 15) / 16) + s) 0 sizes.

(** Each object ends before the next one starts. *)
Fixpoint in_order (from : Z) (objs : list (Z * Z)) (to : Z) : Prop :=
  match objs with
  | [] => from = to
  | (p, sz) :: l => from = p ∧ p mod HEAP_ALIGNMENT = 0 ∧ ∃ q, p + sz ≤ q < p + sz + HEAP_ALIGNMENT ∧ in_order q l to
  end.

Lemma rounded_total_nonneg sizes : Forall (λ sz, 0 ≤ sz) sizes → 0 ≤ rounded_total sizes.
Proof. induction 1; cbn [rounded_total foldr]; [lia|]. fold (rounded_total l). Z.to_euclidean_division_equations; lia. Qed.

Lemma heap_alloc_wf mh sz : heap_wf mh → 0 ≤ sz → mh_next mh + 16 * ((sz + 15) / 16) ≤ mh_base mh + mh_size mh →
  heap_alloc mh sz = (mh_next mh, set_mh_next (mh_next mh + 16 * ((sz + 15) / 16)) mh) ∧
  heap_wf (set_mh_next (mh_next mh + 16 * ((sz + 15) / 16)) mh).
Proof.
  intros [Hb Hn Ho Hi] Hs Hfit. unfold HEAP_ALIGNMENT in *.
  assert (sz ≤ 16 * ((sz + 15) / 16)) by (Z.to_euclidean_division_equations; lia).
  split.
  - unfold heap_alloc. rewrite RoundUp16 by (Z.to_euclidean_division_equations; lia).
    rewrite (wrap_small 64) by lia. by rewrite Z.add_comm.
  - constructor; unfold HEAP_ALIGNMENT; simpl; [done| |lia|lia].
    rewrite Z.mul_comm, Z.mod_add by lia. done.
Qed.

Lemma heap_allocs_order sizes : ∀ mh, heap_wf mh → Forall (λ sz, 0 ≤ sz) sizes →
  mh_next mh + rounded_total sizes ≤ mh_base mh + mh_size mh →
  let '(ps, mh') := heap_allocs mh sizes in
  mh' = set_mh_next (mh_next mh + rounded_total sizes) mh ∧ heap_wf mh' ∧
  length ps = length sizes ∧ in_order (mh_next mh) (zip ps sizes) (mh_next mh').
Proof.
  induction sizes as [|sz l IH]; intros mh Hwf Hs Hfit; cbn [heap_allocs].
  - split; [|done]. simpl. rewrite Z.add_0_r. by destruct mh.
  - apply Forall_cons in Hs as [Hsz Hl]. cbn [rounded_total foldr] in *. fold (rounded_total l) in *.
    pose proof (rounded_total_nonneg l Hl).
    destruct (heap_alloc_wf mh sz Hwf Hsz) as [-> Hwf1]; [lia|].
    set (mh1 := set_mh_next _ mh) in *. specialize (IH mh1 Hwf1 Hl). simpl in IH.
    destruct (heap_allocs mh1 l) as [ps mh2]. destruct IH as (-> & Hwf2 & Hlen & Hord); [lia|].
    split; [unfold set_mh_next; simpl; f_equal; lia|]. split; [done|]. split; [simpl; by rewrite Hlen|].
    cbn [zip zip_with in_order]. split; [done|]. split; [apply Hwf|].
    exists (mh_next mh + 16 * ((sz + 15) / 16)). split; [|exact Hord].
    unfold HEAP_ALIGNMENT. Z.to_euclidean_division_equations; lia.
Qed.

(** ** The heaps of a worker when an invocation starts *)

(** A mapping is unused, or it is at its natural address. *)
Definition fits (mh : MappedHeap) (base : Z) : Prop :=
  mh_heap mh = None ∨ mh_base mh = base ∧ mh_size mh = HEAP_SIZE.
Record placed (h : HeapVars) : Prop := {
  pl_priv : fits (mpriv0 h) PRIV_ADDR;
  pl_killpriv : fits (mkillpriv0 h) KILLPRIV_ADDR;
  pl_sharepriv : fits (msharepriv0 h) SHAREPRIV_ADDR;
  pl_ro : fits (mro h) RO_ADDR;
  pl_local : fits (myLocal h) LOCAL_ADDR;
  pl_redux0 : fits (mredux0 h) REDUX_ADDR }.

(** The mappings that are remapped, and where. *)
Definition places : list (slot * Z) :=
  [(s_priv, PRIV_ADDR); (s_killpriv, KILLPRIV_ADDR); (s_sharepriv, SHAREPRIV_ADDR); (s_ro, RO_ADDR);
   (s_local, LOCAL_ADDR); (s_redux0, REDUX_ADDR)].

Ltac each_place H :=
  rewrite list_elem_of_In in H; cbn [In places] in H; destruct H as [[= <- <-]|[[= <- <-]|[[= <- <-]|[[= <- <-]|[[= <- <-]|[[= <- <-]|[]]]]]]].

Lemma placed_get s base h : (s, base) ∈ places → placed h → fits (slot_get s h) base.
Proof. intros H [? ? ? ? ? ?]. each_place H; done. Qed.

Lemma placed_set s base mh h : (s, base) ∈ places → fits mh base → placed h → placed (slot_set s mh h).
Proof. intros H Hf [? ? ? ? ? ?]. each_place H; by constructor. Qed.

Lemma place_get_set s base mh h : (s, base) ∈ places → slot_get s (slot_set s mh h) = mh.
Proof. intros H. by each_place H. Qed.

(** The sizes that the main process sent. *)
Definition sizes (h : HeapVars) : list Z :=
  [sizeof_private h; sizeof_killprivate h; sizeof_shareprivate h; sizeof_redux h; sizeof_ro h; sizeof_local h].
Lemma place_sizes s base mh h : (s, base) ∈ places → sizes (slot_set s mh h) = sizes h.
Proof. intros H. by each_place H. Qed.

Definition in_heap (base a : Z) : Prop := base ≤ a < base + HEAP_SIZE.

(** From [w] to [w'] only mappings changed, and only the bytes of the heaps at
    [L]. *)
Record sets_up (L : list Z) (w w' : World) : Prop := {
  su_priv : w_priv w' = w_priv w;
  su_api : w_api w' = w_api w;
  su_shared : w_shared w' = w_shared w;
  su_sizes : sizes (w_heaps w') = sizes (w_heaps w);
  su_placed : placed (w_heaps w');
  su_outside : ∀ a, (∀ base, base ∈ L → ¬ in_heap base a) → rd (w_mem w') a = rd (w_mem w) a }.

Lemma sets_up_trans L1 L2 w w1 w2 : sets_up L1 w w1 → sets_up L2 w1 w2 → sets_up (L1 ++ L2) w w2.
Proof.
  intros [A1 A2 A3 A4 A5 A6] [B1 B2 B3 B4 B5 B6]. constructor; [congruence..|done|].
  intros a Ha. rewrite B6, A6; [done| |]; intros base Hb; apply Ha, elem_of_app; auto.
Qed.

Lemma sets_up_heaps w h : sizes h = sizes (w_heaps w) → placed h → sets_up [] w (set_w_heaps h w).
Proof. by constructor. Qed.

Lemma worker_unmap_run s base w : (s, base) ∈ places → placed (w_heaps w) →
  ∃ w', worker_unmap s w = Ok tt w' ∧ sets_up [base] w w' ∧ mh_heap (slot_get s (w_heaps w')) = None.
Proof.
  intros Hs Hp. unfold worker_unmap. rewrite (bind_run _ _ w (slot_get s (w_heaps w)) w) by done.
  destruct (placed_get s base _ Hs Hp) as [Hn|[Hb Hz]].
  - exists w. unfold unmapped. rewrite Hn. split; [done|]. split; [|done]. by constructor.
  - unfold unmapped. destruct (mh_heap (slot_get s (w_heaps w))) eqn:E; cbn [negb when].
    2:{ exists w. split; [done|]. split; [|done]. by constructor. }
    eexists. split; [reflexivity|]. split; [|simpl; by rewrite (place_get_set s base)].
    constructor; simpl; [done|done|done|by apply (place_sizes s base)|apply (placed_set s base); [done|by left|done]|].
    intros a Ha. rewrite rd_munmap, decide_False; [done|]. rewrite Hb, Hz. apply Ha. by left.
Qed.

(** Restoring what is allocated in a mapping. *)
Lemma restore_run s base (size : HeapVars → Z) w : (s, base) ∈ places → placed (w_heaps w) →
  fits (slot_get s (w_heaps w)) base →
  ∃ w', (let! n := hv size in when (negb (n =? 0)) (slot_alloc s n ;;; ret tt)) w = Ok tt w' ∧ sets_up [] w w'.
Proof.
  intros Hs Hp Hf. rewrite (bind_run _ _ w (size (w_heaps w)) w) by done.
  destruct (negb (size (w_heaps w) =? 0)); cbn [when].
  - eexists. split; [reflexivity|]. apply sets_up_heaps; [by apply (place_sizes s base)|].
    by apply (placed_set s base).
  - exists w. split; [done|]. by constructor.
Qed.

(** Remapping a heap copy-on-write gives the bytes of the object. *)
Lemma worker_remap_cow_run s base h size w : (s, base) ∈ places → placed (w_heaps w) →
  h_base h = base → h_size h = HEAP_SIZE →
  ∃ w', worker_remap s (heap_map_cow h s) size w = Ok tt w' ∧ sets_up [base; base] w w' ∧
    ∀ a, in_heap base a → rd (w_mem w') a = rd (h_data h) (a - base).
Proof.
  intros Hs Hp Hb Hz. unfold worker_remap.
  destruct (worker_unmap_run s base w Hs Hp) as (w1 & E1 & U1 & Hn). rewrite (bind_run _ _ _ _ _ E1).
  assert (heap_map_cow h s w1 = Ok tt (set_w_mem (map_private (w_mem w1) (h_base h) (h_size h) (h_data h))
    (set_w_heaps (slot_set s (map_at h (h_base h)) (w_heaps w1)) w1))) as E2.
  { unfold heap_map_cow. rewrite (bind_run _ _ w1 (slot_get s (w_heaps w1)) w1) by done.
    unfold unmapped. by rewrite Hn. }
  rewrite (bind_run _ _ _ _ _ E2). set (w2 := set_w_mem _ _).
  assert (sets_up [base] w1 w2) as U2.
  { constructor; simpl; [done|done|done|by apply (place_sizes s base)| |].
    - apply (placed_set s base); [done| |apply U1]. right. simpl. by rewrite Hb.
    - intros a Ha. rewrite rd_map_private, decide_False; [done|]. rewrite Hb, Hz. apply Ha. by left. }
  destruct (restore_run s base size w2 Hs) as (w3 & E3 & U3).
  { apply U2. } { right. simpl. by rewrite (place_get_set s base), <-Hb. }
  exists w3. split; [exact E3|]. split.
  - change [base; base] with ([base] ++ [base] ++ []). eapply sets_up_trans; [exact U1|]. by eapply sets_up_trans.
  - intros a Ha. rewrite (su_outside _ _ _ U3); [|intros b []%elem_of_nil]. simpl.
    rewrite rd_map_private, decide_True; [by rewrite Hb|]. by rewrite Hb, Hz.
Qed.

Lemma worker_remap_shared_run s base h size w : (s, base) ∈ places → placed (w_heaps w) →
  h_base h = base → h_size h = HEAP_SIZE →
  ∃ w', worker_remap s (heap_map_read_only h s) size w = Ok tt w' ∧ sets_up [base] w w'.
Proof.
  intros Hs Hp Hb Hz. unfold worker_remap.
  destruct (worker_unmap_run s base w Hs Hp) as (w1 & E1 & U1 & Hn). rewrite (bind_run _ _ _ _ _ E1).
  assert (heap_map_read_only h s w1 =
    Ok tt (set_w_heaps (slot_set s (map_at h (h_base h)) (w_heaps w1)) w1)) as E2.
  { unfold heap_map_read_only, heap_map_shared. rewrite (bind_run _ _ w1 (slot_get s (w_heaps w1)) w1) by done.
    unfold unmapped. by rewrite Hn. }
  rewrite (bind_run _ _ _ _ _ E2). set (w2 := set_w_heaps _ _).
  assert (fits (map_at h (h_base h)) base) as Hf by (right; simpl; by rewrite Hb).
  assert (sets_up [] w1 w2) as U2.
  { apply sets_up_heaps; [by apply (place_sizes s base)|]. apply (placed_set s base); [done|done|apply U1]. }
  destruct (restore_run s base size w2 Hs) as (w3 & E3 & U3).
  { apply U2. } { simpl. by rewrite (place_get_set s base). }
  exists w3. split; [exact E3|].
  change [base] with ([base] ++ [] ++ []). eapply sets_up_trans; [exact U1|]. by eapply sets_up_trans.
Qed.

(** The objects of the main process, at their natural addresses. *)
Record natural (w : World) (k : Checkpoint) : Prop := {
  na_main : sh_chkpts (w_shared w) !! main_checkpoint (checkpoints (pcb_ w)) = Some k;
  na_priv : h_base (heap_priv k) = PRIV_ADDR ∧ h_size (heap_priv k) = HEAP_SIZE;
  na_killpriv : h_base (heap_killpriv k) = KILLPRIV_ADDR ∧ h_size (heap_killpriv k) = HEAP_SIZE;
  na_sharepriv : h_base (heap_sharepriv k) = SHAREPRIV_ADDR ∧ h_size (heap_sharepriv k) = HEAP_SIZE;
  na_redux : h_base (heap_redux k) = REDUX_ADDR ∧ h_size (heap_redux k) = HEAP_SIZE;
  na_ro : h_base (sh_ro (w_shared w)) = RO_ADDR ∧ h_size (sh_ro (w_shared w)) = HEAP_SIZE;
  na_local : h_base (sh_local (w_shared w)) = LOCAL_ADDR ∧ h_size (sh_local (w_shared w)) = HEAP_SIZE;
  na_mine : is_Some (sh_redux (w_shared w) !! myWorkerId (w_api w)) }.

Lemma main_object_run w k : natural w k → main_object w = Ok k w.
Proof. intros H. unfold main_object. by rewrite (na_main w k H). Qed.

Lemma natural_sets_up L w w' k : sets_up L w w' → natural w k → natural w' k.
Proof. intros [_ A2 A3 _ _ _] []. constructor; unfold pcb_ in *; rewrite ?A2, ?A3; done. Qed.

Lemma setup_redux_run w k : natural w k → placed (w_heaps w) →
  ∃ w', setup_redux w = Ok tt w' ∧ sets_up [REDUX_ADDR; REDUX_ADDR] w w'.
Proof.
  intros Hn Hp. assert ((s_redux0, REDUX_ADDR) ∈ places) as Hs by (unfold places; repeat constructor).
  destruct (worker_unmap_run _ _ w Hs Hp) as (w1 & E1 & U1 & Hnone). unfold setup_redux.
  rewrite (bind_run _ _ _ _ _ E1). pose proof (natural_sets_up _ _ _ _ U1 Hn) as Hn1.
  set (w2 := set_w_heaps (set_myRedux (mapped_heap_init (myRedux (w_heaps w1))) (w_heaps w1)) w1).
  rewrite (bind_run (slot_init s_redux) _ w1 tt w2) by done.
  destruct (na_mine _ _ Hn1) as [h Eh].
  rewrite (bind_run _ _ w2 h w2) by (unfold worker_redux_heap; cbn; by rewrite Eh).
  set (w3 := set_w_heaps (set_myRedux (map_at h (h_base h)) (w_heaps w2)) w2).
  rewrite (bind_run (heap_map_shared h s_redux) _ w2 tt w3) by done.
  assert (natural w3 k) as Hn3 by (destruct Hn1; by constructor).
  rewrite (bind_run _ _ w3 k w3) by by apply main_object_run.
  destruct (na_redux _ _ Hn) as [Hb Hz].
  set (w4 := set_w_mem (map_private (w_mem w3) (h_base (heap_redux k)) (h_size (heap_redux k)) (h_data (heap_redux k)))
    (set_w_heaps (set_mredux0 (map_at (heap_redux k) (h_base (heap_redux k))) (w_heaps w3)) w3)).
  rewrite (bind_run (heap_map_cow (heap_redux k) s_redux0) _ w3 tt w4).
  2:{ unfold heap_map_cow. rewrite (bind_run _ _ w3 (mredux0 (w_heaps w3)) w3) by done.
      unfold unmapped. change (mredux0 (w_heaps w3)) with (mredux0 (w_heaps w1)).
      change (mredux0 (w_heaps w1)) with (slot_get s_redux0 (w_heaps w1)). by rewrite Hnone. }
  assert (sets_up [REDUX_ADDR] w1 w4) as U4.
  { constructor; [done|done|done|done| |].
    - destruct (su_placed _ _ _ U1) as [A1 A2 A3 A4 A5 A6]. constructor; try done. right. simpl. by rewrite Hb.
    - intros a Ha. simpl. rewrite rd_map_private, decide_False; [done|]. rewrite Hb, Hz. apply Ha. by left. }
  rewrite (bind_run _ _ w4 (sizeof_redux (w_heaps w4)) w4) by done.
  assert (∃ w', when (negb (sizeof_redux (w_heaps w4) =? 0)) (slot_alloc s_redux (sizeof_redux (w_heaps w4)) ;;; ret tt) w4
    = Ok tt w' ∧ sets_up [] w4 w') as (w5 & E5 & U5).
  { destruct (negb _); cbn [when].
    - eexists. split; [reflexivity|]. apply sets_up_heaps; [done|].
      destruct (su_placed _ _ _ U4) as [A1 A2 A3 A4 A5 A6]. by constructor.
    - exists w4. split; [done|]. constructor; try done. apply U4. }
  exists w5. split; [exact E5|]. change [REDUX_ADDR; REDUX_ADDR] with ([REDUX_ADDR] ++ [REDUX_ADDR] ++ []).
  eapply sets_up_trans; [exact U1|]. by eapply sets_up_trans.
Qed.

Lemma setup_shadow_run w : placed (w_heaps w) → 0 ≤ sizeof_shareprivate (w_heaps w) ≤ HEAP_SIZE →
  ∃ w', setup_shadow w = Ok tt w' ∧ sets_up [SHADOW_ADDR; SHARESHADOW_ADDR] w w' ∧
    (∀ j, 0 ≤ j < HEAP_SIZE → rd (w_mem w') (SHADOW_ADDR + j) = LIVE_IN) ∧
    (∀ j, 0 ≤ j < sizeof_shareprivate (w_heaps w) →
       rd (w_mem w') (SHARESHADOW_ADDR + j) = rd (w_mem w) (SHAREPRIV_ADDR + j)).
Proof.
  intros Hp Hz. unfold setup_shadow.
  set (h1 := set_myShareShadow (MkMapped None HEAP_SIZE SHARESHADOW_ADDR SHARESHADOW_ADDR)
    (set_myShareShadow (mapped_heap_init (myShareShadow (w_heaps w)))
      (set_myShadow (MkMapped None HEAP_SIZE SHADOW_ADDR SHADOW_ADDR)
         (set_myShadow (mapped_heap_init (myShadow (w_heaps w))) (w_heaps w))))).
  set (m1 := munmap (munmap (w_mem w) SHADOW_ADDR HEAP_SIZE) SHARESHADOW_ADDR HEAP_SIZE).
  set (z := sizeof_shareprivate (w_heaps w)).
  exists (set_w_mem (if 0 <? z then memcpy m1 SHARESHADOW_ADDR m1 SHAREPRIV_ADDR z else m1) (set_w_heaps h1 w)).
  assert (∀ a, rd (if 0 <? z then memcpy m1 SHARESHADOW_ADDR m1 SHAREPRIV_ADDR z else m1) a =
    if decide (SHARESHADOW_ADDR ≤ a < SHARESHADOW_ADDR + z) then rd m1 (SHAREPRIV_ADDR + (a - SHARESHADOW_ADDR)) else rd m1 a) as Hrd.
  { intros a. destruct (Z.ltb_spec 0 z); [apply rd_memcpy; lia|]. by rewrite decide_False by lia. }
  unfold HEAP_SIZE in *. change SHADOW_ADDR with (7 * 2 ^ 43) in *. change SHARESHADOW_ADDR with (11 * 2 ^ 43) in *.
  change SHAREPRIV_ADDR with (10 * 2 ^ 43) in *. split_and!.
  - unfold bind, ret, slot_init, heap_map_anon, hv, gets, upd_hv, upd_mem, modify, assert_, when. cbn.
    fold z. by destruct (0 <? z).
  - constructor; [done|done|done|done|by destruct Hp|]. intros a Ha. simpl. rewrite Hrd.
    specialize (Ha (11 * 2 ^ 43)) as Ha2. specialize (Ha (7 * 2 ^ 43)) as Ha1. unfold in_heap, HEAP_SIZE in Ha1, Ha2.
    rewrite decide_False by (intros ?; apply Ha2; [by right; left|lia]).
    subst m1. by rewrite !rd_munmap, !decide_False by (intros ?; (apply Ha2 + apply Ha1); [by repeat constructor|lia]).
  - intros j Hj. simpl. rewrite Hrd, decide_False by lia. subst m1.
    by rewrite !rd_munmap, decide_False, decide_True by lia.
  - intros j Hj. simpl. rewrite Hrd, decide_True by lia. subst m1.
    rewrite !rd_munmap, !decide_False by lia. f_equal. lia.
Qed.

(** What a worker sees after its heaps were initialised: the bytes of the main
    process, and nothing touched. *)
Record worker_view (k : Checkpoint) (w w' : World) : Prop := {
  wv_vars : w_priv w' = w_priv w ∧ w_api w' = w_api w ∧ w_shared w' = w_shared w;
  wv_sizes : sizes (w_heaps w') = sizes (w_heaps w);
  wv_placed : placed (w_heaps w');
  wv_priv : ∀ j, 0 ≤ j < HEAP_SIZE → rd (w_mem w') (PRIV_ADDR + j) = rd (h_data (heap_priv k)) j;
  wv_killpriv : ∀ j, 0 ≤ j < HEAP_SIZE → rd (w_mem w') (KILLPRIV_ADDR + j) = rd (h_data (heap_killpriv k)) j;
  wv_sharepriv : ∀ j, 0 ≤ j < HEAP_SIZE → rd (w_mem w') (SHAREPRIV_ADDR + j) = rd (h_data (heap_sharepriv k)) j;
  wv_shadow : ∀ j, 0 ≤ j < HEAP_SIZE → rd (w_mem w') (SHADOW_ADDR + j) = LIVE_IN;
  wv_shareshadow : ∀ j, 0 ≤ j < sizeof_shareprivate (w_heaps w) →
    rd (w_mem w') (SHARESHADOW_ADDR + j) = rd (h_data (heap_sharepriv k)) j }.

(** Heaps do not overlap. *)
Lemma heaps_apart p q j : p ≠ q → 0 ≤ j < HEAP_SIZE → ¬ in_heap (Z.shiftl p POINTER_BITS) (Z.shiftl q POINTER_BITS + j).
Proof.
  unfold in_heap, HEAP_SIZE, POINTER_BITS. rewrite !Z.shiftl_mul_pow2 by lia. change (2 ^ 43) with 8796093022208. lia.
Qed.

Ltac apart :=
  intros base Hb; rewrite list_elem_of_In in Hb; cbn [In app] in Hb; repeat destruct Hb as [<-|Hb]; [..|destruct Hb];
  apply heaps_apart; done.

Lemma initialize_worker_heaps_run w k : natural w k → placed (w_heaps w) →
  0 ≤ sizeof_shareprivate (w_heaps w) ≤ HEAP_SIZE →
  ∃ w', initialize_worker_heaps w = Ok tt w' ∧ worker_view k w w'.
Proof.
  intros Hn Hp Hz. unfold initialize_worker_heaps.
  assert (∀ s b, In (s, b) places → (s, b) ∈ places) as Hin by (intros; by apply list_elem_of_In).
  destruct (worker_remap_cow_run s_priv PRIV_ADDR (heap_priv k) sizeof_private w) as (w1 & E1 & U1 & V1);
    [apply Hin; simpl; tauto|done|apply Hn|apply Hn|].
  pose proof (natural_sets_up _ _ _ _ U1 Hn) as N1.
  destruct (worker_remap_cow_run s_killpriv KILLPRIV_ADDR (heap_killpriv k) sizeof_killprivate w1) as (w2 & E2 & U2 & V2);
    [apply Hin; simpl; tauto|apply U1|apply Hn|apply Hn|].
  pose proof (natural_sets_up _ _ _ _ U2 N1) as N2.
  destruct (worker_remap_cow_run s_sharepriv SHAREPRIV_ADDR (heap_sharepriv k) sizeof_shareprivate w2) as (w3 & E3 & U3 & V3);
    [apply Hin; simpl; tauto|apply U2|apply Hn|apply Hn|].
  pose proof (natural_sets_up _ _ _ _ U3 N2) as N3.
  destruct (worker_remap_shared_run s_ro RO_ADDR (sh_ro (w_shared w3)) sizeof_ro w3) as (w4 & E4 & U4);
    [apply Hin; simpl; tauto|apply U3|apply N3|apply N3|].
  pose proof (natural_sets_up _ _ _ _ U4 N3) as N4.
  destruct (worker_remap_cow_run s_local LOCAL_ADDR (sh_local (w_shared w4)) sizeof_local w4) as (w5 & E5 & U5 & _);
    [apply Hin; simpl; tauto|apply U4|apply N4|apply N4|].
  pose proof (natural_sets_up _ _ _ _ U5 N4) as N5.
  destruct (setup_redux_run w5 k N5) as (w6 & E6 & U6); [apply U5|].
  pose proof (sets_up_trans _ _ _ _ _ U4 (sets_up_trans _ _ _ _ _ U5 U6)) as U46.
  pose proof (sets_up_trans _ _ _ _ _ U1 (sets_up_trans _ _ _ _ _ U2 (sets_up_trans _ _ _ _ _ U3 U46))) as U.
  assert (sizeof_shareprivate (w_heaps w6) = sizeof_shareprivate (w_heaps w)) as Ez.
  { pose proof (su_sizes _ _ _ U) as Es. unfold sizes in Es. by injection Es. }
  destruct (setup_shadow_run w6) as (w7 & E7 & U7 & Vs & Vss); [apply U6|by rewrite Ez|].
  rewrite (bind_run _ _ w tt w1) by (unfold worker_remap_private; by rewrite (bind_run _ _ w k w) by by apply main_object_run).
  rewrite (bind_run _ _ w1 tt w2) by (unfold worker_remap_killprivate; by rewrite (bind_run _ _ w1 k w1) by by apply main_object_run).
  rewrite (bind_run _ _ w2 tt w3) by (unfold worker_remap_shareprivate; by rewrite (bind_run _ _ w2 k w2) by by apply main_object_run).
  rewrite (bind_run worker_remap_ro _ w3 tt w4) by exact E4.
  rewrite (bind_run worker_remap_local _ w4 tt w5) by exact E5. rewrite (bind_run _ _ _ _ _ E6).
  assert (∀ j, 0 ≤ j < HEAP_SIZE → rd (w_mem w6) (SHAREPRIV_ADDR + j) = rd (h_data (heap_sharepriv k)) j) as Hshare.
  { intros j Hj. rewrite (su_outside _ _ _ U46) by apart. rewrite V3 by (unfold in_heap; lia). f_equal. lia. }
  exists w7. split; [exact E7|]. pose proof (sets_up_trans _ _ _ _ _ U U7) as UU. constructor.
  - split_and!; [apply UU|apply UU|apply UU].
  - apply UU.
  - apply UU.
  - intros j Hj. rewrite (su_outside _ _ _ U7), (su_outside _ _ _ U46), (su_outside _ _ _ U3), (su_outside _ _ _ U2) by apart.
    rewrite V1 by (unfold in_heap; lia). f_equal. lia.
  - intros j Hj. rewrite (su_outside _ _ _ U7), (su_outside _ _ _ U46), (su_outside _ _ _ U3) by apart.
    rewrite V2 by (unfold in_heap; lia). f_equal. lia.
  - intros j Hj. rewrite (su_outside _ _ _ U7) by apart. by apply Hshare.
  - exact Vs.
  - intros j Hj. rewrite Vss by (by rewrite Ez). apply Hshare. lia.
Qed.

(** ** Properties *)

(** [C18] Any sequence of allocations that fits in a heap keeps its mapping
    well-formed and takes exactly the rounded sizes; the objects it returns are
    aligned, start where the heap ended, and each ends before the next one
    starts. *)
Theorem heap_allocs_disjoint mh szs : heap_wf mh → Forall (λ sz, 0 ≤ sz) szs →
  mh_next mh + rounded_total szs ≤ mh_base mh + mh_size mh →
  heap_wf (heap_allocs mh szs).2 ∧
  heap_used (heap_allocs mh szs).2 = heap_used mh + rounded_total szs ∧
  length (heap_allocs mh szs).1 = length szs ∧
  in_order (mh_next mh) (zip (heap_allocs mh szs).1 szs) (mh_next (heap_allocs mh szs).2).
Proof.
  intros Hwf Hs Hfit. pose proof (heap_allocs_order szs mh Hwf Hs Hfit) as H.
  pose proof (rounded_total_nonneg szs Hs). destruct (heap_allocs mh szs) as [ps mh'].
  destruct H as (-> & Hwf' & Hlen & Hord). split_and!; [done| |done|done]. destruct Hwf as [_ _ H3 H4].
  unfold heap_used. simpl. rewrite !(wrap_small 64) by lia. lia.
Qed.

Lemma heap_allocs_disjoint_witness :
  let mh := MkMapped (Some PRIV_ADDR) HEAP_SIZE PRIV_ADDR PRIV_ADDR in
  heap_wf (heap_allocs mh [5; 0; 32; 17]).2 ∧ heap_used (heap_allocs mh [5; 0; 32; 17]).2 = heap_used mh + 80.
Proof.
  intros mh. assert (rounded_total [5; 0; 32; 17] = 80) as E by done.
  destruct (heap_allocs_disjoint mh [5; 0; 32; 17]) as (H1 & H2 & _); [constructor; by vm_compute|by repeat constructor|by vm_compute|].
  rewrite E in H2. by split.
Defined.

(** Translating a native address into a mapping of its heap and back gives
    the address, and so does the other way round. *)
Theorem heap_translate_roundtrip mh base ptr : mh_heap mh = Some base → 0 ≤ ptr < 2 ^ 64 →
  (heap_translate ptr mh ≫= λ q, heap_inv_translate q mh) = Some ptr ∧
  (heap_inv_translate ptr mh ≫= λ q, heap_translate q mh) = Some ptr.
Proof.
  intros E Hp. unfold heap_translate, heap_inv_translate. rewrite E. simpl. unfold wrap.
  split; f_equal; rewrite Zplus_mod, Zminus_mod, Zmod_mod, <-Zminus_mod, <-Zplus_mod;
    rewrite <-(Z.mod_small ptr (2 ^ 64)) at 2 by done; f_equal; lia.
Qed.

Lemma heap_translate_roundtrip_witness :
  let mh := MkMapped (Some REDUX_ADDR) HEAP_SIZE (2 ^ 46) (2 ^ 46) in
  (heap_translate (REDUX_ADDR + 40) mh ≫= λ q, heap_inv_translate q mh) = Some (REDUX_ADDR + 40) ∧
  (heap_inv_translate (REDUX_ADDR + 40) mh ≫= λ q, heap_translate q mh) = Some (REDUX_ADDR + 40).
Proof. intros mh. apply (heap_translate_roundtrip mh REDUX_ADDR); by vm_compute. Defined.
