(* ===== verification/Redux.v ===== *)
(** Reductions: [redux.c].

    A reduction object is an array of numbers.  Merging two copies adds them or
    takes the maximum, element by element.  [src] and [dst] are the memories the
    two copies live in and [sa], [da] their addresses there. *)
From S2P Require Import Prelude Machine Exec Privacy Distill Heaps.
From stdpp Require Import strings.
#[local] Open Scope Z_scope.

(** ** Types of reductions ([redux.h]) *)

Definition Add_i8 : Z := 1.
Definition Add_i16 : Z := 2.
Definition Add_i32 : Z := 3.
Definition Add_i64 : Z := 4.
Definition Add_f32 : Z := 5.
Definition Add_f64 : Z := 6.
Definition Max_u8 : Z := 11.
Definition Max_u16 : Z := 12.
Definition Max_u32 : Z := 13.
Definition Max_u64 : Z := 14.
Definition Max_f32 : Z := 15.
Definition Max_f64 : Z := 16.
Definition Min_f64 : Z := 26.

(** The bits of [-FLT_MAX] and [-DBL_MAX]. *)
Definition NEG_FLT_MAX : Z := 0xFF7FFFFF.
Definition NEG_DBL_MAX : Z := 0xFFEFFFFFFFFFFFFF.

(** ** Sums

    Elements of [w] bytes, [v] of them in a 16-byte vector. *)

(** Number of elements, rounded up to whole vectors. *)
Definition rounded (size w v : Z) : Z :=
  Z.land ((size + w - 1) / w + v - 1) (Z.lnot (v - 1)).

Definition elem (w : nat) (m : mem) (a i : Z) : Z := load w m (a + Z.of_nat w * i).

(** [_mm_movemask_epi8(_mm_cmpeq(sv, zero)) == 0xffff]. *)
Definition vec_zero (zero : Z → bool) (w : nat) (v : Z) (m : mem) (a i : Z) : bool :=
  forallb (λ l, zero (elem w m a (i + l))) (seqZ 0 v).

(** [for(hi = N-v; hi>=0; hi -= v)] until a vector is not zero; [n] vectors. *)
Fixpoint find_hi (zero : Z → bool) (w : nat) (v : Z) (m : mem) (a : Z) (n : nat) : Z :=
  match n with
  | O => - v
  | S n' => let hi := v * Z.of_nat n' in
            if vec_zero zero w v m a hi then find_hi zero w v m a n' else hi
  end.

(** [for(lo=0; lo<hi; lo += v)] until a vector is not zero; [n] bounds the
    rounds. *)
Fixpoint find_lo (zero : Z → bool) (w : nat) (v : Z) (m : mem) (a hi : Z) (n : nat) (lo : Z) : Z :=
  match n with
  | O => lo
  | S n' => if lo <? hi then
              if vec_zero zero w v m a lo then find_lo zero w v m a hi n' (lo + v) else lo
            else lo
  end.

(** Lane by lane addition of the vector at [i]. *)
Definition add_vec (add : Z → Z → Z) (w : nat) (v : Z) (src : mem) (sa : Z) (da : Z)
    (dst : mem) (i : Z) : mem :=
  foldl (λ d l, store w d (da + Z.of_nat w * (i + l))
                  (add (elem w d da (i + l)) (elem w src sa (i + l)))) dst (seqZ 0 v).

(** The general case: only the vectors between the first and the last that are
    not zero are added; the source is cleared from [lo] up to and including
    element [hi]. *)
Definition reduce_add_vector (zero : Z → bool) (add : Z → Z → Z) (w : nat) (v : Z)
    (src : mem) (sa : Z) (dst : mem) (da size : Z) : mem * mem :=
  let N := rounded size (Z.of_nat w) v in
  let hi := find_hi zero w v src sa (Z.to_nat (N / v)) in
  let lo := find_lo zero w v src sa hi (Z.to_nat (N / v)) 0 in
  let dst' := foldl (add_vec add w v src sa da) dst (steps lo (hi + 1) v) in
  let first := sa + Z.of_nat w * lo in
  let last := sa + Z.of_nat w * (hi + 1) in
  (if first <? last then memset src first 0 (last - first) else src, dst').

Definition add32 (x y : Z) : Z := u32 (x + y).

(** A single [int32_t] is added but not cleared: [src_au = 0] sets the pointer. *)
Definition reduce_i32_add (src : mem) (sa : Z) (dst : mem) (da size : Z) : mem * mem :=
  if size =? 4 then (src, store 4 dst da (add32 (load 4 dst da) (load 4 src sa)))
  else reduce_add_vector (Z.eqb 0) add32 4 4 src sa dst da size.

Definition reduce_f32_add (f : FloatOps) (src : mem) (sa : Z) (dst : mem) (da size : Z) : mem * mem :=
  if size =? 4 then (store 4 src sa 0, store 4 dst da (f32_add f (load 4 dst da) (load 4 src sa)))
  else reduce_add_vector (λ x, f32_eq f x 0) (f32_add f) 4 4 src sa dst da size.

Definition reduce_f64_add (f : FloatOps) (src : mem) (sa : Z) (dst : mem) (da size : Z) : mem * mem :=
  if size =? 8 then (store 8 src sa 0, store 8 dst da (f64_add f (load 8 dst da) (load 8 src sa)))
  else reduce_add_vector (λ x, f64_eq f x 0) (f64_add f) 8 2 src sa dst da size.

(** ** Maxima

    The state of a merge: both memories and the iteration of the last update of
    the destination.  A maximum may depend on another reduction: its value is
    taken when that one's is. *)
Record merge := Merge { mg_src : mem; mg_dst : mem; mg_iter : Z }.

(** Three kinds of comparison of the 4-byte object it depends on. *)
Definition dep_cmp (f : FloatOps) (depType : Z) : option ((Z → Z → bool) * (Z → Z → bool)) :=
  if depType =? 2 then Some (f32_gt f, f32_eq f)
  else if depType =? 1 then Some (λ x y, swrap 32 y <? swrap 32 x, Z.eqb)
  else if depType =? 0 then Some (λ x y, y <? x, Z.eqb)
  else None.

(** [None] is a failed assertion. *)
Definition reduce_u64_max (f : FloatOps) (sa da size sdep ddep depSize depType srcIter : Z)
    (s : merge) : option merge :=
  let sv := load 8 (mg_src s) sa in
  let dv := load 8 (mg_dst s) da in
  if size =? 8 then
    if depSize =? 0 then
      let s1 := if dv <? sv then Merge (mg_src s) (store 8 (mg_dst s) da sv) srcIter else s in
      Some (Merge (store 8 (mg_src s1) sa 0) (mg_dst s1) (mg_iter s1))
    else if depSize =? 4 then
      match dep_cmp f depType with
      | None => None
      | Some (gt, eq) =>
          let sd := load 4 (mg_src s) sdep in
          let dd := load 4 (mg_dst s) ddep in
          let dst1 := if gt sd dd || (eq sd dd && (srcIter <? mg_iter s))
                      then store 8 (mg_dst s) da sv else mg_dst s in
          Some (Merge (store 8 (mg_src s) sa 0) dst1 (mg_iter s))
      end
    else None
  else if negb (depSize =? 0) then None
  else
    Some (foldl (λ s i,
            let sv := elem 8 (mg_src s) sa i in
            let dv := elem 8 (mg_dst s) da i in
            Merge (store 8 (mg_src s) (sa + 8 * i) 0)
              (if dv <? sv then store 8 (mg_dst s) (da + 8 * i) sv else mg_dst s) (mg_iter s))
          s (seqZ 0 (rounded size 8 2))).

(** [_mm_max(d0, src)] is [d0 > src ? d0 : src] in every lane. *)
Definition max_vec (gt : Z → Z → bool) (w : nat) (sa da n : Z) (s : merge) : merge :=
  foldl (λ s i,
    let sv := elem w (mg_src s) sa i in
    let dv := elem w (mg_dst s) da i in
    Merge (mg_src s) (store w (mg_dst s) (da + Z.of_nat w * i) (if gt dv sv then dv else sv)) (mg_iter s))
  s (seqZ 0 n).

Definition reduce_f32_max (f : FloatOps) (sa da size srcIter : Z) (s : merge) : merge :=
  let sv := load 4 (mg_src s) sa in
  let dv := load 4 (mg_dst s) da in
  if size =? 4 then
    if f32_gt f sv dv then Merge (mg_src s) (store 4 (mg_dst s) da sv) srcIter
    else if f32_eq f sv dv && (srcIter <? mg_iter s) then Merge (mg_src s) (mg_dst s) srcIter
    else s
  else max_vec (f32_gt f) 4 sa da (rounded size 4 4) s.

Definition reduce_f64_max (f : FloatOps) (sa da size : Z) (s : merge) : merge :=
  let sv := load 8 (mg_src s) sa in
  let dv := load 8 (mg_dst s) da in
  if size =? 8 then
    Merge (store 8 (mg_src s) sa NEG_DBL_MAX)
      (if f64_gt f sv dv then store 8 (mg_dst s) da sv else mg_dst s) (mg_iter s)
  else max_vec (f64_gt f) 8 sa da (rounded size 8 2) s.

(** ** Identities *)

Definition fill (w : nat) (v : Z) (m : mem) (a n : Z) : mem :=
  foldl (λ m i, store w m (a + Z.of_nat w * i) v) m (seqZ 0 n).

Definition initialize_f32_max (m : mem) (a size : Z) : mem :=
  if size =? 4 then store 4 m a NEG_FLT_MAX else fill 4 NEG_FLT_MAX m a (rounded size 4 4).
Definition initialize_f64_max (m : mem) (a size : Z) : mem :=
  if size =? 8 then store 8 m a NEG_DBL_MAX else fill 8 NEG_DBL_MAX m a (rounded size 8 2).

(** [None] is the assertion "Not yet implemented". *)
Definition initialize_reductions (m : mem) (a : Z) (info : ReductionInfo) : option mem :=
  let t := ri_type info in
  if ((Add_i8 <=? t) && (t <=? Add_f64)) || ((Max_u8 <=? t) && (t <=? Max_u64))
  then Some (memset m a 0 (ri_size info))
  else if t =? Max_f32 then Some (initialize_f32_max m a (ri_size info))
  else if t =? Max_f64 then Some (initialize_f64_max m a (ri_size info))
  else if (Add_i8 <=? t) && (t <=? Min_f64) then None
  else Some m.

(** ** Dispatch *)

Definition do_reduction_pp (f : FloatOps) (sa da : Z) (info : ReductionInfo) (sdep ddep srcIter : Z)
    (s : merge) : option merge :=
  let t := ri_type info in
  let sum r := Some (Merge (fst r) (snd r) (mg_iter s)) in
  if t =? Add_i32 then sum (reduce_i32_add (mg_src s) sa (mg_dst s) da (ri_size info))
  else if t =? Add_f32 then sum (reduce_f32_add f (mg_src s) sa (mg_dst s) da (ri_size info))
  else if t =? Add_f64 then sum (reduce_f64_add f (mg_src s) sa (mg_dst s) da (ri_size info))
  else if t =? Max_u64 then
    reduce_u64_max f sa da (ri_size info) sdep ddep (ri_depSize info) (ri_depType info) srcIter s
  else if t =? Max_f32 then
    if ri_depSize info =? 0 then Some (reduce_f32_max f sa da (ri_size info) srcIter s) else None
  else if t =? Max_f64 then
    if ri_depSize info =? 0 then Some (reduce_f64_max f sa da (ri_size info) s) else None
  else if (Add_i8 <=? t) && (t <=? Min_f64) then None
  else Some s.

(** All reductions of the loop; [at_src] and [at_dst] translate the native
    address of an object into the two memories. *)
Definition reduce_all (f : FloatOps) (at_src at_dst : Z → Z) (infos : list ReductionInfo) (srcIter : Z)
    (s : merge) : option merge :=
  fold_opt (λ s info,
    let dep := negb (ri_depSize info =? 0) in
    do_reduction_pp f (at_src (ri_au info)) (at_dst (ri_au info)) info
      (if dep then at_src (ri_depAU info) else 0) (if dep then at_dst (ri_depAU info) else 0) srcIter s)
    infos s.

(** Offset of a native address in a reduction heap, wherever it is mapped:
    [heap_translate] minus the address of the mapping. *)
Definition redux_off (ptr : Z) : Z := u64 (ptr - REDUX_ADDR).

Definition lift_merge {A} (r : option A) : X A :=
  match r with Some s => ret s | None => halt AssertFail end.

(** Worker into partial checkpoint. *)
Definition distill_worker_redux_into_partial (partial : Z) : X bool :=
  let! main := i_am_main_process in
  assert_ (negb main) ;;;
  let! srcIter := av lastReduxUpdateIter in
  let! infos := hv reduction_info in
  let! f := gets w_fpu in
  let! m := gets w_mem in
  let! k := chk partial in
  let! s := lift_merge (reduce_all f id redux_off infos srcIter
                          (Merge m (h_data (heap_redux k)) (lastUpdateIteration k))) in
  upd_mem (λ _, mg_src s) ;;;
  upd_chk partial (λ k, set_lastUpdateIteration (mg_iter s)
                          (set_heap_redux (with_data (mg_dst s) (heap_redux k)) k)) ;;;
  ret false.

(** Older checkpoint into the next one. *)
Definition distill_committed_redux_into_partial (commit partial : Z) : X bool :=
  let! infos := hv reduction_info in
  let! f := gets w_fpu in
  let! c := chk commit in
  let! k := chk partial in
  let! s := lift_merge (reduce_all f redux_off redux_off infos (lastUpdateIteration c)
                          (Merge (h_data (heap_redux c)) (h_data (heap_redux k)) (lastUpdateIteration k))) in
  upd_chk commit (λ c, set_heap_redux (with_data (mg_src s) (heap_redux c)) c) ;;;
  upd_chk partial (λ k, set_lastUpdateIteration (mg_iter s)
                          (set_heap_redux (with_data (mg_dst s) (heap_redux k)) k)) ;;;
  ret false.

(** Checkpoint into the main process, whose reduction heap is that of the main
    checkpoint; the iteration of the last update is a local variable. *)
Definition distill_committed_redux_into_main (commit : Z) : X bool :=
  let! main := i_am_main_process in
  assert_ main ;;;
  let! dstIter := av lastReduxUpdateIter in
  let! infos := hv reduction_info in
  let! f := gets w_fpu in
  let! c := chk commit in
  let! mc := main_chk in
  let! k := chk mc in
  let! s := lift_merge (reduce_all f redux_off redux_off infos (lastUpdateIteration c)
                          (Merge (h_data (heap_redux c)) (h_data (heap_redux k)) dstIter)) in
  upd_chk commit (λ c, set_heap_redux (with_data (mg_src s) (heap_redux c)) c) ;;;
  upd_chk mc (λ k, set_heap_redux (with_data (mg_dst s) (heap_redux k)) k) ;;;
  ret false.

(** ** The vector loops against the element loop *)

(** Element [i] of the source is added to that of the destination. *)
Definition add_at (add : Z → Z → Z) (w : nat) (src : mem) (sa da : Z) (d : mem) (i : Z) : mem :=
  store w d (da + Z.of_nat w * i) (add (elem w d da i) (elem w src sa i)).

#[global] Instance elem_proper w : Proper (mem_eq ==> eq ==> eq ==> eq) (elem w).
Proof. intros m m' Hm a ? <- i ? <-. unfold elem. by rewrite Hm. Qed.
#[global] Instance add_at_proper add w src sa da : Proper (mem_eq ==> eq ==> mem_eq) (add_at add w src sa da).
Proof. intros d d' Hd i ? <-. unfold add_at. by rewrite Hd. Qed.

Lemma foldl_add_proper add w src sa da l : ∀ d d', mem_eq d d' →
  mem_eq (foldl (add_at add w src sa da) d l) (foldl (add_at add w src sa da) d' l).
Proof. induction l as [|i l IH]; intros d d' Hd; [done|]. apply IH. by rewrite Hd. Qed.

(** Adding a zero changes nothing. *)
Lemma add32_zero x : 0 ≤ x < 2 ^ 32 → add32 x 0 = x.
Proof. intros Hx. unfold add32. rewrite Z.add_0_r. by apply wrap_small. Qed.
Lemma add_at_zero src sa da d i : elem 4 src sa i = 0 → mem_eq (add_at add32 4 src sa da d i) d.
Proof.
  intros E. unfold add_at. rewrite E, add32_zero; [apply store_load|]. apply (load_range 4).
Qed.
Lemma foldl_add_zero src sa da l : ∀ d, (∀ i, i ∈ l → elem 4 src sa i = 0) →
  mem_eq (foldl (add_at add32 4 src sa da) d l) d.
Proof.
  induction l as [|i l IH]; intros d Hl; [done|]. simpl. rewrite IH by (intros; apply Hl; by right).
  apply add_at_zero, Hl. by left.
Qed.

(** A loop over whole vectors is a loop over their elements. *)
Lemma foldl_vectors {A} (g : A → Z → A) d lo v (n : nat) : 0 ≤ v →
  foldl (λ d i, foldl g d (seqZ i v)) d ((λ i, lo + v * i) <$> seqZ 0 (Z.of_nat n)) =
  foldl g d (seqZ lo (v * Z.of_nat n)).
Proof.
  intros Hv. induction n as [|n IH]; [by rewrite Z.mul_0_r|].
  replace (Z.of_nat (S n)) with (Z.of_nat n + 1) by lia.
  rewrite seqZ_snoc, fmap_app, foldl_app, IH, Z.add_0_l by lia. cbn [fmap list_fmap foldl].
  replace (v * (Z.of_nat n + 1)) with (v * Z.of_nat n + v) by lia.
  by rewrite (seqZ_app lo), foldl_app by nia.
Qed.

Lemma add_vec_at add w v src sa da d i : add_vec add w v src sa da d i = foldl (add_at add w src sa da) d (seqZ i v).
Proof.
  replace (seqZ i v) with (Z.add i <$> seqZ 0 v) by (by rewrite fmap_add_seqZ, Z.add_0_r). by rewrite foldl_fmap.
Qed.

(** The bounds that the scans find. *)
Lemma vec_zero_elem w v m a i : vec_zero (Z.eqb 0) w v m a i = true → ∀ j, i ≤ j < i + v → elem w m a j = 0.
Proof.
  unfold vec_zero. rewrite forallb_forall. intros H j Hj.
  specialize (H (j - i)). rewrite <-list_elem_of_In, elem_of_seqZ in H.
  replace (i + (j - i)) with j in H by lia. symmetry. apply Z.eqb_eq, H. lia.
Qed.

Lemma find_hi_spec w v m a (n : nat) : 0 < v → ∃ b, find_hi (Z.eqb 0) w v m a n = v * b ∧ -1 ≤ b < Z.of_nat n ∧
  ∀ j, v * (b + 1) ≤ j < v * Z.of_nat n → elem w m a j = 0.
Proof.
  intros Hv. induction n as [|n (b & E & Hb & Hz)]; cbn [find_hi]; [exists (-1); split_and!; lia|].
  destruct (vec_zero _ w v m a (v * Z.of_nat n)) eqn:Ez.
  - exists b. split_and!; [done|lia|lia|]. intros j Hj. destruct (decide (j < v * Z.of_nat n)); [apply Hz; lia|].
    eapply vec_zero_elem; [exact Ez|]. lia.
  - exists (Z.of_nat n). split_and!; lia.
Qed.

Lemma find_lo_spec w v m a b (n : nat) : 0 < v → ∀ lo, ∃ c, find_lo (Z.eqb 0) w v m a (v * b) n (v * lo) = v * c ∧
  lo ≤ c ≤ Z.max lo b ∧ ∀ j, v * lo ≤ j < v * c → elem w m a j = 0.
Proof.
  intros Hv. induction n as [|n IH]; intros lo; cbn [find_lo]; [exists lo; split_and!; lia|].
  destruct (Z.ltb_spec (v * lo) (v * b)); [|exists lo; split_and!; lia].
  destruct (vec_zero _ w v m a (v * lo)) eqn:Ez; [|exists lo; split_and!; lia].
  replace (v * lo + v) with (v * (lo + 1)) by lia. destruct (IH (lo + 1)) as (c & E & Hc & Hz).
  exists c. split_and!; [done|lia|nia|]. intros j Hj. destruct (decide (j < v * (lo + 1))); [|apply Hz; lia].
  eapply vec_zero_elem; [exact Ez|]. lia.
Qed.

(** The loop over the vectors between the bounds adds all elements. *)
Lemma vectors_add_all src sa da dst (n : nat) :
  let hi := find_hi (Z.eqb 0) 4 4 src sa n in
  let lo := find_lo (Z.eqb 0) 4 4 src sa hi n 0 in
  mem_eq (foldl (add_vec add32 4 4 src sa da) dst (steps lo (hi + 1) 4))
         (foldl (add_at add32 4 src sa da) dst (seqZ 0 (4 * Z.of_nat n))).
Proof.
  intros hi lo. destruct (find_hi_spec 4 4 src sa n) as (b & Eh & Hb & Zh); [lia|]. fold hi in Eh.
  destruct (find_lo_spec 4 4 src sa b n ltac:(lia) 0) as (c & El & Hc & Zl). rewrite Z.mul_0_r, <-Eh in El. fold lo in El.
  assert (∀ l d, foldl (add_vec add32 4 4 src sa da) d l =
    foldl (λ d i, foldl (add_at add32 4 src sa da) d (seqZ i 4)) d l) as Ev.
  { induction l as [|i l IH]; intros d; [done|]. simpl. by rewrite IH, add_vec_at. }
  unfold steps. replace ((hi + 1 - lo + (4 - 1)) / 4) with (Z.of_nat (Z.to_nat (b + 1 - c))).
  2:{ rewrite Eh, El. Z.to_euclidean_division_equations; lia. }
  rewrite Ev, foldl_vectors by lia.
  destruct (decide (b + 1 ≤ c)) as [Hbc|Hbc].
  - replace (Z.to_nat (b + 1 - c)) with 0%nat by lia. rewrite Z.mul_0_r. symmetry. apply foldl_add_zero. intros i Hi%elem_of_seqZ.
    destruct (decide (i < 4 * c)); [apply Zl|apply Zh]; lia.
  - rewrite Z2Nat.id by lia. rewrite El.
    replace (4 * Z.of_nat n) with (4 * c + (4 * (b + 1 - c) + 4 * (Z.of_nat n - b - 1))) by lia.
    rewrite seqZ_app, seqZ_app, !foldl_app by lia. rewrite !Z.add_0_l.
    rewrite (foldl_add_zero src sa da (seqZ (4 * c + 4 * (b + 1 - c)) _)).
    2:{ intros i Hi%elem_of_seqZ. apply Zh. lia. }
    apply foldl_add_proper. symmetry. apply foldl_add_zero. intros i Hi%elem_of_seqZ. apply Zl. lia.
Qed.

Lemma rounded4 size : 0 ≤ size → rounded size 4 4 = 4 * (((size + 3) / 4 + 3) / 4).
Proof.
  intros H. unfold rounded. change (Z.lnot (4 - 1)) with (Z.lnot (Z.ones 2)).
  rewrite <-Z.ldiff_land, Z.ldiff_ones_r, Z.shiftl_mul_pow2, Z.shiftr_div_pow2 by lia.
  change (2 ^ 2) with 4. rewrite Z.mul_comm. f_equal. f_equal. replace (size + 4 - 1) with (size + 3) by lia. lia.
Qed.

Lemma elem_add_at src sa da d i j : elem 4 (add_at add32 4 src sa da d i) da j =
  if decide (i = j) then add32 (elem 4 d da j) (elem 4 src sa j) else elem 4 d da j.
Proof.
  unfold add_at, elem at 1. destruct (decide (i = j)) as [->|Hne].
  - rewrite load_store. apply wrap_small. apply wrap_range. lia.
  - apply load_store_ne. lia.
Qed.

Lemma rd_add_at src sa da d i x : ¬ (da + 4 * i ≤ x < da + 4 * i + 4) → rd (add_at add32 4 src sa da d i) x = rd d x.
Proof. intros H. unfold add_at. rewrite rd_store, decide_False; [done|]. lia. Qed.

Lemma elem_add_all src sa da l : NoDup l → ∀ d j, elem 4 (foldl (add_at add32 4 src sa da) d l) da j =
  if decide (j ∈ l) then add32 (elem 4 d da j) (elem 4 src sa j) else elem 4 d da j.
Proof.
  induction 1 as [|i l Hi _ IH]; intros d j; [by rewrite decide_False by apply not_elem_of_nil|].
  simpl. rewrite IH, elem_add_at. destruct (decide (i = j)) as [->|Hne].
  - by rewrite decide_False, decide_True by (done || by left).
  - destruct (decide (j ∈ l)); [rewrite decide_True by by right|rewrite decide_False by (rewrite not_elem_of_cons; auto)]; done.
Qed.

Lemma rd_add_all src sa da l : ∀ d x, (∀ i, i ∈ l → ¬ (da + 4 * i ≤ x < da + 4 * i + 4)) →
  rd (foldl (add_at add32 4 src sa da) d l) x = rd d x.
Proof.
  induction l as [|i l IH]; intros d x Hx; [done|]. simpl.
  rewrite IH by (intros; apply Hx; by right). apply rd_add_at, Hx. by left.
Qed.

(** How many elements a sum covers. *)
Definition sum_elems (size : Z) : Z := if size =? 4 then 1 else rounded size 4 4.

(** [C19] Adding two arrays of 32-bit integers: although the loop over vectors
    skips the zero vectors at both ends, every element of the destination, up to
    whole vectors, becomes the sum modulo 2^32 of the two, and no byte outside
    changes. *)
Theorem reduce_i32_add_elements src sa dst da size : 0 < size →
  let dst' := snd (reduce_i32_add src sa dst da size) in
  size ≤ 4 * sum_elems size < size + 16 ∧
  (∀ i, 0 ≤ i < sum_elems size → elem 4 dst' da i = u32 (elem 4 dst da i + elem 4 src sa i)) ∧
  (∀ x, ¬ (da ≤ x < da + 4 * sum_elems size) → rd dst' x = rd dst x).
Proof.
  intros Hs. cbv zeta. pose proof (rounded4 size ltac:(lia)) as Hr. unfold sum_elems, reduce_i32_add.
  destruct (Z.eqb_spec size 4) as [->|Hne].
  - split; [lia|]. cbn [snd]. split.
    + intros i Hi. assert (i = 0) as -> by lia. pose proof (elem_add_at src sa da dst 0 0) as H.
      unfold add_at, elem in H |- *. rewrite !Z.mul_0_r, !Z.add_0_r in *. rewrite H. done.
    + intros x Hx. rewrite rd_store, decide_False; [done|]. lia.
  - set (q := ((size + 3) / 4 + 3) / 4) in *.
    assert (0 ≤ q ∧ size ≤ 4 * (4 * q) < size + 16) as [Hq Hb] by (subst q; Z.to_euclidean_division_equations; lia).
    rewrite Hr. split; [done|].
    unfold reduce_add_vector. change (Z.of_nat 4) with 4. rewrite Hr. cbn [snd]. rewrite Z.mul_comm, Z.div_mul by lia.
    pose proof (vectors_add_all src sa da dst (Z.to_nat q)) as Hv. cbv zeta in Hv. rewrite Z2Nat.id in Hv by done.
    split.
    + intros i Hi. rewrite Hv, elem_add_all by apply NoDup_seqZ. rewrite decide_True by (apply elem_of_seqZ; lia). done.
    + intros x Hx. rewrite Hv. apply rd_add_all. intros i Hi%elem_of_seqZ. lia.
Qed.

Lemma reduce_i32_add_elements_witness :
  let src := {[40 := 7; 1040 := 1]} in let dst := {[20 := 250; 21 := 1]} in
  elem 4 (snd (reduce_i32_add src 0 dst 0 64)) 0 5 = u32 (elem 4 dst 0 5 + elem 4 src 0 5) ∧
  elem 4 (snd (reduce_i32_add src 0 dst 0 64)) 0 10 = u32 (elem 4 dst 0 10 + elem 4 src 0 10).
Proof.
  intros src dst. assert (sum_elems 64 = 16) as E by done.
  destruct (reduce_i32_add_elements src 0 dst 0 64) as (_ & H & _); [lia|]. rewrite E in H.
  split; apply H; lia.
Defined.
