(* ===== verification/DeferredIO.v ===== *)
(** Deferred output: [io.c].

    A worker must not write to a file before its iteration is known to be
    valid.  It collects its output in a list of events; at a checkpoint the list
    is copied into the reduction heap of the checkpoint, and when the checkpoint
    is committed the events of all workers are written in the order of the
    iterations. *)
From S2P Require Import Prelude Machine Exec Privacy Distill Heaps.
From stdpp Require Import strings.
From Stdlib Require Import Sorted.
#[local] Open Scope Z_scope.

Definition sizeof_IOEvt : Z := 32.

(** ** Collecting events *)

(** [__specpriv_reset_worker_io]. *)
Definition reset_worker_io : X unit := upd_io (λ _, MkIO [] 0).

(** [__specpriv_grow_io] and [__specpriv_issue_io]: the array doubles, from 64
    entries on. *)
Definition grown (n cap : Z) : Z :=
  if cap <? u32 (n + 1) then Z.max 64 (u32 (cap * 2)) else cap.
Definition issue_io (buffer len file : Z) : X unit :=
  let! i := current_iter in
  upd_io (λ io, MkIO (worker_io_events io ++ [MkIOEvt i file len buffer])
                  (grown (Z.of_nat (length (worker_io_events io))) (worker_cap_io_events io))).

(** [malloc] returns [buff]. *)
Definition io_fwrite (buff buffer size nmemb file : Z) : X Z :=
  let len := u64 (size * nmemb) in
  upd_mem (λ m, memcpy m buff m buffer len) ;;;
  issue_io buff len file ;;;
  ret (i32 nmemb).

(** The text [vsnprintf] produced is at [buff]; [len] is its length, negative
    for an error. *)
Definition io_vfprintf (buff len file : Z) : X Z :=
  when (0 <? len) (issue_io buff len file) ;;; ret len.

(** [printf] and [fprintf] differ in the stream; [puts] and [putchar] print their
    text with [printf]; [fflush] does nothing. *)
Definition io_printf (buff len stdout : Z) : X Z := io_vfprintf buff len stdout.
Definition io_fprintf (buff len file : Z) : X Z := io_vfprintf buff len file.
Definition io_puts (buff len stdout : Z) : X Z := io_printf buff len stdout ;;; ret 0.
Definition io_putchar (buff len stdout c : Z) : X Z := io_printf buff len stdout ;;; ret c.
Definition io_fflush : X Z := ret 0.

(** ** Copying into a checkpoint *)

Definition store_evt (m : mem) (a : Z) (e : IOEvt) : mem :=
  store 8 (store 8 (store 8 (store 4 m a (ev_iter e)) (a + 8) (ev_stream e)) (a + 16) (ev_len e))
    (a + 24) (ev_buffer e).

(** The strings go to the heap one after the other; events get the native
    address of their string.  [obj] is the heap object, [mh] its mapping. *)
Fixpoint copy_strings (m : mem) (es : list IOEvt) (obj : mem) (mh : MappedHeap) :
    list IOEvt * mem * MappedHeap :=
  match es with
  | [] => ([], obj, mh)
  | e :: es' =>
      let '(new_buffer, mh1) := heap_alloc mh (u32 (u32 (ev_len e) + 1)) in
      let obj1 := memcpy obj (new_buffer - mh_base mh) m (ev_buffer e) (u32 (ev_len e)) in
      let native := default 0 (heap_inv_translate new_buffer mh1) in
      let '(l, obj2, mh2) := copy_strings m es' obj1 mh1 in
      (set_ev_buffer native e :: l, obj2, mh2)
  end.

Fixpoint store_evts (m : mem) (a : Z) (es : list IOEvt) : mem :=
  match es with
  | [] => m
  | e :: es' => store_evts (store_evt m a e) (a + sizeof_IOEvt) es'
  end.

(** [__specpriv_copy_io_to_redux]: [mh] is the mapping of the checkpoint's
    reduction heap; the mapping after the allocations is returned. *)
Definition copy_io_to_redux (c : Z) (mh : MappedHeap) : X MappedHeap :=
  let! wid := av myWorkerId in
  let! es := gets (λ w, worker_io_events (w_io w)) in
  upd_chk c (λ k, set_io_events (set_ios_num (<[wid := Z.of_nat (length es)]> (ios_num (io_events k)))
                                   (io_events k)) k) ;;;
  match es with
  | [] => reset_worker_io ;;; ret mh
  | _ =>
      let! m := gets w_mem in
      let! k := chk c in
      let '(es1, obj1, mh1) := copy_strings m es (h_data (heap_redux k)) mh in
      let '(new_list, mh2) := heap_alloc mh1 (u32 (Z.of_nat (length es) * sizeof_IOEvt)) in
      let obj2 := store_evts obj1 (new_list - mh_base mh) es1 in
      let native := default 0 (heap_inv_translate new_list mh2) in
      upd_chk c (λ k, set_io_events (set_ios_lists (<[wid := native]> (ios_lists (io_events k)))
                                       (io_events k))
                        (set_heap_redux (with_data obj2 (heap_redux k)) k)) ;;;
      reset_worker_io ;;;
      ret mh2
  end.

(** ** Committing the output *)

(** Field reads of [corrected_iolist[ ow ]]; the list is at offset [l]. *)
Definition evt_at (l ow : Z) : Z := l + sizeof_IOEvt * ow.
Definition evt_iter (obj : mem) (l ow : Z) : Z := i32 (load 4 obj (evt_at l ow)).
Definition load_evt (obj : mem) (l ow : Z) : IOEvt :=
  MkIOEvt (evt_iter obj l ow) (load 8 obj (evt_at l ow + 8)) (load 8 obj (evt_at l ow + 16))
    (load 8 obj (evt_at l ow + 24)).

(** Offset in the heap object of a native address of the reduction heap. *)
Definition redux_offset (native : Z) : Z := u64 (native - REDUX_ADDR).

(** The worker whose next event is earliest, the first one among equals. *)
Definition next_io (nw : Z) (ios : IOEvtSet) (obj : mem) (offsets : gmap Z Z) : option Z :=
  foldl (λ best wid,
    let ow := default 0 (offsets !! wid) in
    if default 0 (ios_num ios !! wid) <=? ow then best
    else
      let t wid := evt_iter obj (redux_offset (default 0 (ios_lists ios !! wid)))
                     (default 0 (offsets !! wid)) in
      match best with
      | None => Some wid
      | Some b => if t wid <? t b then Some wid else best
      end) None (seqZ 0 nw).

(** [fwrite] of the bytes of one event. *)
Definition perform (obj : mem) (e : IOEvt) : Z * list Z :=
  (ev_stream e, (λ i, rd obj (redux_offset (ev_buffer e) + i)) <$> seqZ 0 (u32 (ev_len e))).

(** The events of one iteration; the loop ends at the first event of another
    iteration, which it looks for beyond the end of the list as well. *)
Definition io_step (obj : mem) (l iter : Z) (s : Z * list (Z * list Z)) :
    (Z * list (Z * list Z)) + (Z * list (Z * list Z)) :=
  let '(ow, out) := s in
  if evt_iter obj l ow =? iter then inl (u32 (ow + 1), out ++ [perform obj (load_evt obj l ow)])
  else inr (ow, out).

(** One round of the outer loop. *)
Definition commit_round (nw : Z) (ios : IOEvtSet) (obj : mem) (s : gmap Z Z * list (Z * list Z)) :
    (gmap Z Z * list (Z * list Z)) + option (list (Z * list Z)) :=
  let '(offsets, out) := s in
  match next_io nw ios obj offsets with
  | None => inr (Some out)
  | Some wid =>
      let l := redux_offset (default 0 (ios_lists ios !! wid)) in
      let ow := default 0 (offsets !! wid) in
      match rounds 32 (io_step obj l (evt_iter obj l ow)) (ow, out) with
      | inr (ow', out') => inl (<[wid := ow']> offsets, out')
      | inl _ => inr None
      end
  end.

(** [__specpriv_commit_io]; it spins when the inner loop never ends. *)
Definition commit_io (c : Z) : X unit :=
  let! nw := num_workers in
  let! k := chk c in
  match rounds 38 (commit_round nw (io_events k) (h_data (heap_redux k))) (∅, []) with
  | inr (Some out) =>
      upd_shared (λ s, set_sh_out (sh_out s ++ out) s) ;;;
      upd_chk c (λ k, set_io_events
        (foldl (λ ios wid, MkIOEvtSet (<[wid := 0]> (ios_lists ios)) (<[wid := 0]> (ios_num ios)))
           (io_events k) (seqZ 0 nw)) k)
  | _ => halt Spinning
  end.

(** ** The order of the output *)

Lemma elem_snoc {A} (l : list A) x v : v ∈ l ++ [x] ↔ v ∈ l ∨ v = x.
Proof. rewrite elem_of_app, list_elem_of_singleton. done. Qed.

Section Order.
Context (obj : mem) (ios : IOEvtSet) (nw : Z).

(** An event is the worker and the index in its list. *)
Definition num_of (w : Z) : Z := default 0 (ios_num ios !! w).
Definition list_at (w : Z) : Z := redux_offset (default 0 (ios_lists ios !! w)).
Definition time (e : Z * Z) : Z := evt_iter obj (list_at e.1) e.2.
Definition output (e : Z * Z) : Z * list Z := perform obj (load_evt obj (list_at e.1) e.2).
Definition done_of (offsets : gmap Z Z) (w : Z) : Z := default 0 (offsets !! w).

(** The events of a worker are in the order of their iterations, and what
    follows them in memory does not look like an event of the last iteration. *)
Record io_list (w : Z) : Prop := {
  il_num : 0 ≤ num_of w < 2 ^ 32;
  il_order : ∀ i j, 0 ≤ i ≤ j → j < num_of w → time (w, i) ≤ time (w, j);
  il_end : 0 < num_of w → time (w, num_of w) ≠ time (w, num_of w - 1) }.

(** A sequence that has the events of every worker, in their order. *)
Definition complete (upto : Z → Z) (es : list (Z * Z)) : Prop :=
  (∀ e, e ∈ es → 0 ≤ e.1 < nw) ∧
  ∀ w, 0 ≤ w < nw → snd <$> filter (λ e, e.1 = w) es = seqZ 0 (upto w).
Definition timely (es : list (Z * Z)) : Prop := StronglySorted (λ e e', time e ≤ time e') es.

Lemma timely_app es es' : timely es → timely es' → (∀ e e', e ∈ es → e' ∈ es' → time e ≤ time e') → timely (es ++ es').
Proof.
  induction 1 as [|e es Hs IH He]; intros H' Hx; [done|]. cbn [app]. constructor.
  - apply IH; [done|]. intros a b Ha. apply Hx. by right.
  - apply Forall_app. split; [done|]. apply Forall_forall. intros b Hb. apply Hx; [by left|done].
Qed.

Lemma timely_same t es : (∀ e, e ∈ es → time e = t) → timely es.
Proof.
  induction es as [|e es IH]; intros H; constructor.
  - apply IH. intros a Ha. apply H. by right.
  - apply Forall_forall. intros b Hb. rewrite !H by (by left || by right). done.
Qed.

(** The worker with the earliest event. *)
Lemma next_io_spec offsets :
  match next_io nw ios obj offsets with
  | None => ∀ w, 0 ≤ w < nw → num_of w ≤ done_of offsets w
  | Some w => 0 ≤ w < nw ∧ done_of offsets w < num_of w ∧
      ∀ v, 0 ≤ v < nw → done_of offsets v < num_of v → time (w, done_of offsets w) ≤ time (v, done_of offsets v)
  end.
Proof.
  unfold next_io. set (f := λ best wid, _). 
  assert (∀ l, match foldl f None l with
    | None => ∀ w, w ∈ l → num_of w ≤ done_of offsets w
    | Some w => w ∈ l ∧ done_of offsets w < num_of w ∧
        ∀ v, v ∈ l → done_of offsets v < num_of v → time (w, done_of offsets w) ≤ time (v, done_of offsets v) end) as H.
  { induction l as [|x l IH] using rev_ind; [by intros w ?%elem_of_nil|]. rewrite foldl_app. cbn [foldl].
    destruct (foldl f None l) as [b|]; unfold f; cbv zeta; fold (done_of offsets x) (num_of x);
      destruct (Z.leb_spec (num_of x) (done_of offsets x)).
    - destruct IH as (Hb & Hn & Hmin). split; [apply elem_of_app; by left|]. split; [done|].
      intros v [Hv| ->]%elem_snoc Hlt; [by apply Hmin|lia].
    - destruct IH as (Hb & Hn & Hmin).
      change (if _ <? _ then _ else _) with (if time (x, done_of offsets x) <? time (b, done_of offsets b) then Some x else Some b).
      destruct (Z.ltb_spec (time (x, done_of offsets x)) (time (b, done_of offsets b))).
      + split; [apply elem_of_app; right; by left|]. split; [done|].
        intros v [Hv| ->]%elem_snoc Hlt; [specialize (Hmin v Hv Hlt); lia|lia].
      + split; [apply elem_of_app; by left|]. split; [done|].
        intros v [Hv| ->]%elem_snoc Hlt; [by apply Hmin|lia].
    - intros w [Hw| ->]%elem_snoc; [by apply IH|lia].
    - split; [apply elem_of_app; right; by left|]. split; [lia|].
      intros v [Hv| ->]%elem_snoc Hlt; [specialize (IH v Hv); lia|lia]. }
  specialize (H (seqZ 0 nw)). destruct (foldl f None (seqZ 0 nw)) as [w|].
  - destruct H as (Hw%elem_of_seqZ & Hn & Hmin). split; [lia|]. split; [done|]. intros v Hv. apply Hmin, elem_of_seqZ. lia.
  - intros w Hw. apply H, elem_of_seqZ. lia.
Qed.

(** The inner loop writes the events of one iteration. *)
Lemma io_loop w ow out : io_list w → 0 ≤ ow < num_of w →
  ∃ ow', rounds 32 (io_step obj (list_at w) (time (w, ow))) (ow, out) =
    inr (ow', out ++ (output ∘ pair w <$> seqZ ow (ow' - ow))) ∧
    ow < ow' ≤ num_of w ∧ ∀ i, ow ≤ i < ow' → time (w, i) = time (w, ow).
Proof.
  intros [Hn Ho He] How.
  set (I := λ s : Z * list (Z * list Z), ow ≤ s.1 ≤ num_of w ∧ s.2 = out ++ (output ∘ pair w <$> seqZ ow (s.1 - ow)) ∧
    ∀ i, ow ≤ i < s.1 → time (w, i) = time (w, ow)).
  destruct (rounds_measure I (λ s, I s ∧ ow < s.1) (λ s, num_of w - s.1) (io_step obj (list_at w) (time (w, ow)))) with (n := 32%nat) (s := (ow, out))
    as ([ow' out'] & E & (H1 & H2 & H3) & H4).
  - intros [o out1] (H1 & H2 & H3). cbn [fst snd] in *. split; [lia|]. unfold io_step.
    change (evt_iter obj (list_at w) o) with (time (w, o)).
    destruct (Z.eqb_spec (time (w, o)) (time (w, ow))) as [Et|Et].
    + assert (o < num_of w) as Hlt.
      { destruct (decide (o = num_of w)) as [->|]; [|lia]. exfalso. apply He; [lia|]. rewrite Et. symmetry. apply H3. lia. }
      rewrite (wrap_small 32) by lia. split; [|cbn; lia]. unfold I. cbn [fst snd]. split; [lia|]. split.
      * rewrite H2. replace (o + 1 - ow) with (o - ow + 1) by lia. rewrite seqZ_snoc, fmap_app, app_assoc by lia.
        replace (ow + (o - ow)) with o by lia. done.
      * intros i Hi. destruct (decide (i = o)) as [->|]; [done|]. apply H3. lia.
    + split; [by unfold I|]. cbn. destruct (decide (ow = o)) as [->|]; [done|lia].
  - unfold I. cbn [fst snd]. rewrite Z.sub_diag. split; [lia|]. split; [by rewrite app_nil_r|]. intros i Hi. lia.
  - cbn. change (2 ^ Z.of_nat 32) with (2 ^ 32). lia.
  - cbn [fst snd] in *. exists ow'. rewrite E, H2. split; [done|]. split; [lia|done].
Qed.

(** ** The outer loop *)

Definition todo (offsets : gmap Z Z) : Z :=
  foldr Z.add 0 ((λ w, num_of w - done_of offsets w) <$> seqZ 0 nw).

Record emitted (s : gmap Z Z * list (Z * list Z)) (es : list (Z * Z)) : Prop := {
  em_out : s.2 = output <$> es;
  em_done : ∀ w, 0 ≤ w < nw → 0 ≤ done_of s.1 w ≤ num_of w;
  em_complete : complete (done_of s.1) es;
  em_timely : timely es;
  em_next : ∀ e v, e ∈ es → 0 ≤ v < nw → done_of s.1 v < num_of v → time e ≤ time (v, done_of s.1 v) }.

Lemma done_insert offsets w o v :
  done_of (<[w := o]> offsets) v = if decide (v = w) then o else done_of offsets v.
Proof. unfold done_of. case_decide; subst; [by rewrite lookup_insert_eq|by rewrite lookup_insert_ne]. Qed.

Lemma filter_pairs w v l :
  filter (λ e : Z * Z, e.1 = v) (pair w <$> l) = if decide (w = v) then pair w <$> l else [].
Proof.
  induction l as [|x l IH]; cbn [fmap list_fmap]; [by case_decide|]. rewrite filter_cons. cbn [fst].
  rewrite IH. by case_decide.
Qed.

Lemma complete_events offsets es w o : complete (done_of offsets) es → 0 ≤ w < nw → 0 ≤ done_of offsets w ≤ o →
  complete (done_of (<[w := o]> offsets)) (es ++ (pair w <$> seqZ (done_of offsets w) (o - done_of offsets w))).
Proof.
  intros [Hin Hes] Hw Ho. split.
  - intros e [He|(i & -> & Hi)%list_elem_of_fmap]%elem_of_app; [by apply Hin|done].
  - intros v Hv. rewrite filter_app, fmap_app, Hes, done_insert, filter_pairs by done.
    destruct (decide (w = v)) as [<-|]; [|by rewrite decide_False, app_nil_r by done].
    rewrite decide_True, <- list_fmap_compose by done. change (snd ∘ pair w) with (@id Z). rewrite list_fmap_id.
    replace o with (done_of offsets w + (o - done_of offsets w)) at 2 by lia. by rewrite seqZ_app by lia.
Qed.

Lemma todo_insert offsets w o : 0 ≤ w < nw → done_of offsets w < o → todo (<[w := o]> offsets) < todo offsets.
Proof.
  intros Hw Ho. unfold todo. assert (w ∈ seqZ 0 nw) as Hin by (apply elem_of_seqZ; lia). revert Hin.
  assert (∀ l, foldr Z.add 0 ((λ w0, num_of w0 - done_of (<[w:=o]> offsets) w0) <$> l)
    ≤ foldr Z.add 0 ((λ w0, num_of w0 - done_of offsets w0) <$> l)) as Hle.
  { induction l as [|x l IH]; cbn; [done|]. rewrite done_insert. case_decide; subst; lia. }
  generalize (seqZ 0 nw). induction l as [|x l IH]; [by intros ?%elem_of_nil|].
  cbn [fmap list_fmap foldr]. rewrite done_insert. specialize (Hle l).
  intros [->|Hin]%elem_of_cons; [rewrite decide_True by done; lia|]. specialize (IH Hin). case_decide; subst; lia.
Qed.

Lemma todo_bounds offsets : (∀ w, 0 ≤ w < nw → 0 ≤ done_of offsets w ≤ num_of w ∧ num_of w < 2 ^ 32) → 0 ≤ nw →
  0 ≤ todo offsets ≤ nw * (2 ^ 32 - 1).
Proof.
  intros H Hnw. unfold todo.
  assert (∀ l, Forall (λ w, 0 ≤ w < nw) l →
    0 ≤ foldr Z.add 0 ((λ w0, num_of w0 - done_of offsets w0) <$> l) ≤ Z.of_nat (length l) * (2 ^ 32 - 1)) as Hl.
  { induction 1 as [|w l Hw Hl IH]; cbn [fmap list_fmap foldr length]; [lia|]. specialize (H w Hw). lia. }
  specialize (Hl (seqZ 0 nw)). rewrite length_seqZ, Z2Nat.id in Hl by done. apply Hl.
  apply Forall_forall. intros w. rewrite elem_of_seqZ. lia.
Qed.

Context (Hio : ∀ w, 0 ≤ w < nw → io_list w).

Lemma emitted_step s es : emitted s es →
  match commit_round nw ios obj s with
  | inl s' => (∃ es', emitted s' es') ∧ todo s'.1 < todo s.1
  | inr r => r = Some (output <$> es) ∧ complete num_of es ∧ timely es
  end.
Proof.
  destruct s as [offsets out]. intros [Ho Hd Hc Ht Hn]. cbn [fst snd] in *. unfold commit_round.
  pose proof (next_io_spec offsets) as Hnext. destruct (next_io nw ios obj offsets) as [w|].
  - destruct Hnext as (Hw & Hlt & Hmin). fold (done_of offsets w) (list_at w).
    change (evt_iter obj (list_at w) (done_of offsets w)) with (time (w, done_of offsets w)).
    destruct (io_loop w (done_of offsets w) out) as (o & -> & Hr & Hsame); [by apply Hio|specialize (Hd w Hw); lia|].
    assert (0 ≤ done_of offsets w) by (apply Hd; done).
    split; [|by apply todo_insert; lia].
    assert (∀ e, e ∈ pair w <$> seqZ (done_of offsets w) (o - done_of offsets w) → time e = time (w, done_of offsets w)) as Hnew.
    { intros e (i & -> & Hi%elem_of_seqZ)%list_elem_of_fmap. apply Hsame. lia. }
    assert (o < num_of w → time (w, done_of offsets w) ≤ time (w, o)) as Hlater by (intros; apply Hio; [done|lia|done]).
    exists (es ++ (pair w <$> seqZ (done_of offsets w) (o - done_of offsets w))). constructor; cbn [fst snd].
    + by rewrite Ho, fmap_app, <- list_fmap_compose.
    + intros v Hv. rewrite done_insert. specialize (Hd v Hv). case_decide; subst; lia.
    + apply complete_events; [done|done|lia].
    + apply timely_app; [done|by eapply timely_same|]. intros e e' He He'. rewrite (Hnew e' He'). by apply Hn.
    + intros e v He Hv. rewrite done_insert. apply elem_of_app in He.
      assert (∀ u, 0 ≤ u < nw → done_of offsets u < num_of u → time e ≤ time (u, done_of offsets u)) as Hold.
      { intros u Hu Hul. destruct He as [He|He]; [by apply Hn|]. rewrite (Hnew e He). by apply Hmin. }
      case_decide as Hvw; subst; intros Hvl; [|by apply Hold]. specialize (Hold w Hw Hlt). specialize (Hlater Hvl). lia.
  - split; [by rewrite Ho|]. split; [|done]. destruct Hc as [Hin Hf]. split; [done|]. intros w Hw. rewrite Hf by done.
    f_equal. specialize (Hnext w Hw). specialize (Hd w Hw). lia.
Qed.

Lemma commit_io_rounds : 0 ≤ nw ≤ 64 →
  ∃ es, rounds 38 (commit_round nw ios obj) (∅, []) = inr (Some (output <$> es)) ∧ complete num_of es ∧ timely es.
Proof.
  intros Hnw.
  destruct (rounds_measure (λ s, ∃ es, emitted s es)
    (λ r, ∃ es, r = Some (output <$> es) ∧ complete num_of es ∧ timely es) (λ s, todo s.1) (commit_round nw ios obj))
    with (n := 38%nat) (s := (∅ : gmap Z Z, [] : list (Z * list Z))) as (r & E & es & -> & H).
  - intros s [es Hes]. split.
    + apply todo_bounds; [|lia]. intros w Hw. split; [by apply (em_done _ _ Hes)|]. by apply Hio.
    + pose proof (emitted_step s es Hes) as Hs. destruct (commit_round nw ios obj s); [done|]. exists es. done.
  - exists []. constructor; cbn [fst snd]; try done.
    + intros w Hw. unfold done_of. rewrite lookup_empty. destruct (Hio w Hw). cbn. lia.
    + split; [by intros e ?%elem_of_nil|]. intros w Hw. unfold done_of. by rewrite lookup_empty.
    + constructor.
    + intros e v ?%elem_of_nil. done.
  - cbn [fst]. assert (todo ∅ ≤ nw * (2 ^ 32 - 1)) as Hb.
    { apply todo_bounds; [|lia]. intros w Hw. unfold done_of. rewrite lookup_empty. destruct (Hio w Hw). cbn. lia. }
    change (2 ^ Z.of_nat 38) with (64 * 2 ^ 32). nia.
  - by exists es.
Qed.
End Order.

(** [C28] The output of the workers is in the order of a sequential run: when there
    are at most 64 workers, the list of every worker is in the order of its iterations
    and the bytes behind it in memory do not look like another event of its last
    iteration, [commit_io] returns after it has written every event
    of every worker once, those of one worker in their order and all of them by
    rising iterations, and the lists are empty. *)
Theorem commit_io_in_order c w k :
  let nw := numWorkers (w_api w) in
  let obj := h_data (heap_redux k) in
  sh_chkpts (w_shared w) !! c = Some k → 0 ≤ nw ≤ 64 →
  (∀ wid, 0 ≤ wid < nw → io_list obj (io_events k) wid) →
  ∃ es w' k', commit_io c w = Ok tt w' ∧
    sh_out (w_shared w') = sh_out (w_shared w) ++ (output obj (io_events k) <$> es) ∧
    complete nw (num_of (io_events k)) es ∧ timely obj (io_events k) es ∧
    sh_chkpts (w_shared w') !! c = Some k' ∧ ∀ wid, 0 ≤ wid < nw → num_of (io_events k') wid = 0.
Proof.
  intros nw obj E Hnw Hio. destruct (commit_io_rounds obj (io_events k) nw Hio Hnw) as (es & Er & Hc & Ht).
  unfold commit_io. rewrite (bind_run _ _ w nw w) by done. rewrite (bind_run _ _ _ _ _ (chk_run c w k E)).
  fold obj. rewrite Er. erewrite bind_run by done. erewrite upd_chk_run by exact E.
  exists es. do 2 eexists. split; [done|]. split; [done|]. split; [done|]. split; [done|].
  split; [apply put_chk_lookup|]. intros wid Hwid. cbn [io_events set_io_events].
  assert (wid ∈ seqZ 0 nw) as Hin by (apply elem_of_seqZ; lia). revert Hin. generalize (io_events k), (seqZ 0 nw).
  intros ios l. induction l as [|x l IH] using rev_ind; [by intros ?%elem_of_nil|]. rewrite foldl_app. cbn [foldl].
  unfold num_of. cbn [ios_num]. intros Hin%elem_snoc. destruct (decide (x = wid)) as [->|Hne]; [by rewrite lookup_insert_eq|].
  rewrite lookup_insert_ne by done. destruct Hin as [Hin|]; [by apply IH|congruence].
Qed.

(** Two workers with output of iterations 1, 3 and 2. *)
Definition demo_io : X unit :=
  let redux := MkMapped (Some REDUX_ADDR) HEAP_SIZE (2 ^ 47) (2 ^ 47) in
  upd_shared (set_sh_chkpts {[0 := demo_chk ∅ ∅ 0 0]}) ;;;
  upd_mem (λ m, store 4 m 5000 1684234849) ;;;
  upd_av (λ a, set_numWorkers 2 (set_myWorkerId 1 a)) ;;;
  issue_io 5000 2 7 ;;; issue_io 5001 1 7 ;;;
  upd_av (set_currentIter 1) ;;;
  issue_io 5002 2 7 ;;;
  let! redux := copy_io_to_redux 0 redux in
  upd_av (set_myWorkerId 0) ;;;
  upd_av (set_currentIter 1) ;;; issue_io 5003 1 7 ;;;
  copy_io_to_redux 0 redux ;;; ret tt.
Definition demo_io_world : World := world_of (demo_io blank).
Definition demo_io_chk : Checkpoint := default (demo_chk ∅ ∅ 0 0) (sh_chkpts (w_shared demo_io_world) !! 0).

(** A list of known length, event by event. *)
Lemma io_list_check obj ios wid n : num_of ios wid = n → 0 ≤ n < 2 ^ 32 →
  Forall (λ j, Forall (λ i, time obj ios (wid, i) ≤ time obj ios (wid, j)) (seqZ 0 (j + 1))) (seqZ 0 n) →
  time obj ios (wid, n) ≠ time obj ios (wid, n - 1) → io_list obj ios wid.
Proof.
  intros En Hn Hall Hend. constructor; rewrite En; [lia| |done]. intros i j Hi Hj.
  rewrite Forall_forall in Hall. assert (j ∈ seqZ 0 n) as Hj' by (apply elem_of_seqZ; lia).
  specialize (Hall j Hj'). rewrite Forall_forall in Hall. apply Hall, elem_of_seqZ. lia.
Qed.

(** Evaluates a decidable statement about a concrete world. *)
Ltac demo_check := apply (bool_decide_eq_true_1 _); vm_compute; reflexivity.

Lemma demo_io_list wid : 0 ≤ wid < 2 → io_list (h_data (heap_redux demo_io_chk)) (io_events demo_io_chk) wid.
Proof.
  intros Hw. assert (wid = 0 ∨ wid = 1) as [-> | ->] by lia; clear Hw;
    [apply (io_list_check _ _ _ 1)|apply (io_list_check _ _ _ 3)]; demo_check.
Qed.

Lemma commit_io_in_order_witness :
  ∃ es w' k', commit_io 0 demo_io_world = Ok tt w' ∧
    sh_out (w_shared w') = sh_out (w_shared demo_io_world) ++
      (output (h_data (heap_redux demo_io_chk)) (io_events demo_io_chk) <$> es) ∧
    complete 2 (num_of (io_events demo_io_chk)) es ∧
    timely (h_data (heap_redux demo_io_chk)) (io_events demo_io_chk) es ∧
    sh_chkpts (w_shared w') !! 0 = Some k' ∧ ∀ wid, 0 ≤ wid < 2 → num_of (io_events k') wid = 0.
Proof.
  apply (commit_io_in_order 0 demo_io_world demo_io_chk).
  - apply some_default. by vm_compute.
  - split; demo_check.
  - exact demo_io_list.
Defined.

(** The events of the demonstration, in the order in which they are written. *)
Lemma demo_io_output :
  sh_out (w_shared (world_of (commit_io 0 demo_io_world))) = [(7, [97; 98]); (7, [98]); (7, [100]); (7, [99; 100])].
Proof. by vm_compute. Qed.

(** ** Output of iteration 0

    An event of iteration 0 looks like zero-filled memory behind it, so the inner
    loop does not end at the end of the list. *)

Lemma rounds_forever {S R} (I : S → Prop) (step : S → S + R) n : ∀ s,
  I s → (∀ s, I s → ∃ s', step s = inl s' ∧ I s') → ∃ s', rounds n step s = inl s' ∧ I s'.
Proof.
  induction n as [|n IH]; intros s Hs Hstep; cbn [rounds]; [by apply Hstep|].
  destruct (IH s Hs Hstep) as (s1 & -> & Hs1). by apply IH.
Qed.

(** A worker has one event of iteration 0 and the heap is zero-filled behind it:
    [commit_io] does not return. *)
Theorem first_iteration_overruns c w k :
  sh_chkpts (w_shared w) !! c = Some k → numWorkers (w_api w) = 1 → num_of (io_events k) 0 = 1 →
  (∀ ow, 0 ≤ ow < 2 ^ 32 → time (h_data (heap_redux k)) (io_events k) (0, ow) = 0) →
  commit_io c w = Stop Spinning w.
Proof.
  intros E Hnw Hnum Hz. set (obj := h_data (heap_redux k)). fold obj in Hz.
  destruct (rounds_forever (λ s, 0 ≤ s.1 < 2 ^ 32) (io_step obj (list_at (io_events k) 0) 0) 32 (0, [])) as (s' & Er & _).
  - cbn. lia.
  - intros [ow out] How. cbn [fst] in How. unfold io_step.
    change (evt_iter obj (list_at (io_events k) 0) ow) with (time obj (io_events k) (0, ow)). rewrite Hz by done.
    eexists. split; [done|]. cbn [fst]. apply wrap_range. lia.
  - assert (commit_round 1 (io_events k) obj (∅, []) = inr None) as Hround.
    { unfold commit_round. assert (next_io 1 (io_events k) obj ∅ = Some 0) as ->.
      { unfold next_io. change (seqZ 0 1) with [0]. cbn [foldl]. rewrite lookup_empty. cbn [default].
        change (default 0 (ios_num (io_events k) !! 0)) with (num_of (io_events k) 0). by rewrite Hnum. }
      rewrite lookup_empty. cbn [default]. fold (list_at (io_events k) 0).
      change (evt_iter obj (list_at (io_events k) 0) 0) with (time obj (io_events k) (0, 0)). by rewrite Hz, Er by lia. }
    unfold commit_io. rewrite (bind_run _ _ w 1 w) by (unfold num_workers, av, gets; by rewrite Hnw).
    rewrite (bind_run _ _ _ _ _ (chk_run c w k E)). fold obj.
    assert (∀ n, rounds n (commit_round 1 (io_events k) obj) (∅, []) = inr None) as ->; [|done].
    induction n as [|n IH]; cbn [rounds]; [done|by rewrite IH].
Qed.
