(* ===== verification/Checkpoint.v ===== *)
(** Checkpoints: [checkpoint.c] and [pcb.c].

    The manager keeps two doubly linked lists of checkpoint objects, those in
    use in the order of their iterations, and free ones.  Workers merge into the
    object of their iteration; the first two complete objects are combined; at
    the end the main process adopts the complete ones and frees the rest. *)
From S2P Require Import Prelude Machine Exec Privacy Distill Heaps Redux DeferredIO.
From Stdlib Require Import Sorted.
From stdpp Require Import strings.
#[local] Open Scope Z_scope.

(** ** Locks *)

(** [acquire_lock] spins while the lock is held; [release_lock] asserts that it
    was held. *)
Definition acquire_mgr : X unit :=
  let! l := gets (λ w, m_lock (checkpoints (pcb_ w))) in
  if l =? 0 then upd_pcb (λ p, set_checkpoints (set_m_lock 1 (checkpoints p)) p) else halt Spinning.
Definition release_mgr : X unit :=
  let! l := gets (λ w, m_lock (checkpoints (pcb_ w))) in
  assert_ (l =? 1) ;;; upd_pcb (λ p, set_checkpoints (set_m_lock 0 (checkpoints p)) p).
Definition acquire_chk (c : Z) : X unit :=
  let! k := chk c in
  if c_lock k =? 0 then upd_chk c (set_c_lock 1) else halt Spinning.
Definition release_chk (c : Z) : X unit :=
  let! k := chk c in
  assert_ (c_lock k =? 1) ;;; upd_chk c (set_c_lock 0).

(** ** Lists *)

(** One of the two lists of the manager. *)
Inductive which : Type := Used | Free.

Definition get_list (q : which) : X CheckpointList :=
  gets (λ w, match q with Used => m_used | Free => m_free end (checkpoints (pcb_ w))).
Definition upd_list (q : which) (f : CheckpointList → CheckpointList) : X unit :=
  upd_pcb (λ p, set_checkpoints
    (match q with
     | Used => set_m_used (f (m_used (checkpoints p))) (checkpoints p)
     | Free => set_m_free (f (m_free (checkpoints p))) (checkpoints p)
     end) p).

Definition list_empty (q : which) : X bool := let! l := get_list q in ret (l_first l =? 0).

Definition pop_front (q : which) : X Z :=
  let! l := get_list q in
  let node := l_first l in
  assert_ (negb (node =? 0)) ;;;
  let! k := chk node in
  upd_list q (set_l_first (c_next k)) ;;;
  (if negb (c_next k =? 0) then upd_chk (c_next k) (set_c_prev 0) else upd_list q (set_l_last 0)) ;;;
  upd_chk node (λ k, set_c_next 0 (set_c_prev 0 k)) ;;;
  ret node.

Definition push_back (q : which) (node : Z) : X unit :=
  upd_chk node (set_c_next 0) ;;;
  let! l := get_list q in
  upd_chk node (set_c_prev (l_last l)) ;;;
  when (negb (l_last l =? 0)) (upd_chk (l_last l) (set_c_next node)) ;;;
  upd_list q (set_l_last node) ;;;
  let! l' := get_list q in
  when (l_first l' =? 0) (upd_list q (set_l_first node)).

(** The objects of a list from [c] on, following [next]; [n] bounds the walk,
    the number of objects that exist is enough for a list. *)
Fixpoint walk (chkpts : gmap Z Checkpoint) (n : nat) (c : Z) : list Checkpoint :=
  match n with
  | O => []
  | S n' => if c =? 0 then []
            else match chkpts !! c with Some k => k :: walk chkpts n' (c_next k) | None => [] end
  end.

(** ** Memory in use *)

Definition count_memory_used_by_main_checkpoint (h : HeapVars) : Z :=
  sizeof_private h + sizeof_private h + sizeof_redux h.
Definition count_memory_used_by_checkpoint (k : Checkpoint) : Z :=
  let s := if c_shadow_lowest_inclusive k <? c_shadow_highest_exclusive k
           then c_shadow_highest_exclusive k - c_shadow_lowest_inclusive k else 0 in
  s + s + redux_used k.

Definition is_saturated : X bool :=
  gets (λ w,
    let used := walk (sh_chkpts (w_shared w)) (size (sh_chkpts (w_shared w)))
                  (l_first (m_used (checkpoints (pcb_ w)))) in
    let total := foldl (λ s k, u64 (s + count_memory_used_by_checkpoint k))
                   (count_memory_used_by_main_checkpoint (w_heaps w)) used in
    (1 <? Z.of_nat (length used)) && (MAX_CHECKPOINT <? total)).

(** ** Combining *)

(** Identities for the reductions; when combining, only for register
    reductions. *)
Definition initialize_checkpoint_redux (c : Z) (combine : bool) : X unit :=
  let! infos := hv reduction_info in
  for_ infos (λ info,
    if combine && (ri_reg info =? 0) then ret tt
    else if negb (ri_depSize info =? 0) then ret tt
    else
      let! k := chk c in
      let! d := lift_merge (initialize_reductions (h_data (heap_redux k)) (redux_off (ri_au info)) info) in
      upd_chk c (λ k, set_heap_redux (with_data d (heap_redux k)) k)).

Definition initialize_partial_checkpoint (c : Z) : X unit :=
  let! n := hv sizeof_private in
  let! sn := hv sizeof_shareprivate in
  upd_chk c (λ k,
    set_c_shareshadow_highest_exclusive SHARESHADOW_ADDR
      (set_c_shareshadow_lowest_inclusive (SHARESHADOW_ADDR + Z.shiftl 1 POINTER_BITS)
        (set_heap_sharepriv (with_data (memset (h_data (heap_sharepriv k)) 0 LIVE_IN sn) (heap_sharepriv k))
          (set_heap_shareshadow
             (with_data (memset (h_data (heap_shareshadow k)) 0 LIVE_IN sn) (heap_shareshadow k))
            (set_c_shadow_highest_exclusive SHADOW_ADDR
              (set_c_shadow_lowest_inclusive (SHADOW_ADDR + Z.shiftl 1 POINTER_BITS)
                (set_heap_shadow (with_data (memset (h_data (heap_shadow k)) 0 LIVE_IN n) (heap_shadow k))
                   k))))))) ;;;
  initialize_checkpoint_redux c false.

Definition combine_private (older newer : Z) : X bool :=
  let! bad := distill_committed_private_into_partial older newer in
  when bad (upd_chk newer (set_c_type CL_Broken)) ;;;
  ret bad.
Definition combine_killprivate (older newer : Z) : X bool :=
  distill_committed_killprivate_into_partial older newer ;;; ret false.
Definition combine_shareprivate (older newer : Z) : X bool :=
  distill_committed_shareprivate_into_partial older newer ;;; ret false.
Definition combine_redux (older newer : Z) : X bool :=
  initialize_checkpoint_redux older true ;;;
  let! bad := distill_committed_redux_into_partial older newer in
  (if bad then upd_chk newer (set_c_type CL_Broken) else commit_io older) ;;;
  ret bad.

(** [||] evaluates to the first true operand. *)
Definition or_else (a b : X bool) : X bool := let! x := a in if x then ret true else b.

Definition combine_checkpoints (older newer : Z) : X bool :=
  or_else (combine_private older newer)
    (or_else (combine_killprivate older newer)
       (or_else (combine_shareprivate older newer) (combine_redux older newer))).

Definition is_complete (c : Z) : X bool :=
  if c =? 0 then ret false else let! k := chk c in ret (bool_decide (c_type k = CL_Complete)).

Definition commit_zero_or_more_checkpoints : X bool :=
  let! used := get_list Used in
  let alpha := l_first used in
  let! ac := is_complete alpha in
  if negb ac then ret false
  else
    let! ka := chk alpha in
    let beta := c_next ka in
    let! bc := is_complete beta in
    if negb bc then ret false
    else
      acquire_chk alpha ;;;
      acquire_chk beta ;;;
      let! ka := chk alpha in
      let! kb := chk beta in
      if negb (bool_decide (c_type ka = CL_Complete)) || negb (c_next ka =? beta)
         || negb (bool_decide (c_type kb = CL_Complete))
      then release_chk beta ;;; release_chk alpha ;;; ret false
      else
        upd_chk alpha (set_c_type CL_Free) ;;;
        let! bad := combine_checkpoints alpha beta in
        if bad then
          upd_chk beta (set_c_type CL_Broken) ;;;
          release_chk beta ;;;
          release_chk alpha ;;;
          let! kb := chk beta in
          misspec_at (c_iteration kb) "Misspeculation during checkpoint"
        else
          acquire_mgr ;;;
          let! used := get_list Used in
          assert_ (alpha =? l_first used) ;;;
          pop_front Used ;;;
          push_back Free alpha ;;;
          release_mgr ;;;
          release_chk beta ;;;
          release_chk alpha ;;;
          ret false.

(** ** Allocation *)

Definition sizeof_Checkpoint : Z := 2472.
Definition sizeof_ParallelControlBlock : Z := 400.

(** The iteration a worker compares with a misspeculated one. *)
Definition checkpoint_iter (a : ApiVars) : Z :=
  if runOnEveryIter a =? 0
  then i32 (u32 (current_iter_of a) - u32 (current_iter_of a) mod numWorkers a)
  else current_iter_of a.

Definition misspec_before (w : World) : bool :=
  negb (misspeculation_happened (pcb_ w) =? 0) &&
  (misspeculated_iteration (pcb_ w) <=? checkpoint_iter (w_api w)).

(** The empty event lists of a fresh object, for every worker. *)
Definition no_io : IOEvtSet :=
  foldl (λ s wid, MkIOEvtSet (<[wid := 0]> (ios_lists s)) (<[wid := 0]> (ios_num s)))
    (MkIOEvtSet ∅ ∅) (seqZ 0 MAX_WORKERS).

(** A fresh object; what is not assigned is zero in a fresh heap. *)
Definition fresh_checkpoint : Checkpoint :=
  MkCheckpoint 0 CL_Free (heap_init HEAP_SIZE PRIV_ADDR) (heap_init HEAP_SIZE KILLPRIV_ADDR)
    (heap_init HEAP_SIZE SHAREPRIV_ADDR) (heap_init HEAP_SIZE SHADOW_ADDR) (heap_init HEAP_SIZE SHADOW_ADDR)
    (heap_init HEAP_SIZE REDUX_ADDR) 0 0 0 0 0 0 (-1) 0 no_io 0 0.

(** The wait for a free object, without the lock: [Some] is the null result. *)
Definition wait_round (w : World) : World + res World bool :=
  match list_empty Free w, is_saturated w with
  | Ok e _, Ok s _ =>
      if e && s then
        if misspec_before w then inr (Ok true w)
        else match commit_zero_or_more_checkpoints w with
             | Ok _ w' => inl w'
             | Stop why w' => inr (Stop why w')
             end
      else inr (Ok false w)
  | _, _ => inr (Stop Fault w)
  end.
Definition wait_for_free : X bool :=
  λ w, match rounds 31 wait_round w with inr r => r | inl w' => Stop Spinning w' end.

Definition new_checkpoint : X Z :=
  upd_pcb (λ p, set_checkpoints
    (set_total_checkpoint_objects (u32 (total_checkpoint_objects (checkpoints p) + 1)) (checkpoints p)) p) ;;;
  let! c := alloc_meta sizeof_Checkpoint in
  upd_shared (λ s, set_sh_chkpts (<[c := fresh_checkpoint]> (sh_chkpts s)) s) ;;;
  ret c.

(** One round of [__specpriv_alloc_checkpoint]: reuse, or allocate unless there
    are too many, or wait; [None] asks for another round. *)
Definition alloc_round : X (option Z) :=
  let! e := list_empty Free in
  if negb e then
    let! c := pop_front Free in
    upd_chk c (set_c_type CL_Free) ;;; ret (Some c)
  else
    let! s := is_saturated in
    if negb s then let! c := new_checkpoint in ret (Some c)
    else
      release_mgr ;;;
      let! stop := wait_for_free in
      if stop then ret (Some 0) else acquire_mgr ;;; ret None.
Definition alloc_checkpoint : X Z :=
  λ w, match rounds 31 (λ w, match alloc_round w with
                             | Ok (Some c) w' => inr (Ok c w')
                             | Ok None w' => inl w'
                             | Stop why w' => inr (Stop why w')
                             end) w with
       | inr r => r
       | inl w' => Stop Spinning w'
       end.

(** [__specpriv_destroy_checkpoint] unlinks the heap objects. *)
Definition destroy_checkpoint (c : Z) : X unit :=
  upd_shared (λ s, set_sh_chkpts (delete c (sh_chkpts s)) s).

(** The addresses of the objects of a list. *)
Fixpoint addresses (chkpts : gmap Z Checkpoint) (n : nat) (c : Z) : list Z :=
  match n with
  | O => []
  | S n' => if c =? 0 then []
            else match chkpts !! c with Some k => c :: addresses chkpts n' (c_next k) | None => [] end
  end.
Definition destroy_checkpoint_list (q : which) : X unit :=
  let! l := get_list q in
  let! cs := gets (λ w, addresses (sh_chkpts (w_shared w)) (size (sh_chkpts (w_shared w))) (l_first l)) in
  for_ cs destroy_checkpoint ;;;
  upd_list q (λ _, MkList 0 0).

Definition destroy_checkpoint_manager : X unit :=
  let! m := gets (λ w, checkpoints (pcb_ w)) in
  assert_ (m_lock m =? 0) ;;;
  destroy_checkpoint_list Used ;;;
  destroy_checkpoint_list Free ;;;
  destroy_checkpoint (main_checkpoint m) ;;;
  upd_pcb (λ p, set_checkpoints (set_total_checkpoint_objects 0 (checkpoints p)) p).

Definition init_checkpoint_manager : X unit :=
  upd_pcb (set_checkpoints (MkManager 0 0 0 (MkList 0 0) (MkList 0 0))) ;;;
  acquire_mgr ;;;
  let! c := alloc_checkpoint in
  assert_ (negb (c =? 0)) ;;;
  upd_pcb (λ p, set_checkpoints (set_main_checkpoint c (checkpoints p)) p) ;;;
  upd_chk c (set_c_type CL_Main) ;;;
  release_mgr.

(** ** Checkpoint of a worker *)

(** The object for iteration [iter] among those in use, which are in order. *)
Fixpoint find_used (iter : Z) (chkpts : gmap Z Checkpoint) (n : nat) (c : Z) : option (option Z) :=
  match n with
  | O => Some None
  | S n' =>
      if c =? 0 then Some None
      else match chkpts !! c with
           | None => None
           | Some k => if c_iteration k =? iter then Some (Some c)
                       else if c_iteration k <? iter then find_used iter chkpts n' (c_next k)
                       else None
           end
  end.

Definition get_checkpoint_for_iter (iter : Z) : X Z :=
  acquire_mgr ;;;
  let! used := get_list Used in
  let! found := gets (λ w, find_used iter (sh_chkpts (w_shared w)) (S (size (sh_chkpts (w_shared w))))
                             (l_first used)) in
  match found with
  | None => halt AssertFail
  | Some (Some c) => release_mgr ;;; ret c
  | Some None =>
      let! c := alloc_checkpoint in
      if c =? 0 then ret 0
      else
        let! n := hv sizeof_redux in
        upd_chk c (λ k, set_redux_used n (set_c_iteration iter (set_c_type CL_Partial
                          (set_c_num_workers 0 k)))) ;;;
        push_back Used c ;;;
        release_mgr ;;;
        ret c
  end.

(** The results of the three merges are not used. *)
Definition worker_perform_checkpoint_locked (c iter : Z) : X unit :=
  let! at_ := gets w_map in
  let! k := chk c in
  let mh0 := (heap_alloc (map_at (heap_redux k) at_) (redux_used k)).2 in
  when (c_num_workers k =? 0) (initialize_partial_checkpoint c) ;;;
  distill_worker_private_into_partial c ;;;
  distill_worker_shareprivate_into_partial c ;;;
  when (iter =? LAST_ITERATION) (distill_worker_killprivate_into_partial c ;;; ret tt) ;;;
  distill_worker_redux_into_partial c ;;;
  let! mh := copy_io_to_redux c mh0 in
  upd_chk c (λ k, set_c_num_workers (u32 (c_num_workers k + 1)) (set_redux_used (u32 (heap_used mh)) k)) ;;;
  let! n := num_workers in
  upd_chk c (λ k, if n =? c_num_workers k then set_c_type CL_Complete k else k).

Definition worker_perform_checkpoint (isFinal : bool) : X unit :=
  let! main := i_am_main_process in
  assert_ (negb main) ;;;
  let! iter := av checkpoint_iter in
  let effective := if isFinal then LAST_ITERATION else iter in
  let! before := gets misspec_before in
  (if before then misspec "Something before checkpointing!" else ret tt) ;;;
  let! c := get_checkpoint_for_iter effective in
  (if c =? 0 then
     let! before := gets misspec_before in
     assert_ before ;;; misspec "Something before checkpointing!"
   else ret tt) ;;;
  acquire_chk c ;;;
  worker_perform_checkpoint_locked c effective ;;;
  release_chk c ;;;
  commit_zero_or_more_checkpoints ;;;
  modify (set_worker_last_committed c).

(** ** Adopting the checkpoints in the main process *)

(** One round of the first loop: adopt the first object if it is complete. *)
Definition adopt : X bool :=
  let! used := get_list Used in
  if l_first used =? 0 then ret false
  else
    let! k := chk (l_first used) in
    if negb (bool_decide (c_type k = CL_Complete)) then ret false
    else
      let! c := pop_front Used in
      commit_io c ;;;
      distill_committed_private_into_main c ;;;
      let! bad := gets (λ w, negb (misspeculation_happened (pcb_ w) =? 0)) in
      when (negb bad)
        (distill_committed_killprivate_into_main c ;;;
         distill_committed_shareprivate_into_main c ;;; ret tt) ;;;
      distill_committed_redux_into_main c ;;;
      let! k := chk c in
      let! mc := main_chk in
      upd_chk mc (set_c_iteration (c_iteration k)) ;;;
      upd_chk c (set_c_type CL_Free) ;;;
      push_back Free c ;;;
      ret true.

(** One round of the second: free an object. *)
Definition squash : X bool :=
  let! e := list_empty Used in
  if e then ret false
  else
    let! c := pop_front Used in
    upd_chk c (set_c_type CL_Free) ;;;
    push_back Free c ;;;
    ret true.

(** [while] loops over the objects in use; [n] bounds their number. *)
Fixpoint while_ (n : nat) (body : X bool) : X unit :=
  match n with
  | O => halt Spinning
  | S n' => let! more := body in if more then while_ n' body else ret tt
  end.

Definition distill_checkpoints_into_liveout : X unit :=
  let! main := i_am_main_process in
  assert_ main ;;;
  commit_zero_or_more_checkpoints ;;;
  let! n := gets (λ w, S (size (sh_chkpts (w_shared w)))) in
  while_ n adopt ;;;
  while_ n squash.

(** ** The control block ([pcb.c]) *)

(** [__specpriv_init_pcb]: a zero-filled block with a fresh manager. *)
Definition init_pcb : X unit :=
  alloc_meta sizeof_ParallelControlBlock ;;;
  upd_pcb (λ _, MkPcb 0 0 0 0 None 0 (MkManager 0 0 0 (MkList 0 0) (MkList 0 0)) ∅) ;;;
  init_checkpoint_manager.

(** [__specpriv_destroy_pcb]: freeing metadata does nothing. *)
Definition destroy_pcb : X unit := destroy_checkpoint_manager.

(** ** The lists as sequences

    [l] is the sequence of the addresses of the objects in a doubly linked list
    whose first object has [p] as its predecessor. *)
Fixpoint linked (cs : gmap Z Checkpoint) (p : Z) (l : list Z) : Prop :=
  match l with
  | [] => True
  | x :: l' => x ≠ 0 ∧ ∃ k, cs !! x = Some k ∧ c_prev k = p ∧ c_next k = hd 0 l' ∧ linked cs x l'
  end.

Definition list_of (q : which) (m : CheckpointManager) : CheckpointList :=
  match q with Used => m_used m | Free => m_free m end.
Definition set_list_of (q : which) (l : CheckpointList) (m : CheckpointManager) : CheckpointManager :=
  match q with Used => set_m_used l m | Free => set_m_free l m end.

Definition holds_list (cs : gmap Z Checkpoint) (ls : CheckpointList) (l : list Z) : Prop :=
  l_first ls = hd 0 l ∧ l_last ls = default 0 (last l) ∧ linked cs 0 l.

(** Both lists of the manager, which share no object. *)
Record lists (w : World) (us fs : list Z) : Prop := {
  ls_used : holds_list (sh_chkpts (w_shared w)) (m_used (checkpoints (pcb_ w))) us;
  ls_free : holds_list (sh_chkpts (w_shared w)) (m_free (checkpoints (pcb_ w))) fs;
  ls_nodup : NoDup (us ++ fs) }.

(** An object apart from its links. *)
Definition unlinked (k : Checkpoint) : Checkpoint := set_c_next 0 (set_c_prev 0 k).
(** Only links changed in the objects, and only the lists in the manager. *)
Record relinked (w w' : World) : Prop := {
  rl_objects : ∀ c, unlinked <$> sh_chkpts (w_shared w') !! c = unlinked <$> sh_chkpts (w_shared w) !! c;
  rl_frame : w' = set_w_shared (set_sh_chkpts (sh_chkpts (w_shared w')) (set_sh_pcb (pcb_ w') (w_shared w))) w;
  rl_pcb : pcb_ w' = set_checkpoints (set_m_used (m_used (checkpoints (pcb_ w')))
             (set_m_free (m_free (checkpoints (pcb_ w'))) (checkpoints (pcb_ w)))) (pcb_ w) }.

Lemma relinked_refl w : relinked w w.
Proof.
  constructor; [done| |].
  - by destruct w as [? ? ? ? ? ? ? ? []].
  - by destruct (pcb_ w) as [? ? ? ? ? ? [] ?].
Qed.

Lemma linked_frame cs cs' l : ∀ p, (∀ x, x ∈ l → cs' !! x = cs !! x) → linked cs p l → linked cs' p l.
Proof.
  induction l as [|x l IH]; intros p Hf; [done|]. intros (H0 & k & E & Hp & Hn & H).
  split; [done|]. exists k. rewrite Hf by by left. split_and!; [done..|]. apply IH; [|done]. intros y Hy. apply Hf. by right.
Qed.

(** Appending an object: it points back to the last one, which points to it. *)
Lemma linked_snoc cs cs' x l : ∀ p, linked cs p l → NoDup l → x ∉ l → x ≠ 0 →
  (∀ y, y ∈ l → last l ≠ Some y → cs' !! y = cs !! y) →
  (∀ y k, last l = Some y → cs !! y = Some k → cs' !! y = Some (set_c_next x k)) →
  (∃ k, cs' !! x = Some k ∧ c_prev k = default p (last l) ∧ c_next k = 0) →
  linked cs' p (l ++ [x]).
Proof.
  induction l as [|y l IH]; intros p Hl Hnd Hx H0 Hf Hlast (k & Ek & Hp & Hn); cbn [app linked].
  { split; [done|]. exists k. done. }
  destruct Hl as (Hy0 & ky & Ey & Hyp & Hyn & Hl). apply NoDup_cons in Hnd as [Hyl Hnd].
  split; [done|]. destruct l as [|z l].
  - exists (set_c_next x ky). split; [by apply Hlast|]. split_and!; [done|done|].
    split; [done|]. by exists k.
  - exists ky. split.
    { rewrite Hf; [done|by left|]. change (last (y :: z :: l)) with (last (z :: l)). intros E.
      apply Hyl. apply last_Some_elem_of in E. done. }
    split_and!; [done|done|]. apply (IH y); [done|done|by intros ?; apply Hx; right|done| |exact Hlast|].
    + intros v Hv. apply Hf. by right.
    + exists k. split_and!; [done| |done]. rewrite Hp. change (last (y :: z :: l)) with (last (z :: l)).
      destruct (last (z :: l)) eqn:E; [done|]. by apply last_None in E.
Qed.

(** Removing the first object: the second one has no predecessor now. *)
Lemma linked_tail cs cs' x l : linked cs 0 (x :: l) → NoDup (x :: l) →
  (∀ y k, hd_error l = Some y → cs !! y = Some k → cs' !! y = Some (set_c_prev 0 k)) →
  (∀ y, y ∈ l → hd_error l ≠ Some y → cs' !! y = cs !! y) → linked cs' 0 l.
Proof.
  intros (_ & k & _ & _ & _ & Hl) Hnd Hh Hf. destruct l as [|y l]; [done|]. destruct Hl as (Hy & ky & Ey & Hp & Hn & Hl).
  apply NoDup_cons in Hnd as [_ Hnd]. apply NoDup_cons in Hnd as [Hyl _].
  split; [done|]. exists (set_c_prev 0 ky). split; [by apply Hh|]. split_and!; [done|done|].
  eapply linked_frame; [|exact Hl]. intros z Hz. apply Hf; [by right|]. intros [= ->]. done.
Qed.

(** ** The operations on the lists *)

Definition other (q : which) : which := match q with Used => Free | Free => Used end.
Definition mgr (w : World) : CheckpointManager := checkpoints (pcb_ w).
Definition objs (w : World) : gmap Z Checkpoint := sh_chkpts (w_shared w).

(** List [q] is [l], the other one is [o]. *)
Record two_lists (q : which) (w : World) (l o : list Z) : Prop := {
  tl_this : holds_list (objs w) (list_of q (mgr w)) l;
  tl_other : holds_list (objs w) (list_of (other q) (mgr w)) o;
  tl_nodup : NoDup (l ++ o) }.

Lemma two_lists_used w us fs : two_lists Used w us fs ↔ lists w us fs.
Proof. split; intros []; by constructor. Qed.
Lemma two_lists_free w us fs : two_lists Free w fs us ↔ lists w us fs.
Proof. split; intros [A B C]; constructor; try done; by rewrite (Permutation_app_comm _ _). Qed.

Definition with_list (q : which) (ls : CheckpointList) (w : World) : World :=
  set_w_shared (set_sh_pcb (set_checkpoints (set_list_of q ls (mgr w)) (pcb_ w)) (w_shared w)) w.

Lemma get_list_run q w : get_list q w = Ok (list_of q (mgr w)) w.
Proof. by destruct q. Qed.
Lemma upd_list_run q f w : upd_list q f w = Ok tt (with_list q (f (list_of q (mgr w))) w).
Proof. by destruct q. Qed.
Lemma list_of_with q ls w : list_of q (mgr (with_list q ls w)) = ls.
Proof. by destruct q. Qed.
Lemma list_of_other q ls w : list_of (other q) (mgr (with_list q ls w)) = list_of (other q) (mgr w).
Proof. by destruct q. Qed.

(** Changing links only. *)
Definition only_links (f : Checkpoint → Checkpoint) : Prop := ∀ k, unlinked (f k) = unlinked k.

Lemma relinked_put w v c k f : relinked w v → objs v !! c = Some k → only_links f → relinked w (put_chk c (f k) v).
Proof.
  intros [A B C] E Hf. constructor; [|by rewrite B at 1|exact C]. intros d. rewrite <-A. simpl.
  destruct (decide (d = c)) as [->|Hne]; [rewrite lookup_insert_eq|by rewrite lookup_insert_ne].
  unfold objs in E. rewrite E. simpl. by rewrite Hf.
Qed.
Lemma relinked_list w v q ls : relinked w v → relinked w (with_list q ls v).
Proof.
  intros [A B C]. constructor; [exact A|by rewrite B at 1|].
  change (set_checkpoints (set_list_of q ls (mgr v)) (pcb_ v) =
    set_checkpoints (set_m_used (m_used (set_list_of q ls (mgr v)))
      (set_m_free (m_free (set_list_of q ls (mgr v))) (mgr w))) (pcb_ w)).
  unfold mgr. rewrite C. by destruct q.
Qed.

Lemma linked_lookup cs p l x : linked cs p l → x ∈ l → ∃ k, cs !! x = Some k ∧ x ≠ 0.
Proof.
  revert p. induction l as [|y l IH]; intros p; [by intros _ ?%elem_of_nil|].
  intros (H0 & k & E & _ & _ & H) [->|Hx]%elem_of_cons; [by exists k|by eapply IH].
Qed.

Lemma pop_front_run q w x l o : two_lists q w (x :: l) o →
  ∃ w', pop_front q w = Ok x w' ∧ two_lists q w' l o ∧ relinked w w'.
Proof.
  intros [(Hf & Hla & Hl) [Ho1 [Ho2 Ho3]] Hnd]. pose proof Hl as (Hx0 & k & Ek & _ & Hn & Hl').
  assert (NoDup (x :: l) ∧ (x ∉ o) ∧ (∀ y, y ∈ l → y ∉ o)) as (Hnd1 & Hxo & Hdis).
  { apply NoDup_app in Hnd as (H1 & H2 & _). split; [done|]. split; [apply H2; by left|]. intros y Hy. apply H2. by right. }
  pose proof Hnd1 as [Hxl Hnd2]%NoDup_cons. unfold pop_front. rewrite (bind_run _ _ _ _ _ (get_list_run q w)). cbv zeta.
  rewrite Hf. cbn [hd]. rewrite (proj2 (Z.eqb_neq _ _) Hx0). rewrite (bind_run (assert_ _) _ w tt w) by done.
  rewrite (bind_run _ _ _ _ _ (chk_run x w k Ek)). rewrite (bind_run _ _ _ _ _ (upd_list_run q _ w)).
  set (w1 := with_list q _ w). destruct l as [|y l]; cbn [hd] in Hn; rewrite Hn.
  - change (negb (0 =? 0)) with false. cbv iota.
    rewrite (bind_run _ _ _ _ _ (upd_list_run q _ w1)). set (w2 := with_list q _ w1).
    rewrite (bind_run _ _ _ _ _ (upd_chk_run x _ w2 k Ek)). eexists. split; [reflexivity|]. split.
    + constructor.
      * change (mgr (put_chk x _ w2)) with (mgr w2). unfold w2. rewrite list_of_with. unfold w1. by rewrite list_of_with.
      * change (mgr (put_chk x _ w2)) with (mgr w2). unfold w2, w1. rewrite !list_of_other. split_and!; [done|done|].
        eapply linked_frame; [|exact Ho3]. intros z Hz. unfold objs. simpl. rewrite lookup_insert_ne; [done|]. by intros ->.
      * apply NoDup_app in Hnd as (_ & _ & ?). done.
    + apply (relinked_put _ _ _ _ (λ k, set_c_next 0 (set_c_prev 0 k))); [|done|done]. apply relinked_list, relinked_list, relinked_refl.
  - destruct Hl' as (Hy0 & ky & Ey & _). assert (x ≠ y) as Hxy by (intros ->; apply Hxl; by left).
    rewrite (proj2 (Z.eqb_neq _ _) Hy0). cbn [negb].
    rewrite (bind_run _ _ _ _ _ (upd_chk_run y _ w1 ky Ey)). set (w2 := put_chk y _ w1).
    assert (sh_chkpts (w_shared w2) !! x = Some k) as Ek2 by (simpl; by rewrite lookup_insert_ne).
    rewrite (bind_run _ _ _ _ _ (upd_chk_run x _ w2 k Ek2)). eexists. split; [reflexivity|].
    set (w3 := put_chk x _ w2).
    assert (∀ z, z ≠ x → z ≠ y → objs w3 !! z = objs w !! z) as Hfr.
    { intros z Hzx Hzy. unfold objs, w3, w2. simpl. by rewrite !lookup_insert_ne by congruence. }
    split.
    + constructor.
      * change (mgr w3) with (mgr w1). unfold w1. rewrite list_of_with. split_and!; [done| |].
        { simpl. rewrite Hla. simpl. done. }
        eapply linked_tail; [exact Hl|done| |].
        -- intros z kz [= <-] Ez. unfold objs, w3, w2. simpl. rewrite lookup_insert_ne, lookup_insert_eq by done. congruence.
        -- intros z Hz Hne. apply Hfr; [by intros ->|]. intros ->. by apply Hne.
      * change (mgr w3) with (mgr w1). unfold w1. rewrite list_of_other. split_and!; [done|done|].
        eapply linked_frame; [|exact Ho3]. intros z Hz. apply Hfr; [by intros ->|]. intros ->. eapply Hdis; [by left|done].
      * by apply NoDup_app in Hnd as ([_ ?]%NoDup_cons & H2 & H3); apply NoDup_app; split_and!; [|intros z Hz; apply H2; by right|].
    + apply (relinked_put _ _ _ _ (λ k, set_c_next 0 (set_c_prev 0 k))); [|done|done].
      apply (relinked_put _ _ _ _ (set_c_prev 0)); [|done|done]. apply relinked_list, relinked_refl.
Qed.

(** The objects after [x] was appended to [l]. *)
Lemma push_linked q w v x l o k1 : two_lists q w l o → x ≠ 0 → x ∉ l ++ o →
  (∀ z, z ≠ x → last l ≠ Some z → objs v !! z = objs w !! z) →
  (∀ y k, last l = Some y → objs w !! y = Some k → objs v !! y = Some (set_c_next x k)) →
  objs v !! x = Some k1 → c_prev k1 = default 0 (last l) → c_next k1 = 0 →
  linked (objs v) 0 (l ++ [x]) ∧ linked (objs v) 0 o ∧ NoDup ((l ++ [x]) ++ o).
Proof.
  intros [(_ & _ & Hl) (_ & _ & Ho) Hnd] H0 Hx Hf Hlast E Hp Hn. rewrite elem_of_app in Hx.
  apply NoDup_app in Hnd as (N1 & N2 & N3). split_and!.
  - eapply linked_snoc; [exact Hl|done|tauto|done| |done|by exists k1].
    intros y Hy Hne. apply Hf; [|done]. intros ->. tauto.
  - eapply linked_frame; [|exact Ho]. intros z Hz. apply Hf; [intros ->; tauto|].
    intros Hlz. apply (N2 z); [|done]. by apply last_Some_elem_of.
  - rewrite <-app_assoc. apply NoDup_app. split; [done|]. split.
    + intros z Hz [->|Hz']%elem_of_cons; [tauto|by apply (N2 z)].
    + apply NoDup_cons. tauto.
Qed.

Lemma last_nonzero cs p l y : linked cs p l → last l = Some y → y ≠ 0 ∧ ∃ k, cs !! y = Some k.
Proof. intros Hl Hy%last_Some_elem_of. destruct (linked_lookup _ _ _ _ Hl Hy) as (k & ? & ?). eauto. Qed.

Lemma hd_snoc (l : list Z) x : hd 0 (l ++ [x]) = hd x l.
Proof. by destruct l. Qed.

Lemma push_back_run q w x l o k : two_lists q w l o → objs w !! x = Some k → x ≠ 0 → x ∉ l ++ o →
  ∃ w', push_back q x w = Ok tt w' ∧ two_lists q w' (l ++ [x]) o ∧ relinked w w'.
Proof.
  intros T Ek H0 Hx. pose proof T as [(Hfi & Hla & Hl) (Ho1 & Ho2 & Ho3) Hnd]. unfold push_back.
  rewrite (bind_run _ _ _ _ _ (upd_chk_run x _ w k Ek)). set (w1 := put_chk x (set_c_next 0 k) w).
  rewrite (bind_run _ _ _ _ _ (get_list_run q w1)). change (list_of q (mgr w1)) with (list_of q (mgr w)).
  rewrite (bind_run _ _ _ _ _ (upd_chk_run x _ w1 _ (put_chk_lookup _ _ _))).
  unfold w1. rewrite put_chk_put. clear w1. set (k1 := set_c_prev _ _). set (w2 := put_chk x k1 w).
  assert (relinked w w2) as R2.
  { apply (relinked_put w w x k (λ k, set_c_prev (l_last (list_of q (mgr w))) (set_c_next 0 k))); [apply relinked_refl|done|done]. }
  assert (∃ w3, when (negb (l_last (list_of q (mgr w)) =? 0)) (upd_chk (l_last (list_of q (mgr w))) (set_c_next x)) w2 = Ok tt w3 ∧
    relinked w w3 ∧ mgr w3 = mgr w ∧ objs w3 !! x = Some k1 ∧
    (∀ z, z ≠ x → last l ≠ Some z → objs w3 !! z = objs w !! z) ∧
    (∀ y k, last l = Some y → objs w !! y = Some k → objs w3 !! y = Some (set_c_next x k))) as (w3 & E3 & R3 & M3 & X3 & F3 & L3).
  { rewrite Hla. destruct (last l) as [y|] eqn:Ey; cbn [from_option id].
    - destruct (last_nonzero _ _ _ _ Hl Ey) as (Hy0 & ky & Eky).
      assert (x ≠ y) as Hxy by (intros ->; apply Hx, elem_of_app; left; by apply last_Some_elem_of).
      assert (sh_chkpts (w_shared w2) !! y = Some ky) as Eky2 by (simpl; by rewrite lookup_insert_ne).
      rewrite (proj2 (Z.eqb_neq _ _) Hy0). cbn [negb when]. rewrite (upd_chk_run y _ w2 ky Eky2).
      eexists. split; [reflexivity|]. split; [by apply relinked_put|]. split; [done|]. unfold objs. simpl. split_and!.
      + by rewrite lookup_insert_ne, lookup_insert_eq by congruence.
      + intros z Hz Hne. by rewrite !lookup_insert_ne by congruence.
      + intros z kz [= <-] Ez. rewrite lookup_insert_eq. unfold objs in Ez, Eky. congruence.
    - exists w2. split; [done|]. split; [done|]. split; [done|]. unfold objs. simpl. split_and!.
      + apply lookup_insert_eq.
      + intros z Hz _. by rewrite lookup_insert_ne by congruence.
      + done. }
  rewrite (bind_run _ _ _ _ _ E3), (bind_run _ _ _ _ _ (upd_list_run q _ w3)). set (w4 := with_list q _ w3).
  rewrite (bind_run _ _ _ _ _ (get_list_run q w4)). unfold w4 at 1. rewrite list_of_with.
  set (ls := set_l_last x (list_of q (mgr w3))) in *.
  assert (∃ ls', when (l_first ls =? 0) (upd_list q (set_l_first x)) w4 = Ok tt (with_list q ls' w3) ∧
    l_first ls' = hd 0 (l ++ [x]) ∧ l_last ls' = x) as (ls' & E5 & Hf5 & Hl5).
  { unfold ls. cbn [set_l_last l_first]. rewrite M3, Hfi. rewrite hd_snoc. destruct l as [|z l]; cbn [hd].
    - change (0 =? 0) with true. cbn [when]. exists (set_l_first x ls). rewrite upd_list_run. unfold w4. rewrite list_of_with.
      split; [|done]. f_equal. by destruct q.
    - destruct Hl as (Hz0 & _). rewrite (proj2 (Z.eqb_neq _ _) Hz0). exists ls. split; [done|]. split; [|done].
      unfold ls. simpl. rewrite M3, Hfi. done. }
  exists (with_list q ls' w3). split; [exact E5|].
  destruct (push_linked q w w3 x l o k1 T H0 Hx F3 L3 X3) as (P1 & P2 & P3); [simpl; by rewrite Hla|done|].
  split; [|by apply relinked_list]. constructor; [| |done].
  - rewrite list_of_with. split; [done|]. split; [by rewrite last_snoc|done].
  - rewrite list_of_other, M3. done.
Qed.

(** ** Freeing what is left *)

(** An object is marked free. *)
Lemma lists_mark q w l o c k f : two_lists q w l o → objs w !! c = Some k →
  c_prev (f k) = c_prev k → c_next (f k) = c_next k → two_lists q (put_chk c (f k) w) l o.
Proof.
  intros [(A1 & A2 & A3) (B1 & B2 & B3) N] E Hp Hn.
  assert (∀ l p, linked (objs w) p l → linked (objs (put_chk c (f k) w)) p l) as H.
  { clear -E Hp Hn. induction l as [|x l IH]; intros p; [done|]. intros (H0 & kx & Ex & Hxp & Hxn & Hl).
    split; [done|]. unfold objs. simpl. destruct (decide (x = c)) as [->|Hne].
    - exists (f k). rewrite lookup_insert_eq. assert (kx = k) as -> by congruence. split_and!; [done|congruence|congruence|by apply IH].
    - exists kx. rewrite lookup_insert_ne by done. split_and!; [done..|by apply IH]. }
  constructor; [|split_and!; auto..|done]; [split_and!; auto].
Qed.

(** One round frees the first object in use. *)
Lemma squash_run w c us fs : lists w (c :: us) fs →
  ∃ w' k, squash w = Ok true w' ∧ lists w' us (fs ++ [c]) ∧ objs w' !! c = Some k ∧ c_type k = CL_Free ∧
    (∀ d, d ≠ c → unlinked <$> objs w' !! d = unlinked <$> objs w !! d).
Proof.
  intros T%two_lists_used. pose proof T as [(Hf & _ & Hl) _ Hnd]. unfold squash.
  destruct (linked_lookup _ _ _ c Hl) as (k & Ek & H0); [by left|].
  rewrite (bind_run _ _ w false w).
  2:{ unfold list_empty. rewrite (bind_run _ _ _ _ _ (get_list_run Used w)), Hf. cbn [hd]. by rewrite (proj2 (Z.eqb_neq _ _) H0). }
  destruct (pop_front_run Used w c us fs T) as (w1 & E1 & T1 & R1). rewrite (bind_run _ _ _ _ _ E1).
  assert (∃ k1, objs w1 !! c = Some k1) as (k1 & Ek1).
  { pose proof (rl_objects _ _ R1 c) as H. unfold objs in *. rewrite Ek in H. destruct (sh_chkpts (w_shared w1) !! c); [by eexists|done]. }
  rewrite (bind_run _ _ _ _ _ (upd_chk_run c _ w1 k1 Ek1)).
  apply (lists_mark _ _ _ _ c k1 (set_c_type CL_Free)) in T1; [|done..]. apply two_lists_used, two_lists_free in T1.
  destruct (push_back_run Free _ c fs us (set_c_type CL_Free k1) T1) as (w3 & E3 & T3 & R3);
    [apply put_chk_lookup|done| |].
  { apply NoDup_cons in Hnd as [Hc _]. rewrite elem_of_app in Hc |- *. tauto. }
  rewrite (bind_run _ _ _ _ _ E3). pose proof (rl_objects _ _ R3 c) as H3. simpl in H3. rewrite lookup_insert_eq in H3.
  destruct (sh_chkpts (w_shared w3) !! c) as [k3|] eqn:E3c; [|done]. apply (inj Some) in H3.
  exists w3, k3. split; [done|]. split; [by apply two_lists_free|]. split; [done|]. split.
  - change (c_type (unlinked k3) = CL_Free). rewrite H3. done.
  - intros d Hd. unfold objs. rewrite (rl_objects _ _ R3 d). simpl. rewrite lookup_insert_ne by done. apply R1.
Qed.

Lemma squash_all us : ∀ w fs n, lists w us fs → (length us < n)%nat →
  ∃ w', while_ n squash w = Ok tt w' ∧ lists w' [] (fs ++ us) ∧
    (∀ c, c ∈ us → ∃ k, objs w' !! c = Some k ∧ c_type k = CL_Free) ∧
    (∀ d, d ∉ us → unlinked <$> objs w' !! d = unlinked <$> objs w !! d).
Proof.
  induction us as [|c us IH]; intros w fs n T Hn; (destruct n as [|n]; [simpl in Hn; lia|]); cbn [while_].
  - rewrite (bind_run _ _ w false w).
    2:{ unfold squash. rewrite (bind_run _ _ w true w); [done|]. unfold list_empty.
        rewrite (bind_run _ _ _ _ _ (get_list_run Used w)). cbn [list_of]. change (mgr w) with (checkpoints (pcb_ w)).
        destruct T as [(-> & _) _ _]. done. }
    exists w. rewrite app_nil_r. split_and!; [done|done|by intros c ?%elem_of_nil|done].
  - destruct (squash_run w c us fs T) as (w1 & k & E & T1 & Ek & Hk & Hf). rewrite (bind_run _ _ _ _ _ E).
    destruct (IH w1 (fs ++ [c]) n T1) as (w' & E' & T' & Hin & Hout); [simpl in Hn; lia|].
    exists w'. rewrite <-app_assoc in T'. split_and!; [done|done| |].
    + intros d [->|Hd]%elem_of_cons; [|by apply Hin]. destruct (decide (c ∈ us)) as [|Hc]; [by apply Hin|].
      specialize (Hout c Hc). rewrite Ek in Hout. destruct (objs w' !! c) as [k'|]; [|done].
      apply (inj Some) in Hout. exists k'. split; [done|]. change (c_type (unlinked k') = CL_Free). by rewrite Hout.
    + intros d [Hdc Hd]%not_elem_of_cons. rewrite Hout by done. by apply Hf.
Qed.

(** The number of objects bounds the length of a list of them. *)
Lemma lists_size w us fs : lists w us fs → (length (us ++ fs) ≤ size (objs w))%nat.
Proof.
  intros [(_ & _ & A) (_ & _ & B) N]. rewrite <-(size_list_to_set (C := gset Z)) by done.
  rewrite <-size_dom. apply subseteq_size. intros x [Hx|Hx]%elem_of_list_to_set%elem_of_app; apply elem_of_dom;
    [destruct (linked_lookup _ _ _ _ A Hx) as (k & E & _)|destruct (linked_lookup _ _ _ _ B Hx) as (k & E & _)]; by exists k.
Qed.

(** ** Properties *)

Lemma relinked_trans w w1 w2 : relinked w w1 → relinked w1 w2 → relinked w w2.
Proof.
  intros [A1 B1 C1] [A2 B2 C2]. constructor.
  - intros c. by rewrite A2.
  - etransitivity; [exact B2|]. by rewrite B1.
  - etransitivity; [exact C2|]. by rewrite C1.
Qed.

(** The two lists as a pair of sequences, and their operations. *)
Inductive list_op : Type := Pop (q : which) | Push (q : which) (x : Z).

Definition spec_op (op : list_op) (s : list Z * list Z) : option (Z * (list Z * list Z)) :=
  match op, s with
  | Pop Used, (x :: us, fs) => Some (x, (us, fs))
  | Pop Free, (us, x :: fs) => Some (x, (us, fs))
  | Push q x, (us, fs) =>
      if decide (x = 0 ∨ x ∈ us ++ fs) then None
      else Some (0, match q with Used => (us ++ [x], fs) | Free => (us, fs ++ [x]) end)
  | _, _ => None
  end.
Fixpoint spec_ops (ops : list list_op) (s : list Z * list Z) : option (list Z * (list Z * list Z)) :=
  match ops with
  | [] => Some ([], s)
  | op :: ops' =>
      match spec_op op s with
      | Some (r, s1) => match spec_ops ops' s1 with Some (rs, s2) => Some (r :: rs, s2) | None => None end
      | None => None
      end
  end.

(** The code. *)
Definition run_op (op : list_op) : X Z :=
  match op with Pop q => pop_front q | Push q x => push_back q x ;;; ret 0 end.
Fixpoint run_ops (ops : list list_op) : X (list Z) :=
  match ops with
  | [] => ret []
  | op :: ops' => let! r := run_op op in let! rs := run_ops ops' in ret (r :: rs)
  end.
Definition pushes (op : list_op) (x : Z) : Prop := match op with Push _ y => x = y | Pop _ => False end.

Lemma run_op_refines op w us fs r us' fs' : lists w us fs → (∀ x, pushes op x → is_Some (objs w !! x)) →
  spec_op op (us, fs) = Some (r, (us', fs')) →
  ∃ w', run_op op w = Ok r w' ∧ lists w' us' fs' ∧ relinked w w'.
Proof.
  intros T Hx H. destruct op as [q|q x]; cbn [run_op spec_op] in *.
  - destruct q; [destruct us as [|x us]; [done|]|destruct fs as [|x fs]; [done|]]; injection H as <- <- <-.
    + apply two_lists_used in T. destruct (pop_front_run _ _ _ _ _ T) as (w' & E & T' & R).
      exists w'. split; [done|]. by rewrite two_lists_used in T'.
    + apply two_lists_free in T. destruct (pop_front_run _ _ _ _ _ T) as (w' & E & T' & R).
      exists w'. split; [done|]. by rewrite two_lists_free in T'.
  - destruct (decide _) as [|Hn]; [done|]. destruct (Hx x eq_refl) as [k Ek].
    assert (x ≠ 0 ∧ (x ∉ us ++ fs) ∧ (x ∉ fs ++ us)) as (H0 & Hu & Hf) by (rewrite !elem_of_app in *; tauto).
    destruct q; injection H as <- <- <-.
    + apply two_lists_used in T. destruct (push_back_run _ _ x _ _ k T Ek H0 Hu) as (w' & E & T' & R).
      exists w'. rewrite (bind_run _ _ _ _ _ E). by rewrite two_lists_used in T'.
    + apply two_lists_free in T. destruct (push_back_run _ _ x _ _ k T Ek H0 Hf) as (w' & E & T' & R).
      exists w'. rewrite (bind_run _ _ _ _ _ E). by rewrite two_lists_free in T'.
Qed.

Lemma relinked_objects w w' x : relinked w w' → is_Some (objs w !! x) → is_Some (objs w' !! x).
Proof.
  intros R [k E]. pose proof (rl_objects _ _ R x) as H. unfold objs in *. rewrite E in H.
  by destruct (sh_chkpts (w_shared w') !! x).
Qed.

(** [C20] The lists of the checkpoint manager are two sequences: any run of
    [pop_front] and [push_back] on them, started from linked lists that hold
    [us] and [fs], returns what taking the first and appending give, and leaves
    linked lists that hold the sequences those give; nothing but the links of
    the objects and the ends of the lists changes. *)
Theorem checkpoint_lists_refine ops : ∀ w us fs rs us' fs', lists w us fs →
  (∀ op x, op ∈ ops → pushes op x → is_Some (sh_chkpts (w_shared w) !! x)) →
  spec_ops ops (us, fs) = Some (rs, (us', fs')) →
  ∃ w', run_ops ops w = Ok rs w' ∧ lists w' us' fs' ∧ relinked w w'.
Proof.
  induction ops as [|op ops IH]; intros w us fs rs us' fs' T Hx; cbn [run_ops spec_ops].
  - intros [= <- <- <-]. exists w. split_and!; [done|done|apply relinked_refl].
  - destruct (spec_op op (us, fs)) as [[r [us1 fs1]]|] eqn:E1; [|done].
    destruct (spec_ops ops (us1, fs1)) as [[rs1 [us2 fs2]]|] eqn:E2; [|done]. intros [= <- <- <-].
    destruct (run_op_refines op w us fs r us1 fs1 T) as (w1 & R1 & T1 & L1); [intros x; apply Hx; by left|done|].
    destruct (IH w1 us1 fs1 rs1 us2 fs2 T1) as (w2 & R2 & T2 & L2); [|done|].
    { intros o x Ho Hp. eapply (relinked_objects w); [done|]. apply (Hx o); [by right|done]. }
    exists w2. rewrite (bind_run _ _ _ _ _ R1), (bind_run _ _ _ _ _ R2). split_and!; [done|done|by eapply relinked_trans].
Qed.

(** Two objects in use and one free. *)
Definition demo_obj (prev next : Z) : Checkpoint := set_c_next next (set_c_prev prev fresh_checkpoint).
Definition demo_lists : World :=
  set_w_shared (set_sh_pcb (set_checkpoints (MkManager 0 3 0 (MkList 100 200) (MkList 300 300)) (pcb_ blank))
    (set_sh_chkpts {[100 := demo_obj 0 200; 200 := demo_obj 100 0; 300 := demo_obj 0 0]} (w_shared blank))) blank.
Lemma demo_lists_ok : lists demo_lists [100; 200] [300].
Proof.
  constructor.
  - split_and!; [done|done|]. split; [done|]. exists (demo_obj 0 200). split_and!; [by vm_compute|done|done|].
    split; [done|]. exists (demo_obj 100 0). by split_and!; [vm_compute| | |].
  - split_and!; [done|done|]. split; [done|]. exists (demo_obj 0 0). by split_and!; [vm_compute| | |].
  - apply (bool_decide_unpack _). by vm_compute.
Qed.

Lemma checkpoint_lists_refine_witness :
  ∃ w', run_ops [Pop Used; Push Free 100; Pop Free; Push Used 300] demo_lists = Ok [100; 0; 300; 0] w' ∧
    lists w' [200; 300] [100] ∧ relinked demo_lists w'.
Proof.
  apply (checkpoint_lists_refine [Pop Used; Push Free 100; Pop Free; Push Used 300] demo_lists [100; 200] [300]).
  - exact demo_lists_ok.
  - intros op x Ho Hp. rewrite !elem_of_cons in Ho.
    destruct Ho as [->|[->|[->|[->|[]%elem_of_nil]]]]; simpl in Hp; subst; try contradiction; vm_compute; by eexists.
  - reflexivity.
Defined.

(** [C21] The loop that frees the checkpoints that were not adopted terminates:
    as many rounds as there are objects are enough; it leaves no object in use,
    all of them are at the end of the free list in their order and marked free,
    and the others are as they were. *)
Theorem squash_terminates w us fs : lists w us fs →
  ∃ w', while_ (S (size (sh_chkpts (w_shared w)))) squash w = Ok tt w' ∧ lists w' [] (fs ++ us) ∧
    (∀ c, c ∈ us → ∃ k, sh_chkpts (w_shared w') !! c = Some k ∧ c_type k = CL_Free) ∧
    (∀ d, d ∉ us → unlinked <$> sh_chkpts (w_shared w') !! d = unlinked <$> sh_chkpts (w_shared w) !! d).
Proof.
  intros T. apply squash_all; [done|]. pose proof (lists_size w us fs T) as H. rewrite length_app in H. unfold objs in H. lia.
Qed.

Lemma squash_terminates_witness :
  ∃ w', while_ (S (size (sh_chkpts (w_shared demo_lists)))) squash demo_lists = Ok tt w' ∧ lists w' [] [300; 100; 200].
Proof.
  destruct (squash_terminates demo_lists [100; 200] [300] demo_lists_ok) as (w' & E & T & _).
  exists w'. split; [exact E|exact T].
Defined.

(** ** The checkpoint of an iteration *)

Definition iter_of (w : World) (c : Z) : Z := from_option c_iteration 0 (objs w !! c).
(** The objects in use are in the order of their iterations. *)
Definition ordered (w : World) (us : list Z) : Prop := StronglySorted (λ a b, iter_of w a < iter_of w b) us.

Lemma ordered_ext w w' us : (∀ c, c ∈ us → iter_of w' c = iter_of w c) → ordered w us → ordered w' us.
Proof.
  intros He. induction 1 as [|c us Hs IH Hc]; [constructor|]. constructor; [apply IH; intros d Hd; apply He; by right|].
  rewrite Forall_forall in Hc |- *. intros d Hd. rewrite !He by (by left || by right). by apply Hc.
Qed.
Lemma ordered_snoc w us x : ordered w us → (∀ c, c ∈ us → iter_of w c < iter_of w x) → ordered w (us ++ [x]).
Proof.
  induction 1 as [|c us Hs IH Hc]; intros Hx; [by repeat constructor|]. cbn [app]. constructor; [apply IH; intros d Hd; apply Hx; by right|].
  apply Forall_app. split; [done|]. constructor; [|constructor]. apply Hx. by left.
Qed.
Lemma relinked_iter w w' c : relinked w w' → iter_of w' c = iter_of w c.
Proof.
  intros R. pose proof (rl_objects _ _ R c) as H. unfold iter_of, objs.
  destruct (sh_chkpts (w_shared w') !! c) as [k'|], (sh_chkpts (w_shared w) !! c) as [k|]; simpl in *; try done.
  apply (inj Some) in H. change (c_iteration (unlinked k') = c_iteration (unlinked k)). by rewrite H.
Qed.

(** The search among the objects in use. *)
Lemma find_used_hit w iter us c : ∀ p n, linked (objs w) p us → ordered w us → c ∈ us → iter_of w c = iter →
  (length us ≤ n)%nat → find_used iter (objs w) n (hd 0 us) = Some (Some c).
Proof.
  induction us as [|x us IH]; intros p n Hl Ho Hc Hi Hn; [by apply elem_of_nil in Hc|].
  destruct n as [|n]; [simpl in Hn; lia|]. destruct Hl as (H0 & k & Ek & _ & Hnx & Hl). cbn [find_used hd].
  rewrite (proj2 (Z.eqb_neq _ _) H0), Ek, Hnx. inversion Ho as [|? ? Ho' Hx]; subst.
  assert (iter_of w x = c_iteration k) as Ex by (unfold iter_of; by rewrite Ek).
  apply elem_of_cons in Hc as [->|Hc]; [by rewrite Ex, Z.eqb_refl|].
  rewrite Forall_forall in Hx. specialize (Hx c Hc). rewrite Ex in Hx.
  rewrite (proj2 (Z.eqb_neq _ _)) by lia. rewrite (proj2 (Z.ltb_lt _ _)) by done.
  apply (IH x); [done|done|done|done|simpl in Hn; lia].
Qed.
Lemma find_used_miss w iter us : ∀ p n, linked (objs w) p us → (∀ c, c ∈ us → iter_of w c < iter) →
  (length us < n)%nat → find_used iter (objs w) n (hd 0 us) = Some None.
Proof.
  induction us as [|x us IH]; intros p n Hl Hi Hn; (destruct n as [|n]; [simpl in Hn; lia|]); [done|].
  destruct Hl as (H0 & k & Ek & _ & Hnx & Hl). cbn [find_used hd].
  rewrite (proj2 (Z.eqb_neq _ _) H0), Ek, Hnx.
  assert (c_iteration k < iter) by (specialize (Hi x ltac:(by left)); unfold iter_of in Hi; by rewrite Ek in Hi).
  rewrite (proj2 (Z.eqb_neq _ _)) by lia. rewrite (proj2 (Z.ltb_lt _ _)) by done.
  apply (IH x); [done|intros c Hc; apply Hi; by right|simpl in Hn; lia].
Qed.

(** The lock of the manager. *)
Definition with_lock (v : Z) (w : World) : World :=
  set_w_shared (set_sh_pcb (set_checkpoints (set_m_lock v (mgr w)) (pcb_ w)) (w_shared w)) w.
Lemma lists_lock v w us fs : lists w us fs → lists (with_lock v w) us fs.
Proof. by intros []. Qed.

(** There is a free object, or another one may be made at a fresh address. *)
Definition room (w : World) (fs : list Z) : Prop :=
  fs ≠ [] ∨ is_saturated w = Ok false w ∧ sh_meta_next (w_shared w) ≠ 0 ∧ objs w !! sh_meta_next (w_shared w) = None.

Lemma alloc_checkpoint_run w us fs : lists w us fs → room w fs →
  ∃ c w' fs' k, alloc_checkpoint w = Ok c w' ∧ lists w' us fs' ∧ m_lock (mgr w') = m_lock (mgr w) ∧
    objs w' !! c = Some k ∧ c ≠ 0 ∧ (c ∉ us ++ fs') ∧ (∀ d, d ∈ us → iter_of w' d = iter_of w d).
Proof.
  intros T Hr. unfold alloc_checkpoint.
  assert (∃ c w' fs' k, alloc_round w = Ok (Some c) w' ∧ lists w' us fs' ∧ m_lock (mgr w') = m_lock (mgr w) ∧
    objs w' !! c = Some k ∧ c ≠ 0 ∧ (c ∉ us ++ fs') ∧ (∀ d, d ∈ us → iter_of w' d = iter_of w d)) as (c & w' & fs' & k & E & H).
  2:{ exists c, w', fs', k. split; [|exact H]. erewrite rounds_now; [reflexivity|]. cbn beta. by rewrite E. }
  unfold alloc_round. pose proof T as [[_ [_ Tu]] (Hf & _ & Tf) Hnd].
  destruct fs as [|x fs].
  - destruct Hr as [|(Hsat & Hm0 & Hm)]; [done|].
    rewrite (bind_run _ _ w true w).
    2:{ unfold list_empty. rewrite (bind_run _ _ _ _ _ (get_list_run Free w)). cbn [list_of]. unfold mgr. by rewrite Hf. }
    cbn [negb]. rewrite (bind_run _ _ _ _ _ Hsat). cbn [negb].
    eexists (sh_meta_next (w_shared w)), _, [], _. split; [reflexivity|].
    set (a := sh_meta_next (w_shared w)) in *. unfold objs in Hm.
    assert (∀ d, d ∈ us → d ≠ a) as Hda.
    { intros d Hd ->. destruct (linked_lookup _ _ _ _ Tu Hd) as (k & Ek & _). congruence. }
    split_and!; [|done|apply lookup_insert_eq|done| |].
    + destruct T as [(A1 & A2 & A3) (B1 & B2 & B3) _]. constructor; [|by split_and!|done]. split; [done|]. split; [done|].
      simpl. eapply linked_frame; [|exact A3]. intros d Hd. by rewrite lookup_insert_ne by (symmetry; by apply Hda).
    + rewrite app_nil_r. intros Ha. by eapply Hda.
    + intros d Hd. unfold iter_of, objs. simpl. by rewrite lookup_insert_ne by (symmetry; by apply Hda).
  - pose proof Tf as (Hx0 & _). rewrite (bind_run _ _ w false w).
    2:{ unfold list_empty. rewrite (bind_run _ _ _ _ _ (get_list_run Free w)). cbn [list_of]. unfold mgr. rewrite Hf. cbn [hd].
        by rewrite (proj2 (Z.eqb_neq _ _) Hx0). }
    cbn [negb]. apply two_lists_free in T. destruct (pop_front_run Free w x fs us T) as (w1 & E1 & T1 & R1).
    rewrite (bind_run _ _ _ _ _ E1). destruct Tf as (_ & k0 & Ek0 & _).
    destruct (relinked_objects _ _ x R1) as [k1 Ek1]; [by exists k0|].
    rewrite (bind_run _ _ _ _ _ (upd_chk_run x _ w1 k1 Ek1)).
    apply (lists_mark _ _ _ _ x k1 (set_c_type CL_Free)) in T1; [|done..].
    assert (x ∉ us) as Hxu.
    { intros Hxu. apply NoDup_app in Hnd as (_ & N & _). apply (N x Hxu). by left. }
    eexists x, _, fs, _. split; [reflexivity|]. split; [by apply two_lists_free|]. split; [|split; [apply put_chk_lookup|]].
    + change (m_lock (mgr w1) = m_lock (mgr w)). unfold mgr. by rewrite (rl_pcb _ _ R1).
    + split; [done|]. split.
      * rewrite elem_of_app. intros [?|?]; [done|]. apply NoDup_app in Hnd as (_ & _ & [? _]%NoDup_cons). done.
      * intros d Hd. rewrite <-(relinked_iter _ _ d R1). unfold iter_of, objs. simpl. rewrite lookup_insert_ne; [done|]. by intros ->.
Qed.

(** Entering a free object at the end of the list, before the manager is
    unlocked. *)
Lemma enter_checkpoint_run w us fs c k iter : lists w us fs → objs w !! c = Some k → c ≠ 0 → (c ∉ us ++ fs) →
  ∃ w' k', (upd_chk c (λ k, set_redux_used (sizeof_redux (w_heaps w)) (set_c_iteration iter (set_c_type CL_Partial
              (set_c_num_workers 0 k)))) ;;; push_back Used c) w = Ok tt w' ∧
    lists w' (us ++ [c]) fs ∧ m_lock (mgr w') = m_lock (mgr w) ∧
    objs w' !! c = Some k' ∧ c_iteration k' = iter ∧ c_type k' = CL_Partial ∧ c_num_workers k' = 0 ∧
    ∀ d, d ∈ us → iter_of w' d = iter_of w d.
Proof.
  intros T Ek H0 Hc. rewrite (bind_run _ _ _ _ _ (upd_chk_run c _ w k Ek)).
  set (f := λ k : Checkpoint, set_redux_used (sizeof_redux (w_heaps w)) (set_c_iteration iter (set_c_type CL_Partial (set_c_num_workers 0 k)))).
  apply two_lists_used in T. apply (lists_mark _ _ _ _ c k f) in T; [|done..].
  set (w3 := put_chk c (f k) w) in *.
  destruct (push_back_run Used w3 c us fs (f k) T) as (w4 & E4 & T4 & R4); [apply put_chk_lookup|done|done|].
  destruct (relinked_objects _ _ c R4) as [k4 Ek4]; [exists (f k); apply put_chk_lookup|].
  assert (unlinked k4 = unlinked (f k)) as Hk4.
  { pose proof (rl_objects _ _ R4 c) as H. unfold objs in Ek4. rewrite Ek4 in H. simpl in H. rewrite lookup_insert_eq in H. by apply (inj Some) in H. }
  exists w4, k4. split; [exact E4|]. split; [by apply two_lists_used|].
  split; [unfold mgr; by rewrite (rl_pcb _ _ R4)|]. split; [exact Ek4|].
  split; [change (c_iteration (unlinked k4) = iter); by rewrite Hk4|].
  split; [change (c_type (unlinked k4) = CL_Partial); by rewrite Hk4|].
  split; [change (c_num_workers (unlinked k4) = 0); by rewrite Hk4|].
  intros d Hd. rewrite (relinked_iter _ _ d R4). unfold iter_of, objs. simpl. rewrite lookup_insert_ne; [done|].
  intros ->. apply Hc, elem_of_app. by left.
Qed.

(** [C22] A worker that asks for the checkpoint of iteration [iter] while the
    manager is unlocked, its objects in use are in the order of their iterations
    and there is room, gets the object of that iteration: the one in use if there
    is one, and then nothing changes; otherwise, when [iter] comes after all
    iterations in use, a free or new object at the end of the list, partial and
    with no worker merged.  The objects in use stay ordered and the lock is
    released. *)
Theorem checkpoint_for_iter_ordered w us fs iter : lists w us fs → ordered w us → m_lock (checkpoints (pcb_ w)) = 0 →
  (∃ c, c ∈ us ∧ iter_of w c = iter) ∨ (∀ c, c ∈ us → iter_of w c < iter) ∧ room w fs →
  ∃ c w' us' fs' k, get_checkpoint_for_iter iter w = Ok c w' ∧ lists w' us' fs' ∧ ordered w' us' ∧
    m_lock (checkpoints (pcb_ w')) = 0 ∧ c ∈ us' ∧ sh_chkpts (w_shared w') !! c = Some k ∧ c_iteration k = iter ∧
    (us' = us ∧ fs' = fs ∨ us' = us ++ [c] ∧ c_type k = CL_Partial ∧ c_num_workers k = 0).
Proof.
  intros T Ho Hlock Hiter. unfold get_checkpoint_for_iter.
  rewrite (bind_run acquire_mgr _ w tt (with_lock 1 w)).
  2:{ unfold acquire_mgr, bind, gets. by rewrite Hlock. }
  set (w1 := with_lock 1 w). pose proof (lists_lock 1 w us fs T) as T1. fold w1 in T1.
  pose proof T1 as [(Hf & _ & Tu) _ _]. pose proof (lists_size w us fs T) as Hsz. rewrite length_app in Hsz.
  rewrite (bind_run _ _ _ _ _ (get_list_run Used w1)). change (list_of Used (mgr w1)) with (m_used (checkpoints (pcb_ w1))).
  rewrite Hf. erewrite (bind_run (gets _)) by reflexivity. change (sh_chkpts (w_shared w1)) with (objs w).
  destruct Hiter as [(c & Hc & Hi)|[Hlt Hr]].
  - rewrite (find_used_hit w iter us c 0) by (done || lia).
    destruct (linked_lookup _ _ _ c Tu Hc) as (k & Ek & _).
    exists c, (with_lock 0 w1), us, fs, k. split; [done|]. split; [by apply lists_lock|].
    split; [by apply (ordered_ext w)|]. split; [done|]. split; [done|]. split; [exact Ek|]. split; [|by left].
    unfold iter_of in Hi. change (objs w !! c = Some k) in Ek. rewrite Ek in Hi. done.
  - rewrite (find_used_miss w iter us 0) by (done || lia).
    destruct (alloc_checkpoint_run w1 us fs T1) as (c & w2 & fs' & k & E2 & T2 & L2 & Ek & H0 & Hc & Hsame).
    { destruct Hr as [?|(Hs & ? & ?)]; [by left|right]. split_and!; [|done|done]. unfold is_saturated, gets in *. injection Hs as Hs. f_equal. exact Hs. }
    rewrite (bind_run _ _ _ _ _ E2), (proj2 (Z.eqb_neq _ _) H0).
    rewrite (bind_run _ _ w2 (sizeof_redux (w_heaps w2)) w2) by done.
    destruct (enter_checkpoint_run w2 us fs' c k iter T2 Ek H0 Hc) as (w4 & k4 & E4 & T4 & L4 & Ek4 & Hk4i & Hk4t & Hk4n & Hd).
    rewrite <-bind_bind, (bind_run _ _ _ _ _ E4).
    rewrite (bind_run release_mgr _ w4 tt (with_lock 0 w4)) by (unfold release_mgr, bind, gets; unfold mgr in L4, L2; by rewrite L4, L2).
    assert (∀ d, d ∈ us → iter_of (with_lock 0 w4) d = iter_of w d) as Hd'.
    { intros d Hdu. rewrite <-(Hsame d Hdu : _ = iter_of w d). by apply Hd. }
    exists c, (with_lock 0 w4), (us ++ [c]), fs', k4. split; [done|]. split; [by apply lists_lock|]. split.
    { apply ordered_snoc; [by apply (ordered_ext w)|]. intros d Hdu. rewrite (Hd' d Hdu).
      unfold iter_of at 2. change (objs (with_lock 0 w4)) with (objs w4). rewrite Ek4. simpl. rewrite Hk4i. by apply Hlt. }
    split; [done|]. split; [apply elem_of_app; right; by left|]. split; [exact Ek4|]. split; [done|]. by right.
Qed.

(** Iterations 5 and 9 are in use. *)
Definition demo_two : World :=
  set_w_shared (set_sh_chkpts
    {[100 := set_c_iteration 5 (demo_obj 0 200); 200 := set_c_iteration 9 (demo_obj 100 0); 300 := demo_obj 0 0]}
    (w_shared demo_lists)) demo_lists.
Lemma demo_two_lists : lists demo_two [100; 200] [300].
Proof.
  constructor.
  - split_and!; [done|done|]. split; [done|]. exists (set_c_iteration 5 (demo_obj 0 200)). split_and!; [by vm_compute|done|done|].
    split; [done|]. exists (set_c_iteration 9 (demo_obj 100 0)). by split_and!; [vm_compute| | |].
  - split_and!; [done|done|]. split; [done|]. exists (demo_obj 0 0). by split_and!; [vm_compute| | |].
  - apply (bool_decide_unpack _). by vm_compute.
Qed.
Lemma demo_two_ordered : ordered demo_two [100; 200].
Proof. by repeat constructor. Qed.

Lemma checkpoint_for_iter_ordered_witness :
  ∃ c w' us' fs' k, get_checkpoint_for_iter 12 demo_two = Ok c w' ∧ lists w' us' fs' ∧ ordered w' us' ∧
    m_lock (checkpoints (pcb_ w')) = 0 ∧ c ∈ us' ∧ sh_chkpts (w_shared w') !! c = Some k ∧ c_iteration k = 12 ∧
    (us' = [100; 200] ∧ fs' = [300] ∨ us' = [100; 200] ++ [c] ∧ c_type k = CL_Partial ∧ c_num_workers k = 0).
Proof.
  apply (checkpoint_for_iter_ordered demo_two [100; 200] [300] 12); [exact demo_two_lists|exact demo_two_ordered|done|].
  right. split; [|by left]. intros c Hc. rewrite !elem_of_cons in Hc.
  destruct Hc as [->|[->|[]%elem_of_nil]]; by vm_compute.
Defined.
