(* ===== verification/Invocation.v ===== *)
(** Invocation of a parallel loop: [api.c] and [__specpriv_advance_iter].

    The main process sets up an invocation, triggers the workers, waits for
    them and adopts their checkpoints; a worker runs all iterations in order,
    does the work of its own ones, and checkpoints at the end of every group of
    iterations and when it finishes. *)
From S2P Require Import Prelude Machine Exec Privacy Distill Heaps Redux DeferredIO Checkpoint.
From stdpp Require Import strings.
#[local] Open Scope Z_scope.

(** ** Main process *)

(** Set-up of the main heaps ([fiveheaps.c]): the metadata heap, the control
    block, the heaps and their mappings, and a reduction heap per worker. *)
Definition initialize_main_heaps : X unit :=
  upd_shared (set_sh_meta_next (META_ADDR + 32)) ;;;
  init_pcb ;;;
  upd_shared (λ s, set_sh_shared (heap_init HEAP_SIZE SHARED_ADDR)
                     (set_sh_ro (heap_init HEAP_SIZE RO_ADDR)
                        (set_sh_local (heap_init HEAP_SIZE LOCAL_ADDR) s))) ;;;
  for_ [s_shared; s_ro; s_priv; s_killpriv; s_sharepriv; s_redux0; s_local] slot_init ;;;
  upd_hv (λ h, set_sizeof_redux 0 (set_sizeof_private 0 h)) ;;;
  let! sh := gets w_shared in
  heap_map_shared (sh_shared sh) s_shared ;;;
  heap_map_shared (sh_ro sh) s_ro ;;;
  heap_map_shared (sh_local sh) s_local ;;;
  let! k := main_object in
  heap_map_shared (heap_priv k) s_priv ;;;
  heap_map_shared (heap_killpriv k) s_killpriv ;;;
  heap_map_shared (heap_sharepriv k) s_sharepriv ;;;
  heap_map_shared (heap_redux k) s_redux0 ;;;
  let! n := num_workers in
  upd_shared (λ s, set_sh_redux
    (foldl (λ t i, <[i := heap_init HEAP_SIZE REDUX_ADDR]> t) (sh_redux s) (seqZ 0 n)) s) ;;;
  upd_hv (set_reduction_info []).

(** [__parallel_begin]: [nw] is the number in the environment variable, if set. *)
Definition parallel_begin (nw : option Z) : X unit :=
  upd_av (set_myWorkerId MAIN_PROCESS) ;;;
  upd_av (set_numWorkers 2) ;;;
  match nw with
  | Some n => assert_ ((1 <=? n) && (n <=? MAX_WORKERS)) ;;; upd_av (set_numWorkers n)
  | None => ret tt
  end.

(** [__specpriv_begin]. *)
Definition begin : X unit :=
  upd_av (set_myWorkerId MAIN_PROCESS) ;;;
  initialize_main_heaps ;;;
  init_private.

(** Tear-down: the names of the heap objects are removed, so that nothing of them
    can be mapped again. *)
Definition heap_fini (h : Heap) : Heap := with_data ∅ h.
Definition destroy_main_heaps : X unit :=
  let! n := num_workers in
  upd_hv (set_reduction_info []) ;;;
  upd_shared (λ s, set_sh_redux (foldl (λ t i, delete i t) (sh_redux s) (seqZ 0 n)) s) ;;;
  for_ [s_shared; s_ro; s_priv; s_killpriv; s_sharepriv; s_redux0; s_local] slot_unmap ;;;
  upd_shared (λ s, set_sh_local (heap_fini (sh_local s)) (set_sh_ro (heap_fini (sh_ro s))
                     (set_sh_shared (heap_fini (sh_shared s)) s))) ;;;
  destroy_pcb.

(** [__parallel_end] only restores the affinity; [__specpriv_end] after the
    workers have exited. *)
Definition parallel_end : X unit := assert_main.
Definition end_ : X unit := assert_main ;;; destroy_main_heaps.

Definition begin_invocation : X Z :=
  assert_main ;;;
  upd_pcb (λ p, set_exit_taken 1 (set_misspeculation_happened 0 p)) ;;;
  let! mc := main_chk in
  upd_chk mc (set_c_iteration (-1)) ;;;
  fiveheaps_begin_invocation ;;;
  upd_av (set_currentIter 0) ;;;
  num_workers.

(** What the main process sends to every worker ([struct WorkerArgs]). *)
Record WorkerArgs := MkArgs {
  wa_firstIter : Z;
  wa_private : Z; wa_killprivate : Z; wa_shareprivate : Z; wa_redux : Z; wa_ro : Z; wa_local : Z;
  wa_reductions : list ReductionInfo }.

(** [__specpriv_trigger_workers]. *)
Definition trigger_workers (firstIter : Z) : X WorkerArgs :=
  assert_main ;;;
  upd_av (set_runOnEveryIter 1) ;;;
  let! n := num_workers in
  for_ (seqZ 0 n) (set_done 0) ;;;
  hv (λ h, MkArgs firstIter (sizeof_private h) (sizeof_killprivate h) (sizeof_shareprivate h)
             (sizeof_redux h) (sizeof_ro h) (sizeof_local h) (reduction_info h)).

(** [__specpriv_spawn_workers] only prepares the flags: the processes exist. *)
Definition spawn_workers (firstIter : Z) : X Z :=
  assert_main ;;;
  upd_av (set_runOnEveryIter 1) ;;;
  let! n := num_workers in
  for_ (seqZ 0 n) (set_done 0) ;;;
  ret MAIN_PROCESS.
Definition spawn_workers_callback (firstIter : Z) : X (WorkerArgs * Z) :=
  let! args := trigger_workers firstIter in
  let! wid := av myWorkerId in
  ret (args, wid).

(** The wait for the workers reads the front of the list and the flags; it ends
    when misspeculation is reported or the final checkpoint is in front, and
    every worker is done. *)
Definition front_is_last (w : World) : bool :=
  match sh_chkpts (w_shared w) !! l_first (m_used (checkpoints (pcb_ w))) with
  | Some k => c_iteration k =? LAST_ITERATION
  | None => false
  end.
Definition all_done (w : World) : bool :=
  forallb (λ wid, negb (default 0 (workerDoneFlags (pcb_ w) !! wid) =? 0))
    (seqZ 0 (numWorkers (w_api w))).

Definition join_children : X Z :=
  assert_main ;;;
  let! ready := gets (λ w, negb (misspeculation_happened (pcb_ w) =? 0) || front_is_last w) in
  (if ready then ret tt else halt Spinning) ;;;
  let! fin := gets all_done in
  (if fin then ret tt else halt Spinning) ;;;
  distill_checkpoints_into_liveout ;;;
  gets (λ w, if negb (misspeculation_happened (pcb_ w) =? 0) then 0 else exit_taken (pcb_ w)).

Definition end_invocation : X Z := gets (λ w, exit_taken (pcb_ w)).

Definition last_committed_iter : X Z :=
  let! k := main_object in ret (c_iteration k).
Definition misspec_iter : X Z :=
  let! p := gets pcb_ in
  assert_ (negb (misspeculation_happened p =? 0)) ;;; ret (misspeculated_iteration p).

Definition recovery_finished (e : Z) : X unit :=
  let! p := gets pcb_ in
  let mi := misspeculated_iteration p in
  upd_pcb (set_misspeculation_happened 0) ;;;
  let! mc := main_chk in
  upd_chk mc (set_c_iteration mi) ;;;
  when (0 <? e) (upd_pcb (set_exit_taken e)) ;;;
  upd_av (set_currentIter (i32 (mi + 1))).

(** ** Workers *)

(** The variables a worker process sets when it is spawned
    ([__specpriv_worker_setup]). *)
Definition worker_setup (wid : Z) : X unit :=
  let! n := num_workers in
  assert_ (negb (wid =? MAIN_PROCESS)) ;;;
  assert_ (wid <? n) ;;;
  upd_av (λ a, set_api_checkpointGranularity
                 (MAX_CHECKPOINT_GRANULARITY - MAX_CHECKPOINT_GRANULARITY mod n)
                 (set_runOnEveryIter 1 (set_myWorkerId wid a))).

(** What it does with the arguments of an invocation. *)
Definition receive_args (args : WorkerArgs) : X unit :=
  upd_hv (λ h, set_reduction_info (wa_reductions args) (set_sizeof_local (wa_local args)
    (set_sizeof_ro (wa_ro args) (set_sizeof_redux (wa_redux args)
      (set_sizeof_shareprivate (wa_shareprivate args) (set_sizeof_killprivate (wa_killprivate args)
        (set_sizeof_private (wa_private args) h))))))).

Definition worker_starts (firstIter : Z) : X unit :=
  initialize_worker_heaps ;;;
  upd_av (set_currentIter firstIter) ;;;
  set_first_iter firstIter ;;;
  reset_worker_io.

Definition worker_finishes (exitTaken : Z) : X unit :=
  let! main := i_am_main_process in
  assert_ (negb main) ;;;
  worker_perform_checkpoint true ;;;
  destroy_worker_heaps ;;;
  upd_pcb (set_exit_taken exitTaken) ;;;
  let! wid := av myWorkerId in
  set_done 1 wid.

Definition begin_iter : X unit := reset_local.

(** [__specpriv_advance_iter] ([private.c]): a checkpoint is due when the codes
    start over. *)
Definition checkpoint_due (a : ApiVars) (p : PrivateVars) (i : Z) : bool :=
  if negb (runOnEveryIter a =? 0)
  then (iter_code (firstIteration p) (checkpointGranularity p) i =? NUM_RESERVED_SHADOW_VALUES) && (0 <? i)
  else
    let prevI := i32 (u32 (i - numWorkers a)) in
    let prevR := Z.quot (prevI - firstIteration p) (checkpointGranularity p) in
    let curR := Z.quot (i - firstIteration p) (checkpointGranularity p) in
    (firstIteration p <=? prevI) && (prevR + 1 =? curR).

Definition advance_iter (i ckptUsed : Z) : X unit :=
  if ckptUsed =? 0 then ret tt
  else
    set_iter i ;;;
    upd_pv (λ p, set_last_read_live_in_ptr_end 0 (set_last_read_live_in_ptr_start 0 p)) ;;;
    let! due := gets (λ w, checkpoint_due (w_api w) (w_priv w) i) in
    when due (worker_perform_checkpoint false).

(** The stage of a worker; the table is an array. *)
Definition my_stage : X Z :=
  λ w, match curLoop_wid2stage (w_api w) !! myWorkerId (w_api w) with
       | Some s => Ok s w | None => Stop Fault w end.

Definition end_iter (ckptUsed : Z) : X unit :=
  let! n := num_local in
  (if 0 <? n then
     let! s := my_stage in
     let! k := av curLoop_num_stages in
     if s =? u32 (k - 1) then misspec "Object lifetime misspeculation" else ret tt
   else ret tt) ;;;
  let! late := gets (λ w, negb (misspeculation_happened (pcb_ w) =? 0) &&
                          (misspeculated_iteration (pcb_ w) <? currentIter (w_api w))) in
  (if late then halt (Jumped 43) else ret tt) ;;;
  upd_av (λ a, set_currentIter (i32 (currentIter a + 1)) a) ;;;
  let! a := av id in
  let globalCurIter := if runOnEveryIter a =? 0
                       then i32 (u32 (myWorkerId a + currentIter a * numWorkers a))
                       else currentIter a in
  advance_iter globalCurIter ckptUsed.

(** [__specpriv_ckpt_check]: will there be a checkpoint at the end of this
    iteration?  It uses the copy of the granularity in [api.c]. *)
Definition ckpt_check_ : X Z :=
  let! first := get_first_iter in
  let! a := av id in
  let g := api_checkpointGranularity a in
  let i := if runOnEveryIter a =? 0 then i32 (u32 (myWorkerId a + currentIter a * numWorkers a))
           else i32 (currentIter a + 1) in
  let due :=
    if negb (runOnEveryIter a =? 0)
    then (iter_code first g i =? NUM_RESERVED_SHADOW_VALUES) && (0 <? i)
    else
      let prevI := i32 (u32 (i - numWorkers a)) in
      (first <=? prevI) && (Z.quot (prevI - first) g + 1 =? Z.quot (i - first) g) in
  upd_av (set_ckpt_check (if due then 1 else 0)) ;;;
  ret (if due then 1 else 0).

(** A worker without work in the last round still takes part in it. *)
Definition final_iter_ckpt_check (rem chunkSize : Z) : X unit :=
  let chunkedRem := rem / chunkSize + (if rem mod chunkSize =? 0 then 0 else 1) in
  let! wid := av myWorkerId in
  when (chunkedRem <=? wid) (begin_iter ;;; end_iter 1).

Definition set_last_redux_update_iter (set : Z) : X unit :=
  when (negb (set =? 0)) (upd_av (λ a, set_lastReduxUpdateIter (currentIter a) a)).

(** The loop of a worker process: it reads its arguments from the pipe, until the
    pipe is closed; a jump out of an invocation ends in front of the loop. *)
Definition worker_invocation (callback : X unit) (args : WorkerArgs) : X unit :=
  receive_args args ;;;
  worker_starts (wa_firstIter args) ;;;
  callback.
Fixpoint worker_serve (callback : X unit) (l : list WorkerArgs) : X unit :=
  match l with
  | [] => ret tt
  | args :: l' => λ w,
      match worker_invocation callback args w with
      | Ok _ w' => worker_serve callback l' w'
      | Stop (Jumped _) w' => worker_serve callback l' w'
      | Stop why w' => Stop why w'
      end
  end.

(** ** A worker starts an invocation *)

(** A worker that has received its arguments. *)
Record worker_ready (len g nw v : Z) (k : Checkpoint) (w : World) : Prop := {
  wr_main : natural w k;
  wr_placed : placed (w_heaps w);
  wr_len : sizeof_private (w_heaps w) = len;
  wr_share : 0 ≤ sizeof_shareprivate (w_heaps w) ≤ HEAP_SIZE;
  wr_id : myWorkerId (w_api w) = v;
  wr_workers : numWorkers (w_api w) = nw;
  wr_every : runOnEveryIter (w_api w) ≠ 0;
  wr_gran : checkpointGranularity (w_priv w) = g;
  wr_good : misspeculation_happened (pcb_ w) = 0 }.

(** The world it starts its first iteration in. *)
Record started (first : Z) (w w' : World) : Prop := {
  sd_api : w_api w' = set_currentIter first (w_api w);
  sd_shared : w_shared w' = w_shared w;
  sd_sizes : sizes (w_heaps w') = sizes (w_heaps w);
  sd_first : firstIteration (w_priv w') = first;
  sd_gran : checkpointGranularity (w_priv w') = checkpointGranularity (w_priv w);
  sd_low : shadow_lowest_inclusive (w_priv w') = shadow_lowest_inclusive (w_priv w);
  sd_high : shadow_highest_exclusive (w_priv w') = shadow_highest_exclusive (w_priv w);
  sd_codes : codes_ok (w_priv w');
  sd_code : code8 (w_priv w') = NUM_RESERVED_SHADOW_VALUES;
  sd_io : w_io w' = MkIO [] 0 }.

Lemma worker_starts_run len g nw v k first w : worker_ready len g nw v k w →
  0 < g ≤ MAX_CHECKPOINT_GRANULARITY →
  ∃ w1 w', worker_starts first w = Ok tt w' ∧ worker_view k w w1 ∧ w_mem w' = w_mem w1 ∧ started first w w'.
Proof.
  intros [Hn Hp _ Hs _ _ _ Hg _] Hr. unfold worker_starts.
  destruct (initialize_worker_heaps_run w k Hn Hp Hs) as (w1 & E1 & V). rewrite (bind_run _ _ _ _ _ E1).
  set (w2 := set_w_api (set_currentIter first (w_api w1)) w1).
  rewrite (bind_run (upd_av _) _ w1 tt w2) by done. unfold set_first_iter.
  set (w3 := set_w_priv (set_firstIteration first (w_priv w2)) w2).
  destruct (set_iter first w3) as [[] w4|] eqn:E4; [|done].
  rewrite (bind_run _ _ w2 tt w4) by (by rewrite (bind_run _ _ w2 tt w3)).
  destruct (wv_vars _ _ _ V) as (Ep & Ea & Es).
  assert (checkpointGranularity (w_priv w3) = g) as Eg by (simpl; by rewrite Ep).
  pose proof E4 as [Hok Hcode]%set_iter_codes; [|by rewrite Eg|simpl; lia].
  exists w1, (set_w_io (MkIO [] 0) w4). split; [done|]. split; [done|].
  injection E4 as <-. split; [done|].
  constructor; [simpl; by rewrite Ea|done|apply V|done|simpl; by rewrite Ep|simpl; by rewrite Ep|
    simpl; by rewrite Ep|by destruct Hok| |done].
  etransitivity; [exact Hcode|]. change (firstIteration (w_priv w3)) with first.
  by rewrite Z.sub_diag, Z.mod_0_l by lia.
Qed.

(** ** The end of an iteration *)

(** The world when iteration [i] becomes the current one. *)
Definition next_iter (i : Z) (w : World) : World :=
  let p := w_priv w in
  let c8 := iter_code (firstIteration p) (checkpointGranularity p) i in
  let c16 := u16 (Z.lor c8 (Z.shiftl (u16 c8) 8)) in
  let c32 := u32 (Z.lor c16 (Z.shiftl (u32 c16) 16)) in
  let c64 := u64 (Z.lor c32 (Z.shiftl (u64 c32) 32)) in
  set_w_priv (set_last_read_live_in_ptr_end 0 (set_last_read_live_in_ptr_start 0
    (set_code64 c64 (set_code32 c32 (set_code16 c16 (set_code8 c8 p))))))
    (set_w_api (set_currentIter i (w_api w)) w).

(** Without local objects and without misspeculation, the iteration advances and
    a checkpoint is taken when it is due. *)
Lemma end_iter_advances w i : numLocalAUs (w_heaps w) = 0 → misspeculation_happened (pcb_ w) = 0 →
  runOnEveryIter (w_api w) ≠ 0 → currentIter (w_api w) = i → 0 ≤ i → i + 1 < 2 ^ 31 →
  end_iter 1 w = when (checkpoint_due (w_api w) (w_priv w) (i + 1)) (worker_perform_checkpoint false)
                   (next_iter (i + 1) w).
Proof.
  intros Hl Hm Hr Hi H0 H31. unfold end_iter.
  rewrite (bind_run _ _ w 0 w) by (unfold num_local, hv, gets; by rewrite Hl).
  change (0 <? 0) with false. cbv iota. rewrite (bind_run (ret tt) _ w tt w) by done.
  rewrite (bind_run _ _ w false w) by (unfold gets; by rewrite Hm).
  cbv iota. rewrite (bind_run (ret tt) _ w tt w) by done.
  rewrite (bind_run _ _ w tt (set_w_api (set_currentIter (i + 1) (w_api w)) w)).
  2:{ unfold upd_av, modify. rewrite Hi. do 4 f_equal. unfold swrap, wrap.
      rewrite Z.mod_small by (change (2 ^ (32 - 1)) with (2 ^ 31); change (2 ^ 32) with (2 * 2 ^ 31); lia). lia. }
  set (w1 := set_w_api _ w). rewrite (bind_run _ _ w1 (w_api w1) w1) by done. cbv zeta.
  replace (runOnEveryIter (w_api w1) =? 0) with false by (symmetry; by apply Z.eqb_neq).
  change (currentIter (w_api w1)) with (i + 1). unfold advance_iter. change (1 =? 0) with false. cbv iota.
  unfold set_iter. erewrite (bind_run (upd_pv _) _ w1) by reflexivity.
  by erewrite (bind_run (upd_pv _)) by reflexivity.
Qed.

(** ** An example: two workers and sixteen private bytes *)


(** The main process: two workers, sixteen bytes of private memory whose byte 8
    is 5, and an invocation that begins. *)
Definition demo_setup : X WorkerArgs :=
  parallel_begin (Some 2) ;;;
  begin ;;;
  alloc_priv 16 ;;;
  let! mc := main_chk in
  upd_chk mc (λ k, set_heap_priv (with_data {[8 := 5]} (heap_priv k)) k) ;;;
  begin_invocation ;;;
  trigger_workers 0.
Definition demo_main : World := world_of (demo_setup blank).
Definition demo_args : WorkerArgs :=
  match demo_setup blank with Ok a _ => a | Stop _ _ => MkArgs 0 0 0 0 0 0 0 [] end.
Definition demo_object : Checkpoint :=
  default fresh_checkpoint (sh_chkpts (w_shared demo_main) !! main_checkpoint (checkpoints (pcb_ demo_main))).
(** Worker [v] has received its arguments. *)
Definition demo_worker (v : Z) : World := world_of ((worker_setup v ;;; receive_args demo_args) demo_main).

Lemma demo_ready v : 0 ≤ v < 2 → worker_ready 16 252 2 v demo_object (demo_worker v).
Proof.
  intros Hv. assert (v = 0 ∨ v = 1) as [-> | ->] by lia.
  - constructor; [constructor; [vm_compute; reflexivity|by vm_compute..|vm_compute; by eexists]| | | | | | | |].
    all: try by vm_compute.
    constructor; right; by vm_compute.
  - constructor; [constructor; [vm_compute; reflexivity|by vm_compute..|vm_compute; by eexists]| | | | | | | |].
    all: try by vm_compute.
    constructor; right; by vm_compute.
Qed.

(** ** Properties *)

(** [C29] A worker that has received its arguments starts an invocation: the call
    returns; its private, kill-private and share-private bytes are those of the
    main process, every shadow byte is live-in, the shadow of the share-private
    heap is a copy of it, and its codes are those of the first iteration; the
    shared objects are as they were. *)
Theorem worker_starts_from_main len g nw v k first w : worker_ready len g nw v k w →
  0 < g ≤ MAX_CHECKPOINT_GRANULARITY →
  ∃ w', worker_starts first w = Ok tt w' ∧ started first w w' ∧
    (∀ j, 0 ≤ j < HEAP_SIZE →
       rd (w_mem w') (PRIV_ADDR + j) = rd (h_data (heap_priv k)) j ∧
       rd (w_mem w') (KILLPRIV_ADDR + j) = rd (h_data (heap_killpriv k)) j ∧
       rd (w_mem w') (SHAREPRIV_ADDR + j) = rd (h_data (heap_sharepriv k)) j ∧
       rd (w_mem w') (SHADOW_ADDR + j) = LIVE_IN) ∧
    (∀ j, 0 ≤ j < sizeof_shareprivate (w_heaps w) →
       rd (w_mem w') (SHARESHADOW_ADDR + j) = rd (h_data (heap_sharepriv k)) j).
Proof.
  intros R Hg. destruct (worker_starts_run len g nw v k first w R Hg) as (w1 & w' & E & [] & Em & S).
  exists w'. rewrite Em. split; [done|]. split; [done|]. split; [|done]. intros j Hj. auto.
Qed.

Lemma worker_starts_from_main_witness :
  ∃ w', worker_starts 0 (demo_worker 1) = Ok tt w' ∧ rd (w_mem w') (PRIV_ADDR + 8) = 5.
Proof.
  assert (0 ≤ 8 < HEAP_SIZE) as H8 by done.
  assert (0 < 252 ≤ MAX_CHECKPOINT_GRANULARITY) as Hg by done.
  assert (0 ≤ 1 < 2) as H1 by done.
  assert (rd (h_data (heap_priv demo_object)) 8 = 5) as E8 by (vm_compute; reflexivity).
  pose proof (worker_starts_from_main 16 252 2 1 demo_object 0 (demo_worker 1) (demo_ready 1 H1) Hg) as T.
  destruct T as (w' & E & _ & H & _).
  exists w'. split; [exact E|]. destruct (H 8 H8) as [Hp _]. rewrite Hp. exact E8.
Defined.

(** The answer of [__specpriv_ckpt_check] before the end of an iteration, in
    a loop whose workers run every iteration, is what [__specpriv_end_iter] then
    does: it advances to the next iteration and takes a checkpoint if and only
    if the answer was 1. *)
Theorem ckpt_check_predicts w i : numLocalAUs (w_heaps w) = 0 → misspeculation_happened (pcb_ w) = 0 →
  runOnEveryIter (w_api w) ≠ 0 → api_checkpointGranularity (w_api w) = checkpointGranularity (w_priv w) →
  currentIter (w_api w) = i → 0 ≤ i → i + 1 < 2 ^ 31 →
  ∃ b w', ckpt_check_ w = Ok b w' ∧ (b = 0 ∨ b = 1) ∧
    end_iter 1 w = (if b =? 1 then worker_perform_checkpoint false else ret tt) (next_iter (i + 1) w).
Proof.
  intros Hl Hm Hr Hg Hi H0 H31. rewrite (end_iter_advances w i) by done.
  assert (i32 (i + 1) = i + 1) as Ei.
  { unfold swrap, wrap. rewrite Z.mod_small by (change (2 ^ (32 - 1)) with (2 ^ 31); change (2 ^ 32) with (2 * 2 ^ 31); lia). lia. }
  set (due := checkpoint_due (w_api w) (w_priv w) (i + 1)).
  exists (if due then 1 else 0), (set_w_api (set_ckpt_check (if due then 1 else 0) (w_api w)) w). split.
  - unfold ckpt_check_, bind, ret, get_first_iter, pv, av, gets, upd_av, modify. cbn [id].
    rewrite (proj2 (Z.eqb_neq _ _) Hr), Hg, Hi, Ei. subst due. unfold checkpoint_due.
    by rewrite (proj2 (Z.eqb_neq _ _) Hr).
  - by destruct due; auto.
Qed.

(** Worker 1 at the end of the last iteration of the first group. *)
Definition demo_last : World :=
  set_w_api (set_currentIter 251 (w_api (demo_worker 1))) (demo_worker 1).

Lemma ckpt_check_predicts_witness :
  ∃ b w', ckpt_check_ demo_last = Ok b w' ∧ (b = 0 ∨ b = 1) ∧
    end_iter 1 demo_last = (if b =? 1 then worker_perform_checkpoint false else ret tt) (next_iter 252 demo_last).
Proof. apply (ckpt_check_predicts demo_last 251); by vm_compute. Defined.

(** ** A worker that is late

    When another worker has misspeculated in an earlier iteration, the end of an
    iteration jumps out of the invocation.  The done flag of the worker is not
    set on this path, and [__specpriv_join_children] waits for the flags of all
    workers. *)
Lemma late_worker_blocks_join w wm wid i0 c :
  numLocalAUs (w_heaps w) = 0 → misspeculation_happened (pcb_ w) ≠ 0 →
  misspeculated_iteration (pcb_ w) = i0 → i0 < currentIter (w_api w) →
  myWorkerId (w_api w) = wid → workerDoneFlags (pcb_ w) !! wid = Some 0 →
  myWorkerId (w_api wm) = MAIN_PROCESS → w_shared wm = w_shared w → 0 ≤ wid < numWorkers (w_api wm) →
  end_iter c w = Stop (Jumped 43) w ∧ join_children wm = Stop Spinning wm.
Proof.
  intros Hl Hm Hi Hlt Hid Hflag Hmain Hsh Hn. split.
  - unfold end_iter. rewrite (bind_run _ _ w 0 w) by (unfold num_local, hv, gets; by rewrite Hl).
    change (0 <? 0) with false. cbv iota. rewrite (bind_run (ret tt) _ w tt w) by done.
    rewrite (bind_run _ _ w true w); [done|]. unfold gets. f_equal.
    rewrite (proj2 (Z.eqb_neq _ _) Hm), Hi. by apply Z.ltb_lt.
  - unfold join_children, assert_main. rewrite (bind_run _ _ wm tt wm).
    2:{ unfold bind, i_am_main_process, av, gets. by rewrite Hmain. }
    rewrite (bind_run _ _ wm true wm).
    2:{ unfold gets, pcb_. rewrite Hsh. fold (pcb_ w). by rewrite (proj2 (Z.eqb_neq _ _) Hm). }
    rewrite (bind_run (ret tt) _ wm tt wm) by done. rewrite (bind_run _ _ wm false wm); [done|].
    unfold gets. f_equal. apply not_true_is_false. unfold all_done. rewrite forallb_forall. intros H.
    specialize (H wid). rewrite <-list_elem_of_In, elem_of_seqZ in H. specialize (H ltac:(lia)).
    unfold pcb_ in H, Hflag. rewrite Hsh, Hflag in H. done.
Qed.
