(* ===== verification/Privatize.v ===== *)
(** A privatised loop computes what the sequential loop computes.

    The iterations of a loop are programs that load and store bytes of the
    private heap through the hooks of [private.c].  Every worker runs its
    iterations on its own copy of the heap; the copies are merged into a
    checkpoint and the checkpoint is committed.  When no hook and no merge
    reports misspeculation, the main process ends with the memory of the
    sequential loop. *)
From S2P Require Import Prelude Machine Exec Privacy Distill Heaps Redux DeferredIO Checkpoint Invocation.
From stdpp Require Import strings.
#[local] Open Scope Z_scope.

(** ** Loop bodies *)

(** The part of an iteration that touches private memory: every load and every
    store is preceded by its hook; what is stored and what follows depends on
    the values loaded. *)
Inductive body : Type :=
| Done
| Load (h : hook) (k : Z) (cont : list Z → body)
| Store (h : hook) (k : Z) (bytes : list Z) (cont : body).

Definition bytes_at (m : mem) (a n : Z) : list Z := (λ i, rd m (a + i)) <$> seqZ 0 n.
Fixpoint put_bytes (m : mem) (a : Z) (bs : list Z) : mem :=
  match bs with [] => m | b :: bs' => put_bytes (wr m a b) (a + 1) bs' end.

(** Run by a worker. *)
Fixpoint run_body (b : body) : X unit :=
  match b with
  | Done => ret tt
  | Load h k cont =>
      run_hook h (PRIV_ADDR + k) "private read" ;;;
      let! v := gets (λ w, bytes_at (w_mem w) (PRIV_ADDR + k) (hook_len h)) in
      run_body (cont v)
  | Store h k bs cont =>
      run_hook h (PRIV_ADDR + k) "private write" ;;;
      upd_mem (λ m, put_bytes m (PRIV_ADDR + k) bs) ;;;
      run_body cont
  end.

(** Run sequentially, on the bytes of the heap. *)
Fixpoint seq_body (b : body) (m : mem) : mem :=
  match b with
  | Done => m
  | Load h k cont => seq_body (cont (bytes_at m k (hook_len h))) m
  | Store h k bs cont => seq_body cont (put_bytes m k bs)
  end.

(** Whether a write that runs over bytes that were read as live-in is let through,
    because the hook skips the check, when a worker runs the body. *)
Fixpoint misses (b : body) (w : World) : bool :=
  match b with
  | Done => false
  | Load h k cont =>
      match run_hook h (PRIV_ADDR + k) "private read" w with
      | Ok _ w1 => misses (cont (bytes_at (w_mem w1) (PRIV_ADDR + k) (hook_len h))) w1
      | Stop _ _ => false
      end
  | Store h k bs cont =>
      missed h (PRIV_ADDR + k) w ||
      match run_hook h (PRIV_ADDR + k) "private write" w with
      | Ok _ w1 => misses cont (set_w_mem (put_bytes (w_mem w1) (PRIV_ADDR + k) bs) w1)
      | Stop _ _ => false
      end
  end.

(** Accesses lie in the heap and use a hook of their kind. *)
Fixpoint wf_body (len : Z) (b : body) : Prop :=
  match b with
  | Done => True
  | Load h k cont =>
      is_write h = false ∧ 0 ≤ k ∧ 0 ≤ hook_len h ∧ k + hook_len h ≤ len ∧ ∀ v, wf_body len (cont v)
  | Store h k bs cont =>
      is_write h = true ∧ 0 ≤ k ∧ Z.of_nat (length bs) = hook_len h ∧ k + hook_len h ≤ len ∧
      wf_body len cont
  end.

(** One iteration of a worker, and its loop. *)
Definition worker_iteration (prog : Z → body) : X unit :=
  begin_iter ;;;
  let! i := current_iter in
  let! on := is_on_iter in
  when on (run_body (prog i)) ;;;
  end_iter 1.
Definition worker_loop (prog : Z → body) (n : Z) : X unit :=
  for_ (seqZ 0 n) (λ _, worker_iteration prog).

(** The sequential loop. *)
Definition seq_loop (prog : Z → body) (first n : Z) (m : mem) : mem :=
  foldl (λ m j, seq_body (prog (first + j)) m) m (seqZ 0 n).

(** ** Bytes *)

Lemma rd_put_bytes bs : ∀ m a x,
  rd (put_bytes m a bs) x =
  if decide (a ≤ x < a + Z.of_nat (length bs)) then u8 (default 0 (bs !! Z.to_nat (x - a))) else rd m x.
Proof.
  induction bs as [|b bs IH]; intros m a x; cbn [put_bytes length].
  - by rewrite decide_False by lia.
  - rewrite IH. destruct (decide (a + 1 ≤ x < a + 1 + Z.of_nat (length bs))).
    + rewrite decide_True by lia. replace (Z.to_nat (x - a)) with (S (Z.to_nat (x - (a + 1)))) by lia. done.
    + rewrite rd_wr. destruct (decide (a = x)) as [->|].
      * rewrite decide_True by lia. by rewrite Z.sub_diag.
      * by rewrite decide_False by lia.
Qed.

Lemma bytes_at_ext m m' a a' n : (∀ i, 0 ≤ i < n → rd m (a + i) = rd m' (a' + i)) →
  bytes_at m a n = bytes_at m' a' n.
Proof.
  intros H. unfold bytes_at. apply list_fmap_ext. intros j x Hx.
  apply H. apply list_elem_of_lookup_2, elem_of_seqZ in Hx. lia.
Qed.

(** ** Tracking of one worker

    In an iteration with code [c] every shadow byte is reserved or the code of
    this or an earlier iteration, and the range covers what was touched. *)

Record track (len c : Z) (w : World) : Prop := {
  tr_worker : is_worker w;
  tr_codes : codes_ok (w_priv w);
  tr_code : code8 (w_priv w) = c;
  tr_len : 0 < len ≤ MAX_LEN;
  tr_merge : mergeable len w;
  tr_shadow : ∀ k, 0 ≤ k < len → shadow_byte w k ≤ READ_LIVE_IN ∨
    NUM_RESERVED_SHADOW_VALUES ≤ shadow_byte w k ≤ c }.

(** What later accesses preserve. *)
Record shadow_le (len : Z) (w w' : World) : Prop := {
  sl_read : ∀ k, 0 ≤ k < len → shadow_byte w k = READ_LIVE_IN → shadow_byte w' k = READ_LIVE_IN;
  sl_written : ∀ k, 0 ≤ k < len → NUM_RESERVED_SHADOW_VALUES ≤ shadow_byte w k →
    NUM_RESERVED_SHADOW_VALUES ≤ shadow_byte w' k }.

Lemma shadow_le_refl len w : shadow_le len w w.
Proof. by constructor. Qed.

Lemma shadow_le_trans len w1 w2 w3 : shadow_le len w1 w2 → shadow_le len w2 w3 → shadow_le len w1 w3.
Proof. intros [A B] [C D]. constructor; eauto. Qed.

(** A hook leaves the private bytes alone, and everything outside the private
    variables and memory. *)
Record access (len c k n : Z) (wr : bool) (w w' : World) : Prop := {
  ac_frame : ∃ lo hi b e m, w' = set_w_priv (ranged lo hi b e (w_priv w)) (set_w_mem m w);
  ac_track : track len c w';
  ac_le : shadow_le len w w';
  ac_priv : ∀ j, 0 ≤ j < len → priv_byte w' j = priv_byte w j;
  ac_inside : ∀ j, k ≤ j < k + n → if wr then shadow_byte w' j = c
              else shadow_byte w' j = READ_LIVE_IN ∧ shadow_byte w j ≤ READ_LIVE_IN ∨ shadow_byte w' j = c ∧ shadow_byte w j = c;
  ac_outside : ∀ j, 0 ≤ j < len → wr = false ∨ ¬ (k ≤ j < k + n) →
    shadow_byte w' j = shadow_byte w j ∨ shadow_byte w j = LIVE_IN ∧ shadow_byte w' j = READ_LIVE_IN }.

Lemma region_apart len j a : 0 ≤ j < len → 0 < len ≤ MAX_LEN → SHADOW_ADDR ≤ a → PRIV_ADDR + j ≠ a.
Proof. unfold MAX_LEN. change PRIV_ADDR with (3 * 2 ^ 43). change SHADOW_ADDR with (7 * 2 ^ 43). lia. Qed.

Lemma range_ok_access len lo hi k n : 0 < len ≤ MAX_LEN → range_ok len lo hi → 0 ≤ k → 0 ≤ n → k + n ≤ len →
  range_ok len (Z.min lo (SHADOW_ADDR + k)) (Z.max hi (SHADOW_ADDR + k + n)) ∧
  SHADOW_ADDR ≤ Z.min lo (SHADOW_ADDR + k).
Proof. unfold range_ok, MAX_LEN, heap_span. lia. Qed.

Lemma in_words_grow lo hi lo' hi' a : lo' ≤ lo → hi ≤ hi' → in_words lo hi a → in_words lo' hi' a.
Proof. unfold in_words. intros. Z.to_euclidean_division_equations; lia. Qed.

(** What a hook that reads the addresses of [R] and writes those of [W] does,
    in terms of the private bytes it is called for. *)
Section effect.
Context (len c k n : Z) (wr : bool) (R W : Z → bool) (w w' : World).
Context (T : track len c w) (Hk : 0 ≤ k) (Hn : 0 ≤ n) (Hb : k + n ≤ len).
Context (HE : hook_effect (SHADOW_ADDR + k) n R W w w').
Context (HW : ∀ a, W a = wr && span (SHADOW_ADDR + k) n a).

Let untouched (j : Z) : Prop := wr = false ∨ ¬ (k ≤ j < k + n).

Lemma untouched_or j : untouched j ∨ wr = true ∧ k ≤ j < k + n.
Proof. unfold untouched. destruct wr; [|by left; left]. destruct (decide (k ≤ j < k + n)); tauto. Qed.

Lemma span_private j : span (SHADOW_ADDR + k) n (SHADOW_ADDR + j) = true ↔ k ≤ j < k + n.
Proof. rewrite span_iff. lia. Qed.

Lemma track_code3 : 3 ≤ c < 256.
Proof. destruct T as [_ Tc <- _ _ _]. apply (codes_range _ Tc). Qed.

Lemma effect_range : range_ok len (shadow_lowest_inclusive (w_priv w')) (shadow_highest_exclusive (w_priv w')) ∧
  SHADOW_ADDR ≤ shadow_lowest_inclusive (w_priv w').
Proof.
  destruct (he_range _ _ _ _ _ _ HE) as [-> ->].
  apply range_ok_access; try done; [apply T|apply T].
Qed.

Lemma effect_shadow_only a : R a = true ∨ W a = true → SHADOW_ADDR ≤ a.
Proof.
  intros Ha. pose proof (he_cover _ _ _ _ _ _ HE a Ha) as Hcov. destruct effect_range as [_ Hbase].
  unfold in_words in Hcov. assert (SHADOW_ADDR mod 8 = 0) by done.
  clear -Hcov Hbase H. Z.to_euclidean_division_equations; lia.
Qed.

Lemma effect_private j : 0 ≤ j < len → priv_byte w' j = priv_byte w j.
Proof.
  intros Hj. unfold priv_byte. rewrite (he_mem _ _ _ _ _ _ HE).
  assert (∀ Q : Z → bool, (∀ a, Q a = true → SHADOW_ADDR ≤ a) → Q (PRIV_ADDR + j) = false) as Hfar.
  { intros Q HQ. apply not_true_is_false. intros Ht. eapply region_apart; [exact Hj|apply T|by apply HQ|done]. }
  rewrite (Hfar W) by (intros; apply effect_shadow_only; by right).
  by rewrite (Hfar R) by (intros; apply effect_shadow_only; by left).
Qed.

Lemma effect_shadow j : shadow_byte w' j =
  if wr && span (SHADOW_ADDR + k) n (SHADOW_ADDR + j) then c
  else if R (SHADOW_ADDR + j) then mark (shadow_byte w j) else shadow_byte w j.
Proof. unfold shadow_byte. by rewrite (he_mem _ _ _ _ _ _ HE), HW, (tr_code _ _ _ T). Qed.

Lemma effect_outside j : untouched j →
  shadow_byte w' j = shadow_byte w j ∨ shadow_byte w j = LIVE_IN ∧ shadow_byte w' j = READ_LIVE_IN.
Proof.
  intros Ho. rewrite effect_shadow. replace (wr && span (SHADOW_ADDR + k) n (SHADOW_ADDR + j)) with false.
  2:{ symmetry. apply andb_false_iff. destruct Ho as [->|Ho]; [by left|right].
      apply not_true_is_false. by rewrite span_private. }
  destruct (R (SHADOW_ADDR + j)); [|by left]. unfold mark. destruct (Z.eqb_spec (shadow_byte w j) LIVE_IN); tauto.
Qed.

Lemma effect_written j : wr = true → k ≤ j < k + n → shadow_byte w' j = c ∧ shadow_byte w j ≠ READ_LIVE_IN.
Proof.
  intros Hw Hj%span_private. split; [by rewrite effect_shadow, Hw, Hj|].
  apply (he_write _ _ _ _ _ _ HE). by rewrite HW, Hw, Hj.
Qed.

Lemma effect_marked j : wr = false → k ≤ j < k + n → R (SHADOW_ADDR + j) = true →
  shadow_byte w' j = READ_LIVE_IN ∧ shadow_byte w j ≤ READ_LIVE_IN ∨ shadow_byte w' j = c ∧ shadow_byte w j = c.
Proof.
  intros Hw Hj HR. rewrite effect_shadow, Hw, HR. simpl.
  pose proof (he_read _ _ _ _ _ _ HE _ HR) as Hrd. rewrite (tr_code _ _ _ T) in Hrd.
  change (rd (w_mem w) (SHADOW_ADDR + j)) with (shadow_byte w j) in Hrd.
  assert (0 ≤ shadow_byte w j) as Hpos by apply rd_range. pose proof track_code3.
  unfold mark, readable, LIVE_IN, READ_LIVE_IN in *. destruct (Z.eqb_spec (shadow_byte w j) 0); [left; lia|].
  destruct Hrd as [?|[?|?]]; [lia|left; lia|right; lia].
Qed.

Lemma effect_le : shadow_le len w w'.
Proof.
  pose proof track_code3. constructor; unfold READ_LIVE_IN, NUM_RESERVED_SHADOW_VALUES in *; intros j Hj Hs;
    destruct (untouched_or j) as [Ho|[Hw Hin]].
  - destruct (effect_outside j Ho) as [E|[? E]]; unfold READ_LIVE_IN in *; lia.
  - by destruct (effect_written j Hw Hin).
  - destruct (effect_outside j Ho) as [E|[E0 E]]; unfold LIVE_IN, READ_LIVE_IN in *; lia.
  - destruct (effect_written j Hw Hin) as [E _]. unfold READ_LIVE_IN in *. lia.
Qed.

Lemma effect_mergeable : mergeable len w'.
Proof.
  destruct (he_frame _ _ _ _ _ _ HE) as (lo & hi & b & e & Hf). destruct (he_range _ _ _ _ _ _ HE) as [Hlo Hhi].
  destruct T as [_ _ _ _ [Ml Mr Mt Mw] _]. constructor; [by rewrite Hf|apply effect_range| |]; intros j Hj Hs.
  - destruct (decide (shadow_byte w j = LIVE_IN)) as [E0|E0].
    + apply (he_cover _ _ _ _ _ _ HE). rewrite HW.
      destruct (wr && span (SHADOW_ADDR + k) n (SHADOW_ADDR + j)) eqn:Ew; [by right|left].
      destruct (R (SHADOW_ADDR + j)) eqn:ER; [done|]. by rewrite effect_shadow, Ew, ER in Hs.
    + eapply in_words_grow; [| |apply (Mt j Hj E0)]; lia.
  - rewrite Hlo, Hhi. destruct (untouched_or j) as [Ho|[_ ?]]; [|lia].
    assert (READ_LIVE_IN < shadow_byte w j) as H1 by (destruct (effect_outside j Ho) as [E|[? E]]; rewrite E in Hs; lia).
    specialize (Mw j Hj H1). lia.
Qed.

Lemma effect_track : track len c w'.
Proof.
  destruct (he_frame _ _ _ _ _ _ HE) as (lo & hi & b & e & Hf). pose proof track_code3 as Hc3.
  constructor; [| | |apply T|apply effect_mergeable|].
  - rewrite Hf. apply T.
  - rewrite Hf. by destruct (tr_codes _ _ _ T).
  - rewrite Hf. apply T.
  - intros j Hj. pose proof (tr_shadow _ _ _ T j Hj) as Ts. unfold NUM_RESERVED_SHADOW_VALUES in *.
    destruct (untouched_or j) as [Ho|[Hw Hin]].
    + destruct (effect_outside j Ho) as [E|[? E]]; rewrite E; [done|by left].
    + destruct (effect_written j Hw Hin) as [-> _]. right. lia.
Qed.

Lemma access_of_effect : (wr = false → ∀ a, span (SHADOW_ADDR + k) n a = true → R a = true) →
  access len c k n wr w w'.
Proof.
  intros HR. constructor.
  - destruct (he_frame _ _ _ _ _ _ HE) as (lo & hi & b & e & Hf). by eexists lo, hi, b, e, _.
  - apply effect_track.
  - apply effect_le.
  - apply effect_private.
  - intros j Hj. pose proof (effect_written j) as Hw. pose proof (effect_marked j) as Hr.
    destruct wr; [by apply Hw|]. apply Hr; [done|done|]. apply HR; [done|]. by apply span_private.
  - intros j Hj Ho. by apply effect_outside.
Qed.
End effect.

Lemma read_access len c h k name w w' : track len c w → is_write h = false → 0 ≤ k → 0 ≤ hook_len h →
  k + hook_len h ≤ len → run_hook h (PRIV_ADDR + k) name w = Ok tt w' → access len c k (hook_len h) false w w'.
Proof.
  intros T Hr Hk Hn Hb Hrun. pose proof (tr_len _ _ _ T) as Tl. unfold MAX_LEN in Tl.
  destruct (read_hook_effect h k name w w') as (S & He & HS);
    [apply T|apply T|done|unfold heap_span; lia|done|unfold heap_span; lia|done|].
  eapply access_of_effect; [done|done|done|done|exact He|done|].
  intros _ a Ha%span_iff. by apply (rb_all _ _ _ HS).
Qed.

Lemma write_access len c h k name w w' : track len c w → is_write h = true → missed h (PRIV_ADDR + k) w = false → 0 ≤ k → 0 ≤ hook_len h →
  k + hook_len h ≤ len → run_hook h (PRIV_ADDR + k) name w = Ok tt w' → access len c k (hook_len h) true w w'.
Proof.
  intros T Hr Hm Hk Hn Hb Hrun. pose proof (tr_len _ _ _ T) as Tl. unfold MAX_LEN in Tl.
  eapply (access_of_effect len c k (hook_len h) true (λ _, false) (span (SHADOW_ADDR + k) (hook_len h)) w w'); [done|done|done|done| |by intros a|done].
  eapply write_hook_effect; [apply T|apply T|done|done|unfold heap_span; lia|done|unfold heap_span; lia|exact Hrun].
Qed.

(** ** A body run by a worker *)

(** The store that follows a write hook. *)
Definition stored (k : Z) (bs : list Z) (w : World) : World :=
  set_w_mem (put_bytes (w_mem w) (PRIV_ADDR + k) bs) w.

Lemma stored_shadow len k bs w j : 0 ≤ j < len → 0 < len ≤ MAX_LEN → 0 ≤ k → k + Z.of_nat (length bs) ≤ len →
  shadow_byte (stored k bs w) j = shadow_byte w j.
Proof.
  unfold MAX_LEN. intros. unfold shadow_byte, stored. simpl. rewrite rd_put_bytes, decide_False; [done|].
  change PRIV_ADDR with (3 * 2 ^ 43). change SHADOW_ADDR with (7 * 2 ^ 43). lia.
Qed.

Lemma stored_priv k bs w j :
  priv_byte (stored k bs w) j =
  if decide (k ≤ j < k + Z.of_nat (length bs)) then u8 (default 0 (bs !! Z.to_nat (j - k))) else priv_byte w j.
Proof.
  unfold priv_byte, stored. simpl. rewrite rd_put_bytes.
  replace (PRIV_ADDR + j - (PRIV_ADDR + k)) with (j - k) by lia.
  destruct (decide (k ≤ j < k + Z.of_nat (length bs))); [by rewrite decide_True by lia|by rewrite decide_False by lia].
Qed.

Lemma stored_track len c k bs w : track len c w → 0 ≤ k → k + Z.of_nat (length bs) ≤ len →
  track len c (stored k bs w) ∧ shadow_le len w (stored k bs w).
Proof.
  intros [Tw Tc Tcode Tl [Ml Mr Mt Mw] Ts] Hk Hb.
  assert (∀ j, 0 ≤ j < len → shadow_byte (stored k bs w) j = shadow_byte w j) as E
    by (intros; by eapply stored_shadow).
  split; [|constructor; intros j Hj; by rewrite E].
  constructor; try done; [constructor; try done|]; intros j Hj; rewrite E by done; auto.
Qed.

(** Nothing done is a case of the frame of a hook. *)
Lemma ranged_id w : ∃ lo hi s e m, w = set_w_priv (ranged lo hi s e (w_priv w)) (set_w_mem m w).
Proof.
  exists (shadow_lowest_inclusive (w_priv w)), (shadow_highest_exclusive (w_priv w)),
    (last_read_live_in_ptr_start (w_priv w)), (last_read_live_in_ptr_end (w_priv w)), (w_mem w).
  by destruct w as [[] ? ? ? ? ? ? ? ?].
Qed.

(** The world_of of a body: bookkeeping that holds for every run. *)
Lemma run_body_track len c b : ∀ w w', wf_body len b → track len c w → misses b w = false → run_body b w = Ok tt w' →
  track len c w' ∧ shadow_le len w w' ∧
  ∃ lo hi s e m, w' = set_w_priv (ranged lo hi s e (w_priv w)) (set_w_mem m w).
Proof.
  induction b as [|h k cont IH|h k bs b IH]; intros w w' Hwf T Hm; cbn [run_body misses] in *.
  - intros [= <-]. split; [done|]. split; [apply shadow_le_refl|].
    apply ranged_id.
  - destruct Hwf as (Hr & Hk & Hn & Hb & Hwf). intros ([] & w1 & H1 & (v & t & [= <- <-] & H2)%bind_ok)%bind_ok.
    rewrite H1 in Hm. eapply read_access in H1 as [(lo & hi & s & e & m & Hf) T1 L1 _ _ _]; [|done..].
    apply (IH _ _ _ (Hwf _) T1 Hm) in H2 as (T2 & L2 & lo2 & hi2 & s2 & e2 & m2 & Hf2).
    split; [done|]. split; [by eapply shadow_le_trans|]. rewrite Hf2, Hf. by eexists lo2, hi2, s2, e2, m2.
  - destruct Hwf as (Hr & Hk & Hn & Hb & Hwf). intros ([] & w1 & H1 & ([] & t & [= <-] & H2)%bind_ok)%bind_ok.
    rewrite H1 in Hm. apply orb_false_iff in Hm as [Hm Hm'].
    eapply write_access in H1 as [(lo & hi & s & e & m & Hf) T1 L1 _ _ _]; [|done|done|done|done|lia|done].
    destruct (stored_track len c k bs w1 T1) as [T1' L1']; [done|lia|].
    apply (IH (stored k bs w1) _ Hwf T1' Hm') in H2 as (T2 & L2 & lo2 & hi2 & s2 & e2 & m2 & Hf2).
    split; [done|]. split; [eapply shadow_le_trans; [exact L1|by eapply shadow_le_trans]|].
    rewrite Hf2. unfold stored. rewrite Hf. by eexists lo2, hi2, s2, e2, m2.
Qed.

(** ** The worker follows the sequential iteration

    [sh0], [pm0] are the shadow and the private bytes of the worker when the
    iteration began, [Mi] the sequential memory then.  A byte written in this
    iteration has the sequential value; any other byte is as it was. *)
Definition follows (len c : Z) (sh0 pm0 Mi : Z → Z) (w : World) (M : mem) : Prop :=
  ∀ k, 0 ≤ k < len →
    (shadow_byte w k = c → rd M k = priv_byte w k) ∧
    (shadow_byte w k ≠ c → rd M k = Mi k ∧ priv_byte w k = pm0 k ∧
       (shadow_byte w k = sh0 k ∨ sh0 k = LIVE_IN ∧ shadow_byte w k = READ_LIVE_IN)).

Lemma follows_read len c sh0 pm0 Mi k n w w' M : 3 ≤ c → access len c k n false w w' →
  follows len c sh0 pm0 Mi w M → follows len c sh0 pm0 Mi w' M.
Proof.
  intros Hc [_ _ _ Hp _ Ho] F j Hj. destruct (F j Hj) as [F1 F2]. rewrite Hp by done.
  unfold LIVE_IN, READ_LIVE_IN in *.
  destruct (Ho j Hj (or_introl eq_refl)) as [->|[E0 E1]]; [done|]. rewrite E1. split; [lia|]. intros _.
  destruct F2 as (? & ? & ?); [lia|]. split_and!; [done|done|lia].
Qed.

Lemma follows_write len c sh0 pm0 Mi k bs w w' M : 3 ≤ c → 0 < len ≤ MAX_LEN → 0 ≤ k →
  k + Z.of_nat (length bs) ≤ len → access len c k (Z.of_nat (length bs)) true w w' →
  follows len c sh0 pm0 Mi w M → follows len c sh0 pm0 Mi (stored k bs w') (put_bytes M k bs).
Proof.
  intros Hc Hlen Hk Hb [_ _ _ Hp Hi Ho] F j Hj. destruct (F j Hj) as [F1 F2].
  rewrite (stored_shadow len), stored_priv, rd_put_bytes by done. rewrite Hp by done.
  destruct (decide (k ≤ j < k + Z.of_nat (length bs))) as [Hin|Hout].
  - by rewrite (Hi j Hin).
  - unfold LIVE_IN, READ_LIVE_IN in *. destruct (Ho j Hj (or_intror Hout)) as [->|[E0 E1]]; [done|].
    rewrite E1. split; [lia|]. intros _. destruct F2 as (? & ? & ?); [lia|]. split_and!; [done|done|lia].
Qed.

(** Bytes that are marked as read when the iteration ends must have had the
    sequential value when it began; then every load returns the sequential
    value. *)
Lemma run_body_follows len c sh0 pm0 Mi b : ∀ w w' M, 3 ≤ c → wf_body len b → track len c w → misses b w = false →
  run_body b w = Ok tt w' → follows len c sh0 pm0 Mi w M →
  (∀ k, 0 ≤ k < len → shadow_byte w' k = READ_LIVE_IN → Mi k = pm0 k) →
  follows len c sh0 pm0 Mi w' (seq_body b M).
Proof.
  induction b as [|h k cont IH|h k bs b IH]; intros w w' M Hc Hwf T Hm Hrun F Hend; cbn [run_body seq_body misses] in *.
  - by injection Hrun as <-.
  - destruct Hwf as (Hr & Hk & Hn & Hb & Hwf).
    apply bind_ok in Hrun as ([] & w1 & H1 & (v & t & [= <- <-] & H2)%bind_ok).
    rewrite H1 in Hm. eapply read_access in H1 as A; [|done..].
    pose proof (follows_read _ _ _ _ _ _ _ _ _ _ Hc A F) as F1. destruct A as [_ T1 _ Hp Hi _].
    destruct (run_body_track len c _ _ _ (Hwf _) T1 Hm H2) as (_ & L2 & _).
    assert (bytes_at (w_mem w1) (PRIV_ADDR + k) (hook_len h) = bytes_at M k (hook_len h)) as Ev.
    { apply bytes_at_ext. intros i Hi'. rewrite <-Z.add_assoc.
      change (rd (w_mem w1) (PRIV_ADDR + (k + i))) with (priv_byte w1 (k + i)).
      destruct (F1 (k + i) ltac:(lia)) as [F2 F3].
      destruct (Hi (k + i) ltac:(lia)) as [[E _]|[E _]].
      - destruct F3 as (-> & -> & _); [unfold READ_LIVE_IN in E; lia|]. symmetry. apply Hend; [lia|].
        apply (sl_read _ _ _ L2); [lia|done].
      - symmetry. by apply F2. }
    rewrite <-Ev. by eapply (IH _ w1 w' M).
  - destruct Hwf as (Hr & Hk & Hn & Hb & Hwf).
    apply bind_ok in Hrun as ([] & w1 & H1 & ([] & t & [= <-] & H2)%bind_ok).
    rewrite H1 in Hm. apply orb_false_iff in Hm as [Hm Hm'].
    eapply write_access in H1 as A; [|done|done|done|done|lia|done]. rewrite <-Hn in A, Hb.
    destruct (stored_track len c k bs w1 (ac_track _ _ _ _ _ _ _ A)) as [T1 _]; [done|done|].
    eapply (IH (stored k bs w1) w'); [done|done|done|exact Hm'|exact H2| |done].
    eapply follows_write; [done|apply T|done|done|exact A|done].
Qed.

(** ** One iteration of a worker *)

(** Worker [v] before iteration [i]. *)
Record at_iter (len g first nw v i : Z) (w : World) : Prop := {
  ai_track : track len (i - first + 3) w;
  ai_old : ∀ k, 0 ≤ k < len → shadow_byte w k < i - first + 3;
  ai_id : myWorkerId (w_api w) = v;
  ai_nw : numWorkers (w_api w) = nw;
  ai_every : runOnEveryIter (w_api w) ≠ 0;
  ai_cur : currentIter (w_api w) = i;
  ai_first : firstIteration (w_priv w) = first;
  ai_gran : checkpointGranularity (w_priv w) = g;
  ai_good : misspeculation_happened (pcb_ w) = 0 }.

Lemma worker_end_iter_run w i : numLocalAUs (w_heaps w) = 0 → misspeculation_happened (pcb_ w) = 0 →
  runOnEveryIter (w_api w) ≠ 0 → currentIter (w_api w) = i → 0 ≤ i → i + 1 < 2 ^ 31 →
  iter_code (firstIteration (w_priv w)) (checkpointGranularity (w_priv w)) (i + 1) ≠ NUM_RESERVED_SHADOW_VALUES →
  end_iter 1 w = Ok tt (next_iter (i + 1) w).
Proof.
  intros Hl Hm Hr Hi H0 H31 Hc. rewrite (end_iter_advances w i) by done. unfold checkpoint_due.
  rewrite (proj2 (Z.eqb_neq _ _) Hr), (proj2 (Z.eqb_neq _ _) Hc). done.
Qed.

(** The code of iteration [i] of the first group. *)
Lemma iter_code_first first g i : 0 < g ≤ 253 → 0 ≤ i - first < g → iter_code first g i = i - first + 3.
Proof.
  intros Hg Hi. unfold iter_code, NUM_RESERVED_SHADOW_VALUES. rewrite Z.rem_small by lia.
  apply wrap_small. change (2 ^ 8) with 256. lia.
Qed.

(** Advancing keeps the bytes, and the next iteration has a code of its own. *)
Lemma next_iter_at len g first nw v i w w1 : 0 < g ≤ 253 → 0 ≤ i - first → i + 1 - first < g →
  at_iter len g first nw v i w → track len (i - first + 3) w1 → w_api w1 = w_api w → pcb_ w1 = pcb_ w →
  firstIteration (w_priv w1) = first → checkpointGranularity (w_priv w1) = g →
  at_iter len g first nw v (i + 1) (next_iter (i + 1) w1).
Proof.
  intros Hg H0 Hi [_ _ A3 A4 A5 A6 A7 A8 A9] [Tw Tc Tcode Tl [Ml Mr Mt Mw] Ts] Ea Ep Ef Egr.
  assert (set_iter (i + 1) w1 = Ok tt (set_w_priv (set_code64 _ (set_code32 _ (set_code16 _ (set_code8 _ (w_priv w1))))) w1))
    as Hset by reflexivity.
  apply set_iter_codes in Hset as [Hok Hcode]; [|rewrite Egr; exact Hg|lia].
  assert (iter_code (firstIteration (w_priv w1)) (checkpointGranularity (w_priv w1)) (i + 1) = i + 1 - first + 3) as Ecode.
  { rewrite Ef, Egr. apply iter_code_first; lia. }
  constructor; simpl; rewrite ?Ea; try done.
  - constructor; simpl; [unfold is_worker in *; simpl; by rewrite Ea in *|by destruct Hok|exact Ecode|done|by constructor|].
    intros k Hk. change (shadow_byte (next_iter (i + 1) w1) k) with (shadow_byte w1 k). specialize (Ts k Hk). lia.
  - intros k Hk. change (shadow_byte (next_iter (i + 1) w1) k) with (shadow_byte w1 k). specialize (Ts k Hk).
    unfold READ_LIVE_IN in Ts. lia.
  - change (misspeculation_happened (pcb_ w1) = 0). by rewrite Ep.
Qed.

Lemma worker_iteration_at len g first nw v i prog w w' :
  0 < g ≤ 253 → 0 ≤ first ≤ i → i + 1 - first < g → i + 1 < 2 ^ 31 → 0 < nw →
  wf_body len (prog i) → at_iter len g first nw v i w →
  (v = i mod nw → misses (prog i) (world_of (begin_iter w)) = false) → worker_iteration prog w = Ok tt w' →
  at_iter len g first nw v (i + 1) w' ∧ shadow_le len w w' ∧
  if v =? i mod nw
  then ∀ M, (∀ k, 0 ≤ k < len → shadow_byte w' k = READ_LIVE_IN → rd M k = priv_byte w k) →
       follows len (i - first + 3) (shadow_byte w) (priv_byte w) (rd M) w' (seq_body (prog i) M)
  else ∀ k, shadow_byte w' k = shadow_byte w k ∧ priv_byte w' k = priv_byte w k.
Proof.
  intros Hg H0 Hi H31 Hnw Hwf A Hmiss. pose proof A as [T Ao A3 A4 A5 A6 A7 A8 A9]. unfold worker_iteration.
  set (wb := set_w_heaps (set_numLocalAUs 0 (set_myLocal (heap_reset (myLocal (w_heaps w))) (w_heaps w))) w).
  change (world_of (begin_iter w)) with wb in Hmiss. rewrite (bind_run _ _ w tt wb) by done.
  assert (current_iter_of (w_api wb) = i) as Ecur.
  { unfold current_iter_of. simpl. rewrite (proj2 (Z.eqb_neq _ _) A5). done. }
  rewrite (bind_run _ _ wb i wb) by (unfold current_iter, av, gets; by rewrite Ecur).
  rewrite (bind_run _ _ wb (v =? i mod nw) wb).
  2:{ unfold is_on_iter, av, gets. rewrite Ecur. simpl. rewrite A3, A4, (wrap_small 32) by (change (2 ^ 32) with (2 * 2 ^ 31); lia). done. }
  assert (track len (i - first + 3) wb) as Tb.
  { destruct T as [Tw Tc Tcode Tl [Ml Mr Mt Mw] Ts]. by constructor. }
  intros ([] & w1 & H1 & H2)%bind_ok.
  assert (track len (i - first + 3) w1 ∧ shadow_le len wb w1 ∧
    ∃ lo hi s e m, w1 = set_w_priv (ranged lo hi s e (w_priv wb)) (set_w_mem m wb)) as (T1 & L1 & lo & hi & s & e & m & Ef).
  { destruct (Z.eqb_spec v (i mod nw)); [by eapply run_body_track; [| |apply Hmiss|]|]. injection H1 as <-.
    split; [done|]. split; [apply shadow_le_refl|].
    apply ranged_id. }
  rewrite (worker_end_iter_run w1 i) in H2; [|by rewrite Ef|by rewrite Ef|by rewrite Ef|by rewrite Ef|lia|lia|].
  2:{ rewrite Ef. simpl. rewrite A7, A8, iter_code_first by lia. unfold NUM_RESERVED_SHADOW_VALUES. lia. }
  injection H2 as <-.
  split; [apply (next_iter_at len g first nw v i w w1); [lia|lia|lia|done|done|by rewrite Ef|by rewrite Ef|by rewrite Ef|by rewrite Ef]|].
  split; [by destruct L1; constructor|].
  destruct (Z.eqb_spec v (i mod nw)) as [Hv|_].
  - intros M Hend. change (follows len (i - first + 3) (shadow_byte w) (priv_byte w) (rd M) w1 (seq_body (prog i) M)).
    eapply (run_body_follows len _ _ _ _ (prog i) wb w1 M); [lia|done|done|by apply Hmiss|done| |done].
    intros k Hk. change (shadow_byte wb k) with (shadow_byte w k). split; [specialize (Ao k Hk); lia|].
    intros _. split_and!; [done|done|by left].
  - injection H1 as <-. done.
Qed.

(** ** All workers together *)

(** Worker [v] when the loop starts: nothing of its private heap was touched,
    and its bytes are those of [m0]. *)
Record worker_start (len g first nw v : Z) (m0 : mem) (w : World) : Prop := {
  ws_iter : at_iter len g first nw v first w;
  ws_shadow : ∀ k, 0 ≤ k < len → shadow_byte w k = LIVE_IN;
  ws_priv : ∀ k, 0 ≤ k < len → priv_byte w k = rd m0 k }.

Section Loop.
Context (len g first nw n : Z) (prog : Z → body) (start : Z → World) (m0 : mem).
Hypothesis Hg : 0 < g ≤ 253.
Hypothesis Hfirst : 0 ≤ first.
Hypothesis Hn : n < g.
Hypothesis Hlast : first + n < 2 ^ 31.
Hypothesis Hnw : 0 < nw.
Hypothesis Hprog : ∀ i, first ≤ i < first + n → wf_body len (prog i).
Hypothesis Hstart : ∀ v, 0 ≤ v < nw → worker_start len g first nw v m0 (start v).

(** Worker [v] after [j] iterations. *)
Let at_ (v j : Z) : World := world_of (worker_loop prog j (start v)).
Hypothesis Hrun : ∀ v, 0 ≤ v < nw → worker_loop prog n (start v) = Ok tt (at_ v n).
Hypothesis Hmiss : ∀ v j, 0 ≤ j < n → v = (first + j) mod nw → misses (prog (first + j)) (world_of (begin_iter (at_ v j))) = false.

Lemma loop_prefix v (d : nat) : 0 ≤ v < nw → Z.of_nat d ≤ n →
  worker_loop prog (n - Z.of_nat d) (start v) = Ok tt (at_ v (n - Z.of_nat d)).
Proof.
  intros Hv. induction d as [|d IH]; intros Hd.
  - rewrite Z.sub_0_r. by apply Hrun.
  - specialize (IH ltac:(lia)). replace (n - Z.of_nat d) with (n - Z.of_nat (S d) + 1) in IH by lia.
    unfold at_. revert IH. unfold worker_loop. rewrite seqZ_snoc, for_app by lia.
    intros ([] & w & H & _)%bind_ok. by rewrite H.
Qed.

Lemma loop_ok v j : 0 ≤ v < nw → 0 ≤ j ≤ n → worker_loop prog j (start v) = Ok tt (at_ v j).
Proof.
  intros Hv Hj. replace j with (n - Z.of_nat (Z.to_nat (n - j))) by lia. apply loop_prefix; lia.
Qed.

Lemma loop_step v j : 0 ≤ v < nw → 0 ≤ j < n → worker_iteration prog (at_ v j) = Ok tt (at_ v (j + 1)).
Proof.
  intros Hv Hj. pose proof (loop_ok v (j + 1) Hv ltac:(lia)) as H.
  revert H. unfold worker_loop at 1. rewrite seqZ_snoc, for_app by lia. fold (worker_loop prog j).
  unfold bind at 1. rewrite loop_ok by lia. intros ([] & w & H & [= <-])%bind_ok. exact H.
Qed.

Lemma at_zero v : at_ v 0 = start v.
Proof. done. Qed.

Lemma loop_at v (j : nat) : 0 ≤ v < nw → Z.of_nat j ≤ n →
  at_iter len g first nw v (first + Z.of_nat j) (at_ v (Z.of_nat j)).
Proof.
  intros Hv. induction j as [|j IH]; intros Hj.
  - rewrite Z.add_0_r. by apply (Hstart v Hv).
  - replace (Z.of_nat (S j)) with (Z.of_nat j + 1) by lia. rewrite Z.add_assoc.
    eapply worker_iteration_at; [done| | | |exact Hnw|apply Hprog|apply IH|apply Hmiss|apply loop_step]; lia.
Qed.

(** The step of worker [v] from iteration [j]. *)
Lemma loop_effect v j : 0 ≤ v < nw → 0 ≤ j < n →
  at_iter len g first nw v (first + j) (at_ v j) ∧
  shadow_le len (at_ v j) (at_ v (j + 1)) ∧
  if v =? (first + j) mod nw
  then ∀ M, (∀ k, 0 ≤ k < len → shadow_byte (at_ v (j + 1)) k = READ_LIVE_IN → rd M k = priv_byte (at_ v j) k) →
       follows len (j + 3) (shadow_byte (at_ v j)) (priv_byte (at_ v j)) (rd M) (at_ v (j + 1))
         (seq_body (prog (first + j)) M)
  else ∀ k, shadow_byte (at_ v (j + 1)) k = shadow_byte (at_ v j) k ∧
            priv_byte (at_ v (j + 1)) k = priv_byte (at_ v j) k.
Proof.
  intros Hv Hj. pose proof (loop_at v (Z.to_nat j) Hv ltac:(lia)) as A. rewrite Z2Nat.id in A by lia.
  split; [exact A|]. replace (j + 3) with (first + j - first + 3) by lia.
  eapply worker_iteration_at; [done| | | |exact Hnw|apply Hprog|exact A|by apply Hmiss|by apply loop_step]; lia.
Qed.

Lemma loop_le v j (d : nat) : 0 ≤ v < nw → 0 ≤ j → j + Z.of_nat d ≤ n →
  shadow_le len (at_ v j) (at_ v (j + Z.of_nat d)).
Proof.
  intros Hv Hj. induction d as [|d IH]; intros Hd.
  - rewrite Z.add_0_r. apply shadow_le_refl.
  - eapply shadow_le_trans; [apply IH; lia|].
    replace (j + Z.of_nat (S d)) with (j + Z.of_nat d + 1) by lia. apply loop_effect; lia.
Qed.

Lemma loop_le_end v j : 0 ≤ v < nw → 0 ≤ j ≤ n → shadow_le len (at_ v j) (at_ v n).
Proof.
  intros Hv Hj. replace n with (j + Z.of_nat (Z.to_nat (n - j))) by lia. apply loop_le; lia.
Qed.

Lemma loop_shadow v j k : 0 ≤ v < nw → 0 ≤ j ≤ n → 0 ≤ k < len →
  0 ≤ shadow_byte (at_ v j) k ≤ READ_LIVE_IN ∨ NUM_RESERVED_SHADOW_VALUES ≤ shadow_byte (at_ v j) k < j + 3.
Proof.
  intros Hv Hj Hk. pose proof (loop_at v (Z.to_nat j) Hv ltac:(lia)) as A. rewrite Z2Nat.id in A by lia.
  pose proof (tr_shadow _ _ _ (ai_track _ _ _ _ _ _ _ A) k Hk) as T. pose proof (ai_old _ _ _ _ _ _ _ A k Hk).
  pose proof (rd_range (w_mem (at_ v j)) (SHADOW_ADDR + k)) as R. fold (shadow_byte (at_ v j) k) in R. lia.
Qed.

(** ** The merge found no conflict *)

(** No byte was read as live-in by one worker and written by another. *)
Hypothesis Hmerge : ∀ u v k, 0 ≤ u < nw → 0 ≤ v < nw → 0 ≤ k < len →
  shadow_byte (at_ u n) k = READ_LIVE_IN → shadow_byte (at_ v n) k ≤ READ_LIVE_IN.

(** The sequential memory [M] after [j] iterations. *)
Record agrees (j : Z) (M : mem) : Prop := {
  ag_live : ∀ v k, 0 ≤ v < nw → 0 ≤ k < len → shadow_byte (at_ v j) k ≤ READ_LIVE_IN →
    priv_byte (at_ v j) k = rd m0 k;
  ag_none : ∀ k, 0 ≤ k < len → (∀ v, 0 ≤ v < nw → shadow_byte (at_ v j) k ≤ READ_LIVE_IN) → rd M k = rd m0 k;
  ag_newest : ∀ v k, 0 ≤ v < nw → 0 ≤ k < len → NUM_RESERVED_SHADOW_VALUES ≤ shadow_byte (at_ v j) k →
    (∀ u, 0 ≤ u < nw → shadow_byte (at_ u j) k ≤ shadow_byte (at_ v j) k) → rd M k = priv_byte (at_ v j) k }.

(** A byte the owner of iteration [j] still has as read live-in was written by
    no one so far. *)
Lemma agrees_live o j M k : 0 ≤ o < nw → 0 ≤ j < n → 0 ≤ k < len → agrees j M →
  shadow_byte (at_ o (j + 1)) k = READ_LIVE_IN → rd M k = priv_byte (at_ o j) k.
Proof.
  intros Ho Hj Hk [Al An _] Hr.
  pose proof (sl_read _ _ _ (loop_le_end o (j + 1) Ho ltac:(lia)) k Hk Hr) as Hend.
  assert (∀ v, 0 ≤ v < nw → shadow_byte (at_ v j) k ≤ READ_LIVE_IN) as Hall.
  { intros v Hv. destruct (loop_shadow v j k Hv ltac:(lia) Hk) as [?|[H3 _]]; [lia|].
    pose proof (sl_written _ _ _ (loop_le_end v j Hv ltac:(lia)) k Hk H3) as H3'.
    specialize (Hmerge o v k Ho Hv Hk Hend). unfold NUM_RESERVED_SHADOW_VALUES, READ_LIVE_IN in *. lia. }
  rewrite (An k Hk Hall). symmetry. by apply Al, Hall.
Qed.

(** How the shadow and the bytes of all workers change in one iteration. *)
Lemma step_bytes o j M : 0 ≤ j < n → o = (first + j) mod nw → agrees j M →
  let M' := seq_body (prog (first + j)) M in
  (∀ v k, 0 ≤ v < nw → v ≠ o → shadow_byte (at_ v (j + 1)) k = shadow_byte (at_ v j) k ∧
     priv_byte (at_ v (j + 1)) k = priv_byte (at_ v j) k) ∧
  follows len (j + 3) (shadow_byte (at_ o j)) (priv_byte (at_ o j)) (rd M) (at_ o (j + 1)) M'.
Proof.
  intros Hj -> Hag. cbv zeta. set (o := (first + j) mod nw).
  assert (0 ≤ o < nw) as Ho by (apply Z.mod_pos_bound; lia). split.
  - intros v k Hv Hne. destruct (loop_effect v j Hv Hj) as (_ & _ & H).
    fold o in H. rewrite (proj2 (Z.eqb_neq _ _) Hne) in H. apply H.
  - destruct (loop_effect o j Ho Hj) as (_ & _ & H). fold o in H. rewrite Z.eqb_refl in H. apply H.
    intros k Hk Hr. by eapply agrees_live.
Qed.

Lemma agrees_step j M : 0 ≤ j < n → agrees j M → agrees (j + 1) (seq_body (prog (first + j)) M).
Proof.
  intros Hj Hag. destruct (step_bytes _ j M Hj eq_refl Hag) as [Hoff Hon]. destruct Hag as [Al An Aw].
  set (o := (first + j) mod nw) in *. assert (0 ≤ o < nw) as Ho by (apply Z.mod_pos_bound; lia).
  assert (∀ v k, 0 ≤ v < nw → 0 ≤ k < len → shadow_byte (at_ v (j + 1)) k ≠ j + 3 →
    priv_byte (at_ v (j + 1)) k = priv_byte (at_ v j) k ∧
    (shadow_byte (at_ v (j + 1)) k = shadow_byte (at_ v j) k ∨
     shadow_byte (at_ v j) k = LIVE_IN ∧ shadow_byte (at_ v (j + 1)) k = READ_LIVE_IN)) as Hsame.
  { intros v k Hv Hk Hc. destruct (decide (v = o)) as [->|Hne].
    - by destruct (Hon k Hk) as [_ (_ & ? & ?)].
    - destruct (Hoff v k Hv Hne) as [-> ->]. auto. }
  assert (∀ v k, 0 ≤ v < nw → v ≠ o → 0 ≤ k < len → shadow_byte (at_ v (j + 1)) k < j + 3) as Hlow.
  { intros v k Hv Hne Hk. destruct (Hoff v k Hv Hne) as [-> _].
    pose proof (loop_shadow v j k Hv ltac:(lia) Hk). unfold READ_LIVE_IN in *. lia. }
  unfold READ_LIVE_IN, LIVE_IN, NUM_RESERVED_SHADOW_VALUES in *.
  constructor; unfold READ_LIVE_IN, NUM_RESERVED_SHADOW_VALUES.
  - intros v k Hv Hk Hs. destruct (Hsame v k Hv Hk ltac:(lia)) as [-> Hx]. apply Al; [done|done|lia].
  - intros k Hk Hall. destruct (Hon k Hk) as [_ (-> & _ & _)]; [specialize (Hall o Ho); lia|].
    apply An; [done|]. intros v Hv. specialize (Hall v Hv).
    destruct (Hsame v k Hv Hk ltac:(lia)) as [_ Hx]. lia.
  - intros v k Hv Hk H3 Hmax. destruct (Hon k Hk) as [Hc Hnc].
    destruct (decide (shadow_byte (at_ o (j + 1)) k = j + 3)) as [E|E].
    + rewrite (Hc E). destruct (decide (v = o)) as [->|Hne]; [done|].
      specialize (Hlow v k Hv Hne Hk). specialize (Hmax o Ho). lia.
    + destruct (Hnc E) as (-> & _ & _).
      assert (∀ u, 0 ≤ u < nw → shadow_byte (at_ u (j + 1)) k ≠ j + 3) as Hne.
      { intros u Hu. destruct (decide (u = o)) as [->|Hne]; [done|]. specialize (Hlow u k Hu Hne Hk). lia. }
      destruct (Hsame v k Hv Hk (Hne v Hv)) as [-> Hx]. apply Aw; [done|done|lia|].
      intros u Hu. specialize (Hmax u Hu). destruct (Hsame u k Hu Hk (Hne u Hu)) as [_ Hy]. lia.
Qed.

Lemma agrees_loop (j : nat) : Z.of_nat j ≤ n → agrees (Z.of_nat j) (seq_loop prog first (Z.of_nat j) m0).
Proof.
  induction j as [|j IH]; intros Hj.
  - constructor.
    + intros v k Hv Hk _. by apply (Hstart v Hv).
    + done.
    + intros v k Hv Hk H3. change (at_ v (Z.of_nat 0)) with (start v) in H3.
      rewrite (ws_shadow _ _ _ _ _ _ _ (Hstart v Hv) k Hk) in H3. done.
  - replace (Z.of_nat (S j)) with (Z.of_nat j + 1) by lia. unfold seq_loop.
    rewrite seqZ_snoc, foldl_app, Z.add_0_l by lia. apply agrees_step; [lia|]. apply IH. lia.
Qed.

Lemma agrees_end : 0 ≤ n → agrees n (seq_loop prog first n m0).
Proof. intros H. rewrite <-(Z2Nat.id n) by done. apply agrees_loop. lia. Qed.

Lemma loop_mergeable v : 0 ≤ n → 0 ≤ v < nw → mergeable len (at_ v n).
Proof.
  intros H Hv. pose proof (loop_at v (Z.to_nat n) Hv ltac:(lia)) as A. rewrite Z2Nat.id in A by lia.
  apply (ai_track _ _ _ _ _ _ _ A).
Qed.
End Loop.

(** ** From the start of the invocation to the commit *)

(** A worker takes part in an invocation. *)
Definition worker_run (prog : Z → body) (first n : Z) : X unit :=
  worker_starts first ;;; worker_loop prog n.

(** The worker when it has begun iteration [i]. *)
Definition worker_before (prog : Z → body) (first i : Z) (w : World) : World :=
  world_of ((worker_starts first ;;; worker_loop prog (i - first) ;;; begin_iter) w).

Definition own_range (w : World) : Prop :=
  range_ok (sizeof_private (w_heaps w)) (shadow_lowest_inclusive (w_priv w)) (shadow_highest_exclusive (w_priv w)).

Lemma ready_start len g nw v k first w w' : worker_ready len g nw v k w → own_range w →
  0 < len ≤ MAX_LEN → 0 < g ≤ 253 → 0 ≤ v < MAX_WORKERS → worker_starts first w = Ok tt w' →
  worker_start len g first nw v (h_data (heap_priv k)) w'.
Proof.
  intros R Hrange Hl Hg Hv Hrun.
  destruct (worker_starts_run len g nw v k first w R Hg) as (w1 & w2 & E & V & Em & S).
  rewrite Hrun in E. injection E as <-. destruct R as [_ _ Rl _ Ri Rn Re Rg Rm].
  assert (len ≤ HEAP_SIZE) as Hlh by (unfold MAX_LEN, HEAP_SIZE in *; lia).
  assert (sizeof_private (w_heaps w') = len) as El.
  { pose proof (sd_sizes _ _ _ S) as Es. unfold sizes in Es. injection Es as Es. congruence. }
  assert (∀ j, 0 ≤ j < len → shadow_byte w' j = LIVE_IN) as Hsh.
  { intros j Hj. unfold shadow_byte. rewrite Em. apply V. lia. }
  unfold own_range in Hrange. rewrite Rl in Hrange. constructor.
  - constructor; rewrite ?(sd_api _ _ _ S); try done.
    + constructor.
      * unfold is_worker. rewrite (sd_api _ _ _ S). simpl. rewrite Ri. unfold MAX_WORKERS in Hv.
        change MAIN_PROCESS with 4294967295. lia.
      * apply S.
      * rewrite Z.sub_diag. apply S.
      * done.
      * constructor; [done|by rewrite (sd_low _ _ _ S), (sd_high _ _ _ S)| |]; intros j Hj; by rewrite Hsh.
      * intros j Hj. rewrite Hsh by done. by left.
    + intros j Hj. rewrite Hsh, Z.sub_diag by done. done.
    + apply S.
    + by rewrite (sd_gran _ _ _ S).
    + unfold pcb_ in *. by rewrite (sd_shared _ _ _ S).
  - exact Hsh.
  - intros j Hj. unfold priv_byte. rewrite Em. apply V. lia.
Qed.

(** The bytes the main process ends with, when the checkpoint collects workers
    that agree with [M]. *)
Lemma committed_agrees len n k m (at_ : Z → World) nw M : 0 < len ≤ MAX_LEN → 0 < nw →
  collects len (at_ <$> seqZ 0 nw) k →
  (∀ v j, 0 ≤ v < nw → 0 ≤ j < len → 0 ≤ shadow_byte (at_ v) j ≤ READ_LIVE_IN ∨
     NUM_RESERVED_SHADOW_VALUES ≤ shadow_byte (at_ v) j < n + 3) →
  (∀ j, 0 ≤ j < len → (∀ v, 0 ≤ v < nw → shadow_byte (at_ v) j ≤ READ_LIVE_IN) → rd M j = rd m j) →
  (∀ v j, 0 ≤ v < nw → 0 ≤ j < len → NUM_RESERVED_SHADOW_VALUES ≤ shadow_byte (at_ v) j →
     (∀ u, 0 ≤ u < nw → shadow_byte (at_ u) j ≤ shadow_byte (at_ v) j) → rd M j = priv_byte (at_ v) j) →
  ∀ j, 0 ≤ j < len → committed k m j = rd M j.
Proof.
  intros Hl Hnw [Cr Cw Cn Cf _] Hcodes Hnone Hnewest j Hj. unfold committed, WAS_WRITTEN_EVER, OLD_ITERATION.
  assert (∀ v, 0 ≤ v < nw → shadow_byte (at_ v) j ≤ rd (h_data (heap_shadow k)) j) as Hmax.
  { intros v Hv. apply Cn; [|done]. apply list_elem_of_fmap. exists v. split; [done|]. apply elem_of_seqZ. lia. }
  destruct (decide (rd (h_data (heap_shadow k)) j ≤ READ_LIVE_IN)) as [Hle|Hgt].
  - rewrite (proj2 (Z.leb_gt _ _)) by (unfold READ_LIVE_IN in Hle; lia). rewrite andb_false_r. symmetry.
    apply Hnone; [done|]. intros v Hv. specialize (Hmax v Hv). lia.
  - destruct (Cf j Hj) as [E|(w & Hw & E & Hp)]; [unfold LIVE_IN, READ_LIVE_IN in *; lia|].
    apply list_elem_of_fmap in Hw as (v & -> & Hv%elem_of_seqZ).
    rewrite (proj2 (in_range_iff len k j ltac:(lia) Cr ltac:(lia))) by (apply Cw; [done|lia]).
    rewrite (proj2 (Z.leb_le _ _)) by (unfold READ_LIVE_IN in Hgt; lia). cbn [andb].
    rewrite Hp by lia. symmetry. apply Hnewest; [lia|done| |intros u Hu; rewrite <-E; by apply Hmax].
    destruct (Hcodes v j ltac:(lia) Hj); lia.
Qed.

(** Two workers, four iterations: iteration [i] reads byte 8, writes byte [i]
    and writes bytes 4 to 7, which every iteration writes. *)
Definition demo_prog (i : Z) : body :=
  Load Read_1b 8 (λ v, Store Write_1b i [default 0 (v !! 0%nat) + i] (Store Write_4b 4 [i; i; i; i] Done)).
Definition demo_fin (v : Z) : World := world_of (worker_run demo_prog 0 4 (demo_worker v)).

(** The checkpoint object for the final checkpoint, initialised. *)
Definition demo_checkpoint : X Z :=
  let! c := get_checkpoint_for_iter LAST_ITERATION in
  initialize_partial_checkpoint c ;;; ret c.
Definition demo_c : Z := match demo_checkpoint (demo_fin 0) with Ok c _ => c | Stop _ _ => 0 end.
Definition demo_shared : Shared := w_shared (world_of (demo_checkpoint (demo_fin 0))).
Definition demo_partial : Checkpoint := default fresh_checkpoint (sh_chkpts demo_shared !! demo_c).
Definition demo_merged : Shared := default demo_shared (distill_all demo_c [demo_fin 1; demo_fin 0] demo_shared).
Definition demo_commit : World := set_w_shared demo_merged demo_main.

Lemma demo_wf i : 0 ≤ i < 4 → wf_body 16 (demo_prog i).
Proof. intros Hi. cbn. split_and!; try done; lia. Qed.

Lemma demo_range v : 0 ≤ v < 2 → own_range (demo_worker v).
Proof. intros Hv. assert (v = 0 ∨ v = 1) as [-> | ->] by lia; left; vm_compute; by split. Qed.

Lemma demo_runs v : 0 ≤ v < 2 → worker_run demo_prog 0 4 (demo_worker v) = Ok tt (demo_fin v).
Proof. intros Hv. apply returned_ok. assert (v = 0 ∨ v = 1) as [-> | ->] by lia; by vm_compute. Qed.

Definition demo_missed (i : Z) : bool := misses (demo_prog i) (worker_before demo_prog 0 i (demo_worker (i mod 2))).
Lemma demo_misses i : 0 ≤ i < 4 → demo_missed i = false.
Proof.
  intros Hi. assert (existsb demo_missed (seqZ 0 4) = false) as H by by vm_compute.
  apply not_true_iff_false. intros Hm. apply not_true_iff_false in H. apply H, existsb_exists. exists i.
  split; [|done]. apply list_elem_of_In, elem_of_seqZ. lia.
Qed.

Lemma demo_fresh : fresh_partial 16 demo_partial.
Proof.
  constructor; [|vm_compute; reflexivity..]. intros j Hj.
  assert (Forall (λ j, rd (h_data (heap_shadow demo_partial)) j = LIVE_IN) (seqZ 0 16)) as H by (vm_compute; by repeat constructor).
  rewrite Forall_forall in H. apply H, elem_of_seqZ. lia.
Qed.

Lemma demo_merges : distill_all demo_c [demo_fin 1; demo_fin 0] demo_shared = Some demo_merged.
Proof. apply some_default. by vm_compute. Qed.

Lemma demo_mains : sh_chkpts demo_shared !! demo_c = Some demo_partial ∧ main_checkpoint (checkpoints (pcb_ demo_commit)) ≠ demo_c ∧
  sh_chkpts demo_shared !! main_checkpoint (checkpoints (pcb_ demo_commit)) = Some demo_object ∧ sizeof_private (w_heaps demo_commit) = 16.
Proof.
  split; [apply some_default; by vm_compute|]. split; [by vm_compute|].
  split; [vm_compute; reflexivity|by vm_compute].
Qed.

(** A byte that one worker read live-in was written by none, when the merge of
    all workers succeeded. *)
Lemma collected_compat len nw fin k : collects len (fin <$> seqZ 0 nw) k → ∀ u v i, 0 ≤ u < nw → 0 ≤ v < nw → 0 ≤ i < len →
  shadow_byte (fin u) i = READ_LIVE_IN → shadow_byte (fin v) i ≤ READ_LIVE_IN.
Proof.
  intros Hcol u v i Hu Hv Hi Hr. assert (∀ x, 0 ≤ x < nw → fin x ∈ fin <$> seqZ 0 nw) as Hin.
  { intros x Hx. apply list_elem_of_fmap. exists x. split; [done|]. apply elem_of_seqZ. lia. }
  pose proof (co_newest _ _ _ Hcol (fin v) i (Hin v Hv) Hi).
  pose proof (co_compat _ _ _ Hcol (fin u) i (Hin u Hu) Hi Hr). lia.
Qed.



(** ** Two loops that are not sequential

    What the hypotheses of the theorem exclude does happen. *)

(** The loop [for (i = 0; i < 2; ++i) x = x + 1] on a 4-byte [x] at byte 0: the
    write is inside the last live-in read, so it is not checked and hides the
    read from the merge. *)
Definition incr_prog (i : Z) : body :=
  Load Read_4b 0 (λ v, Store Write_4b 0 [default 0 (v !! 0%nat) + 1; 0; 0; 0] Done).
Definition incr_fin (v : Z) : World := world_of (worker_run incr_prog 0 2 (demo_worker v)).
Definition incr_merged : option Shared := distill_all demo_c [incr_fin 0; incr_fin 1] demo_shared.
Definition incr_commit : res World bool :=
  distill_committed_private_into_main demo_c (set_w_shared (default demo_shared incr_merged) demo_main).
Definition main_priv (w : World) (j : Z) : Z :=
  match sh_chkpts (w_shared w) !! main_checkpoint (checkpoints (pcb_ w)) with
  | Some k => rd (h_data (heap_priv k)) j
  | None => -1
  end.

(** Both workers return, both merges report nothing, the commit succeeds, and
    one of the two increments is lost. *)
Lemma unchecked_write_loses_update :
  misses (incr_prog 0) (worker_before incr_prog 0 0 (demo_worker 0)) = true ∧
  returned (worker_run incr_prog 0 2 (demo_worker 0)) = true ∧
  returned (worker_run incr_prog 0 2 (demo_worker 1)) = true ∧
  bool_decide (is_Some incr_merged) = true ∧ returned incr_commit = true ∧
  main_priv (world_of incr_commit) 0 = 1 ∧
  rd (seq_loop incr_prog 0 2 (h_data (heap_priv demo_object))) 0 = 2.
Proof. by vm_compute. Qed.

(** Iteration 0 writes byte 8, iteration 1 copies byte 8 to byte 0. *)
Definition flow_prog (i : Z) : body :=
  if i =? 0 then Store Write_1b 8 [77] Done
  else Load Read_1b 8 (λ v, Store Write_1b 0 [default 0 (v !! 0%nat)] Done).
(** A worker runs the loop and takes its final checkpoint, on the shared objects
    that the worker before it left. *)
Definition flow_worker (sh : Shared) (v : Z) : World :=
  world_of ((worker_run flow_prog 0 2 ;;; worker_finishes 1) (set_w_shared sh (demo_worker v))).
Definition flow_shared : Shared := w_shared (flow_worker (w_shared (flow_worker (w_shared demo_main) 0)) 1).
Definition flow_join : res World Z := join_children (set_w_shared flow_shared demo_main).

(** The merge of worker 1 finds the conflict and returns 1, but
    [__specpriv_worker_perform_checkpoint] does not use the result: both workers
    finish, no misspeculation is recorded, and the main process adopts a
    checkpoint that lacks what iteration 1 wrote. *)
Lemma merge_conflict_ignored :
  (let w1 := set_w_shared (w_shared (flow_worker (w_shared demo_main) 0)) (demo_worker 1) in
   match (worker_run flow_prog 0 2 ;;; let! c := get_checkpoint_for_iter LAST_ITERATION in
          distill_worker_private_into_partial c) w1 with Ok b _ => b | Stop _ _ => false end) = true ∧
  all_done (set_w_shared flow_shared demo_main) = true ∧
  returned flow_join = true ∧ misspeculation_happened (pcb_ (world_of flow_join)) = 0 ∧
  main_priv (world_of flow_join) 0 = 0 ∧
  rd (seq_loop flow_prog 0 2 (h_data (heap_priv demo_object))) 0 = 77.
Proof. by vm_compute. Qed.
