(* ===== verification/Clique.v ===== *)
(** Choosing loops: [lib/GraphAlgorithms/Ebk.cpp].

    The loops that can be parallelised are the vertices of a graph, weighted by
    what parallelising them saves; an edge joins loops that are never active at
    the same time.  The planner transforms a clique of greatest weight, which
    [ebk], an extended Bron-Kerbosch search, finds. *)
From S2P Require Import Prelude Machine.
#[local] Open Scope Z_scope.

(** ** [Graphs.h] *)

Abbreviation Vertex := Z (only parsing).
Abbreviation VertexSet := (list Z) (only parsing).
Abbreviation Edges := (gset (Z * Z)) (only parsing).
Abbreviation VertexWeights := (list Z) (only parsing).

(** [W[v]], of type [long]. *)
Definition weight (W : VertexWeights) (v : Vertex) : Z := default 0 (W !! Z.to_nat v).

(** ** The search *)

(** The weight of a clique is accumulated in an [int]. *)
Definition clique_weight (W : VertexWeights) (c : VertexSet) : Z :=
  foldl (λ c_wt v, i32 (c_wt + weight W v)) 0 c.

(** The vertices [i] below [N] with an edge from [v], which are in [l]. *)
Definition intersect_nv (E : Edges) (N : Z) (v : Vertex) (l : VertexSet) : VertexSet :=
  filter (λ i, i ∈ l) (filter (λ i, (v, i) ∈ E) (seqZ 0 N)).

(** The loop takes vertices from the back of [p]; [stack] is [p] from its back.
    [rec] is the recursive call. *)
Fixpoint ebk_loop (rec : VertexSet → VertexSet → VertexSet → VertexSet * Z → option (VertexSet * Z))
    (E : Edges) (N : Z) (c : VertexSet) (stack s : VertexSet) (best : VertexSet * Z) :
    option (VertexSet * Z) :=
  match stack with
  | [] => Some best
  | v :: stack' =>
      match rec (c ++ [v]) (intersect_nv E N v stack) (intersect_nv E N v s) best with
      | Some best' => ebk_loop rec E N c stack' (s ++ [v]) best'
      | None => None
      end
  end.

(** The static [ebk]; [best] has the best clique and its weight. *)
Fixpoint ebk_search (fuel : nat) (E : Edges) (W : VertexWeights) (c p s : VertexSet)
    (best : VertexSet * Z) : option (VertexSet * Z) :=
  match fuel with
  | O => None
  | S fuel' =>
      match p, s with
      | [], [] =>
          let c_wt := clique_weight W c in
          Some (if best.2 <? c_wt then (c, c_wt) else best)
      | _, _ => ebk_loop (ebk_search fuel' E W) E (Z.of_nat (length W)) c (reverse p) s best
      end
  end.

(** [ebk]; [mwcp] is the output vector as the caller passes it.  Every level of
    the recursion takes a vertex from [p], so one level more than there are
    vertices is enough. *)
Definition ebk (E : Edges) (W : VertexWeights) (mwcp : VertexSet) : option (VertexSet * Z) :=
  ebk_search (S (length W)) E W [] (seqZ 0 (Z.of_nat (length W))) [] (mwcp, -1000).

(** ** Cliques *)

Section Graph.
Context (E : Edges) (W : VertexWeights).
Let N : Z := Z.of_nat (length W).

(** [computeEdges] inserts both directions of edges between different vertices. *)
Record simple_graph : Prop := {
  sg_loops : ∀ v, (v, v) ∉ E;
  sg_sym : ∀ u v, (u, v) ∈ E → (v, u) ∈ E }.

(** Weights for which the sums of the search do not overflow. *)
Record bounded_weights : Prop := {
  bw_pos : Forall (λ x, 0 ≤ x) W;
  bw_sum : foldr Z.add 0 W < 2 ^ 31 }.

Record clique (C : VertexSet) : Prop := {
  cl_nodup : NoDup C;
  cl_range : ∀ v, v ∈ C → 0 ≤ v < N;
  cl_edge : ∀ u v, u ∈ C → v ∈ C → u ≠ v → (u, v) ∈ E }.

(** The weight of a clique without overflow. *)
Definition total (C : VertexSet) : Z := sumZ (weight W) C.

Definition adjacent_to (c : VertexSet) (x : Vertex) : Prop :=
  0 ≤ x < N ∧ (x ∉ c) ∧ Forall (λ u, (u, x) ∈ E ∧ (x, u) ∈ E) c.
#[local] Instance adjacent_to_dec c x : Decision (adjacent_to c x).
Proof. unfold adjacent_to. apply _. Defined.

Definition maximal (C : VertexSet) : Prop := clique C ∧ ∀ x, ¬ adjacent_to C x.

Lemma clique_snoc c x : clique c → adjacent_to c x → clique (c ++ [x]).
Proof.
  intros [Hn Hr He] (Hx & Hxc & Hadj). rewrite Forall_forall in Hadj. constructor.
  - apply NoDup_app. split; [done|]. split; [|apply NoDup_singleton].
    intros v Hv ->%list_elem_of_singleton. done.
  - intros v [Hv| ->%list_elem_of_singleton]%elem_of_app; [by apply Hr|done].
  - intros u v [Hu|Hu%list_elem_of_singleton]%elem_of_app [Hv|Hv%list_elem_of_singleton]%elem_of_app Hne; subst.
    + by apply He.
    + by apply Hadj.
    + by apply Hadj.
    + done.
Qed.

Context (HE : simple_graph) (HW : bounded_weights).

Lemma weight_pos v : 0 ≤ weight W v.
Proof.
  unfold weight. destruct (W !! Z.to_nat v) eqn:Ev; simpl; [|lia].
  by apply (Forall_lookup_1 _ _ _ _ (bw_pos HW) Ev).
Qed.

Lemma total_pos C : 0 ≤ total C.
Proof. apply sumZ_nonneg. intros v _. apply weight_pos. Qed.

(** A set of vertices weighs at most all of them. *)
Lemma total_all : total (seqZ 0 N) = foldr Z.add 0 W.
Proof.
  assert (∀ C, total C = foldr Z.add 0 (weight W <$> C)) as -> by (induction C as [|v C IH]; [done|]; cbn [fmap list_fmap foldr]; by rewrite <- IH).
  unfold N. f_equal. apply list_eq. intros i. rewrite list_lookup_fmap.
  destruct (decide (i < length W)%nat) as [Hi|Hi].
  - rewrite lookup_seqZ_lt by lia. simpl. unfold weight. replace (Z.to_nat (0 + Z.of_nat i)) with i by lia.
    destruct (lookup_lt_is_Some_2 W i Hi) as [x ->]. done.
  - rewrite lookup_seqZ_ge by lia. symmetry. apply lookup_ge_None_2. lia.
Qed.

Lemma total_bound C : NoDup C → (∀ v, v ∈ C → 0 ≤ v < N) → total C < 2 ^ 31.
Proof.
  intros Hn Hr. apply Z.le_lt_trans with (total (seqZ 0 N)); [|rewrite total_all; apply HW].
  destruct (submseteq_Permutation C (seqZ 0 N)) as [D HD].
  { apply NoDup_submseteq; [done|]. intros v Hv. apply elem_of_seqZ. specialize (Hr v Hv). lia. }
  unfold total. rewrite HD, sumZ_app. fold (total C) (total D). pose proof (total_pos D). lia.
Qed.

Lemma clique_weight_total c : clique c → clique_weight W c = total c.
Proof.
  intros [Hn Hr _]. pose proof (total_bound c Hn Hr) as Hb. revert Hb. unfold clique_weight.
  clear Hn Hr. induction c as [|v c IH] using rev_ind; [done|]. rewrite foldl_app. unfold total. rewrite sumZ_app. fold (total c) (total [v]). cbn [foldl].
  intros Hb. pose proof (weight_pos v). pose proof (total_pos c).
  assert (total [v] = weight W v) as Hv by (unfold total; simpl; lia). rewrite Hv in Hb |- *.
  rewrite IH by lia. unfold swrap, wrap. rewrite Z.mod_small by (change (32 - 1) with 31; lia). lia.
Qed.

(** Vertices are added to a clique until it is maximal. *)
Lemma maximal_above C : clique C → ∃ D, maximal D ∧ total C ≤ total D.
Proof.
  assert (∀ n C, clique C → (length W - length C ≤ n)%nat → ∃ D, maximal D ∧ total C ≤ total D) as H.
  2:{ intros HC. by apply (H (length W) C); [|lia]. }
  induction n as [|n IH]; clear C; intros C HC Hn.
  all: destruct (decide (Exists (λ x, adjacent_to C x) (seqZ 0 N))) as [Hex|Hno].
  - apply Exists_exists in Hex as (x & _ & Hx). pose proof (clique_snoc _ _ HC Hx) as HC'.
    assert (length (C ++ [x]) ≤ length W)%nat as Hl.
    { transitivity (length (seqZ 0 N)); [|rewrite length_seqZ; unfold N; lia].
      apply submseteq_length, NoDup_submseteq; [apply HC'|]. intros v Hv. apply elem_of_seqZ.
      pose proof (cl_range _ HC' v Hv). lia. }
    rewrite length_app in Hl. simpl in Hl. lia.
  - exists C. split; [|done]. split; [done|]. intros x Hx. apply Hno, Exists_exists. exists x. split; [|done].
    apply elem_of_seqZ. destruct Hx. lia.
  - apply Exists_exists in Hex as (x & _ & Hx). destruct (IH (C ++ [x])) as (D & HD & Ht); [by apply clique_snoc| |].
    { rewrite length_app. simpl. lia. }
    exists D. split; [done|]. unfold total in Ht at 1. rewrite sumZ_app in Ht. fold (total C) (total [x]) in Ht. pose proof (total_pos [x]). lia.
  - exists C. split; [|done]. split; [done|]. intros x Hx. apply Hno, Exists_exists. exists x. split; [|done].
    apply elem_of_seqZ. destruct Hx. lia.
Qed.

(** ** The search covers every maximal clique *)

Definition valid_best (best : VertexSet * Z) : Prop :=
  best.2 < 0 ∨ clique best.1 ∧ best.2 = total best.1.

(** What a call with clique [c] and candidates [p] does. *)
Definition covers (c p : VertexSet) (best : VertexSet * Z) (r : option (VertexSet * Z)) : Prop :=
  ∃ best', r = Some best' ∧ valid_best best' ∧ best.2 ≤ best'.2 ∧
    ∀ C, maximal C → (∀ x, x ∈ c → x ∈ C) → (∀ x, x ∈ C → x ∈ c ∨ x ∈ p) → total C ≤ best'.2.

Definition candidates (c p s : VertexSet) : Prop :=
  clique c ∧ NoDup p ∧ (∀ x, x ∈ p → adjacent_to c x) ∧ (∀ x, x ∈ s → adjacent_to c x).

Lemma elem_of_intersect v l x : x ∈ intersect_nv E N v l ↔ x ∈ l ∧ (v, x) ∈ E ∧ 0 ≤ x < N.
Proof. unfold intersect_nv. rewrite !list_elem_of_filter, elem_of_seqZ. intuition lia. Qed.

Lemma intersect_adjacent c v l x : adjacent_to c v → (∀ y, y ∈ l → adjacent_to c y) →
  x ∈ intersect_nv E N v l → adjacent_to (c ++ [v]) x.
Proof.
  intros Hv Hl (Hx & Hvx & Hr)%elem_of_intersect. destruct (Hl x Hx) as (_ & Hxc & Hadj).
  split; [done|]. split.
  - rewrite elem_of_app, list_elem_of_singleton. intros [?| ->]; [done|]. by apply (sg_loops HE v).
  - apply Forall_app. split; [done|]. constructor; [|constructor]. split; [done|]. by apply HE.
Qed.

Lemma candidates_step c v stack s : candidates c (v :: stack) s →
  candidates (c ++ [v]) (intersect_nv E N v (v :: stack)) (intersect_nv E N v s) ∧
  (length (intersect_nv E N v (v :: stack)) ≤ length stack)%nat ∧ candidates c stack (s ++ [v]).
Proof.
  intros (Hc & Hn & Hp & Hs). assert (adjacent_to c v) as Hv by (apply Hp; by left). split; [|split].
  - split; [by apply clique_snoc|]. split; [apply NoDup_filter, NoDup_filter, NoDup_seqZ|].
    split; intros x; by apply intersect_adjacent.
  - apply submseteq_length, NoDup_submseteq; [apply NoDup_filter, NoDup_filter, NoDup_seqZ|].
    intros x ([->|Hx]%elem_of_cons & Hvx & _)%elem_of_intersect; [|done]. by destruct (sg_loops HE v).
  - apply NoDup_cons in Hn as [_ Hn]. split; [done|]. split; [done|]. split; [intros x Hx; apply Hp; by right|].
    intros x [Hx| ->%list_elem_of_singleton]%elem_of_app; [by apply Hs|done].
Qed.

(** The loop: cliques with [v] are covered by the call, the others by the rest. *)
Lemma loop_covers rec n c : (∀ c p s best, candidates c p s → (length p < n)%nat → valid_best best →
    covers c p best (rec c p s best)) →
  ∀ stack s best, candidates c stack s → (stack = [] → s ≠ []) → (length stack ≤ n)%nat → valid_best best →
  covers c stack best (ebk_loop rec E N c stack s best).
Proof.
  intros Hrec. induction stack as [|v stack IH]; intros s best Hcand Hs Hl Hb; cbn [ebk_loop].
  - exists best. split; [done|]. split; [done|]. split; [done|]. intros C [HC Hmax] Hin Hout. exfalso.
    destruct s as [|x s]; [by apply Hs|]. destruct Hcand as (_ & _ & _ & Hadj).
    destruct (Hadj x) as (Hr & Hx & Ha); [by left|]. apply (Hmax x). split; [done|].
    assert (∀ y, y ∈ C → y ∈ c) as Hsub by (intros y Hy; destruct (Hout y Hy) as [|?%elem_of_nil]; done).
    split; [by intros ?%Hsub|]. rewrite Forall_forall in Ha |- *. intros u Hu. by apply Ha, Hsub.
  - destruct (candidates_step _ _ _ _ Hcand) as (H1 & Hlen & H2). cbn [length] in Hl.
    destruct (Hrec _ _ _ best H1) as (b1 & -> & Hv1 & Hle1 & Hcov1); [lia|done|].
    destruct (IH (s ++ [v]) b1 H2) as (b2 & -> & Hv2 & Hle2 & Hcov2); [by destruct s|lia|done|].
    exists b2. split; [done|]. split; [done|]. split; [lia|]. intros C HC Hin Hout.
    destruct (decide (v ∈ C)) as [Hv|Hv].
    + transitivity b1.2; [|done]. apply Hcov1; [done| |].
      * intros x [Hx| ->%list_elem_of_singleton]%elem_of_app; [by apply Hin|done].
      * intros x Hx. rewrite elem_of_app, list_elem_of_singleton, elem_of_intersect.
        destruct (decide (x = v)) as [|Hne]; [by left; right|]. destruct (Hout x Hx) as [|Hp]; [by left; left|].
        right. split; [done|]. split; [|by apply (cl_range _ (proj1 HC))]. apply (cl_edge _ (proj1 HC)); [done|done|congruence].
    + apply Hcov2; [done|done|]. intros x Hx. destruct (Hout x Hx) as [|[->|]%elem_of_cons]; [by left|done|by right].
Qed.

Lemma search_covers fuel : ∀ c p s best, candidates c p s → (length p < fuel)%nat → valid_best best →
  covers c p best (ebk_search fuel E W c p s best).
Proof.
  induction fuel as [|fuel IH]; intros c p s best Hcand Hl Hb; [lia|]. cbn [ebk_search].
  destruct (decide (p = [] ∧ s = [])) as [[-> ->]|Hne].
  - destruct Hcand as (Hc & _). rewrite clique_weight_total by done. eexists. split; [done|].
    assert (∀ C, maximal C → (∀ x, x ∈ c → x ∈ C) → (∀ x, x ∈ C → x ∈ c ∨ x ∈ []) → total C = total c) as Heq.
    { intros C HC Hin Hout. apply sumZ_perm, NoDup_Permutation; [apply HC|apply Hc|]. intros x.
      split; [|by apply Hin]. intros Hx. destruct (Hout x Hx) as [|?%elem_of_nil]; done. }
    destruct (Z.ltb_spec best.2 (total c)); cbn [fst snd].
    + split; [by right|]. split; [lia|]. intros C HC Hin Hout. rewrite (Heq C HC Hin Hout). done.
    + split; [done|]. split; [done|]. intros C HC Hin Hout. by rewrite (Heq C HC Hin Hout).
  - assert (covers c (reverse p) best (ebk_loop (ebk_search fuel E W) E N c (reverse p) s best)) as Hloop.
    { apply (loop_covers _ fuel); [exact IH| | | |done].
      - destruct Hcand as (? & ? & Hp & ?). split; [done|]. split; [by rewrite reverse_Permutation|]. split; [|done].
        intros x Hx. rewrite elem_of_reverse in Hx. by apply Hp.
      - intros Hp. apply (f_equal reverse) in Hp. rewrite reverse_involutive in Hp. intros ->. by apply Hne.
      - rewrite length_reverse. lia. }
    assert (covers c p best (ebk_loop (ebk_search fuel E W) E N c (reverse p) s best)) as Hgoal.
    { destruct Hloop as (b & Eb & Hv & Hle & Hcov). exists b. split; [done|]. split; [done|]. split; [done|].
      intros C HC Hin Hout. apply Hcov; [done|done|]. intros x Hx. rewrite elem_of_reverse. by apply Hout. }
    destruct p as [|x p], s as [|y s]; try exact Hgoal. by destruct Hne.
Qed.
End Graph.

Lemma ebk_run E W mwcp : simple_graph E → bounded_weights W →
  ∃ best, ebk E W mwcp = Some (best, total W best) ∧ clique E W best ∧
    ∀ C, clique E W C → total W C ≤ total W best.
Proof.
  intros HE HW. assert (clique E W []) as Hnil.
  { constructor; [constructor|by intros v ?%elem_of_nil|by intros u v ?%elem_of_nil]. }
  destruct (search_covers E W HE HW (S (length W)) [] (seqZ 0 (Z.of_nat (length W))) [] (mwcp, -1000))
    as ([best wt] & Eb & Hv & Hle & Hcov).
  - split; [done|]. split; [apply NoDup_seqZ|]. split; [|by intros x ?%elem_of_nil].
    intros x Hx%elem_of_seqZ. split; [lia|]. split; [by intros ?%elem_of_nil|constructor].
  - rewrite length_seqZ. lia.
  - by left.
  - assert (∀ C, clique E W C → total W C ≤ wt) as Hmax.
    { intros C HC. destruct (maximal_above E W HW C HC) as (D & HD & Ht). transitivity (total W D); [done|].
      apply Hcov; [done|by intros x ?%elem_of_nil|]. intros x Hx. right. apply elem_of_seqZ.
      pose proof (cl_range _ _ _ (proj1 HD) x Hx). lia. }
    destruct Hv as [Hneg|[Hc Hwt]]; cbn [fst snd] in *.
    + specialize (Hmax [] Hnil). unfold total in Hmax. simpl in Hmax. lia.
    + exists best. subst wt. done.
Qed.

(** [C23] The search returns a clique of greatest weight and its weight, for a
    graph without loops and with both directions of every edge, when the weights
    are not negative and their sum fits an [int]. *)
Theorem ebk_maximum_clique E W mwcp : simple_graph E → bounded_weights W →
  ∃ best, ebk E W mwcp = Some (best, total W best) ∧ clique E W best ∧
    ∀ C, clique E W C → total W C ≤ total W best.
Proof. apply ebk_run. Qed.

(** Four loops; the two inner ones exclude each other. *)
Definition demo_loops : Edges := {[(0, 1); (1, 0); (0, 2); (2, 0); (1, 3); (3, 1); (0, 3); (3, 0)]}.
Lemma demo_loops_simple : simple_graph demo_loops.
Proof.
  assert (bool_decide (set_Forall (λ e : Z * Z, e.1 ≠ e.2 ∧ (e.2, e.1) ∈ demo_loops) demo_loops) = true) as H by by vm_compute.
  apply bool_decide_eq_true in H. constructor.
  - intros v Hv. destruct (H _ Hv) as [Hne _]. done.
  - intros u v Huv. apply (H _ Huv).
Qed.

Lemma ebk_maximum_clique_witness :
  ∃ best, ebk demo_loops [5; 3; 7; 2] [] = Some (best, total [5; 3; 7; 2] best) ∧ clique demo_loops [5; 3; 7; 2] best ∧
    ∀ C, clique demo_loops [5; 3; 7; 2] C → total [5; 3; 7; 2] C ≤ total [5; 3; 7; 2] best.
Proof.
  apply (ebk_maximum_clique demo_loops [5; 3; 7; 2] []).
  - exact demo_loops_simple.
  - constructor; [repeat constructor; lia|by vm_compute].
Defined.
Lemma demo_loops_best : ebk demo_loops [5; 3; 7; 2] [] = Some ([2; 0], 12).
Proof. by vm_compute. Qed.

(** Weights are [long] and their sums [int]: a loop that saves [2^31] looks worse
    than one that saves nothing. *)
Theorem ebk_overflow : ebk ∅ [2 ^ 31; 0] [] = Some ([1], 0).
Proof. by vm_compute. Qed.
