(* ===== verification/MinCut.v ===== *)
(** Minimum cuts: [lib/GraphAlgorithms/EdmondsKarp.cpp].

    The partitioner removes strongly connected components that must not be in
    one parallel stage by a minimum cut of a flow network.  The cut is found from
    a maximum flow: breadth-first search finds augmenting paths in the residual
    graph until there are none, and the vertices that can then be reached from the
    source are its side of the cut. *)
From S2P Require Import Prelude Machine.
#[local] Open Scope Z_scope.

(** ** [Graphs.h] *)

(** [std::map<Vertex,VertexSet>], in the order of the keys.  [adj[v]] of a vertex
    without an entry adds an empty list, which no loop tells from a missing one. *)
Abbreviation Adjacencies := (list (Z * list Z)) (only parsing).
Abbreviation EdgeWeights := (gmap (Z * Z) Z) (only parsing).

Definition Infinity : Z := 2 ^ 64 - 1.
Definition Source : Z := 0.
Definition Sink : Z := 1.

Fixpoint adj_at (adj : Adjacencies) (v : Z) : list Z :=
  match adj with
  | [] => []
  | (k, ws) :: adj' => if k =? v then ws else adj_at adj' v
  end.

(** The edges in the order of the nested loops over [adj]. *)
Definition edges (adj : Adjacencies) : list (Z * Z) := adj ≫= λ '(v, ws), pair v <$> ws.

(** [revAdj[v]]. *)
Definition rev_at (adj : Adjacencies) (v : Z) : list Z :=
  fst <$> filter (λ e : Z * Z, e.2 = v) (edges adj).

(** ** Breadth-first search *)

Definition at_edge (m : EdgeWeights) (v w : Z) : Z := default 0 (m !! (v, w)).

Definition remaining (cap used : EdgeWeights) (v w : Z) : Z :=
  if at_edge cap v w =? Infinity then Infinity
  else u64 (at_edge cap v w - at_edge used v w).

(** The loop over the edges from [v]; it returns at the sink. *)
Fixpoint bfs_forward (cap used : EdgeWeights) (v flow : Z) (ws : list Z) (preds : gmap Z Z)
    (fringe : list (Z * Z)) : (gmap Z Z * list (Z * Z)) + (Z * gmap Z Z) :=
  match ws with
  | [] => inl (preds, fringe)
  | w :: ws' =>
      let rem := remaining cap used v w in
      if (0 <? rem) && negb (bool_decide (is_Some (preds !! w))) then
        let preds' := <[w := v]> preds in
        let min := Z.min flow rem in
        if w =? Sink then inr (min, preds')
        else bfs_forward cap used v flow ws' preds' (fringe ++ [(w, min)])
      else bfs_forward cap used v flow ws' preds fringe
  end.

(** The loop over the reverse edges. *)
Fixpoint bfs_reverse (used : EdgeWeights) (v flow : Z) (us : list Z) (preds : gmap Z Z)
    (fringe : list (Z * Z)) : gmap Z Z * list (Z * Z) :=
  match us with
  | [] => (preds, fringe)
  | u :: us' =>
      let rem := at_edge used u v in
      if (0 <? rem) && negb (bool_decide (is_Some (preds !! u))) then
        bfs_reverse used v flow us' (<[u := v]> preds) (fringe ++ [(u, Z.min flow rem)])
      else bfs_reverse used v flow us' preds fringe
  end.

Definition bfs_round (adj : Adjacencies) (cap used : EdgeWeights) (s : gmap Z Z * list (Z * Z)) :
    (gmap Z Z * list (Z * Z)) + (Z * gmap Z Z) :=
  let '(preds, fringe) := s in
  match fringe with
  | [] => inr (0, preds)
  | (v, flow) :: fringe' =>
      match bfs_forward cap used v flow (adj_at adj v) preds fringe' with
      | inr r => inr r
      | inl (preds', fringe'') => inl (bfs_reverse used v flow (rev_at adj v) preds' fringe'')
      end
  end.

(** Every vertex, an [unsigned], enters the list once. *)
Definition bfsFindAugmentingPath (adj : Adjacencies) (cap used : EdgeWeights) : option (Z * gmap Z Z) :=
  match rounds 33 (bfs_round adj cap used) ({[Source := Source]}, [(Source, Infinity)]) with
  | inr r => Some r
  | inl _ => None
  end.

(** ** Maximum flow *)

(** One edge of the augmenting path, from the sink to the source.  A missing
    parent reads as 0. *)
Definition augment_step (cap : EdgeWeights) (additional : Z) (parents : gmap Z Z) (s : Z * EdgeWeights) :
    (Z * EdgeWeights) + EdgeWeights :=
  let '(w, flow) := s in
  if w =? Source then inr flow
  else
    let u := default 0 (parents !! w) in
    let flow := if bool_decide (is_Some (cap !! (u, w))) then flow else <[(u, w) := 0]> flow in
    let flow := if bool_decide (is_Some (cap !! (w, u))) then flow else <[(w, u) := 0]> flow in
    let flow := <[(u, w) := u64 (at_edge flow u w + additional)]> flow in
    let flow := <[(w, u) := u64 (at_edge flow w u - additional)]> flow in
    inl (u, flow).

(** One round of the outer loop; [None] when an inner loop does not end. *)
Definition max_flow_round (adj : Adjacencies) (cap : EdgeWeights) (s : Z * EdgeWeights) :
    (Z * EdgeWeights) + option (Z * EdgeWeights) :=
  let '(total, flow) := s in
  match bfsFindAugmentingPath adj cap flow with
  | None => inr None
  | Some (additional, parents) =>
      if additional =? 0 then inr (Some (total, flow))
      else
        match rounds 33 (augment_step cap additional parents) (Sink, flow) with
        | inr flow' => inl (u64 (total + additional), flow')
        | inl _ => inr None
        end
  end.

(** The total grows in every round, so [2^64] rounds are enough. *)
Definition maxFlowEdmondsKarp (adj : Adjacencies) (cap : EdgeWeights) : option (Z * EdgeWeights) :=
  match rounds 64 (max_flow_round adj cap) (0, ∅) with
  | inr r => r
  | inl _ => None
  end.

(** ** The cut *)

Definition reach_forward (cap flow : EdgeWeights) (v : Z) (s : gset Z * list Z) (w : Z) : gset Z * list Z :=
  if negb (bool_decide (w ∈ s.1)) && (0 <? remaining cap flow v w) then ({[w]} ∪ s.1, s.2 ++ [w]) else s.
Definition reach_reverse (flow : EdgeWeights) (v : Z) (s : gset Z * list Z) (u : Z) : gset Z * list Z :=
  if negb (bool_decide (u ∈ s.1)) && (0 <? at_edge flow u v) then ({[u]} ∪ s.1, s.2 ++ [u]) else s.

Definition reach_round (adj : Adjacencies) (cap flow : EdgeWeights) (s : gset Z * list Z) :
    (gset Z * list Z) + gset Z :=
  let '(reachable, fringe) := s in
  match fringe with
  | [] => inr reachable
  | v :: fringe' =>
      let s := foldl (reach_forward cap flow v) (reachable, fringe') (adj_at adj v) in
      inl (foldl (reach_reverse flow v) s (rev_at adj v))
  end.

(** The end points of the edges with one end point in [reachable]. *)
Definition cut_vertices (adj : Adjacencies) (reachable : gset Z) : list Z :=
  edges adj ≫= λ '(v, w),
    if xorb (bool_decide (v ∈ reachable)) (bool_decide (w ∈ reachable)) then [v; w] else [].

Definition computeMinCut (adj : Adjacencies) (cap : EdgeWeights) : option (list Z) :=
  match maxFlowEdmondsKarp adj cap with
  | None => None
  | Some (_, flow) =>
      match rounds 33 (reach_round adj cap flow) ({[Source]}, [Source]) with
      | inr reachable => Some (cut_vertices adj reachable)
      | inl _ => None
      end
  end.

(** ** Networks and cuts *)

Section Network.
Context (adj : Adjacencies) (cap : EdgeWeights).

(** The graphs that the partitioner builds: vertices are [unsigned], no edge has
    an edge the other way, none leaves the sink and all have a capacity. *)
Record network : Prop := {
  nw_keys : NoDup adj.*1;
  nw_unsigned : ∀ v w, (v, w) ∈ edges adj → 0 ≤ v < 2 ^ 32 ∧ 0 ≤ w < 2 ^ 32;
  nw_oneway : ∀ v w, (v, w) ∈ edges adj → (w, v) ∉ edges adj;
  nw_sink : ∀ w, (Sink, w) ∉ edges adj;
  nw_cap : ∀ v w, (v, w) ∈ edges adj → is_Some (cap !! (v, w)) ∧ 0 ≤ at_edge cap v w ≤ Infinity }.

(** A cut, given by the side of the source. *)
Definition cut (S : Z → bool) : Prop := S Source = true ∧ S Sink = false.
Definition arcs : list (Z * Z) := remove_dups (edges adj).
Definition capacity (S : Z → bool) : Z :=
  sumZ (λ e, if S e.1 && negb (S e.2) then at_edge cap e.1 e.2 else 0) arcs.
Definition finite (S : Z → bool) : Prop :=
  ∀ v w, (v, w) ∈ edges adj → S v = true → S w = false → at_edge cap v w ≠ Infinity.

Lemma elem_of_arcs e : e ∈ arcs ↔ e ∈ edges adj.
Proof. apply elem_of_remove_dups. Qed.

Lemma elem_of_rev_at u v : u ∈ rev_at adj v ↔ (u, v) ∈ edges adj.
Proof.
  unfold rev_at. rewrite list_elem_of_fmap. split.
  - intros ([x y] & -> & [Hy Hin]%list_elem_of_filter). simpl in *. by subst.
  - intros Hin. exists (u, v). split; [done|]. by apply list_elem_of_filter.
Qed.

Lemma elem_of_adj_at v w : NoDup adj.*1 → w ∈ adj_at adj v ↔ (v, w) ∈ edges adj.
Proof.
  unfold edges. induction adj as [|[k ws] l IH]; intros Hn; cbn [adj_at]; [by rewrite !elem_of_nil|].
  apply NoDup_cons in Hn as [Hk Hn]. rewrite bind_cons, elem_of_app, list_elem_of_fmap, <-IH by done.
  destruct (Z.eqb_spec k v) as [->|Hne].
  - split; [intros Hw; left; by exists w|]. intros [(x & [= ->] & ?)|Hw]; [done|].
    exfalso. apply Hk. clear -Hw. induction l as [|[k ws'] l IH]; cbn [adj_at] in Hw; [by apply elem_of_nil in Hw|].
    destruct (Z.eqb_spec k v) as [->|]; [by left|right; by apply IH].
  - split; [by right|]. intros [(x & [= -> ->] & ?)|Hw]; done.
Qed.

Context (Hnet : network).

Lemma adj_at_edge v w : w ∈ adj_at adj v ↔ (v, w) ∈ edges adj.
Proof. apply elem_of_adj_at, Hnet. Qed.

(** ** Residual edges and paths *)

Section Residual.
Context (used : EdgeWeights).

(** An edge of the residual graph and what may be sent along it. *)
Definition residual (u w r : Z) : Prop :=
  (u, w) ∈ edges adj ∧ r = remaining cap used u w ∨ (w, u) ∈ edges adj ∧ r = at_edge used w u.

(** The path that the search recorded, from its end to the source, along which
    [a] can be sent. *)
Inductive chain (preds : gmap Z Z) (a : Z) : list Z → Prop :=
  | chain_source : chain preds a [Source]
  | chain_step w u p r : preds !! w = Some u → w ≠ Source → residual u w r → a ≤ r →
      chain preds a (u :: p) → chain preds a (w :: u :: p).

Definition found (preds : gmap Z Z) (a : Z) (p : list Z) : Prop :=
  chain preds a p ∧ NoDup p ∧ Forall (λ x, is_Some (preds !! x)) p.
Definition explored (preds : gmap Z Z) (x : Z) : Prop :=
  ∀ w r, residual x w r → 0 < r → is_Some (preds !! w).

(** The state of the search, while the edges of [cur] are looked at. *)
Record searching (cur : option Z) (preds : gmap Z Z) (fringe : list (Z * Z)) : Prop := {
  se_source : is_Some (preds !! Source);
  se_sink : preds !! Sink = None;
  se_range : ∀ x, is_Some (preds !! x) → 0 ≤ x < 2 ^ 32;
  se_fringe : ∀ v a, (v, a) ∈ fringe → 0 < a ∧ ∃ p, found preds a (v :: p);
  se_done : ∀ x, is_Some (preds !! x) → x ∈ fringe.*1 ∨ cur = Some x ∨ explored preds x }.

Lemma residual_range u w r : residual u w r → 0 ≤ u < 2 ^ 32 ∧ 0 ≤ w < 2 ^ 32.
Proof. intros [[H _]|[H _]]; apply (nw_unsigned Hnet) in H; tauto. Qed.

Lemma visited_more (preds : gmap Z Z) w v x : is_Some (preds !! x) → is_Some (<[w := v]> preds !! x).
Proof. intros Hx. apply lookup_insert_is_Some'. by right. Qed.

Lemma chain_less preds a a' p : a' ≤ a → chain preds a p → chain preds a' p.
Proof. intros Ha. induction 1; [constructor|]. econstructor; [done|done|done| |done]. lia. Qed.

Lemma found_more preds a a' p w v : a' ≤ a → preds !! w = None → found preds a p → found (<[w := v]> preds) a' p.
Proof.
  intros Ha Hw (Hc & Hn & Hv). split; [|split; [done|eapply Forall_impl; [exact Hv|]; intros x; apply visited_more]].
  apply (chain_less _ a) ; [done|]. clear Hn. induction Hc as [|x u p r Hx Hne Hr Hle Hc IH]; [constructor|].
  apply Forall_cons in Hv as [_ Hv]. econstructor; [|done|done|done|by apply IH].
  rewrite lookup_insert_ne; [done|]. congruence.
Qed.

(** A vertex is seen for the first time. *)
Lemma found_visit preds a v p w r : found preds a (v :: p) → preds !! w = None → residual v w r → 
  is_Some (preds !! Source) → found (<[w := v]> preds) (Z.min a r) (w :: v :: p).
Proof.
  intros Hf Hw Hr Hs. destruct (found_more preds a (Z.min a r) _ w v (Z.le_min_l a r) Hw Hf) as (Hc & Hn & Hv). split; [|split].
  - econstructor; [apply lookup_insert_eq| |exact Hr|lia|exact Hc]. intros ->. by rewrite Hw in Hs; destruct Hs.
  - apply NoDup_cons. split; [|done]. intros Hin. destruct Hf as (_ & _ & Hf). rewrite Forall_forall in Hf.
    destruct (Hf w Hin). congruence.
  - constructor; [by rewrite lookup_insert_eq|done].
Qed.

Lemma searching_visit cur preds fringe a v p w r : searching cur preds fringe → found preds a (v :: p) → 0 < a →
  preds !! w = None → residual v w r → 0 < r → w ≠ Sink →
  searching cur (<[w := v]> preds) (fringe ++ [(w, Z.min a r)]).
Proof.
  intros [Hs Ht Hrg Hfr Hd] Hf Ha Hw Hr Hr0 Hne. constructor.
  - by apply visited_more.
  - by rewrite lookup_insert_ne.
  - intros x [->|[_ Hx]]%lookup_insert_is_Some; [apply (residual_range _ _ _ Hr)|by apply Hrg].
  - intros x b [Hx|Hx]%elem_of_app.
    + destruct (Hfr x b Hx) as (Hb & q & Hq). split; [done|]. exists q. by apply (found_more _ b).
    + apply list_elem_of_singleton in Hx as [= -> ->]. split; [lia|]. exists (v :: p). by apply found_visit.
  - intros x Hx. rewrite fmap_app, elem_of_app. apply lookup_insert_is_Some in Hx as [->|[_ Hx]].
    { left; right. by left. }
    destruct (Hd x Hx) as [|[|He]]; [by left; left|by right; left|]. right; right. intros y q Hy Hq. apply visited_more.
    by eapply He.
Qed.

Definition spare (preds : gmap Z Z) (fringe : list (Z * Z)) : Z := Z.of_nat (length fringe) - Z.of_nat (size preds).

Lemma spare_visit preds fringe w v m : preds !! w = None → spare (<[w := v]> preds) (fringe ++ [m]) = spare preds fringe.
Proof. intros Hw. unfold spare. rewrite map_size_insert_None, length_app by done. simpl. lia. Qed.

(** The state after a loop over edges of [v]. *)
Record looked (v a : Z) (p : list Z) (preds : gmap Z Z) (fringe : list (Z * Z)) (s' : gmap Z Z * list (Z * Z)) : Prop := {
  lk_state : searching (Some v) s'.1 s'.2;
  lk_path : found s'.1 a (v :: p);
  lk_more : ∀ x, is_Some (preds !! x) → is_Some (s'.1 !! x);
  lk_spare : spare s'.1 s'.2 = spare preds fringe }.

Lemma looked_visit v a p preds fringe w r s' : preds !! w = None → 
  looked v a p (<[w := v]> preds) (fringe ++ [(w, Z.min a r)]) s' → looked v a p preds fringe s' ∧ is_Some (s'.1 !! w).
Proof.
  intros Hw [H1 H2 H3 H4]. split.
  - constructor; [done|done| |by rewrite H4, spare_visit]. intros x Hx. by apply H3, visited_more.
  - apply H3. by rewrite lookup_insert_eq.
Qed.

Definition at_sink (m : Z) (preds : gmap Z Z) : Prop :=
  0 < m ∧ ∃ q, found preds m (Sink :: q) ∧ ∀ x, x ∈ Sink :: q → 0 ≤ x < 2 ^ 32.

Lemma forward_looks v a p ws : ∀ preds fringe, (∀ w, w ∈ ws → (v, w) ∈ edges adj) →
  searching (Some v) preds fringe → found preds a (v :: p) → 0 < a →
  match bfs_forward cap used v a ws preds fringe with
  | inl s' => looked v a p preds fringe s' ∧ ∀ w, w ∈ ws → 0 < remaining cap used v w → is_Some (s'.1 !! w)
  | inr (m, preds') => at_sink m preds'
  end.
Proof.
  induction ws as [|w ws IH]; intros preds fringe Hws Hs Hf Ha; cbn [bfs_forward].
  - split; [by constructor|]. by intros w ?%elem_of_nil.
  - assert (residual v w (remaining cap used v w)) as Hr by (left; split; [apply Hws; by left|done]).
    assert (∀ x, x ∈ ws → (v, x) ∈ edges adj) as Hws' by (intros x Hx; apply Hws; by right).
    destruct (Z.ltb_spec 0 (remaining cap used v w)) as [H0|H0]; cbn [andb].
    2:{ specialize (IH preds fringe Hws' Hs Hf Ha). destruct (bfs_forward _ _ _ _ _ _ _) as [s'|[m preds']]; [|done].
      destruct IH as [H1 H2]. split; [done|]. intros x [->|Hx]%elem_of_cons Hx0; [lia|by apply H2]. }
    case_bool_decide as Hv; cbn [negb].
    { specialize (IH preds fringe Hws' Hs Hf Ha). destruct (bfs_forward _ _ _ _ _ _ _) as [s'|[m preds']]; [|done].
      destruct IH as [H1 H2]. split; [done|]. intros x [->|Hx]%elem_of_cons Hx0; [by apply (lk_more _ _ _ _ _ _ H1)|by apply H2]. }
    apply eq_None_not_Some in Hv. destruct (Z.eqb_spec w Sink) as [->|Hne].
    + split; [lia|]. exists (v :: p). split; [apply found_visit; [done|done|done|apply Hs]|].
      intros x [->|Hx]%elem_of_cons; [done|]. apply (se_range _ _ _ Hs). destruct Hf as (_ & _ & Hf).
      rewrite Forall_forall in Hf. by apply Hf.
    + specialize (IH (<[w := v]> preds) (fringe ++ [(w, Z.min a (remaining cap used v w))]) Hws').
      destruct (bfs_forward _ _ _ _ _ _ _) as [s'|[m preds']].
      * destruct IH as [H1 H2]; [by eapply searching_visit|by apply (found_more _ a)|done|].
        apply looked_visit in H1 as [H1 H1']; [|done]. split; [done|].
        intros x [->|Hx]%elem_of_cons Hx0; [done|by apply H2].
      * apply IH; [by eapply searching_visit|by apply (found_more _ a)|done].
Qed.

Lemma reverse_looks v a p us : ∀ preds fringe, (∀ u, u ∈ us → (u, v) ∈ edges adj) →
  searching (Some v) preds fringe → found preds a (v :: p) → 0 < a →
  looked v a p preds fringe (bfs_reverse used v a us preds fringe) ∧
  ∀ u, u ∈ us → 0 < at_edge used u v → is_Some ((bfs_reverse used v a us preds fringe).1 !! u).
Proof.
  induction us as [|u us IH]; intros preds fringe Hus Hs Hf Ha; cbn [bfs_reverse].
  - split; [by constructor|]. by intros w ?%elem_of_nil.
  - assert ((u, v) ∈ edges adj) as Huv by (apply Hus; by left).
    assert (residual v u (at_edge used u v)) as Hr by by right.
    assert (∀ x, x ∈ us → (x, v) ∈ edges adj) as Hus' by (intros x Hx; apply Hus; by right).
    destruct (Z.ltb_spec 0 (at_edge used u v)) as [H0|H0]; cbn [andb].
    2:{ destruct (IH preds fringe Hus' Hs Hf Ha) as [H1 H2]. split; [done|].
      intros x [->|Hx]%elem_of_cons Hx0; [lia|by apply H2]. }
    case_bool_decide as Hv; cbn [negb].
    { destruct (IH preds fringe Hus' Hs Hf Ha) as [H1 H2]. split; [done|].
      intros x [->|Hx]%elem_of_cons Hx0; [by apply (lk_more _ _ _ _ _ _ H1)|by apply H2]. }
    apply eq_None_not_Some in Hv.
    assert (u ≠ Sink) as Hne by (intros ->; by apply (nw_sink Hnet v)).
    destruct (IH (<[u := v]> preds) (fringe ++ [(u, Z.min a (at_edge used u v))]) Hus') as [H1 H2];
      [by eapply searching_visit|by apply (found_more _ a)|done|].
    apply looked_visit in H1 as [H1 H1']; [|done]. split; [done|]. intros x [->|Hx]%elem_of_cons Hx0; [done|by apply H2].
Qed.

(** The search ends at the sink, or with a closed set of vertices without it. *)
Definition bfs_result (r : Z * gmap Z Z) : Prop :=
  at_sink r.1 r.2 ∨
  r.1 = 0 ∧ is_Some (r.2 !! Source) ∧ r.2 !! Sink = None ∧ ∀ x, is_Some (r.2 !! x) → explored r.2 x.

Lemma bfs_round_step s : searching None s.1 s.2 →
  match bfs_round adj cap used s with
  | inl s' => searching None s'.1 s'.2 ∧ spare s'.1 s'.2 = spare s.1 s.2 - 1
  | inr r => bfs_result r
  end.
Proof.
  destruct s as [preds [|[v a] fringe]]; intros Hs; cbn [fst snd] in *; unfold bfs_round.
  - right. split; [done|]. split; [apply Hs|]. split; [apply Hs|]. intros x Hx.
    destruct (se_done _ _ _ Hs x Hx) as [?%elem_of_nil|[|]]; done.
  - destruct (se_fringe _ _ _ Hs v a) as (Ha & p & Hf); [by left|].
    assert (searching (Some v) preds fringe) as Hs1.
    { destruct Hs as [H1 H2 H3 H4 H5]. constructor; [done|done|done| |].
      - intros x b Hx. apply H4. by right.
      - intros x Hx. destruct (H5 x Hx) as [[->|]%elem_of_cons|[|]]; [by right; left|by left|done|by right; right]. }
    pose proof (forward_looks v a p (adj_at adj v) preds fringe (λ w, proj1 (adj_at_edge v w)) Hs1 Hf Ha) as Hfw.
    destruct (bfs_forward _ _ _ _ _ _ _) as [[preds1 fringe1]|[m preds']]; [|by left].
    destruct Hfw as [H1 H2]. cbn [fst snd] in *.
    destruct (reverse_looks v a p (rev_at adj v) preds1 fringe1 (λ u, proj1 (elem_of_rev_at u v))) as [H3 H4];
      [apply H1|apply H1|done|].
    destruct (bfs_reverse _ _ _ _ _ _) as [preds2 fringe2]. cbn [fst snd] in *. split.
    + destruct H3 as [[S1 S2 S3 S4 S5] _ Hmore _]. cbn [fst snd] in *. constructor; [done|done|done|done|].
      intros x Hx. destruct (S5 x Hx) as [|[[= ->]|]]; [by left| |by right; right]. right; right.
      intros w r [[Hin ->]|[Hin ->]] Hr; [|by apply H4; [apply elem_of_rev_at|]].
      apply Hmore, H2; [by apply adj_at_edge|done].
    + pose proof (lk_spare _ _ _ _ _ _ H1). pose proof (lk_spare _ _ _ _ _ _ H3). cbn [fst snd] in *.
      replace (spare preds ((v, a) :: fringe)) with (spare preds fringe + 1) by (unfold spare; simpl; lia). lia.
Qed.

Lemma visited_bound (preds : gmap Z Z) : (∀ x, is_Some (preds !! x) → 0 ≤ x < 2 ^ 32) → Z.of_nat (size preds) ≤ 2 ^ 32.
Proof.
  intros H. rewrite <-(size_dom preds). unfold size, set_size. simpl.
  transitivity (Z.of_nat (length (seqZ 0 (2 ^ 32)))).
  - apply inj_le, submseteq_length, NoDup_submseteq; [apply NoDup_elements|]. intros x Hx%elem_of_elements%elem_of_dom.
    apply elem_of_seqZ. specialize (H x Hx). lia.
  - rewrite length_seqZ, Z2Nat.id by done. done.
Qed.

Lemma bfs_run : ∃ r, bfsFindAugmentingPath adj cap used = Some r ∧ bfs_result r.
Proof.
  unfold bfsFindAugmentingPath.
  destruct (rounds_measure (λ s : gmap Z Z * list (Z * Z), searching None s.1 s.2) bfs_result
    (λ s, spare s.1 s.2 + 2 ^ 32) (bfs_round adj cap used)) with (n := 33%nat) (s := ({[Source := Source]} : gmap Z Z, [(Source, Infinity)]))
    as (r & -> & Hr).
  - intros s Hs. split.
    + pose proof (visited_bound s.1 (se_range _ _ _ Hs)). unfold spare. lia.
    + pose proof (bfs_round_step s Hs) as H. destruct (bfs_round adj cap used s) as [s'|r]; [|done]. destruct H. split; [done|lia].
  - cbn [fst snd]. constructor.
    + by rewrite lookup_singleton_eq.
    + by rewrite lookup_singleton_ne.
    + intros x [y Hx]. apply lookup_singleton_Some in Hx as [<- _]. done.
    + intros v a [= -> ->]%list_elem_of_singleton. split; [done|]. exists []. split; [constructor|].
      split; [apply NoDup_singleton|]. constructor; [by rewrite lookup_singleton_eq|constructor].
    + intros x [y Hx]. apply lookup_singleton_Some in Hx as [<- _]. left. by left.
  - cbn [fst snd]. unfold spare. rewrite map_size_singleton. cbn [length]. change (2 ^ Z.of_nat 33) with (2 * 2 ^ 32). lia.
  - by exists r.
Qed.

(** ** Augmenting *)

(** The updates of one edge of the path, and of all of them. *)
Definition push_edge (a u w : Z) (flow : EdgeWeights) : EdgeWeights :=
  let flow := if bool_decide (is_Some (cap !! (u, w))) then flow else <[(u, w) := 0]> flow in
  let flow := if bool_decide (is_Some (cap !! (w, u))) then flow else <[(w, u) := 0]> flow in
  let flow := <[(u, w) := u64 (at_edge flow u w + a)]> flow in
  <[(w, u) := u64 (at_edge flow w u - a)]> flow.
Fixpoint push_path (a : Z) (p : list Z) (flow : EdgeWeights) : EdgeWeights :=
  match p with
  | w :: ((u :: _) as p') => push_path a p' (push_edge a u w flow)
  | _ => flow
  end.

(** The rest of the path bounds the rounds. *)
Lemma augment_rest preds a n : ∀ w q flow, chain preds a (w :: q) → (length q < n)%nat →
  rounds_lin n (augment_step cap a preds) (w, flow) = inr (push_path a (w :: q) flow).
Proof.
  induction n as [|n IH]; intros w q flow Hc Hl; [lia|]. cbn [rounds_lin]. unfold augment_step at 1. inversion Hc; subst.
  - done.
  - destruct (Z.eqb_spec w Source) as [|_]; [done|]. cbn [length] in Hl.
    match goal with H : preds !! w = _ |- _ => rewrite H end. cbn [default]. fold (push_edge a u w flow).
    cbn [push_path]. apply IH; [done|lia].
Qed.

Lemma augment_run preds a p flow : chain preds a (Sink :: p) → NoDup (Sink :: p) →
  (∀ x, x ∈ Sink :: p → 0 ≤ x < 2 ^ 32) →
  rounds 33 (augment_step cap a preds) (Sink, flow) = inr (push_path a (Sink :: p) flow).
Proof.
  intros Hc Hn Hr. rewrite rounds_spec. apply augment_rest; [done|].
  assert (Z.of_nat (length (Sink :: p)) ≤ 2 ^ 32) as Hlen.
  { transitivity (Z.of_nat (length (seqZ 0 (2 ^ 32)))); [|rewrite length_seqZ, Z2Nat.id by done; done].
    apply inj_le, submseteq_length, NoDup_submseteq; [done|]. intros x Hx. apply elem_of_seqZ. specialize (Hr x Hx). lia. }
  cbn [length] in Hlen. apply Nat2Z.inj_lt. rewrite Nat2Z.inj_pow. change (Z.of_nat 2 ^ Z.of_nat 33) with (2 ^ 33). lia.
Qed.

(** The same on integers. *)
Definition pushf (a u w : Z) (f : Z * Z → Z) (e : Z * Z) : Z :=
  if decide ((u, w) ∈ edges adj) then (if decide (e = (u, w)) then f e + a else f e)
  else (if decide (e = (w, u)) then f e - a else f e).
Fixpoint push_pathf (a : Z) (p : list Z) (f : Z * Z → Z) : Z * Z → Z :=
  match p with
  | w :: ((u :: _) as p') => push_pathf a p' (pushf a u w f)
  | _ => f
  end.

Definition agrees (flow : EdgeWeights) (f : Z * Z → Z) : Prop :=
  ∀ v w, (v, w) ∈ edges adj → at_edge flow v w = u64 (f (v, w)).

Lemma at_insert (m : EdgeWeights) x y v w n :
  at_edge (<[(x, y) := n]> m) v w = if decide ((x, y) = (v, w)) then n else at_edge m v w.
Proof. unfold at_edge. rewrite lookup_insert. by case_decide. Qed.

Lemma at_reset (m : EdgeWeights) x y v w : (v, w) ∈ edges adj →
  at_edge (if bool_decide (is_Some (cap !! (x, y))) then m else <[(x, y) := 0]> m) v w = at_edge m v w.
Proof.
  intros He. case_bool_decide as Hc; [done|]. rewrite at_insert, decide_False; [done|]. intros [= -> ->].
  apply Hc, (nw_cap Hnet), He.
Qed.

Lemma wrap_add_l b x y : 0 ≤ b → wrap b (wrap b x + y) = wrap b (x + y).
Proof. intros Hb. unfold wrap. by rewrite Z.add_mod_idemp_l by lia. Qed.

Lemma push_agrees a u w r flow f : residual u w r → agrees flow f → agrees (push_edge a u w flow) (pushf a u w f).
Proof.
  intros Hr Ha x y He. unfold push_edge, pushf. cbv zeta. rewrite !at_insert, !(at_reset _ _ _ x y) by done.
  destruct (decide ((u, w) ∈ edges adj)) as [Huw|Huw].
  - pose proof (nw_oneway Hnet _ _ Huw) as Hwu. rewrite decide_False by (intros [= -> ->]; done).
    destruct (decide ((u, w) = (x, y))) as [[= -> ->]|Hne].
    + rewrite decide_True by done. rewrite !at_reset, Ha by done. apply wrap_add_l. lia.
    + rewrite decide_False by congruence. by apply Ha.
  - destruct Hr as [[? _]|[Hwu _]]; [done|]. destruct (decide ((w, u) = (x, y))) as [[= -> ->]|Hne].
    + rewrite decide_False by (intros [= Hx Hy]; congruence). rewrite decide_True by done.
      rewrite !at_reset, Ha by done. unfold Z.sub. apply wrap_add_l. lia.
    + rewrite decide_False by (intros [= -> ->]; done). rewrite decide_False by congruence. by apply Ha.
Qed.

Lemma push_path_agrees preds a p : chain preds a p → ∀ flow f, agrees flow f →
  agrees (push_path a p flow) (push_pathf a p f).
Proof. induction 1; intros flow f Ha; [done|]. cbn [push_path push_pathf]. apply IHchain. by eapply push_agrees. Qed.

(** ** The flow across a cut *)

Definition net (f : Z * Z → Z) (S : Z → bool) : Z :=
  sumZ (λ e, f e * (Z.b2z (S e.1) - Z.b2z (S e.2))) arcs.

Lemma net_push a u w r f S : residual u w r → net (pushf a u w f) S = net f S + a * (Z.b2z (S u) - Z.b2z (S w)).
Proof.
  intros Hr. unfold net. destruct (decide ((u, w) ∈ edges adj)) as [Huw|Huw].
  - apply (sumZ_update _ _ _ (u, w)); [apply NoDup_remove_dups|by apply elem_of_arcs| |].
    + unfold pushf. rewrite !decide_True by done. cbn [fst snd]. lia.
    + intros e _ Hne. unfold pushf. by rewrite decide_True, decide_False by done.
  - destruct Hr as [[? _]|[Hwu _]]; [done|].
    apply (sumZ_update _ _ _ (w, u)); [apply NoDup_remove_dups|by apply elem_of_arcs| |].
    + unfold pushf. rewrite decide_False, decide_True by done. cbn [fst snd]. lia.
    + intros e _ Hne. unfold pushf. by rewrite !decide_False by done.
Qed.

Lemma net_path preds a p S : chain preds a p → ∀ f,
  net (push_pathf a p f) S = net f S + a * (Z.b2z (S Source) - Z.b2z (S (hd Source p))).
Proof.
  induction 1 as [|w u p r Hp Hne Hr Ha Hc IH]; intros f; [simpl; lia|].
  change (push_pathf a (w :: u :: p) f) with (push_pathf a (u :: p) (pushf a u w f)).
  rewrite IH, (net_push _ _ _ r) by done. cbn [hd]. lia.
Qed.

(** ** Flows stay within the capacities *)

Record bounded (f : Z * Z → Z) (total : Z) : Prop := {
  bd_total : ∀ v w, (v, w) ∈ edges adj → 0 ≤ f (v, w) ≤ total;
  bd_cap : ∀ v w, (v, w) ∈ edges adj → at_edge cap v w ≠ Infinity → f (v, w) ≤ at_edge cap v w }.

Context (f : Z * Z → Z) (total : Z) (Hf : bounded f total) (Ht : total ≤ Infinity).
Context (Hused : ∀ v w, (v, w) ∈ edges adj → at_edge used v w = f (v, w)).

Lemma remaining_edge v w : (v, w) ∈ edges adj →
  remaining cap used v w = if at_edge cap v w =? Infinity then Infinity else at_edge cap v w - f (v, w).
Proof.
  intros He. unfold remaining. rewrite Hused by done. destruct (Z.eqb_spec (at_edge cap v w) Infinity); [done|].
  apply wrap_small. pose proof (bd_total _ _ Hf _ _ He). pose proof (bd_cap _ _ Hf _ _ He n).
  destruct (nw_cap Hnet _ _ He) as [_ ?]. unfold Infinity in *. lia.
Qed.

Definition in_bounds (a : Z) (x y r : Z) : Prop :=
  0 ≤ r ≤ f (x, y) + a ∧ (at_edge cap x y ≠ Infinity → r ≤ at_edge cap x y).

Lemma unchanged_in_bounds a x y : 0 ≤ a → (x, y) ∈ edges adj → in_bounds a x y (f (x, y)).
Proof. intros Ha He. pose proof (bd_total _ _ Hf _ _ He). split; [lia|]. by apply Hf. Qed.

Lemma pushed_in_bounds a u w r x y : 0 ≤ a → residual u w r → a ≤ r → (x, y) ∈ edges adj →
  in_bounds a x y (pushf a u w f (x, y)).
Proof.
  intros Ha Hr Har He. pose proof (bd_total _ _ Hf _ _ He) as Hb. unfold pushf.
  destruct (decide ((u, w) ∈ edges adj)) as [Huw|Huw].
  - case_decide as Hxy; [|by apply unchanged_in_bounds]. injection Hxy as -> ->.
    destruct Hr as [[_ ->]|[Hwu _]]; [|by destruct (nw_oneway Hnet _ _ Huw)]. rewrite remaining_edge in Har by done.
    split; [lia|]. intros Hc. destruct (Z.eqb_spec (at_edge cap u w) Infinity); [done|]. lia.
  - destruct Hr as [[? _]|[Hwu ->]]; [done|]. rewrite Hused in Har by done.
    case_decide as Hxy; [|by apply unchanged_in_bounds]. injection Hxy as -> ->. split; [lia|].
    intros Hc. pose proof (bd_cap _ _ Hf _ _ He Hc). lia.
Qed.

(** Each edge is on the path at most once. *)
Lemma push_inside preds a p : chain preds a p → NoDup p → 0 ≤ a → ∀ g,
  (∀ x y, x ∈ p → y ∈ p → g (x, y) = f (x, y)) → ∀ x y, (x, y) ∈ edges adj →
  x ∈ p ∧ y ∈ p ∧ in_bounds a x y (push_pathf a p g (x, y)) ∨
  ¬ (x ∈ p ∧ y ∈ p) ∧ push_pathf a p g (x, y) = g (x, y).
Proof.
  intros Hc Hn Ha. induction Hc as [|w u p r Hp Hne Hr Har Hc IH]; intros g Hg x y He.
  - cbn [push_pathf]. destruct (decide (x ∈ [Source] ∧ y ∈ [Source])) as [[Hx Hy]|Hno]; [left|by right].
    split; [done|]. split; [done|]. rewrite Hg by done. by apply unchanged_in_bounds.
  - apply NoDup_cons in Hn as [Hw Hn].
    change (push_pathf a (w :: u :: p) g) with (push_pathf a (u :: p) (pushf a u w g)).
    assert (∀ x y, x ∈ u :: p → y ∈ u :: p → pushf a u w g (x, y) = f (x, y)) as Hg1.
    { intros x' y' Hx' Hy'. unfold pushf. rewrite !(decide_False (P := (x', y') = _)) by congruence.
      rewrite Hg by by right. by case_decide. }
    destruct (IH Hn _ Hg1 x y He) as [(Hx & Hy & Hb)|[Hno ->]]; [left; split; [by right|]; split; [by right|done]|].
    destruct (decide (x ∈ w :: u :: p ∧ y ∈ w :: u :: p)) as [[Hx Hy]|Hno'].
    + left. split; [done|]. split; [done|]. replace (pushf a u w g (x, y)) with (pushf a u w f (x, y)); [by eapply pushed_in_bounds|].
      unfold pushf. by rewrite Hg.
    + right. split; [done|]. unfold pushf.
      assert ((x, y) ≠ (u, w) ∧ (x, y) ≠ (w, u)) as [N1 N2].
      { split; intros [= -> ->]; apply Hno'; (split; [|]); repeat ((by left) || right). }
      rewrite !(decide_False (P := (x, y) = _)) by done. by case_decide.
Qed.

Lemma push_bounded preds a p : found preds a p → 0 ≤ a → bounded (push_pathf a p f) (total + a).
Proof.
  intros (Hc & Hn & _) Ha.
  assert (∀ x y, (x, y) ∈ edges adj → in_bounds a x y (push_pathf a p f (x, y))) as H.
  { intros x y He. destruct (push_inside _ _ _ Hc Hn Ha f (λ _ _ _ _, eq_refl) x y He) as [(_ & _ & ?)|[_ ->]]; [done|].
    by apply unchanged_in_bounds. }
  constructor; intros x y He; destruct (H x y He) as [H1 H2]; [|done]. pose proof (bd_total _ _ Hf _ _ He). lia.
Qed.
End Residual.

(** Weak duality. *)
Lemma net_le_capacity f total S : bounded f total → finite S → net f S ≤ capacity S.
Proof.
  intros Hf Hfin. apply sumZ_le. intros [v w] He%elem_of_arcs. cbn [fst snd].
  pose proof (bd_total _ _ Hf _ _ He). destruct (S v) eqn:Ev, (S w) eqn:Ew; simpl; try lia.
  pose proof (bd_cap _ _ Hf _ _ He (Hfin _ _ He Ev Ew)). lia.
Qed.

(** ** The loop of the maximum flow *)

Section Flow.
Context (S0 : Z → bool) (Hcut0 : cut S0) (Hfin0 : finite S0) (HK : capacity S0 < Infinity).

Record flow_state (s : Z * EdgeWeights) (f : Z * Z → Z) : Prop := {
  fs_flow : ∀ v w, (v, w) ∈ edges adj → at_edge s.2 v w = f (v, w);
  fs_bounded : bounded f s.1;
  fs_net : ∀ S, cut S → net f S = s.1;
  fs_total : 0 ≤ s.1 }.

Lemma flow_total s f : flow_state s f → s.1 ≤ capacity S0.
Proof. intros H. rewrite <-(fs_net _ _ H S0 Hcut0). eapply net_le_capacity; [apply H|done]. Qed.

(** A set of vertices with the source and without the sink that no residual edge
    leaves: there is no augmenting path. *)
Definition separates (flow : EdgeWeights) (D : Z → Prop) : Prop :=
  D Source ∧ ¬ D Sink ∧ ∀ v w r, D v → residual flow v w r → 0 < r → D w.

Lemma max_flow_step s f : flow_state s f →
  match max_flow_round adj cap s with
  | inl s' => (∃ f', flow_state s' f') ∧ s.1 < s'.1
  | inr r => r = Some s ∧ ∃ D, separates s.2 D
  end.
Proof.
  destruct s as [total flow]. intros Hs. pose proof (flow_total _ _ Hs) as Hmax. cbn [fst snd] in *. unfold max_flow_round.
  destruct (bfs_run flow) as ([a preds] & -> & [[Ha (p & Hp & Hr)]|(Ea & Hsrc & Hsink & Hcl)]); cbn [fst snd] in *.
  - destruct (Z.eqb_spec a 0) as [|_]; [lia|]. rewrite (augment_run flow preds a p) by (apply Hp || done).
    set (f' := push_pathf a (Sink :: p) f).
    assert (bounded f' (total + a)) as Hb.
    { eapply (push_bounded flow f total); [apply Hs|lia|apply Hs|exact Hp|lia]. }
    assert (∀ S, cut S → net f' S = total + a) as Hnet'.
    { intros S [HS1 HS2]. unfold f'. rewrite (net_path flow preds) by apply Hp. rewrite (fs_net _ _ Hs) by done.
      cbn [hd fst]. rewrite HS1, HS2. simpl. lia. }
    assert (total + a ≤ capacity S0) as Hle.
    { rewrite <-(Hnet' S0 Hcut0). by eapply net_le_capacity. }
    pose proof (fs_total _ _ Hs) as H0. cbn [fst] in H0.
    assert (u64 (total + a) = total + a) as Eu by (apply wrap_small; unfold Infinity in *; lia).
    rewrite Eu. cbn [fst]. split; [|lia]. exists f'. constructor; cbn [fst snd]; [|done|done|lia].
    intros v w He. destruct Hp as (Hc & _). rewrite (push_path_agrees flow preds a _ Hc flow f); [|intros x y Hxy| done].
    + fold f'. apply wrap_small. pose proof (bd_total _ _ Hb _ _ He). unfold Infinity in *. lia.
    + rewrite (fs_flow _ _ Hs _ _ Hxy : at_edge flow x y = _). symmetry. apply wrap_small.
      pose proof (bd_total _ _ (fs_bounded _ _ Hs) _ _ Hxy). cbn [fst] in *. unfold Infinity in *. lia.
  - subst a. split; [done|]. exists (λ x, is_Some (preds !! x)). split; [done|]. split; [by rewrite Hsink; intros []|].
    intros v w r Hv Hr. by apply (Hcl v Hv).
Qed.

Lemma max_flow_run : ∃ s f, maxFlowEdmondsKarp adj cap = Some s ∧ flow_state s f ∧ ∃ D, separates s.2 D.
Proof.
  unfold maxFlowEdmondsKarp.
  destruct (rounds_measure (λ s, ∃ f, flow_state s f) (λ r, ∃ s f, r = Some s ∧ flow_state s f ∧ ∃ D, separates s.2 D)
    (λ s, capacity S0 - s.1) (max_flow_round adj cap)) with (n := 64%nat) (s := (0, ∅ : EdgeWeights)) as (r & -> & Hr).
  - intros s [f Hs]. split; [pose proof (flow_total _ _ Hs); lia|]. pose proof (max_flow_step s f Hs) as H.
    destruct (max_flow_round adj cap s) as [s'|r]; [destruct H; split; [done|lia]|]. destruct H as [-> H]. by exists s, f.
  - exists (λ _, 0). constructor; cbn [fst snd].
    + intros v w _. unfold at_edge. by rewrite lookup_empty.
    + constructor; intros v w He; [lia|]. intros _. by apply (nw_cap Hnet).
    + intros S _. unfold net, sumZ. induction arcs as [|e l IH]; simpl; [done|]. by rewrite IH.
    + done.
  - cbn [fst]. change (2 ^ Z.of_nat 64) with (Infinity + 1). lia.
  - done.
Qed.

(** ** The vertices reached in the residual graph *)

Section Reach.
Context (flow : EdgeWeights) (D : Z → Prop) (HD : separates flow D).

Record reaching (cur : option Z) (R : gset Z) (fringe : list Z) : Prop := {
  re_source : Source ∈ R;
  re_range : ∀ x, x ∈ R → 0 ≤ x < 2 ^ 32;
  re_sub : ∀ x, x ∈ R → D x;
  re_fringe : ∀ x, x ∈ fringe → x ∈ R;
  re_done : ∀ x, x ∈ R → x ∈ fringe ∨ cur = Some x ∨ ∀ w r, residual flow x w r → 0 < r → w ∈ R }.

Definition spare_set (R : gset Z) (fringe : list Z) : Z := Z.of_nat (length fringe) - Z.of_nat (size R).

Record reached (v : Z) (R : gset Z) (fringe : list Z) (s' : gset Z * list Z) : Prop := {
  rd_state : reaching (Some v) s'.1 s'.2;
  rd_more : ∀ x, x ∈ R → x ∈ s'.1;
  rd_spare : spare_set s'.1 s'.2 = spare_set R fringe }.

Lemma reaching_visit v R fringe w r : reaching (Some v) R fringe → v ∈ R → residual flow v w r → 0 < r → w ∉ R →
  reached v R fringe ({[w]} ∪ R, fringe ++ [w]).
Proof.
  intros [H1 H2 H3 H4 H5] Hv Hr H0 Hw.
  constructor; cbn [fst snd].
  - constructor.
    + apply elem_of_union. by right.
    + intros x [->%elem_of_singleton|Hx]%elem_of_union; [by apply (residual_range flow _ _ _ Hr)|by apply H2].
    + intros x [->%elem_of_singleton|Hx]%elem_of_union; [|by apply H3]. destruct HD as (_ & _ & Hcl).
      eapply Hcl; [by apply H3|done|done].
    + intros x [Hx| ->%list_elem_of_singleton]%elem_of_app; apply elem_of_union; [right; by apply H4|left; by apply elem_of_singleton].
    + intros x [->%elem_of_singleton|Hx]%elem_of_union; [left; apply elem_of_app; right; by left|].
      destruct (H5 x Hx) as [|[|He]]; [left; apply elem_of_app; by left|by right; left|].
      right; right. intros y q Hy Hq. apply elem_of_union. right. by eapply He.
  - intros x Hx. apply elem_of_union. by right.
  - unfold spare_set. rewrite size_union, size_singleton, length_app by (intros x ->%elem_of_singleton; done). simpl. lia.
Qed.

Lemma fold_reaches v (r : Z → Z) ws : ∀ R fringe, (∀ w, w ∈ ws → residual flow v w (r w)) →
  reaching (Some v) R fringe → v ∈ R →
  let s' := foldl (λ s w, if negb (bool_decide (w ∈ s.1)) && (0 <? r w) then ({[w]} ∪ s.1, s.2 ++ [w]) else s) (R, fringe) ws in
  reached v R fringe s' ∧ ∀ w, w ∈ ws → 0 < r w → w ∈ s'.1.
Proof.
  induction ws as [|w ws IH]; intros R fringe Hws Hs Hv; cbn [foldl].
  - split; [by constructor|]. by intros w ?%elem_of_nil.
  - assert (∀ x, x ∈ ws → residual flow v x (r x)) as Hws' by (intros x Hx; apply Hws; by right). cbn [fst snd].
    case_bool_decide as Hw; cbn [negb andb].
    { destruct (IH R fringe Hws' Hs Hv) as [H1 H2]. split; [done|].
      intros x [->|Hx]%elem_of_cons Hx0; [by apply (rd_more _ _ _ _ H1)|by apply H2]. }
    destruct (Z.ltb_spec 0 (r w)) as [H0|H0].
    2:{ destruct (IH R fringe Hws' Hs Hv) as [H1 H2]. split; [done|].
      intros x [->|Hx]%elem_of_cons Hx0; [lia|by apply H2]. }
    destruct (reaching_visit v R fringe w (r w) Hs Hv) as [V1 V2 V3]; [apply Hws; by left|done|done|]. cbn [fst snd] in *.
    destruct (IH _ _ Hws' V1 (V2 v Hv)) as [[I1 I2 I3] H2]. split.
    + constructor; [done|by intros x Hx; apply I2, V2|by rewrite I3].
    + intros x [->|Hx]%elem_of_cons Hx0; [|by apply H2]. apply I2, elem_of_union. left. by apply elem_of_singleton.
Qed.

Lemma reach_round_step s : reaching None s.1 s.2 →
  match reach_round adj cap flow s with
  | inl s' => reaching None s'.1 s'.2 ∧ spare_set s'.1 s'.2 = spare_set s.1 s.2 - 1
  | inr R => separates flow (λ x, x ∈ R)
  end.
Proof.
  destruct s as [R [|v fringe]]; intros Hs; cbn [fst snd] in *; unfold reach_round.
  - split; [apply Hs|]. split; [intros Hk%(re_sub _ _ _ Hs); by apply HD|]. intros v w r Hv Hr H0.
    destruct (re_done _ _ _ Hs v Hv) as [?%elem_of_nil|[|He]]; [done|done|by eapply He].
  - assert (v ∈ R) as Hv by (apply (re_fringe _ _ _ Hs); by left).
    assert (reaching (Some v) R fringe) as Hs1.
    { destruct Hs as [H1 H2 H3 H4 H5]. constructor; [done|done|done|intros x Hx; apply H4; by right|].
      intros x Hx. destruct (H5 x Hx) as [[->|]%elem_of_cons|[|]]; [by right; left|by left|done|by right; right]. }
    destruct (fold_reaches v (remaining cap flow v) (adj_at adj v) R fringe) as [[F1 F2 F3] F4]; [|done|done|].
    { intros w Hw%adj_at_edge. by left. }
    unfold reach_forward. destruct (foldl _ (R, fringe) (adj_at adj v)) as [R1 fringe1]. cbn [fst snd] in *.
    destruct (fold_reaches v (λ u, at_edge flow u v) (rev_at adj v) R1 fringe1) as [[B1 B2 B3] B4]; [|done|by apply F2|].
    { intros u Hu%elem_of_rev_at. by right. }
    unfold reach_reverse. destruct (foldl _ (R1, fringe1) (rev_at adj v)) as [R2 fringe2]. cbn [fst snd] in *. split.
    + destruct B1 as [H1 H2 H3 H4 H5]. constructor; [done|done|done|done|]. intros x Hx.
      destruct (H5 x Hx) as [|[[= ->]|]]; [by left| |by right; right]. right; right.
      intros w r [[Hin ->]|[Hin ->]] Hr; [by apply B2, F4; [apply adj_at_edge|]|by apply B4; [apply elem_of_rev_at|]].
    + rewrite B3, F3. unfold spare_set. simpl. lia.
Qed.

Lemma reach_run : ∃ R, rounds 33 (reach_round adj cap flow) ({[Source]}, [Source]) = inr R ∧ separates flow (λ x, x ∈ R).
Proof.
  destruct (rounds_measure (λ s : gset Z * list Z, reaching None s.1 s.2) (λ R, separates flow (λ x, x ∈ R))
    (λ s, spare_set s.1 s.2 + 2 ^ 32) (reach_round adj cap flow)) with (n := 33%nat) (s := ({[Source]} : gset Z, [Source]))
    as (R & -> & HR).
  - intros s Hs. split.
    + assert (Z.of_nat (size s.1) ≤ 2 ^ 32) as Hb.
      { unfold size, set_size. simpl. transitivity (Z.of_nat (length (seqZ 0 (2 ^ 32)))).
        - apply inj_le, submseteq_length, NoDup_submseteq; [apply NoDup_elements|]. intros x Hx%elem_of_elements.
          apply elem_of_seqZ. pose proof (re_range _ _ _ Hs x Hx). lia.
        - rewrite length_seqZ, Z2Nat.id by done. done. }
      unfold spare_set. lia.
    + pose proof (reach_round_step s Hs) as H. destruct (reach_round adj cap flow s) as [s'|R]; [|done]. destruct H. split; [done|lia].
  - cbn [fst snd]. constructor.
    + by apply elem_of_singleton.
    + intros x ->%elem_of_singleton. done.
    + intros x ->%elem_of_singleton. apply HD.
    + intros x ->%list_elem_of_singleton. by apply elem_of_singleton.
    + intros x ->%elem_of_singleton. left. by left.
  - cbn [fst snd]. unfold spare_set. rewrite size_singleton. cbn [length]. change (2 ^ Z.of_nat 33) with (2 * 2 ^ 32). lia.
  - by exists R.
Qed.
End Reach.

(** The edges that leave the separating set are full, those that enter it empty. *)
Lemma separates_capacity s f (R : gset Z) : flow_state s f → separates s.2 (λ x, x ∈ R) →
  let S := λ v, bool_decide (v ∈ R) in cut S ∧ finite S ∧ capacity S = s.1.
Proof.
  intros Hs (Hsrc & Hsink & Hcl) S. pose proof (flow_total _ _ Hs) as Hmax.
  assert (cut S) as HS by (split; [by apply bool_decide_eq_true_2|by apply bool_decide_eq_false_2]).
  assert (∀ v w, (v, w) ∈ edges adj → S v = true → S w = false →
    at_edge cap v w ≠ Infinity ∧ f (v, w) = at_edge cap v w) as Hout.
  { intros v w He Hv%bool_decide_eq_true Hw%bool_decide_eq_false.
    assert (remaining cap s.2 v w ≤ 0) as Hr.
    { destruct (Z.lt_ge_cases 0 (remaining cap s.2 v w)) as [H0|]; [|done]. exfalso. apply Hw.
      eapply Hcl; [done|left; done|done]. }
    rewrite (remaining_edge s.2 f s.1) in Hr by (apply Hs || done || lia).
    destruct (Z.eqb_spec (at_edge cap v w) Infinity) as [|Hne]; [done|]. split; [done|].
    pose proof (bd_cap _ _ (fs_bounded _ _ Hs) _ _ He Hne). lia. }
  split; [done|]. split; [intros v w He Hv Hw; by apply (Hout v w)|].
  rewrite <-(fs_net _ _ Hs S HS). apply sumZ_ext. intros [v w] He%elem_of_arcs. cbn [fst snd].
  destruct (S v) eqn:Ev, (S w) eqn:Ew; simpl.
  - lia.
  - destruct (Hout v w He Ev Ew) as [_ ->]. lia.
  - assert (f (v, w) = 0) as ->; [|lia]. pose proof (bd_total _ _ (fs_bounded _ _ Hs) _ _ He).
    apply bool_decide_eq_true in Ew. apply bool_decide_eq_false in Ev.
    destruct (Z.lt_ge_cases 0 (f (v, w))) as [H0|]; [|lia]. exfalso. apply Ev. eapply (Hcl w v (f (v, w))); [done| |done].
    right. split; [done|]. symmetry. by apply Hs.
  - lia.
Qed.

(** The cut that is computed, used by its clients. *)
Lemma min_cut_run : ∃ R, computeMinCut adj cap = Some (cut_vertices adj R) ∧
  let S := λ v, bool_decide (v ∈ R) in cut S ∧ finite S ∧ ∀ T, cut T → finite T → capacity S ≤ capacity T.
Proof.
  unfold computeMinCut. destruct max_flow_run as ([total flow] & f & -> & Hs & D & HD).
  destruct (reach_run flow D HD) as (R & -> & HR). exists R. split; [done|].
  destruct (separates_capacity _ _ R Hs HR) as (H1 & H2 & H3). split; [done|]. split; [done|]. intros T HT HTf.
  rewrite H3, <-(fs_net _ _ Hs T HT). eapply net_le_capacity; [apply Hs|done].
Qed.
End Flow.
End Network.

(** [C11] For a network with a finite cut whose capacity fits the weights, all
    loops of the computation end: the maximum flow is the capacity of a cut, no
    edge that leaves the source side of the cut is infinite, no finite cut has less
    capacity, and the result has the end points of the edges across the cut. *)
Theorem min_cut_minimum adj cap S0 : network adj cap → cut S0 → finite adj cap S0 → capacity adj cap S0 < Infinity →
  ∃ R flow, let S := λ v, bool_decide (v ∈ R) in
    maxFlowEdmondsKarp adj cap = Some (capacity adj cap S, flow) ∧
    computeMinCut adj cap = Some (cut_vertices adj R) ∧ cut S ∧ finite adj cap S ∧
    ∀ T, cut T → finite adj cap T → capacity adj cap S ≤ capacity adj cap T.
Proof.
  intros Hnet Hcut Hfin HK. destruct (max_flow_run adj cap Hnet S0) as ([total flow] & f & Em & Hs & D & HD); [done..|].
  destruct (reach_run adj cap Hnet flow D HD) as (R & Er & HR).
  destruct (separates_capacity adj cap Hnet S0 Hcut Hfin (total, flow) f R Hs HR) as (H1 & H2 & H3). exists R, flow. cbv zeta.
  unfold computeMinCut. rewrite Em, Er, H3. do 4 (split; [done|]). intros T HT HTf.
  rewrite <-(fs_net _ _ _ _ Hs T HT). eapply net_le_capacity; [apply Hs|done].
Qed.

(** A diamond of two paths. *)
Definition demo_adj : Adjacencies := [(0, [2; 4]); (2, [3; 5]); (3, [1]); (4, [5]); (5, [1])].
Definition demo_cap : EdgeWeights :=
  {[(0, 2) := 5; (0, 4) := 7; (2, 3) := Infinity; (2, 5) := Infinity; (4, 5) := Infinity; (3, 1) := 5; (5, 1) := 3]}.
Lemma demo_min_cut : computeMinCut demo_adj demo_cap = Some [0; 2; 2; 5; 5; 1].
Proof. by vm_compute. Qed.

Definition demo_side (v : Z) : bool := (v =? 0) || (v =? 2) || (v =? 3) || (v =? 4) || (v =? 5).
Lemma demo_network : network demo_adj demo_cap.
Proof.
  assert (bool_decide (NoDup demo_adj.*1 ∧ Forall (λ e, 0 ≤ e.1 < 2 ^ 32 ∧ 0 ≤ e.2 < 2 ^ 32 ∧ ((e.2, e.1) ∉ edges demo_adj) ∧
    e.1 ≠ Sink ∧ is_Some (demo_cap !! e) ∧ 0 ≤ at_edge demo_cap e.1 e.2 ≤ Infinity) (edges demo_adj)) = true) as H by by vm_compute.
  apply bool_decide_eq_true in H as [Hn H]. rewrite Forall_forall in H. constructor; [done|..]; intros v w.
  - intros He. destruct (H _ He) as (? & ? & _). done.
  - intros He. destruct (H _ He) as (_ & _ & ? & _). done.
  - destruct (H _ w) as (_ & _ & _ & Hne & _). done.
  - intros He. destruct (H _ He) as (_ & _ & _ & _ & ?). done.
Qed.
Lemma demo_side_cut : cut demo_side ∧ finite demo_adj demo_cap demo_side ∧ capacity demo_adj demo_cap demo_side < Infinity.
Proof.
  split; [done|]. split; [|by vm_compute]. intros v w He.
  assert (bool_decide (Forall (λ e, demo_side e.1 = true → demo_side e.2 = false → at_edge demo_cap e.1 e.2 ≠ Infinity)
    (edges demo_adj)) = true) as H by by vm_compute.
  apply bool_decide_eq_true in H. rewrite Forall_forall in H. by apply (H _ He).
Qed.

Lemma min_cut_minimum_witness :
  ∃ R flow, let S := λ v, bool_decide (v ∈ R) in
    maxFlowEdmondsKarp demo_adj demo_cap = Some (capacity demo_adj demo_cap S, flow) ∧
    computeMinCut demo_adj demo_cap = Some (cut_vertices demo_adj R) ∧ cut S ∧ finite demo_adj demo_cap S ∧
    ∀ T, cut T → finite demo_adj demo_cap T → capacity demo_adj demo_cap S ≤ capacity demo_adj demo_cap T.
Proof.
  apply (min_cut_minimum demo_adj demo_cap demo_side); [exact demo_network|apply demo_side_cut..].
Defined.

(** With edges in both directions between two vertices, flow on one makes the
    flow of the other negative; the search takes it for a huge residual capacity
    and sends more than the capacity of the first.  Here the only cut of capacity
    1 is the edge from 2 to 3, and the result is the edge from the source. *)
Theorem antiparallel_edges_overflow :
  computeMinCut [(0, [2]); (2, [3]); (3, [2; 1])] {[(0, 2) := 10; (2, 3) := 1; (3, 2) := 1; (3, 1) := 10]} =
    Some [0; 2].
Proof. by vm_compute. Qed.
