(* ===== verification/Pipeline.v ===== *)
(** Pipelines of instructions: [lib/Strategy/PipelineStrategy.cpp].

    A strategy splits the instructions of a loop into stages.  A stage is
    sequential, parallel or replicable, and has a prefix of instructions that are
    replicated in other stages as well.  Later passes of the compiler add, replace
    and delete instructions, and check that the stages still make up the loop. *)
From S2P Require Import Prelude Machine.
#[local] Open Scope Z_scope.

(** ** Dependences

    What the dependence graph of NOELLE says about an edge from [outgoingT] to
    [incomingT], and the sets of remedies that remove it, the cheapest first. *)

Record Remedy := MkRemedy { remedy_id : Z; remedy_name : Z; cost : Z }.
Record DGEdge (T : Type) := MkEdge {
  outgoingT : T;
  incomingT : T;
  isLoopCarriedDependence : bool;
  isControlDependence : bool;
  isMemoryDependence : bool;
  isRAWDependence : bool;
  isRemovableDependence : bool;
  getRemedies : list (list Remedy) }.
Arguments MkEdge {T}.
Arguments outgoingT {T}.
Arguments incomingT {T}.
Arguments isLoopCarriedDependence {T}.
Arguments isControlDependence {T}.
Arguments isMemoryDependence {T}.
Arguments isRAWDependence {T}.
Arguments isRemovableDependence {T}.
Arguments getRemedies {T}.

#[global] Instance Remedy_eq_dec : EqDecision Remedy.
Proof. solve_decision. Defined.
#[global] Instance DGEdge_eq_dec {T} `{EqDecision T} : EqDecision (DGEdge T).
Proof. solve_decision. Defined.

(** ** Stages *)

(** Instructions are pointers. *)
Abbreviation Instruction := Z (only parsing).
Inductive StageType := Sequential | Replicable | Parallel.
#[global] Instance StageType_eq_dec : EqDecision StageType.
Proof. solve_decision. Defined.

Record PipelineStage := MkStage {
  replicated : gset Instruction;
  instructions : gset Instruction;
  type : StageType;
  parallel_factor : Z }.
Definition set_replicated (x : gset Instruction) (s : PipelineStage) : PipelineStage :=
  MkStage x (instructions s) (type s) (parallel_factor s).
Definition set_instructions (x : gset Instruction) (s : PipelineStage) : PipelineStage :=
  MkStage (replicated s) x (type s) (parallel_factor s).
Definition set_type (x : StageType) (s : PipelineStage) : PipelineStage :=
  MkStage (replicated s) (instructions s) x (parallel_factor s).
Definition set_parallel_factor (x : Z) (s : PipelineStage) : PipelineStage :=
  MkStage (replicated s) (instructions s) (type s) x.

(** The constructors from a list of instructions and from the blocks of a loop. *)
Definition stage_of (t : StageType) (insts : list Instruction) : PipelineStage :=
  MkStage ∅ (list_to_set insts) t 1.
Definition stage_of_loop (blocks : list (list Instruction)) : PipelineStage :=
  stage_of Sequential (mjoin blocks).

Record CrossStageDependence := MkCross {
  src : Instruction;
  dst : Instruction;
  edge : DGEdge Instruction }.

Record PipelineStrategy := MkStrategy {
  header : Z;
  stages : list PipelineStage;
  crossStageDeps : list CrossStageDependence;
  crossStageMemFlows : list CrossStageDependence }.
Definition set_stages (x : list PipelineStage) (s : PipelineStrategy) : PipelineStrategy :=
  MkStrategy (header s) x (crossStageDeps s) (crossStageMemFlows s).
Definition set_crossStageDeps (x : list CrossStageDependence) (s : PipelineStrategy) : PipelineStrategy :=
  MkStrategy (header s) (stages s) x (crossStageMemFlows s).
Definition set_crossStageMemFlows (x : list CrossStageDependence) (s : PipelineStrategy) : PipelineStrategy :=
  MkStrategy (header s) (stages s) (crossStageDeps s) x.

(** [invalidate], [setValidFor] and [isValid]; 0 is the null pointer. *)
Definition invalidate (s : PipelineStrategy) : PipelineStrategy :=
  MkStrategy 0 (stages s) (crossStageDeps s) (crossStageMemFlows s).
Definition setValidFor (h : Z) (s : PipelineStrategy) : PipelineStrategy :=
  MkStrategy h (stages s) (crossStageDeps s) (crossStageMemFlows s).
Definition isValid (s : PipelineStrategy) : bool := negb (header s =? 0).

(** ** Expanding replicable stages *)

Definition is_replicable (s : PipelineStage) : bool := bool_decide (type s = Replicable).
Definition communicatesTo (s other : PipelineStage) : bool := true.

(** The inner loop: merge a replicable stage into the later ones, and count them. *)
Definition merge_into (s t : PipelineStage) : PipelineStage :=
  if is_replicable t then t
  else if communicatesTo s t then set_replicated (replicated t ∪ instructions s) t else t.
Definition num_users (s : PipelineStage) (later : list PipelineStage) : Z :=
  Z.of_nat (length (filter (λ t, is_replicable t = false ∧ communicatesTo s t = true) later)).

(** The outer loop, from the last stage to the first. *)
Fixpoint expand_loop (l : list PipelineStage) : list PipelineStage :=
  match l with
  | [] => []
  | s :: l' =>
      let later := expand_loop l' in
      if is_replicable s then
        (if num_users s later <? 1 then set_type Sequential s else s) :: (merge_into s <$> later)
      else s :: later
  end.

(** The result, and whether stages were removed. *)
Definition expandReplicatedStages (l : list PipelineStage) : list PipelineStage * bool :=
  let l' := filter (λ s, is_replicable s = false) (expand_loop l) in
  (l', negb (Z.of_nat (length l') =? Z.of_nat (length l))).

(** ** Updates *)

(** Loops over the stages that may [break] after a stage. *)
Fixpoint each_stage (f : PipelineStage → PipelineStage * bool) (l : list PipelineStage) : list PipelineStage :=
  match l with
  | [] => []
  | s :: l' => let '(s', stop) := f s in s' :: (if stop then l' else each_stage f l')
  end.

Definition add_to_stage (newInst gravity : Instruction) (forceReplication : bool) (s : PipelineStage) :
    PipelineStage * bool :=
  if decide (gravity ∈ replicated s) then (set_replicated ({[newInst]} ∪ replicated s) s, false)
  else if decide (gravity ∈ instructions s) then
    (if negb forceReplication || negb (bool_decide (type s = Parallel)) then
       set_instructions ({[newInst]} ∪ instructions s) s
     else
       let s := set_replicated ({[newInst]} ∪ replicated s) s in
       if gravity =? newInst then set_instructions (instructions s ∖ {[newInst]}) s else s,
     true)
  else (s, false).

(** Control dependences on [gravity] are duplicated; the loop also visits the
    copies, which do not end in [gravity]. *)
Definition duplicate_deps (newInst gravity : Instruction) (deps : list CrossStageDependence) : list CrossStageDependence :=
  deps ++ ((λ d, MkCross (src d) newInst (edge d)) <$>
    filter (λ d, isControlDependence (edge d) = true ∧ dst d = gravity) deps).

(** [gravity] may be null. *)
Definition addInstruction (newInst gravity : Instruction) (forceReplication : bool) (ps : PipelineStrategy) :
    PipelineStrategy :=
  if gravity =? 0 then ps
  else
    let ps := set_stages (each_stage (add_to_stage newInst gravity forceReplication) (stages ps)) ps in
    if negb (gravity =? newInst) then set_crossStageDeps (duplicate_deps newInst gravity (crossStageDeps ps)) ps
    else ps.

Definition replace_in_stage (newInst oldInst : Instruction) (s : PipelineStage) : PipelineStage * bool :=
  if decide (oldInst ∈ replicated s) then
    (set_replicated ({[newInst]} ∪ (replicated s ∖ {[oldInst]})) s, false)
  else if decide (oldInst ∈ instructions s) then
    (set_instructions ({[newInst]} ∪ (instructions s ∖ {[oldInst]})) s, true)
  else (s, false).
Definition replace_dep (newInst oldInst : Instruction) (d : CrossStageDependence) : CrossStageDependence :=
  let d := if oldInst =? src d then MkCross newInst (dst d) (edge d) else d in
  if oldInst =? dst d then MkCross (src d) newInst (edge d) else d.
Definition replaceInstruction (newInst oldInst : Instruction) (ps : PipelineStrategy) : PipelineStrategy :=
  set_crossStageDeps (replace_dep newInst oldInst <$> crossStageDeps ps)
    (set_stages (each_stage (replace_in_stage newInst oldInst) (stages ps)) ps).

Definition delete_in_stage (inst : Instruction) (s : PipelineStage) : PipelineStage * bool :=
  if decide (inst ∈ replicated s) then (set_replicated (replicated s ∖ {[inst]}) s, false)
  else if decide (inst ∈ instructions s) then (set_instructions (instructions s ∖ {[inst]}) s, true)
  else (s, false).
Definition deleteInstruction (inst : Instruction) (ps : PipelineStrategy) : PipelineStrategy :=
  set_crossStageDeps (filter (λ d, ¬ (isControlDependence (edge d) = true ∧ dst d = inst)) (crossStageDeps ps))
    (set_stages (each_stage (delete_in_stage inst) (stages ps)) ps).

(** ** Queries *)

Definition in_stage (inst : Instruction) (s : PipelineStage) : bool :=
  bool_decide (inst ∈ instructions s) || bool_decide (inst ∈ replicated s).

(** [elsewhere]: the instruction is in another function than the loop. *)
Definition mayExecuteInStage (elsewhere : Instruction → bool) (inst : Instruction) (s : PipelineStage) : bool :=
  if in_stage inst s then true else elsewhere inst.

Definition getExecutingStages (elsewhere : Instruction → bool) (inst : Instruction) (ps : PipelineStrategy) : list Z :=
  (λ k : nat, Z.of_nat k) <$> filter (λ k, from_option (mayExecuteInStage elsewhere inst) false (stages ps !! k) = true)
    (seq 0 (length (stages ps))).

Definition ifI2IsInI1IsIn (i1 i2 : Instruction) (ps : PipelineStrategy) : bool :=
  forallb (λ s, negb (in_stage i2 s) || in_stage i1 s) (stages ps).

Definition mayExecuteInParallelStage (elsewhere : Instruction → bool) (inst : Instruction) (ps : PipelineStrategy) : bool :=
  existsb (λ s, bool_decide (type s = Parallel) && mayExecuteInStage elsewhere inst s) (stages ps).

(** The first index from [k] on whose stage satisfies [f]. *)
Fixpoint first_stage (f : PipelineStage → bool) (l : list PipelineStage) (k : Z) : option Z :=
  match l with
  | [] => None
  | s :: l' => if f s then Some k else first_stage f l' (k + 1)
  end.

(** The last stage of [src] and the first one of [dst]. *)
Definition maybeAntiPipelineDependence (elsewhere : Instruction → bool) (src dst : Instruction) (ps : PipelineStrategy) : bool :=
  match first_stage (mayExecuteInStage elsewhere src) (reverse (stages ps)) 0 with
  | Some k =>
      let j := Z.of_nat (length (stages ps)) - 1 - k in
      match first_stage (mayExecuteInStage elsewhere dst) (stages ps) 0 with
      | Some i => i <? j
      | None => true
      end
  | None => true
  end.

Definition maybeAntiParallelStageDependence (elsewhere : Instruction → bool) (src dst : Instruction) (ps : PipelineStrategy) : bool :=
  mayExecuteInParallelStage elsewhere src ps || mayExecuteInParallelStage elsewhere dst ps.

(** ** Consistency with the loop *)

(** The blocks in which an instruction outside of the loop may be. *)
Inductive place := LoopExit | Preheader | OtherBlock.
#[global] Instance place_eq_dec : EqDecision place.
Proof. solve_decision. Defined.
Record LoopIR := MkLoop { loop_header : Z; loop_insts : list Instruction; place_of : Instruction → place }.

(** Check 1; the elements of one set are different. *)
Definition count_stage (acc : gset Instruction * bool) (s : PipelineStage) : gset Instruction * bool :=
  (acc.1 ∪ instructions s, acc.2 && bool_decide (acc.1 ## instructions s)).
(** Check 2: [all_stages], [all_replicated] and [okay]. *)
Definition count_prefix (acc : gset Instruction * gset Instruction * bool) (s : PipelineStage) :
    gset Instruction * gset Instruction * bool :=
  let '(all, rep, ok) := acc in
  let new := replicated s ∖ rep in
  (all ∪ new, rep ∪ new, ok && bool_decide (all ## new)).

(** [PipelineStrategy::assertConsistentWithIR]: [None] when an assertion fails. *)
Definition assertConsistentWithIR (loop : LoopIR) (ps : PipelineStrategy) : option PipelineStrategy :=
  if negb (isValid ps) || negb (header ps =? loop_header loop) then None
  else
    let '(all1, ok1) := foldl count_stage (∅, true) (stages ps) in
    let '(all, _, ok2) := foldl count_prefix (all1, ∅, ok1) (stages ps) in
    let all_loop : gset Instruction := list_to_set (loop_insts loop) in
    let ok3 := ok2 && bool_decide (all_loop ⊆ all) in
    let extra := if decide (size all_loop = size all) then [] else elements (all ∖ all_loop) in
    let ok3' := ok3 && forallb (λ i, negb (bool_decide (place_of loop i = OtherBlock))) extra in
    let ps' := foldl (λ ps i, if decide (place_of loop i = Preheader) then deleteInstruction i ps else ps) ps extra in
    let ok4 := ok3' && forallb (λ d, bool_decide (src d ∈ all) && bool_decide (dst d ∈ all)) (crossStageDeps ps') in
    if ok4 then Some ps' else None.

(** ** The partition of the instructions *)

(** No instruction is in two stages, or in a stage and in a prefix. *)
Definition partition (l : list PipelineStage) : Prop :=
  ∀ i j s t x, l !! i = Some s → l !! j = Some t → x ∈ instructions s →
    (x ∈ instructions t → i = j) ∧ (x ∉ replicated t).
Definition in_pipeline (x : Instruction) (l : list PipelineStage) : Prop :=
  ∃ s, s ∈ l ∧ (x ∈ instructions s ∨ x ∈ replicated s).

(** Each stage has at most the instructions of an old stage, one of them renamed. *)
Lemma partition_renamed (σ : Z → Z) l l' : partition l →
  (∀ i s', l' !! i = Some s' → ∃ s, l !! i = Some s ∧
    (∀ x, x ∈ instructions s' → σ x ∈ instructions s) ∧ (∀ x, x ∈ replicated s' → σ x ∈ replicated s)) →
  partition l'.
Proof.
  intros Hp Hσ i j s' t' x Hs Ht Hx. destruct (Hσ i s' Hs) as (s & Es & Hs1 & _). destruct (Hσ j t' Ht) as (t & Et & Ht1 & Ht2).
  destruct (Hp i j s t (σ x) Es Et (Hs1 x Hx)) as [H1 H2]. split; [intros Hx'; apply H1, Ht1, Hx'|].
  intros Hx'. by apply H2, Ht2.
Qed.

(** A stage that the loop did not reach comes after one where it stopped. *)
Lemma each_stage_lookup f l : ∀ i s', each_stage f l !! i = Some s' →
  ∃ s, l !! i = Some s ∧ (s' = (f s).1 ∨ s' = s ∧ ∃ j t, j ≠ i ∧ l !! j = Some t ∧ (f t).2 = true).
Proof.
  induction l as [|s l IH]; intros i s'; cbn [each_stage]; [done|].
  destruct (f s) as [t stop] eqn:Ef. destruct i as [|i]; simpl.
  - intros [= <-]. exists s. rewrite Ef. split; [done|]. by left.
  - destruct stop.
    + intros ->. exists s'. split; [done|]. right. split; [done|]. exists 0%nat, s. by rewrite Ef.
    + intros Hs'. destruct (IH i s' Hs') as (s1 & Hs1 & [->|[-> (j & t1 & Hne & Hj & Hst)]]); exists s1; (split; [done|]); [by left|].
      right. split; [done|]. exists (S j), t1. split; [congruence|done].
Qed.

Definition renamed (x y z : Z) : Z := if decide (z = x) then y else z.

Lemma each_stage_partition f l x y : partition l → ¬ in_pipeline x l →
  (∀ s z, s ∈ l → z ≠ x → z ∈ instructions (f s).1 → z ∈ instructions s) →
  (∀ s z, s ∈ l → z ≠ x → z ∈ replicated (f s).1 → z ∈ replicated s) →
  (∀ s, s ∈ l → x ∈ instructions (f s).1 → y ∈ instructions s) →
  (∀ s, s ∈ l → x ∈ replicated (f s).1 → y ∈ replicated s) →
  partition (each_stage f l).
Proof.
  intros Hp Hx H1 H2 H3 H4. apply (partition_renamed (renamed x y) l); [done|]. intros i s' Hs'.
  destruct (each_stage_lookup f l i s' Hs') as (s & Es & Hs). exists s. split; [done|].
  assert (s ∈ l) as Hin by by eapply list_elem_of_lookup_2. unfold renamed. destruct Hs as [->|[-> _]].
  - split; intros z Hz; case_decide; subst; eauto.
  - split; intros z Hz; case_decide; subst; try done; exfalso; apply Hx; exists s; auto.
Qed.

(** Where the new instruction is after [addInstruction]. *)
Definition forced (force : bool) (s : PipelineStage) : Prop := force = true ∧ type s = Parallel.
Lemma add_lookup x g force l i s' : partition l → ¬ in_pipeline x l ∨ x = g →
  each_stage (add_to_stage x g force) l !! i = Some s' → ∃ s, l !! i = Some s ∧
    (∀ z, z ≠ x → (z ∈ instructions s' → z ∈ instructions s) ∧ (z ∈ replicated s' → z ∈ replicated s)) ∧
    (x ∈ instructions s' → g ∈ instructions s ∧ ¬ forced force s) ∧
    (x ∈ replicated s' → g ∈ replicated s ∨ g ∈ instructions s ∧ forced force s).
Proof.
  intros Hp Hx Hs'. destruct (each_stage_lookup _ _ _ _ Hs') as (s & Es & Hs). exists s. split; [done|].
  assert (x ∈ instructions s ∨ x ∈ replicated s → x = g) as Hin.
  { intros H. destruct Hx as [Hx|]; [|done]. exfalso. apply Hx. exists s. split; [by eapply list_elem_of_lookup_2|done]. }
  destruct Hs as [->|[-> (j & t & Hne & Et & Hstop)]].
  - unfold add_to_stage. destruct (decide (g ∈ replicated s)) as [Hg|Hg].
    { simpl. split; [set_solver|]. split; [|by left]. intros Hxi. rewrite Hin in Hxi by by left.
      by destruct (Hp i i s s g Es Es Hxi). }
    destruct (decide (g ∈ instructions s)) as [Hgi|Hgi]; [|simpl; split; [done|]; split; intros H; rewrite Hin in H by auto; done].
    unfold forced. destruct force; [|simpl; split; [set_solver|]; split; [by intros _; split; [|intros [? _]]|]; intros H; rewrite Hin in H by auto; done].
    case_bool_decide as Ht; simpl.
    + destruct (Z.eqb_spec g x) as [->|Hgx]; simpl; (split; [set_solver|]); (split; [|by right]); [set_solver|].
      intros H. destruct Hgx. symmetry. apply Hin. by left.
    + split; [set_solver|]. split; [by intros _; split; [|intros [_ ?]]|]. intros H. rewrite Hin in H by auto. done.
  - assert (g ∈ instructions t) as Hgt.
    { revert Hstop. unfold add_to_stage. destruct (decide (g ∈ replicated t)); [done|]. by destruct (decide (g ∈ instructions t)). }
    split; [done|]. split; [|intros H; left; by rewrite <-Hin by auto]. intros H. rewrite Hin in H by auto.
    exfalso. apply Hne. by apply (Hp j i t s g Et Es Hgt).
Qed.

Lemma add_partition x g force l : partition l → ¬ in_pipeline x l ∨ x = g → partition (each_stage (add_to_stage x g force) l).
Proof.
  intros Hp Hx i j s' t' z Hs Ht Hz. destruct (add_lookup x g force l i s' Hp Hx Hs) as (s & Es & S1 & S2 & _).
  destruct (add_lookup x g force l j t' Hp Hx Ht) as (t & Et & T1 & T2 & T3). destruct (decide (z = x)) as [->|Hne].
  - destruct (S2 Hz) as [Hg Hnf]. destruct (Hp i j s t g Es Et Hg) as [P1 P2]. split; [intros Hz'; by apply P1, T2|].
    intros Hz'. destruct (T3 Hz') as [|[Hgt Hf]]; [done|]. rewrite <-(P1 Hgt) in Et. rewrite Es in Et. injection Et as ->. done.
  - apply (S1 z Hne) in Hz. destruct (Hp i j s t z Es Et Hz) as [P1 P2]. split; [intros Hz'; by apply P1, T1|].
    intros Hz'. by apply P2, T1.
Qed.

Lemma replace_partition x y l : partition l → ¬ in_pipeline x l → partition (each_stage (replace_in_stage x y) l).
Proof.
  intros Hp Hx. assert (∀ s, s ∈ l → (x ∉ instructions s) ∧ (x ∉ replicated s)) as Hfresh.
  { intros s Hs. split; intros H; apply Hx; exists s; auto. }
  apply (each_stage_partition _ l x y Hp Hx); intros s; intros; destruct (Hfresh s) as [F1 F2]; try done;
    unfold replace_in_stage in *; repeat case_decide; set_solver.
Qed.

Lemma delete_partition x l : partition l → partition (each_stage (delete_in_stage x) l).
Proof.
  intros Hp. apply (partition_renamed id l); [done|]. intros i s' Hs'.
  destruct (each_stage_lookup _ _ _ _ Hs') as (s & Es & Hs). exists s. split; [done|]. unfold id.
  destruct Hs as [->|[-> _]]; [|done]. unfold delete_in_stage. repeat case_decide; set_solver.
Qed.

(** The updates of a strategy, one after the other. *)
Inductive update :=
  | Add (newInst gravity : Instruction) (forceReplication : bool)
  | Replace (newInst oldInst : Instruction)
  | Delete (inst : Instruction).
Definition run_update (u : update) (ps : PipelineStrategy) : PipelineStrategy :=
  match u with
  | Add n g force => addInstruction n g force ps
  | Replace n o => replaceInstruction n o ps
  | Delete i => deleteInstruction i ps
  end.
(** Instructions that are new to the pipeline, or moved to a prefix. *)
Fixpoint fresh_updates (us : list update) (ps : PipelineStrategy) : Prop :=
  match us with
  | [] => True
  | u :: us' =>
      match u with
      | Add n g _ => ¬ in_pipeline n (stages ps) ∨ n = g
      | Replace n _ => ¬ in_pipeline n (stages ps)
      | Delete _ => True
      end ∧ fresh_updates us' (run_update u ps)
  end.

Lemma run_update_partition u ps : partition (stages ps) → fresh_updates [u] ps → partition (stages (run_update u ps)).
Proof.
  intros Hp [Hu _]. destruct u as [n g force|n o|i]; simpl.
  - unfold addInstruction. destruct (g =? 0); [done|]. destruct (negb (g =? n)); by apply add_partition.
  - by apply replace_partition.
  - by apply delete_partition.
Qed.

(** [C26] Any sequence of updates keeps the partition: no instruction ends up in
    two stages, or in a stage and in a replicated prefix. *)
Theorem updates_keep_partition us ps : partition (stages ps) → fresh_updates us ps →
  partition (stages (foldl (λ ps u, run_update u ps) ps us)).
Proof.
  revert ps. induction us as [|u us IH]; intros ps Hp Hf; [done|]. cbn [foldl]. destruct Hf as [Hu Hf].
  apply IH; [|done]. by apply run_update_partition.
Qed.

(** Two sequential stages around a parallel one, with a prefix. *)
Definition demo_stages : list PipelineStage :=
  [MkStage ∅ {[1; 2]} Sequential 1; MkStage {[3]} {[4; 5]} Parallel 4; MkStage {[3]} {[6]} Sequential 1].
Definition demo_strategy : PipelineStrategy :=
  MkStrategy 9 demo_stages [MkCross 2 4 (MkEdge 2 4 false true false false false [])] [].

(** A decidable form of [partition]. *)
Definition check_partition (l : list PipelineStage) : bool :=
  forallb (λ i, forallb (λ j, from_option (λ s, from_option (λ t, bool_decide (instructions s ## replicated t) &&
    (bool_decide (i = j) || bool_decide (instructions s ## instructions t))) true (l !! j)) true (l !! i))
    (seq 0 (length l))) (seq 0 (length l)).
Lemma check_partition_ok l : check_partition l = true → partition l.
Proof.
  unfold check_partition. rewrite forallb_forall. intros H i j s t x Es Et Hx.
  assert (∀ k u, l !! k = Some u → In k (seq 0 (length l))) as Hin.
  { intros k u Hk%lookup_lt_Some. apply in_seq. lia. }
  specialize (H i (Hin i s Es)). rewrite forallb_forall in H. specialize (H j (Hin j t Et)). rewrite Es, Et in H. simpl in H.
  apply andb_true_iff in H as [H1%bool_decide_eq_true H2]. split; [|intros Hx'; by apply (H1 x)].
  intros Hx'. apply orb_true_iff in H2 as [H2%bool_decide_eq_true|H2%bool_decide_eq_true]; [done|]. by destruct (H2 x).
Qed.

Lemma demo_not_in x : bool_decide (Forall (λ s, (x ∉ instructions s) ∧ (x ∉ replicated s)) demo_stages) = true →
  ¬ in_pipeline x demo_stages.
Proof.
  intros H%bool_decide_eq_true (s & Hs & Hx). rewrite Forall_forall in H. destruct (H s Hs) as [? ?]. tauto.
Qed.

Lemma updates_keep_partition_witness :
  partition (stages (foldl (λ ps u, run_update u ps) demo_strategy [Add 7 4 true; Delete 3])).
Proof.
  apply (updates_keep_partition [Add 7 4 true; Delete 3] demo_strategy).
  - apply check_partition_ok. by vm_compute.
  - split; [|done]. left. apply demo_not_in. by vm_compute.
Defined.

(** ** Replicable stages *)

(** In one pass from the first stage on: a replicable stage joins the prefix of
    all later stages; only the last stage, which has no later one, becomes
    sequential. *)
Fixpoint expand_pass (prefix : gset Instruction) (l : list PipelineStage) : list PipelineStage :=
  match l with
  | [] => []
  | s :: l' =>
      if is_replicable s && negb (bool_decide (l' = [])) then expand_pass (prefix ∪ instructions s) l'
      else set_type (if is_replicable s then Sequential else type s) (set_replicated (replicated s ∪ prefix) s)
           :: expand_pass prefix l'
  end.

Definition merge_prefix (prefix : gset Instruction) (t : PipelineStage) : PipelineStage :=
  if is_replicable t then t else set_replicated (replicated t ∪ prefix) t.

Lemma merge_prefix_type P t : is_replicable (merge_prefix P t) = is_replicable t.
Proof. unfold merge_prefix. by destruct (is_replicable t) eqn:E. Qed.

Lemma num_users_spec s later : (num_users s later <? 1) = forallb is_replicable later.
Proof.
  unfold num_users. induction later as [|t later IH]; [done|]. rewrite filter_cons. cbn [forallb]. case_decide as H.
  - destruct H as [-> _]. cbn [length andb]. apply Z.ltb_ge. lia.
  - destruct (is_replicable t) eqn:Et; [exact IH|]. by destruct H.
Qed.

Lemma merge_into_type s t : is_replicable (merge_into s t) = is_replicable t.
Proof. unfold merge_into. by destruct (is_replicable t) eqn:E. Qed.

(** After the loop there is a stage that is not replicable. *)
Lemma expand_loop_users l : forallb is_replicable (expand_loop l) = bool_decide (l = []).
Proof.
  assert (∀ s k, forallb is_replicable (merge_into s <$> k) = forallb is_replicable k) as Hm.
  { intros s k. induction k as [|t k IHk]; [done|]. simpl. by rewrite merge_into_type, <-IHk. }
  induction l as [|s l IH]; [done|]. simpl. destruct (is_replicable s) eqn:Es; simpl; [|by rewrite Es].
  rewrite Hm, num_users_spec, IH. case_bool_decide; simpl; [done|]. by rewrite andb_false_r.
Qed.

Lemma merge_twice P s t : merge_prefix P (merge_into s t) = merge_prefix (P ∪ instructions s) t.
Proof.
  unfold merge_prefix. rewrite merge_into_type. unfold merge_into. simpl. destruct (is_replicable t); [done|].
  unfold set_replicated. simpl. f_equal. set_solver.
Qed.

Lemma expand_loop_pass l : ∀ P,
  filter (λ s, is_replicable s = false) (merge_prefix P <$> expand_loop l) = expand_pass P l.
Proof.
  induction l as [|s l IH]; intros P; [done|]. cbn [expand_loop expand_pass].
  destruct (is_replicable s) eqn:Es; cbn [andb].
  - rewrite num_users_spec, expand_loop_users, fmap_cons, filter_cons.
    assert (merge_prefix P <$> (merge_into s <$> expand_loop l) = merge_prefix (P ∪ instructions s) <$> expand_loop l) as ->.
    { rewrite <-list_fmap_compose. apply list_fmap_ext. intros i t _. apply merge_twice. }
    case_bool_decide as Hl; cbn [negb].
    + subst l. rewrite decide_True by (rewrite merge_prefix_type; done). done.
    + rewrite decide_False by (rewrite merge_prefix_type, Es; done). apply IH.
  - rewrite fmap_cons, filter_cons, decide_True, IH by (rewrite merge_prefix_type; done). f_equal. unfold merge_prefix. rewrite Es. by destruct s.
Qed.

(** [C27] The in-place expansion from the last stage to the first is the single
    pass from the first to the last: every stage that stays keeps its instructions
    and gets those of all replicable stages before it as a prefix, no replicable
    stage is left, and the result says whether a stage was removed. *)
Theorem expand_replicated_one_pass l :
  expandReplicatedStages l = (expand_pass ∅ l, existsb is_replicable (removelast l)).
Proof.
  assert (filter (λ s, is_replicable s = false) (expand_loop l) = expand_pass ∅ l) as E.
  { rewrite <-expand_loop_pass. f_equal. symmetry. rewrite <-(list_fmap_id (expand_loop l)) at 2. apply list_fmap_ext.
    intros i s _. unfold merge_prefix. destruct (is_replicable s); [done|]. destruct s. unfold set_replicated. simpl. f_equal. set_solver. }
  unfold expandReplicatedStages. rewrite E. f_equal. clear E.
  assert (∀ P, Z.of_nat (length (expand_pass P l)) ≤ Z.of_nat (length l) ∧
    negb (Z.of_nat (length (expand_pass P l)) =? Z.of_nat (length l)) = existsb is_replicable (removelast l)) as H; [|apply H].
  induction l as [|s l IH]; intros P; [done|]. cbn [expand_pass removelast length].
  destruct l as [|t l']; [by rewrite andb_false_r|]. destruct (is_replicable s) eqn:Es; cbn [andb].
  - rewrite bool_decide_eq_false_2 by done. cbn [negb existsb]. rewrite Es. destruct (IH (P ∪ instructions s)) as [H1 _].
    cbn [length] in *. split; [lia|]. cbn [orb]. apply negb_true_iff, Z.eqb_neq. lia.
  - cbn [length existsb]. rewrite Es. destruct (IH P) as [H1 H2]. cbn [orb length] in *. split; [lia|]. rewrite <-H2. f_equal. apply eq_iff_eq_true. rewrite !Z.eqb_eq. lia.
Qed.

Lemma demo_expanded :
  expand_pass ∅ [MkStage ∅ {[1]} Replicable 1; MkStage ∅ {[2]} Parallel 4; MkStage ∅ {[3]} Replicable 1] =
    [MkStage {[1]} {[2]} Parallel 4; MkStage {[1]} {[3]} Sequential 1].
Proof. by vm_compute. Qed.

(** ** Dependences against the pipeline *)

Lemma first_stage_spec f l : ∀ k, match first_stage f l k with
  | Some i => k ≤ i ∧ (∃ s, l !! Z.to_nat (i - k) = Some s ∧ f s = true) ∧
      ∀ j s, l !! j = Some s → f s = true → i ≤ k + Z.of_nat j
  | None => ∀ j s, l !! j = Some s → f s = false
  end.
Proof.
  induction l as [|s l IH]; intros k; cbn [first_stage]; [done|]. destruct (f s) eqn:Ef.
  - split; [lia|]. split; [exists s; by rewrite Z.sub_diag|]. intros; lia.
  - specialize (IH (k + 1)). destruct (first_stage f l (k + 1)) as [i|].
    + destruct IH as (H1 & (t & Et & Ht) & H3). split; [lia|]. split.
      * exists t. split; [|done]. replace (Z.to_nat (i - k)) with (S (Z.to_nat (i - (k + 1)))) by lia. done.
      * intros [|j] u; simpl; [intros [= <-]; congruence|]. intros Hj Hu. specialize (H3 j u Hj Hu). lia.
    + intros [|j] u; simpl; [intros [= <-]; done|apply IH].
Qed.

(** The answer [false] of [maybeAntiPipelineDependence] is safe: [src] and [dst]
    run in some stages, and no stage of [dst] comes before one of [src]. *)
Theorem anti_pipeline_sound elsewhere src dst ps : maybeAntiPipelineDependence elsewhere src dst ps = false →
  ∀ i j s t, stages ps !! j = Some s → stages ps !! i = Some t →
    mayExecuteInStage elsewhere src s = true → mayExecuteInStage elsewhere dst t = true → (j ≤ i)%nat.
Proof.
  unfold maybeAntiPipelineDependence. pose proof (first_stage_spec (mayExecuteInStage elsewhere src) (reverse (stages ps)) 0) as H1.
  destruct (first_stage _ (reverse _) 0) as [k|]; [|done].
  pose proof (first_stage_spec (mayExecuteInStage elsewhere dst) (stages ps) 0) as H2.
  destruct (first_stage _ (stages ps) 0) as [i0|]; [|done]. intros Hlt%Z.ltb_ge i j s t Es Et Hs Ht.
  destruct H1 as (_ & _ & H1), H2 as (_ & _ & H2). specialize (H2 i t Et Ht).
  pose proof (lookup_lt_Some _ _ _ Es) as Hj.
  assert (reverse (stages ps) !! (length (stages ps) - 1 - j)%nat = Some s) as Er.
  { rewrite reverse_lookup by lia. rewrite <-Es. f_equal. lia. }
  specialize (H1 _ s Er Hs). lia.
Qed.

(** ** What the consistency check shows *)

Lemma count_stages l : ∀ all ok, let r := foldl count_stage (all, ok) l in
  (∀ x, x ∈ r.1 ↔ x ∈ all ∨ ∃ s, s ∈ l ∧ x ∈ instructions s) ∧
  (r.2 = true → ok = true ∧ (∀ s, s ∈ l → all ## instructions s) ∧
    ∀ i j s t x, l !! i = Some s → l !! j = Some t → x ∈ instructions s → x ∈ instructions t → i = j).
Proof.
  induction l as [|s l IH]; intros all ok; cbn [foldl].
  - cbn [fst snd]. split; [intros x; split; [by left|intros [?|(s & ?%elem_of_nil & _)]; done]|].
    intros ->. split; [done|]. split; [by intros s ?%elem_of_nil|]. intros [|i]; done.
  - unfold count_stage at 2 4. cbn [fst snd].
    destruct (IH (all ∪ instructions s) (ok && bool_decide (all ## instructions s))) as [H1 H2]. split.
    + intros x. rewrite H1, elem_of_union. split.
      * intros [[?|?]|(t & ? & ?)]; [by left|right; exists s; split; [by left|done]|right; exists t; split; [by right|done]].
      * intros [?|(t & [->|?]%elem_of_cons & ?)]; [by left; left|by left; right|right; by exists t].
    + intros Hr. destruct (H2 Hr) as ([-> Hd%bool_decide_eq_true]%andb_true_iff & H3 & H4). split; [done|]. split.
      * intros t [->|Ht]%elem_of_cons; [done|]. intros x Hx Hx'. apply (H3 t Ht x); [apply elem_of_union; by left|done].
      * assert (∀ i u x, l !! i = Some u → x ∈ instructions s → x ∈ instructions u → False) as Hx.
        { intros i u x Hu Hxs Hxu. apply (H3 u (list_elem_of_lookup_2 _ _ _ Hu) x); [apply elem_of_union; by right|done]. }
        intros [|i] [|j] t u x; simpl; intros Ht Hu Hxt Hxu; [done| | |f_equal; by eapply H4].
        -- injection Ht as <-. by destruct (Hx j u x).
        -- injection Hu as <-. by destruct (Hx i t x).
Qed.

Lemma count_prefixes l : ∀ all rep ok, let r := foldl count_prefix (all, rep, ok) l in
  (∀ x, x ∈ r.1.1 ↔ x ∈ all ∨ (x ∉ rep) ∧ ∃ s, s ∈ l ∧ x ∈ replicated s) ∧
  (r.2 = true → ok = true ∧ ∀ s x, s ∈ l → x ∈ replicated s → x ∈ all → x ∈ rep).
Proof.
  induction l as [|s l IH]; intros all rep ok; cbn [foldl].
  - cbn [fst snd]. split; [intros x; split; [by left|intros [?|(_ & s & ?%elem_of_nil & _)]; done]|].
    intros ->. split; [done|]. by intros s x ?%elem_of_nil.
  - cbn [count_prefix].
    destruct (IH (all ∪ replicated s ∖ rep) (rep ∪ replicated s ∖ rep) (ok && bool_decide (all ## replicated s ∖ rep))) as [H1 H2]. split.
    + intros x. rewrite H1, !elem_of_union, !elem_of_difference. split.
      * intros [[?|[? ?]]|(Hn & t & ? & ?)]; [by left|right; split; [done|]; exists s; split; [by left|done]|].
        right. split; [tauto|]. exists t. split; [by right|done].
      * intros [?|(Hn & t & [->|?]%elem_of_cons & ?)]; [by left; left|by left; right|].
        destruct (decide (x ∈ replicated s)); [by left; right|right]. split; [tauto|by exists t].
    + intros Hr. destruct (H2 Hr) as ([-> Hd%bool_decide_eq_true]%andb_true_iff & H3). split; [done|].
      intros t x [->|Ht]%elem_of_cons Hx Ha.
      * destruct (decide (x ∈ rep)) as [|Hn]; [done|]. destruct (Hd x); [done|]. apply elem_of_difference. done.
      * specialize (H3 t x Ht Hx). rewrite !elem_of_union, elem_of_difference in H3. destruct H3 as [|[Hxs Hn]]; [by left|done|].
        destruct (Hd x); [done|]. by apply elem_of_difference.
Qed.

(** Stages that partition the instructions pass both counts. *)
Lemma count_stages_ok l : ∀ all, partition l → (∀ s, s ∈ l → all ## instructions s) → (foldl count_stage (all, true) l).2 = true.
Proof.
  induction l as [|s l IH]; intros all Hp Hall; [done|]. cbn [foldl]. unfold count_stage at 2. cbn [fst snd andb].
  rewrite bool_decide_eq_true_2 by (apply Hall; by left). apply IH.
  - intros i j t u x Ht Hu Hx. destruct (Hp (S i) (S j) t u x Ht Hu Hx) as [H1 H2]. split; [|done]. intros Hx'. specialize (H1 Hx'). lia.
  - intros t Ht x [Hx|Hx]%elem_of_union Hxt; [apply (Hall t (list_elem_of_further _ _ _ Ht) x Hx Hxt)|].
    pose proof Ht as [j Hj]%list_elem_of_lookup. destruct (Hp 0%nat (S j) s t x eq_refl Hj Hx) as [H1 _]. by specialize (H1 Hxt).
Qed.
Lemma count_prefixes_ok l : ∀ all rep, (∀ s x, s ∈ l → x ∈ replicated s → x ∈ all → x ∈ rep) →
  (foldl count_prefix (all, rep, true) l).2 = true.
Proof.
  induction l as [|s l IH]; intros all rep Hd; [done|]. cbn [foldl]. unfold count_prefix at 2. cbn [andb].
  rewrite bool_decide_eq_true_2 by (intros x Hx [Hxs Hn]%elem_of_difference; apply Hn, (Hd s); [by left|done..]). apply IH.
  intros t x Ht Hx [Ha|Hn]%elem_of_union; apply elem_of_union; [left; apply (Hd t); [by right|done..]|by right].
Qed.

Lemma consistent_run loop ps : header ps = loop_header loop → header ps ≠ 0 → partition (stages ps) →
  (∀ x, in_pipeline x (stages ps) ↔ x ∈ loop_insts loop) → crossStageDeps ps = [] → assertConsistentWithIR loop ps = Some ps.
Proof.
  intros Hh Hz Hp Hin Hd. unfold assertConsistentWithIR, isValid. destruct (Z.eqb_spec (header ps) 0); [done|]. rewrite Hh, Z.eqb_refl. cbn [negb orb].
  destruct (count_stages (stages ps) ∅ true) as [A1 _]. pose proof (count_stages_ok (stages ps) ∅ Hp ltac:(set_solver)) as A2.
  destruct (foldl count_stage (∅, true) (stages ps)) as [all1 ok1]. cbn [fst snd] in A1, A2. subst ok1.
  destruct (count_prefixes (stages ps) all1 ∅ true) as [B1 _].
  assert ((foldl count_prefix (all1, ∅, true) (stages ps)).2 = true) as B2.
  { apply count_prefixes_ok. intros s x Hs Hx [?%not_elem_of_empty|(t & Ht & Hxt)]%A1; [done|]. exfalso.
    pose proof Hs as [i Hi]%list_elem_of_lookup. pose proof Ht as [j Hj]%list_elem_of_lookup. by destruct (Hp j i t s x Hj Hi Hxt). }
  destruct (foldl count_prefix _ _) as [[all rep] ok2]. cbn [fst snd] in B1, B2. subst ok2. cbv zeta.
  assert (list_to_set (loop_insts loop) = all) as E.
  { apply set_eq. intros x. rewrite elem_of_list_to_set, <-Hin, B1, A1. unfold in_pipeline. pose proof (not_elem_of_empty (C := gset Z) x). split.
    - intros (s & Hs & [Hx|Hx]); [left; right; by exists s|right; split; [done|by exists s]].
    - intros [[?|(s & ? & ?)]|(_ & s & ? & ?)]; [done|exists s; auto..]. }
  rewrite E, decide_True by done. rewrite bool_decide_eq_true_2 by done. cbn [foldl forallb andb]. by rewrite Hd.
Qed.

(** When the check passes, the stages partition the instructions and every
    instruction of the loop is in a stage or in a prefix. *)
Theorem consistent_partition loop ps ps' : assertConsistentWithIR loop ps = Some ps' →
  header ps = loop_header loop ∧ partition (stages ps) ∧ ∀ x, x ∈ loop_insts loop → in_pipeline x (stages ps).
Proof.
  unfold assertConsistentWithIR. destruct (negb (isValid ps)); [done|]. cbn [orb].
  destruct (Z.eqb_spec (header ps) (loop_header loop)) as [Hh|]; [|done]. cbn [negb].
  destruct (count_stages (stages ps) ∅ true) as [A1 A2]. destruct (foldl count_stage (∅, true) (stages ps)) as [all1 ok1].
  destruct (count_prefixes (stages ps) all1 ∅ ok1) as [B1 B2]. destruct (foldl count_prefix (all1, ∅, ok1) (stages ps)) as [[all rep] ok2].
  cbn [fst snd] in *. cbv zeta. destruct (ok2 && bool_decide (list_to_set (loop_insts loop) ⊆ all)) eqn:E3; [|done].
  intros _. apply andb_true_iff in E3 as [-> Hsub%bool_decide_eq_true]. destruct (B2 eq_refl) as [-> B3].
  destruct (A2 eq_refl) as (_ & _ & A3). split; [done|]. split.
  - intros i j s t x Es Et Hx. split; [intros Hx'; by eapply A3|]. intros Hx'.
    apply (not_elem_of_empty (C := gset Z) x), (B3 t); [by eapply list_elem_of_lookup_2|done|].
    apply A1. right. exists s. split; [by eapply list_elem_of_lookup_2|done].
  - intros x Hx. assert (x ∈ all) as Hall by (apply Hsub, elem_of_list_to_set; done). apply B1 in Hall as [Hall|(_ & s & Hs & Hxs)].
    + apply A1 in Hall as [Hall%not_elem_of_empty|(s & Hs & Hxs)]; [done|]. exists s. auto.
    + exists s. auto.
Qed.

Lemma consistent_partition_witness :
  header demo_strategy = 9 ∧ partition (stages demo_strategy) ∧
    ∀ x, x ∈ [1; 2; 3; 4; 5; 6] → in_pipeline x (stages demo_strategy).
Proof.
  apply (consistent_partition (MkLoop 9 [1; 2; 3; 4; 5; 6] (λ _, OtherBlock)) demo_strategy demo_strategy). by vm_compute.
Defined.

(** [deleteInstruction] keeps the dependences that start at the instruction, so
    the check fails after the deletion of a branch. *)
Theorem delete_leaves_dependences :
  assertConsistentWithIR (MkLoop 9 [1; 3; 4; 5; 6] (λ _, OtherBlock)) (deleteInstruction 2 demo_strategy) = None.
Proof. by vm_compute. Qed.
