(* ===== verification/Partition.v ===== *)
(** Partitioning a loop: the first half of [lib/Orchestration/PSDSWPCritic.cpp].

    The strongly connected components of the dependence graph are split into a
    parallel stage and sequential stages before and after it.  Components that
    must not be in one parallel stage, because a sequential one lies between them
    or a loop-carried dependence connects them, are the infinite edges of a flow
    network, and a minimum cut selects the components that leave the stage. *)
From S2P Require Import Prelude Machine MinCut Pipeline.
From Stdlib Require Import Sorted.
#[local] Open Scope Z_scope.

(** ** The graphs of NOELLE *)

(** What the critic asks of an instruction, of a component and of the graph of
    components; [is_control] tells phi nodes, branches and switches. *)
Class Noelle := {
  mayWriteToMemory : Instruction → bool;
  is_control : Instruction → bool;
  SCC : Type;
  #[global] SCC_eq_dec :: EqDecision SCC;
  internalNodePairs : SCC → list Instruction;
  scc_edges : SCC → list (DGEdge Instruction);
  isInternal : SCC → Instruction → bool;
  getSCCIndex : SCC → Z;
  getIncomingEdges : SCC → list (DGEdge SCC);
  getOutgoingEdges : SCC → list (DGEdge SCC);
  orderedBefore_any : SCC → list SCC → bool;
  orderedBefore_from : list SCC → SCC → bool }.

(** What the critic relies on: [all] are the components of the graph with the
    instruction-level dependences [deps].  The order is the existence of a path in
    the acyclic graph of components, whose edges keep the loop-carried flag. *)
Class NoelleLaws `{Noelle} (all : list SCC) (deps : list (DGEdge Instruction)) (ordered : SCC → SCC → Prop) : Prop := {
  nl_nodup : NoDup all;
  nl_disjoint : ∀ a b i, a ∈ all → b ∈ all → i ∈ internalNodePairs a → i ∈ internalNodePairs b → a = b;
  nl_index : ∀ a b, a ∈ all → b ∈ all → getSCCIndex a = getSCCIndex b → a = b;
  nl_unsigned : ∀ a, a ∈ all → 0 ≤ getSCCIndex a < 2 ^ 31 - 1;
  nl_trans : ∀ a b c, ordered a b → ordered b c → ordered a c;
  nl_acyclic : ∀ a, ¬ ordered a a;
  nl_before : ∀ a l, orderedBefore_any a l = true ↔ ∃ b, b ∈ l ∧ ordered a b;
  nl_from : ∀ l a, orderedBefore_from l a = true ↔ ∃ b, b ∈ l ∧ ordered b a;
  nl_internal : ∀ a i, isInternal a i = true ↔ i ∈ internalNodePairs a;
  nl_inside : ∀ e a, e ∈ deps → a ∈ all → outgoingT e ∈ internalNodePairs a → incomingT e ∈ internalNodePairs a → e ∈ scc_edges a;
  nl_across : ∀ e a b, e ∈ deps → a ∈ all → b ∈ all → a ≠ b →
    outgoingT e ∈ internalNodePairs a → incomingT e ∈ internalNodePairs b →
    ordered a b ∧ (isLoopCarriedDependence e = true → ∃ g, g ∈ getOutgoingEdges a ∧ incomingT g = b ∧ isLoopCarriedDependence g = true) }.

(** A result, or what ends the compiler. *)
Inductive outcome (A : Type) := Done (a : A) | Failed (why : stop).
Arguments Done {A}.
Arguments Failed {A}.

Section Critic.
Context `{Noelle}.
(** [FIXED_POINT] times the estimated run time of a component. *)
Context (estimate_weight : SCC → Z).

(** ** Kinds of components *)

Definition IsParallel (scc : SCC) : bool :=
  forallb (λ e, negb (isInternal scc (incomingT e)) || negb (isInternal scc (outgoingT e)) ||
                negb (isLoopCarriedDependence e)) (scc_edges scc).
Definition LoopCarriedBetweenSCCs (scc1 scc2 : SCC) : bool :=
  existsb (λ e, bool_decide (outgoingT e = scc2) && isLoopCarriedDependence e) (getIncomingEdges scc1) ||
  existsb (λ e, bool_decide (incomingT e = scc2) && isLoopCarriedDependence e) (getOutgoingEdges scc1).
Definition IsReplicable (scc : SCC) : bool :=
  forallb (λ i, negb (isInternal scc i) || negb (mayWriteToMemory i)) (internalNodePairs scc).
Definition IsLightweight (scc : SCC) : bool :=
  forallb (λ i, negb (isInternal scc i) || is_control i) (internalNodePairs scc).
Definition IsParallelAndNotBetterInReplicable (scc : SCC) : bool :=
  if negb (IsParallel scc) then false
  else if negb (IsReplicable scc) then true
  else if IsLightweight scc then false else true.
Definition AllSCCsAreCompatible (a b : SCC) : bool := false.

(** ** Pivoting *)

Record pivoted := MkPivot { before : list SCC; after : list SCC; flexible : list SCC }.

(** [pivot] with three vectors, which it appends to. *)
Definition pivot_step (pivots : list SCC) (p : pivoted) (scc : SCC) : pivoted :=
  if orderedBefore_any scc pivots then MkPivot (before p ++ [scc]) (after p) (flexible p)
  else if orderedBefore_from pivots scc then MkPivot (before p) (after p ++ [scc]) (flexible p)
  else MkPivot (before p) (after p) (flexible p ++ [scc]).
Definition pivot (all pivots : list SCC) : pivoted := foldl (pivot_step pivots) (MkPivot [] [] []) all.

(** [pivot] with two vectors: shorter pipelines are favoured. *)
Definition pivot2 (all pivots : list SCC) : list SCC * list SCC :=
  let p := pivot all pivots in
  match after p with
  | [] => (before p ++ flexible p, [])
  | _ => (before p, after p ++ flexible p)
  end.

(** ** The flow network *)

Definition Left (scc_id : Z) : Z := u32 (0 + 2 * (scc_id + 1)).
Definition Right (scc_id : Z) : Z := u32 (1 + 2 * (scc_id + 1)).

Abbreviation network_of := (list (Z * list Z) * gmap (Z * Z) Z)%type (only parsing).

(** [adj[v].push_back(w)] on an ordered map. *)
Fixpoint adj_push (adj : list (Z * list Z)) (v w : Z) : list (Z * list Z) :=
  match adj with
  | [] => [(v, [w])]
  | (k, ws) :: adj' =>
      if v <? k then (v, [w]) :: adj
      else if k =? v then (k, ws ++ [w]) :: adj'
      else (k, ws) :: adj_push adj' v w
  end.
Definition add_edge (n : network_of) (v w c : Z) : network_of := (adj_push n.1 v w, <[(v, w) := c]> n.2).

(** Edges from the source and to the sink. *)
Definition add_good (n : network_of) (scc : SCC) : network_of :=
  let profile_weight := estimate_weight scc in
  let left := Left (getSCCIndex scc) in
  let right := Right (getSCCIndex scc) in
  let n := add_edge n Source left (u64 (1 + 100 * profile_weight)) in
  add_edge n right Sink (u64 (1 + 100 * profile_weight)).

Definition non_mergeable1 (n : network_of) (scc1 scc2 : SCC) : network_of :=
  add_edge n (Left (getSCCIndex scc1)) (Right (getSCCIndex scc2)) Infinity.
Definition non_mergeable (A B : list SCC) (n : network_of) : network_of :=
  foldl (λ n sccA, foldl (λ n sccB, non_mergeable1 n sccA sccB) n B) n A.

(** Rule 1: no sequential component between two of the stage. *)
Definition rule1 (good : list SCC) (n : network_of) (bad_scc : SCC) : network_of :=
  let p := pivot good [bad_scc] in non_mergeable (before p) (after p) n.
(** Rule 2: no loop-carried dependence within the stage. *)
Definition rule2 (incompat : SCC → SCC → bool) (good : list SCC) (n : network_of) (scc1 : SCC) : network_of :=
  foldl (λ n scc2,
    if incompat scc1 scc2 then
      let A := before (pivot good [scc1]) ++ [scc1] in
      let B := after (pivot good [scc2]) ++ [scc2] in
      non_mergeable A B n
    else n) n good.

Definition build_network (incompat : SCC → SCC → bool) (good bad : list SCC) : network_of :=
  let n := foldl add_good ([], ∅) good in
  let n := foldl (rule1 good) n bad in
  foldl (rule2 incompat good) n good.

(** ** The largest stage *)

(** Whether a stage was found, the stage and the other components; [None] when
    the cut is not computed. *)
Definition findMaxGoodStage (pred : SCC → bool) (incompat : SCC → SCC → bool) (all_sccs : list SCC) :
    option (bool * list SCC * list SCC) :=
  let good := filter (λ s, pred s = true) all_sccs in
  let bad := filter (λ s, pred s = false) all_sccs in
  if Z.of_nat (length good) <? 1 then Some (false, [], [])
  else
    let '(nonmergeable, nmweights) := build_network incompat good bad in
    match computeMinCut nonmergeable nmweights with
    | None => None
    | Some minCut =>
        let good_sccs := filter (λ s, (Left (getSCCIndex s) ∉ minCut) ∧ (Right (getSCCIndex s) ∉ minCut)) good in
        match good_sccs with
        | [] => Some (false, [], [])
        | _ => Some (true, good_sccs, filter (λ s, s ∉ good_sccs) all_sccs)
        end
    end.

Definition findMaxParallelStage (all_sccs : list SCC) : option (bool * list SCC * list SCC) :=
  findMaxGoodStage IsParallel LoopCarriedBetweenSCCs all_sccs.
Definition findMaxReplicableStage (all_sccs : list SCC) : option (bool * list SCC * list SCC) :=
  findMaxGoodStage IsReplicable AllSCCsAreCompatible all_sccs.

(** ** The pipeline *)

(** The constructor of a stage from components. *)
Definition stage_of_sccs (t : StageType) (sccs : list SCC) : PipelineStage :=
  stage_of t (sccs ≫= internalNodePairs).

(** [doallAndPipeline]: whether a pipeline was found, and its stages. *)
Definition doallAndPipeline (all_sccs : list SCC) (threadBudget : Z) (includeParallelStages : bool) :
    outcome (bool * list PipelineStage) :=
  match all_sccs with
  | [] => Done (false, [])
  | _ =>
      if threadBudget <=? 0 then Failed AssertFail
      else if negb includeParallelStages then Done (false, [])
      else
        match findMaxParallelStage all_sccs with
        | None => Failed Spinning
        | Some (false, _, _) => Done (false, [])
        | Some (true, maxParallel, notMaxParallel) =>
            let '(before, after) := pivot2 notMaxParallel maxParallel in
            let first := match before with [] => [] | _ => [stage_of_sccs Sequential before] end in
            let threadAvail := match before with [] => threadBudget | _ => u32 (threadBudget - 1) end in
            let threadAvail := match after with [] => threadAvail | _ => u32 (threadAvail - 1) end in
            let parallel_stage := set_parallel_factor threadAvail (stage_of_sccs Parallel maxParallel) in
            let last := match after with [] => [] | _ => [stage_of_sccs Sequential after] end in
            Done (true, first ++ [parallel_stage] ++ last)
        end
  end.

(** ** The edges of the network *)

Definition add_edge3 (n : network_of) (e : Z * Z * Z) : network_of := add_edge n e.1.1 e.1.2 e.2.

Definition good_weight (x : SCC) : Z := u64 (1 + 100 * estimate_weight x).
Definition good_edges (x : SCC) : list (Z * Z * Z) :=
  [(Source, Left (getSCCIndex x), good_weight x); (Right (getSCCIndex x), Sink, good_weight x)].
Definition pair_edges (A B : list SCC) : list (Z * Z * Z) :=
  A ≫= λ x, (λ y, (Left (getSCCIndex x), Right (getSCCIndex y), Infinity)) <$> B.
Definition rule1_edges (good : list SCC) (b : SCC) : list (Z * Z * Z) :=
  pair_edges (before (pivot good [b])) (after (pivot good [b])).
Definition rule2_edges (incompat : SCC → SCC → bool) (good : list SCC) (s : SCC) : list (Z * Z * Z) :=
  good ≫= λ t, if incompat s t then pair_edges (before (pivot good [s]) ++ [s]) (after (pivot good [t]) ++ [t]) else [].
Definition all_edges (incompat : SCC → SCC → bool) (good bad : list SCC) : list (Z * Z * Z) :=
  (good ≫= good_edges) ++ (bad ≫= rule1_edges good) ++ (good ≫= rule2_edges incompat good).

Lemma foldl_chunks {A B S} (g : S → B → S) (h : S → A → S) (chunk : A → list B) l :
  (∀ s x, h s x = foldl g s (chunk x)) → ∀ s, foldl h s l = foldl g s (l ≫= chunk).
Proof. intros E s. rewrite foldl_bind. by apply foldl_same. Qed.

Lemma non_mergeable_edges A B n : non_mergeable A B n = foldl add_edge3 n (pair_edges A B).
Proof.
  apply foldl_chunks. intros s x. revert s. induction B as [|y B IH]; intros s; [done|]. cbn [foldl fmap list_fmap]. apply IH.
Qed.

Lemma build_network_edges incompat good bad :
  build_network incompat good bad = foldl add_edge3 ([], ∅) (all_edges incompat good bad).
Proof.
  unfold build_network, all_edges. rewrite !foldl_app.
  rewrite <-(foldl_chunks add_edge3 add_good good_edges) by done.
  rewrite <-(foldl_chunks add_edge3 (rule1 good) (rule1_edges good)) by (intros; apply non_mergeable_edges).
  rewrite <-(foldl_chunks add_edge3 (rule2 incompat good) (rule2_edges incompat good)); [done|].
  intros s x. apply foldl_chunks. intros s' y. destruct (incompat x y); [apply non_mergeable_edges|done].
Qed.

(** Adding edges one by one. *)
Lemma adj_push_keys adj v w k : k ∈ (adj_push adj v w).*1 ↔ k = v ∨ k ∈ adj.*1.
Proof.
  induction adj as [|[k' ws] adj IH]; cbn [adj_push].
  - rewrite fmap_cons, elem_of_cons. simpl. tauto.
  - destruct (Z.ltb_spec v k'); [rewrite !fmap_cons, !elem_of_cons; simpl; tauto|].
    destruct (Z.eqb_spec k' v) as [->|]; rewrite !fmap_cons, !elem_of_cons; simpl; [tauto|]. rewrite IH. tauto.
Qed.

Lemma adj_push_sorted adj v w : StronglySorted Z.lt adj.*1 → StronglySorted Z.lt (adj_push adj v w).*1.
Proof.
  induction adj as [|[k' ws] adj IH]; intros Hs; cbn [adj_push]; [repeat constructor|].
  apply StronglySorted_inv in Hs as [Hs Hk].
  destruct (Z.ltb_spec v k') as [Hlt|Hge].
  - rewrite !fmap_cons. constructor; [by constructor|]. constructor; [done|]. eapply Forall_impl; [exact Hk|]. simpl. lia.
  - destruct (Z.eqb_spec k' v) as [->|Hne]; rewrite fmap_cons; [by constructor|]. constructor; [by apply IH|].
    apply Forall_forall. intros k [->|Hin]%adj_push_keys; [simpl; lia|]. rewrite Forall_forall in Hk. by apply Hk.
Qed.

Lemma adj_push_edges adj v w : edges (adj_push adj v w) ≡ₚ (v, w) :: edges adj.
Proof.
  unfold edges. induction adj as [|[k' ws] adj IH]; cbn [adj_push]; [done|].
  destruct (Z.ltb_spec v k'); [done|]. destruct (Z.eqb_spec k' v) as [->|]; rewrite !bind_cons.
  - rewrite fmap_app. simpl. rewrite <-app_assoc. simpl. by rewrite Permutation_middle.
  - rewrite IH. by rewrite Permutation_middle.
Qed.

Lemma sorted_nodup (l : list Z) : StronglySorted Z.lt l → NoDup l.
Proof.
  induction 1 as [|k l Hs IH Hk]; constructor; [|done]. intros Hin. rewrite Forall_forall in Hk. specialize (Hk k Hin). lia.
Qed.

Record built (L : list (Z * Z * Z)) (n : network_of) : Prop := {
  bt_keys : StronglySorted Z.lt n.1.*1;
  bt_edges : ∀ v w, (v, w) ∈ edges n.1 ↔ ∃ c, (v, w, c) ∈ L;
  bt_cap : (∀ v w c c', (v, w, c) ∈ L → (v, w, c') ∈ L → c = c') → ∀ v w c, (v, w, c) ∈ L → n.2 !! (v, w) = Some c }.

Lemma built_all L : built L (foldl add_edge3 ([], ∅) L).
Proof.
  induction L as [|[[x y] d] L IH] using rev_ind.
  - constructor; [constructor| |by intros _ v w c ?%elem_of_nil]. intros v w. split; [by intros ?%elem_of_nil|by intros [c ?%elem_of_nil]].
  - rewrite foldl_app. destruct IH as [H1 H2 H3]. destruct (foldl add_edge3 ([], ∅) L) as [adj m]. cbn [foldl] in *.
    unfold add_edge3, add_edge. cbn [fst snd] in *. constructor; cbn [fst snd].
    + by apply adj_push_sorted.
    + intros v w. rewrite adj_push_edges, elem_of_cons, H2. split.
      * intros [[= -> ->]|[c Hc]]; [exists d|exists c]; apply elem_of_app; [right; by left|by left].
      * intros [c [Hc|Hc%list_elem_of_singleton]%elem_of_app]; [right; by exists c|left]. congruence.
    + intros Hf v w c Hc. destruct (decide ((x, y) = (v, w))) as [E|Hne].
      * rewrite E, lookup_insert_eq. f_equal. injection E as -> ->. apply (Hf v w); [|done]. apply elem_of_app. right. by left.
      * rewrite lookup_insert_ne by done. apply H3.
        -- intros v' w' c1 c2 Hc1 Hc2. apply (Hf v' w'); apply elem_of_app; by left.
        -- apply elem_of_app in Hc as [|Hc%list_elem_of_singleton]; [done|]. congruence.
Qed.

(** ** Components that must not be in one stage *)

Lemma pivot_spec l pv : before (pivot l pv) = filter (λ s, orderedBefore_any s pv = true) l ∧
  after (pivot l pv) = filter (λ s, orderedBefore_any s pv = false ∧ orderedBefore_from pv s = true) l ∧
  flexible (pivot l pv) = filter (λ s, orderedBefore_any s pv = false ∧ orderedBefore_from pv s = false) l.
Proof.
  unfold pivot. induction l as [|s l IH] using rev_ind; [done|]. rewrite foldl_app. cbn [foldl].
  destruct IH as (H1 & H2 & H3). rewrite !filter_app, <-H1, <-H2, <-H3. unfold pivot_step.
  assert (∀ (P : SCC → Prop) `{∀ x, Decision (P x)}, filter P [s] = if decide (P s) then [s] else []) as Hf.
  { intros P ?. by rewrite filter_cons, filter_nil. }
  rewrite !Hf. destruct (orderedBefore_any s pv); [by rewrite !app_nil_r|].
  destruct (orderedBefore_from pv s); by rewrite !app_nil_r.
Qed.

Section Laws.
Context (all : list SCC) (deps : list (DGEdge Instruction)) (ordered : SCC → SCC → Prop).
Context `{!NoelleLaws all deps ordered}.
Context (pred : SCC → bool) (incompat : SCC → SCC → bool).
Let good : list SCC := filter (λ s, pred s = true) all.
Let bad : list SCC := filter (λ s, pred s = false) all.

Definition conflict (x y : SCC) : Prop :=
  (∃ b, b ∈ bad ∧ ordered x b ∧ ordered b y) ∨
  ∃ s t, s ∈ good ∧ t ∈ good ∧ incompat s t = true ∧ (x = s ∨ ordered x s) ∧ (y = t ∨ ordered t y).

Lemma before_one b x : x ∈ before (pivot good [b]) ↔ x ∈ good ∧ ordered x b.
Proof.
  destruct (pivot_spec good [b]) as (-> & _). rewrite list_elem_of_filter, nl_before. split.
  - intros [(y & ->%list_elem_of_singleton & Ho) Hx]. done.
  - intros [Hx Ho]. split; [|done]. exists b. split; [by left|done].
Qed.

Lemma after_one b y : y ∈ after (pivot good [b]) ↔ y ∈ good ∧ ordered b y.
Proof.
  destruct (pivot_spec good [b]) as (_ & -> & _). rewrite list_elem_of_filter, nl_from. split.
  - intros [[_ (z & ->%list_elem_of_singleton & Ho)] Hx]. done.
  - intros [Hx Ho]. split; [|done]. split; [|exists b; split; [by left|done]].
    destruct (orderedBefore_any y [b]) eqn:E; [|done]. apply nl_before in E as (z & ->%list_elem_of_singleton & Ho').
    exfalso. eapply nl_acyclic, nl_trans; done.
Qed.

Lemma elem_of_pair_edges A B v w c : (v, w, c) ∈ pair_edges A B ↔
  ∃ x y, x ∈ A ∧ y ∈ B ∧ (v, w, c) = (Left (getSCCIndex x), Right (getSCCIndex y), Infinity).
Proof.
  unfold pair_edges. rewrite list_elem_of_bind. split.
  - intros (x & (y & E & Hy)%list_elem_of_fmap & Hx). by exists x, y.
  - intros (x & y & Hx & Hy & E). exists x. split; [|done]. apply list_elem_of_fmap. by exists y.
Qed.

Lemma elem_of_all_edges v w c : (v, w, c) ∈ all_edges incompat good bad ↔
  (∃ x, x ∈ good ∧ (v, w, c) ∈ good_edges x) ∨
  ∃ x y, x ∈ good ∧ y ∈ good ∧ conflict x y ∧ (v, w, c) = (Left (getSCCIndex x), Right (getSCCIndex y), Infinity).
Proof.
  unfold all_edges. rewrite !elem_of_app, !list_elem_of_bind. split.
  - intros [(x & He & Hx)|[(b & He & Hb)|(s & He & Hs)]]; [left; by exists x| |]; right.
    + apply elem_of_pair_edges in He as (x & y & [Hx Hxb]%before_one & [Hy Hby]%after_one & E).
      exists x, y. do 2 (split; [done|]). split; [|done]. left. by exists b.
    + unfold rule2_edges in He. apply list_elem_of_bind in He as (t & He & Ht). destruct (incompat s t) eqn:Ei; [|by apply elem_of_nil in He].
      apply elem_of_pair_edges in He as (x & y & Hx & Hy & E). exists x, y.
      assert (x ∈ good ∧ (x = s ∨ ordered x s)) as [Hx1 Hx2].
      { apply elem_of_app in Hx as [[? ?]%before_one| ->%list_elem_of_singleton]; [split; [done|by right]|split; [done|by left]]. }
      assert (y ∈ good ∧ (y = t ∨ ordered t y)) as [Hy1 Hy2].
      { apply elem_of_app in Hy as [[? ?]%after_one| ->%list_elem_of_singleton]; [split; [done|by right]|split; [done|by left]]. }
      do 2 (split; [done|]). split; [|done]. right. by exists s, t.
  - intros [(x & Hx & He)|(x & y & Hx & Hy & [(b & Hb & Hxb & Hby)|(s & t & Hs & Ht & Ei & Hxs & Hty)] & E)];
      [left; by exists x| |]; right.
    + left. exists b. split; [|done]. apply elem_of_pair_edges. exists x, y. rewrite before_one, after_one. done.
    + right. exists s. split; [|done]. apply list_elem_of_bind. exists t. split; [|done]. rewrite Ei.
      apply elem_of_pair_edges. exists x, y. rewrite !elem_of_app, before_one, after_one, !list_elem_of_singleton.
      split; [destruct Hxs; [by right|by left]|]. split; [destruct Hty; [by right|by left]|done].
Qed.

(** Conflicts are inherited by what comes before and after. *)
Lemma conflict_before p x y : ordered p x → conflict x y → conflict p y.
Proof.
  intros Hp [(b & Hb & Hxb & Hby)|(s & t & Hs & Ht & Ei & Hxs & Hty)].
  - left. exists b. split; [done|]. split; [by eapply nl_trans|done].
  - right. exists s, t. do 3 (split; [done|]). split; [|done]. right. destruct Hxs as [->|Hxs]; [done|by eapply nl_trans].
Qed.
Lemma conflict_after x y p : ordered y p → conflict x y → conflict x p.
Proof.
  intros Hp [(b & Hb & Hxb & Hby)|(s & t & Hs & Ht & Ei & Hxs & Hty)].
  - left. exists b. split; [done|]. split; [done|by eapply nl_trans].
  - right. exists s, t. do 3 (split; [done|]). split; [done|]. right. destruct Hty as [->|Hty]; [done|by eapply nl_trans].
Qed.

(** ** The network is one that the cut is right for *)

Context (Hest : ∀ x, x ∈ all → 0 ≤ estimate_weight x).
Context (Hsum : sumZ (λ x, 1 + 100 * estimate_weight x) all < Infinity).

Lemma good_all x : x ∈ good → x ∈ all.
Proof. unfold good. by intros [_ Hx]%list_elem_of_filter. Qed.

Lemma weight_bound x : x ∈ all → 1 ≤ 1 + 100 * estimate_weight x < Infinity.
Proof.
  intros Hx. pose proof (Hest x Hx). split; [lia|]. pose proof Hx as [k Hk]%elem_of_Permutation. rewrite Hk in Hsum.
  unfold sumZ in Hsum. simpl in Hsum. fold (sumZ (λ x, 1 + 100 * estimate_weight x) k) in Hsum.
  assert (0 ≤ sumZ (λ x, 1 + 100 * estimate_weight x) k); [|lia]. apply sumZ_nonneg. intros y Hy.
  assert (y ∈ all) as Hya by (rewrite Hk; by right). specialize (Hest y Hya). lia.
Qed.

Lemma good_weight_eq x : x ∈ all → good_weight x = 1 + 100 * estimate_weight x.
Proof. intros Hx. apply wrap_small. pose proof (weight_bound x Hx). unfold Infinity in *. lia. Qed.

Lemma Left_eq x : x ∈ all → Left (getSCCIndex x) = 2 * (getSCCIndex x + 1) ∧ 2 ≤ Left (getSCCIndex x) < 2 ^ 32.
Proof.
  intros Hx. pose proof (nl_unsigned x Hx). unfold Left. rewrite (wrap_small 32) by lia. lia.
Qed.
Lemma Right_eq x : x ∈ all → Right (getSCCIndex x) = 2 * (getSCCIndex x + 1) + 1 ∧ 3 ≤ Right (getSCCIndex x) < 2 ^ 32.
Proof.
  intros Hx. pose proof (nl_unsigned x Hx). unfold Right. rewrite (wrap_small 32) by lia. lia.
Qed.

Abbreviation left x := (Left (getSCCIndex x)).
Abbreviation right x := (Right (getSCCIndex x)).

Lemma left_inj x y : x ∈ all → y ∈ all → left x = left y → x = y.
Proof. intros Hx Hy E. apply (nl_index (ordered := ordered) (deps := deps)); [done|done|]. destruct (Left_eq x Hx), (Left_eq y Hy). lia. Qed.
Lemma right_inj x y : x ∈ all → y ∈ all → right x = right y → x = y.
Proof. intros Hx Hy E. apply (nl_index (ordered := ordered) (deps := deps)); [done|done|]. destruct (Right_eq x Hx), (Right_eq y Hy). lia. Qed.
Lemma left_right x y : x ∈ all → y ∈ all → left x ≠ right y.
Proof. intros Hx Hy E. destruct (Left_eq x Hx), (Right_eq y Hy). lia. Qed.

Let net : network_of := build_network incompat good bad.

Inductive net_edge (v w : Z) : Z → Prop :=
  | edge_source x : x ∈ good → v = Source → w = left x → net_edge v w (1 + 100 * estimate_weight x)
  | edge_sink x : x ∈ good → v = right x → w = Sink → net_edge v w (1 + 100 * estimate_weight x)
  | edge_conflict x y : x ∈ good → y ∈ good → conflict x y → v = left x → w = right y → net_edge v w Infinity.

Lemma net_edge_iff v w c : (v, w, c) ∈ all_edges incompat good bad ↔ net_edge v w c.
Proof.
  rewrite elem_of_all_edges. split.
  - intros [(x & Hx & He)|(x & y & Hx & Hy & Hc & [= -> -> ->])].
    + unfold good_edges in He. rewrite good_weight_eq in He by by apply good_all.
      apply elem_of_cons in He as [[= -> -> ->]|[= -> -> ->]%list_elem_of_singleton]; [by apply edge_source|by apply edge_sink].
    + by apply (edge_conflict _ _ x y).
  - intros [x Hx -> ->|x Hx -> ->|x y Hx Hy Hc -> ->].
    + left. exists x. split; [done|]. unfold good_edges. rewrite good_weight_eq by by apply good_all. by left.
    + left. exists x. split; [done|]. unfold good_edges. rewrite good_weight_eq by by apply good_all. right. by left.
    + right. by exists x, y.
Qed.

(** The three kinds of edges are told apart by their vertices. *)
Lemma net_edge_fun v w c c' : net_edge v w c → net_edge v w c' → c = c'.
Proof.
  assert (Source = 0 ∧ Sink = 1) as [ES ET] by done.
  intros [x Hx -> ->|x Hx -> ->|x y Hx Hy Hc -> ->]; intros [x' Hx' Ev Ew|x' Hx' Ev Ew|x' y' Hx' Hy' Hc' Ev Ew];
    pose proof (good_all _ Hx) as Ax; pose proof (good_all _ Hx') as Ax';
    pose proof (Left_eq _ Ax); pose proof (Right_eq _ Ax); pose proof (Left_eq _ Ax'); pose proof (Right_eq _ Ax');
    try (exfalso; lia); try done.
  - by rewrite (left_inj x x').
  - by rewrite (right_inj x x').
Qed.

Lemma net_built : StronglySorted Z.lt net.1.*1 ∧ (∀ v w, (v, w) ∈ edges net.1 ↔ ∃ c, net_edge v w c) ∧
  ∀ v w c, net_edge v w c → net.2 !! (v, w) = Some c.
Proof.
  unfold net. rewrite build_network_edges. destruct (built_all (all_edges incompat good bad)) as [H1 H2 H3].
  split; [done|]. split.
  - intros v w. rewrite H2. split; intros [c Hc]; exists c; by apply net_edge_iff.
  - intros v w c Hc. apply H3; [|by apply net_edge_iff]. intros v' w' c1 c2 H4%net_edge_iff H5%net_edge_iff. by eapply net_edge_fun.
Qed.

Lemma net_at v w c : net_edge v w c → at_edge net.2 v w = c.
Proof. intros Hc. unfold at_edge. destruct net_built as (_ & _ & ->%(λ f, f v w c Hc)). done. Qed.

Lemma net_network : network net.1 net.2.
Proof.
  destruct net_built as (Hk & He & Hc). assert (Source = 0 ∧ Sink = 1) as [ES ET] by done.
  assert (∀ v w c, net_edge v w c → 0 ≤ v < 2 ^ 32 ∧ 0 ≤ w < 2 ^ 32 ∧ v ≠ Sink ∧ ¬ (∃ c', net_edge w v c') ∧ 0 ≤ c ≤ Infinity) as Hall.
  { intros v w c. intros [x Hx -> ->|x Hx -> ->|x y Hx Hy Hcf -> ->]; pose proof (good_all _ Hx) as Ax;
      pose proof (Left_eq _ Ax); pose proof (Right_eq _ Ax); pose proof (weight_bound _ Ax);
      try (pose proof (good_all _ Hy) as Ay; pose proof (Left_eq _ Ay); pose proof (Right_eq _ Ay));
      (split; [lia|]); (split; [lia|]); (split; [lia|]); (split; [|try unfold Infinity in *; lia]);
      intros [c' [x' Hx' E1 E2|x' Hx' E1 E2|x' y' Hx' Hy' _ E1 E2]];
      pose proof (good_all _ Hx') as Ax'; pose proof (Left_eq _ Ax'); pose proof (Right_eq _ Ax');
      try pose proof (Right_eq _ (good_all _ Hy')); lia. }
  constructor.
  - by apply sorted_nodup.
  - intros v w [c Hvw]%He. destruct (Hall v w c Hvw) as (? & ? & _). done.
  - intros v w [c Hvw]%He Hwv%He. destruct (Hall v w c Hvw) as (_ & _ & _ & Hn & _). done.
  - intros w [c Hvw]%He. destruct (Hall _ w c Hvw) as (_ & _ & Hn & _). done.
  - intros v w [c Hvw]%He. destruct (Hall v w c Hvw) as (_ & _ & _ & _ & Hb). rewrite (net_at _ _ _ Hvw).
    split; [|done]. by rewrite (Hc _ _ _ Hvw).
Qed.

(** The edges of the source are a finite cut. *)
Definition source_side (v : Z) : bool := v =? Source.

Lemma sumZ_support {A} `{EqDecision A} (g : A → Z) l k : NoDup l → (∀ x, x ∈ l → (x ∉ k) → g x = 0) → (∀ x, x ∈ k → 0 ≤ g x) →
  sumZ g l ≤ sumZ g k.
Proof.
  revert k. induction l as [|x l IH]; intros k Hn H0 Hp; [by apply sumZ_nonneg|]. apply NoDup_cons in Hn as [Hx Hn].
  rewrite sumZ_cons. destruct (decide (x ∈ k)) as [Hk|Hk].
  - pose proof Hk as [k' Hk']%elem_of_Permutation. rewrite Hk', sumZ_cons.
    assert (sumZ g l ≤ sumZ g k'); [|lia]. apply IH; [done| |].
    + intros y Hy Hyk. apply H0; [by right|]. rewrite Hk'. intros [->|]%elem_of_cons; done.
    + intros y Hy. apply Hp. rewrite Hk'. by right.
  - rewrite (H0 x) by (by left || done). assert (sumZ g l ≤ sumZ g k); [|lia]. apply IH; [done| |done].
    intros y Hy. apply H0. by right.
Qed.

Lemma net_finite : cut source_side ∧ finite net.1 net.2 source_side ∧ capacity net.1 net.2 source_side < Infinity.
Proof.
  destruct net_built as (_ & He & _).
  assert (∀ v w c, net_edge v w c → v = Source → ∃ x, x ∈ good ∧ w = left x ∧ c = 1 + 100 * estimate_weight x) as Hs.
  { assert (Source = 0) as ES by done. intros v w c. intros [x Hx -> ->|x Hx -> ->|x y Hx Hy _ -> ->] E; [by exists x| |];
      pose proof (Left_eq _ (good_all _ Hx)); pose proof (Right_eq _ (good_all _ Hx)); lia. }
  split; [done|]. split.
  - intros v w [c Hvw]%He Hv%Z.eqb_eq _. destruct (Hs v w c Hvw Hv) as (x & Hx & -> & ->). rewrite (net_at _ _ _ Hvw).
    pose proof (weight_bound _ (good_all _ Hx)). lia.
  - eapply Z.le_lt_trans; [|exact Hsum]. unfold capacity.
    transitivity (sumZ (λ e : Z * Z, if source_side e.1 && negb (source_side e.2) then at_edge net.2 e.1 e.2 else 0)
      ((λ x, (Source, left x)) <$> good)).
    + apply sumZ_support; [apply NoDup_remove_dups| |].
      * intros [v w] [c Hvw]%elem_of_arcs%He Hn. cbn [fst snd]. destruct (source_side v) eqn:Ev; [|done].
        apply Z.eqb_eq in Ev. destruct (Hs v w c Hvw Ev) as (x & Hx & -> & ->). destruct Hn. apply list_elem_of_fmap. exists x. by subst.
      * intros e (x & -> & Hx)%list_elem_of_fmap. cbn [fst snd]. destruct (_ && _); [|done].
        rewrite (net_at _ _ _ (edge_source _ _ x Hx eq_refl eq_refl)). pose proof (weight_bound _ (good_all _ Hx)). lia.
    + rewrite sumZ_fmap. etransitivity; [apply (sumZ_le _ (λ x, 1 + 100 * estimate_weight x))|].
      { intros x Hx. cbn [compose fst snd]. unfold compose. cbn [fst snd].
        rewrite (net_at _ _ _ (edge_source _ _ x Hx eq_refl eq_refl)). pose proof (weight_bound _ (good_all _ Hx)).
        destruct (_ && _); lia. }
      apply sumZ_support; [apply NoDup_filter, (nl_nodup (deps := deps) (ordered := ordered))| |].
      * intros x Hx Hn. destruct Hn. by apply good_all.
      * intros x Hx. pose proof (weight_bound _ Hx). lia.
Qed.

(** ** What the cut keeps *)

Record stage_cut (R : gset Z) : Prop := {
  sc_run : computeMinCut net.1 net.2 = Some (cut_vertices net.1 R);
  sc_source : Source ∈ R;
  sc_sink : Sink ∉ R;
  sc_finite : ∀ v w, net_edge v w Infinity → v ∈ R → w ∈ R;
  sc_least : ∀ T, cut T → finite net.1 net.2 T → capacity net.1 net.2 (λ v, bool_decide (v ∈ R)) ≤ capacity net.1 net.2 T }.

Lemma stage_cut_run : ∃ R, stage_cut R.
Proof.
  destruct net_finite as (H1 & H2 & H3). destruct (min_cut_run net.1 net.2 net_network source_side H1 H2 H3) as (R & E & [C1 C2] & Hf & Hl).
  exists R. constructor; [done|by apply bool_decide_eq_true in C1|by apply bool_decide_eq_false in C2| |done].
  intros v w He Hv. destruct (decide (w ∈ R)) as [|Hw]; [done|]. exfalso. apply (Hf v w).
  - apply net_built. by exists Infinity.
  - by apply bool_decide_eq_true_2.
  - by apply bool_decide_eq_false_2.
  - by apply net_at.
Qed.

Section Cut.
Context (R : gset Z) (HR : stage_cut R).

Lemma elem_of_cut u : u ∈ cut_vertices net.1 R ↔
  ∃ v w c, net_edge v w c ∧ ¬ (v ∈ R ↔ w ∈ R) ∧ (u = v ∨ u = w).
Proof.
  unfold cut_vertices. rewrite list_elem_of_bind. destruct net_built as (_ & He & _). split.
  - intros ([v w] & Hu & [c Hc]%He). exists v, w, c. split; [done|].
    do 2 case_bool_decide; simpl in Hu; try (by apply elem_of_nil in Hu).
    + split; [tauto|]. apply elem_of_cons in Hu as [->| ->%list_elem_of_singleton]; [by left|by right].
    + split; [tauto|]. apply elem_of_cons in Hu as [->| ->%list_elem_of_singleton]; [by left|by right].
  - intros (v & w & c & Hc & Hx & Hu). exists (v, w). split; [|apply He; by exists c].
    do 2 case_bool_decide; simpl; try tauto; destruct Hu as [->| ->]; [by left|right; by left|by left|right; by left].
Qed.

(** A component stays when neither of its edges is cut. *)
Lemma kept_iff x : x ∈ good →
  (left x ∉ cut_vertices net.1 R) ∧ (right x ∉ cut_vertices net.1 R) ↔ left x ∈ R ∧ (right x ∉ R).
Proof.
  intros Hx. pose proof (good_all _ Hx) as Ax. destruct HR as [_ Hs Ht Hf _]. split.
  - intros [Hl Hr]. split.
    + destruct (decide (left x ∈ R)) as [|Hn]; [done|]. destruct Hl. apply elem_of_cut.
      exists Source, (left x), (1 + 100 * estimate_weight x). split; [by apply edge_source|]. split; [tauto|by right].
    + intros Hin. apply Hr, elem_of_cut. exists (right x), Sink, (1 + 100 * estimate_weight x).
      split; [by apply edge_sink|]. split; [tauto|by left].
  - intros [Hl Hr]. assert (Source = 0 ∧ Sink = 1) as [ES ET] by done.
    pose proof (Left_eq _ Ax). pose proof (Right_eq _ Ax).
    split; intros (v & w & c & [y Hy -> ->|y Hy -> ->|y z Hy Hz Hc -> ->] & Hx' & Hu)%elem_of_cut;
      pose proof (good_all _ Hy) as Ay; pose proof (Left_eq _ Ay); pose proof (Right_eq _ Ay);
      try (pose proof (good_all _ Hz) as Az; pose proof (Left_eq _ Az); pose proof (Right_eq _ Az)); destruct Hu as [Hu|Hu]; try lia.
    + apply left_inj in Hu; [subst y; tauto|done|done].
    + apply left_inj in Hu; [subst y|done|done]. apply Hx'. split; [|done]. intros _. apply (Hf (left x)); [by apply (edge_conflict _ _ x z)|done].
    + apply right_inj in Hu; [subst y; tauto|done|done].
    + apply right_inj in Hu; [subst z|done|done]. apply Hx'. split; [|done]. intros Hin. apply (Hf (left y)); [by apply (edge_conflict _ _ y x)|done].
Qed.

Definition kept (x : SCC) : Prop := x ∈ good ∧ left x ∈ R ∧ (right x ∉ R).

Lemma kept_no_conflict x y : kept x → kept y → ¬ conflict x y.
Proof.
  intros (Hx & Hlx & _) (Hy & _ & Hry) Hc. apply Hry, (sc_finite R HR (left x)); [by apply (edge_conflict _ _ x y)|done].
Qed.

(** Moving a vertex to the other side cannot make the cut smaller. *)
Lemma sumZ_lt {A} (f g : A → Z) l a : (∀ x, x ∈ l → f x ≤ g x) → a ∈ l → f a < g a → sumZ f l < sumZ g l.
Proof.
  intros Hle [k Hk]%elem_of_Permutation Ha.
  assert (sumZ f k ≤ sumZ g k) by (apply sumZ_le; intros x Hx; apply Hle; rewrite Hk; by right).
  rewrite Hk, !sumZ_cons. lia.
Qed.

Lemma no_better_cut (T : Z → bool) v0 w0 c0 : T Source = true → T Sink = false →
  (∀ v w c, net_edge v w c → T v = true → T w = false → v ∈ R ∧ (w ∉ R)) →
  net_edge v0 w0 c0 → 0 < c0 → v0 ∈ R → (w0 ∉ R) → T v0 = false ∨ T w0 = true → False.
Proof.
  intros HT1 HT2 Hsub He0 Hc0 Hv0 Hw0 Hdiff. destruct net_built as (_ & He & _).
  assert (finite net.1 net.2 T) as Hfin.
  { intros v w [c Hc]%He Hv Hw Hinf. rewrite (net_at _ _ _ Hc) in Hinf. subst c. destruct (Hsub _ _ _ Hc Hv Hw) as [Hv' Hw'].
    by apply Hw', (sc_finite R HR v). }
  pose proof (sc_least R HR T (conj HT1 HT2) Hfin) as Hle.
  assert (capacity net.1 net.2 T < capacity net.1 net.2 (λ v, bool_decide (v ∈ R))); [|lia].
  apply (sumZ_lt _ _ _ (v0, w0)).
  - intros [v w] [c Hc]%elem_of_arcs%He. cbn [fst snd]. rewrite (net_at _ _ _ Hc).
    assert (0 ≤ c) as Hc1.
    { destruct (nw_cap _ _ net_network v w) as [_ Hb]; [apply He; by exists c|]. rewrite (net_at _ _ _ Hc) in Hb. lia. }
    destruct (T v) eqn:Ev, (T w) eqn:Ew; simpl; try (destruct (_ && _); lia).
    destruct (Hsub v w c Hc Ev Ew) as [Hv' Hw']. by rewrite bool_decide_eq_true_2, bool_decide_eq_false_2 by done.
  - apply elem_of_arcs, He. by exists c0.
  - cbn [fst snd]. rewrite (net_at _ _ _ He0). rewrite bool_decide_eq_true_2, bool_decide_eq_false_2 by done. simpl.
    destruct Hdiff as [->| ->]; simpl; [lia|]. rewrite andb_false_r. lia.
Qed.

(** A component between two that stay also stays. *)
Lemma kept_convex p x q : kept p → kept q → x ∈ all → ordered p x → ordered x q → kept x.
Proof.
  intros Hp Hq Ax Hpx Hxq. destruct (pred x) eqn:Ep.
  2:{ destruct (kept_no_conflict p q Hp Hq). left. exists x. split; [|done]. apply list_elem_of_filter. done. }
  assert (x ∈ good) as Hx by (apply list_elem_of_filter; done). split; [done|].
  assert (Source = 0 ∧ Sink = 1) as [ES ET] by done. pose proof (Left_eq _ Ax). pose proof (Right_eq _ Ax). pose proof (weight_bound _ Ax).
  destruct Hp as (Hp & Hlp & Hrp), Hq as (Hq & Hlq & Hrq). pose proof (sc_source R HR) as Hs. pose proof (sc_sink R HR) as Ht. split.
  - destruct (decide (left x ∈ R)) as [|Hn]; [done|]. exfalso.
    apply (no_better_cut (λ v, bool_decide (v ∈ R) || (v =? left x)) Source (left x) (1 + 100 * estimate_weight x)); try done.
    + by rewrite bool_decide_eq_true_2.
    + rewrite bool_decide_eq_false_2 by done. apply Z.eqb_neq. lia.
    + intros v w c He Hv Hw. apply orb_false_iff in Hw as [Hw%bool_decide_eq_false Hwx]. split; [|done].
      apply orb_true_iff in Hv as [Hv%bool_decide_eq_true|Hv%Z.eqb_eq]; [done|]. exfalso. subst v. apply Hw.
      destruct He as [y Hy E ->|y Hy E ->|y z Hy Hz Hc E ->].
      * lia.
      * pose proof (Right_eq _ (good_all _ Hy)). lia.
      * apply left_inj in E; [subst y|done|by apply good_all]. apply (sc_finite R HR (left p)); [|done].
        apply (edge_conflict _ _ p z); [done|done|by eapply conflict_before|done|done].
    + by apply edge_source.
    + lia.
    + right. rewrite Z.eqb_refl. apply orb_true_r.
  - intros Hn.
    apply (no_better_cut (λ v, bool_decide (v ∈ R) && negb (v =? right x)) (right x) Sink (1 + 100 * estimate_weight x)); try done.
    + rewrite bool_decide_eq_true_2 by done. apply negb_true_iff, Z.eqb_neq. lia.
    + by rewrite bool_decide_eq_false_2.
    + intros v w c He Hv Hw. apply andb_true_iff in Hv as [Hv%bool_decide_eq_true Hvx]. split; [done|].
      apply andb_false_iff in Hw as [Hw%bool_decide_eq_false|Hw%negb_false_iff%Z.eqb_eq]; [done|]. exfalso. subst w.
      destruct He as [y Hy -> E|y Hy -> E|z y Hz Hy Hc -> E].
      * pose proof (Left_eq _ (good_all _ Hy)). lia.
      * lia.
      * apply right_inj in E; [subst y|done|by apply good_all]. apply Hrq, (sc_finite R HR (left z)); [|done].
        apply (edge_conflict _ _ z q); [done|done|by eapply conflict_after|done|done].
    + by apply edge_sink.
    + lia.
    + left. rewrite Z.eqb_refl. apply andb_false_r.
Qed.
End Cut.

Definition good_sccs (R : gset Z) : list SCC :=
  filter (λ s, (left s ∉ cut_vertices net.1 R) ∧ (right s ∉ cut_vertices net.1 R)) good.

Lemma elem_of_good_sccs R x : stage_cut R → x ∈ good_sccs R ↔ kept R x.
Proof.
  intros HR. unfold good_sccs, kept. rewrite list_elem_of_filter. split.
  - intros [Hx Hg]. split; [done|]. by apply (kept_iff R HR).
  - intros [Hg Hx]. split; [|done]. by apply (kept_iff R HR).
Qed.

(** What [findMaxGoodStage] finds: good components without conflicts and without
    other components between them, and the rest of the graph. *)
Record max_stage (found : bool) (M N : list SCC) : Prop := {
  ms_found : found = false → M = [] ∧ N = [];
  ms_some : found = true → M ≠ [] ∧ N = filter (λ s, s ∉ M) all;
  ms_good : ∀ x, x ∈ M → x ∈ all ∧ pred x = true;
  ms_free : ∀ x y, x ∈ M → y ∈ M → ¬ conflict x y;
  ms_convex : ∀ p x q, p ∈ M → q ∈ M → x ∈ all → ordered p x → ordered x q → x ∈ M }.

Lemma no_stage : max_stage false [] [].
Proof. by constructor; try done; intros ?; intros; exfalso; eapply elem_of_nil. Qed.

Lemma findMaxGoodStage_run : ∃ found M N,
  findMaxGoodStage pred incompat all = Some (found, M, N) ∧ max_stage found M N.
Proof.
  unfold findMaxGoodStage. fold good bad. destruct (_ <? 1); [by exists false, [], []; auto using no_stage|].
  destruct stage_cut_run as [R HR]. rewrite (surjective_pairing (build_network incompat good bad)). fold net.
  lazy beta iota. rewrite (sc_run R HR). cbv zeta. fold (good_sccs R).
  destruct (good_sccs R) as [|x0 M0] eqn:EM; [by exists false, [], []; auto using no_stage|].
  exists true, (x0 :: M0), (filter (λ s, s ∉ x0 :: M0) all). split; [done|]. rewrite <-EM.
  assert (∀ x, x ∈ good_sccs R ↔ kept R x) as Hk by (intros x; by apply elem_of_good_sccs).
  constructor; [done|by rewrite EM| | |].
  - intros x [Hx _]%Hk. split; [by apply good_all|]. unfold good in Hx. by apply list_elem_of_filter in Hx as [? _].
  - intros x y Hx%Hk Hy%Hk. by apply (kept_no_conflict R HR).
  - intros p x q Hp%Hk Hq%Hk Hx Hpx Hxq. apply Hk. by apply (kept_convex R HR p x q).
Qed.

(** Without conflicts nothing is cut. *)
Lemma no_conflict_kept R x : (∀ y z, y ∈ good → z ∈ good → ¬ conflict y z) → stage_cut R → x ∈ good → kept R x.
Proof.
  intros Hn HR Hx. set (T v := bool_decide (v = Source ∨ v ∈ (λ s, left s) <$> good)).
  assert (Source = 0 ∧ Sink = 1) as [ES ET] by done.
  assert (T Sink = false) as HT.
  { apply bool_decide_eq_false_2. intros [|(y & E & Hy)%list_elem_of_fmap]; [lia|]. pose proof (Left_eq _ (good_all _ Hy)). lia. }
  assert (∀ y, y ∈ good → T (left y) = true) as HL.
  { intros y Hy. apply bool_decide_eq_true_2. right. apply list_elem_of_fmap. by exists y. }
  assert (∀ y, y ∈ good → T (right y) = false) as HRt.
  { intros y Hy. apply good_all in Hy as Ay. pose proof (Right_eq _ Ay). apply bool_decide_eq_false_2.
    intros [|(z & E & Hz)%list_elem_of_fmap]; [lia|]. by apply (left_right z y); [apply good_all|..]. }
  assert (∀ v w c, net_edge v w c → T v = true → T w = false → v ∈ R ∧ (w ∉ R)) as Hsub.
  { intros v w c [y Hy -> ->|y Hy -> ->|y z Hy Hz Hc -> ->]; [by rewrite HL|by rewrite HRt|by destruct (Hn y z)]. }
  pose proof (weight_bound _ (good_all _ Hx)). split; [done|]. split.
  - destruct (decide (left x ∈ R)) as [|Hl]; [done|]. exfalso.
    apply (no_better_cut R HR T Source (left x) (1 + 100 * estimate_weight x)); try done;
      [by apply edge_source|lia|apply (sc_source R HR)|by right; apply HL].
  - intros Hr. apply (no_better_cut R HR T (right x) Sink (1 + 100 * estimate_weight x)); try done;
      [by apply edge_sink|lia|apply (sc_sink R HR)|by left; apply HRt].
Qed.

Lemma findMaxGoodStage_all : all ≠ [] → (∀ x, x ∈ all → pred x = true) → (∀ y z, y ∈ all → z ∈ all → ¬ conflict y z) →
  findMaxGoodStage pred incompat all = Some (true, all, []).
Proof.
  intros Hne Hp Hn. assert (good = all) as Eg by by apply filter_all.
  unfold findMaxGoodStage. fold good bad. destruct (Z.ltb_spec (Z.of_nat (length good)) 1) as [Hl|_].
  { rewrite Eg in Hl. destruct Hne. apply nil_length_inv. lia. }
  destruct stage_cut_run as [R HR]. rewrite (surjective_pairing (build_network incompat good bad)). fold net.
  lazy beta iota. rewrite (sc_run R HR). cbv zeta. fold (good_sccs R).
  assert (good_sccs R = all) as E.
  { transitivity good; [|done]. apply filter_all. intros x Hx. apply (kept_iff R HR x Hx).
    apply no_conflict_kept; [|done|done]. intros y z Hy Hz. by apply Hn; apply good_all. }
  destruct (good_sccs R) as [|x l]; [by destruct Hne|]. rewrite E. do 2 f_equal. apply filter_none. tauto.
Qed.
End Laws.

(** ** The order of the stages *)

Section Around.
Context (all : list SCC) (deps : list (DGEdge Instruction)) (ordered : SCC → SCC → Prop).
Context `{!NoelleLaws all deps ordered}.
Context (M : list SCC) (HM : ∀ x, x ∈ M → x ∈ all).
Context (Hconv : ∀ p x q, p ∈ M → q ∈ M → x ∈ all → ordered p x → ordered x q → x ∈ M).
Let N : list SCC := filter (λ s, s ∉ M) all.

Lemma elem_of_rest x : x ∈ N ↔ x ∈ all ∧ (x ∉ M).
Proof. unfold N. rewrite list_elem_of_filter. tauto. Qed.

(** Without a component after the stage everything else goes before it, otherwise
    what need not be before it goes after it. *)
Lemma pivot2_cases : let '(B, A) := pivot2 N M in
  ((∀ x, x ∈ B ↔ x ∈ N) ∧ A = [] ∧ ∀ x, x ∈ N → orderedBefore_any x M = false → orderedBefore_from M x = false) ∨
  ((∀ x, x ∈ B ↔ x ∈ N ∧ orderedBefore_any x M = true) ∧ ∀ x, x ∈ A ↔ x ∈ N ∧ orderedBefore_any x M = false).
Proof.
  unfold pivot2. destruct (pivot_spec N M) as (-> & EA & ->). destruct (after (pivot N M)) as [|y l].
  - assert (∀ x, x ∈ N → orderedBefore_any x M = false → orderedBefore_from M x = false) as Hn.
    { intros x Hx Hb. destruct (orderedBefore_from M x) eqn:Ef; [|done]. exfalso. apply (not_elem_of_nil x).
      rewrite EA, list_elem_of_filter. done. }
    left. split; [|done]. intros x. rewrite elem_of_app, !list_elem_of_filter. specialize (Hn x).
    destruct (orderedBefore_any x M); [tauto|]. destruct (orderedBefore_from M x); intuition.
  - right. rewrite EA. split; intros x; [rewrite list_elem_of_filter; tauto|].
    rewrite elem_of_app, !list_elem_of_filter. destruct (orderedBefore_from M x); intuition congruence.
Qed.

Lemma before_stage a b : ordered a b → b ∈ M ∨ orderedBefore_any b M = true → orderedBefore_any a M = true.
Proof.
  intros Hab [Hb|(m & Hm & Hbm)%nl_before]; apply nl_before; [by exists b|]. exists m. split; [done|by eapply nl_trans].
Qed.
Lemma after_stage a b : ordered a b → a ∈ M → b ∈ N → orderedBefore_any b M = false ∧ orderedBefore_from M b = true.
Proof.
  intros Hab Ha [Hb Hn]%elem_of_rest. split; [|apply nl_from; by exists a].
  destruct (orderedBefore_any b M) eqn:E; [|done]. apply nl_before in E as (m & Hm & Hbm). destruct Hn. by apply (Hconv a b m).
Qed.

(** Every component is in one of the three groups, and none is ordered before one
    of an earlier group. *)
Lemma pivot2_spec : let '(B, A) := pivot2 N M in
  (∀ x, x ∈ all ↔ x ∈ B ∨ x ∈ M ∨ x ∈ A) ∧
  (∀ x, (x ∈ B → (x ∉ M) ∧ (x ∉ A)) ∧ (x ∈ A → x ∉ M)) ∧
  ∀ a b, ordered a b → (a ∈ M → b ∉ B) ∧ (a ∈ A → (b ∉ M) ∧ (b ∉ B)).
Proof.
  pose proof pivot2_cases as Hc. destruct (pivot2 N M) as [B A].
  assert (∀ x, x ∈ all ↔ x ∈ M ∨ x ∈ N) as Hall.
  { intros x. pose proof (HM x). rewrite elem_of_rest. destruct (decide (x ∈ M)); tauto. }
  destruct Hc as [(HB & -> & Hf)|(HB & HA)].
  - split; [|split]; intros x; try setoid_rewrite elem_of_nil; rewrite ?HB, ?Hall, ?elem_of_rest; try tauto.
    intros b Hxb. split; [|done]. rewrite HB. intros Hx Hb. destruct (after_stage x b Hxb Hx Hb) as [H1 H2]. by rewrite Hf in H2.
  - split; [|split].
    + intros x. rewrite HB, HA, Hall. destruct (orderedBefore_any x M); intuition congruence.
    + intros x. rewrite HB, HA, elem_of_rest. intuition congruence.
    + intros a b Hab. rewrite HA, !HB. split.
      * intros Ha [Hb Hbm]. destruct (after_stage a b Hab Ha Hb). congruence.
      * intros [_ Ha]. split; [intros Hb|intros [_ Hb]]; rewrite (before_stage a b Hab) in Ha by tauto; done.
Qed.
End Around.

(** ** Pipelines *)

(** The stages that [doallAndPipeline] builds from three groups of components. *)
Definition sequential_stage (l : list SCC) : list PipelineStage :=
  match l with [] => [] | _ => [stage_of_sccs Sequential l] end.
Definition groups_pipeline (B M A : list SCC) (factor : Z) : list PipelineStage :=
  sequential_stage B ++ [set_parallel_factor factor (stage_of_sccs Parallel M)] ++ sequential_stage A.

(** The group of the [i]-th stage: 0 before, 1 in and 2 after the parallel stage. *)
Definition group_of (B : list SCC) (i : nat) : nat := match B with [] => S i | _ => i end.
Definition group_sccs (B M A : list SCC) (g : nat) : list SCC :=
  match g with 0%nat => B | 1%nat => M | 2%nat => A | _ => [] end.

Lemma groups_lookup B M A factor i s : groups_pipeline B M A factor !! i = Some s →
  replicated s = ∅ ∧ (∀ x, x ∈ instructions s ↔ ∃ a, a ∈ group_sccs B M A (group_of B i) ∧ x ∈ internalNodePairs a) ∧
  (type s = Parallel → group_of B i = 1%nat).
Proof.
  assert (∀ t l f x, x ∈ instructions (set_parallel_factor f (stage_of_sccs t l)) ↔ ∃ a, a ∈ l ∧ x ∈ internalNodePairs a) as Hi.
  { intros t l f x. cbn. rewrite elem_of_list_to_set, list_elem_of_bind. split; intros (a & ? & ?); by exists a. }
  unfold groups_pipeline. destruct B as [|b B], A as [|a A], i as [|[|[|i]]]; cbn [sequential_stage app lookup list_lookup group_of group_sccs];
    intros [= <-]; (split; [done|]); (split; [first [apply (Hi Parallel)|apply (Hi Sequential _ 1)]|done]).
Qed.

Lemma group_of_mono B i j : (group_of B i ≤ group_of B j)%nat ↔ (i ≤ j)%nat.
Proof. destruct B; simpl; lia. Qed.

Lemma groups_elem B M A factor x : in_pipeline x (groups_pipeline B M A factor) ↔
  ∃ a, (a ∈ B ∨ a ∈ M ∨ a ∈ A) ∧ x ∈ internalNodePairs a.
Proof.
  unfold groups_pipeline, in_pipeline. split.
  - intros (s & [i Hs]%list_elem_of_lookup & Hx). destruct (groups_lookup _ _ _ _ _ _ Hs) as (Hr & Hi & _).
    rewrite Hr in Hx. destruct Hx as [Hx|Hx%not_elem_of_empty]; [|done]. apply Hi in Hx as (a & Ha & Hx). exists a. split; [|done].
    revert Ha. destruct (group_of B i) as [|[|[|]]]; simpl; [tauto|tauto|tauto|by intros ?%elem_of_nil].
  - assert (∀ l a, a ∈ l → x ∈ internalNodePairs a → ∃ s, s ∈ sequential_stage l ∧ (x ∈ instructions s ∨ x ∈ replicated s)) as Hseq.
    { intros [|b l] a Ha Hx; [by apply elem_of_nil in Ha|]. exists (stage_of_sccs Sequential (b :: l)). split; [by left|]. left.
      unfold stage_of_sccs, stage_of. cbn [instructions]. apply elem_of_list_to_set, list_elem_of_bind. by exists a. }
    setoid_rewrite elem_of_app. setoid_rewrite elem_of_app. intros (a & [Ha|[Ha|Ha]] & Hx).
    + destruct (Hseq B a Ha Hx) as (s & Hs & Hx'). exists s. tauto.
    + exists (set_parallel_factor factor (stage_of_sccs Parallel M)). split; [right; left; by left|]. left.
      unfold stage_of_sccs, stage_of. cbn [instructions set_parallel_factor]. apply elem_of_list_to_set, list_elem_of_bind. by exists a.
    + destruct (Hseq A a Ha Hx) as (s & Hs & Hx'). exists s. tauto.
Qed.

Section Pipeline.
Context (all : list SCC) (deps : list (DGEdge Instruction)) (ordered : SCC → SCC → Prop).
Context `{!NoelleLaws all deps ordered}.

(** Dependences run forward through the stages, and none that is loop-carried
    stays within a parallel stage. *)
Definition pipelined (l : list PipelineStage) : Prop :=
  ∀ e i j s t, e ∈ deps → l !! i = Some s → l !! j = Some t → outgoingT e ∈ instructions s → incomingT e ∈ instructions t →
    (i ≤ j)%nat ∧ (isLoopCarriedDependence e = true → i = j → type s ≠ Parallel).

(** Three groups with the properties of [pivot2_spec]. *)
Section Groups.
Context (B M A : list SCC) (factor : Z).
Context (Hcover : ∀ x, x ∈ all ↔ x ∈ B ∨ x ∈ M ∨ x ∈ A).
Context (Hdisj : ∀ x, (x ∈ B → (x ∉ M) ∧ (x ∉ A)) ∧ (x ∈ A → x ∉ M)).
Context (Horder : ∀ a b, ordered a b → (a ∈ M → b ∉ B) ∧ (a ∈ A → (b ∉ M) ∧ (b ∉ B))).

Lemma group_all g a : a ∈ group_sccs B M A g → a ∈ all ∧ (g ≤ 2)%nat.
Proof. rewrite Hcover. destruct g as [|[|[|g]]]; simpl; [auto with lia..|by intros ?%elem_of_nil]. Qed.

Lemma group_unique g h a : a ∈ group_sccs B M A g → a ∈ group_sccs B M A h → g = h.
Proof.
  destruct (Hdisj a) as [H1 H2]. destruct g as [|[|[|g]]], h as [|[|[|h]]]; simpl; try (by intros ?%elem_of_nil);
    try (by intros _ ?%elem_of_nil); try done; tauto.
Qed.

Lemma group_forward g h a b : ordered a b → a ∈ group_sccs B M A g → b ∈ group_sccs B M A h → (g ≤ h)%nat.
Proof.
  intros Hab. destruct (Horder a b Hab) as [H1 H2]. destruct g as [|[|[|g]]], h as [|[|[|h]]]; simpl; try lia;
    try (by intros ?%elem_of_nil); try (by intros _ ?%elem_of_nil); tauto.
Qed.

Lemma groups_partition : partition (groups_pipeline B M A factor).
Proof.
  intros i j s t x Hs Ht Hx. destruct (groups_lookup _ _ _ _ _ _ Hs) as (_ & Hsi & _), (groups_lookup _ _ _ _ _ _ Ht) as (Htr & Hti & _).
  split; [|rewrite Htr; apply not_elem_of_empty]. apply Hsi in Hx as (a & Ha & Hxa). intros (b & Hb & Hxb)%Hti.
  destruct (group_all _ _ Ha), (group_all _ _ Hb). assert (a = b) as <- by by eapply (nl_disjoint (all := all)).
  pose proof (group_unique _ _ _ Ha Hb) as E. destruct (group_of_mono B i j), (group_of_mono B j i). lia.
Qed.

Context (Hpar : ∀ x, x ∈ M → IsParallel x = true).
Context (Hfree : ∀ x y, x ∈ M → y ∈ M → LoopCarriedBetweenSCCs x y = false).

(** Loop-carried dependences do not connect components of the stage. *)
Lemma stage_not_carried e a b : e ∈ deps → a ∈ M → b ∈ M →
  outgoingT e ∈ internalNodePairs a → incomingT e ∈ internalNodePairs b → isLoopCarriedDependence e = false.
Proof.
  intros He Ha Hb Ho Hi. assert (a ∈ all) as Aa by (apply Hcover; tauto). assert (b ∈ all) as Ab by (apply Hcover; tauto).
  destruct (isLoopCarriedDependence e) eqn:El; [exfalso|done]. destruct (decide (a = b)) as [->|Hne].
  - pose proof (Hpar b Hb) as Hp. unfold IsParallel in Hp. rewrite forallb_forall in Hp.
    specialize (Hp e (proj1 (list_elem_of_In _ _) (nl_inside e b He Ab Ho Hi))).
    by rewrite El, (proj2 (nl_internal b _) Ho), (proj2 (nl_internal b _) Hi) in Hp.
  - destruct (nl_across e a b He Aa Ab Hne Ho Hi) as [_ Hg]. destruct (Hg El) as (g & Hg1 & Hg2 & Hg3).
    pose proof (Hfree a b Ha Hb) as Hf. unfold LoopCarriedBetweenSCCs in Hf. apply orb_false_iff in Hf as [_ Hf].
    apply not_true_iff_false in Hf. apply Hf, existsb_exists. exists g. split; [by apply list_elem_of_In|].
    rewrite bool_decide_eq_true_2 by done. done.
Qed.

Lemma groups_pipelined : pipelined (groups_pipeline B M A factor).
Proof.
  intros e i j s t He Hs Ht Ho Hi. destruct (groups_lookup _ _ _ _ _ _ Hs) as (_ & Hsi & Hsp), (groups_lookup _ _ _ _ _ _ Ht) as (_ & Hti & _).
  apply Hsi in Ho as (a & Ha & Ho). apply Hti in Hi as (b & Hb & Hi). destruct (group_all _ _ Ha) as [Aa _], (group_all _ _ Hb) as [Ab _]. split.
  - rewrite <-(group_of_mono B). destruct (decide (a = b)) as [->|Hne]; [by rewrite (group_unique _ _ _ Ha Hb)|].
    destruct (nl_across e a b He Aa Ab Hne Ho Hi) as [Hab _]. by apply (group_forward _ _ a b).
  - intros El <- Hp. specialize (Hsp Hp). rewrite Hsp in Ha, Hb. rewrite (stage_not_carried e a b) in El; done.
Qed.
End Groups.
End Pipeline.

(** What [doallAndPipeline] returns, from what the search for a stage finds. *)
Definition avail (B A : list SCC) (threadBudget : Z) : Z :=
  let n := match B with [] => threadBudget | _ => u32 (threadBudget - 1) end in
  match A with [] => n | _ => u32 (n - 1) end.

Lemma doall_found all threadBudget M N : 0 < threadBudget → all ≠ [] → findMaxParallelStage all = Some (true, M, N) →
  doallAndPipeline all threadBudget true =
    Done (true, groups_pipeline (pivot2 N M).1 M (pivot2 N M).2 (avail (pivot2 N M).1 (pivot2 N M).2 threadBudget)).
Proof.
  intros Hb Hne E. unfold doallAndPipeline. rewrite E. destruct all as [|x all]; [done|].
  destruct (Z.leb_spec threadBudget 0); [lia|]. cbn [negb]. by destruct (pivot2 N M).
Qed.

Lemma pipeline_factors B M A threadBudget : 0 < threadBudget < 2 ^ 32 →
  Z.of_nat (length (groups_pipeline B M A (avail B A threadBudget))) ≤ threadBudget →
  sumZ parallel_factor (groups_pipeline B M A (avail B A threadBudget)) = threadBudget.
Proof.
  intros Hb. unfold groups_pipeline, avail. rewrite !sumZ_app, !length_app.
  destruct B as [|b B], A as [|a A]; simpl; intros Hl; rewrite ?(wrap_small 32 (threadBudget - 1)) by lia;
    rewrite ?(wrap_small 32 (threadBudget - 1 - 1)) by lia; lia.
Qed.

(** Estimated times that the weights of the network can hold. *)
Definition estimates_fit (all : list SCC) : Prop :=
  (∀ x, x ∈ all → 0 ≤ estimate_weight x) ∧ sumZ (λ x, 1 + 100 * estimate_weight x) all < Infinity.

(** The pipeline that is found, with its groups of components. *)
Record found_pipeline (all : list SCC) (deps : list (DGEdge Instruction)) (l : list PipelineStage) : Prop := {
  fp_groups : ∃ B M A factor, l = groups_pipeline B M A factor;
  fp_partition : partition l;
  fp_cover : ∀ x, in_pipeline x l ↔ ∃ a, a ∈ all ∧ x ∈ internalNodePairs a;
  fp_pipelined : pipelined deps l }.

Lemma doallAndPipeline_run all deps ordered threadBudget (HL : NoelleLaws all deps ordered) :
  estimates_fit all → 0 < threadBudget < 2 ^ 32 →
  ∃ found l, doallAndPipeline all threadBudget true = Done (found, l) ∧
    (found = true → found_pipeline all deps l ∧ (Z.of_nat (length l) ≤ threadBudget → sumZ parallel_factor l = threadBudget)).
Proof.
  intros [He Hs] Hb. destruct (decide (all = [])) as [->|Hne]; [by exists false, []|].
  destruct (findMaxGoodStage_run all deps ordered IsParallel LoopCarriedBetweenSCCs He Hs) as ([|] & M & N & E & [Hf Ht Hg Hc Hv]).
  2:{ destruct (Hf eq_refl) as [-> ->]. exists false, []. split; [|done]. unfold doallAndPipeline, findMaxParallelStage. rewrite E.
      destruct all; [done|]. destruct (Z.leb_spec threadBudget 0); [lia|done]. }
  eexists true, _. split; [apply doall_found; [lia|done|exact E]|]. intros _. destruct (Ht eq_refl) as [_ ->].
  pose proof (pivot2_spec all deps ordered M (λ x Hx, proj1 (Hg x Hx)) Hv) as Hp.
  destruct (pivot2 _ M) as [B A]. cbn [fst snd]. destruct Hp as (H1 & H2 & H3).
  split; [|by apply pipeline_factors]. constructor; [by eauto|by eapply groups_partition|intros x; rewrite groups_elem; by setoid_rewrite <-H1|].
  eapply groups_pipelined; try done; [intros x Hx; by apply Hg|].
  intros x y Hx Hy. destruct (LoopCarriedBetweenSCCs x y) eqn:El; [|done]. destruct (Hc x y Hx Hy). right. exists x, y.
  split; [apply list_elem_of_filter; by destruct (Hg x Hx)|]. split; [apply list_elem_of_filter; by destruct (Hg y Hy)|auto].
Qed.

(** [C10] The partitioner returns, and a pipeline that it finds has the instructions
    of all components, each in one stage; every dependence runs forward through the
    stages and no loop-carried dependence stays within the parallel stage.  When there
    are at least as many threads as stages, the stages use the whole budget of
    threads. *)
Theorem psdswp_pipeline all deps ordered threadBudget (HL : NoelleLaws all deps ordered) :
  estimates_fit all → 0 < threadBudget < 2 ^ 32 →
  ∃ found l, doallAndPipeline all threadBudget true = Done (found, l) ∧
    (found = true → partition l ∧ (∀ x, in_pipeline x l ↔ ∃ a, a ∈ all ∧ x ∈ internalNodePairs a) ∧ pipelined deps l ∧
      (Z.of_nat (length l) ≤ threadBudget → sumZ parallel_factor l = threadBudget)).
Proof.
  intros He Hb. destruct (doallAndPipeline_run all deps ordered threadBudget HL He Hb) as (found & l & E & Hl).
  exists found, l. split; [done|]. intros Ef. by destruct (Hl Ef) as [[] ?].
Qed.

(** A loop whose components are all parallel and not connected by loop-carried
    dependences becomes a single parallel stage with every instruction and thread. *)
Theorem doall_single_stage all deps ordered threadBudget (HL : NoelleLaws all deps ordered) :
  estimates_fit all → 0 < threadBudget → all ≠ [] → (∀ x, x ∈ all → IsParallel x = true) →
  (∀ x y, x ∈ all → y ∈ all → LoopCarriedBetweenSCCs x y = false) →
  doallAndPipeline all threadBudget true = Done (true, [set_parallel_factor threadBudget (stage_of_sccs Parallel all)]).
Proof.
  intros [He Hs] Hb Hne Hp Hn.
  rewrite (doall_found all threadBudget all []); [done|done|done|].
  apply (findMaxGoodStage_all all deps ordered); [done..|]. intros y z Hy Hz [(b & Hbad & _)|(s & t & Hs1 & Ht1 & Hi & _)].
  - apply list_elem_of_filter in Hbad as [Hbad Hb1]. rewrite Hp in Hbad; done.
  - rewrite Hn in Hi; [done|by apply list_elem_of_filter in Hs1 as [_ ?]|by apply list_elem_of_filter in Ht1 as [_ ?]].
Qed.

(** A loop-carried dependence between two parallel components keeps both of
    them out of the parallel stage, whatever they weigh: the relation holds in both
    directions, and the pair of the later and the earlier component makes each of
    the two conflict with itself. *)
Theorem carried_pair_excluded all deps ordered x y M N (HL : NoelleLaws all deps ordered) :
  estimates_fit all → findMaxParallelStage all = Some (true, M, N) → x ∈ all → y ∈ all →
  IsParallel x = true → IsParallel y = true → ordered x y → LoopCarriedBetweenSCCs y x = true → (x ∉ M) ∧ (y ∉ M).
Proof.
  intros [He Hs] E Ax Ay Px Py Hxy Hc.
  destruct (findMaxGoodStage_run all deps ordered IsParallel LoopCarriedBetweenSCCs He Hs) as (f & M' & N' & E' & [_ _ _ Hfree _]).
  unfold findMaxParallelStage in E. rewrite E in E'. injection E' as <- <- <-.
  assert (∀ z, z ∈ all → IsParallel z = true → z ∈ filter (λ s, IsParallel s = true) all) as Hg by (intros; by apply list_elem_of_filter).
  split; intros Hin; apply (Hfree _ _ Hin Hin); right; exists y, x; auto 10.
Qed.
End Critic.

(** ** A small graph

    Component [k] has the instructions [10k] to [10k+9], and components are ordered
    by their numbers. *)

Definition demo_lift (e : DGEdge Instruction) : DGEdge Z :=
  MkEdge (outgoingT e / 10) (incomingT e / 10) (isLoopCarriedDependence e) false true true false [].
Definition demo_noelle (deps : list (DGEdge Instruction)) : Noelle := {|
  mayWriteToMemory _ := true;
  is_control _ := false;
  SCC := Z;
  SCC_eq_dec := _;
  internalNodePairs k := (λ n, 10 * k + n) <$> seqZ 0 10;
  scc_edges k := filter (λ e, outgoingT e / 10 = k ∧ incomingT e / 10 = k) deps;
  isInternal k i := i / 10 =? k;
  getSCCIndex k := k;
  getIncomingEdges k := demo_lift <$> filter (λ e, outgoingT e / 10 ≠ k ∧ incomingT e / 10 = k) deps;
  getOutgoingEdges k := demo_lift <$> filter (λ e, outgoingT e / 10 = k ∧ incomingT e / 10 ≠ k) deps;
  orderedBefore_any a l := existsb (λ b, a <? b) l;
  orderedBefore_from l a := existsb (λ b, b <? a) l |}.

Lemma demo_internal deps (k i : Z) : i ∈ internalNodePairs (Noelle := demo_noelle deps) k ↔ i / 10 = k.
Proof.
  cbn. rewrite list_elem_of_fmap. setoid_rewrite elem_of_seqZ. split.
  - intros (n & -> & Hn). symmetry. apply (Z.div_unique _ _ _ n); lia.
  - intros <-. exists (i mod 10). pose proof (Z.div_mod i 10). pose proof (Z.mod_pos_bound i 10). lia.
Qed.

Lemma demo_laws deps n : 0 ≤ n < 2 ^ 31 → Forall (λ e, outgoingT e / 10 ≤ incomingT e / 10) deps →
  NoelleLaws (H := demo_noelle deps) (seqZ 0 n) deps Z.lt.
Proof.
  intros Hn Hd. rewrite Forall_forall in Hd.
  constructor; try setoid_rewrite demo_internal; cbn.
  - apply NoDup_seqZ.
  - intros a b i _ _ <- <-. done.
  - done.
  - intros a Ha%elem_of_seqZ. lia.
  - lia.
  - lia.
  - intros a l. rewrite existsb_exists. setoid_rewrite list_elem_of_In. split; intros (b & Hb & Hab); exists b; (split; [done|]); lia.
  - intros l a. rewrite existsb_exists. setoid_rewrite list_elem_of_In. split; intros (b & Hb & Hab); exists b; (split; [done|]); lia.
  - intros a i. lia.
  - intros e a He _ Ho Hi. by apply list_elem_of_filter.
  - intros e a b He _ _ Hne Ho Hi. pose proof (Hd e He). split; [lia|]. intros Hc. exists (demo_lift e). split; [|done].
    apply list_elem_of_fmap. exists e. split; [done|]. apply list_elem_of_filter. split; [split; [done|congruence]|done].
Qed.

Definition dep (a b : Instruction) (carried : bool) : DGEdge Instruction := MkEdge a b carried false true true false [].

(** A sequential component, two parallel ones and another sequential one. *)
Definition demo_deps : list (DGEdge Instruction) :=
  [dep 0 1 false; dep 1 0 true; dep 1 10 false; dep 10 11 false; dep 11 20 false; dep 20 30 true; dep 30 31 false; dep 31 30 true].
Definition demo_weight (k : Z) : Z := 1000 * (k + 1).

Lemma psdswp_pipeline_witness : ∃ found l,
  doallAndPipeline (H := demo_noelle demo_deps) demo_weight (seqZ 0 4) 8 true = Done (found, l) ∧
    (found = true → partition l ∧ (∀ x, in_pipeline x l ↔ ∃ a, a ∈ seqZ 0 4 ∧ x ∈ internalNodePairs (Noelle := demo_noelle demo_deps) a) ∧
      pipelined demo_deps l ∧ (Z.of_nat (length l) ≤ 8 → sumZ parallel_factor l = 8)).
Proof.
  apply (psdswp_pipeline (H := demo_noelle demo_deps) demo_weight (seqZ 0 4) demo_deps Z.lt 8
    (demo_laws demo_deps 4 ltac:(lia) ltac:(by repeat constructor))).
  - split; [intros x Hx%elem_of_seqZ; unfold demo_weight; lia|]. by vm_compute.
  - lia.
Defined.

(** The three stages of the example. *)
Example demo_pipeline :
  match doallAndPipeline (H := demo_noelle demo_deps) demo_weight (seqZ 0 4) 8 true with
  | Done (found, l) => (found, (λ s, (type s, parallel_factor s, size (instructions s))) <$> l)
  | Failed _ => (false, [])
  end = (true, [(Sequential, 1, 10%nat); (Parallel, 6, 20%nat); (Sequential, 1, 10%nat)]).
Proof. by vm_compute. Qed.

Definition doall_deps : list (DGEdge Instruction) := [dep 0 1 false; dep 1 10 false; dep 10 20 false].

Lemma doall_single_stage_witness :
  doallAndPipeline (H := demo_noelle doall_deps) demo_weight (seqZ 0 3) 8 true =
    Done (true, [set_parallel_factor 8 (stage_of_sccs (H := demo_noelle doall_deps) Parallel (seqZ 0 3))]).
Proof.
  apply (doall_single_stage (H := demo_noelle doall_deps) demo_weight (seqZ 0 3) doall_deps Z.lt 8
    (demo_laws doall_deps 3 ltac:(lia) ltac:(by repeat constructor))).
  - split; [intros x Hx%elem_of_seqZ; unfold demo_weight; lia|]. by vm_compute.
  - lia.
  - done.
  - change (∀ x, x ∈ seqZ 0 3 → IsParallel (H := demo_noelle doall_deps) x = true). rewrite <-Forall_forall. by repeat constructor.
  - change (∀ x y, x ∈ seqZ 0 3 → y ∈ seqZ 0 3 → LoopCarriedBetweenSCCs (H := demo_noelle doall_deps) x y = false).
    intros x y Hx%elem_of_seqZ Hy%elem_of_seqZ.
    assert (Forall (λ x, Forall (λ y, LoopCarriedBetweenSCCs (H := demo_noelle doall_deps) x y = false) (seqZ 0 3)) (seqZ 0 3)) as Hall
      by (by repeat constructor).
    rewrite Forall_forall in Hall. specialize (Hall x ltac:(by apply elem_of_seqZ)). rewrite Forall_forall in Hall.
    by apply Hall, elem_of_seqZ.
Defined.

(** A heavy parallel component that sends a value to the next iteration of a
    light one: neither is in the stage, which only has the third component. *)
Definition carried_deps : list (DGEdge Instruction) := [dep 0 10 true; dep 10 20 false].

Lemma carried_pair_excluded_witness : (0 ∉ [2]) ∧ (1 ∉ [2]).
Proof.
  apply (carried_pair_excluded (H := demo_noelle carried_deps) demo_weight (seqZ 0 3) carried_deps Z.lt 0 1 [2] [0; 1]
    (demo_laws carried_deps 3 ltac:(lia) ltac:(by repeat constructor))); try done; try by vm_compute.
  - split; [intros x Hx%elem_of_seqZ; unfold demo_weight; lia|]. by vm_compute.
  - by apply elem_of_seqZ.
  - by apply elem_of_seqZ.
Defined.

(** Without the third component there is no parallel stage at all, although either
    of the two alone would be one. *)
Theorem carried_pair_no_stage :
  doallAndPipeline (H := demo_noelle [dep 0 10 true]) demo_weight [0; 1] 8 true = Done (false, []) ∧
  ∃ l, doallAndPipeline (H := demo_noelle [dep 0 10 true]) demo_weight [1] 8 true = Done (true, l).
Proof. split; [by vm_compute|]. eexists. vm_compute. reflexivity. Qed.

(** With fewer threads than stages the number of workers of the parallel stage is
    zero, or wraps around. *)
Theorem thread_budget_underflow :
  (λ b, match doallAndPipeline (H := demo_noelle demo_deps) demo_weight (seqZ 0 4) b true with
        | Done (_, l) => parallel_factor <$> l | Failed _ => [] end) <$> [1; 2] = [[1; 2 ^ 32 - 1; 1]; [1; 0; 1]].
Proof. by vm_compute. Qed.
