(* ===== verification/Estimate.v ===== *)
(** Estimated run times: [include/liberty/Strategy/PerformanceEstimator.h],
    [lib/Strategy/PerformanceEstimator.cpp] and the sums over components in the
    critics.

    Times are doubles, with the arithmetic of IEEE 754 from the Standard Library.
    The profile that gives the time of an instruction is a class; the flat
    estimator of the header is an instance of it. *)
From S2P Require Import Prelude Machine Pipeline.
From stdpp Require Import sorting.
From Stdlib Require Import SpecFloat.
#[local] Open Scope Z_scope.

(** ** Doubles *)

Abbreviation double := spec_float (only parsing).
Definition dadd : double → double → double := SFadd 53 1024.
Definition dsub : double → double → double := SFsub 53 1024.
Definition dmul : double → double → double := SFmul 53 1024.
Definition ddiv : double → double → double := SFdiv 53 1024.
(** [x > y] *)
Definition dgt (x y : double) : bool := SFltb y x.

(** The conversions from and to integers; the second one truncates, and has no
    defined result for values out of range. *)
Definition of_int (z : Z) : double := binary_normalize 53 1024 z 0 false.
Definition truncate (x : double) : Z :=
  match x with
  | S754_finite s m e => let v := Z.shiftl (Zpos m) e in if s then - v else v
  | _ => 0
  end.
Definition to_unsigned (x : double) : Z := u32 (truncate x).
Definition to_ulong (x : double) : Z := u64 (truncate x).
Definition to_int (x : double) : Z := truncate x.

(** ** Sets of instructions

    A set of pointers is traversed in the order of the addresses. *)
Definition in_order (s : gset Instruction) : list Instruction := merge_sort Z.le (elements s).

Lemma elem_of_in_order x s : x ∈ in_order s ↔ x ∈ s.
Proof. unfold in_order. by rewrite merge_sort_Permutation, elem_of_elements. Qed.

(** ** The estimator *)

Class PerformanceEstimator := {
  estimate_weight : Instruction → double;
  estimate_parallelization_weight : Instruction → list (list Instruction) → double }.

(** Each instruction is worth 1. *)
Definition FlatPerformanceEstimator : PerformanceEstimator := {|
  estimate_weight _ := of_int 1;
  estimate_parallelization_weight _ _ := of_int 1 |}.

Section Estimates.
Context `{PerformanceEstimator}.

Definition estimate_weight_of (insts : list Instruction) : double :=
  foldl (λ sum i, dadd sum (estimate_weight i)) (of_int 0) insts.
Definition estimate_parallelization_weight_of (insts : list Instruction) (loop : list (list Instruction)) : double :=
  ddiv (foldl (λ sum i, dadd sum (estimate_parallelization_weight i loop)) (of_int 0) insts)
       (of_int (Z.of_nat (length insts))).
Definition estimate_loop_weight (loop : list (list Instruction)) : double :=
  foldl (λ sum bb, dadd sum (estimate_weight_of bb)) (of_int 0) loop.

(** The time of a stage: the time of its instructions, shared by the workers, and
    the time of the prefix, which every worker runs. *)
Definition stage_weight (stage : PipelineStage) : double :=
  let wt := estimate_weight_of (in_order (instructions stage)) in
  let rep := parallel_factor stage in
  let wt := if 1 <? rep then ddiv (dsub (dadd wt (of_int rep)) (of_int 1)) (of_int rep) else wt in
  dadd wt (estimate_weight_of (in_order (replicated stage))).
Definition stage_weight_loop (loop : list (list Instruction)) (stage : PipelineStage) : double :=
  let wt := estimate_weight_of (in_order (instructions stage)) in
  let rep := parallel_factor stage in
  let wt :=
    if 1 <? rep then
      let par_wt := estimate_parallelization_weight_of (in_order (instructions stage)) loop in
      let rep := to_unsigned (dmul (of_int rep) par_wt) in
      let rep := if rep =? 0 then 1 else rep in
      ddiv (dsub (dadd wt (of_int rep)) (of_int 1)) (of_int rep)
    else wt in
  dadd wt (estimate_weight_of (in_order (replicated stage))).

(** The slowest stage; [None] when a replicable stage is left. *)
Definition max_stage_weight (weight : PipelineStage → double) (stages : list PipelineStage) : option double :=
  foldl (λ max stage,
    max ← max;
    if is_replicable stage then None
    else let wt := weight stage in Some (if dgt wt max then wt else max)) (Some (of_int 0)) stages.
Definition estimate_pipeline_weight (stages : list PipelineStage) : option double :=
  max_stage_weight stage_weight stages.
Definition estimate_pipeline_weight_loop (stages : list PipelineStage) (loop : list (list Instruction)) : option double :=
  max_stage_weight (stage_weight_loop loop) stages.
End Estimates.

(** ** The slowest stage *)

(** Doubles that are not NaN are ordered like triples. *)
Definition rank (x : double) : Z * Z * Z :=
  match x with
  | S754_nan => (0, 0, 0)
  | S754_infinity s => (if s then -2 else 2, 0, 0)
  | S754_zero _ => (0, 0, 0)
  | S754_finite s m e => if s then (-1, - e, Zneg m) else (1, e, Zpos m)
  end.
Definition rank_lt (a b : Z * Z * Z) : Prop :=
  a.1.1 < b.1.1 ∨ a.1.1 = b.1.1 ∧ (a.1.2 < b.1.2 ∨ a.1.2 = b.1.2 ∧ a.2 < b.2).

Lemma dgt_rank x y : x ≠ S754_nan → y ≠ S754_nan → dgt x y = true ↔ rank_lt (rank y) (rank x).
Proof.
  intros Hx Hy. unfold dgt, SFltb, SFcompare, rank_lt.
  destruct x as [sx|sx| |sx mx ex], y as [sy|sy| |sy my ey]; try done; try destruct sx; try destruct sy; simpl;
    try (split; intros; try done; lia); destruct (Z.compare_spec ey ex) as [E|E|E]; try (split; intros; try done; lia);
    try change (Pos.compare_cont Eq my mx) with (my ?= mx)%positive;
    destruct (Pos.compare_spec my mx); simpl; (split; intros; try done; lia).
Qed.

Lemma dgt_trans x y z : x ≠ S754_nan → y ≠ S754_nan → z ≠ S754_nan →
  dgt x y = false → dgt y z = false → dgt x z = false.
Proof.
  intros Hx Hy Hz. rewrite <-!not_true_iff_false, !dgt_rank by done. unfold rank_lt. lia.
Qed.
Lemma dgt_asym x y : x ≠ S754_nan → y ≠ S754_nan → dgt x y = true → dgt y x = false.
Proof. intros Hx Hy. rewrite <-not_true_iff_false, !dgt_rank by done. unfold rank_lt. lia. Qed.
Lemma dgt_irrefl x : x ≠ S754_nan → dgt x x = false.
Proof. intros Hx. rewrite <-not_true_iff_false, dgt_rank by done. unfold rank_lt. lia. Qed.

Definition slowest (weight : PipelineStage → double) (l : list PipelineStage) (m : double) : Prop :=
  m ≠ S754_nan ∧ (∀ s, s ∈ l → dgt (weight s) m = false) ∧ (m = of_int 0 ∨ ∃ s, s ∈ l ∧ m = weight s).

Lemma slowest_snoc weight l s m : slowest weight l m → weight s ≠ S754_nan → (∀ t, t ∈ l → weight t ≠ S754_nan) →
  slowest weight (l ++ [s]) (if dgt (weight s) m then weight s else m).
Proof.
  intros (Hm & Hle & Hin) Hs Hl. destruct (dgt (weight s) m) eqn:E.
  - split; [done|]. split; [|right; exists s; split; [apply elem_of_app; right; by left|done]].
    intros t [Ht| ->%list_elem_of_singleton]%elem_of_app; [|by apply dgt_irrefl].
    apply (dgt_trans _ m); [by apply Hl|done|done|by apply Hle|by apply dgt_asym].
  - split; [done|]. split.
    + intros t [Ht| ->%list_elem_of_singleton]%elem_of_app; [by apply Hle|done].
    + destruct Hin as [|(t & Ht & ->)]; [by left|right]. exists t. split; [apply elem_of_app; by left|done].
Qed.

Lemma max_stage_weight_slowest weight l : (∀ s, s ∈ l → weight s ≠ S754_nan ∧ is_replicable s = false) →
  ∃ m, max_stage_weight weight l = Some m ∧ slowest weight l m.
Proof.
  induction l as [|s l IH] using rev_ind; intros Hl.
  - exists (of_int 0). split; [done|]. split; [done|]. split; [by intros s ?%elem_of_nil|by left].
  - destruct IH as (m & Em & Hm). { intros t Ht. apply Hl, elem_of_app. by left. }
    destruct (Hl s) as [Hs Hr]; [apply elem_of_app; right; by left|].
    eexists. unfold max_stage_weight in *. rewrite foldl_app, Em. cbn [foldl mbind option_bind]. rewrite Hr. split; [done|].
    apply slowest_snoc; [done|done|]. intros t Ht. apply Hl, elem_of_app. by left.
Qed.

Lemma max_stage_weight_replicable weight l s : s ∈ l → is_replicable s = true → max_stage_weight weight l = None.
Proof.
  unfold max_stage_weight. intros (l1 & l2 & ->)%list_elem_of_split Hs. rewrite foldl_app. cbn [foldl].
  match goal with |- foldl ?f (_ ← ?m; _) _ = _ => assert (∀ k, foldl f None k = None) as Hn by (by induction k); destruct m end;
    cbn [mbind option_bind]; rewrite ?Hs; apply Hn.
Qed.

(** The estimate of a pipeline is the time of its slowest stage, or zero, and
    it is refused exactly when a replicable stage has not been expanded. *)
Theorem pipeline_weight_slowest `{PerformanceEstimator} stages loop :
  (∀ s, s ∈ stages → stage_weight_loop loop s ≠ S754_nan) →
  match estimate_pipeline_weight_loop stages loop with
  | Some m => (∀ s, s ∈ stages → is_replicable s = false ∧ dgt (stage_weight_loop loop s) m = false) ∧
              (m = of_int 0 ∨ ∃ s, s ∈ stages ∧ m = stage_weight_loop loop s)
  | None => ∃ s, s ∈ stages ∧ is_replicable s = true
  end.
Proof.
  intros Hn. unfold estimate_pipeline_weight_loop. destruct (existsb is_replicable stages) eqn:Ex.
  - apply existsb_exists in Ex as (s & Hs%list_elem_of_In & Hr). rewrite (max_stage_weight_replicable _ _ s) by done. by exists s.
  - assert (∀ s, s ∈ stages → is_replicable s = false) as Hr.
    { intros s Hs. destruct (is_replicable s) eqn:E; [|done]. apply not_true_iff_false in Ex. destruct Ex.
      apply existsb_exists. exists s. split; [by apply list_elem_of_In|done]. }
    destruct (max_stage_weight_slowest (stage_weight_loop loop) stages) as (m & -> & _ & Hle & Hin); [auto|]. split; [auto|done].
Qed.

Definition weigh_stages : list PipelineStage :=
  [stage_of Sequential [1]; set_parallel_factor 4 (stage_of Parallel [2; 3; 4; 5; 6; 7; 8; 9]); stage_of Sequential [10; 11]].

Lemma pipeline_weight_slowest_witness :
  match estimate_pipeline_weight_loop (H := FlatPerformanceEstimator) weigh_stages [] with
  | Some m => (∀ s, s ∈ weigh_stages → is_replicable s = false ∧ dgt (stage_weight_loop (H := FlatPerformanceEstimator) [] s) m = false) ∧
              (m = of_int 0 ∨ ∃ s, s ∈ weigh_stages ∧ m = stage_weight_loop (H := FlatPerformanceEstimator) [] s)
  | None => ∃ s, s ∈ weigh_stages ∧ is_replicable s = true
  end.
Proof.
  apply (pipeline_weight_slowest (H := FlatPerformanceEstimator)). apply Forall_forall. unfold weigh_stages.
  repeat constructor; by vm_compute.
Defined.

(** Eight instructions on four workers take (8 + 4 - 1) / 4. *)
Example weigh_stages_example :
  estimate_pipeline_weight_loop (H := FlatPerformanceEstimator) weigh_stages [] = Some (ddiv (of_int 11) (of_int 4)).
Proof. by vm_compute. Qed.
