(* ===== verification/Critic.v ===== *)
(** Critics: [lib/Orchestration/Critic.cpp].

    A critic proposes a way to run a loop in parallel.  It returns a plan, the
    dependences that the plan does not respect, its criticisms, which all have to be
    removable, and what the plan is expected to save. *)
From S2P Require Import Prelude Machine Pipeline Estimate.
From Stdlib Require Import SpecFloat.
#[local] Open Scope Z_scope.

(** ** Dependence graphs

    The nodes are values, given by their addresses.  Edges are told apart by their
    contents. *)
Record PDG := MkPDG { pdg_edges : list (DGEdge Instruction); internalNodes : list Instruction }.
Definition pdg_isInternal (pdg : PDG) (v : Instruction) : bool := bool_decide (v ∈ internalNodes pdg).

(** NOELLE copies a part of a graph: the nodes of a list and the edges between
    them, except for those to ignore. *)
Class Subgraphs := { createSubgraphFromValues : PDG → list Instruction → list (DGEdge Instruction) → PDG }.
Class SubgraphLaws `{Subgraphs} : Prop := {
  sl_edges : ∀ pdg vs ig e, e ∈ pdg_edges (createSubgraphFromValues pdg vs ig) ↔
    e ∈ pdg_edges pdg ∧ outgoingT e ∈ vs ∧ incomingT e ∈ vs ∧ (e ∉ ig);
  sl_nodes : ∀ pdg vs ig, internalNodes (createSubgraphFromValues pdg vs ig) ≡ₚ vs }.

(** ** Plans *)

(** The loop: its blocks, its header and how deep it is nested. *)
Record Loop := MkLoopInfo { loop_ir : LoopIR; blocks : list (list Instruction); getLoopDepth : Z }.

(** A set of dependences. *)
Abbreviation Criticisms := (list (DGEdge Instruction)) (only parsing).
Definition insert_crit (cs : Criticisms) (e : DGEdge Instruction) : Criticisms :=
  if decide (e ∈ cs) then cs else cs ++ [e].

Record CriticRes := MkRes { criticisms : Criticisms; expSpeedup : Z; res_ps : option PipelineStrategy }.

(** A new [PipelineStrategy]. *)
Definition new_plan : PipelineStrategy := MkStrategy 0 [] [] [].

Definition both_internal (pdg : PDG) (e : DGEdge Instruction) : bool :=
  pdg_isInternal pdg (incomingT e) && pdg_isInternal pdg (outgoingT e).

(** ** The critics *)

Section Critics.
Context `{PerformanceEstimator}.

Definition getAllCriticisms (pdg : PDG) : Criticisms :=
  foldl (λ cs e, if negb (both_internal pdg e) then cs else insert_crit cs e) [] (pdg_edges pdg).

Definition FixedPoint : Z := 1000.
Definition PenalizeLoopNest : Z := u32 (FixedPoint * 10).

(** [None] when the estimate of the pipeline fails. *)
Definition getExpPipelineSpeedup (ps : PipelineStrategy) (loop : Loop) : option Z :=
  let loopTime := to_ulong (estimate_loop_weight (blocks loop)) in
  let scaledLoopTime := u64 (FixedPoint * loopTime) in
  let depthPenalty := u32 (PenalizeLoopNest * u32 (getLoopDepth loop - 1)) in
  let adjLoopTime := if depthPenalty <? scaledLoopTime then u64 (scaledLoopTime - depthPenalty) else scaledLoopTime in
  w ← estimate_pipeline_weight_loop (stages ps) (blocks loop);
  let estimatePipelineWeight := to_ulong (dmul (of_int FixedPoint) w) in
  let wt := u64 (adjLoopTime - estimatePipelineWeight) in
  Some (if estimatePipelineWeight <? adjLoopTime then wt else 0).

Context `{Subgraphs}.

(** A copy of the graph without the loop-carried dependences that can be removed;
    [remove_edge] is [removeEdge] on the copy. *)
Definition remove_edge (pdg : PDG) (e : DGEdge Instruction) : PDG :=
  MkPDG (filter (λ f, f ≠ e) (pdg_edges pdg)) (internalNodes pdg).
Definition getExpectedPdg (pdg : PDG) : PDG :=
  let expectedPDG := createSubgraphFromValues pdg (internalNodes pdg) [] in
  let removableLCEdges :=
    filter (λ e, isLoopCarriedDependence e = true ∧ isRemovableDependence e = true) (pdg_edges expectedPDG) in
  foldl remove_edge expectedPDG removableLCEdges.

(** [DOALLCritic::getDOALLStrategy] *)
Definition getDOALLStrategy (pdg : PDG) (threadBudget : Z) : option PipelineStrategy :=
  if existsb (λ e, both_internal pdg e && isLoopCarriedDependence e) (pdg_edges pdg) then None
  else
    let parallel_stage := set_parallel_factor threadBudget (stage_of Parallel (internalNodes pdg)) in
    Some (set_stages (stages new_plan ++ [parallel_stage]) new_plan).

(** [DOALLCritic::getCriticisms] *)
Definition doall_criticisms (pdg : PDG) : Criticisms :=
  foldl (λ cs e,
    if negb (both_internal pdg e) then cs
    else if isLoopCarriedDependence e then
      if negb (isRemovableDependence e) then cs else insert_crit cs e
    else cs) [] (pdg_edges pdg).
Definition doall_getCriticisms (pdg : PDG) (loop : Loop) (threadBudget : Z) : option CriticRes :=
  let cs := doall_criticisms pdg in
  let expectedPDG := getExpectedPdg pdg in
  match getDOALLStrategy expectedPDG threadBudget with
  | None => Some (MkRes cs 0 None)
  | Some ps => speedup ← getExpPipelineSpeedup ps loop; Some (MkRes cs speedup (Some ps))
  end.

(** ** Criticisms as sets *)

Lemma elem_of_insert_crit cs e f : f ∈ insert_crit cs e ↔ f ∈ cs ∨ f = e.
Proof.
  unfold insert_crit. case_decide as Hd; [split; [by left|intros [| ->]; done]|]. rewrite elem_of_app, list_elem_of_singleton. done.
Qed.

Lemma elem_of_collect (keep : DGEdge Instruction → bool) l cs f :
  f ∈ foldl (λ cs e, if keep e then insert_crit cs e else cs) cs l ↔ f ∈ cs ∨ f ∈ l ∧ keep f = true.
Proof.
  revert cs. induction l as [|e l IH]; intros cs; cbn [foldl]; [split; [by left|intros [|[?%elem_of_nil _]]; done]|].
  rewrite IH, elem_of_cons. destruct (keep e) eqn:E; [rewrite elem_of_insert_crit|]; split; intros Hf.
  - destruct Hf as [[|<-]|[? ?]]; [tauto..|tauto].
  - destruct Hf as [|[[->|] ?]]; tauto.
  - tauto.
  - destruct Hf as [|[[->|] ?]]; [tauto|congruence|tauto].
Qed.

Lemma elem_of_doall_criticisms pdg e : e ∈ doall_criticisms pdg ↔
  e ∈ pdg_edges pdg ∧ both_internal pdg e = true ∧ isLoopCarriedDependence e = true ∧ isRemovableDependence e = true.
Proof.
  unfold doall_criticisms.
  set (keep e := both_internal pdg e && isLoopCarriedDependence e && isRemovableDependence e).
  rewrite (foldl_same _ (λ cs e, if keep e then insert_crit cs e else cs)) by
    (intros cs f; unfold keep; by destruct (both_internal pdg f), (isLoopCarriedDependence f), (isRemovableDependence f)).
  rewrite elem_of_collect, elem_of_nil. unfold keep. rewrite !andb_true_iff. tauto.
Qed.

Lemma elem_of_remove_edges es pdg f : f ∈ pdg_edges (foldl remove_edge pdg es) ↔ f ∈ pdg_edges pdg ∧ (f ∉ es).
Proof.
  revert pdg. induction es as [|e es IH]; intros pdg; cbn [foldl]; [rewrite elem_of_nil; tauto|].
  rewrite IH. cbn [remove_edge pdg_edges]. rewrite list_elem_of_filter, elem_of_cons. tauto.
Qed.
Lemma remove_edges_nodes es pdg : internalNodes (foldl remove_edge pdg es) = internalNodes pdg.
Proof. revert pdg. induction es as [|e es IH]; intros pdg; [done|]. cbn [foldl]. by rewrite IH. Qed.

Context (HL : SubgraphLaws).

Lemma both_internal_iff pdg e : both_internal pdg e = true ↔ outgoingT e ∈ internalNodes pdg ∧ incomingT e ∈ internalNodes pdg.
Proof. unfold both_internal, pdg_isInternal. rewrite andb_true_iff, !bool_decide_eq_true. tauto. Qed.

Lemma elem_of_expected pdg e : e ∈ pdg_edges (getExpectedPdg pdg) ↔
  e ∈ pdg_edges pdg ∧ both_internal pdg e = true ∧ ¬ (isLoopCarriedDependence e = true ∧ isRemovableDependence e = true).
Proof.
  unfold getExpectedPdg. rewrite elem_of_remove_edges, list_elem_of_filter, sl_edges, both_internal_iff, elem_of_nil. tauto.
Qed.
Lemma expected_nodes pdg : internalNodes (getExpectedPdg pdg) ≡ₚ internalNodes pdg.
Proof. unfold getExpectedPdg. by rewrite remove_edges_nodes, sl_nodes. Qed.

Lemma doall_critic_run pdg threadBudget :
  (is_Some (getDOALLStrategy (getExpectedPdg pdg) threadBudget) ↔
    ∀ e, e ∈ pdg_edges pdg → both_internal pdg e = true → isLoopCarriedDependence e = true → isRemovableDependence e = true) ∧
  ∀ ps, getDOALLStrategy (getExpectedPdg pdg) threadBudget = Some ps →
    (∀ e, e ∈ doall_criticisms pdg ↔ e ∈ pdg_edges pdg ∧ both_internal pdg e = true ∧ isLoopCarriedDependence e = true) ∧
    ∃ s, stages ps = [s] ∧ type s = Parallel ∧ parallel_factor s = threadBudget ∧
      ∀ x, x ∈ instructions s ↔ x ∈ internalNodes pdg.
Proof.
  assert (∀ e, both_internal (getExpectedPdg pdg) e = both_internal pdg e) as Hb.
  { intros e. apply eq_true_iff_eq. rewrite !both_internal_iff, expected_nodes. done. }
  unfold getDOALLStrategy. destruct (existsb _ _) eqn:Ex.
  - split; [|done]. split; [by intros [? ?]|]. intros Hall. apply existsb_exists in Ex as (e & He%list_elem_of_In & [Hi Hc]%andb_true_iff).
    apply elem_of_expected in He as (He & Hi' & Hn). destruct Hn. auto.
  - assert (∀ e, e ∈ pdg_edges pdg → both_internal pdg e = true → isLoopCarriedDependence e = true → isRemovableDependence e = true) as Hall.
    { intros e He Hi Hc. destruct (isRemovableDependence e) eqn:Er; [done|]. apply not_true_iff_false in Ex. destruct Ex.
      apply existsb_exists. exists e. rewrite Hb, Hi, Hc. split; [|done]. apply list_elem_of_In, elem_of_expected. rewrite Er. intuition done. }
    split; [split; [done|by eexists]|]. intros ps [= <-]. split.
    + intros e. rewrite elem_of_doall_criticisms. split; [tauto|]. intros (He & Hi & Hc). auto.
    + eexists. split; [done|]. do 2 (split; [done|]). intros x. cbn. by rewrite elem_of_list_to_set, expected_nodes.
Qed.

(** The DOALL critic proposes a plan exactly when every loop-carried dependence
    inside the loop can be removed; then its criticisms are exactly these
    dependences, and the plan is one parallel stage with every instruction. *)
Theorem doall_critic_exact pdg threadBudget :
  (is_Some (getDOALLStrategy (getExpectedPdg pdg) threadBudget) ↔
    ∀ e, e ∈ pdg_edges pdg → both_internal pdg e = true → isLoopCarriedDependence e = true → isRemovableDependence e = true) ∧
  ∀ ps, getDOALLStrategy (getExpectedPdg pdg) threadBudget = Some ps →
    (∀ e, e ∈ doall_criticisms pdg ↔ e ∈ pdg_edges pdg ∧ both_internal pdg e = true ∧ isLoopCarriedDependence e = true) ∧
    ∃ s, stages ps = [s] ∧ type s = Parallel ∧ parallel_factor s = threadBudget ∧
      ∀ x, x ∈ instructions s ↔ x ∈ internalNodes pdg.
Proof. apply doall_critic_run. Qed.
End Critics.

(** ** A copy by filters *)

Definition filter_subgraphs : Subgraphs := {|
  createSubgraphFromValues pdg vs ig :=
    MkPDG (filter (λ e, outgoingT e ∈ vs ∧ incomingT e ∈ vs ∧ (e ∉ ig)) (pdg_edges pdg)) vs |}.
Lemma filter_subgraphs_laws : SubgraphLaws (H := filter_subgraphs).
Proof.
  constructor; [|done]. intros pdg vs ig e. cbn. rewrite list_elem_of_filter. tauto.
Qed.

(** Two loop-carried dependences, one that cannot be removed and one from outside. *)
Definition crit_edge (a b : Instruction) (carried removable : bool) : DGEdge Instruction :=
  MkEdge a b carried false true true removable [].
Definition doall_pdg : PDG := MkPDG [crit_edge 1 2 false false; crit_edge 2 1 true true; crit_edge 9 1 true false] [1; 2; 3].

Lemma doall_critic_exact_witness :
  (is_Some (getDOALLStrategy (getExpectedPdg (H0 := filter_subgraphs) doall_pdg) 8) ↔
    ∀ e, e ∈ pdg_edges doall_pdg → both_internal doall_pdg e = true → isLoopCarriedDependence e = true → isRemovableDependence e = true) ∧
  ∀ ps, getDOALLStrategy (getExpectedPdg (H0 := filter_subgraphs) doall_pdg) 8 = Some ps →
    (∀ e, e ∈ doall_criticisms doall_pdg ↔ e ∈ pdg_edges doall_pdg ∧ both_internal doall_pdg e = true ∧ isLoopCarriedDependence e = true) ∧
    ∃ s, stages ps = [s] ∧ type s = Parallel ∧ parallel_factor s = 8 ∧ ∀ x, x ∈ instructions s ↔ x ∈ internalNodes doall_pdg.
Proof. apply (doall_critic_exact (H0 := filter_subgraphs) filter_subgraphs_laws). Defined.

Example doall_critic_example :
  doall_criticisms doall_pdg = [crit_edge 2 1 true true] ∧
  is_Some (getDOALLStrategy (getExpectedPdg (H0 := filter_subgraphs) doall_pdg) 8) ∧
  getDOALLStrategy (getExpectedPdg (H0 := filter_subgraphs) (MkPDG [crit_edge 2 1 true false] [1; 2])) 8 = None.
Proof. split; [by vm_compute|]. split; [by eexists; vm_compute|by vm_compute]. Qed.
