(* ===== verification/Dswp.v ===== *)
(** Balanced pipelines: [lib/Orchestration/DSWPCritic.cpp].

    The critic takes the components of the dependence graph in a topological order,
    the heaviest first, and fills one sequential stage after the other until each
    has its share of the work.  A map counts for every component the dependences
    from components that have not been taken. *)
From S2P Require Import Prelude Machine MinCut Pipeline Partition Estimate Critic.
From Stdlib Require Import SpecFloat.
#[local] Open Scope Z_scope.

(** ** Operations *)

Section Dswp.
Context `{PerformanceEstimator, Noelle}.

(** The result does not depend on the cache, which is cleared for every loop. *)
Definition getWeight (scc : SCC) : double :=
  dmul (estimate_weight_of (internalNodePairs scc)) (of_int 1000).

(** [incomingCountMap[idx]] *)
Definition count_at (m : gmap Z Z) (idx : Z) : Z := default 0 (m !! idx).

Definition getIncomingCountMap (sccs : list SCC) : gmap Z Z :=
  foldl (λ m scc, <[getSCCIndex scc := u32 (Z.of_nat (length (getIncomingEdges scc)))]> m) ∅ sccs.

(** The heaviest component without dependences from components that are left. *)
Definition next_step (m : gmap Z Z) (best : double * option SCC) (scc : SCC) : double * option SCC :=
  if negb (count_at m (getSCCIndex scc) =? 0) then best
  else let weight := getWeight scc in if dgt weight best.1 then (weight, Some scc) else best.
Definition getNextLargestFreeStandingSCC (sccs : list SCC) (m : gmap Z Z) : option SCC :=
  (foldl (next_step m) (of_int (-1), None) sccs).2.

Definition decrement (m : gmap Z Z) (e : DGEdge SCC) : gmap Z Z :=
  let idx := getSCCIndex (incomingT e) in <[idx := u32 (count_at m idx - 1)]> m.
Definition updateIncomingCountMap (m : gmap Z Z) (removedScc : SCC) : gmap Z Z :=
  foldl decrement (<[getSCCIndex removedScc := u32 (-1)]> m) (getOutgoingEdges removedScc).

(** The inner loop.  Every round takes a component, so one round more than there
    are components is enough. *)
Fixpoint fill_stage (fuel : nat) (sccs : list SCC) (target : double) (currWeight : Z) (currSccSet : list SCC) (m : gmap Z Z) :
    option (list SCC * gmap Z Z) :=
  match fuel with
  | O => None
  | S fuel' =>
      if SFltb (of_int currWeight) target then
        match getNextLargestFreeStandingSCC sccs m with
        | None => Some (currSccSet, m)
        | Some largestScc =>
            fill_stage fuel' sccs target (to_int (dadd (of_int currWeight) (getWeight largestScc)))
              (currSccSet ++ [largestScc]) (updateIncomingCountMap m largestScc)
        end
      else Some (currSccSet, m)
  end.

(** One round of the outer loop: the last stage also takes what is left. *)
Definition stage_round (sccs : list SCC) (target : double) (numThread : Z)
    (st : option (list (list SCC) * gmap Z Z)) (i : Z) : option (list (list SCC) * gmap Z Z) :=
  match st with
  | None => None
  | Some (partitionStages, m) =>
      match fill_stage (S (length sccs)) sccs target 0 [] m with
      | None => None
      | Some (currSccSet, m) =>
          let currSccSet :=
            if i =? numThread - 1
            then currSccSet ++ filter (λ scc, count_at m (getSCCIndex scc) ≠ u32 (-1)) sccs
            else currSccSet in
          Some (match currSccSet with [] => partitionStages | _ => partitionStages ++ [currSccSet] end, m)
      end
  end.

Definition partition_sccs (sccs : list SCC) (threadBudget : Z) : option (list (list SCC)) :=
  let numThread := Z.min threadBudget (Z.of_nat (length sccs)) in
  let totalWeight := foldl (λ t scc, dadd t (getWeight scc)) (of_int 0) sccs in
  let targetWeightPerThread := ddiv totalWeight (of_int numThread) in
  fst <$> foldl (stage_round sccs targetWeightPerThread numThread) (Some ([], getIncomingCountMap sccs)) (seqZ 0 numThread).
End Dswp.

(** [DSWPCritic::populateCrossStageDependences]; [isTerminator] tells branches. *)
Definition dswp_dep (isTerminator : Instruction → bool) (all : gset Instruction) (deps : list CrossStageDependence)
    (edge : DGEdge Instruction) : list CrossStageDependence :=
  let src := outgoingT edge in
  let dst := incomingT edge in
  if decide (dst ∈ all) then deps
  else if isControlDependence edge && isTerminator src then deps ++ [MkCross src dst edge]
  else if isMemoryDependence edge && isRAWDependence edge then deps ++ [MkCross src dst edge]
  else deps.
Definition outgoing_edges (pdg : PDG) (src : Instruction) : list (DGEdge Instruction) :=
  filter (λ e, outgoingT e = src) (pdg_edges pdg).
Definition dswp_populate (isTerminator : Instruction → bool) (pdg : PDG) (ps : PipelineStrategy) : PipelineStrategy :=
  set_crossStageDeps
    (foldl (λ deps s,
       foldl (λ deps src, foldl (dswp_dep isTerminator (instructions s)) deps (outgoing_edges pdg src)) deps
         (in_order (instructions s))) (crossStageDeps ps) (stages ps)) ps.

Definition getOptimisticPdg `{Subgraphs} (pdg : PDG) : PDG :=
  createSubgraphFromValues pdg (internalNodes pdg) (filter (λ e, isRemovableDependence e = true) (pdg_edges pdg)).

(** The graph of components of a dependence graph, which NOELLE computes. *)
Record SCCDAG := MkDag { dag_noelle : Noelle; dag_sccs : list (@SCC dag_noelle) }.

(** [DSWPCritic::getCriticisms] *)
Definition dswp_getCriticisms `{PerformanceEstimator, Subgraphs} (new_SCCDAG : PDG → SCCDAG) (isTerminator : Instruction → bool)
    (pdg : PDG) (loop : Loop) (threadBudget : Z) : outcome CriticRes :=
  let optimisticPDG := getOptimisticPdg pdg in
  let dag := new_SCCDAG optimisticPDG in
  let _ := dag_noelle dag in
  match partition_sccs (dag_sccs dag) threadBudget with
  | None => Failed Spinning
  | Some partitionStages =>
      let ps := set_stages (stage_of_sccs Sequential <$> partitionStages) new_plan in
      let ps := setValidFor (loop_header (loop_ir loop)) ps in
      match assertConsistentWithIR (loop_ir loop) ps with
      | None => Failed AssertFail
      | Some ps =>
          let ps := dswp_populate isTerminator optimisticPDG ps in
          match getExpPipelineSpeedup ps loop with
          | None => Failed AssertFail
          | Some speedup => Done (MkRes [] speedup (Some ps))
          end
      end
  end.

(** ** The counts *)

(** What the critic relies on: [sccs] are the components of the graph with the
    instruction-level dependences [deps]. *)
Class DagLaws `{Noelle} (sccs : list SCC) (deps : list (DGEdge Instruction)) : Prop := {
  dl_nodup : NoDup sccs;
  dl_index : ∀ a b, a ∈ sccs → b ∈ sccs → getSCCIndex a = getSCCIndex b → a = b;
  dl_in : ∀ b g, b ∈ sccs → g ∈ getIncomingEdges b → outgoingT g ∈ sccs;
  dl_out : ∀ a g, a ∈ sccs → g ∈ getOutgoingEdges a → incomingT g ∈ sccs;
  dl_edges : ∀ a b, a ∈ sccs → b ∈ sccs →
    length (filter (λ g, incomingT g = b) (getOutgoingEdges a)) = length (filter (λ g, outgoingT g = a) (getIncomingEdges b));
  dl_unsigned : ∀ b, b ∈ sccs → Z.of_nat (length (getIncomingEdges b)) < 2 ^ 32 - 1;
  dl_disjoint : ∀ a b i, a ∈ sccs → b ∈ sccs → i ∈ internalNodePairs a → i ∈ internalNodePairs b → a = b;
  dl_across : ∀ e a b, e ∈ deps → a ∈ sccs → b ∈ sccs → a ≠ b → outgoingT e ∈ internalNodePairs a →
    incomingT e ∈ internalNodePairs b → ∃ g, g ∈ getIncomingEdges b ∧ outgoingT g = a }.

Section Order.
Context `{PerformanceEstimator, Noelle} (sccs : list SCC) (deps : list (DGEdge Instruction)) `{!DagLaws sccs deps}.

(** The dependences of [b] from components that are not in [removed]. *)
Definition open_edges (removed : list SCC) (b : SCC) : list (DGEdge SCC) :=
  filter (λ g, outgoingT g ∉ removed) (getIncomingEdges b).

Record counts (removed : list SCC) (m : gmap Z Z) : Prop := {
  ct_nodup : NoDup removed;
  ct_sub : removed ⊆ sccs;
  ct_removed : ∀ b, b ∈ removed → count_at m (getSCCIndex b) = 2 ^ 32 - 1;
  ct_left : ∀ b, b ∈ sccs → (b ∉ removed) → count_at m (getSCCIndex b) = Z.of_nat (length (open_edges removed b));
  ct_order : ∀ l1 b l2 g, removed = l1 ++ b :: l2 → g ∈ getIncomingEdges b → outgoingT g ∈ l1 }.

Lemma count_insert m i j c : count_at (<[i := c]> m) j = if decide (i = j) then c else count_at m j.
Proof. unfold count_at. case_decide as E; [subst; by rewrite lookup_insert_eq|by rewrite lookup_insert_ne]. Qed.

Lemma initial_counts l m b : l ⊆ sccs → b ∈ sccs →
  count_at (foldl (λ m scc, <[getSCCIndex scc := u32 (Z.of_nat (length (getIncomingEdges scc)))]> m) m l) (getSCCIndex b) =
    if decide (b ∈ l) then Z.of_nat (length (getIncomingEdges b)) else count_at m (getSCCIndex b).
Proof.
  revert m. induction l as [|a l IH]; intros m Hl Hb; cbn [foldl]; [by rewrite decide_False by apply not_elem_of_nil|].
  rewrite IH by (done || (intros x Hx; apply Hl; by right)). destruct (decide (b ∈ l)) as [Hin|Hin].
  - rewrite decide_True by by right. done.
  - rewrite count_insert. destruct (decide (getSCCIndex a = getSCCIndex b)) as [E|E].
    + apply (dl_index (deps := deps)) in E; [|apply Hl; by left|done]. subst a. rewrite decide_True by by left.
      apply wrap_small. pose proof (dl_unsigned (deps := deps) b Hb). lia.
    + rewrite decide_False; [done|]. intros [->|?]%elem_of_cons; done.
Qed.

Lemma counts_initial : counts [] (getIncomingCountMap sccs).
Proof.
  constructor.
  - constructor.
  - intros x ?%elem_of_nil. done.
  - by intros b ?%elem_of_nil.
  - intros b Hb _. unfold getIncomingCountMap. rewrite initial_counts, decide_True by done. do 2 f_equal. symmetry.
    apply filter_all. intros g _. apply not_elem_of_nil.
  - intros [|? ?] b l2 g [=].
Qed.

(** The component that is taken is free. *)
Lemma next_free m s : getNextLargestFreeStandingSCC sccs m = Some s → s ∈ sccs ∧ count_at m (getSCCIndex s) = 0.
Proof.
  unfold getNextLargestFreeStandingSCC.
  assert (∀ l best, (foldl (next_step m) best l).2 = Some s → best.2 = Some s ∨ s ∈ l ∧ count_at m (getSCCIndex s) = 0) as Hl.
  { induction l as [|a l IH]; intros best Hf; cbn [foldl] in Hf; [by left|]. apply IH in Hf as [Hf|[Hs Hc]]; [|right; split; [by right|done]].
    unfold next_step in Hf. destruct (Z.eqb_spec (count_at m (getSCCIndex a)) 0) as [E|E]; [|by left]. cbn [negb] in Hf.
    destruct (dgt _ _); [|by left]. injection Hf as ->. right. split; [by left|done]. }
  intros [Hf|Hf]%Hl; done.
Qed.

Lemma count_decrement m g i :
  count_at (decrement m g) i = if decide (getSCCIndex (incomingT g) = i) then u32 (count_at m i - 1) else count_at m i.
Proof. unfold decrement. rewrite count_insert. case_decide as E; [by rewrite E|done]. Qed.

Lemma decrement_all es m i : 0 ≤ count_at m i < 2 ^ 32 →
  count_at (foldl decrement m es) i =
    u32 (count_at m i - Z.of_nat (length (filter (λ g, getSCCIndex (incomingT g) = i) es))).
Proof.
  revert m. induction es as [|g es IH]; intros m Hm; cbn [foldl].
  - rewrite filter_nil. cbn [length]. rewrite wrap_small; lia.
  - rewrite filter_cons, IH; rewrite count_decrement; case_decide as E; [|done| |done].
    + cbn [length]. rewrite Nat2Z.inj_succ. unfold Z.sub. rewrite wrap_add_l by lia. f_equal. lia.
    + apply wrap_range. lia.
Qed.

Lemma open_edges_split removed s b : (s ∉ removed) →
  length (open_edges removed b) = (length (open_edges (removed ++ [s]) b) + length (filter (λ g, outgoingT g = s) (getIncomingEdges b)))%nat.
Proof.
  intros Hs. unfold open_edges. induction (getIncomingEdges b) as [|g l IH]; [done|]. rewrite !filter_cons.
  destruct (decide (outgoingT g = s)) as [->|Hne].
  - rewrite decide_True by done. rewrite decide_False by (intros Hn; apply Hn, elem_of_app; right; by left). cbn [length]. lia.
  - destruct (decide (outgoingT g ∉ removed)) as [Hn|Hn].
    + rewrite decide_True by (intros [|?%list_elem_of_singleton]%elem_of_app; done). cbn [length]. lia.
    + rewrite decide_False; [done|]. intros Hn'. apply Hn. intros Hin. apply Hn', elem_of_app. by left.
Qed.

Section Taken.
Context (removed : list SCC) (m : gmap Z Z) (s : SCC).
Context (Hc : counts removed m) (Hs : s ∈ sccs) (Hz : count_at m (getSCCIndex s) = 0).

Lemma taken_new : s ∉ removed.
Proof. intros Hin. pose proof (ct_removed _ _ Hc s Hin). lia. Qed.

Lemma taken_closed g : g ∈ getIncomingEdges s → outgoingT g ∈ removed.
Proof.
  intros Hg. pose proof (ct_left _ _ Hc s Hs taken_new) as Hl. rewrite Hz in Hl.
  destruct (decide (outgoingT g ∈ removed)) as [|Hn]; [done|]. assert (g ∈ open_edges removed s) as Hin by by apply list_elem_of_filter.
  destruct (open_edges removed s); [by apply elem_of_nil in Hin|]. simpl in Hl. lia.
Qed.

Lemma removed_closed b g : b ∈ removed → g ∈ getIncomingEdges b → outgoingT g ∈ removed.
Proof.
  intros (l1 & l2 & E)%list_elem_of_split Hg. rewrite E. apply elem_of_app. left. by eapply (ct_order _ _ Hc).
Qed.

(** The number of edges to a component. *)
Lemma edges_to b : b ∈ sccs →
  length (filter (λ g, getSCCIndex (incomingT g) = getSCCIndex b) (getOutgoingEdges s)) =
  length (filter (λ g, outgoingT g = s) (getIncomingEdges b)).
Proof.
  intros Hb. rewrite <-(dl_edges (deps := deps)) by done. f_equal. apply filter_same. intros g Hg. split; [|by intros ->].
  apply (dl_index (deps := deps)); [by apply (dl_out (deps := deps) s)|done].
Qed.
Lemma no_edges_to b : b ∈ sccs → (b ∈ removed ∨ b = s) → length (filter (λ g, outgoingT g = s) (getIncomingEdges b)) = 0%nat.
Proof.
  intros Hb Hbs. rewrite filter_none; [done|]. intros g Hg E. apply taken_new. rewrite <-E.
  destruct Hbs as [Hbs| ->]; [by apply (removed_closed b)|by apply taken_closed].
Qed.

Lemma count_after b : b ∈ sccs → count_at (updateIncomingCountMap m s) (getSCCIndex b) =
  u32 ((if decide (b = s) then 2 ^ 32 - 1 else count_at m (getSCCIndex b)) -
       Z.of_nat (length (filter (λ g, outgoingT g = s) (getIncomingEdges b)))).
Proof.
  intros Hb. unfold updateIncomingCountMap.
  assert (count_at (<[getSCCIndex s:=u32 (-1)]> m) (getSCCIndex b) = if decide (b = s) then 2 ^ 32 - 1 else count_at m (getSCCIndex b)) as E.
  { rewrite count_insert. destruct (decide (b = s)) as [->|Hne]; [by rewrite decide_True|]. rewrite decide_False; [done|].
    intros E. apply Hne. symmetry. by apply (dl_index (deps := deps)). }
  assert (0 ≤ count_at m (getSCCIndex b) < 2 ^ 32) as Hr.
  { destruct (decide (b ∈ removed)); [rewrite (ct_removed _ _ Hc) by done; lia|]. rewrite (ct_left _ _ Hc) by done.
    pose proof (dl_unsigned (deps := deps) b Hb). unfold open_edges. pose proof (length_filter (λ g, outgoingT g ∉ removed) (getIncomingEdges b)). lia. }
  rewrite decrement_all, E, edges_to by (done || (rewrite E; case_decide; lia)). done.
Qed.

Lemma counts_taken : counts (removed ++ [s]) (updateIncomingCountMap m s).
Proof.
  pose proof taken_new as Hn. constructor.
  - apply NoDup_app. split; [apply (ct_nodup _ _ Hc)|]. split; [by intros x Hx ->%list_elem_of_singleton|apply NoDup_singleton].
  - intros x [Hx| ->%list_elem_of_singleton]%elem_of_app; [by apply (ct_sub _ _ Hc)|done].
  - intros b Hb%elem_of_app. rewrite list_elem_of_singleton in Hb.
    assert (b ∈ sccs) as Hbs by (destruct Hb as [?| ->]; [by apply (ct_sub _ _ Hc)|done]).
    rewrite count_after, no_edges_to by done. case_decide as E; [done|]. destruct Hb as [Hb| ->]; [|done].
    by rewrite (ct_removed _ _ Hc).
  - intros b Hb Hnb. rewrite elem_of_app, list_elem_of_singleton in Hnb.
    rewrite count_after, decide_False by (done || tauto). rewrite (ct_left _ _ Hc), (open_edges_split removed s b) by (done || tauto).
    rewrite wrap_small; [lia|]. pose proof (dl_unsigned (deps := deps) b Hb). unfold open_edges.
    pose proof (length_filter (λ g, outgoingT g ∉ removed ++ [s]) (getIncomingEdges b)). lia.
  - intros l1 b l2 g E Hg. destruct l2 as [|x l2 _] using rev_ind.
    + apply app_inj_tail in E as [<- <-]. by apply taken_closed.
    + rewrite app_comm_cons, app_assoc in E. apply app_inj_tail in E as [E _]. by apply (ct_order _ _ Hc l1 b l2).
Qed.
End Taken.

(** ** Filling the stages *)

Lemma counts_length removed m : counts removed m → (length removed ≤ length sccs)%nat.
Proof. intros Hc. apply submseteq_length, NoDup_submseteq; [apply (ct_nodup _ _ Hc)|apply (ct_sub _ _ Hc)]. Qed.

Lemma fill_stage_run fuel target : ∀ removed cur set m, counts removed m → (length sccs < fuel + length removed)%nat →
  ∃ new m', fill_stage fuel sccs target cur set m = Some (set ++ new, m') ∧ counts (removed ++ new) m'.
Proof.
  induction fuel as [|fuel IH]; intros removed cur set m Hc Hf; [pose proof (counts_length _ _ Hc); simpl in Hf; lia|].
  cbn [fill_stage]. destruct (SFltb (of_int cur) target).
  2:{ exists [], m. rewrite !app_nil_r. done. }
  destruct (getNextLargestFreeStandingSCC sccs m) as [s|] eqn:En; [|exists [], m; rewrite !app_nil_r; done].
  apply next_free in En as [Hs Hz].
  destruct (IH (removed ++ [s]) (to_int (dadd (of_int cur) (getWeight s))) (set ++ [s]) (updateIncomingCountMap m s)) as (new & m' & E & Hc').
  - by apply counts_taken.
  - rewrite length_app. simpl. lia.
  - exists (s :: new), m'. rewrite E. split; [by rewrite <-app_assoc|]. by rewrite <-app_assoc in Hc'.
Qed.

Lemma add_stage ss (cur : list SCC) : mjoin (match cur with [] => ss | _ => ss ++ [cur] end) = mjoin ss ++ cur.
Proof. destruct cur; [by rewrite app_nil_r|]. rewrite join_app. simpl. by rewrite app_nil_r. Qed.

(** All rounds but the last take components in order. *)
Lemma first_rounds target n (k : nat) : Z.of_nat k < n → ∃ ss m,
  foldl (stage_round sccs target n) (Some ([], getIncomingCountMap sccs)) (seqZ 0 (Z.of_nat k)) = Some (ss, m) ∧
    counts (mjoin ss) m.
Proof.
  induction k as [|k IH]; intros Hk.
  - exists [], (getIncomingCountMap sccs). split; [done|apply counts_initial].
  - destruct IH as (ss & m & E & Hc); [lia|]. rewrite seqZ_S, foldl_app, E. cbn [foldl stage_round].
    destruct (fill_stage_run (S (length sccs)) target (mjoin ss) 0 [] m Hc) as (new & m' & -> & Hc'); [lia|]. cbn [app].
    destruct (Z.eqb_spec (0 + Z.of_nat k) (n - 1)); [lia|]. eexists _, _. split; [done|]. by rewrite add_stage.
Qed.

(** What is left goes into the last stage. *)
Lemma left_over removed m : counts removed m →
  filter (λ scc, count_at m (getSCCIndex scc) ≠ u32 (-1)) sccs = filter (λ scc, scc ∉ removed) sccs.
Proof.
  intros Hc. apply filter_same. intros b Hb. change (u32 (-1)) with (2 ^ 32 - 1). split.
  - intros Hne Hin. by apply Hne, (ct_removed _ _ Hc).
  - intros Hn. rewrite (ct_left _ _ Hc) by done. pose proof (dl_unsigned (deps := deps) b Hb). unfold open_edges.
    pose proof (length_filter (λ g, outgoingT g ∉ removed) (getIncomingEdges b)). lia.
Qed.

Lemma removed_and_left removed m : counts removed m → removed ++ filter (λ scc, scc ∉ removed) sccs ≡ₚ sccs.
Proof.
  intros Hc. apply NoDup_Permutation.
  - apply NoDup_app. split; [apply (ct_nodup _ _ Hc)|]. split; [by intros x Hx [? _]%list_elem_of_filter|].
    apply NoDup_filter, (dl_nodup (deps := deps)).
  - apply (dl_nodup (deps := deps)).
  - intros x. rewrite elem_of_app, list_elem_of_filter. pose proof (ct_sub _ _ Hc x). destruct (decide (x ∈ removed)); tauto.
Qed.

(** The stages: all components in order, then the rest in the last stage. *)
Lemma partition_sccs_run threadBudget : 0 < threadBudget → ∃ ss0 new m,
  counts (mjoin ss0 ++ new) m ∧
  let last := new ++ filter (λ scc, scc ∉ mjoin ss0 ++ new) sccs in
  partition_sccs sccs threadBudget = Some (match last with [] => ss0 | _ => ss0 ++ [last] end).
Proof.
  intros Hb. destruct (decide (sccs = [])) as [E|Hne].
  { exists [], [], (getIncomingCountMap sccs). split; [apply counts_initial|]. rewrite E. unfold partition_sccs. simpl.
    by rewrite Z.min_r by lia. }
  unfold partition_sccs. set (n := Z.min threadBudget (Z.of_nat (length sccs))). set (target := ddiv _ _).
  assert (0 < n) as Hn by (destruct sccs; [done|]; simpl in n; lia).
  destruct (first_rounds target n (Z.to_nat (n - 1))) as (ss & m & E & Hc); [lia|].
  replace (seqZ 0 n) with (seqZ 0 (Z.of_nat (S (Z.to_nat (n - 1))))) by (f_equal; lia).
  rewrite seqZ_S, foldl_app, E. cbn [foldl stage_round].
  destruct (fill_stage_run (S (length sccs)) target (mjoin ss) 0 [] m Hc) as (new & m' & -> & Hc'); [lia|].
  exists ss, new, m'. split; [done|]. cbn [app]. destruct (Z.eqb_spec (0 + Z.of_nat (Z.to_nat (n - 1))) (n - 1)) as [_|]; [|lia].
  by rewrite (left_over _ _ Hc').
Qed.

(** ** The order of the stages *)

Lemma take_split {A} (ss : list (list A)) i s : ss !! i = Some s → mjoin ss = mjoin (take i ss) ++ s ++ mjoin (drop (S i) ss).
Proof. intros Hs. rewrite <-(take_drop_middle _ _ _ Hs) at 1. by rewrite join_app. Qed.

Lemma elem_of_taken {A} (ss : list (list A)) i s x : ss !! i = Some s → x ∈ s → x ∈ mjoin (take (S i) ss).
Proof. intros Hs Hx. rewrite (take_S_r _ _ _ Hs), join_app. apply elem_of_app. right. simpl. by rewrite app_nil_r. Qed.

(** A component that is in one of the first [n] stages is in no other. *)
Lemma taken_index {A} (ss : list (list A)) k n s x : NoDup (mjoin ss) → ss !! k = Some s → x ∈ s → x ∈ mjoin (take n ss) → (k < n)%nat.
Proof.
  intros Hn Hs Hx Ht. destruct (decide (k < n)%nat) as [|Hk]; [done|]. exfalso.
  rewrite <-(take_drop n ss), join_app in Hn. apply NoDup_app in Hn as (_ & Hd & _). apply (Hd x Ht).
  apply list_elem_of_join. exists s. split; [done|]. apply list_elem_of_lookup. exists (k - n)%nat. rewrite lookup_drop. rewrite <-Hs. f_equal. lia.
Qed.

Definition in_stages (ss : list (list SCC)) : Prop :=
  mjoin ss ≡ₚ sccs ∧
  ∀ i j s t a b g, ss !! i = Some s → ss !! j = Some t → a ∈ s → b ∈ t → g ∈ getIncomingEdges b → outgoingT g = a → (i ≤ j)%nat.

Lemma partition_sccs_ordered threadBudget : 0 < threadBudget → ∃ ss, partition_sccs sccs threadBudget = Some ss ∧ in_stages ss.
Proof.
  intros Hb. destruct (partition_sccs_run threadBudget Hb) as (ss0 & new & m & Hc & E). cbv zeta in E. set (last := new ++ _) in E.
  eexists. split; [exact E|]. pose proof (removed_and_left _ _ Hc) as Hp. rewrite <-app_assoc in Hp. fold last in Hp. rewrite <-add_stage in Hp.
  split; [done|]. set (ss := match last with [] => ss0 | _ => ss0 ++ [last] end) in *.
  intros i j s t a b g Hs Ht Ha Hbt Hg <-.
  assert (NoDup (mjoin ss)) as Hnd by (rewrite Hp; apply (dl_nodup (deps := deps))).
  assert (i < S j)%nat; [|lia]. apply (taken_index ss i (S j) s (outgoingT g)); [done|done|done|].
  assert (ss = ss0 ∨ ss = ss0 ++ [last]) as Hss by (unfold ss; destruct last; auto).
  destruct (decide (j < length ss0)%nat) as [Hj|Hj].
  - assert (ss0 !! j = Some t) as Ht0 by (destruct Hss as [E'|E']; rewrite E' in Ht; [done|by rewrite lookup_app_l in Ht]).
    apply list_elem_of_split in Hbt as (t1 & t2 & Et). pose proof (take_split _ _ _ Ht0) as Em. rewrite Et in Em.
    assert (mjoin ss0 ++ new = (mjoin (take j ss0) ++ t1) ++ b :: (t2 ++ mjoin (drop (S j) ss0) ++ new)) as Er
      by (rewrite Em, <-!app_assoc; done).
    pose proof (ct_order _ _ Hc _ _ _ _ Er Hg) as Ho. assert (take (S j) ss = take (S j) ss0) as ->.
    { destruct Hss as [->| ->]; [done|]. apply take_app_le. lia. }
    rewrite (take_S_r _ _ _ Ht0), join_app, Et. simpl. rewrite app_nil_r. apply elem_of_app in Ho as [Ho|Ho]; apply elem_of_app; [by left|right].
    apply elem_of_app. by left.
  - rewrite take_ge; [rewrite Hp; apply (dl_in (deps := deps) b); [|done]|].
    + rewrite <-Hp. apply list_elem_of_join. exists t. split; [done|by eapply list_elem_of_lookup_2].
    + apply lookup_lt_Some in Ht. destruct Hss as [E'|E']; rewrite E' in Ht |- *; [lia|]. rewrite length_app in Ht |- *. simpl in *. lia.
Qed.
End Order.

Lemma stages_lookup `{Noelle} t (ss : list (list SCC)) (i : nat) st : (stage_of_sccs t <$> ss) !! i = Some st →
  ∃ s, ss !! i = Some s ∧ replicated st = ∅ ∧ type st = t ∧ ∀ x, x ∈ instructions st ↔ ∃ a, a ∈ s ∧ x ∈ internalNodePairs a.
Proof.
  rewrite list_lookup_fmap_Some. intros (s & -> & Hs). exists s. do 3 (split; [done|]). intros x. cbn.
  rewrite elem_of_list_to_set, list_elem_of_bind. split; intros (a & ? & ?); by exists a.
Qed.

(** [C25] The critic for balanced pipelines terminates for every estimator: its
    stages have the instructions of all components, each in one stage, and every
    dependence runs forward through the stages. *)
Theorem dswp_pipeline `{PerformanceEstimator, Noelle} sccs deps threadBudget (HL : DagLaws sccs deps) : 0 < threadBudget →
  ∃ ss, partition_sccs sccs threadBudget = Some ss ∧
    let l := stage_of_sccs Sequential <$> ss in
    partition l ∧ (∀ x, in_pipeline x l ↔ ∃ a, a ∈ sccs ∧ x ∈ internalNodePairs a) ∧ pipelined deps l.
Proof.
  intros Hb. destruct (partition_sccs_ordered sccs deps threadBudget Hb) as (ss & E & Hp & Ho). exists ss. split; [done|]. cbv zeta.
  assert (NoDup (mjoin ss)) as Hnd by (rewrite Hp; apply (dl_nodup (deps := deps))).
  assert (∀ i s a, ss !! i = Some s → a ∈ s → a ∈ sccs) as Hin.
  { intros i s a Hs Ha. rewrite <-Hp. apply list_elem_of_join. exists s. split; [done|by eapply list_elem_of_lookup_2]. }
  assert (∀ i j s t a, ss !! i = Some s → ss !! j = Some t → a ∈ s → a ∈ t → i = j) as Huniq.
  { intros i j s t a Hs Ht Ha Ha'. pose proof (taken_index ss i (S j) s a Hnd Hs Ha (elem_of_taken _ _ _ _ Ht Ha')).
    pose proof (taken_index ss j (S i) t a Hnd Ht Ha' (elem_of_taken _ _ _ _ Hs Ha)). lia. }
  split; [|split].
  - intros i j st su x (s & Hs & _ & _ & Hsx)%stages_lookup (t & Ht & Hr & _ & Htx)%stages_lookup (a & Ha & Hxa)%Hsx.
    split; [|rewrite Hr; apply not_elem_of_empty]. intros (b & Hbt & Hxb)%Htx.
    assert (a = b) as <- by (apply (dl_disjoint (deps := deps) a b x); by eauto). by eapply Huniq.
  - intros x. split.
    + intros (st & [i (s & Hs & Hr & _ & Hsx)%stages_lookup]%list_elem_of_lookup & [(a & Ha & Hx)%Hsx|Hx]); [by eauto|].
      rewrite Hr in Hx. by apply not_elem_of_empty in Hx.
    + intros (a & Ha & Hx). rewrite <-Hp in Ha. apply list_elem_of_join in Ha as (s & Has & Hs).
      exists (stage_of_sccs Sequential s). split; [by apply list_elem_of_fmap_2|]. left. cbn.
      apply elem_of_list_to_set, list_elem_of_bind. by exists a.
  - intros e i j st su He (s & Hs & _ & Hty & Hsx)%stages_lookup (t & Ht & _ & _ & Htx)%stages_lookup (a & Ha & Hoa)%Hsx (b & Hbt & Hib)%Htx.
    split; [|by rewrite Hty]. destruct (decide (a = b)) as [->|Hne]; [by rewrite (Huniq i j s t b)|].
    destruct (dl_across (deps := deps) e a b) as (g & Hg & Hga); [by eauto..|]. by eapply Ho.
Qed.

(** ** A small graph *)

Lemma demo_dag_laws deps n : 0 ≤ n → Z.of_nat (length deps) < 2 ^ 32 - 1 →
  Forall (λ e, 0 ≤ outgoingT e / 10 < n ∧ 0 ≤ incomingT e / 10 < n) deps →
  DagLaws (H := demo_noelle deps) (seqZ 0 n) deps.
Proof.
  intros Hn Hlen Hd. rewrite Forall_forall in Hd.
  constructor; try setoid_rewrite demo_internal; cbn; try setoid_rewrite elem_of_seqZ.
  - apply NoDup_seqZ.
  - done.
  - intros b g Hb (e & -> & [_ He]%list_elem_of_filter)%list_elem_of_fmap. destruct (Hd e He). simpl. lia.
  - intros a g Ha (e & -> & [_ He]%list_elem_of_filter)%list_elem_of_fmap. destruct (Hd e He). simpl. lia.
  - intros a b _ _. rewrite !filter_map, !length_fmap, !list_filter_filter. f_equal. apply filter_same. intros e _. simpl. intuition congruence.
  - intros b Hb. rewrite length_fmap.
    pose proof (length_filter (λ e : DGEdge Z, outgoingT e / 10 ≠ b ∧ incomingT e / 10 = b) deps). lia.
  - intros a b i _ _ <- <-. done.
  - intros e a b He _ _ Hne Ho Hi. exists (demo_lift e). split; [|done]. apply list_elem_of_fmap. exists e. split; [done|].
    apply list_elem_of_filter. split; [split; [congruence|done]|done].
Qed.

Lemma dswp_pipeline_witness : ∃ ss,
  partition_sccs (H := FlatPerformanceEstimator) (H0 := demo_noelle demo_deps) (seqZ 0 4) 3 = Some ss ∧
    let l := stage_of_sccs (H := demo_noelle demo_deps) Sequential <$> ss in
    partition l ∧ (∀ x, in_pipeline x l ↔ ∃ a, a ∈ seqZ 0 4 ∧ x ∈ internalNodePairs (Noelle := demo_noelle demo_deps) a) ∧ pipelined demo_deps l.
Proof.
  apply (dswp_pipeline (H := FlatPerformanceEstimator) (H0 := demo_noelle demo_deps) (seqZ 0 4) demo_deps 3).
  - apply demo_dag_laws; [lia|by vm_compute|]. by repeat constructor.
  - lia.
Defined.

Example dswp_example :
  partition_sccs (H := FlatPerformanceEstimator) (H0 := demo_noelle demo_deps) (seqZ 0 4) 3 = Some [[0; 1]; [2; 3]].
Proof. by vm_compute. Qed.

(** ** Criticisms

    The stages are built from the graph without the dependences that can be
    removed, but the critic reports none of them: here the second stage sends a
    value back to the first one, and the plan comes without a criticism. *)
Definition backward : DGEdge Instruction := MkEdge 10 0 true false true true true [[MkRemedy 1 1 1000]].
Definition backward_pdg : PDG := MkPDG [dep 0 10 false; backward] (seqZ 0 20).
Definition backward_loop : Loop := MkLoopInfo (MkLoop 99 (seqZ 0 20) (λ _, OtherBlock)) [seqZ 0 20] 1.
Definition backward_dag (pdg : PDG) : SCCDAG := MkDag (demo_noelle (pdg_edges pdg)) (seqZ 0 2).

Theorem dswp_no_criticisms : ∃ res ps,
  dswp_getCriticisms (H := FlatPerformanceEstimator) (H0 := filter_subgraphs) backward_dag (λ _, false) backward_pdg backward_loop 2 = Done res ∧
  res_ps res = Some ps ∧ 0 < expSpeedup res ∧ criticisms res = [] ∧
  ((λ s, bool_decide (outgoingT backward ∈ instructions s)) <$> stages ps = [false; true] ∧
   (λ s, bool_decide (incomingT backward ∈ instructions s)) <$> stages ps = [true; false]).
Proof.
  eexists _, _. split; [vm_compute; reflexivity|]. by repeat split; vm_compute.
Qed.
