(* ===== verification/PsDswp.v ===== *)
(** The PS-DSWP critic: the second half of [lib/Orchestration/PSDSWPCritic.cpp].

    The critic removes the dependences that can be removed, partitions what is left
    into stages, adjusts the stages, and lists the dependences that run against the
    pipeline: they have to be removed, and all others are respected. *)
From S2P Require Import Prelude Machine MinCut Pipeline Partition Estimate Critic Dswp.
From Stdlib Require Import SpecFloat.
#[local] Open Scope Z_scope.

(** What comes from SCAF: the costs of two kinds of remedies and of a set of them,
    and from LLVM: whether an instruction ends a block. *)
Class Remedies := {
  DEFAULT_REDUX_REMED_COST : Z;
  EXPENSIVE_CTRL_REMED_COST : Z;
  totalRemedCost : list Remedy → Z;
  isTerminator : Instruction → bool }.

Section PsDswp.
Context {HRm : Remedies} {HSub : Subgraphs} {HPe : PerformanceEstimator}.

(** ** The optimistic graph *)

(** The sets of remedies of a dependence are ordered by their cost; a dependence
    that can be removed has one. *)
Definition getMinRemovalCost (edge : DGEdge Instruction) : Z :=
  if negb (isRemovableDependence edge) then 2 ^ 63 - 1
  else match getRemedies edge with cheapestR :: _ => totalRemedCost cheapestR | [] => 0 end.

Definition setLoopCarried {T} (b : bool) (e : DGEdge T) : DGEdge T :=
  MkEdge (outgoingT e) (incomingT e) b (isControlDependence e) (isMemoryDependence e) (isRAWDependence e)
    (isRemovableDependence e) (getRemedies e).

(** A removable dependence is removed, or becomes one within an iteration if it is
    that of a reduction. *)
Definition simplify_edge (edge : DGEdge Instruction) : option (DGEdge Instruction) :=
  if negb (isRemovableDependence edge) then Some edge
  else if (getMinRemovalCost edge =? DEFAULT_REDUX_REMED_COST) && isLoopCarriedDependence edge
       then Some (setLoopCarried false edge)
       else None.
Definition simplifyPDG (pdg : PDG) : PDG :=
  let optimisticPDG := createSubgraphFromValues pdg (internalNodes pdg) [] in
  MkPDG (omap simplify_edge (pdg_edges optimisticPDG)) (internalNodes optimisticPDG).

(** ** Criticisms *)

Definition all_insts (s : PipelineStage) : gset Instruction := instructions s ∪ replicated s.

(** A dependence that violates the pipeline: [None] when it cannot be removed. *)
Definition criticise (cs : option Criticisms) (edge : DGEdge Instruction) : option Criticisms :=
  cs ← cs; if isRemovableDependence edge then Some (insert_crit cs edge) else None.

(** The dependences from the second to the first instruction. *)
Definition back_edges (pdg : PDG) (early late : Instruction) : list (DGEdge Instruction) :=
  filter (λ e, incomingT e = early) (outgoing_edges pdg late).
Definition critForPipelineProperty (pdg : PDG) (earlyStage lateStage : PipelineStage) (cs : option Criticisms) : option Criticisms :=
  foldl (λ cs early, foldl (λ cs late, foldl criticise cs (back_edges pdg early late)) cs (in_order (all_insts lateStage)))
    cs (in_order (all_insts earlyStage)).

Definition carried_edges (pdg : PDG) (p q : Instruction) : list (DGEdge Instruction) :=
  filter (λ e, incomingT e = q ∧ isLoopCarriedDependence e = true) (outgoing_edges pdg p).
Definition critForParallelStageProperty (pdg : PDG) (parallel : PipelineStage) (cs : option Criticisms) : option Criticisms :=
  foldl (λ cs p, foldl (λ cs q, foldl criticise cs (carried_edges pdg p q)) cs (in_order (all_insts parallel)))
    cs (in_order (instructions parallel)).

Fixpoint crit_pairs (pdg : PDG) (l : list PipelineStage) (cs : option Criticisms) : option Criticisms :=
  match l with
  | [] => cs
  | earlier :: l' => crit_pairs pdg l' (foldl (λ cs later, critForPipelineProperty pdg earlier later cs) cs l')
  end.
Definition populateCriticisms (l : list PipelineStage) (pdg : PDG) : option Criticisms :=
  foldl (λ cs pstage, if negb (bool_decide (type pstage = Parallel)) then cs else critForParallelStageProperty pdg pstage cs)
    (crit_pairs pdg l (Some [])) l.

(** ** Adjusting the stages *)

Definition getParalleStageWeight (l : list PipelineStage) : Z :=
  to_ulong (dmul (of_int 1000)
    (foldl (λ w si,
       if bool_decide (type si = Parallel) then foldl (λ w i, dadd w (estimate_weight i)) w (in_order (instructions si)) else w)
       (of_int 0) l)).

(** [characterizeStages] sets pointers to the first, the parallel and the last
    sequential stage; here they are indices. *)
Record characterized := MkChar { firstStage : option nat; parallelStage : option nat; lastSeqStage : option nat }.
Fixpoint characterize_loop (l : list PipelineStage) (i : nat) (c : characterized) : characterized :=
  match l with
  | [] => c
  | pstage :: l' =>
      match firstStage c with
      | None =>
          characterize_loop l' (S i)
            (MkChar (Some i) (if bool_decide (type pstage = Parallel) then Some i else parallelStage c) (lastSeqStage c))
      | Some _ =>
          if negb (bool_decide (type pstage = Parallel)) then MkChar (firstStage c) (parallelStage c) (Some i)
          else characterize_loop l' (S i) (MkChar (firstStage c) (Some i) (lastSeqStage c))
      end
  end.
Definition characterizeStages (l : list PipelineStage) : characterized := characterize_loop l 0 (MkChar None None None).

Definition reg_carried (edge : DGEdge Instruction) : bool :=
  isLoopCarriedDependence edge && negb (isControlDependence edge) && negb (isMemoryDependence edge) &&
  isRAWDependence edge && negb (isRemovableDependence edge).
Definition incoming_edges (pdg : PDG) (inst : Instruction) : list (DGEdge Instruction) :=
  filter (λ e, incomingT e = inst) (pdg_edges pdg).

(** The instruction is pushed once for every such dependence. *)
Definition moveToSeqInsts (pdg : PDG) (parallel : PipelineStage) : list Instruction :=
  in_order (instructions parallel) ≫= λ inst,
    (λ _, inst) <$> filter (λ e, reg_carried e = true) (incoming_edges pdg inst).
Definition adjustForRegLCFromSeqToPar (pdg : PDG) (first par : nat) (l : list PipelineStage) : list PipelineStage :=
  match l !! par with
  | None => l
  | Some parallel =>
      foldl (λ l inst,
        alter (λ s, set_instructions ({[inst]} ∪ instructions s) s) first
          (alter (λ s, set_instructions (instructions s ∖ {[inst]}) s) par l)) l (moveToSeqInsts pdg parallel)
  end.

Definition isReplicable (inst : Instruction) (mayWrite : Instruction → bool) : bool := if mayWrite inst then false else true.

(** The loop over the first stage: whether all is replicable and light. *)
Fixpoint light_loop (mayWrite : Instruction → bool) (parallelStageWeight : Z) (insts : list Instruction) (seqStageWeight : Z) : bool :=
  match insts with
  | [] => true
  | inst :: insts' =>
      let seqStageWeight := to_ulong (dadd (of_int seqStageWeight) (dmul (of_int 1000) (estimate_weight inst))) in
      if negb (isReplicable inst mayWrite) then false
      else if dgt (ddiv (dmul (of_int seqStageWeight) (of_int 100)) (of_int parallelStageWeight)) (of_int 10) then false
      else light_loop mayWrite parallelStageWeight insts' seqStageWeight
  end.
Definition convertRepLightFirstSeqToRepPrefix (mayWrite : Instruction → bool) (parallelStageWeight : Z) (first par : nat)
    (l : list PipelineStage) : list PipelineStage :=
  match l !! first with
  | None => l
  | Some s =>
      if light_loop mayWrite parallelStageWeight (in_order (instructions s)) 0 then
        let l := foldl (λ l inst,
          alter (λ s, set_replicated ({[inst]} ∪ replicated s) s) par
            (alter (λ s, set_instructions (instructions s ∖ {[inst]}) s) first l)) l (in_order (instructions s)) in
        alter (λ s, set_parallel_factor (u32 (parallel_factor s + 1)) s) 0%nat (drop 1 l)
      else l
  end.

Definition is_sequential (l : list PipelineStage) (i : nat) : bool :=
  match l !! i with Some s => bool_decide (type s = Sequential) | None => false end.
Definition adjustPipeline (mayWrite : Instruction → bool) (parallelStageWeight : Z) (pdg : PDG) (l : list PipelineStage) :
    list PipelineStage :=
  let c := characterizeStages l in
  match parallelStage c with
  | None => l
  | Some par =>
      match firstStage c with
      | None => l
      | Some first =>
          if is_sequential l first then
            convertRepLightFirstSeqToRepPrefix mayWrite parallelStageWeight first par (adjustForRegLCFromSeqToPar pdg first par l)
          else l
      end
  end.

(** ** Dependences across stages *)

Definition cross_dep (criticisms : Criticisms) (all : gset Instruction)
    (acc : list CrossStageDependence * list CrossStageDependence) (edge : DGEdge Instruction) :
    list CrossStageDependence * list CrossStageDependence :=
  let src := outgoingT edge in
  let dst := incomingT edge in
  if isControlDependence edge && isTerminator src then
    if negb (isRemovableDependence edge) || (getMinRemovalCost edge =? EXPENSIVE_CTRL_REMED_COST)
    then (acc.1 ++ [MkCross src dst edge], acc.2) else acc
  else if isMemoryDependence edge && isRAWDependence edge && negb (bool_decide (edge ∈ criticisms)) && negb (bool_decide (dst ∈ all))
  then (acc.1, acc.2 ++ [MkCross src dst edge]) else acc.
Definition populateCrossStageDependences (criticisms : Criticisms) (pdg : PDG) (ps : PipelineStrategy) : PipelineStrategy :=
  let '(deps, flows) :=
    foldl (λ acc si,
      foldl (λ acc src, foldl (cross_dep criticisms (all_insts si)) acc (outgoing_edges pdg src)) acc (in_order (all_insts si)))
      (crossStageDeps ps, crossStageMemFlows ps) (stages ps) in
  set_crossStageMemFlows flows (set_crossStageDeps deps ps).

(** ** The critic *)

(** [estimate_weight] of a component. *)
Definition scc_weight `{Noelle} (scc : SCC) : Z := to_ulong (dmul (of_int 1000) (estimate_weight_of (internalNodePairs scc))).

(** From the plan on: [None] when an assertion fails. *)
Definition finish_plan (pdg : PDG) (loop : Loop) (l : list PipelineStage) : option CriticRes :=
  _ ← populateCriticisms l pdg;
  cs ← populateCriticisms l pdg;
  let ps := setValidFor (loop_header (loop_ir loop)) (set_stages l new_plan) in
  ps ← assertConsistentWithIR (loop_ir loop) ps;
  let '(l', changed) := expandReplicatedStages (stages ps) in
  let ps := set_stages l' ps in
  ps ← (if changed : bool then assertConsistentWithIR (loop_ir loop) ps else Some ps);
  let ps := populateCrossStageDependences cs pdg ps in
  speedup ← getExpPipelineSpeedup ps loop;
  Some (MkRes cs speedup (Some ps)).

Definition psdswp_getCriticisms (new_SCCDAG : PDG → SCCDAG) (pdg : PDG) (loop : Loop) (threadBudget : Z) : outcome CriticRes :=
  let optimisticPDG := simplifyPDG pdg in
  let dag := new_SCCDAG optimisticPDG in
  let n := dag_noelle dag in
  match doallAndPipeline scc_weight (dag_sccs dag) threadBudget true with
  | Failed why => Failed why
  | Done (false, _) => Done (MkRes [] 0 None)
  | Done (true, l) =>
      match finish_plan pdg loop (adjustPipeline mayWriteToMemory (getParalleStageWeight l) pdg l) with
      | None => Failed AssertFail
      | Some res => Done res
      end
  end.

(** ** What the criticisms are *)

Definition pair_list (pdg : PDG) (s t : PipelineStage) : list (DGEdge Instruction) :=
  in_order (all_insts s) ≫= λ early, in_order (all_insts t) ≫= λ late, back_edges pdg early late.
Definition parallel_list (pdg : PDG) (s : PipelineStage) : list (DGEdge Instruction) :=
  if negb (bool_decide (type s = Parallel)) then []
  else in_order (instructions s) ≫= λ p, in_order (all_insts s) ≫= λ q, carried_edges pdg p q.
Fixpoint pairs_list (pdg : PDG) (l : list PipelineStage) : list (DGEdge Instruction) :=
  match l with [] => [] | s :: l' => (l' ≫= pair_list pdg s) ++ pairs_list pdg l' end.

Lemma crit_pairs_list pdg l cs : crit_pairs pdg l cs = foldl criticise cs (pairs_list pdg l).
Proof.
  revert cs. induction l as [|s l IH]; intros cs; [done|]. cbn [crit_pairs pairs_list]. rewrite foldl_app, IH. f_equal.
  apply foldl_chunks. intros a t. apply foldl_chunks. intros b x. by apply foldl_chunks.
Qed.

Lemma populate_list l pdg : populateCriticisms l pdg = foldl criticise (Some []) (pairs_list pdg l ++ (l ≫= parallel_list pdg)).
Proof.
  unfold populateCriticisms. rewrite foldl_app, <-crit_pairs_list. apply foldl_chunks. intros a s. unfold parallel_list.
  destruct (negb _); [done|]. apply foldl_chunks. intros b p. by apply foldl_chunks.
Qed.

Lemma criticise_none es : foldl criticise None es = None.
Proof. by induction es. Qed.

Lemma criticise_run es : ∀ cs,
  match foldl criticise (Some cs) es with
  | Some cs' => (∀ e, e ∈ es → isRemovableDependence e = true) ∧ ∀ e, e ∈ cs' ↔ e ∈ cs ∨ e ∈ es
  | None => ∃ e, e ∈ es ∧ isRemovableDependence e = false
  end.
Proof.
  induction es as [|e es IH]; intros cs; cbn [foldl].
  - split; [by intros e ?%elem_of_nil|]. intros e. rewrite elem_of_nil. tauto.
  - unfold criticise at 2. cbn [mbind option_bind]. destruct (isRemovableDependence e) eqn:Er.
    + specialize (IH (insert_crit cs e)). destruct (foldl criticise _ es) as [cs'|].
      * destruct IH as [H1 H2]. split; [intros f [->|Hf]%elem_of_cons; auto|]. intros f. rewrite H2, elem_of_insert_crit, elem_of_cons. tauto.
      * destruct IH as (f & Hf & Hr). exists f. split; [by right|done].
    + rewrite criticise_none. exists e. split; [by left|done].
Qed.

(** A dependence that runs against the pipeline: from a later to an earlier stage,
    or from one iteration to another within a parallel stage.  Prefixes count, but
    the dependences that start in the prefix of a parallel stage stay within a
    worker. *)
Definition against (l : list PipelineStage) (e : DGEdge Instruction) : Prop :=
  (∃ i j s t, (i < j)%nat ∧ l !! i = Some s ∧ l !! j = Some t ∧ outgoingT e ∈ all_insts t ∧ incomingT e ∈ all_insts s) ∨
  (isLoopCarriedDependence e = true ∧ ∃ s, s ∈ l ∧ type s = Parallel ∧ outgoingT e ∈ instructions s ∧ incomingT e ∈ all_insts s).

Lemma elem_of_outgoing pdg x e : e ∈ outgoing_edges pdg x ↔ outgoingT e = x ∧ e ∈ pdg_edges pdg.
Proof. unfold outgoing_edges. by rewrite list_elem_of_filter. Qed.

Lemma elem_of_pair_list pdg s t e : e ∈ pair_list pdg s t ↔
  e ∈ pdg_edges pdg ∧ outgoingT e ∈ all_insts t ∧ incomingT e ∈ all_insts s.
Proof.
  unfold pair_list, back_edges. rewrite list_elem_of_bind. split.
  - intros (x & (y & [E [E' He]%elem_of_outgoing]%list_elem_of_filter & Hy)%list_elem_of_bind & Hx).
    rewrite elem_of_in_order in Hx, Hy. by subst.
  - intros (He & Ho & Hi). exists (incomingT e). rewrite elem_of_in_order. split; [|done]. apply list_elem_of_bind.
    exists (outgoingT e). rewrite elem_of_in_order. split; [|done]. apply list_elem_of_filter. split; [done|]. by apply elem_of_outgoing.
Qed.

Lemma elem_of_parallel_list pdg s e : e ∈ parallel_list pdg s ↔
  e ∈ pdg_edges pdg ∧ type s = Parallel ∧ isLoopCarriedDependence e = true ∧ outgoingT e ∈ instructions s ∧ incomingT e ∈ all_insts s.
Proof.
  unfold parallel_list, carried_edges. case_bool_decide as Ht; cbn [negb]; [|rewrite elem_of_nil; tauto]. rewrite list_elem_of_bind. split.
  - intros (x & (y & [[E Hc] [E' He]%elem_of_outgoing]%list_elem_of_filter & Hy)%list_elem_of_bind & Hx).
    rewrite elem_of_in_order in Hx, Hy. by subst.
  - intros (He & _ & Hc & Ho & Hi). exists (outgoingT e). rewrite elem_of_in_order. split; [|done]. apply list_elem_of_bind.
    exists (incomingT e). rewrite elem_of_in_order. split; [|done]. apply list_elem_of_filter. split; [done|]. by apply elem_of_outgoing.
Qed.

Lemma elem_of_pairs_list pdg l e : e ∈ pairs_list pdg l ↔ e ∈ pdg_edges pdg ∧
  ∃ i j s t, (i < j)%nat ∧ l !! i = Some s ∧ l !! j = Some t ∧ outgoingT e ∈ all_insts t ∧ incomingT e ∈ all_insts s.
Proof.
  induction l as [|u l IH]; cbn [pairs_list].
  - rewrite elem_of_nil. split; [done|]. by intros (_ & i & j & s & t & _ & ? & _).
  - rewrite elem_of_app, IH, list_elem_of_bind. split.
    + intros [(t & (He & Ho & Hi)%elem_of_pair_list & [j Hj]%list_elem_of_lookup)|(He & i & j & s & t & Hij & Hs & Ht & Ho & Hi)].
      * split; [done|]. exists 0%nat, (S j), u, t. split; [lia|done].
      * split; [done|]. exists (S i), (S j), s, t. split; [lia|done].
    + intros (He & [|i] & [|j] & s & t & Hij & Hs & Ht & Ho & Hi); try lia; cbn in Hs, Ht.
      * injection Hs as ->. left. exists t. split; [by apply elem_of_pair_list|by eapply list_elem_of_lookup_2].
      * right. split; [done|]. exists i, j, s, t. split; [lia|done].
Qed.

Lemma populate_exact l pdg :
  match populateCriticisms l pdg with
  | Some cs => ∀ e, (e ∈ cs ↔ e ∈ pdg_edges pdg ∧ against l e) ∧ (e ∈ cs → isRemovableDependence e = true)
  | None => ∃ e, e ∈ pdg_edges pdg ∧ against l e ∧ isRemovableDependence e = false
  end.
Proof.
  assert (∀ e, e ∈ pairs_list pdg l ++ (l ≫= parallel_list pdg) ↔ e ∈ pdg_edges pdg ∧ against l e) as Hl.
  { intros e. rewrite elem_of_app, elem_of_pairs_list, list_elem_of_bind. setoid_rewrite elem_of_parallel_list. unfold against.
    split; [intros [[? ?]|(s & (? & ? & ? & ? & ?) & ?)]; split; try done; [by left|right; eauto 10]|].
    intros (He & [Hp|(Hc & s & Hs & Ht & Ho & Hi)]); [by left|right]. by exists s. }
  rewrite populate_list. pose proof (criticise_run (pairs_list pdg l ++ (l ≫= parallel_list pdg)) []) as Hr.
  destruct (foldl criticise _ _) as [cs|].
  - destruct Hr as [H1 H2]. intros e. rewrite H2, elem_of_nil, <-Hl. split; [tauto|]. intros [[]|He]. auto.
  - destruct Hr as (e & He & Hr). exists e. apply Hl in He. tauto.
Qed.

(** ** Checks only take instructions out *)

Definition shrunk (l l' : list PipelineStage) : Prop :=
  ∀ i s', l' !! i = Some s' → ∃ s, l !! i = Some s ∧ instructions s' ⊆ instructions s ∧ replicated s' ⊆ replicated s ∧ type s' = type s.

Lemma shrunk_refl l : shrunk l l.
Proof. intros i s Hs. by exists s. Qed.
Lemma shrunk_trans l1 l2 l3 : shrunk l1 l2 → shrunk l2 l3 → shrunk l1 l3.
Proof.
  intros H12 H23 i u Hu. destruct (H23 i u Hu) as (t & Ht & I1 & R1 & T1). destruct (H12 i t Ht) as (s & Hs & I2 & R2 & T2).
  exists s. split; [done|]. split; [by etrans|]. split; [by etrans|by rewrite T1].
Qed.

Lemma against_shrunk l l' e : shrunk l l' → against l' e → against l e.
Proof.
  intros Hsh [(i & j & s & t & Hij & Hs & Ht & Ho & Hi)|(Hc & s & [i Hs]%list_elem_of_lookup & Ht & Ho & Hi)].
  - destruct (Hsh _ _ Hs) as (s0 & Hs0 & ? & ? & _), (Hsh _ _ Ht) as (t0 & Ht0 & ? & ? & _).
    left. exists i, j, s0, t0. unfold all_insts in *. split; [done|]. do 2 (split; [done|]). set_solver.
  - destruct (Hsh _ _ Hs) as (s0 & Hs0 & ? & ? & Ht0). right. split; [done|]. exists s0. split; [by eapply list_elem_of_lookup_2|].
    split; [by rewrite <-Ht0|]. unfold all_insts in *. set_solver.
Qed.

Lemma delete_shrunk x ps : shrunk (stages ps) (stages (deleteInstruction x ps)).
Proof.
  intros i s' Hs'. unfold deleteInstruction in Hs'. cbn in Hs'.
  destruct (each_stage_lookup _ _ _ _ Hs') as (s & Es & Hs). exists s. split; [done|].
  destruct Hs as [->|[-> _]]; [|done]. unfold delete_in_stage. repeat case_decide; simpl; set_solver.
Qed.

Lemma delete_all_shrunk (P : Instruction → Prop) `{∀ x, Decision (P x)} xs ps :
  shrunk (stages ps) (stages (foldl (λ ps i, if decide (P i) then deleteInstruction i ps else ps) ps xs)).
Proof.
  revert ps. induction xs as [|x xs IH]; intros ps; cbn [foldl]; [apply shrunk_refl|]. eapply shrunk_trans; [|apply IH].
  case_decide; [apply delete_shrunk|apply shrunk_refl].
Qed.

Lemma consistent_shrunk loop ps ps' : assertConsistentWithIR loop ps = Some ps' → shrunk (stages ps) (stages ps').
Proof.
  unfold assertConsistentWithIR. destruct (_ || _); [done|]. destruct (foldl count_stage _ _) as [all1 ok1].
  destruct (foldl count_prefix _ _) as [[all rep] ok2]. cbv zeta.
  match goal with |- (if ?b then _ else _) = _ → _ => destruct b; [|done] end. intros [= <-]. apply delete_all_shrunk.
Qed.

Definition no_replicable (l : list PipelineStage) : Prop := ∀ s, s ∈ l → is_replicable s = false.

Lemma shrunk_no_replicable l l' : shrunk l l' → no_replicable l → no_replicable l'.
Proof.
  intros Hsh Hn s' [i Hs']%list_elem_of_lookup. destruct (Hsh _ _ Hs') as (s & Hs & _ & _ & Ht).
  unfold is_replicable. rewrite Ht. apply Hn. by eapply list_elem_of_lookup_2.
Qed.

Lemma expand_no_replicable l : no_replicable l → expandReplicatedStages l = (l, false).
Proof.
  intros Hn. unfold expandReplicatedStages. assert (expand_loop l = l) as ->.
  { induction l as [|s l IH]; [done|]. cbn [expand_loop]. rewrite (Hn s) by by left. f_equal. apply IH. intros t Ht. apply Hn. by right. }
  rewrite filter_all by done. by rewrite Z.eqb_refl.
Qed.

Lemma populate_cross_stages cs pdg ps : stages (populateCrossStageDependences cs pdg ps) = stages ps.
Proof. unfold populateCrossStageDependences. by destruct (foldl _ _ _). Qed.

(** The plan that the critic returns, and the stages that it comes from. *)
Lemma finish_plan_run pdg loop l res : no_replicable l → finish_plan pdg loop l = Some res →
  ∃ ps, res_ps res = Some ps ∧ shrunk l (stages ps) ∧ populateCriticisms l pdg = Some (criticisms res).
Proof.
  intros Hn. unfold finish_plan. destruct (populateCriticisms l pdg) as [cs|]; [|done]. cbn [mbind option_bind].
  destruct (assertConsistentWithIR _ _) as [ps|] eqn:Ec; [|done]. cbn [mbind option_bind].
  pose proof (consistent_shrunk _ _ _ Ec) as Hsh. cbn in Hsh.
  rewrite expand_no_replicable by by eapply shrunk_no_replicable. cbn [mbind option_bind].
  destruct (getExpPipelineSpeedup _ _) as [sp|]; [|done]. cbn [mbind option_bind]. intros [= <-].
  eexists. split; [done|]. cbn. rewrite populate_cross_stages. done.
Qed.

(** ** The adjusted stages *)

Lemma alter_types f (i : nat) (l : list PipelineStage) : (∀ s, type (f s) = type s) → type <$> alter f i l = type <$> l.
Proof.
  intros Hf. apply list_eq. intros j. rewrite !list_lookup_fmap. destruct (decide (i = j)) as [->|Hne].
  - rewrite list_lookup_alter_eq. destruct (l !! j); simpl; [by rewrite Hf|done].
  - by rewrite list_lookup_alter_ne.
Qed.

Lemma foldl_types {A} (g : list PipelineStage → A → list PipelineStage) xs l :
  (∀ l x, type <$> g l x = type <$> l) → type <$> foldl g l xs = type <$> l.
Proof. intros Hg. revert l. induction xs as [|x xs IH]; intros l; [done|]. cbn [foldl]. by rewrite IH. Qed.

Lemma types_no_replicable (l l' : list PipelineStage) : type <$> l' ⊆ type <$> l → no_replicable l → no_replicable l'.
Proof.
  intros Ht Hn s Hs. assert (type s ∈ type <$> l) as (t & Et & Ht')%list_elem_of_fmap by (apply Ht, list_elem_of_fmap; by exists s).
  unfold is_replicable. rewrite Et. by apply Hn.
Qed.

Lemma adjust_types mw w pdg l : type <$> adjustPipeline mw w pdg l ⊆ type <$> l.
Proof.
  unfold adjustPipeline. destruct (parallelStage _) as [par|]; [|done]. destruct (firstStage _) as [first|]; [|done].
  destruct (is_sequential l first); [|done].
  assert (type <$> adjustForRegLCFromSeqToPar pdg first par l = type <$> l) as Ha.
  { unfold adjustForRegLCFromSeqToPar. destruct (l !! par); [|done]. apply foldl_types. intros k x. by rewrite !alter_types. }
  rewrite <-Ha. generalize (adjustForRegLCFromSeqToPar pdg first par l). intros k.
  unfold convertRepLightFirstSeqToRepPrefix. destruct (k !! first) as [s|]; [|done]. destruct (light_loop _ _ _ _); [|done].
  rewrite alter_types, fmap_drop, foldl_types by (done || (intros; by rewrite !alter_types)).
  intros t Ht. rewrite <-(take_drop 1 (type <$> k)). apply elem_of_app. by right.
Qed.

Lemma doall_no_replicable `{Noelle} weight all budget par found l :
  doallAndPipeline weight all budget par = Done (found, l) → no_replicable l.
Proof.
  unfold doallAndPipeline. destruct all as [|x all]; [by intros [= <- <-] s ?%elem_of_nil|]. destruct (_ <=? 0); [done|].
  destruct (negb par); [by intros [= <- <-] s ?%elem_of_nil|].
  destruct (findMaxParallelStage _ _) as [[[[|] M] N]|]; [|by intros [= <- <-] s ?%elem_of_nil|done].
  destruct (pivot2 N M) as [B A]. intros [= <- <-] s Hs. destruct B, A; simpl in Hs;
    repeat (apply elem_of_cons in Hs as [->|Hs]; [done|]); by apply elem_of_nil in Hs.
Qed.

(** The first stage as the prefix of the parallel one. *)
Lemma prefix_fold xs (s p : PipelineStage) t : ∃ s',
  foldl (λ l inst,
    alter (λ s, set_replicated ({[inst]} ∪ replicated s) s) 1%nat
      (alter (λ s, set_instructions (instructions s ∖ {[inst]}) s) 0%nat l)) (s :: p :: t) xs =
  s' :: set_replicated (list_to_set xs ∪ replicated p) p :: t.
Proof.
  revert s p. induction xs as [|x xs IH]; intros s p.
  - exists s. cbn [foldl list_to_set]. do 2 f_equal. destruct p. unfold set_replicated. simpl. f_equal. set_solver.
  - cbn [foldl]. destruct (IH (set_instructions (instructions s ∖ {[x]}) s) (set_replicated ({[x]} ∪ replicated p) p)) as [s' E].
    exists s'. etransitivity; [exact E|]. do 2 f_equal. unfold set_replicated. simpl. f_equal. set_solver.
Qed.

Lemma in_order_set (X : gset Instruction) : list_to_set (in_order X) = X.
Proof. apply set_eq. intros x. by rewrite elem_of_list_to_set, elem_of_in_order. Qed.

Lemma no_prefix s : replicated s = ∅ → all_insts s = instructions s.
Proof. intros E. unfold all_insts. rewrite E. apply (right_id_L ∅ (∪)). Qed.

(** The instructions that move into the first stage. *)
Lemma move_fold xs (s p : PipelineStage) t :
  foldl (λ l inst,
    alter (λ s, set_instructions ({[inst]} ∪ instructions s) s) 0%nat
      (alter (λ s, set_instructions (instructions s ∖ {[inst]}) s) 1%nat l)) (s :: p :: t) xs =
  set_instructions (list_to_set xs ∪ instructions s) s :: set_instructions (instructions p ∖ list_to_set xs) p :: t.
Proof.
  revert s p. induction xs as [|x xs IH]; intros s p.
  - cbn [foldl list_to_set]. unfold set_instructions. simpl.
    destruct s, p; simpl; by rewrite difference_empty_L, (left_id_L ∅ (∪)).
  - cbn [foldl]. etransitivity; [apply (IH (set_instructions ({[x]} ∪ instructions s) s) (set_instructions (instructions p ∖ {[x]}) p))|].
    unfold set_instructions. simpl.
    by rewrite difference_difference_l_L, (assoc_L (∪) (list_to_set xs)), (comm_L (∪) (list_to_set xs) {[x]}).
Qed.

Lemma elem_of_moveToSeqInsts pdg p x : x ∈ moveToSeqInsts pdg p →
  x ∈ instructions p ∧ ∃ e, e ∈ pdg_edges pdg ∧ reg_carried e = true ∧ incomingT e = x.
Proof.
  unfold moveToSeqInsts. intros (y & (e & -> & [Hr He]%list_elem_of_filter)%list_elem_of_fmap & Hy)%list_elem_of_bind.
  apply elem_of_in_order in Hy. apply list_elem_of_filter in He as [Hi He]. eauto.
Qed.

(** Stages whose first takes over the instructions of the parallel one with a
    loop-carried register dependence. *)
Inductive rearranged (pdg : PDG) : list PipelineStage → list PipelineStage → Prop :=
  | re_same l : rearranged pdg l l
  | re_move s p t (X : gset Instruction) : type s = Sequential →
      (∀ x, x ∈ X → x ∈ instructions p ∧ ∃ e, e ∈ pdg_edges pdg ∧ reg_carried e = true ∧ incomingT e = x) →
      rearranged pdg (s :: p :: t) (set_instructions (X ∪ instructions s) s :: set_instructions (instructions p ∖ X) p :: t).

(** Stages without prefixes, and what the conversion of a light first stage makes of
    them. *)
Inductive adjusted : list PipelineStage → list PipelineStage → Prop :=
  | adj_same l : adjusted l l
  | adj_prefix s p t factor : adjusted (s :: p :: t) (set_parallel_factor factor (set_replicated (instructions s) p) :: t).

Lemma convert_adjusted mw w s p t : replicated p = ∅ → adjusted (s :: p :: t) (convertRepLightFirstSeqToRepPrefix mw w 0 1 (s :: p :: t)).
Proof.
  intros Hp. unfold convertRepLightFirstSeqToRepPrefix. cbn [lookup list_lookup]. destruct (light_loop _ _ _ _); [|apply adj_same].
  cbv zeta. destruct (prefix_fold (in_order (instructions s)) s p t) as [s' ->]. cbn [drop alter list_alter].
  rewrite in_order_set, Hp, (right_id_L ∅ (∪)). apply adj_prefix.
Qed.

Lemma adjust_groups `{Noelle} mw w pdg B M A factor : ∃ l1, rearranged pdg (groups_pipeline B M A factor) l1 ∧
  adjusted l1 (adjustPipeline mw w pdg (groups_pipeline B M A factor)).
Proof.
  unfold groups_pipeline. destruct B as [|b B].
  { eexists. split; [apply re_same|]. destruct A; apply adj_same. }
  cbn [sequential_stage app]. set (s := stage_of_sccs Sequential (b :: B)). set (p := set_parallel_factor factor _). set (t := sequential_stage A).
  unfold adjustPipeline. assert (∃ c, characterizeStages (s :: p :: t) = MkChar (Some 0%nat) (Some 1%nat) c) as [c ->] by (destruct A; by eexists).
  cbn [parallelStage firstStage]. unfold is_sequential. cbn [lookup list_lookup]. rewrite bool_decide_eq_true_2 by done.
  unfold adjustForRegLCFromSeqToPar. cbn [lookup list_lookup]. rewrite move_fold. eexists.
  split; [by apply re_move; [done|]; intros x Hx%elem_of_list_to_set; apply elem_of_moveToSeqInsts|by apply convert_adjusted].
Qed.

(** Moving instructions to the first stage. *)
Section Rearranged.
Context (pdg : PDG) (l l1 : list PipelineStage) (Hre : rearranged pdg l l1) (Hrep : ∀ s, s ∈ l → replicated s = ∅).

Lemma rearranged_no_prefix s : s ∈ l1 → replicated s = ∅.
Proof.
  destruct Hre as [|u p t X Hseq HX]; [apply Hrep|].
  intros [->|[->|Hs]%elem_of_cons]%elem_of_cons; [apply (Hrep u); by left|apply (Hrep p); right; by left|apply Hrep; by do 2 right].
Qed.

(** Only the first stage gains instructions, and these have such a dependence. *)
Lemma rearranged_origin i s1 : l1 !! i = Some s1 → ∃ s, l !! i = Some s ∧ type s1 = type s ∧
  ∀ x, x ∈ instructions s1 → x ∈ instructions s ∨
    i = 0%nat ∧ type s = Sequential ∧ ∃ e, e ∈ pdg_edges pdg ∧ reg_carried e = true ∧ incomingT e = x.
Proof.
  destruct Hre as [|s p t X Hseq HX]; intros Hs; [exists s1; auto|].
  destruct i as [|[|i]]; simpl in Hs; [injection Hs as <-; exists s|injection Hs as <-; exists p|exists s1; by auto];
    (split; [done|]); (split; [done|]); intros x Hx; simpl in Hx; [|left; set_solver].
  apply elem_of_union in Hx as [Hx|Hx]; [|by left]. right. do 2 (split; [done|]). by apply HX.
Qed.

Lemma rearranged_against e : against l1 e →
  against l e ∨ ∃ e0, e0 ∈ pdg_edges pdg ∧ reg_carried e0 = true ∧ incomingT e0 = incomingT e.
Proof.
  assert (∀ i s1 x, l1 !! i = Some s1 → x ∈ all_insts s1 → x ∈ instructions s1) as Hall.
  { intros i s1 x Hs. by rewrite no_prefix by (apply rearranged_no_prefix; by eapply list_elem_of_lookup_2). }
  assert (∀ s x, x ∈ instructions s → x ∈ all_insts s) as Hin by (intros s x Hx; apply elem_of_union; by left).
  intros [(i & j & s1 & t1 & Hij & Hs & Ht & Ho & Hi)|(Hc & s1 & [i Hs]%list_elem_of_lookup & Hty & Ho & Hi)].
  - destruct (rearranged_origin _ _ Hs) as (s & Hs0 & _ & Hx), (rearranged_origin _ _ Ht) as (t & Ht0 & _ & Hy).
    destruct (Hx _ (Hall _ _ _ Hs Hi)) as [Hi0|(_ & _ & He0)]; [|by right].
    destruct (Hy _ (Hall _ _ _ Ht Ho)) as [Ho0|(-> & _)]; [|lia]. left. left. exists i, j, s, t. split_and!; auto.
  - destruct (rearranged_origin _ _ Hs) as (s & Hs0 & Ety & Hx). rewrite Ety in Hty.
    destruct (Hx _ (Hall _ _ _ Hs Hi)) as [Hi0|(_ & E & _)]; [|by rewrite E in Hty].
    destruct (Hx _ Ho) as [Ho0|(_ & E & _)]; [|by rewrite E in Hty].
    left. right. split; [done|]. exists s. split; [by eapply list_elem_of_lookup_2|]. auto.
Qed.

Lemma rearranged_partition : partition l → partition l1 ∧ ∀ x, in_pipeline x l1 ↔ in_pipeline x l.
Proof.
  intros Hp. pose proof rearranged_no_prefix as Hn. destruct Hre as [|s p t X Hseq HX]; [done|].
  set (s1 := set_instructions _ s) in *. set (p1 := set_instructions _ p) in *.
  assert (∀ x, x ∈ X → x ∉ instructions s ∧ ∀ k u, t !! k = Some u → x ∉ instructions u) as Hdis.
  { intros x Hx. destruct (HX x Hx) as [Hxp _]. split; [intros Hs; by destruct (Hp 1%nat 0%nat p s x eq_refl eq_refl Hxp) as [E _]; specialize (E Hs)|].
    intros k u Hu Hxu. destruct (Hp 1%nat (S (S k)) p u x eq_refl Hu Hxp) as [E _]. by specialize (E Hxu). }
  split.
  - assert (∀ x k u, (s1 :: p1 :: t) !! k = Some u → x ∈ instructions u →
      x ∈ X ∧ k = 0%nat ∨ x ∉ X ∧ ∃ u0, (s :: p :: t) !! k = Some u0 ∧ x ∈ instructions u0) as Hlk.
    { intros x [|[|k]] u Hu Hx; simpl in Hu; [injection Hu as <-|injection Hu as <-|]; simpl in Hx.
      - destruct (decide (x ∈ X)); [by left|right]. split; [done|]. exists s. split; [done|set_solver].
      - right. split; [set_solver|]. exists p. split; [done|set_solver].
      - right. split; [intros HxX; by destruct (Hdis x HxX) as [_ D]; destruct (D k u Hu)|by exists u]. }
    intros i j u v x Hu Hv Hx. split; [|rewrite (Hn v) by (by eapply list_elem_of_lookup_2); apply not_elem_of_empty].
    intros Hxv. destruct (Hlk x i u Hu Hx) as [[HX1 ->]|[HX1 (u0 & Hu0 & Hx0)]], (Hlk x j v Hv Hxv) as [[HX2 ->]|[HX2 (v0 & Hv0 & Hxv0)]]; try done.
    by apply (Hp i j u0 v0 x).
  - assert (∀ k u, (s :: p :: t) !! k = Some u → replicated u = ∅) as Hr by (intros k u Hu; apply Hrep; by eapply list_elem_of_lookup_2).
    pose proof (Hr 0%nat s eq_refl) as Es. pose proof (Hr 1%nat p eq_refl) as Ep.
    intros x. unfold in_pipeline. setoid_rewrite elem_of_cons. setoid_rewrite elem_of_cons. split.
    + intros (u & [->|[->|Hu]] & Hx); [| |by exists u; auto]; simpl in Hx; rewrite ?Es, ?Ep in Hx.
      * destruct (decide (x ∈ X)) as [HxX|]; [exists p; split; [auto|left; by apply HX]|exists s; split; [auto|set_solver]].
      * exists p. split; [auto|set_solver].
    + intros (u & [->|[->|Hu]] & Hx); [exists s1| |by exists u; auto].
      * split; [auto|]. simpl. set_solver.
      * destruct (decide (x ∈ X)); [exists s1|exists p1]; (split; [auto|]); simpl; set_solver.
Qed.
End Rearranged.

Section Adjusted.
Context (l l' : list PipelineStage) (Hadj : adjusted l l') (Hrep : ∀ s, s ∈ l → replicated s = ∅).

(** Where the instructions of an adjusted stage come from: [d] is 1 if the first
    stage was removed. *)
Lemma adjusted_origin : ∃ d, ∀ i s', l' !! i = Some s' → ∃ s, l !! (d + i)%nat = Some s ∧ type s' = type s ∧ instructions s' = instructions s ∧
  ∀ x, x ∈ all_insts s' → ∃ k u, (k ≤ d + i)%nat ∧ l !! k = Some u ∧ x ∈ instructions u ∧ (x ∉ instructions s' → i = 0%nat ∧ k = 0%nat).
Proof.
  destruct Hadj as [|s p t factor].
  - exists 0%nat. intros i s' Hs. exists s'. do 3 (split; [done|]). intros x Hx. rewrite no_prefix in Hx by (apply Hrep; by eapply list_elem_of_lookup_2).
    exists i, s'. split; [lia|]. done.
  - exists 1%nat. intros [|i] s' Hs; simpl in Hs.
    + injection Hs as <-. exists p. do 3 (split; [done|]). intros x [Hx|Hx]%elem_of_union; [exists 1%nat, p|exists 0%nat, s]; (split; [lia|done]).
    + exists s'. do 3 (split; [done|]). assert (all_insts s' = instructions s') as Ha by (apply no_prefix, Hrep; do 2 right; by eapply list_elem_of_lookup_2).
      intros x Hx. rewrite Ha in Hx. exists (1 + S i)%nat, s'. split; [lia|]. done.
Qed.

Lemma adjusted_partition : partition l → partition l' ∧ ∀ x, in_pipeline x l' ↔ in_pipeline x l.
Proof.
  intros Hp. destruct Hadj as [|s p t factor]; [done|]. split.
  - intros i j u v x Hu Hv Hx. set (l0 := s :: p :: t) in *.
    assert (∀ k w, (set_parallel_factor factor (set_replicated (instructions s) p) :: t) !! k = Some w →
      ∃ w0, l0 !! S k = Some w0 ∧ instructions w = instructions w0 ∧ (x ∈ replicated w → x ∈ instructions s ∨ x ∈ replicated w0)) as Hl.
    { intros [|k] w Hw; simpl in Hw; [injection Hw as <-; exists p; simpl; tauto|]. exists w. simpl. tauto. }
    destruct (Hl i u Hu) as (u0 & Hu0 & Eu & _), (Hl j v Hv) as (v0 & Hv0 & Ev & Hr). rewrite Eu in Hx.
    destruct (Hp (S i) (S j) u0 v0 x Hu0 Hv0 Hx) as [P1 P2]. rewrite Ev. split; [intros Hx'; specialize (P1 Hx'); lia|].
    intros [Hs|Hs]%Hr; [|done]. destruct (Hp (S i) 0%nat u0 s x Hu0 eq_refl Hx) as [P3 _]. by specialize (P3 Hs).
  - intros x. split.
    + intros (u & [->|Hu]%elem_of_cons & Hx); [simpl in Hx|exists u; split; [by do 2 right|done]].
      destruct Hx; [exists p; split; [right; by left|by left]|exists s; split; [by left|by left]].
    + assert (replicated s = ∅ ∧ replicated p = ∅) as [Es Ep] by (split; apply Hrep; [by left|right; by left]).
      intros (u & [->|[->|Hu]%elem_of_cons]%elem_of_cons & Hx); [| |exists u; split; [by right|done]];
        eexists; (split; [by left|]); simpl; rewrite ?Es, ?Ep, ?elem_of_empty in Hx; tauto.
Qed.

Lemma adjusted_against e : against l' e → against l e.
Proof.
  assert (∀ s x, x ∈ instructions s → x ∈ all_insts s) as Hin by (intros s x Hx; apply elem_of_union; by left).
  destruct adjusted_origin as [d Ho]. intros [(i & j & s & t & Hij & Hs & Ht & Hout & Hinc)|(Hc & s & [i Hs]%list_elem_of_lookup & Hty & Hout & Hinc)].
  - destruct (Ho i s Hs) as (s0 & _ & _ & _ & Hx), (Ho j t Ht) as (t0 & Ht0 & _ & Et & Hy).
    destruct (Hx _ Hinc) as (k & u & Hk & Hu & Hiu & _), (Hy _ Hout) as (k' & u' & Hk' & Hu' & Hou & Hlast).
    destruct (decide (outgoingT e ∈ instructions t)) as [Hin'|Hn]; [|destruct (Hlast Hn); lia].
    rewrite Et in Hin'. left. exists k, (d + j)%nat, u, t0. split; [lia|]. auto.
  - destruct (Ho i s Hs) as (s0 & Hs0 & Ety & Es & Hx). rewrite Es in Hout. destruct (Hx _ Hinc) as (k & u & Hk & Hu & Hiu & _).
    destruct (decide (k = d + i)%nat) as [->|Hne].
    + rewrite Hs0 in Hu. injection Hu as <-. right. split; [done|]. exists s0. split; [by eapply list_elem_of_lookup_2|].
      split; [by rewrite <-Ety|]. auto.
    + left. exists k, (d + i)%nat, u, s0. split; [lia|]. auto.
Qed.
End Adjusted.

(** A pipeline without prefixes respects the dependences that it was built for. *)
Lemma pipelined_against deps l e : pipelined deps l → (∀ s, s ∈ l → replicated s = ∅) → e ∈ deps → ¬ against l e.
Proof.
  intros Hpipe Hrep He. assert (∀ i s x, l !! i = Some s → x ∈ all_insts s → x ∈ instructions s) as Hall
    by (intros i s x Hs; by rewrite no_prefix by (apply Hrep; by eapply list_elem_of_lookup_2)).
  intros [(i & j & s & t & Hij & Hs & Ht & Hout & Hinc)|(Hc & s & [i Hs]%list_elem_of_lookup & Hty & Hout & Hinc)].
  - destruct (Hpipe e j i t s He Ht Hs) as [Hle _]; [by eapply Hall|by eapply Hall|lia].
  - destruct (Hpipe e i i s s He Hs Hs) as [_ Hlc]; [done|by eapply Hall|]. by apply Hlc.
Qed.

(** ** The critic *)

Lemma speedup_run ps loop : no_replicable (stages ps) → ∃ v, getExpPipelineSpeedup ps loop = Some v.
Proof.
  intros Hn. unfold getExpPipelineSpeedup, estimate_pipeline_weight_loop, max_stage_weight. generalize (of_int 0) at 1.
  induction (stages ps) as [|s l IH]; intros d; cbn [foldl mbind option_bind]; [by eexists|].
  rewrite (Hn s) by by left. apply IH. intros t Ht. apply Hn. by right.
Qed.

(** Dependences that cannot be removed are kept. *)
Lemma simplify_keeps (HL : SubgraphLaws) pdg e : e ∈ pdg_edges pdg → outgoingT e ∈ internalNodes pdg → incomingT e ∈ internalNodes pdg →
  isRemovableDependence e = false → e ∈ pdg_edges (simplifyPDG pdg).
Proof.
  intros He Ho Hi Hr. cbn. apply list_elem_of_omap. exists e. split; [|unfold simplify_edge; by rewrite Hr].
  apply sl_edges. rewrite elem_of_nil. tauto.
Qed.

(** What the critic gets: the components of the simplified graph have the
    instructions of the loop. *)
Record critic_input (dag : SCCDAG) (ordered : @SCC (dag_noelle dag) → @SCC (dag_noelle dag) → Prop) (pdg : PDG) (loop : Loop) : Prop := {
  ci_laws : NoelleLaws (H := dag_noelle dag) (dag_sccs dag) (pdg_edges (simplifyPDG pdg)) ordered;
  ci_fit : estimates_fit (H := dag_noelle dag) (scc_weight (H := dag_noelle dag)) (dag_sccs dag);
  ci_nodes : ∀ x, x ∈ internalNodes pdg ↔ x ∈ loop_insts (loop_ir loop);
  ci_sccs : ∀ x, (∃ a, a ∈ dag_sccs dag ∧ x ∈ internalNodePairs (Noelle := dag_noelle dag) a) ↔ x ∈ loop_insts (loop_ir loop);
  ci_header : loop_header (loop_ir loop) ≠ 0 }.

(** Stages with the instructions of the loop pass all other checks. *)
Lemma finish_plan_total pdg loop l : no_replicable l → partition l → (∀ x, in_pipeline x l ↔ x ∈ loop_insts (loop_ir loop)) →
  loop_header (loop_ir loop) ≠ 0 →
  match populateCriticisms l pdg with
  | Some cs => ∃ res ps, finish_plan pdg loop l = Some res ∧ res_ps res = Some ps ∧ stages ps = l ∧ criticisms res = cs
  | None => finish_plan pdg loop l = None
  end.
Proof.
  intros Hn Hp Hin Hh. unfold finish_plan. destruct (populateCriticisms l pdg) as [cs|]; [|done].
  cbn [mbind option_bind]. rewrite consistent_run by done. cbn [mbind option_bind].
  assert (stages (setValidFor (loop_header (loop_ir loop)) (set_stages l new_plan)) = l) as -> by done.
  rewrite expand_no_replicable by done. cbn [mbind option_bind].
  match goal with |- context [populateCrossStageDependences cs pdg ?p] => set (ps := p) end.
  destruct (speedup_run (populateCrossStageDependences cs pdg ps) loop) as [v ->]; [by rewrite populate_cross_stages|].
  cbn [mbind option_bind]. eexists _, _. split; [done|]. cbn [res_ps criticisms]. split; [done|]. by rewrite populate_cross_stages.
Qed.

Lemma groups_no_prefix `{Noelle} B M A factor s : s ∈ groups_pipeline B M A factor → replicated s = ∅.
Proof. intros [i Hs]%list_elem_of_lookup. by destruct (groups_lookup _ _ _ _ _ _ Hs). Qed.

(** The adjusted pipeline of the critic. *)
Lemma adjusted_stages (HL : SubgraphLaws) `{Noelle} mw w pdg B M A factor :
  let l := groups_pipeline B M A factor in
  let l' := adjustPipeline mw w pdg l in
  partition l → pipelined (pdg_edges (simplifyPDG pdg)) l → (∀ x, in_pipeline x l → x ∈ internalNodes pdg) →
  partition l' ∧ (∀ x, in_pipeline x l' ↔ in_pipeline x l) ∧
  ∀ e, e ∈ pdg_edges pdg → isRemovableDependence e = false → against l' e →
    ∃ e0, e0 ∈ pdg_edges pdg ∧ reg_carried e0 = true ∧ incomingT e0 = incomingT e.
Proof.
  intros l l' Hp Hpipe Hin. assert (∀ s, s ∈ l → replicated s = ∅) as Hrep by apply groups_no_prefix.
  destruct (adjust_groups mw w pdg B M A factor) as (l1 & Hre & Hadj). fold l in Hre, Hadj. fold l' in Hadj.
  pose proof (rearranged_no_prefix pdg l l1 Hre Hrep) as Hrep1. destruct (rearranged_partition pdg l l1 Hre Hrep Hp) as [Hp1 Hc1].
  destruct (adjusted_partition l1 l' Hadj Hrep1 Hp1) as [Hp2 Hc2]. assert (∀ x, in_pipeline x l' ↔ in_pipeline x l) as Hc by (intros x; by rewrite Hc2).
  split; [done|]. split; [done|]. intros e He Hr Ha.
  destruct (rearranged_against pdg l l1 Hre Hrep e (adjusted_against l1 l' Hadj Hrep1 e Ha)) as [Hal|He0]; [|done].
  destruct (pipelined_against _ _ e Hpipe Hrep); [|done].
  assert (∀ x i s, l !! i = Some s → x ∈ all_insts s → x ∈ internalNodes pdg) as Hint.
  { intros x i s Hs Hx. apply Hin. exists s. split; [by eapply list_elem_of_lookup_2|]. by apply elem_of_union in Hx. }
  apply simplify_keeps; try done;
    destruct Hal as [(i & j & s & t & _ & Hs & Ht & Ho & Hi)|(_ & s & [i Hs]%list_elem_of_lookup & _ & Ho & Hi)];
    [by apply (Hint _ j t)| |by apply (Hint _ i s)|by apply (Hint _ i s)].
  apply (Hint _ i s); [done|]. apply elem_of_union. by left.
Qed.

(** [C8] The PS-DSWP critic always returns or fails one assertion.  When it returns a
    plan, every instruction of the loop is in exactly one stage or prefix, and the
    dependences that run against the pipeline are exactly its criticisms, and all of
    them can be removed.  It fails only when a dependence that cannot be removed runs
    against the adjusted pipeline, and then the target of this dependence also has a
    loop-carried register dependence, because of which it moved to the first stage. *)
Theorem psdswp_critic_correct (HL : SubgraphLaws) new_SCCDAG pdg loop threadBudget ordered :
  critic_input (new_SCCDAG (simplifyPDG pdg)) ordered pdg loop → 0 < threadBudget < 2 ^ 32 →
  match psdswp_getCriticisms new_SCCDAG pdg loop threadBudget with
  | Done res => ∀ ps, res_ps res = Some ps →
      partition (stages ps) ∧ (∀ x, in_pipeline x (stages ps) ↔ x ∈ loop_insts (loop_ir loop)) ∧
      ∀ e, (e ∈ criticisms res ↔ e ∈ pdg_edges pdg ∧ against (stages ps) e) ∧ (e ∈ criticisms res → isRemovableDependence e = true)
  | Failed why => why = AssertFail ∧
      ∃ l e e0, doallAndPipeline (H := dag_noelle (new_SCCDAG (simplifyPDG pdg))) (scc_weight (H := dag_noelle (new_SCCDAG (simplifyPDG pdg))))
          (dag_sccs (new_SCCDAG (simplifyPDG pdg))) threadBudget true = Done (true, l) ∧
        e ∈ pdg_edges pdg ∧ isRemovableDependence e = false ∧
        against (adjustPipeline (mayWriteToMemory (Noelle := dag_noelle (new_SCCDAG (simplifyPDG pdg)))) (getParalleStageWeight l) pdg l) e ∧
        e0 ∈ pdg_edges pdg ∧ reg_carried e0 = true ∧ incomingT e0 = incomingT e
  end.
Proof.
  intros [Hlaws Hfit Hnodes Hsccs Hh] Hb. unfold psdswp_getCriticisms. set (dag := new_SCCDAG (simplifyPDG pdg)) in *. cbv zeta.
  destruct (doallAndPipeline_run (H := dag_noelle dag) _ _ _ _ _ Hlaws Hfit Hb) as ([|] & l & E & Hf); rewrite E; [|done].
  destruct (Hf eq_refl) as [[(B & M & A & factor & Hl) Hp Hc Hpipe] _]. set (l' := adjustPipeline _ _ _ _).
  destruct (adjusted_stages HL (H := dag_noelle dag) (mayWriteToMemory (Noelle := dag_noelle dag)) (getParalleStageWeight l) pdg B M A factor) as (Hp' & Hc' & Hag);
    rewrite <-?Hl; [done|done|by intros x Hx%Hc%Hsccs%Hnodes|]. rewrite <-Hl in Hp', Hc', Hag. fold l' in Hp', Hc', Hag.
  assert (∀ x, in_pipeline x l' ↔ x ∈ loop_insts (loop_ir loop)) as Hin by (intros x; rewrite Hc', Hc; apply Hsccs).
  pose proof (populate_exact l' pdg) as Hex. pose proof (finish_plan_total pdg loop l') as Hfin.
  destruct (populateCriticisms l' pdg) as [cs|].
  - destruct Hfin as (res & ps & -> & Eps & Est & Ecs); try done.
    { apply (types_no_replicable l); [apply adjust_types|by eapply doall_no_replicable]. }
    rewrite Eps. intros ? [= <-]. rewrite Est, Ecs. done.
  - rewrite Hfin; try done; [|apply (types_no_replicable l); [apply adjust_types|by eapply doall_no_replicable]].
    split; [done|]. destruct Hex as (e & He & Ha & Hr). destruct (Hag e He Hr Ha) as (e0 & H0). by exists l, e, e0.
Qed.

(** Whatever the graph, a plan comes with all the dependences that it does not
    respect. *)
Theorem psdswp_respects new_SCCDAG pdg loop threadBudget res ps :
  psdswp_getCriticisms new_SCCDAG pdg loop threadBudget = Done res → res_ps res = Some ps →
  ∀ e, e ∈ pdg_edges pdg → against (stages ps) e → e ∈ criticisms res ∧ isRemovableDependence e = true.
Proof.
  unfold psdswp_getCriticisms. set (dag := new_SCCDAG (simplifyPDG pdg)). cbv zeta.
  destruct (doallAndPipeline _ _ _ _) as [[[|] l]|] eqn:E; [|by intros [= <-]|done].
  destruct (finish_plan _ _ _) as [r|] eqn:Ef; [|done]. intros [= <-] Eps e He Ha.
  apply finish_plan_run in Ef as (ps' & Eps' & Hsh & Hpop).
  2:{ apply (types_no_replicable l); [apply adjust_types|by eapply doall_no_replicable]. }
  rewrite Eps in Eps'. injection Eps' as <-. match type of Hsh with shrunk ?k _ => pose proof (populate_exact k pdg) as Hex end.
  rewrite Hpop in Hex. destruct (Hex e) as [H1 H2]. assert (e ∈ criticisms r) as Hin by (apply H1; split; [done|by eapply against_shrunk]). auto.
Qed.
End PsDswp.

(** ** A small loop *)

Definition demo_remedies : Remedies := {|
  DEFAULT_REDUX_REMED_COST := 50;
  EXPENSIVE_CTRL_REMED_COST := 90;
  totalRemedCost l := sumZ cost l;
  isTerminator _ := false |}.

(** The dependences of [demo_deps] and one that can be removed, from the last stage
    back to the parallel one. *)
Definition speculated : DGEdge Instruction := MkEdge 30 10 true false true true true [[MkRemedy 1 1 5]].
Definition critic_pdg : PDG := MkPDG (speculated :: demo_deps) (seqZ 0 40).
Definition critic_loop : Loop := MkLoopInfo (MkLoop 99 (seqZ 0 40) (λ _, OtherBlock)) [seqZ 0 40] 1.
Definition critic_dag (n : Z) (pdg : PDG) : SCCDAG := MkDag (demo_noelle (pdg_edges pdg)) (seqZ 0 n).

Lemma demo_input : critic_input (HRm := demo_remedies) (HSub := filter_subgraphs) (HPe := FlatPerformanceEstimator)
  (critic_dag 4 (simplifyPDG (HRm := demo_remedies) (HSub := filter_subgraphs) critic_pdg)) Z.lt critic_pdg critic_loop.
Proof.
  assert (pdg_edges (simplifyPDG (HRm := demo_remedies) (HSub := filter_subgraphs) critic_pdg) = demo_deps) as E by by vm_compute.
  constructor; unfold critic_dag; cbn [dag_noelle dag_sccs]; rewrite ?E.
  - apply demo_laws; [lia|]. by repeat constructor.
  - split; [intros x _; apply wrap_range; lia|]. by vm_compute.
  - done.
  - setoid_rewrite demo_internal. intros x. cbn [loop_insts loop_ir critic_loop]. rewrite elem_of_seqZ. split.
    + intros (a & Ha%elem_of_seqZ & <-). pose proof (Z.div_mod x 10). pose proof (Z.mod_pos_bound x 10). lia.
    + intros Hx. exists (x / 10). rewrite elem_of_seqZ. pose proof (Z.div_mod x 10). pose proof (Z.mod_pos_bound x 10). split; [lia|done].
  - done.
Qed.

Lemma psdswp_critic_correct_witness :
  match psdswp_getCriticisms (HRm := demo_remedies) (HSub := filter_subgraphs) (HPe := FlatPerformanceEstimator)
    (critic_dag 4) critic_pdg critic_loop 8 with
  | Done res => ∀ ps, res_ps res = Some ps →
      partition (stages ps) ∧ (∀ x, in_pipeline x (stages ps) ↔ x ∈ seqZ 0 40) ∧
      ∀ e, (e ∈ criticisms res ↔ e ∈ pdg_edges critic_pdg ∧ against (stages ps) e) ∧ (e ∈ criticisms res → isRemovableDependence e = true)
  | Failed _ => False
  end.
Proof.
  pose proof (psdswp_critic_correct (HRm := demo_remedies) (HSub := filter_subgraphs) (HPe := FlatPerformanceEstimator)
    filter_subgraphs_laws (critic_dag 4) critic_pdg critic_loop 8 Z.lt demo_input ltac:(lia)) as H.
  destruct (psdswp_getCriticisms _ _ _ _) as [res|why] eqn:E; [exact H|]. by vm_compute in E.
Defined.

(** The plan of the example has three stages and one criticism. *)
Example critic_example :
  match psdswp_getCriticisms (HRm := demo_remedies) (HSub := filter_subgraphs) (HPe := FlatPerformanceEstimator)
    (critic_dag 4) critic_pdg critic_loop 8 with
  | Done res => Some (criticisms res, (λ ps, type <$> stages ps) <$> res_ps res)
  | Failed _ => None
  end = Some ([speculated], Some [Sequential; Parallel; Sequential]).
Proof. by vm_compute. Qed.

(** ** Register dependences

    An instruction with a loop-carried register dependence moves from the parallel
    stage to the first one, but what it depends on within the iteration stays: the
    new dependence against the pipeline cannot be removed, and the critic fails. *)
Definition register_dep : DGEdge Instruction := MkEdge 0 11 true false false true false [].
Definition register_pdg : PDG := MkPDG [dep 0 1 false; dep 1 0 true; dep 1 10 false; dep 10 11 false; register_dep] (seqZ 0 20).
Definition register_loop : Loop := MkLoopInfo (MkLoop 99 (seqZ 0 20) (λ _, OtherBlock)) [seqZ 0 20] 1.

Theorem register_move_fails :
  psdswp_getCriticisms (HRm := demo_remedies) (HSub := filter_subgraphs) (HPe := FlatPerformanceEstimator)
    (critic_dag 2) register_pdg register_loop 8 = Failed AssertFail ∧
  reg_carried register_dep = true.
Proof. split; by vm_compute. Qed.
