(* ===== verification/Orchestrator.v ===== *)
(** Choosing a plan for a loop: [lib/Orchestration/Orchestrator.cpp].

    Every critic proposes a plan.  The orchestrator takes the cheapest remedies for
    its criticisms, and keeps the plan that saves most after their cost. *)
From S2P Require Import Prelude Machine MinCut Pipeline Partition Estimate Critic Dswp PsDswp.
#[local] Open Scope Z_scope.

(** ** Operations *)

(** The selected remedies, their cost, and how often each kind was selected. *)
Record selection := MkSel { selectedRemedies : list Remedy; selectedRemediesCost : Z; remediatorSelectionCnt : gmap Z Z }.

Definition select_remedy (s : selection) (r : Remedy) : selection :=
  if decide (r ∈ selectedRemedies s) then s
  else MkSel (selectedRemedies s ++ [r]) (u64 (selectedRemediesCost s + cost r)) (remediatorSelectionCnt s).
Definition count_remedy (s : selection) (r : Remedy) : selection :=
  MkSel (selectedRemedies s) (selectedRemediesCost s)
    (match remediatorSelectionCnt s !! remedy_name r with
     | Some n => <[remedy_name r := u32 (n + 1)]> (remediatorSelectionCnt s)
     | None => <[remedy_name r := 1]> (remediatorSelectionCnt s)
     end).

(** [None] when a criticism has no remedies. *)
Definition address_one (s : option selection) (cr : DGEdge Instruction) : option selection :=
  s ← s;
  match getRemedies cr with
  | [] => None
  | cheapestR :: _ => Some (foldl count_remedy (foldl select_remedy s cheapestR) cheapestR)
  end.
Definition addressCriticisms (s : selection) (criticisms : Criticisms) : option selection :=
  foldl address_one (Some s) criticisms.

Record Strategy := MkStrat {
  pipelineStrategy : PipelineStrategy;
  strat_expSpeedup : Z;
  savings : Z;
  strat_remedies : list Remedy;
  strat_critic : nat }.

(** A critic, as the orchestrator calls it. *)
Abbreviation critic_fn := (PDG → Loop → outcome CriticRes) (only parsing).

(** One round: [maxSavings], the best strategy, and the counts, which are a member
    of the orchestrator. *)
Record best := MkBest { maxSavings : Z; strategy : option Strategy; counts_so_far : gmap Z Z }.

Definition consider (IgnoreCost : bool) (k : nat) (res : CriticRes) (b : best) : option best :=
  if expSpeedup res =? 0 then Some b
  else
    sel ← (match criticisms res with
           | [] => Some (MkSel [] 0 (counts_so_far b))
           | cs => addressCriticisms (MkSel [] 0 (counts_so_far b)) cs
           end);
    let adjRemedCosts := if IgnoreCost : bool then 0 else u64 (FixedPoint * selectedRemediesCost sel) in
    let b := MkBest (maxSavings b) (strategy b) (remediatorSelectionCnt sel) in
    if adjRemedCosts <? expSpeedup res then
      let savings := u64 (expSpeedup res - adjRemedCosts) in
      if maxSavings b <? savings then
        match res_ps res with
        | None => None
        | Some ps =>
            Some (MkBest savings (Some (MkStrat ps (expSpeedup res) savings (selectedRemedies sel) k)) (counts_so_far b))
        end
      else Some b
    else Some b.

(** The critics in order; [k] is the number of the next one. *)
Fixpoint try_critics (IgnoreCost : bool) (pdg : PDG) (loop : Loop) (critics : list critic_fn) (k : nat) (b : best) : outcome best :=
  match critics with
  | [] => Done b
  | critic :: critics' =>
      match critic pdg loop with
      | Failed why => Failed why
      | Done res =>
          match consider IgnoreCost k res b with
          | None => Failed Fault
          | Some b => try_critics IgnoreCost pdg loop critics' (S k) b
          end
      end
  end.
Definition findBestStrategy (IgnoreCost : bool) (pdg : PDG) (loop : Loop) (critics : list critic_fn) (cnt : gmap Z Z) :
    outcome best :=
  try_critics IgnoreCost pdg loop critics 0 (MkBest 0 None cnt).

(** The other overload, which [Selector.cpp] calls: it does not compare the speedup
    with the cost.  Its result is whether a strategy was found. *)
Definition consider_any (IgnoreCost : bool) (k : nat) (res : CriticRes) (b : best) : option best :=
  if expSpeedup res =? 0 then Some b
  else
    sel ← (match criticisms res with
           | [] => Some (MkSel [] 0 (counts_so_far b))
           | cs => addressCriticisms (MkSel [] 0 (counts_so_far b)) cs
           end);
    let adjRemedCosts := if IgnoreCost : bool then 0 else u64 (FixedPoint * selectedRemediesCost sel) in
    let savings := u64 (expSpeedup res - adjRemedCosts) in
    if (maxSavings b =? 0) || (maxSavings b <? savings) then
      Some (MkBest savings ((λ ps, MkStrat ps (expSpeedup res) savings (selectedRemedies sel) k) <$> res_ps res) (remediatorSelectionCnt sel))
    else Some (MkBest (maxSavings b) (strategy b) (remediatorSelectionCnt sel)).
Fixpoint try_critics_any (IgnoreCost : bool) (pdg : PDG) (loop : Loop) (critics : list critic_fn) (k : nat) (b : best) : outcome best :=
  match critics with
  | [] => Done b
  | critic :: critics' =>
      match critic pdg loop with
      | Failed why => Failed why
      | Done res =>
          match consider_any IgnoreCost k res b with
          | None => Failed Fault
          | Some b => try_critics_any IgnoreCost pdg loop critics' (S k) b
          end
      end
  end.
Definition findBestStrategy_any (IgnoreCost : bool) (pdg : PDG) (loop : Loop) (critics : list critic_fn) (cnt : gmap Z Z) :
    outcome (bool * option Strategy) :=
  match try_critics_any IgnoreCost pdg loop critics 0 (MkBest 0 None cnt) with
  | Done b => Done (negb (maxSavings b =? 0), strategy b)
  | Failed why => Failed why
  end.

(** ** The selected remedies *)

Definition cheapest (cr : DGEdge Instruction) : list Remedy := default [] (head (getRemedies cr)).
(** The remedies of all criticisms, each once, and their cost. *)
Definition remedies_of (cs : Criticisms) : list Remedy := remove_dups (cs ≫= cheapest).
Definition remedies_cost (cs : Criticisms) : Z := sumZ cost (remedies_of cs).

Record selected (rs : list Remedy) (s : selection) : Prop := {
  sd_nodup : NoDup (selectedRemedies s);
  sd_elem : ∀ r, r ∈ selectedRemedies s ↔ r ∈ rs;
  sd_cost : selectedRemediesCost s = u64 (sumZ cost (selectedRemedies s)) }.

Lemma select_selected rs s r : selected rs s → selected (rs ++ [r]) (select_remedy s r).
Proof.
  intros [Hn He Hc]. unfold select_remedy. case_decide as Hd.
  - constructor; [done| |done]. intros x. rewrite elem_of_app, list_elem_of_singleton, <-He. split; [by left|]. intros [?| ->]; done.
  - constructor; cbn [selectedRemedies selectedRemediesCost].
    + apply NoDup_app. split; [done|]. split; [by intros x Hx ->%list_elem_of_singleton|apply NoDup_singleton].
    + intros x. by rewrite !elem_of_app, He.
    + rewrite Hc, sumZ_app, sumZ_cons, wrap_add_l by lia. f_equal. unfold sumZ. simpl. lia.
Qed.

Lemma select_all_selected l : ∀ rs s, selected rs s → selected (rs ++ l) (foldl select_remedy s l).
Proof.
  induction l as [|r l IH]; intros rs s Hs; [by rewrite app_nil_r|]. cbn [foldl].
  replace (rs ++ r :: l) with ((rs ++ [r]) ++ l) by by rewrite <-app_assoc. by apply IH, select_selected.
Qed.
Lemma count_all_selected l : ∀ rs s, selected rs s → selected rs (foldl count_remedy s l).
Proof. induction l as [|r l IH]; intros rs s Hs; [done|]. cbn [foldl]. apply IH. destruct Hs. by constructor. Qed.

Lemma address_run cs : ∀ rs s, selected rs s → (∀ cr, cr ∈ cs → getRemedies cr ≠ []) →
  ∃ s', foldl address_one (Some s) cs = Some s' ∧ selected (rs ++ (cs ≫= cheapest)) s'.
Proof.
  induction cs as [|cr cs IH]; intros rs s Hs Hne; [exists s; cbn; rewrite app_nil_r; done|]. cbn [foldl address_one mbind option_bind].
  specialize (Hne cr (list_elem_of_here _ _)) as Hcr. destruct (getRemedies cr) as [|c l] eqn:E; [done|].
  destruct (IH (rs ++ c) (foldl count_remedy (foldl select_remedy s c) c)) as (s' & -> & Hs').
  - by apply count_all_selected, select_all_selected.
  - intros x Hx. apply Hne. by right.
  - exists s'. split; [done|]. assert (cheapest cr = c) as Ec by (unfold cheapest; by rewrite E). by rewrite bind_cons, Ec, app_assoc.
Qed.
Lemma address_none cs : ∀ s s', foldl address_one (Some s) cs = Some s' → ∀ cr, cr ∈ cs → getRemedies cr ≠ [].
Proof.
  assert (∀ l, foldl address_one None l = None) as Hn by (by intros l; induction l).
  induction cs as [|cr cs IH]; intros s s' Hf x Hx; [by apply elem_of_nil in Hx|]. cbn [foldl address_one mbind option_bind] in Hf.
  destruct (getRemedies cr) eqn:E; [by rewrite Hn in Hf|]. apply elem_of_cons in Hx as [->|Hx]; [by rewrite E|by eapply IH].
Qed.

(** The remedies and the cost that the orchestrator computes. *)
Lemma addressCriticisms_run cs cnt : (∀ cr, cr ∈ cs → getRemedies cr ≠ []) →
  ∃ s, addressCriticisms (MkSel [] 0 cnt) cs = Some s ∧ selectedRemedies s ≡ₚ remedies_of cs ∧ selectedRemediesCost s = u64 (remedies_cost cs).
Proof.
  intros Hne. destruct (address_run cs [] (MkSel [] 0 cnt)) as (s & E & [Hn He Hc]); [|done|].
  { constructor; [constructor|done|done]. }
  assert (selectedRemedies s ≡ₚ remedies_of cs) as Hp.
  { apply NoDup_Permutation; [done|apply NoDup_remove_dups|]. intros x. unfold remedies_of. by rewrite elem_of_remove_dups, He. }
  exists s. split; [done|]. split; [done|]. unfold remedies_cost. by rewrite Hc, Hp.
Qed.

(** ** The best plan *)

(** What a proposal saves. *)
Definition net_savings (IgnoreCost : bool) (res : CriticRes) : Z :=
  expSpeedup res - (if IgnoreCost then 0 else u64 (FixedPoint * u64 (remedies_cost (criticisms res)))).

(** A proposal that the orchestrator can use. *)
Record usable (res : CriticRes) : Prop := {
  us_unsigned : 0 ≤ expSpeedup res < 2 ^ 64;
  us_plan : expSpeedup res ≠ 0 → is_Some (res_ps res);
  us_remedies : ∀ cr, cr ∈ criticisms res → getRemedies cr ≠ [] }.

(** The strategy that comes from the [k]-th proposal. *)
Definition comes_from (IgnoreCost : bool) (k : nat) (res : CriticRes) (st : Strategy) : Prop :=
  strat_critic st = k ∧ res_ps res = Some (pipelineStrategy st) ∧ strat_expSpeedup st = expSpeedup res ∧
  savings st = net_savings IgnoreCost res ∧ strat_remedies st ≡ₚ remedies_of (criticisms res).

Lemma consider_run ic k res b : usable res → 0 ≤ maxSavings b → ∃ b', consider ic k res b = Some b' ∧
  maxSavings b' = Z.max (maxSavings b) (net_savings ic res) ∧
  (strategy b' = strategy b ∧ maxSavings b' = maxSavings b ∨
   maxSavings b < net_savings ic res ∧ ∃ st, strategy b' = Some st ∧ comes_from ic k res st).
Proof.
  intros [Hu Hp Hr] Hb. unfold consider, net_savings.
  assert (0 ≤ (if ic then 0 else u64 (FixedPoint * u64 (remedies_cost (criticisms res))))) as Hc0.
  { destruct ic; [lia|]. apply wrap_range. lia. }
  destruct (Z.eqb_spec (expSpeedup res) 0) as [E0|E0].
  { exists b. split; [done|]. split; [lia|by left]. }
  assert (∃ s, (match criticisms res with [] => Some (MkSel [] 0 (counts_so_far b)) | _ => addressCriticisms (MkSel [] 0 (counts_so_far b)) (criticisms res) end) = Some s ∧
    selectedRemedies s ≡ₚ remedies_of (criticisms res) ∧ selectedRemediesCost s = u64 (remedies_cost (criticisms res))) as (s & Es & Hs & Hcost).
  { destruct (criticisms res) eqn:Ec; [by eexists|]. apply addressCriticisms_run. by rewrite <-Ec in *. }
  assert (match criticisms res with [] => Some (MkSel [] 0 (counts_so_far b)) | cs => addressCriticisms (MkSel [] 0 (counts_so_far b)) cs end = Some s) as Es'.
  { by destruct (criticisms res). }
  rewrite Es'. cbn [mbind option_bind maxSavings strategy]. rewrite Hcost.
  set (c := if ic then 0 else _) in *. destruct (Z.ltb_spec c (expSpeedup res)) as [Hlt|Hge].
  2:{ eexists. split; [done|]. cbn [maxSavings strategy]. split; [lia|by left]. }
  rewrite (wrap_small 64) by lia. destruct (Z.ltb_spec (maxSavings b) (expSpeedup res - c)) as [Hm|Hm].
  2:{ eexists. split; [done|]. cbn [maxSavings strategy]. split; [lia|by left]. }
  destruct (Hp E0) as [ps Eps]. rewrite Eps. eexists. split; [done|]. cbn [maxSavings strategy]. split; [lia|]. right. split; [done|].
  eexists. split; [done|]. by repeat split.
Qed.

(** The best of the proposals so far. *)
Definition best_of (ic : bool) (rs : list CriticRes) (b : best) : Prop :=
  (∀ k res, rs !! k = Some res → net_savings ic res ≤ maxSavings b) ∧
  match strategy b with
  | None => maxSavings b = 0
  | Some st => 0 < savings st ∧ maxSavings b = savings st ∧ ∃ k res, rs !! k = Some res ∧ comes_from ic k res st ∧
      ∀ k' res', (k' < k)%nat → rs !! k' = Some res' → net_savings ic res' < savings st
  end.

Lemma consider_best ic rs res b : usable res → best_of ic rs b → 0 ≤ maxSavings b →
  ∃ b', consider ic (length rs) res b = Some b' ∧ best_of ic (rs ++ [res]) b' ∧ 0 ≤ maxSavings b'.
Proof.
  intros Hu [Hmax Hst] Hb. destruct (consider_run ic (length rs) res b Hu Hb) as (b' & E & Hm & Hcase). exists b'. split; [done|].
  assert (∀ k r, (rs ++ [res]) !! k = Some r → net_savings ic r ≤ maxSavings b') as Hmax'.
  { intros k r [Hk|[_ [Ek <-]%list_lookup_singleton_Some]]%lookup_app_Some; [specialize (Hmax k r Hk); lia|lia]. }
  split; [|lia]. split; [done|]. destruct Hcase as [[-> Em]|(Hlt & st & -> & Hcf)].
  - destruct (strategy b) as [st|]; [|lia]. destruct Hst as (H1 & H2 & k & r & Hk & Hcf & Hfirst). rewrite Em. do 2 (split; [done|]).
    exists k, r. split; [by apply lookup_app_l_Some|]. split; [done|]. intros k' r' Hlt Hk'. apply (Hfirst k' r' Hlt).
    rewrite lookup_app_l in Hk'; [done|]. apply lookup_lt_Some in Hk. lia.
  - pose proof Hcf as (_ & _ & _ & Hsv & _). rewrite Hsv. split; [lia|]. split; [lia|]. exists (length rs), res. split.
    + by rewrite lookup_app_r, Nat.sub_diag.
    + split; [done|]. intros k' r' Hk' Hr'. rewrite lookup_app_l in Hr' by done. specialize (Hmax k' r' Hr'). lia.
Qed.

Lemma try_critics_run ic pdg loop : ∀ critics rs0 rs b, best_of ic rs0 b → 0 ≤ maxSavings b →
  Forall2 (λ c res, c pdg loop = Done res ∧ usable res) critics rs →
  ∃ b', try_critics ic pdg loop critics (length rs0) b = Done b' ∧ best_of ic (rs0 ++ rs) b'.
Proof.
  induction critics as [|c critics IH]; intros rs0 rs b Hb H0 Hall.
  - apply Forall2_nil_inv_l in Hall as ->. exists b. by rewrite app_nil_r.
  - apply Forall2_cons_inv_l in Hall as (res & rs' & [Ec Hu] & Hall & ->). cbn [try_critics]. rewrite Ec.
    destruct (consider_best ic rs0 res b Hu Hb H0) as (b' & -> & Hb' & H0').
    destruct (IH (rs0 ++ [res]) rs' b' Hb' H0' Hall) as (b'' & E & Hb''). rewrite length_app, Nat.add_1_r in E.
    exists b''. split; [done|]. by rewrite <-app_assoc in Hb''.
Qed.

(** [C24] The orchestrator returns the proposal that saves most after the cost of the
    cheapest remedies for its criticisms, each counted once, the first one if
    several do, and none if no proposal saves anything. *)
Theorem best_strategy_maximal IgnoreCost pdg loop critics cnt rs :
  Forall2 (λ c res, c pdg loop = Done res ∧ usable res) critics rs →
  ∃ b, findBestStrategy IgnoreCost pdg loop critics cnt = Done b ∧
    match strategy b with
    | None => ∀ k res, rs !! k = Some res → net_savings IgnoreCost res ≤ 0
    | Some st => 0 < savings st ∧ (∀ k res, rs !! k = Some res → net_savings IgnoreCost res ≤ savings st) ∧
        ∃ k res, rs !! k = Some res ∧ comes_from IgnoreCost k res st ∧
          ∀ k' res', (k' < k)%nat → rs !! k' = Some res' → net_savings IgnoreCost res' < savings st
    end.
Proof.
  intros Hall. destruct (try_critics_run IgnoreCost pdg loop critics [] rs (MkBest 0 None cnt)) as (b & E & Hmax & Hst); [|done|done|].
  { split; [by intros k res|done]. }
  exists b. split; [done|]. destruct (strategy b) as [st|].
  - destruct Hst as (H1 & H2 & H3). rewrite H2 in Hmax. done.
  - by rewrite Hst in Hmax.
Qed.

(** ** Safe plans

    A sound critic reports every dependence that its plan does not respect. *)
Class SoundCritic (critic : critic_fn) : Prop := {
  critic_sound : ∀ pdg loop res ps e, critic pdg loop = Done res → res_ps res = Some ps →
    e ∈ pdg_edges pdg → against (stages ps) e → e ∈ criticisms res }.

#[global] Instance psdswp_sound {HRm : Remedies} {HSub : Subgraphs} {HPe : PerformanceEstimator} new_SCCDAG threadBudget :
  SoundCritic (λ pdg loop, psdswp_getCriticisms new_SCCDAG pdg loop threadBudget).
Proof. constructor. intros pdg loop res ps e Hd Hps He Ha. by destruct (psdswp_respects _ _ _ _ _ _ Hd Hps e He Ha). Qed.

Definition doall_critic `{PerformanceEstimator, Subgraphs} (threadBudget : Z) (pdg : PDG) (loop : Loop) : outcome CriticRes :=
  match doall_getCriticisms pdg loop threadBudget with Some res => Done res | None => Failed AssertFail end.

Lemma doall_sound `{PerformanceEstimator, Subgraphs} (HL : SubgraphLaws) threadBudget : SoundCritic (doall_critic threadBudget).
Proof.
  constructor. intros pdg loop res ps e. unfold doall_critic, doall_getCriticisms.
  destruct (getDOALLStrategy _ _) as [q|] eqn:E; [|by intros [= <-]]. destruct (getExpPipelineSpeedup q loop); [|done].
  cbn [mbind option_bind]. intros [= <-] [= <-] He Ha. cbn [criticisms].
  destruct (proj2 (doall_critic_run HL pdg threadBudget) q E) as (Hcr & s & Es & Ht & _ & Hin). rewrite Es in Ha. apply Hcr.
  assert (replicated s = ∅) as Er.
  { unfold getDOALLStrategy in E. destruct (existsb _ _); [done|]. injection E as <-. by injection Es as <-. }
  destruct Ha as [(i & j & u & v & Hij & Hu & Hv & _)|(Hc & u & ->%list_elem_of_singleton & _ & Ho & Hi)].
  - apply lookup_lt_Some in Hu, Hv. simpl in *. lia.
  - rewrite no_prefix in Hi by done. split; [done|]. split; [|done]. apply both_internal_iff. split; by apply Hin.
Qed.

Section Safe.
Context (IgnoreCost : bool) (pdg : PDG) (loop : Loop).

(** The best strategy so far covers what its plan does not respect. *)
Definition covered (st : Strategy) : Prop := ∀ e, e ∈ pdg_edges pdg → against (stages (pipelineStrategy st)) e →
  getRemedies e ≠ [] ∧ ∀ r, r ∈ cheapest e → r ∈ strat_remedies st.

Lemma consider_covered k c res b b' : SoundCritic c → c pdg loop = Done res → consider IgnoreCost k res b = Some b' →
  (∀ st, strategy b = Some st → covered st) → ∀ st, strategy b' = Some st → covered st.
Proof.
  intros Hs Hc. unfold consider. destruct (_ =? 0); [by intros [= <-]|].
  assert (∀ s, match criticisms res with [] => Some (MkSel [] 0 (counts_so_far b)) | cs => addressCriticisms (MkSel [] 0 (counts_so_far b)) cs end = Some s →
    ∀ cr, cr ∈ criticisms res → getRemedies cr ≠ [] ∧ ∀ r, r ∈ cheapest cr → r ∈ selectedRemedies s) as Hsel.
  { intros s Hs' cr Hcr. destruct (criticisms res) as [|c0 cs]; [by apply elem_of_nil in Hcr|].
    pose proof (address_none _ _ _ Hs') as Hne. split; [by apply Hne|]. intros r Hr.
    destruct (addressCriticisms_run _ (counts_so_far b) Hne) as (s1 & E1 & Hp & _). rewrite E1 in Hs'. injection Hs' as <-.
    rewrite Hp. apply elem_of_remove_dups, list_elem_of_bind. by exists cr. }
  destruct (match criticisms res with [] => _ | _ => _ end) as [s|]; [|done]. specialize (Hsel s eq_refl). cbn [mbind option_bind].
  destruct (_ <? expSpeedup res); [|by intros [= <-]]. destruct (_ <? _); [|by intros [= <-]].
  destruct (res_ps res) as [ps|] eqn:Eps; [|done]. intros [= <-] _ st [= <-] e He Ha. cbn [pipelineStrategy strat_remedies] in *.
  apply Hsel. by eapply critic_sound.
Qed.

Lemma try_covered critics : ∀ k b b', Forall SoundCritic critics → try_critics IgnoreCost pdg loop critics k b = Done b' →
  (∀ st, strategy b = Some st → covered st) → ∀ st, strategy b' = Some st → covered st.
Proof.
  induction critics as [|c critics IH]; intros k b b' Hall; cbn [try_critics]; [by intros [= <-]|].
  apply Forall_cons in Hall as [Hc Hall]. destruct (c pdg loop) as [res|] eqn:Ec; [|done].
  destruct (consider IgnoreCost k res b) as [b1|] eqn:E1; [|done]. intros Ht Hb. eapply IH; [done|exact Ht|]. by eapply consider_covered.
Qed.
End Safe.

(** [C9] With sound critics, the plan that is chosen for a loop respects every
    dependence of the loop, except for those whose cheapest remedies are all among
    the selected ones. *)
Theorem chosen_plan_safe IgnoreCost pdg loop critics cnt b st : Forall SoundCritic critics →
  findBestStrategy IgnoreCost pdg loop critics cnt = Done b → strategy b = Some st →
  ∀ e, e ∈ pdg_edges pdg → against (stages (pipelineStrategy st)) e →
    getRemedies e ≠ [] ∧ ∀ r, r ∈ cheapest e → r ∈ strat_remedies st.
Proof. intros Hall Hf. by apply (try_covered IgnoreCost pdg loop critics 0 (MkBest 0 None cnt)). Qed.

(** ** Examples *)

Definition psdswp_demo : critic_fn := λ pdg loop,
  psdswp_getCriticisms (HRm := demo_remedies) (HSub := filter_subgraphs) (HPe := FlatPerformanceEstimator) (critic_dag 4) pdg loop 8.
Definition dswp_demo : critic_fn := λ pdg loop,
  dswp_getCriticisms (H := FlatPerformanceEstimator) (H0 := filter_subgraphs) backward_dag (λ _, false) pdg loop 2.

(** The result of a critic on a concrete loop. *)
Definition result_of (o : outcome CriticRes) : CriticRes := match o with Done r => r | Failed _ => MkRes [] 0 None end.
Definition usable_check (res : CriticRes) : bool :=
  bool_decide (0 ≤ expSpeedup res < 2 ^ 64) && bool_decide (is_Some (res_ps res)) && forallb (λ e, match getRemedies e with [] => false | _ => true end) (criticisms res).
Lemma usable_check_ok (c : critic_fn) pdg loop : (match c pdg loop with Done _ => true | Failed _ => false end) && usable_check (result_of (c pdg loop)) = true →
  c pdg loop = Done (result_of (c pdg loop)) ∧ usable (result_of (c pdg loop)).
Proof.
  destruct (c pdg loop) as [res|]; [|done]. cbn [result_of andb]. unfold usable_check. rewrite !andb_true_iff, !bool_decide_eq_true.
  intros [[H1 H2] H3]. split; [done|]. constructor; [done|done|]. intros cr Hcr Hn. rewrite forallb_forall in H3.
  specialize (H3 cr (proj1 (list_elem_of_In _ _) Hcr)). by rewrite Hn in H3.
Qed.

Lemma best_strategy_maximal_witness :
  ∃ b, findBestStrategy false critic_pdg critic_loop [psdswp_demo] ∅ = Done b ∧
    match strategy b with
    | None => ∀ k res, [result_of (psdswp_demo critic_pdg critic_loop)] !! k = Some res → net_savings false res ≤ 0
    | Some st => 0 < savings st ∧ (∀ k res, [result_of (psdswp_demo critic_pdg critic_loop)] !! k = Some res → net_savings false res ≤ savings st) ∧
        ∃ k res, [result_of (psdswp_demo critic_pdg critic_loop)] !! k = Some res ∧ comes_from false k res st ∧
          ∀ k' res', (k' < k)%nat → [result_of (psdswp_demo critic_pdg critic_loop)] !! k' = Some res' → net_savings false res' < savings st
    end.
Proof.
  apply (best_strategy_maximal false critic_pdg critic_loop [psdswp_demo] ∅ [result_of (psdswp_demo critic_pdg critic_loop)]).
  constructor; [|constructor]. apply usable_check_ok. vm_compute. reflexivity.
Defined.

(** The selected remedy of the example, and what the plan saves. *)
Example orchestrator_example :
  match findBestStrategy false critic_pdg critic_loop [psdswp_demo] ∅ with
  | Done b => (λ st, (savings st, strat_remedies st, strat_critic st)) <$> strategy b
  | Failed _ => None
  end = Some (25000, [MkRemedy 1 1 5], 0%nat).
Proof. by vm_compute. Qed.

Definition demo_best : best := match findBestStrategy false critic_pdg critic_loop [psdswp_demo] ∅ with Done b => b | Failed _ => MkBest 0 None ∅ end.
Definition demo_choice : Strategy := default (MkStrat new_plan 0 0 [] 0) (strategy demo_best).

Lemma chosen_plan_safe_witness :
  strategy demo_best = Some demo_choice ∧
  ∀ e, e ∈ pdg_edges critic_pdg → against (stages (pipelineStrategy demo_choice)) e →
    getRemedies e ≠ [] ∧ ∀ r, r ∈ cheapest e → r ∈ strat_remedies demo_choice.
Proof.
  split; [by vm_compute|]. apply (chosen_plan_safe false critic_pdg critic_loop [psdswp_demo] ∅ demo_best demo_choice).
  - constructor; [apply psdswp_sound|constructor].
  - by vm_compute.
  - by vm_compute.
Defined.

(** With the critic for balanced pipelines this fails: it is not sound.  Here the
    remedy for the dependence back to the first stage costs more than the parallel
    loop saves; the balanced pipeline, which needs the same remedy, is chosen
    without it. *)
Definition psdswp_backward : critic_fn := λ pdg loop,
  psdswp_getCriticisms (HRm := demo_remedies) (HSub := filter_subgraphs) (HPe := FlatPerformanceEstimator) (critic_dag 2) pdg loop 2.

Theorem dswp_chosen_unsafe : ∃ b st,
  findBestStrategy false backward_pdg backward_loop [psdswp_backward; dswp_demo] ∅ = Done b ∧
  strategy b = Some st ∧ strat_critic st = 1%nat ∧ strat_remedies st = [] ∧
  backward ∈ pdg_edges backward_pdg ∧ against (stages (pipelineStrategy st)) backward ∧ cheapest backward ≠ [].
Proof.
  eexists _, _. split; [vm_compute; reflexivity|]. split; [reflexivity|]. do 2 (split; [by vm_compute|]). split; [right; by left|].
  split; [|done]. left. eexists 0%nat, 1%nat, _, _. split; [lia|]. do 2 (split; [reflexivity|]).
  split; apply (bool_decide_eq_true_1 _); vm_compute; reflexivity.
Qed.

(** ** Unsigned savings

    The other overload subtracts a cost that may be greater than the speedup: the
    difference wraps around, and a plan that saves nothing beats one that does. *)
Definition proposal (speedup cost : Z) : critic_fn := λ _ _,
  Done (MkRes [MkEdge 1 2 true false true true true [[MkRemedy 1 1 cost]]] speedup (Some new_plan)).

Theorem unprofitable_plan_chosen :
  (∃ st, findBestStrategy_any false critic_pdg critic_loop [proposal 9000 1; proposal 500 1] ∅ = Done (true, Some st) ∧
    strat_critic st = 1%nat ∧ savings st = 2 ^ 64 - 500) ∧
  ∃ b st, findBestStrategy false critic_pdg critic_loop [proposal 9000 1; proposal 500 1] ∅ = Done b ∧
    strategy b = Some st ∧ strat_critic st = 0%nat ∧ savings st = 8000.
Proof.
  split; [eexists; split; [vm_compute; reflexivity|done]|]. eexists _, _. split; [vm_compute; reflexivity|]. done.
Qed.
