(* ===== verification/Planner.v ===== *)
(** Choosing the loops: [lib/Planner/Planner.cpp].

    The planner asks the orchestrator for a strategy for every hot loop.  Two loops
    cannot both be parallelised if one may run while the other does: they are in one
    nest, or one calls the function of the other.  The planner chooses compatible
    loops that save most. *)
From S2P Require Import Prelude Machine Clique MinCut Pipeline Partition Estimate Critic Dswp PsDswp Orchestrator.
#[local] Open Scope Z_scope.

(** ** The program

    Functions and loops are pointers.  [callees] are the functions at the ends of the
    outgoing edges of a node of the call graph, [calls] the called functions of the
    call instructions of a loop, in order; indirect calls have none. *)
Class Program := {
  functions : list Z;
  callees : Z → list Z;
  isDeclaration : Z → bool;
  calls : Z → list Z;
  parent_function : Z → Z;
  contains : Z → Z → bool }.
(** The call graph only has functions of the program. *)
Class ProgramLaws `{Program} : Prop := { pr_callees : ∀ f g, g ∈ callees f → g ∈ functions }.

Section Planner.
Context `{Program}.

(** ** Operations *)

(** [getCalledFuns]; every call adds a function, so the number of functions is
    enough. *)
Fixpoint getCalledFuns (fuel : nat) (cgNode : Z) (calledFuns : gset Z) : option (gset Z) :=
  match fuel with
  | O => None
  | S fuel' =>
      foldl (λ called F,
        called ← called;
        if bool_decide (F ∈ called) || isDeclaration F then Some called
        else getCalledFuns fuel' F ({[F]} ∪ called)) (Some calledFuns) (callees cgNode)
  end.
Definition max_depth : nat := S (length functions).

(** [loopTransCallGraph[l]] for a loop that is not in the cache. *)
Definition called_by_loop (l : Z) : option (gset Z) :=
  foldl (λ called cFun,
    called ← called;
    if isDeclaration cFun then Some called
    else getCalledFuns max_depth cFun ({[cFun]} ∪ called)) (Some ∅) (calls l).

Definition callsFun (l tgtF : Z) (cache : gmap Z (gset Z)) : option (bool * gmap Z (gset Z)) :=
  match cache !! l with
  | Some s => Some (bool_decide (tgtF ∈ s), cache)
  | None => s ← called_by_loop l; Some (bool_decide (tgtF ∈ s), <[l := s]> cache)
  end.

Definition mustBeSimultaneouslyActive (A B : Z) (cache : gmap Z (gset Z)) : option (bool * gmap Z (gset Z)) :=
  if contains A B || contains B A then Some (true, cache)
  else
    r ← callsFun A (parent_function B) cache;
    let '(calls_B, cache) := r in
    if calls_B : bool then Some (true, cache) else callsFun B (parent_function A) cache.

(** One pair of loops. *)
Definition edge_step (vertices : list Z) (i : Z) (st : option (gset (Z * Z) * gmap Z (gset Z))) (j : Z) :
    option (gset (Z * Z) * gmap Z (gset Z)) :=
  st ← st;
  A ← vertices !! Z.to_nat i;
  B ← vertices !! Z.to_nat j;
  r ← mustBeSimultaneouslyActive A B st.2;
  let '(active, cache) := r in
  Some (if active : bool then (st.1, cache) else ({[(j, i)]} ∪ ({[(i, j)]} ∪ st.1), cache)).
Definition computeEdges (vertices : list Z) : option (gset (Z * Z)) :=
  let N := Z.of_nat (length vertices) in
  fst <$> foldl (λ st i, foldl (edge_step vertices i) st (seqZ (i + 1) (N - (i + 1)))) (Some (∅, ∅)) (seqZ 0 N).

(** The end of [runOnModule]: the loops with a strategy, and the chosen ones with
    the weight of the choice. *)
Definition with_strategy (hot_loops : list (Z * option Strategy)) : list (Z * Strategy) :=
  omap (λ x, s ← x.2; Some (x.1, s)) hot_loops.
Definition plan_loops (hot_loops : list (Z * option Strategy)) : option (list Z * Z) :=
  let chosen := with_strategy hot_loops in
  let vertices := chosen.*1 in
  let scaledweights := (λ x, i64 (savings x.2)) <$> chosen in
  edges ← computeEdges vertices;
  ebk edges scaledweights [].

(** ** The functions a loop may call *)

Definition calls_to (f g : Z) : Prop := g ∈ callees f ∧ isDeclaration g = false.
Definition loop_calls (l g : Z) : Prop := ∃ f, f ∈ calls l ∧ isDeclaration f = false ∧ rtc calls_to f g.

(** How many functions have not been called. *)
Definition uncalled (called : gset Z) : nat := length (filter (λ f, f ∉ called) functions).

Lemma uncalled_mono s t : s ⊆ t → (uncalled t ≤ uncalled s)%nat.
Proof.
  intros Hst. unfold uncalled. induction functions as [|f l IH]; [done|]. rewrite !filter_cons.
  destruct (decide (f ∉ t)) as [Ht|Ht]; [rewrite decide_True by set_solver|]; [simpl; lia|]. case_decide; simpl; lia.
Qed.
Lemma uncalled_insert f s : f ∈ functions → (f ∉ s) → (uncalled ({[f]} ∪ s) < uncalled s)%nat.
Proof.
  intros Hf Hs. unfold uncalled. revert Hf. assert (∀ l, length (filter (λ g, g ∉ ({[f]} ∪ s : gset Z)) l) ≤ length (filter (λ g, g ∉ s) l))%nat as Hle.
  { induction l as [|g l IH]; [done|]. rewrite !filter_cons.
    destruct (decide (g ∉ ({[f]} ∪ s : gset Z))) as [Ht|Ht]; [rewrite decide_True by set_solver|]; [simpl; lia|]. case_decide; simpl; lia. }
  induction functions as [|g l IH]; intros Hf; [by apply elem_of_nil in Hf|]. specialize (Hle l). rewrite !filter_cons.
  apply elem_of_cons in Hf as [->|Hf].
  - rewrite decide_False by set_solver. rewrite decide_True by done. simpl. lia.
  - specialize (IH Hf). destruct (decide (g ∉ ({[f]} ∪ s : gset Z))) as [Ht|Ht]; [rewrite decide_True by set_solver; simpl; lia|].
    case_decide; simpl; lia.
Qed.

(** What a search that starts with [cur] adds for the functions [roots]. *)
Record explored (roots : Z → Prop) (cur cur' : gset Z) : Prop := {
  ex_sub : cur ⊆ cur';
  ex_roots : ∀ g, roots g → g ∈ cur';
  ex_new : ∀ f, f ∈ cur' → (f ∉ cur) → (∃ g, roots g ∧ rtc calls_to g f) ∧ ∀ g, calls_to f g → g ∈ cur' }.

Lemma explored_app (r1 r2 : Z → Prop) c1 c2 c3 : explored r1 c1 c2 → explored r2 c2 c3 → explored (λ g, r1 g ∨ r2 g) c1 c3.
Proof.
  intros [S1 R1 N1] [S2 R2 N2]. constructor; [by etrans|intros g [Hg|Hg]; [by apply S2, R1|by apply R2]|].
  intros f Hf Hn. destruct (decide (f ∈ c2)) as [H2|H2].
  - destruct (N1 f H2 Hn) as [(g & Hg & Hr) Hc]. split; [exists g; auto|]. intros h Hh. by apply S2, Hc.
  - destruct (N2 f Hf H2) as [(g & Hg & Hr) Hc]. split; [exists g; auto|done].
Qed.
Lemma explored_weaken (r r' : Z → Prop) c c' : explored r c c' → (∀ g, r g ↔ r' g) → explored r' c c'.
Proof.
  intros [S1 R1 N1] Hr. constructor; [done|intros g Hg%Hr; by apply R1|].
  intros f Hf Hn. destruct (N1 f Hf Hn) as [(g & Hg%Hr & Hc) ?]. eauto.
Qed.

(** A function with the functions that it calls. *)
Lemma explored_call F cur r : explored (calls_to F) ({[F]} ∪ cur) r → explored (eq F) cur r.
Proof.
  intros [S R Nw]. constructor; [set_solver|by intros g <-; set_solver|]. intros f Hf Hn. destruct (decide (f = F)) as [->|Hne].
  - split; [by exists F|]. intros g. apply R.
  - destruct (Nw f Hf) as [(g & Hg & Hr) Hc]; [set_solver|]. split; [|done]. exists F. split; [done|by eapply rtc_l].
Qed.

Context (HL : ProgramLaws).

Lemma getCalledFuns_run fuel : ∀ node cur, (uncalled cur < fuel)%nat →
  ∃ r, getCalledFuns fuel node cur = Some r ∧ explored (calls_to node) cur r.
Proof.
  induction fuel as [|fuel IH]; intros node cur Hf; [lia|]. cbn [getCalledFuns].
  assert (∀ l cur, (∀ g, g ∈ l → g ∈ functions) → (uncalled cur < S fuel)%nat → ∃ r,
    foldl (λ called F, called ← called; if bool_decide (F ∈ called) || isDeclaration F then Some called
      else getCalledFuns fuel F ({[F]} ∪ called)) (Some cur) l = Some r ∧
    explored (λ g, g ∈ l ∧ isDeclaration g = false) cur r) as Hl.
  { clear cur Hf. induction l as [|F l IHl]; intros cur Hfn Hc; cbn [foldl mbind option_bind].
    - exists cur. split; [done|]. constructor; [done|by intros g [?%elem_of_nil _]|done].
    - assert (∃ r, (if bool_decide (F ∈ cur) || isDeclaration F then Some cur else getCalledFuns fuel F ({[F]} ∪ cur)) = Some r ∧
        explored (λ g, g = F ∧ isDeclaration g = false) cur r) as (r & -> & Hr).
      { case_bool_decide as Hin; cbn [orb].
        - exists cur. split; [done|]. constructor; [done|by intros g [-> _]|done].
        - destruct (isDeclaration F) eqn:Ed; [exists cur; split; [done|]; constructor; [done|by intros g [-> ?]; congruence|done]|].
          destruct (IH F ({[F]} ∪ cur)) as (r & Er & Hr).
          + pose proof (uncalled_insert F cur (Hfn F (list_elem_of_here _ _)) Hin). lia.
          + exists r. split; [done|]. apply (explored_weaken (eq F)); [by apply explored_call|]. intros g. split; [by intros <-|by intros [-> _]]. }
      destruct (IHl r) as (r' & -> & Hr'); [intros g Hg; apply Hfn; by right|pose proof (uncalled_mono _ _ (ex_sub _ _ _ Hr)); lia|].
      exists r'. split; [done|]. eapply explored_weaken; [by eapply explored_app|]. intros g. rewrite elem_of_cons. tauto. }
  destruct (Hl (callees node) cur) as (r & E & Hr); [intros g Hg; by eapply pr_callees|lia|]. by exists r.
Qed.

Lemma called_by_loop_run l : ∃ s, called_by_loop l = Some s ∧ ∀ g, g ∈ s ↔ loop_calls l g.
Proof.
  unfold called_by_loop.
  assert (∀ fs cur, ∃ r, foldl (λ called cFun, called ← called; if isDeclaration cFun then Some called
      else getCalledFuns max_depth cFun ({[cFun]} ∪ called)) (Some cur) fs = Some r ∧
    explored (λ g, g ∈ fs ∧ isDeclaration g = false) cur r) as Hall.
  { induction fs as [|F fs IH]; intros cur; cbn [foldl mbind option_bind].
    - exists cur. split; [done|]. constructor; [done|by intros g [?%elem_of_nil _]|done].
    - destruct (isDeclaration F) eqn:Ed.
      + destruct (IH cur) as (r & -> & Hr). exists r. split; [done|]. eapply explored_weaken; [exact Hr|].
        intros g. rewrite elem_of_cons. split; [tauto|]. intros [[->|?] ?]; [congruence|done].
      + destruct (getCalledFuns_run max_depth F ({[F]} ∪ cur)) as (r & -> & Hr).
        { unfold max_depth, uncalled. pose proof (length_filter (λ f, f ∉ ({[F]} ∪ cur : gset Z)) functions). lia. }
        destruct (IH r) as (r' & -> & Hr'). exists r'. split; [done|].
        eapply explored_weaken; [eapply explored_app; [by apply explored_call|exact Hr']|]. intros g. rewrite elem_of_cons.
        split; [intros [<-|?]; tauto|]. intros [[->|?] ?]; tauto. }
  destruct (Hall (calls l) ∅) as (s & -> & [_ R Nw]). exists s. split; [done|]. intros g. split.
  - intros Hg. destruct (Nw g Hg) as [(f & [Hf Hd] & Hr) _]; [set_solver|]. by exists f.
  - intros (f & Hf & Hd & Hr). assert (f ∈ s) as Hfs by by apply R. clear Hf Hd. induction Hr as [|f f' g Hff' _ IHr]; [done|].
    apply IHr. destruct (Nw f Hfs) as [_ Hc]; [set_solver|]. by apply Hc.
Qed.

(** ** Compatible loops *)

(** Two loops that must not both be parallelised. *)
Definition active (A B : Z) : Prop :=
  contains A B = true ∨ contains B A = true ∨ loop_calls A (parent_function B) ∨ loop_calls B (parent_function A).

Definition cache_ok (cache : gmap Z (gset Z)) : Prop := ∀ l s, cache !! l = Some s → ∀ g, g ∈ s ↔ loop_calls l g.

Lemma callsFun_run l tgt cache : cache_ok cache → ∃ b cache', callsFun l tgt cache = Some (b, cache') ∧ cache_ok cache' ∧ (b = true ↔ loop_calls l tgt).
Proof.
  intros Hc. unfold callsFun. destruct (cache !! l) as [s|] eqn:E.
  - eexists _, _. split; [done|]. split; [done|]. rewrite bool_decide_eq_true. by apply Hc.
  - destruct (called_by_loop_run l) as (s & -> & Hs). cbn [mbind option_bind]. eexists _, _. split; [done|].
    split; [|by rewrite bool_decide_eq_true]. intros l' s'. destruct (decide (l = l')) as [<-|Hne].
    + rewrite lookup_insert_eq. by intros [= <-].
    + rewrite lookup_insert_ne by done. apply Hc.
Qed.

Lemma active_run A B cache : cache_ok cache → ∃ b cache',
  mustBeSimultaneouslyActive A B cache = Some (b, cache') ∧ cache_ok cache' ∧ (b = true ↔ active A B).
Proof.
  intros Hc. unfold mustBeSimultaneouslyActive, active. destruct (contains A B) eqn:E1; cbn [orb]; [eexists _, _; split; [done|]; tauto|].
  destruct (contains B A) eqn:E2; [eexists _, _; split; [done|]; tauto|].
  destruct (callsFun_run A (parent_function B) cache Hc) as (b1 & c1 & -> & Hc1 & Hb1). cbn [mbind option_bind].
  destruct b1; [eexists _, _; split; [done|]; tauto|].
  destruct (callsFun_run B (parent_function A) c1 Hc1) as (b2 & c2 & -> & Hc2 & Hb2). eexists _, _. split; [done|]. split; [done|].
  rewrite Hb2. intuition congruence.
Qed.

Section Edges.
Context (vertices : list Z).
Let N : Z := Z.of_nat (length vertices).

Definition pairs : list (Z * Z) := seqZ 0 N ≫= λ i, (λ j, (i, j)) <$> seqZ (i + 1) (N - (i + 1)).
Definition vertex (i : Z) : Z := default 0 (vertices !! Z.to_nat i).

Lemma elem_of_pairs i j : (i, j) ∈ pairs ↔ 0 ≤ i ∧ i < j ∧ j < N.
Proof.
  unfold pairs. rewrite list_elem_of_bind. split.
  - intros (x & (y & [= -> ->] & Hy%elem_of_seqZ)%list_elem_of_fmap & Hx%elem_of_seqZ). lia.
  - intros Hij. exists i. rewrite elem_of_seqZ, list_elem_of_fmap. split; [|lia]. exists j. rewrite elem_of_seqZ. split; [done|lia].
Qed.

Lemma vertex_lookup i : 0 ≤ i < N → vertices !! Z.to_nat i = Some (vertex i).
Proof.
  intros Hi. unfold vertex. destruct (lookup_lt_is_Some_2 vertices (Z.to_nat i)) as [x ->]; [unfold N in Hi; lia|done].
Qed.

Lemma edge_step_run i j E cache : 0 ≤ i < N → 0 ≤ j < N → cache_ok cache → ∃ b cache',
  edge_step vertices i (Some (E, cache)) j = Some (if b : bool then E else {[(j, i)]} ∪ ({[(i, j)]} ∪ E), cache') ∧ cache_ok cache' ∧
  (b = true ↔ active (vertex i) (vertex j)).
Proof.
  intros Hi Hj Hc. unfold edge_step. cbn [mbind option_bind fst snd]. rewrite (vertex_lookup i Hi), (vertex_lookup j Hj). cbn [mbind option_bind].
  destruct (active_run (vertex i) (vertex j) cache Hc) as (b & c1 & -> & Hc1 & Hb). exists b, c1. split; [by destruct b|done].
Qed.

Lemma edge_steps ps : ∀ E cache, cache_ok cache → (∀ p, p ∈ ps → p ∈ pairs) → ∃ E' cache',
  foldl (λ st p, edge_step vertices p.1 st p.2) (Some (E, cache)) ps = Some (E', cache') ∧ cache_ok cache' ∧
  ∀ x y, (x, y) ∈ E' ↔ (x, y) ∈ E ∨ ((x, y) ∈ ps ∨ (y, x) ∈ ps) ∧ ¬ active (vertex x) (vertex y).
Proof.
  induction ps as [|[i j] ps IH]; intros E cache Hc Hps; cbn [foldl].
  - exists E, cache. do 2 (split; [done|]). intros x y. rewrite !elem_of_nil. tauto.
  - destruct (elem_of_pairs i j) as [Hij _]. specialize (Hij (Hps _ (list_elem_of_here _ _))).
    cbn [fst snd]. destruct (edge_step_run i j E cache) as (b & c1 & -> & Hc1 & Hb); [lia|lia|done|].
    assert (∀ x y, active x y ↔ active y x) as Hsym by (intros; unfold active; tauto).
    destruct (IH (if b then E else {[(j, i)]} ∪ ({[(i, j)]} ∪ E)) c1 Hc1) as (E' & c2 & EE & Hc2 & HE); [intros p Hp; apply Hps; by right|].
    exists E', c2. split; [done|]. split; [done|]. intros x y. rewrite HE, !elem_of_cons. destruct b.
    + assert (active (vertex i) (vertex j)) as Ha by tauto. split; [tauto|]. intros [|[[[[= -> ->]|?]|[[= -> ->]|?]] Hn]]; try tauto.
      apply Hsym in Ha. tauto.
    + assert (¬ active (vertex i) (vertex j)) as Ha by (intros Ha%Hb; done). rewrite !elem_of_union, !elem_of_singleton. split.
      * intros [[[= -> ->]|[[= -> ->]|?]]|?]; [right; split; [tauto|by rewrite Hsym]|right; tauto|tauto|tauto].
      * intros [|[[[[= -> ->]|?]|[[= -> ->]|?]] Hn]]; tauto.
Qed.

Lemma computeEdges_run : ∃ E, computeEdges vertices = Some E ∧
  ∀ x y, (x, y) ∈ E ↔ 0 ≤ x < N ∧ 0 ≤ y < N ∧ x ≠ y ∧ ¬ active (vertex x) (vertex y).
Proof.
  unfold computeEdges. fold N.
  rewrite (foldl_chunks (λ st p, edge_step vertices p.1 st p.2) _ (λ i, (λ j, (i, j)) <$> seqZ (i + 1) (N - (i + 1)))).
  - fold pairs. destruct (edge_steps pairs ∅ ∅) as (E & c & -> & _ & HE); [by intros l s|done|]. exists E. split; [done|].
    intros x y. rewrite HE, !elem_of_pairs, elem_of_empty. destruct (Z.lt_trichotomy x y) as [|[->|]]; intuition lia.
  - intros st i. generalize (seqZ (i + 1) (N - (i + 1))). intros l. revert st. induction l as [|j l IHl]; intros st; [done|].
    cbn [foldl fmap list_fmap]. apply IHl.
Qed.
End Edges.

(** ** The choice *)

Section Choice.
Context (hot_loops : list (Z * option Strategy)).
Let chosen : list (Z * Strategy) := with_strategy hot_loops.

Definition saving (v : Z) : Z := from_option (λ x, savings x.2) 0 (chosen !! Z.to_nat v).
Definition loop_at (v : Z) : Z := vertex (chosen.*1) v.

(** Loops with strategies that can be parallelised together. *)
Record compatible (C : list Z) : Prop := {
  co_nodup : NoDup C;
  co_range : ∀ v, v ∈ C → 0 ≤ v < Z.of_nat (length chosen);
  co_pair : ∀ u v, u ∈ C → v ∈ C → u ≠ v → ¬ active (loop_at u) (loop_at v) }.

Context (Hpos : ∀ x, x ∈ chosen → 0 ≤ savings x.2) (Hsum : sumZ (λ x : Z * Strategy, savings x.2) chosen < 2 ^ 31).

Lemma weights_eq : (λ x : Z * Strategy, i64 (savings x.2)) <$> chosen = (λ x, savings x.2) <$> chosen.
Proof.
  apply list_fmap_ext. intros i x Hx. apply list_elem_of_lookup_2 in Hx. simpl.
  assert (savings x.2 ≤ sumZ (λ x : Z * Strategy, savings x.2) chosen).
  2:{ pose proof (Hpos x Hx). unfold swrap. change (64 - 1) with 63. rewrite wrap_small; lia. }
  pose proof Hx as [k Hk]%elem_of_Permutation. rewrite Hk, sumZ_cons.
  assert (0 ≤ sumZ (λ x : Z * Strategy, savings x.2) k); [|lia]. apply sumZ_nonneg. intros y Hy. apply Hpos. rewrite Hk. by right.
Qed.

Lemma weight_saving v : weight ((λ x : Z * Strategy, savings x.2) <$> chosen) v = saving v.
Proof. unfold weight, saving. rewrite list_lookup_fmap. by destruct (chosen !! Z.to_nat v). Qed.

Lemma foldr_sumZ {A} (f : A → Z) l : foldr Z.add 0 (f <$> l) = sumZ f l.
Proof. induction l as [|x l IH]; [done|]. cbn [fmap list_fmap foldr]. by rewrite sumZ_cons, <-IH. Qed.

Lemma plan_loops_run : ∃ C, plan_loops hot_loops = Some (C, sumZ saving C) ∧ compatible C ∧
  ∀ D, compatible D → sumZ saving D ≤ sumZ saving C.
Proof.
  unfold plan_loops. fold chosen. destruct (computeEdges_run chosen.*1) as (E & -> & HE). cbn [mbind option_bind].
  rewrite weights_eq. set (W := (λ x : Z * Strategy, savings x.2) <$> chosen). rewrite length_fmap in HE.
  assert (∀ C, clique E W C ↔ compatible C) as Hcl.
  { assert (Z.of_nat (length W) = Z.of_nat (length chosen)) as EW by (unfold W; by rewrite length_fmap).
    intros C. split; intros [C1 C2 C3]; constructor; try done; [by rewrite <-EW| |by rewrite EW|].
    - intros u v Hu Hv Hne. destruct (proj1 (HE u v) (C3 u v Hu Hv Hne)) as (_ & _ & _ & Ha). done.
    - intros u v Hu Hv Hne. apply HE. split; [by apply C2|]. split; [by apply C2|]. split; [done|by apply C3]. }
  assert (∀ C, total W C = sumZ saving C) as Ht by (intros C; apply sumZ_ext; intros v _; apply weight_saving).
  destruct (ebk_run E W []) as (C & Ec & HC & Hmax).
  - constructor; [intros v (_ & _ & Hn & _)%HE; done|]. intros u v (Hu & Hv & Hn & Ha)%HE. apply HE. do 2 (split; [done|]). split; [done|].
    intros Ha'. apply Ha. unfold active in *. tauto.
  - constructor; [|unfold W; by rewrite foldr_sumZ]. unfold W. apply Forall_fmap, Forall_forall. intros x Hx. by apply Hpos.
  - exists C. rewrite Ec, Ht. split; [done|]. split; [by apply Hcl|]. intros D HD%Hcl. rewrite <-!Ht. by apply Hmax.
Qed.
End Choice.

(** [C12] When the savings of the loops are not negative and add up to less than
    [2^31], the planner chooses loops that can be parallelised together: none contains
    another one, and none may call the function of another one by a direct call in the
    loop and edges of the call graph, however deep and also through recursion.  No
    other such choice saves more.  Like the code, this does not see indirect calls in
    the loop itself. *)
Theorem planner_best_loops hot_loops :
  (∀ x, x ∈ with_strategy hot_loops → 0 ≤ savings x.2) → sumZ (λ x : Z * Strategy, savings x.2) (with_strategy hot_loops) < 2 ^ 31 →
  ∃ C, plan_loops hot_loops = Some (C, sumZ (saving hot_loops) C) ∧ compatible hot_loops C ∧
    ∀ D, compatible hot_loops D → sumZ (saving hot_loops) D ≤ sumZ (saving hot_loops) C.
Proof. apply plan_loops_run. Qed.
End Planner.

(** ** A small program

    Loop 1 contains loop 2 and calls function 101, which calls 102 and is called by
    it; loop 3 is in function 102 and loop 4 in a function that nothing calls. *)
Definition demo_program : Program := {|
  functions := [100; 101; 102; 103; 104];
  callees f := if f =? 100 then [101; 104] else if f =? 101 then [102] else if f =? 102 then [101] else [];
  isDeclaration f := f =? 104;
  calls l := if l =? 1 then [104; 101] else [];
  parent_function l := if l =? 3 then 102 else if l =? 4 then 103 else 100;
  contains A B := (A =? 1) && (B =? 2) || (A =? B) |}.
Lemma demo_program_laws : ProgramLaws (H := demo_program).
Proof.
  constructor. intros f g. cbn. repeat destruct (f =? _); intros Hg; try (by apply elem_of_nil in Hg);
    repeat (apply elem_of_cons in Hg as [->|Hg]; [by apply (bool_decide_eq_true_1 _)|]); by apply elem_of_nil in Hg.
Qed.

Definition saves (n : Z) : Strategy := MkStrat new_plan n n [] 0.
Definition demo_hot : list (Z * option Strategy) := [(1, Some (saves 10)); (9, None); (2, Some (saves 7)); (3, Some (saves 5)); (4, Some (saves 4))].

Lemma planner_best_loops_witness :
  ∃ C, plan_loops (H := demo_program) demo_hot = Some (C, sumZ (saving demo_hot) C) ∧ compatible (H := demo_program) demo_hot C ∧
    ∀ D, compatible (H := demo_program) demo_hot D → sumZ (saving demo_hot) D ≤ sumZ (saving demo_hot) C.
Proof.
  apply (planner_best_loops (H := demo_program) demo_program_laws).
  - apply Forall_forall. by repeat constructor.
  - by vm_compute.
Defined.

(** Loops 2, 3 and 4 save more than loops 1 and 4. *)
Example demo_planned : plan_loops (H := demo_program) demo_hot = Some ([3; 2; 1], 16).
Proof. by vm_compute. Qed.
