(* ===== verification/BoundMalloc.v ===== *)
(** The allocator of the memory profiler:
    [lib/SLAMP/SLAMPlib/hooks/slamp_bound_malloc.cpp].

    Objects are taken from a large heap one after the other and are never reused.
    The word before an object has its size.  A table counts the objects that are
    alive on every page; a page on which the last one is freed, and on which no more
    will be put, is given back to the system. *)
From S2P Require Import Prelude Machine.
#[local] Open Scope Z_scope.

(** ** The heap *)

Definition unit_sz : Z := 0x100000000.
Definition unit_mask : Z := u64 (Z.lnot (unit_sz - 1)).

(** The globals of the file; [obj_sizes] has the words before the objects, and
    [unmapped] the pages that were given back. *)
Record BoundHeap := MkHeap {
  heap_begin : Z;
  heap_end : Z;
  heap_next : Z;
  obj_sizes : gmap Z Z;
  page_alive_ptr_count : gmap Z Z;
  unmapped : gset Z }.

Definition set_heap_next (a : Z) (h : BoundHeap) : BoundHeap :=
  MkHeap (heap_begin h) (heap_end h) a (obj_sizes h) (page_alive_ptr_count h) (unmapped h).
Definition set_obj_sizes (m : gmap Z Z) (h : BoundHeap) : BoundHeap :=
  MkHeap (heap_begin h) (heap_end h) (heap_next h) m (page_alive_ptr_count h) (unmapped h).
Definition set_page_count (m : gmap Z Z) (h : BoundHeap) : BoundHeap :=
  MkHeap (heap_begin h) (heap_end h) (heap_next h) (obj_sizes h) m (unmapped h).
Definition set_unmapped (s : gset Z) (h : BoundHeap) : BoundHeap :=
  MkHeap (heap_begin h) (heap_end h) (heap_next h) (obj_sizes h) (page_alive_ptr_count h) s.

Abbreviation HeapM A := (M BoundHeap A) (only parsing).

(** The heap goes from the first unit boundary after the break, [sbrk(0)], to the
    bound, or to the first unit that cannot be mapped. *)
Definition units (first bound : Z) : list Z :=
  (λ k, first + unit_sz * k) <$> seqZ 0 ((bound - first + (unit_sz - 1)) / unit_sz).
Definition init_bound_malloc (brk heap_bound : Z) (mmap_fails : Z → bool) : BoundHeap :=
  let first := Z.land (u64 (brk + (unit_sz - 1))) unit_mask in
  let last := match filter (λ addr, mmap_fails addr = true) (units first heap_bound) with
              | addr :: _ => addr
              | [] => heap_bound
              end in
  MkHeap first last first ∅ ∅ ∅.

(** ** Objects *)

Definition page_of (a : Z) : Z := Z.land (u64 a) PAGE_MASK.
(** [for (page = first; page <= last; page += pagesize)] *)
Definition pages_between (first last : Z) : list Z :=
  (λ k, first + PAGE_SIZE * k) <$> seqZ 0 ((last - first) / PAGE_SIZE + 1).

(** The pages of [OBJ_BEGIN] to [OBJ_END]. *)
Definition obj_pages (ptr size : Z) : list Z := pages_between (page_of (ptr - 16)) (page_of (ptr + size - 1)).

(** Words of the heap can be accessed where it is mapped. *)
Definition heap_mapped (a : Z) (h : BoundHeap) : bool :=
  (heap_begin h <=? a) && (a <? heap_end h) && negb (bool_decide (page_of a ∈ unmapped h)).
Definition GET_SIZE (ptr : Z) : HeapM Z :=
  let! ok := gets (heap_mapped (u64 (ptr - 8))) in
  if ok : bool then gets (λ h, default 0 (obj_sizes h !! u64 (ptr - 8))) else halt Fault.
Definition put_size (a sz : Z) : HeapM unit :=
  let! ok := gets (heap_mapped a) in
  if ok : bool then modify (λ h, set_obj_sizes (<[a := sz]> (obj_sizes h)) h) else halt Fault.

Definition get_object_size (ptr : Z) : HeapM Z := GET_SIZE ptr.

(** ** Allocation *)

Definition count_up (page : Z) : HeapM unit :=
  modify (λ h, set_page_count
    (match page_alive_ptr_count h !! page with
     | None => <[page := 1]> (page_alive_ptr_count h)
     | Some n => <[page := u32 (n + 1)]> (page_alive_ptr_count h)
     end) h).

Definition bound_malloc (size alignment : Z) : HeapM Z :=
  let sz := ROUND_UP size alignment in
  if negb (Z.land alignment (u64 (alignment - 1)) =? 0) then halt (Exited (-1))
  else
    let! next := gets heap_next in
    let result := ROUND_UP (u64 (next + 8)) alignment in
    modify (set_heap_next (u64 (result - 8))) ;;;
    put_size (u64 (result - 8)) sz ;;;
    modify (set_heap_next (u64 (result - 8 + (8 + sz)))) ;;;
    let! next := gets heap_next in
    let! last := gets heap_end in
    if last <=? next then halt (Exited (-1))
    else
      for_ (obj_pages result size) count_up ;;;
      ret result.

(** ** Deallocation *)

(** One page of the object: the pages that are given back so far are a first page
    and a number of pages, if there are any. *)
Definition free_page (purged : option (Z * Z)) (page : Z) : HeapM (option (Z * Z)) :=
  let! count := gets (λ h, page_alive_ptr_count h !! page) in
  match count with
  | None => ret purged
  | Some n =>
      modify (λ h, set_page_count (<[page := u32 (n - 1)]> (page_alive_ptr_count h)) h) ;;;
      let! next := gets heap_next in
      if (u32 (n - 1) =? 0) && (page + PAGE_SIZE <=? next) then
        modify (λ h, set_unmapped ({[page]} ∪ unmapped h) h) ;;;
        ret (match purged with None => Some (page, 1) | Some (first, cnt) => Some (first, cnt + 1) end)
      else ret purged
  end.
Fixpoint free_pages (pages : list Z) (purged : option (Z * Z)) : HeapM (option (Z * Z)) :=
  match pages with
  | [] => ret purged
  | page :: pages' => let! purged := free_page purged page in free_pages pages' purged
  end.

(** The result is [starting_page] and [purge_cnt] if a page was given back. *)
Definition bound_free (ptr : Z) : HeapM (option (Z * Z)) :=
  if ptr =? 0 then ret None
  else
    let! first := gets heap_begin in
    let! last := gets heap_end in
    if (ptr <? first) || (last <=? ptr) then ret None
    else
      let! size := GET_SIZE ptr in
      free_pages (obj_pages ptr size) None.

Definition bound_discard_page : HeapM unit :=
  modify (λ h, set_heap_next (Z.land (u64 (heap_next h + (PAGE_SIZE - 1))) PAGE_MASK) h) ;;;
  let! next := gets heap_next in
  let! last := gets heap_end in
  if last <=? next then halt (Exited 0) else ret tt.

(** ** Pages *)

Lemma page_of_spec a : 0 ≤ a < 2 ^ 64 → page_of a = a - a mod PAGE_SIZE.
Proof. intros Ha. unfold page_of. rewrite wrap_small by done. by apply PAGE_MASK_spec. Qed.

(** Pages as their first addresses. *)
Definition page_aligned (p : Z) : Prop := p mod PAGE_SIZE = 0.

Lemma page_of_aligned a : 0 ≤ a < 2 ^ 64 → page_aligned (page_of a).
Proof. intros. unfold page_aligned. rewrite page_of_spec by done. unfold PAGE_SIZE. Z.to_euclidean_division_equations. lia. Qed.

Lemma elem_of_pages_between p first last : page_aligned first → page_aligned last →
  p ∈ pages_between first last ↔ page_aligned p ∧ first ≤ p ≤ last.
Proof.
  unfold page_aligned, pages_between, PAGE_SIZE. intros Hf Hl. rewrite list_elem_of_fmap. split.
  - intros (k & -> & Hk%elem_of_seqZ). Z.to_euclidean_division_equations. lia.
  - intros [Hp Hb]. exists ((p - first) / (4 * 1024)). rewrite elem_of_seqZ. Z.to_euclidean_division_equations. lia.
Qed.

Lemma pages_between_nodup first last : NoDup (pages_between first last).
Proof. apply NoDup_fmap_2; [intros x y; unfold PAGE_SIZE; lia|apply NoDup_seqZ]. Qed.

(** A page has an address between its first one and the next page. *)
Lemma page_of_iff a p : 0 ≤ a < 2 ^ 64 → page_of a = p ↔ page_aligned p ∧ p ≤ a < p + PAGE_SIZE.
Proof.
  intros Ha. rewrite page_of_spec by done. unfold page_aligned, PAGE_SIZE. split.
  - intros <-. Z.to_euclidean_division_equations. lia.
  - intros [Hp Hb]. Z.to_euclidean_division_equations. lia.
Qed.

Lemma page_of_le a b : 0 ≤ a ≤ b → b < 2 ^ 64 → page_of a ≤ page_of b.
Proof. intros. rewrite !page_of_spec by lia. unfold PAGE_SIZE. Z.to_euclidean_division_equations. lia. Qed.

Lemma page_aligned_step p : page_aligned p → page_aligned (p + PAGE_SIZE) ∧ page_aligned (p - PAGE_SIZE).
Proof. unfold page_aligned, PAGE_SIZE. intros. Z.to_euclidean_division_equations. lia. Qed.

Lemma aligned_gap p q : page_aligned p → page_aligned q → p < q → p + PAGE_SIZE ≤ q.
Proof. unfold page_aligned, PAGE_SIZE. intros. Z.to_euclidean_division_equations. lia. Qed.

Lemma pages_between_cons first last : page_aligned first → page_aligned last → first ≤ last →
  pages_between first last = first :: pages_between (first + PAGE_SIZE) last.
Proof.
  unfold page_aligned, pages_between, PAGE_SIZE. intros Hf Hl Hle.
  replace ((last - first) / (4 * 1024) + 1) with (Z.succ ((last - (first + 4 * 1024)) / (4 * 1024) + 1))
    by (Z.to_euclidean_division_equations; lia).
  rewrite seqZ_cons by (Z.to_euclidean_division_equations; lia). rewrite Z.pred_succ, fmap_cons. f_equal; [lia|].
  change (Z.succ 0) with (1 + 0). rewrite <-fmap_add_seqZ, <-list_fmap_compose. apply list_fmap_ext. intros i k _. simpl. lia.
Qed.

Lemma pages_between_snoc first last : page_aligned first → page_aligned last → first ≤ last →
  pages_between first last = pages_between first (last - PAGE_SIZE) ++ [last].
Proof.
  unfold page_aligned, pages_between, PAGE_SIZE. intros Hf Hl Hle.
  replace ((last - first) / (4 * 1024) + 1) with (((last - 4 * 1024 - first) / (4 * 1024) + 1) + 1)
    by (Z.to_euclidean_division_equations; lia).
  rewrite seqZ_snoc by (Z.to_euclidean_division_equations; lia). rewrite fmap_app. f_equal. simpl. f_equal.
  Z.to_euclidean_division_equations. lia.
Qed.

Lemma pages_between_nil first last : last < first → page_aligned first → page_aligned last → pages_between first last = [].
Proof.
  unfold page_aligned, pages_between, PAGE_SIZE. intros. by rewrite seqZ_nil by (Z.to_euclidean_division_equations; lia).
Qed.

(** The first and the last page are all that a condition can drop if it holds
    strictly between them. *)
Lemma filter_pages_between (P : Z → Prop) `{∀ p, Decision (P p)} first last : page_aligned first → page_aligned last →
  (∀ p, page_aligned p → first < p < last → P p) →
  ∃ first' last', page_aligned first' ∧ page_aligned last' ∧ filter P (pages_between first last) = pages_between first' last'.
Proof.
  intros Hf Hl Hmid. destruct (page_aligned_step first Hf) as [Hf1 _], (page_aligned_step last Hl) as [_ Hl1].
  destruct (decide (last < first)).
  { exists first, last. by rewrite pages_between_nil by (done || lia). }
  assert (∀ a b, page_aligned a → page_aligned b → first ≤ a → b ≤ last → (a = first → P a) → (b = last → P b) →
    ∃ f' l', page_aligned f' ∧ page_aligned l' ∧ filter P (pages_between a b) = pages_between f' l') as Hall.
  { intros a b Ha Hb H1 H2 H3 H4. exists a, b. do 2 (split; [done|]). apply filter_all.
    intros p [Hp Hpb]%elem_of_pages_between; [|done..].
    destruct (decide (p = first)) as [->|]; [replace first with a by lia; apply H3; lia|].
    destruct (decide (p = last)) as [->|]; [replace last with b by lia; apply H4; lia|]. apply Hmid; [done|lia]. }
  destruct (decide (P first)) as [Pf|Pf], (decide (P last)) as [Pl|Pl].
  - by apply Hall.
  - rewrite pages_between_snoc, filter_app, filter_cons_False, filter_nil, app_nil_r by (done || lia).
    apply Hall; try done; unfold PAGE_SIZE; lia.
  - rewrite pages_between_cons, filter_cons_False by (done || lia). apply Hall; try done; unfold PAGE_SIZE; lia.
  - rewrite pages_between_cons, filter_cons_False by (done || lia). destruct (decide (first = last)) as [->|].
    + rewrite pages_between_nil by (done || unfold PAGE_SIZE; lia). exists (last + PAGE_SIZE), last.
      by rewrite pages_between_nil by (done || unfold PAGE_SIZE; lia).
    + rewrite pages_between_snoc by (done || (apply aligned_gap; done || lia)). rewrite filter_app, filter_cons_False, filter_nil, app_nil_r by done.
      apply Hall; try done; unfold PAGE_SIZE; lia.
Qed.

(** ** The loops over pages *)

(** The pages of the result of [bound_free]. *)
Definition purged_pages (r : option (Z * Z)) : list Z :=
  match r with None => [] | Some (first, cnt) => (λ k, first + PAGE_SIZE * k) <$> seqZ 0 cnt end.

Definition next_purged (purged : option (Z * Z)) (page : Z) : option (Z * Z) :=
  match purged with None => Some (page, 1) | Some (first, cnt) => Some (first, cnt + 1) end.

(** A page that is given back when the next object on it is freed. *)
Definition purgeable (h : BoundHeap) (p : Z) : Prop :=
  page_alive_ptr_count h !! p = Some 1 ∧ p + PAGE_SIZE ≤ heap_next h.
#[global] Instance purgeable_dec h p : Decision (purgeable h p).
Proof. unfold purgeable. apply _. Defined.

(** Counts on the pages of a list are changed, everything else is kept. *)
Record recounted (f : option Z → option Z) (l : list Z) (h h' : BoundHeap) : Prop := {
  rc_begin : heap_begin h' = heap_begin h;
  rc_end : heap_end h' = heap_end h;
  rc_next : heap_next h' = heap_next h;
  rc_sizes : obj_sizes h' = obj_sizes h;
  rc_count : ∀ p, page_alive_ptr_count h' !! p =
    if decide (p ∈ l) then f (page_alive_ptr_count h !! p) else page_alive_ptr_count h !! p }.

Definition up_count (c : option Z) : option Z := Some (match c with None => 1 | Some n => u32 (n + 1) end).
Definition down_count (c : option Z) : option Z := (λ n, u32 (n - 1)) <$> c.

Lemma recounted_nil f h : recounted f [] h h.
Proof. by constructor. Qed.

Lemma recounted_cons f p l h h1 h' : (p ∉ l) → recounted f [p] h h1 → recounted f l h1 h' → recounted f (p :: l) h h'.
Proof.
  intros Hp [A1 A2 A3 A4 A5] [B1 B2 B3 B4 B5]. constructor; [congruence..|]. intros q. rewrite B5.
  destruct (decide (q ∈ l)) as [Hq|Hq].
  - rewrite decide_True by (apply elem_of_cons; by right). rewrite A5, decide_False; [done|].
    intros ->%list_elem_of_singleton. done.
  - rewrite A5. destruct (decide (q = p)) as [->|Hne].
    + rewrite decide_True by by apply list_elem_of_singleton. by rewrite decide_True by (apply elem_of_cons; by left).
    + rewrite decide_False by (by intros ?%list_elem_of_singleton). rewrite decide_False; [done|]. by intros [?|?]%elem_of_cons.
Qed.

Lemma recounted_insert f p v h : f (page_alive_ptr_count h !! p) = Some v →
  recounted f [p] h (set_page_count (<[p := v]> (page_alive_ptr_count h)) h).
Proof.
  intros E. constructor; try done. intros q. cbn. rewrite lookup_insert. destruct (decide (p = q)) as [->|Hne].
  - by rewrite decide_True by by apply list_elem_of_singleton.
  - rewrite decide_False; [done|]. by intros ->%list_elem_of_singleton.
Qed.

Lemma count_up_run p h : ∃ h', count_up p h = Ok tt h' ∧ recounted up_count [p] h h' ∧ unmapped h' = unmapped h.
Proof.
  eexists. split; [done|]. cbv beta. split; [|done].
  destruct (page_alive_ptr_count h !! p) as [n|] eqn:E; apply recounted_insert; by rewrite E.
Qed.

Lemma count_pages_run l : ∀ h, NoDup l →
  ∃ h', for_ l count_up h = Ok tt h' ∧ recounted up_count l h h' ∧ unmapped h' = unmapped h.
Proof.
  induction l as [|p l IH]; intros h Hnd; cbn [for_].
  - exists h. split; [done|]. split; [apply recounted_nil|done].
  - apply NoDup_cons in Hnd as [Hp Hnd]. destruct (count_up_run p h) as (h1 & E1 & R1 & U1). unfold bind. rewrite E1.
    destruct (IH h1 Hnd) as (h' & E & R & U). exists h'. split; [done|]. split; [by eapply recounted_cons|congruence].
Qed.

Lemma purgeable_recounted f l h h' p : recounted f l h h' → (p ∉ l) → purgeable h' p ↔ purgeable h p.
Proof. intros [_ _ Hn _ Hc] Hp. unfold purgeable. by rewrite Hn, Hc, decide_False. Qed.

Lemma free_page_run p acc h : (∀ n, page_alive_ptr_count h !! p = Some n → 1 ≤ n < 2 ^ 32) →
  ∃ h', free_page acc p h = Ok (if decide (purgeable h p) then next_purged acc p else acc) h' ∧
    recounted down_count [p] h h' ∧
    unmapped h' = if decide (purgeable h p) then {[p]} ∪ unmapped h else unmapped h.
Proof.
  intros Hn. unfold free_page, bind, gets, modify, ret. cbn.
  destruct (page_alive_ptr_count h !! p) as [n|] eqn:E.
  - specialize (Hn n eq_refl). rewrite wrap_small by lia. cbn.
    assert (recounted down_count [p] h (set_page_count (<[p := n - 1]> (page_alive_ptr_count h)) h)) as Hr.
    { apply recounted_insert. rewrite E. cbn. by rewrite wrap_small by lia. }
    destruct (decide (purgeable h p)) as [[Hc Hp]|Hp].
    + rewrite E in Hc. injection Hc as ->. rewrite (proj2 (Z.leb_le _ _) Hp). cbn. eexists. split; [reflexivity|]. split; [|done].
      destruct Hr as [H1 H2 H3 H4 H5]. constructor; [done..|exact H5].
    + replace ((n - 1 =? 0) && (p + PAGE_SIZE <=? heap_next h)) with false; [by eexists|].
      symmetry. apply andb_false_iff. rewrite Z.eqb_neq, Z.leb_gt. destruct (decide (n = 1)) as [->|]; [|left; lia].
      right. apply Z.nle_gt. intros ?. by destruct Hp.
  - destruct (decide (purgeable h p)) as [[? _]|]; [congruence|]. exists h. split; [done|]. split; [|done].
    constructor; try done. intros q. destruct (decide (q ∈ [p])) as [->%list_elem_of_singleton|]; [|done]. by rewrite E.
Qed.

Lemma free_pages_run l : ∀ acc h, NoDup l → (∀ p n, p ∈ l → page_alive_ptr_count h !! p = Some n → 1 ≤ n < 2 ^ 32) →
  ∃ h', free_pages l acc h = Ok (foldl next_purged acc (filter (purgeable h) l)) h' ∧
    recounted down_count l h h' ∧ unmapped h' = list_to_set (filter (purgeable h) l) ∪ unmapped h.
Proof.
  induction l as [|p l IH]; intros acc h Hnd Hn; cbn [free_pages].
  - exists h. split; [done|]. split; [apply recounted_nil|]. rewrite filter_nil. by rewrite list_to_set_nil, union_empty_l_L.
  - apply NoDup_cons in Hnd as [Hp Hnd].
    destruct (free_page_run p acc h) as (h1 & E1 & R1 & U1); [intros n; apply Hn, elem_of_cons; by left|].
    unfold bind. rewrite E1.
    assert (∀ q, q ∈ l → q ∉ [p]) as Hnp by (intros q Hq ->%list_elem_of_singleton; done).
    destruct (IH (if decide (purgeable h p) then next_purged acc p else acc) h1 Hnd) as (h' & E & R & U).
    { intros q n Hq. rewrite (rc_count _ _ _ _ R1), decide_False by by apply Hnp. apply Hn, elem_of_cons. by right. }
    assert (filter (purgeable h1) l = filter (purgeable h) l) as Ef.
    { apply filter_same. intros q Hq. eapply purgeable_recounted; [done|by apply Hnp]. }
    rewrite Ef in E, U. exists h'. split; [|split; [by eapply recounted_cons|]].
    + rewrite E. f_equal. rewrite filter_cons. by destruct (decide (purgeable h p)).
    + rewrite U, U1, filter_cons. destruct (decide (purgeable h p)); [|done]. rewrite list_to_set_cons, !union_assoc_L. f_equal. apply union_comm_L.
Qed.

(** Consecutive pages are what the first page and their number say. *)
Lemma purged_consecutive first last : page_aligned first → page_aligned last →
  purged_pages (foldl next_purged None (pages_between first last)) = pages_between first last.
Proof.
  intros Hf Hl. unfold pages_between. set (n := (last - first) / PAGE_SIZE + 1).
  assert (∀ n, 0 ≤ n → foldl next_purged None ((λ k, first + PAGE_SIZE * k) <$> seqZ 0 n) = if n =? 0 then None else Some (first, n)) as H.
  { apply Z_up_ind; [done|]. intros k Hk IH. rewrite seqZ_snoc by done. rewrite fmap_app, foldl_app, IH. cbn.
    rewrite (proj2 (Z.eqb_neq (k + 1) 0)) by lia. destruct (Z.eqb_spec k 0) as [->|]; [|done].
    cbn -[PAGE_SIZE]. by rewrite Z.mul_0_r, Z.add_0_r. }
  destruct (decide (0 ≤ n)) as [Hn|Hn]; [|by rewrite seqZ_nil by lia].
  rewrite H by done. destruct (Z.eqb_spec n 0) as [->|]; done.
Qed.

(** ** The heap and its live objects *)

(** An object: its address, its size, and its size rounded up to its alignment. *)
Record Obj := MkObj { o_ptr : Z; o_size : Z; o_room : Z }.
#[global] Instance Obj_eq_dec : EqDecision Obj.
Proof. solve_decision. Defined.

Definition touches (p : Z) (o : Obj) : Prop := p ∈ obj_pages (o_ptr o) (o_size o).
#[global] Instance touches_dec p o : Decision (touches p o).
Proof. unfold touches. apply _. Defined.
Definition alive (live : list Obj) (p : Z) : Z := Z.of_nat (length (filter (touches p) live)).

(** What an object occupies, with the two words before it. *)
Record obj_ok (h : BoundHeap) (o : Obj) : Prop := {
  ob_begin : heap_begin h + 16 ≤ o_ptr o;
  ob_aligned : o_ptr o mod 16 = 0;
  ob_size : 0 ≤ o_size o ≤ o_room o;
  ob_next : o_ptr o + o_room o ≤ heap_next h;
  ob_header : obj_sizes h !! (o_ptr o - 8) = Some (o_room o);
  ob_pages : page_of (o_ptr o + o_room o - 1) = page_of (o_ptr o + o_size o - 1) }.

Definition apart (o1 o2 : Obj) : Prop := o_ptr o1 + o_room o1 ≤ o_ptr o2 - 16 ∨ o_ptr o2 + o_room o2 ≤ o_ptr o1 - 16.

Record heap_ok (live : list Obj) (h : BoundHeap) : Prop := {
  hk_begin : 0 < heap_begin h ∧ page_aligned (heap_begin h);
  hk_next : heap_begin h ≤ heap_next h ∧ heap_next h mod 16 = 0;
  hk_end : heap_next h < heap_end h ≤ 2 ^ 62;
  hk_objs : ∀ o, o ∈ live → obj_ok h o;
  hk_nodup : NoDup live;
  hk_apart : ∀ o1 o2, o1 ∈ live → o2 ∈ live → o1 = o2 ∨ apart o1 o2;
  hk_count : ∀ p, default 0 (page_alive_ptr_count h !! p) = alive live p;
  hk_few : Z.of_nat (length live) < 2 ^ 32;
  hk_gone : ∀ p, p ∈ unmapped h → heap_begin h ≤ p ∧ p + PAGE_SIZE ≤ heap_next h ∧ alive live p = 0 }.

Lemma alive_cons o live p : alive (o :: live) p = (if decide (touches p o) then 1 else 0) + alive live p.
Proof. unfold alive. rewrite filter_cons. destruct (decide (touches p o)); cbn [length]; lia. Qed.

Lemma alive_bound live p : 0 ≤ alive live p ≤ Z.of_nat (length live).
Proof. unfold alive. pose proof (length_filter (touches p) live). lia. Qed.

Lemma alive_pos live p : 0 < alive live p ↔ ∃ o, o ∈ live ∧ touches p o.
Proof.
  unfold alive. split.
  - destruct (filter (touches p) live) as [|o l] eqn:E; [simpl; lia|]. intros _. exists o.
    assert (o ∈ filter (touches p) live) as [? ?]%list_elem_of_filter by (rewrite E; apply elem_of_cons; by left). done.
  - intros (o & Ho & Ht). assert (o ∈ filter (touches p) live) as Hf by by apply list_elem_of_filter.
    destruct (filter (touches p) live); [by apply elem_of_nil in Hf|simpl; lia].
Qed.

(** The live objects without one of them. *)
Definition without (o : Obj) (live : list Obj) : list Obj := filter (λ o', o' ≠ o) live.

Lemma alive_without o live p : NoDup live → o ∈ live →
  alive (without o live) p = alive live p - (if decide (touches p o) then 1 else 0).
Proof.
  intros Hnd Ho. apply list_elem_of_split in Ho as (l1 & l2 & ->).
  apply NoDup_app in Hnd as (H1 & H2 & [H3 H4]%NoDup_cons).
  assert (without o (l1 ++ o :: l2) = l1 ++ l2) as ->.
  { unfold without. rewrite filter_app, filter_cons_False by (by intros ?). f_equal; apply filter_all; intros x Hx ->; [|done].
    eapply H2; [done|apply elem_of_cons; by left]. }
  unfold alive. rewrite !filter_app, filter_cons, !length_app. destruct (decide (touches p o)); cbn [length]; lia.
Qed.

(** The pages of an object, and those it has for itself. *)
Lemma obj_pages_ends h o : obj_ok h o → 0 < heap_begin h → heap_next h < 2 ^ 62 →
  page_aligned (page_of (o_ptr o - 16)) ∧ page_aligned (page_of (o_ptr o + o_size o - 1)) ∧
  (∀ p, touches p o ↔ page_aligned p ∧ page_of (o_ptr o - 16) ≤ p ≤ page_of (o_ptr o + o_size o - 1)) ∧
  page_of (o_ptr o - 16) ≤ o_ptr o - 16 < page_of (o_ptr o - 16) + PAGE_SIZE ∧
  page_of (o_ptr o + o_size o - 1) ≤ o_ptr o + o_room o - 1 < page_of (o_ptr o + o_size o - 1) + PAGE_SIZE.
Proof.
  intros [H1 H2 H3 H4 H5 H6] Hb Hn.
  assert (page_aligned (page_of (o_ptr o - 16))) as A1 by (apply page_of_aligned; lia).
  assert (page_aligned (page_of (o_ptr o + o_size o - 1))) as A2 by (apply page_of_aligned; lia).
  do 2 (split; [done|]). split; [by intros p; apply elem_of_pages_between|].
  split; [|rewrite <-H6]; apply page_of_iff; try done; lia.
Qed.

(** A page strictly inside an object has no other object. *)
Lemma inside_alone live h o p : heap_ok live h → o ∈ live → page_aligned p →
  page_of (o_ptr o - 16) < p < page_of (o_ptr o + o_size o - 1) → alive live p = 1 ∧ p + PAGE_SIZE ≤ heap_next h.
Proof.
  intros Hh Ho Hp Hin. pose proof Hh as [[Hb _] _ [Hn He] Hobj Hnd Hap _ _ _].
  destruct (obj_pages_ends h o (Hobj o Ho) Hb ltac:(lia)) as (A1 & A2 & Ht & B1 & B2).
  pose proof (aligned_gap _ _ A1 Hp ltac:(lia)). pose proof (aligned_gap _ _ Hp A2 ltac:(lia)).
  pose proof (ob_next _ _ (Hobj o Ho)). split; [|lia].
  assert (alive (without o live) p = 0) as Hz.
  { destruct (decide (0 < alive (without o live) p)) as [(o' & Ho' & Ht')%alive_pos|].
    2:{ pose proof (alive_bound (without o live) p). lia. }
    apply list_elem_of_filter in Ho' as [Hne Ho'].
    destruct (obj_pages_ends h o' (Hobj o' Ho') Hb ltac:(lia)) as (_ & _ & Hto & C1 & C2). apply Hto in Ht' as [_ Hb'].
    pose proof (ob_size _ _ (Hobj o' Ho')). destruct (Hap o o' Ho Ho') as [->|[Ha|Ha]]; [done|lia|lia]. }
  rewrite alive_without, decide_True in Hz; [lia|apply Ht; split; [done|lia]|done|done].
Qed.

(** ** Allocation keeps the heap *)

Lemma land_pow2_pred j : 0 ≤ j < 64 → Z.land (2 ^ j) (u64 (2 ^ j - 1)) = 0.
Proof.
  intros Hj. rewrite wrap_small by (split; [lia|]; pose proof (Z.pow_le_mono_r 2 j 64); lia).
  replace (2 ^ j - 1) with (Z.ones j) by (rewrite Z.ones_equiv; lia). rewrite Z.land_ones by lia. apply Z.mod_same. lia.
Qed.

(** The block that an allocation takes. *)
Lemma block_taken h size j : heap_next h mod 16 = 0 → 0 ≤ heap_next h → 0 ≤ size → 4 ≤ j ≤ 12 →
  heap_next h + size + 2 ^ j * 2 + 8 < 2 ^ 62 →
  let p := ROUND_UP (u64 (heap_next h + 8)) (2 ^ j) in
  let r := ROUND_UP size (2 ^ j) in
  heap_next h + 16 ≤ p ∧ p mod 2 ^ j = 0 ∧ size ≤ r < size + 2 ^ j ∧ r mod 2 ^ j = 0 ∧ p < heap_next h + 8 + 2 ^ j ∧
  p mod 16 = 0 ∧ r mod 16 = 0 ∧ page_of (p + r - 1) = page_of (p + size - 1).
Proof.
  intros Hn Hn0 Hs Hj Hroom. cbv zeta. rewrite wrap_small by (pose proof (Z.pow_pos_nonneg 2 j); lia).
  pose proof (Z.pow_pos_nonneg 2 j).
  destruct (ROUND_UP_spec (heap_next h + 8) j) as [P1 P2]; [lia..|].
  destruct (ROUND_UP_spec size j) as [R1 R2]; [lia..|].
  set (p := ROUND_UP (heap_next h + 8) (2 ^ j)) in *. set (r := ROUND_UP size (2 ^ j)) in *.
  assert (2 ^ j = 16 * 2 ^ (j - 4) ∧ PAGE_SIZE = 2 ^ j * 2 ^ (12 - j)) as [E1 E2].
  { split; [change 16 with (2 ^ 4)|change PAGE_SIZE with (2 ^ 12)]; rewrite <-Z.pow_add_r by lia; f_equal; lia. }
  assert (∀ x, x mod 2 ^ j = 0 → x mod 16 = 0) as H16.
  { intros x Hx. apply Z.mod_divide in Hx as [k ->]; [|lia]. rewrite E1. apply Z.mod_divide; [lia|]. exists (k * 2 ^ (j - 4)). lia. }
  assert (p mod 16 = 0) as P16 by by apply H16.
  split; [Z.to_euclidean_division_equations; lia|]. do 6 (split; [auto; lia|]).
  destruct (decide (size = 0)) as [->|].
  { rewrite Z.mod_small in R2 by lia. by rewrite R2. }
  apply Z.mod_divide in P2 as [a Ea]; [|lia]. apply Z.mod_divide in R2 as [b Eb]; [|lia].
  assert (∃ q, (p + r - 1) / 2 ^ j = q ∧ (p + size - 1) / 2 ^ j = q) as (q & Q1 & Q2).
  { exists (a + b - 1). split; symmetry;
      [apply (Z.div_unique_pos _ _ _ (2 ^ j - 1))|apply (Z.div_unique_pos _ _ _ (size - 1 - (b - 1) * 2 ^ j))]; lia. }
  assert (∀ x, 0 ≤ x < 2 ^ 64 → page_of x = PAGE_SIZE * (x / 2 ^ j / 2 ^ (12 - j))) as Hpg.
  { intros x Hx. rewrite page_of_spec by done. rewrite Zdiv_Zdiv, <-E2 by lia. pose proof (Z.div_mod x PAGE_SIZE). unfold PAGE_SIZE in *. lia. }
  rewrite !Hpg by lia. by rewrite Q1, Q2.
Qed.

Record allocated_in (live : list Obj) (h : BoundHeap) (size j p : Z) (h' : BoundHeap) : Prop := {
  ai_ok : heap_ok (MkObj p size (ROUND_UP size (2 ^ j)) :: live) h';
  ai_fresh : heap_next h + 16 ≤ p;
  ai_aligned : p mod 2 ^ j = 0;
  ai_bounds : heap_begin h' = heap_begin h ∧ heap_end h' = heap_end h ∧ heap_next h' = p + ROUND_UP size (2 ^ j);
  ai_unmapped : unmapped h' = unmapped h }.

Lemma up_alive (h h' : BoundHeap) live o l : Z.of_nat (length live) + 1 < 2 ^ 32 →
  (∀ p, default 0 (page_alive_ptr_count h !! p) = alive live p) → recounted up_count l h h' →
  (∀ p, p ∈ l ↔ touches p o) → ∀ p, default 0 (page_alive_ptr_count h' !! p) = alive (o :: live) p.
Proof.
  intros Hf Hc Hr Hl p. rewrite alive_cons, <-Hc, (rc_count _ _ _ _ Hr). pose proof (alive_bound live p) as Hb. rewrite <-Hc in Hb.
  destruct (decide (p ∈ l)) as [Hp|Hp].
  - rewrite decide_True by by apply Hl. destruct (page_alive_ptr_count h !! p); cbn in *; [rewrite wrap_small; lia|lia].
  - rewrite decide_False by by rewrite <-Hl. lia.
Qed.

Lemma bound_malloc_run live h size j : heap_ok live h → 0 ≤ size → 4 ≤ j ≤ 12 →
  heap_next h + size + 2 ^ j * 2 + 8 < heap_end h → Z.of_nat (length live) + 1 < 2 ^ 32 →
  ∃ p h', bound_malloc size (2 ^ j) h = Ok p h' ∧ allocated_in live h size j p h'.
Proof.
  intros [[B1 B2] [N1 N2] [E1 E2] Hobj Hnd Hap Hc Hf Hg] Hs Hj Hroom Hlen.
  destruct (block_taken h size j N2 ltac:(lia) Hs Hj ltac:(lia)) as (P1 & P2 & R1 & R2 & P3 & P16 & R16 & Hpg).
  unfold bound_malloc. rewrite land_pow2_pred by lia. cbn [Z.eqb negb].
  set (p := ROUND_UP (u64 (heap_next h + 8)) (2 ^ j)) in *. set (r := ROUND_UP size (2 ^ j)) in *.
  unfold bind at 1, gets at 1. fold p. unfold bind at 1, modify at 1. rewrite (wrap_small 64 (p - 8)), (wrap_small 64 (p - 8 + (8 + r))) by lia.
  unfold bind at 1, put_size, bind at 1, gets at 1. cbn [heap_mapped set_heap_next heap_begin heap_end unmapped].
  assert (heap_mapped (p - 8) (set_heap_next (p - 8) h) = true) as ->.
  { unfold heap_mapped. cbn. rewrite (proj2 (Z.leb_le _ _)), (proj2 (Z.ltb_lt _ _)) by lia. cbn.
    rewrite bool_decide_eq_false_2; [done|]. intros Hu. destruct (Hg _ Hu) as (_ & Hlt & _).
    pose proof (proj1 (page_of_iff (p - 8) _ ltac:(lia)) eq_refl). lia. }
  unfold modify at 1. cbv beta. unfold bind at 1, modify at 1. unfold bind at 1, gets at 1. unfold bind at 1, gets at 1.
  match goal with |- context [set_heap_next (p - 8 + (8 + r)) ?x] => set (h1 := set_heap_next (p - 8 + (8 + r)) x) end.
  change (heap_end h1) with (heap_end h). change (heap_next h1) with (p - 8 + (8 + r)). rewrite (proj2 (Z.leb_gt _ _)) by lia.
  destruct (count_pages_run (obj_pages p size) h1) as (h' & El & Hr & Hu); [apply pages_between_nodup|].
  unfold bind. rewrite El. exists p, h'. split; [done|]. pose proof Hr as [Rb Re Rn Rs _]. cbn in Rb, Re, Rn, Rs.
  assert (∀ o, o ∈ live → obj_ok h' o) as Hold.
  { intros o Ho. destruct (Hobj o Ho). constructor; rewrite ?Rb, ?Rn, ?Rs; try done; try lia.
    rewrite lookup_insert_ne by lia. done. }
  assert (∀ q, default 0 (page_alive_ptr_count h' !! q) = alive (MkObj p size r :: live) q) as Hcnt.
  { apply (up_alive h1 h' live (MkObj p size r) (obj_pages p size)); done. }
  constructor; [|done|done|by rewrite Rb, Re, Rn; split_and!; [..|lia]|by rewrite Hu].
  constructor; rewrite ?Rb, ?Re, ?Rn; try done; try (split; [lia|done || lia]).
  - split; [lia|]. replace (p - 8 + (8 + r)) with (p + r) by lia. Z.to_euclidean_division_equations. lia.
  - intros o [->|Ho]%elem_of_cons; [|auto]. constructor; cbn; rewrite ?Rb, ?Rn, ?Rs; try done; try lia. apply lookup_insert_eq.
  - apply NoDup_cons. split; [|done]. intros Ho. pose proof (ob_next _ _ (Hobj _ Ho)). cbn in *. lia.
  - assert (∀ o, o ∈ live → apart o (MkObj p size r)) as Hnew.
    { intros o Ho. left. cbn. pose proof (ob_next _ _ (Hobj o Ho)). lia. }
    intros o1 o2 [->|H1]%elem_of_cons [->|H2]%elem_of_cons; [by left|right|right|by auto].
    + destruct (Hnew o2 H2); [by right|by left].
    + by apply Hnew.
  - cbn [length]. lia.
  - rewrite Hu. intros q Hq. destruct (Hg q Hq) as (Hge & Hlt & Hz). split; [lia|]. split; [lia|].
    rewrite alive_cons, Hz, decide_False; [done|]. intros Ht. unfold touches in Ht. cbn in Ht.
    apply elem_of_pages_between in Ht as [_ [Ht _]]; [|apply page_of_aligned; lia..].
    pose proof (proj1 (page_of_iff (p - 16) _ ltac:(lia)) eq_refl). lia.
Qed.

(** ** Deallocation keeps the heap *)

(** [bound_free] reads the rounded size, which ends on the same page. *)
Lemma obj_pages_room h o : obj_ok h o → obj_pages (o_ptr o) (o_room o) = obj_pages (o_ptr o) (o_size o).
Proof. intros Ho. unfold obj_pages. by rewrite (ob_pages _ _ Ho). Qed.

Record freed_from (live : list Obj) (h : BoundHeap) (o : Obj) (r : option (Z * Z)) (h' : BoundHeap) : Prop := {
  ff_ok : heap_ok (without o live) h';
  ff_bounds : heap_begin h' = heap_begin h ∧ heap_end h' = heap_end h ∧ heap_next h' = heap_next h;
  ff_purged : ∀ p, p ∈ purged_pages r ↔ purgeable h p ∧ touches p o;
  ff_unmapped : ∀ p, p ∈ unmapped h' ↔ p ∈ purged_pages r ∨ p ∈ unmapped h }.

Lemma down_alive (h h' : BoundHeap) live o l : NoDup live → o ∈ live → Z.of_nat (length live) < 2 ^ 32 →
  (∀ p, default 0 (page_alive_ptr_count h !! p) = alive live p) → recounted down_count l h h' →
  (∀ p, p ∈ l ↔ touches p o) → ∀ p, default 0 (page_alive_ptr_count h' !! p) = alive (without o live) p.
Proof.
  intros Hnd Ho Hf Hc Hr Hl p. rewrite alive_without, <-Hc, (rc_count _ _ _ _ Hr) by done. pose proof (alive_bound live p) as Hb.
  destruct (decide (p ∈ l)) as [Hp|Hp].
  - assert (0 < alive live p) as Hpos by (apply alive_pos; exists o; split; [done|by apply Hl]).
    rewrite decide_True by by apply Hl. rewrite <-Hc in Hb, Hpos.
    destruct (page_alive_ptr_count h !! p); cbn in *; [rewrite wrap_small; lia|lia].
  - rewrite decide_False by by rewrite <-Hl. lia.
Qed.

Lemma bound_free_run live h o : heap_ok live h → o ∈ live →
  ∃ r h', bound_free (o_ptr o) h = Ok r h' ∧ freed_from live h o r h'.
Proof.
  intros Hh Ho. pose proof Hh as [[B1 B2] [N1 N2] [E1 E2] Hobj Hnd Hap Hc Hf Hg].
  pose proof (Hobj o Ho) as Hok. pose proof Hok as [O1 O2 O3 O4 O5 O6].
  destruct (obj_pages_ends h o Hok B1 ltac:(lia)) as (A1 & A2 & Ht & A3 & A4).
  unfold bound_free. rewrite (proj2 (Z.eqb_neq (o_ptr o) 0)) by lia. unfold bind at 1, gets at 1. unfold bind at 1, gets at 1.
  rewrite (proj2 (Z.ltb_ge _ _)), (proj2 (Z.leb_gt (heap_end h) _)) by lia. cbn [orb].
  unfold bind at 1, GET_SIZE, bind at 1, gets at 1. rewrite wrap_small by lia.
  assert (heap_mapped (o_ptr o - 8) h = true) as ->.
  { unfold heap_mapped. rewrite (proj2 (Z.leb_le _ _)), (proj2 (Z.ltb_lt _ _)) by lia. cbn.
    rewrite bool_decide_eq_false_2; [done|]. intros (_ & _ & Hz)%Hg.
    assert (0 < alive live (page_of (o_ptr o - 8))); [|lia]. apply alive_pos. exists o. split; [done|]. apply Ht.
    split; [apply page_of_aligned; lia|]. rewrite <-O6. split; apply page_of_le; lia. }
  unfold gets at 1. rewrite O5. cbn [default from_option]. change (id (o_room o)) with (o_room o). rewrite (obj_pages_room h o Hok).
  destruct (free_pages_run (obj_pages (o_ptr o) (o_size o)) None h) as (h' & E & Hr & Hu); [apply pages_between_nodup| |].
  { intros p n Hp Hn. pose proof (alive_bound live p) as Hb. specialize (Hc p). rewrite Hn in Hc. cbn in Hc.
    assert (0 < alive live p) by (apply alive_pos; by exists o). lia. }
  destruct (filter_pages_between (purgeable h) _ _ A1 A2) as (f & l & F1 & F2 & Ef).
  { intros p Hp Hin. destruct (inside_alone live h o p Hh Ho Hp Hin) as [Hal Hnx]. split; [|done].
    specialize (Hc p). rewrite Hal in Hc. destruct (page_alive_ptr_count h !! p); cbn in Hc; congruence. }
  assert (purged_pages (foldl next_purged None (filter (purgeable h) (obj_pages (o_ptr o) (o_size o)))) =
    filter (purgeable h) (obj_pages (o_ptr o) (o_size o))) as Hpp by (unfold obj_pages; rewrite Ef; by apply purged_consecutive).
  eexists _, h'. split; [exact E|]. pose proof Hr as [Rb Re Rn Rs _].
  assert (∀ q, default 0 (page_alive_ptr_count h' !! q) = alive (without o live) q) as Hcnt by by eapply down_alive.
  constructor; [|done|intros p; rewrite Hpp; apply list_elem_of_filter|intros p; by rewrite Hpp, Hu, elem_of_union, elem_of_list_to_set].
  assert (∀ x, x ∈ without o live → x ∈ live) as Hsub by (intros x [_ ?]%list_elem_of_filter; done).
  constructor; rewrite ?Rb, ?Re, ?Rn; try done.
  - intros x Hx%Hsub. destruct (Hobj x Hx). by constructor; rewrite ?Rb, ?Rn, ?Rs.
  - by apply NoDup_filter.
  - auto.
  - pose proof (length_filter (λ o', o' ≠ o) live). unfold without. lia.
  - intros p. rewrite Hu, elem_of_union, elem_of_list_to_set, list_elem_of_filter. intros [[[Hp1 Hp2] Ht']|Hp].
    + split; [|split; [done|]; rewrite alive_without, decide_True, <-Hc, Hp1 by done; done].
      apply Ht in Ht' as [_ [Hlo _]]. transitivity (page_of (o_ptr o - 16)); [|done].
      assert (page_of (heap_begin h) = heap_begin h) as <- by (apply page_of_iff; [lia|split; [done|unfold PAGE_SIZE; lia]]). apply page_of_le; lia.
    + destruct (Hg p Hp) as (? & ? & Hz). do 2 (split; [done|]). pose proof (alive_bound (without o live) p).
      rewrite alive_without in * by done. destruct (decide (touches p o)); lia.
Qed.

(** A new heap. *)
Lemma init_heap_ok brk heap_bound mmap_fails : 0 < brk → brk + unit_sz < heap_bound → heap_bound ≤ 2 ^ 62 →
  (∀ a, mmap_fails a = false) → heap_ok [] (init_bound_malloc brk heap_bound mmap_fails).
Proof.
  intros Hb Hlt Hbd Hok. unfold init_bound_malloc.
  assert (Z.land (u64 (brk + (unit_sz - 1))) unit_mask = brk + (unit_sz - 1) - (brk + (unit_sz - 1)) mod unit_sz) as ->.
  { change unit_mask with (u64 (Z.lnot (2 ^ 32 - 1))). change unit_sz with (2 ^ 32) in *.
    pose proof (ROUND_DOWN_spec (brk + (2 ^ 32 - 1)) 32) as Hr. unfold ROUND_DOWN in Hr.
    rewrite Z.land_comm, <-Hr by lia. by rewrite wrap_wrap || done. }
  rewrite filter_none by (intros a _; by rewrite Hok). unfold unit_sz in *.
  constructor; cbn [heap_begin heap_end heap_next page_alive_ptr_count unmapped]; try (unfold page_aligned, PAGE_SIZE;
    Z.to_euclidean_division_equations; lia).
  - by intros o ?%elem_of_nil.
  - apply NoDup_nil_2.
  - by intros o1 o2 ?%elem_of_nil.
  - intros p. by rewrite lookup_empty.
  - done.
  - by intros p ?%elem_of_empty.
Qed.
