(* ===== verification/Slamp.v ===== *)
(** The memory profiler: [lib/SLAMP/SLAMPlib/hooks].

    Instrumented programs call a hook for every load and store.  Every byte has a
    shadow word, the timestamp of the last store to it: instruction, iteration and
    invocation of the profiled loop.  A load looks up the timestamps of its bytes and
    adds a dependence to the log for every store in the same invocation.  Other
    modules record which loads are constant or linear in the iteration and which
    objects an access points to.  The log tells the compiler what it may speculate
    on. *)
From S2P Require Import Prelude Machine Estimate BoundMalloc.
From Stdlib Require Import SpecFloat.
From stdpp Require Import mapset sorting strings.
#[local] Open Scope Z_scope.

(** ** Timestamps: [slamp_timestamp.h] *)

Definition TIMESTAMP_SIZE_IN_BYTES : Z := 8.
Definition TIMESTAMP_SIZE_IN_POWER_OF_TWO : Z := 3.
Definition INVOCATION_SIZE : Z := 4.
Definition CREATE_TS (instr iter invoc : Z) : Z :=
  Z.lor (Z.lor (u64 (Z.shiftl instr 44)) (u64 (Z.shiftl (Z.land iter 0xffffffffff) INVOCATION_SIZE))) (Z.land invoc 0xf).
Definition GET_INSTR (ts : Z) : Z := Z.land (Z.shiftr ts 44) 0xfffff.
Definition GET_ITER (ts : Z) : Z := Z.land (Z.shiftr ts INVOCATION_SIZE) 0xffffffffff.
Definition GET_INVOC (ts : Z) : Z := Z.land ts 0xf.

(** ** Shadow memory: [slamp_shadow_mem.h] *)

Definition MASK1 : Z := 0x00007fffffffffff.
Definition MASK2 : Z := 0x0000200000000000.
Definition GET_SHADOW (addr shift : Z) : Z := Z.lxor (Z.land (u64 (Z.shiftl addr shift)) MASK1) MASK2.

(** [pages] is the page table of the class.  The shadow of a page is a region of
    eight times its size; [regions] has the first addresses of those that are
    mapped, and [words] the timestamps in them. *)
Record MemoryMap := MkMap { pages : gset Z; regions : gset Z; words : gmap Z Z; heapStart : Z }.

Definition REGION_SIZE : Z := PAGE_SIZE * TIMESTAMP_SIZE_IN_BYTES.
Definition shadow_of (addr : Z) : Z := GET_SHADOW addr TIMESTAMP_SIZE_IN_POWER_OF_TWO.
Definition region_of (x : Z) : Z := x - x mod REGION_SIZE.
Definition mapped (mm : MemoryMap) (x : Z) : bool := bool_decide (region_of x ∈ regions mm).
Definition word_at (mm : MemoryMap) (x : Z) : Z := default 0 (words mm !! x).

(** [std::set::insert], of one page and of the pages of a loop. *)
Definition gset_insert (x : Z) (X : gset Z) : gset Z := Mapset (<[x := tt]> (mapset_car X)).
Definition gset_insert_all (l : list Z) (X : gset Z) : gset Z := foldr gset_insert X l.

Lemma elem_of_gset_insert y x X : y ∈ gset_insert x X ↔ y = x ∨ y ∈ X.
Proof.
  unfold gset_insert, elem_of, gset_elem_of, mapset_elem_of. cbn. rewrite lookup_insert_Some. split.
  - intros [[-> _]|[_ ?]]; auto.
  - intros [->|?]; [by left|]. destruct (decide (x = y)); [by left|by right].
Qed.
Lemma elem_of_gset_insert_all y l X : y ∈ gset_insert_all l X ↔ y ∈ l ∨ y ∈ X.
Proof.
  induction l as [|x l IH]; cbn [gset_insert_all foldr]; [by rewrite elem_of_nil; intuition|].
  unfold gset_insert_all in IH. rewrite elem_of_gset_insert, IH, elem_of_cons. tauto.
Qed.

(** New mappings are zero; [munmap] of [n] bytes removes whole regions. *)
Definition clear_words (s n : Z) (m : gmap Z Z) : gmap Z Z := filter (λ kv, ¬ (s ≤ kv.1 < s + n)) m.
Definition mmap_region (s : Z) (mm : MemoryMap) : MemoryMap :=
  MkMap (pages mm) (gset_insert s (regions mm)) (clear_words s REGION_SIZE (words mm)) (heapStart mm).
Definition munmap_regions (s cnt : Z) (mm : MemoryMap) : MemoryMap :=
  MkMap (pages mm) (regions mm ∖ list_to_set ((λ k, s + REGION_SIZE * k) <$> seqZ 0 cnt))
    (clear_words s (REGION_SIZE * cnt) (words mm)) (heapStart mm).
Definition set_pages (P : gset Z) (mm : MemoryMap) : MemoryMap := MkMap P (regions mm) (words mm) (heapStart mm).

Definition is_allocated (mm : MemoryMap) (addr : Z) : bool := bool_decide (page_of addr ∈ pages mm).

(** The loop of [allocate], with the regions that it has mapped so far. *)
Fixpoint map_pages (mmap_fails : Z → bool) (l : list Z) (shadow_pages : list Z) (mm : MemoryMap) : bool * list Z * MemoryMap :=
  match l with
  | [] => (true, shadow_pages, mm)
  | page :: l' =>
      if decide (page ∈ pages mm) then map_pages mmap_fails l' shadow_pages mm
      else
        let s := shadow_of page in
        if mmap_fails s then (false, shadow_pages, mm)
        else map_pages mmap_fails l' (s :: shadow_pages) (mmap_region s mm)
  end.
(** The signal that is raised after a failed [mmap] is taken to be handled. *)
Definition allocate (mmap_fails : Z → bool) (addr size : Z) (mm : MemoryMap) : option Z * MemoryMap :=
  let l := pages_between (page_of addr) (page_of (addr + size - 1)) in
  match map_pages mmap_fails l [] mm with
  | (true, _, mm') => (Some (shadow_of addr), set_pages (gset_insert_all l (pages mm')) mm')
  | (false, shadow_pages, mm') => (None, foldl (λ mm s, munmap_regions s 1 mm) mm' shadow_pages)
  end.
Definition deallocate_pages (page cnt : Z) (mm : MemoryMap) : MemoryMap :=
  let mm := munmap_regions (shadow_of page) cnt mm in
  set_pages (pages mm ∖ list_to_set ((λ k, page + PAGE_SIZE * k) <$> seqZ 0 cnt)) mm.

(** ** The state *)

(** A dependence of the log: [slamp_logger.h]. *)
Record KEY := MkKey { src : Z; dst : Z; dst_bare : Z; cross : Z }.
#[global] Instance KEY_eq_dec : EqDecision KEY.
Proof. solve_decision. Defined.
#[global] Instance KEY_countable : Countable KEY.
Proof.
  refine (inj_countable' (λ k, (src k, dst k, dst_bare k, cross k)) (λ '(s, d, b, c), MkKey s d b c) _). by intros [].
Defined.

Record Constant := MkConst { c_valid : bool; c_valueinit : bool; c_size : Z; c_addr : Z; c_value : Z }.

(** [y] is a union of [int64_t] and [double]: its bits. *)
Record LinearPredictor := MkLP {
  lp_addr : Z; ia : Z; ib : Z; da : spec_float; db : spec_float; lp_x : Z; lp_y : Z;
  init : bool; ready : bool; stable : bool; valid_as_int : bool; valid_as_double : bool }.

Record InstructionRecord := MkRecord { last_addr : Z; last_iter : Z }.
Definition INVALID : Z := 2 ^ 64 - 1.

(** The globals of the loop, of the statistics and of the access modules. *)
Record LoopState := MkLoop {
  slamp_iteration : Z; slamp_invocation : Z; invokedepth : Z; context : Z; ext_context : Z }.
Record Counts := MkCounts { load_count : Z; store_count : Z; malloc_count : Z; free_count : Z; dep_count : Z }.
Record AccessModules := MkModules {
  constmap_value : gmap (Z * Z) Constant;
  constmap_addr : gmap (Z * Z) Constant;
  lpmap_value : gmap (Z * Z) LinearPredictor;
  lpmap_addr : gmap (Z * Z) LinearPredictor;
  instructionMap : gmap Z InstructionRecord;
  pointsToMap : gmap Z (gset Z) }.

(** [custom_malloc] tells whether the allocation functions of the program are those of
    the profiler. *)
Record Slamp := MkSlamp {
  s_loop : LoopState; s_counts : Counts; s_modules : AccessModules; deplog_set : gset KEY;
  smmap : MemoryMap; s_heap : BoundHeap; custom_malloc : bool }.

Definition set_loop (l : LoopState) (w : Slamp) : Slamp :=
  MkSlamp l (s_counts w) (s_modules w) (deplog_set w) (smmap w) (s_heap w) (custom_malloc w).
Definition set_counts (f : Counts → Counts) (w : Slamp) : Slamp :=
  MkSlamp (s_loop w) (f (s_counts w)) (s_modules w) (deplog_set w) (smmap w) (s_heap w) (custom_malloc w).
Definition set_modules (f : AccessModules → AccessModules) (w : Slamp) : Slamp :=
  MkSlamp (s_loop w) (s_counts w) (f (s_modules w)) (deplog_set w) (smmap w) (s_heap w) (custom_malloc w).
Definition set_deplog (s : gset KEY) (w : Slamp) : Slamp :=
  MkSlamp (s_loop w) (s_counts w) (s_modules w) s (smmap w) (s_heap w) (custom_malloc w).
Definition set_smmap (mm : MemoryMap) (w : Slamp) : Slamp :=
  MkSlamp (s_loop w) (s_counts w) (s_modules w) (deplog_set w) mm (s_heap w) (custom_malloc w).
Definition set_heap (h : BoundHeap) (w : Slamp) : Slamp :=
  MkSlamp (s_loop w) (s_counts w) (s_modules w) (deplog_set w) (smmap w) h (custom_malloc w).
Definition set_custom_malloc (b : bool) (w : Slamp) : Slamp :=
  MkSlamp (s_loop w) (s_counts w) (s_modules w) (deplog_set w) (smmap w) (s_heap w) b.

(** The modules that are switched on, and the part of the addresses to profile. *)
Record Config := MkConfig {
  DEPENDENCE_MODULE : bool; POINTS_TO_MODULE : bool; CONSTANT_ADDRESS_MODULE : bool; LINEAR_ADDRESS_MODULE : bool;
  CONSTANT_VALUE_MODULE : bool; LINEAR_VALUE_MODULE : bool; REASON_MODULE : bool; TRACE_MODULE : bool;
  LOCALWRITE_MODULE : bool; LOCALWRITE_MASK : Z; LOCALWRITE_PATTERN : Z; ASSUME_ONE_ADDR : bool }.

Abbreviation SL A := (M Slamp A) (only parsing).

Definition TURN_OFF_CUSTOM_MALLOC : SL unit := modify (set_custom_malloc false).
Definition TURN_ON_CUSTOM_MALLOC : SL unit := modify (set_custom_malloc true).

(** Shadow words; without a mapping the handler of [SIGSEGV] ends the program. *)
Definition read_ts (x : Z) : SL Z :=
  let! mm := gets smmap in if mapped mm x then ret (word_at mm x) else halt Fault.
Definition write_ts (x ts : Z) : SL unit :=
  let! mm := gets smmap in
  if mapped mm x then modify (set_smmap (MkMap (pages mm) (regions mm) (<[x := ts]> (words mm)) (heapStart mm)))
  else halt Fault.
Fixpoint read_all (l : list Z) : SL (list Z) :=
  match l with
  | [] => ret []
  | x :: l' => let! t := read_ts x in let! ts := read_all l' in ret (t :: ts)
  end.
(** [s[0]] to [s[n-1]] *)
Definition word_addrs (s n : Z) : list Z := (λ i, s + TIMESTAMP_SIZE_IN_BYTES * i) <$> seqZ 0 n.

Section Profiler.
Context (cfg : Config) (mmap_fails : Z → bool).

(** ** The log: [slamp_logger.cpp]

    The arguments of [log] that are only passed to callbacks, of which there are
    none, are left out. *)

Definition UINT32_MAX : Z := 2 ^ 32 - 1.
Definition log (ts dst_inst bare_inst : Z) : SL Z :=
  let! l := gets s_loop in
  if negb (ts =? 0) && negb (GET_INVOC ts =? GET_INVOC (slamp_invocation l)) then ret UINT32_MAX
  else if negb (ts =? 0) then
    modify (set_counts (λ c, MkCounts (load_count c) (store_count c) (malloc_count c) (free_count c) (u64 (dep_count c + 1)))) ;;;
    let src_inst := GET_INSTR ts in
    let key := MkKey src_inst dst_inst bare_inst (Z.b2z (negb (GET_ITER ts =? slamp_iteration l))) in
    modify (λ w, set_deplog ({[key]} ∪ deplog_set w) w) ;;;
    ret src_inst
  else ret UINT32_MAX.

(** The lines of the profile, in the order of [KEYComp]. *)
Definition KEYComp (k1 k2 : KEY) : bool :=
  if src k1 <? src k2 then true else if src k2 <? src k1 then false
  else if dst k1 <? dst k2 then true else if dst k2 <? dst k1 then false
  else if dst_bare k1 <? dst_bare k2 then true else if dst_bare k2 <? dst_bare k1 then false
  else cross k1 <? cross k2.
Definition key_le (k1 k2 : KEY) : Prop := KEYComp k2 k1 = false.
#[local] Instance key_le_dec k1 k2 : Decision (key_le k1 k2).
Proof. unfold key_le. apply _. Defined.
Definition print_log (target_loop_id : Z) (w : Slamp) : list (list Z) :=
  [target_loop_id; 0; 0; 0; 0; 0] ::
  ((λ k, [target_loop_id; src k; dst k; dst_bare k; (if cross k =? 0 then 0 else 1); 1]) <$>
    merge_sort key_le (elements (deplog_set w))).

(** ** Constant and linear loads *)

Definition update_const (cp : Constant) (value addr : Z) : Constant :=
  if c_valid cp then
    if c_valueinit cp && negb (c_value cp =? value) then MkConst false (c_valueinit cp) (c_size cp) (c_addr cp) (c_value cp)
    else MkConst (c_valid cp) true (c_size cp) addr value
  else cp.
Definition slamp_access_callback_constant_value (isLoad : bool) (instr bare_instr addr value size : Z) (m : AccessModules) : AccessModules :=
  if negb isLoad then m
  else
    let key := (instr, bare_instr) in
    let cp := match constmap_value m !! key with
              | Some cp => update_const cp value addr
              | None => MkConst true true size addr value
              end in
    MkModules (<[key := cp]> (constmap_value m)) (constmap_addr m) (lpmap_value m) (lpmap_addr m) (instructionMap m) (pointsToMap m).
Definition slamp_access_callback_constant_address (isLoad : bool) (instr bare_instr addr value size : Z) (m : AccessModules) : AccessModules :=
  if negb isLoad then m
  else
    let key := (instr, bare_instr) in
    let cp := match constmap_addr m !! key with
              | Some cp => update_const cp addr addr
              | None => MkConst true true size addr addr
              end in
    MkModules (constmap_value m) (<[key := cp]> (constmap_addr m)) (lpmap_value m) (lpmap_addr m) (instructionMap m) (pointsToMap m).

(** The double with the given bits. *)
Definition double_of_bits (z : Z) : spec_float :=
  let s := Z.testbit z 63 in
  let e := Z.land (Z.shiftr z 52) 0x7ff in
  let m := Z.land z (2 ^ 52 - 1) in
  if e =? 0x7ff then (if m =? 0 then S754_infinity s else S754_nan)
  else match (if e =? 0 then m else m + 2 ^ 52) with
       | Zpos p => S754_finite s p (if e =? 0 then -1074 else e - 1075)
       | _ => S754_zero s
       end.

Definition new_predictor (x1 y1 addr : Z) : LinearPredictor :=
  MkLP addr 0 0 (S754_zero false) (S754_zero false) x1 y1 false false false true true.

(** Signed arithmetic is that of two's complement. *)
Definition add_sample (lp : LinearPredictor) (x1 y1 : Z) : LinearPredictor :=
  if negb (valid_as_int lp) && negb (valid_as_double lp) then lp
  else if negb (init lp) then
    MkLP (lp_addr lp) (ia lp) (ib lp) (da lp) (db lp) x1 y1 true (ready lp) (stable lp) (valid_as_int lp) (valid_as_double lp)
  else if negb (ready lp) then
    if (lp_x lp =? x1) && negb (lp_y lp =? y1) || negb (lp_x lp =? x1) && (lp_y lp =? y1) then
      MkLP (lp_addr lp) (ia lp) (ib lp) (da lp) (db lp) (lp_x lp) (lp_y lp) (init lp) (ready lp) (stable lp) false false
    else if (lp_x lp =? x1) && (lp_y lp =? y1) then lp
    else
      let a := i64 (Z.quot (i64 (y1 - lp_y lp)) (i64 (x1 - lp_x lp))) in
      let y := double_of_bits (u64 (lp_y lp)) in
      let d := ddiv (dsub (double_of_bits (u64 y1)) y) (dsub (of_int x1) (of_int (lp_x lp))) in
      MkLP (lp_addr lp) a (i64 (lp_y lp - i64 (a * lp_x lp))) d (dsub y (dmul d (of_int (lp_x lp)))) (lp_x lp) (lp_y lp)
        (init lp) true (stable lp) (valid_as_int lp) (valid_as_double lp)
  else
    MkLP (lp_addr lp) (ia lp) (ib lp) (da lp) (db lp) (lp_x lp) (lp_y lp) (init lp) (ready lp) true
      (valid_as_int lp && (i64 (i64 (ia lp * x1) + ib lp) =? y1))
      (valid_as_double lp && SFeqb (dadd (dmul (da lp) (of_int x1)) (db lp)) (double_of_bits (u64 y1))).

Definition slamp_access_callback_linear_value (iteration : Z) (isLoad : bool) (instr bare_instr addr value size : Z)
    (m : AccessModules) : AccessModules :=
  if negb isLoad then m
  else if LINEAR_VALUE_MODULE cfg then
    let key := (instr, bare_instr) in
    let lp := match lpmap_value m !! key with
              | Some lp => add_sample lp (i64 iteration) (i64 value)
              | None => new_predictor (i64 iteration) (i64 value) addr
              end in
    MkModules (constmap_value m) (constmap_addr m) (<[key := lp]> (lpmap_value m)) (lpmap_addr m) (instructionMap m) (pointsToMap m)
  else m.
Definition slamp_access_callback_linear_address (iteration : Z) (isLoad : bool) (instr bare_instr addr value size : Z)
    (m : AccessModules) : AccessModules :=
  if negb isLoad then m
  else if LINEAR_ADDRESS_MODULE cfg then
    let key := (instr, bare_instr) in
    let lp := match lpmap_addr m !! key with
              | Some lp => add_sample lp (i64 iteration) (i64 addr)
              | None => let lp := new_predictor (i64 iteration) (i64 addr) addr in
                  MkLP (lp_addr lp) (ia lp) (ib lp) (da lp) (db lp) (lp_x lp) (lp_y lp) (init lp) (ready lp) (stable lp)
                    (valid_as_int lp) false
              end in
    MkModules (constmap_value m) (constmap_addr m) (lpmap_value m) (<[key := lp]> (lpmap_addr m)) (instructionMap m) (pointsToMap m)
  else m.

(** The callbacks that [SLAMP_init] registers, in order. *)
Definition access_callbacks (iteration : Z) : list (bool → Z → Z → Z → Z → Z → AccessModules → AccessModules) :=
  (if CONSTANT_VALUE_MODULE cfg then [slamp_access_callback_constant_value] else []) ++
  (if CONSTANT_ADDRESS_MODULE cfg then [slamp_access_callback_constant_address] else []) ++
  (if LINEAR_VALUE_MODULE cfg then [slamp_access_callback_linear_value iteration] else []) ++
  (if LINEAR_ADDRESS_MODULE cfg then [slamp_access_callback_linear_address iteration] else []).
Definition run_callbacks (isLoad : bool) (instr bare_instr addr value size : Z) : SL unit :=
  modify (λ w, set_modules (λ m, foldl (λ m f, f isLoad instr bare_instr addr value size m) m
    (access_callbacks (slamp_iteration (s_loop w)))) w).

Definition updateInstruction (instr addr : Z) : SL unit :=
  modify (λ w, set_modules (λ m, MkModules (constmap_value m) (constmap_addr m) (lpmap_value m) (lpmap_addr m)
    (<[instr := MkRecord addr (slamp_iteration (s_loop w))]> (instructionMap m)) (pointsToMap m)) w).

(** ** Allocation units *)

Definition points_to (instr ts : Z) : SL unit :=
  modify (set_modules (λ m, MkModules (constmap_value m) (constmap_addr m) (lpmap_value m) (lpmap_addr m) (instructionMap m)
    (<[instr := {[ts]} ∪ default ∅ (pointsToMap m !! instr)]> (pointsToMap m)))).

(** The timestamps of a short access: each one that is not zero, once. *)
Fixpoint for_distinct (seen : list Z) (tss : list Z) (f : Z → SL unit) : SL unit :=
  match tss with
  | [] => ret tt
  | ts :: tss' =>
      (if negb (bool_decide (ts ∈ seen)) && negb (ts =? 0) then f ts else ret tt) ;;;
      for_distinct (seen ++ [ts]) tss' f
  end.
Definition SLAMP_points_to_module_use (size instr addr : Z) : SL unit :=
  let! tss := read_all (word_addrs (shadow_of addr) size) in
  for_distinct [] tss (points_to instr).

(** The timestamps of a long access: each one, once. *)
Fixpoint for_words (m : gset Z) (l : list Z) (f : Z → SL unit) : SL unit :=
  match l with
  | [] => ret tt
  | x :: l' =>
      let! ts := read_ts x in
      (if decide (ts ∈ m) then ret tt else f ts) ;;;
      for_words ({[ts]} ∪ m) l' f
  end.
Definition SLAMP_points_to_module_use_n (instr addr size : Z) : SL unit :=
  for_words ∅ (word_addrs (shadow_of addr) (u32 size)) (points_to instr).

(** ** Loops and calls *)

Definition modify_loop (f : LoopState → LoopState) : SL unit := modify (λ w, set_loop (f (s_loop w)) w).

Definition SLAMP_loop_invocation : SL unit :=
  modify_loop (λ l, MkLoop (slamp_iteration l) (slamp_invocation l) (u32 (invokedepth l + 1)) (context l) (ext_context l)) ;;;
  let! l := gets s_loop in
  if 1 <? invokedepth l then ret tt
  else
    modify (set_modules (λ m, MkModules (constmap_value m) (constmap_addr m) (lpmap_value m) (lpmap_addr m)
      ((λ r, MkRecord (last_addr r) INVALID) <$> instructionMap m) (pointsToMap m))) ;;;
    modify_loop (λ l, MkLoop (u64 (slamp_iteration l + 1)) (u64 (slamp_invocation l + 1)) (invokedepth l) (context l) (ext_context l)).
Definition SLAMP_loop_iteration : SL unit :=
  let! l := gets s_loop in
  if 1 <? invokedepth l then ret tt
  else modify_loop (λ l, MkLoop (u64 (slamp_iteration l + 1)) (slamp_invocation l) (invokedepth l) (context l) (ext_context l)).
Definition SLAMP_loop_exit : SL unit :=
  let! l := gets s_loop in
  if invokedepth l =? 0 then ret tt
  else modify_loop (λ l, MkLoop (slamp_iteration l) (slamp_invocation l) (invokedepth l - 1) (context l) (ext_context l)).
Definition SLAMP_ext_push (instr : Z) : SL unit :=
  let! l := gets s_loop in
  assert_ (ext_context l =? 0) ;;;
  modify_loop (λ l, MkLoop (slamp_iteration l) (slamp_invocation l) (invokedepth l) (context l) instr).
Definition SLAMP_ext_pop : SL unit :=
  modify_loop (λ l, MkLoop (slamp_iteration l) (slamp_invocation l) (invokedepth l) (context l) 0).
Definition SLAMP_push (instr : Z) : SL unit :=
  let! l := gets s_loop in
  if 1 <? invokedepth l then ret tt
  else
    assert_ (context l =? 0) ;;;
    modify_loop (λ l, MkLoop (slamp_iteration l) (slamp_invocation l) (invokedepth l) instr (ext_context l)).
Definition SLAMP_pop : SL unit :=
  let! l := gets s_loop in
  if 1 <? invokedepth l then ret tt
  else modify_loop (λ l, MkLoop (slamp_iteration l) (slamp_invocation l) (invokedepth l) 0 (ext_context l)).

(** ** Loads and stores *)

Definition SLAMP_isBadAlloc (addr : Z) (w : Slamp) : bool := (addr <? 0x100000000) && (heapStart (smmap w) <? addr).
Definition LOCALWRITE (addr : Z) : bool :=
  negb (LOCALWRITE_MODULE cfg) || (Z.land addr (LOCALWRITE_MASK cfg) =? LOCALWRITE_PATTERN cfg).

Definition log_dep (instr bare_instr ts : Z) : SL unit := log ts instr bare_instr ;;; ret tt.
Definition SLAMP_dependence_module_load_log (size instr bare_instr addr : Z) : SL unit :=
  let s := shadow_of addr in
  if ASSUME_ONE_ADDR cfg then
    let! ts := read_ts s in
    log_dep instr bare_instr ts
  else
    let! tss := read_all (word_addrs s size) in
    for_distinct [] tss (log_dep instr bare_instr).
Definition SLAMP_dependence_module_load_log_n (instr addr size : Z) : SL unit :=
  for_words ∅ (word_addrs (shadow_of addr) (u32 size)) (log_dep instr 0).

Definition write_words (addr n ts : Z) : SL unit := for_ (word_addrs (shadow_of addr) n) (λ x, write_ts x ts).
Definition timestamp (instr : Z) (l : LoopState) : Z := CREATE_TS instr (slamp_iteration l) (slamp_invocation l).
Definition SLAMP_dependence_module_store_log (size instr addr : Z) : SL unit :=
  let! l := gets s_loop in
  if ASSUME_ONE_ADDR cfg then write_ts (shadow_of addr) (timestamp instr l)
  else write_words addr size (timestamp instr l).
Definition SLAMP_dependence_module_store_log_n (instr addr size : Z) : SL unit :=
  let! l := gets s_loop in write_words addr (u32 size) (timestamp instr l).

Definition count_load : SL unit := when (TRACE_MODULE cfg)
  (modify (set_counts (λ c, MkCounts (u64 (load_count c + 1)) (store_count c) (malloc_count c) (free_count c) (dep_count c)))).
Definition count_store : SL unit := when (TRACE_MODULE cfg)
  (modify (set_counts (λ c, MkCounts (load_count c) (u64 (store_count c + 1)) (malloc_count c) (free_count c) (dep_count c)))).

(** In a recursive invocation accesses belong to the call in the loop. *)
Definition in_context (instr : Z) (l : LoopState) : Z := if 1 <? invokedepth l then context l else instr.

Definition SLAMP_load (size instr addr bare_instr value : Z) : SL unit :=
  let! l := gets s_loop in
  let instr := in_context instr l in
  let! bad := gets (SLAMP_isBadAlloc addr) in
  if bad : bool then ret tt
  else
    count_load ;;;
    when (LOCALWRITE addr)
      (TURN_OFF_CUSTOM_MALLOC ;;;
       run_callbacks true instr bare_instr addr value size ;;;
       when (DEPENDENCE_MODULE cfg) (SLAMP_dependence_module_load_log size instr bare_instr addr) ;;;
       when (POINTS_TO_MODULE cfg) (SLAMP_points_to_module_use size instr addr) ;;;
       TURN_ON_CUSTOM_MALLOC).
Definition SLAMP_loadn (instr addr bare_instr n : Z) : SL unit :=
  let! bad := gets (SLAMP_isBadAlloc addr) in
  if bad : bool then ret tt
  else
    let! l := gets s_loop in
    let instr := in_context instr l in
    count_load ;;;
    when (LOCALWRITE addr)
      (TURN_OFF_CUSTOM_MALLOC ;;;
       when (DEPENDENCE_MODULE cfg) (SLAMP_dependence_module_load_log_n instr addr n) ;;;
       when (POINTS_TO_MODULE cfg) (SLAMP_points_to_module_use_n instr addr n) ;;;
       TURN_ON_CUSTOM_MALLOC).
Definition SLAMP_store (size instr bare_instr addr : Z) : SL unit :=
  let! bad := gets (SLAMP_isBadAlloc addr) in
  if bad : bool then ret tt
  else
    let! l := gets s_loop in
    let instr := in_context instr l in
    count_store ;;;
    when (REASON_MODULE cfg) (updateInstruction instr addr) ;;;
    when (LOCALWRITE addr)
      (TURN_OFF_CUSTOM_MALLOC ;;;
       run_callbacks false instr bare_instr addr 0 size ;;;
       when (DEPENDENCE_MODULE cfg) (SLAMP_dependence_module_store_log size instr addr) ;;;
       when (POINTS_TO_MODULE cfg) (SLAMP_points_to_module_use size instr addr) ;;;
       TURN_ON_CUSTOM_MALLOC).
Definition SLAMP_storen (instr addr n : Z) : SL unit :=
  let! bad := gets (SLAMP_isBadAlloc addr) in
  if bad : bool then ret tt
  else
    let! l := gets s_loop in
    let instr := in_context instr l in
    count_store ;;;
    when (REASON_MODULE cfg) (updateInstruction instr addr) ;;;
    when (LOCALWRITE addr)
      (TURN_OFF_CUSTOM_MALLOC ;;;
       when (DEPENDENCE_MODULE cfg) (SLAMP_dependence_module_store_log_n instr addr n) ;;;
       when (POINTS_TO_MODULE cfg) (SLAMP_points_to_module_use_n instr addr n) ;;;
       TURN_ON_CUSTOM_MALLOC).

(** Accesses of functions that the loop calls: they belong to the call. *)
Definition with_context (f : Z → SL unit) : SL unit :=
  let! l := gets s_loop in if context l =? 0 then ret tt else f (context l).
Definition SLAMP_load_ext (size addr bare_instr value : Z) : SL unit :=
  with_context (λ c, SLAMP_load size c addr bare_instr value).
Definition SLAMP_loadn_ext (addr bare_instr n : Z) : SL unit := with_context (λ c, SLAMP_loadn c addr bare_instr n).
Definition SLAMP_store_ext (size addr bare_inst : Z) : SL unit := with_context (λ c, SLAMP_store size c bare_inst addr).
Definition SLAMP_storen_ext (addr bare_inst n : Z) : SL unit := with_context (λ c, SLAMP_storen c addr n).

(** The copies and fills of [slamp_ext_hooks.cpp]; what they do to user memory is
    done by the C library. *)
Definition SLAMP_memcpy (dest src n : Z) : SL unit := SLAMP_loadn_ext src 0 n ;;; SLAMP_storen_ext dest 0 n.
Definition SLAMP_memmove (dest src n : Z) : SL unit := SLAMP_loadn_ext src 0 n ;;; SLAMP_storen_ext dest 0 n.
Definition SLAMP_memset (dest n : Z) : SL unit := SLAMP_storen_ext dest 0 n.

(** ** Allocation *)

Definition heap_op {A} (c : M BoundHeap A) : SL A :=
  λ w, match c (s_heap w) with Ok a h => Ok a (set_heap h w) | Stop why h => Stop why (set_heap h w) end.
Definition allocate_shadow (addr size : Z) : SL (option Z) :=
  let! w := gets (λ w, w) in
  let '(s, mm) := allocate mmap_fails addr size (smmap w) in
  modify (set_smmap mm) ;;;
  ret s.

(** The loop of [SLAMP_malloc], with the attempts that are left. *)
Fixpoint malloc_loop (left : nat) (result size instr : Z) : SL Z :=
  if result =? 0 then TURN_ON_CUSTOM_MALLOC ;;; ret 0
  else if DEPENDENCE_MODULE cfg || POINTS_TO_MODULE cfg then
    let! shadow := allocate_shadow result size in
    match shadow with
    | Some _ =>
        let! l := gets s_loop in
        when (POINTS_TO_MODULE cfg) (write_words result size (timestamp instr l)) ;;;
        TURN_ON_CUSTOM_MALLOC ;;;
        ret result
    | None =>
        heap_op (bound_free result) ;;;
        match left with
        | O => halt (Exited 0)
        | S left' =>
            heap_op bound_discard_page ;;;
            let! result := heap_op (bound_malloc size 16) in
            malloc_loop left' result size instr
        end
    end
  else TURN_ON_CUSTOM_MALLOC ;;; ret result.
Definition SLAMP_malloc (size instr alignment : Z) : SL Z :=
  TURN_OFF_CUSTOM_MALLOC ;;;
  let! result := heap_op (bound_malloc size alignment) in
  malloc_loop 1023 result size instr.
Definition SLAMP_free (ptr : Z) : SL unit :=
  TURN_OFF_CUSTOM_MALLOC ;;;
  let! purge := heap_op (bound_free ptr) in
  when (DEPENDENCE_MODULE cfg || POINTS_TO_MODULE cfg)
    (match purge with
     | Some (starting_page, purge_cnt) => modify (λ w, set_smmap (deallocate_pages starting_page purge_cnt (smmap w)) w)
     | None => ret tt
     end) ;;;
  TURN_ON_CUSTOM_MALLOC.

Definition count_malloc : SL unit :=
  modify (set_counts (λ c, MkCounts (load_count c) (store_count c) (u64 (malloc_count c + 1)) (free_count c) (dep_count c))).
Definition SLAMP_memalign_hook (alignment size : Z) : SL Z :=
  let! l := gets s_loop in
  let! ptr := SLAMP_malloc size (ext_context l) alignment in
  count_malloc ;;;
  ret ptr.
Definition SLAMP_malloc_hook (size : Z) : SL Z := SLAMP_memalign_hook 16 size.
Definition SLAMP_free_hook (ptr : Z) : SL unit :=
  SLAMP_free ptr ;;;
  modify (set_counts (λ c, MkCounts (load_count c) (store_count c) (malloc_count c) (u64 (free_count c + 1)) (dep_count c))).

(** [MemoryMap::copy] *)
Definition copy_shadow (dst src n : Z) : SL unit :=
  let! tss := read_all (word_addrs (shadow_of src) n) in
  for_ (zip (word_addrs (shadow_of dst) n) tss) (λ '(x, ts), write_ts x ts).
Definition SLAMP_calloc (nelem elsize : Z) : SL Z := SLAMP_malloc (u64 (nelem * elsize)) 0 16.
Definition SLAMP_realloc (ptr size : Z) : SL Z :=
  if ptr =? 0 then SLAMP_malloc size 0 16
  else if size =? 0 then SLAMP_free ptr ;;; ret 0
  else
    let! result := SLAMP_malloc size 0 16 in
    if result =? 0 then ret 0
    else
      let! orig_size := heap_op (get_object_size ptr) in
      let copy_size := if orig_size <? size then orig_size else size in
      SLAMP_memcpy result ptr copy_size ;;;
      when (DEPENDENCE_MODULE cfg || POINTS_TO_MODULE cfg) (copy_shadow result ptr copy_size) ;;;
      SLAMP_free ptr ;;;
      ret result.

(** Objects that are not on the heap. *)
Definition SLAMP_callback_stack_alloca (array_size type_size instr addr : Z) : SL unit :=
  let size := u64 (array_size * type_size) in
  let! l := gets s_loop in
  when ((DEPENDENCE_MODULE cfg || POINTS_TO_MODULE cfg) && (negb (shadow_of addr =? 0) && POINTS_TO_MODULE cfg))
    (write_words addr size (timestamp instr l)).
Definition SLAMP_init_global_vars (addr size : Z) : SL unit := allocate_shadow addr size ;;; ret tt.

(** The arguments and the environment of the program, as addresses and sizes; the
    arrays of their addresses have eight bytes for every entry. *)
Definition SLAMP_main_entry (argv env : Z) (args vars : list (Z * Z)) : SL unit :=
  when (negb (bool_decide (args = [])))
    (allocate_shadow argv (8 * Z.of_nat (length args)) ;;;
     for_ args (λ a, allocate_shadow a.1 a.2 ;;; ret tt)) ;;;
  when (negb (env =? 0))
    (for_ vars (λ a, allocate_shadow a.1 a.2 ;;; ret tt) ;;;
     allocate_shadow env (8 * (Z.of_nat (length vars) + 1)) ;;;
     ret tt) ;;;
  TURN_ON_CUSTOM_MALLOC.

(** ** Start

    The stack gets its shadow at once; [libc] are objects of the C library. *)
Definition HEAP_BOUND_LOWER : Z := 0x010000000000.
Definition SIZE_8M : Z := 0x800000.
Definition SLAMP_init (brk heap_start stack_end : Z) (libc : list (Z * Z)) : Slamp :=
  let mm := foldl (λ mm a, (allocate mmap_fails a.1 a.2 mm).2) (MkMap ∅ ∅ ∅ heap_start)
              ((stack_end - SIZE_8M, SIZE_8M) :: libc) in
  MkSlamp (MkLoop 0 0 0 0 0) (MkCounts 0 0 0 0 0) (MkModules ∅ ∅ ∅ ∅ ∅ ∅) ∅ mm
    (init_bound_malloc brk HEAP_BOUND_LOWER mmap_fails) false.
End Profiler.

(** The modules are set by environment variables that are [1]; with both shadow
    modules the program ends. *)
Definition modules_of_env (env_is_1 : string → bool) (mask pattern : Z) (localwrite : bool) : option Config :=
  let dep := negb (env_is_1 "NO_DEPENDENCE_MODULE"%string) in
  let pts := env_is_1 "POINTS_TO_MODULE"%string in
  if dep && pts then None
  else Some (MkConfig dep pts (env_is_1 "CONSTANT_ADDRESS_MODULE"%string) (env_is_1 "LINEAR_ADDRESS_MODULE"%string)
    (env_is_1 "CONSTANT_VALUE_MODULE"%string) (env_is_1 "LINEAR_VALUE_MODULE"%string) (env_is_1 "REASON_MODULE"%string)
    (env_is_1 "TRACE_MODULE"%string) localwrite mask pattern false).
