(* ===== verification/SlampTrace.v ===== *)
(** The dependences of the memory profiler are those of the program.

    [Slamp] models the hooks.  Here a run of the profiler is a trace of loop events,
    accesses, allocations and deallocations; the log is compared with the flow
    dependences of the accesses of the trace. *)
From S2P Require Import Prelude Machine BoundMalloc Slamp.
#[local] Open Scope Z_scope.

(** ** Timestamps *)

Lemma lor_add a b k : 0 ≤ k → 0 ≤ b < 2 ^ k → Z.lor (a * 2 ^ k) b = a * 2 ^ k + b.
Proof.
  intros Hk Hb. rewrite <-Z.shiftl_mul_pow2 by done. symmetry. rewrite Z.add_nocarry_lxor; [apply Z.lxor_lor|];
    apply Z.bits_inj'; intros i Hi; rewrite Z.land_spec, Z.bits_0; destruct (Z.ltb_spec i k).
  all: try (rewrite Z.shiftl_spec_low by lia; done).
  all: rewrite (testbit_ge_width k b i) by lia; apply andb_false_r.
Qed.
Lemma CREATE_TS_split instr iter invoc : 0 ≤ instr < 2 ^ 20 → 0 ≤ iter < 2 ^ 40 → 0 ≤ invoc < 16 →
  CREATE_TS instr iter invoc = (instr * 2 ^ 40 + iter) * 2 ^ 4 + invoc.
Proof.
  intros Hi Ht Hv. unfold CREATE_TS, INVOCATION_SIZE.
  change 0xffffffffff with (Z.ones 40). change 0xf with (Z.ones 4). rewrite !Z.land_ones, (Z.mod_small iter), (Z.mod_small invoc) by lia.
  rewrite !Z.shiftl_mul_pow2 by lia. rewrite !wrap_small by lia.
  rewrite (lor_add instr (iter * 2 ^ 4) 44) by lia.
  replace (instr * 2 ^ 44 + iter * 2 ^ 4) with ((instr * 2 ^ 40 + iter) * 2 ^ 4) by lia. apply lor_add; lia.
Qed.

(** A timestamp has the three numbers, as long as they are in range. *)
Lemma timestamp_fields instr iter invoc : 0 ≤ instr < 2 ^ 20 → 0 ≤ iter < 2 ^ 40 → 0 ≤ invoc < 16 →
  GET_INSTR (CREATE_TS instr iter invoc) = instr ∧ GET_ITER (CREATE_TS instr iter invoc) = iter ∧
  GET_INVOC (CREATE_TS instr iter invoc) = invoc.
Proof.
  intros Hi Ht Hv. rewrite CREATE_TS_split by done. unfold GET_INSTR, GET_ITER, GET_INVOC, INVOCATION_SIZE.
  change 0xfffff with (Z.ones 20). change 0xffffffffff with (Z.ones 40). change 0xf with (Z.ones 4).
  rewrite !Z.land_ones, !Z.shiftr_div_pow2 by lia. change (2 ^ 44) with (2 ^ 40 * 2 ^ 4).
  split_and!; Z.to_euclidean_division_equations; lia.
Qed.

Lemma timestamp_nonzero instr iter invoc : 0 < instr < 2 ^ 20 → 0 ≤ iter < 2 ^ 40 → 0 ≤ invoc < 16 →
  CREATE_TS instr iter invoc ≠ 0.
Proof. intros. rewrite CREATE_TS_split by lia. lia. Qed.

(** ** Addresses

    Shadow addresses have 44 bits of the address.  Programs use three parts of the
    address space: the heap of the profiler and static data below it, the code and
    data of position-independent programs, and libraries and the stack. *)

Definition user_span (a n : Z) : Prop :=
  0 ≤ a ∧ a + n ≤ 2 ^ 40 ∨ 0x540000000000 ≤ a ∧ a + n ≤ 0x580000000000 ∨ 0x7c0000000000 ≤ a ∧ a + n ≤ 0x800000000000.
Definition user_addr (a : Z) : Prop := user_span a 1.
#[global] Instance user_span_dec a n : Decision (user_span a n).
Proof. unfold user_span. apply _. Defined.

Lemma shadow_of_user a : user_addr a → shadow_of a =
  8 * a + (if a <? 2 ^ 40 then 2 ^ 45 else if a <? 0x580000000000 then - (21 * 2 ^ 45) else - (29 * 2 ^ 45)).
Proof.
  intros Ha. unfold shadow_of, GET_SHADOW, TIMESTAMP_SIZE_IN_POWER_OF_TWO, user_addr, user_span in *.
  rewrite Z.shiftl_mul_pow2 by lia. rewrite wrap_small by lia.
  change MASK1 with (Z.ones 47). rewrite Z.land_ones by lia. change (Z.lxor ?x MASK2) with (GET_SHADOW_OF x).
  assert (∀ q r, 0 ≤ q < 4 → 0 ≤ r < 2 ^ 45 → (a * 2 ^ 3) mod 2 ^ 47 = 2 ^ 45 * q + r →
    GET_SHADOW_OF ((a * 2 ^ 3) mod 2 ^ 47) = 2 ^ 45 * Z.lxor q 1 + r) as H by (intros q r Hq Hr ->; by apply shadow_split).
  destruct (Z.ltb_spec a (2 ^ 40)); [|destruct (Z.ltb_spec a 0x580000000000)].
  - rewrite (H 0 (8 * a)); [change (Z.lxor 0 1) with 1; lia|lia|lia|Z.to_euclidean_division_equations; lia].
  - rewrite (H 1 (8 * a - 21 * 2 ^ 45)); [change (Z.lxor 1 1) with 0; lia|lia|lia|Z.to_euclidean_division_equations; lia].
  - rewrite (H 3 (8 * a - 31 * 2 ^ 45)); [change (Z.lxor 3 1) with 2; lia|lia|lia|Z.to_euclidean_division_equations; lia].
Qed.

Lemma user_span_addr a n b : user_span a n → a ≤ b < a + n → user_addr b.
Proof. unfold user_addr, user_span. lia. Qed.

Lemma shadow_of_inj a b : user_addr a → user_addr b → shadow_of a = shadow_of b → a = b.
Proof.
  intros Ha Hb. rewrite !shadow_of_user by done. unfold user_addr, user_span in *.
  repeat match goal with |- context [?x <? ?y] => destruct (Z.ltb_spec x y) end; lia.
Qed.

Lemma shadow_of_next a n i : user_span a n → 0 ≤ i < n → shadow_of (a + i) = shadow_of a + 8 * i.
Proof.
  intros Ha Hi. rewrite !shadow_of_user by (unfold user_addr, user_span in *; lia). unfold user_span in *.
  repeat match goal with |- context [?x <? ?y] => destruct (Z.ltb_spec x y) end; lia.
Qed.

Lemma word_addrs_user a n : user_span a n → word_addrs (shadow_of a) n = (λ i, shadow_of (a + i)) <$> seqZ 0 n.
Proof.
  intros Ha. apply list_fmap_ext. intros k i [-> ?]%lookup_seqZ. cbn. rewrite (shadow_of_next a n) by (done || lia). done.
Qed.

(** The region of a page. *)
Lemma user_page a : user_addr a → user_addr (page_of a) ∧ page_of a ≤ a < page_of a + PAGE_SIZE.
Proof.
  intros Ha. assert (0 ≤ a < 2 ^ 64) as Hr by (unfold user_addr, user_span in *; lia). rewrite page_of_spec by done.
  unfold user_addr, user_span, PAGE_SIZE in *. Z.to_euclidean_division_equations. lia.
Qed.

Lemma region_of_user a : user_addr a → region_of (shadow_of a) = shadow_of (page_of a).
Proof.
  intros Ha. destruct (user_page a Ha) as [Hp Hb]. rewrite (shadow_of_user a), (shadow_of_user (page_of a)) by done.
  assert (0 ≤ a < 2 ^ 64) as Hr by (unfold user_addr, user_span in *; lia). pose proof (page_of_spec a Hr) as Ep.
  unfold user_addr, user_span, region_of, REGION_SIZE, TIMESTAMP_SIZE_IN_BYTES in *. unfold PAGE_SIZE in *.
  repeat match goal with |- context [?x <? ?y] => destruct (Z.ltb_spec x y) end; try lia; Z.to_euclidean_division_equations; lia.
Qed.

(** ** The hooks *)

(** A load changes the log, in which it adds the keys of a predicate. *)
Record logged (w w' : Slamp) (Q : KEY → Prop) : Prop := {
  lg_loop : s_loop w' = s_loop w;
  lg_map : smmap w' = smmap w;
  lg_heap : s_heap w' = s_heap w;
  lg_log : ∀ k, k ∈ deplog_set w' ↔ k ∈ deplog_set w ∨ Q k }.

Lemma logged_same w w' : s_loop w' = s_loop w → smmap w' = smmap w → s_heap w' = s_heap w → deplog_set w' = deplog_set w →
  logged w w' (λ _, False).
Proof. intros ? ? ? E. constructor; try done. intros k. rewrite E. tauto. Qed.

Lemma logged_trans w1 w2 w3 Q1 Q2 : logged w1 w2 Q1 → logged w2 w3 Q2 → logged w1 w3 (λ k, Q1 k ∨ Q2 k).
Proof. intros [A1 A2 A3 A4] [B1 B2 B3 B4]. constructor; [congruence..|]. intros k. rewrite B4, A4. tauto. Qed.

Lemma logged_iff w w' Q1 Q2 : logged w w' Q1 → (∀ k, Q1 k ↔ Q2 k) → logged w w' Q2.
Proof. intros [A1 A2 A3 A4] H. constructor; [done..|]. intros k. by rewrite A4, H. Qed.

(** The key that a timestamp gives, if it is one of the current invocation. *)
Definition reports (l : LoopState) (instr bare ts : Z) (k : KEY) : Prop :=
  ts ≠ 0 ∧ GET_INVOC ts = GET_INVOC (slamp_invocation l) ∧
  k = MkKey (GET_INSTR ts) instr bare (Z.b2z (negb (GET_ITER ts =? slamp_iteration l))).

Lemma log_run ts instr bare w : ∃ w', log_dep instr bare ts w = Ok tt w' ∧ logged w w' (reports (s_loop w) instr bare ts).
Proof.
  unfold log_dep, log, bind, gets, modify, ret. cbn. unfold reports.
  destruct (Z.eqb_spec ts 0) as [->|Hts]; cbn [negb andb].
  { exists w. split; [done|]. eapply logged_iff; [by apply logged_same|]. intros k. tauto. }
  destruct (Z.eqb_spec (GET_INVOC ts) (GET_INVOC (slamp_invocation (s_loop w)))) as [E|E]; cbn [negb].
  - eexists. split; [done|]. constructor; try done. intros k. cbn. rewrite elem_of_union, elem_of_singleton. intuition.
  - exists w. split; [done|]. eapply logged_iff; [by apply logged_same|]. intros k. tauto.
Qed.

Lemma for_distinct_run instr bare tss : ∀ seen w,
  ∃ w', for_distinct seen tss (log_dep instr bare) w = Ok tt w' ∧
    logged w w' (λ k, ∃ ts, ts ∈ tss ∧ (ts ∉ seen) ∧ reports (s_loop w) instr bare ts k).
Proof.
  induction tss as [|ts tss IH]; intros seen w; cbn [for_distinct].
  { exists w. split; [done|]. eapply logged_iff; [by apply logged_same|]. intros k. split; [done|]. by intros (? & ?%elem_of_nil & _). }
  assert (∃ w1, (if negb (bool_decide (ts ∈ seen)) && negb (ts =? 0) then log_dep instr bare ts else ret tt) w = Ok tt w1 ∧
    logged w w1 (λ k, (ts ∉ seen) ∧ reports (s_loop w) instr bare ts k)) as (w1 & E1 & L1).
  { destruct (decide (ts ∈ seen)) as [Hs|Hs]; [rewrite bool_decide_eq_true_2 by done|rewrite bool_decide_eq_false_2 by done; destruct (Z.eqb_spec ts 0) as [->|]]; cbn [negb andb].
    - exists w. split; [done|]. eapply logged_iff; [by apply logged_same|]. intros k. tauto.
    - exists w. split; [done|]. eapply logged_iff; [by apply logged_same|]. intros k. unfold reports. tauto.
    - destruct (log_run ts instr bare w) as (w1 & E1 & L1). exists w1. split; [done|]. eapply logged_iff; [done|]. intros k. tauto. }
  unfold bind. rewrite E1. destruct (IH (seen ++ [ts]) w1) as (w' & E & L). exists w'. split; [done|].
  eapply logged_iff; [by eapply logged_trans|]. intros k. cbn beta. rewrite (lg_loop _ _ _ L1). setoid_rewrite elem_of_cons.
  setoid_rewrite elem_of_app. setoid_rewrite list_elem_of_singleton. split.
  - intros [[? ?]|(t & Ht & Hn & Hr)]; [exists ts; auto|exists t; tauto].
  - intros (t & [->|Ht] & Hn & Hr); [by left|]. destruct (decide (t = ts)) as [->|Hne]; [by left|right]. exists t. tauto.
Qed.

Lemma read_all_run l w : (∀ x, x ∈ l → mapped (smmap w) x = true) → read_all l w = Ok (word_at (smmap w) <$> l) w.
Proof.
  induction l as [|x l IH]; intros Hm; cbn [read_all]; [done|]. unfold bind, read_ts, bind, gets.
  rewrite Hm by (apply elem_of_cons; by left). cbn. rewrite IH; [done|]. intros y Hy. apply Hm, elem_of_cons. by right.
Qed.

Lemma for_words_run instr bare l : ∀ m w, (∀ x, x ∈ l → mapped (smmap w) x = true) →
  ∃ w', for_words m l (log_dep instr bare) w = Ok tt w' ∧
    logged w w' (λ k, ∃ x, x ∈ l ∧ (word_at (smmap w) x ∉ m) ∧ reports (s_loop w) instr bare (word_at (smmap w) x) k).
Proof.
  induction l as [|x l IH]; intros m w Hm; cbn [for_words].
  { exists w. split; [done|]. eapply logged_iff; [by apply logged_same|]. intros k. split; [done|]. by intros (? & ?%elem_of_nil & _). }
  unfold bind at 1. unfold read_ts, bind at 1, gets. rewrite Hm by (apply elem_of_cons; by left). cbn [ret].
  set (ts := word_at (smmap w) x).
  assert (∃ w1, (if decide (ts ∈ m) then ret tt else log_dep instr bare ts) w = Ok tt w1 ∧
    logged w w1 (λ k, (ts ∉ m) ∧ reports (s_loop w) instr bare ts k)) as (w1 & E1 & L1).
  { destruct (decide (ts ∈ m)) as [Hs|Hs].
    - exists w. split; [done|]. eapply logged_iff; [by apply logged_same|]. intros k. tauto.
    - destruct (log_run ts instr bare w) as (w1 & E1 & L1). exists w1. split; [done|]. eapply logged_iff; [done|]. intros k. tauto. }
  unfold bind. rewrite E1. destruct (IH ({[ts]} ∪ m) w1) as (w' & E & L).
  { intros y Hy. rewrite (lg_map _ _ _ L1). apply Hm, elem_of_cons. by right. }
  exists w'. split; [done|]. eapply logged_iff; [by eapply logged_trans|]. intros k. cbn beta. rewrite (lg_loop _ _ _ L1), (lg_map _ _ _ L1).
  setoid_rewrite elem_of_cons. setoid_rewrite elem_of_union. setoid_rewrite elem_of_singleton. split.
  - intros [[? ?]|(t & Ht & Hn & Hr)]; [exists x; auto|exists t; tauto].
  - intros (t & [->|Ht] & Hn & Hr); [by left|]. destruct (decide (word_at (smmap w) t = ts)) as [He|Hne]; [left|right].
    + rewrite <-He. done.
    + exists t. tauto.
Qed.

(** A store changes the shadow words of a list. *)
Record stored (w w' : Slamp) (l : list Z) (ts : Z) : Prop := {
  sd_loop : s_loop w' = s_loop w;
  sd_heap : s_heap w' = s_heap w;
  sd_log : deplog_set w' = deplog_set w;
  sd_pages : pages (smmap w') = pages (smmap w);
  sd_regions : regions (smmap w') = regions (smmap w);
  sd_start : heapStart (smmap w') = heapStart (smmap w);
  sd_words : ∀ x, word_at (smmap w') x = if decide (x ∈ l) then ts else word_at (smmap w) x }.

Lemma write_words_run l ts : ∀ w, (∀ x, x ∈ l → mapped (smmap w) x = true) →
  ∃ w', for_ l (λ x, write_ts x ts) w = Ok tt w' ∧ stored w w' l ts.
Proof.
  induction l as [|x l IH]; intros w Hm; cbn [for_].
  - exists w. split; [done|]. constructor; try done.
  - unfold bind at 1, write_ts at 1, bind, gets, modify. rewrite Hm by (apply elem_of_cons; by left).
    match goal with |- context [for_ l _ ?v] => destruct (IH v) as (w' & E & [A1 A2 A3 A4 A5 A6 A7]) end.
    { intros y Hy. unfold mapped. cbn. apply (Hm y), elem_of_cons. by right. }
    exists w'. split; [exact E|]. constructor; try done. intros y. rewrite A7. unfold word_at at 1. cbn.
    destruct (decide (y ∈ l)) as [Hy|Hy]; [by rewrite decide_True by (apply elem_of_cons; by right)|].
    destruct (decide (y = x)) as [->|Hne].
    + rewrite lookup_insert_eq. by rewrite decide_True by (apply elem_of_cons; by left).
    + rewrite lookup_insert_ne by done. rewrite decide_False; [done|]. by intros [?|?]%elem_of_cons.
Qed.

(** Steps that leave loop, shadow, heap and log alone. *)
Definition same (w w' : Slamp) : Prop :=
  s_loop w' = s_loop w ∧ smmap w' = smmap w ∧ s_heap w' = s_heap w ∧ deplog_set w' = deplog_set w.
Definition neutral (c : M Slamp unit) : Prop := ∀ w, ∃ w', c w = Ok tt w' ∧ same w w'.

Lemma same_refl w : same w w.
Proof. done. Qed.
Lemma same_trans w1 w2 w3 : same w1 w2 → same w2 w3 → same w1 w3.
Proof. intros (?&?&?&?) (?&?&?&?). split_and!; congruence. Qed.

Lemma neutral_modify f : (∀ w, same w (f w)) → neutral (modify f).
Proof. intros H w. by eexists. Qed.
Lemma neutral_ret : neutral (ret tt).
Proof. intros w. by exists w. Qed.
Lemma neutral_when b c : neutral c → neutral (when b c).
Proof. intros H. destruct b; [done|apply neutral_ret]. Qed.
Lemma neutral_bind c1 c2 : neutral c1 → neutral c2 → neutral (c1 ;;; c2).
Proof.
  intros H1 H2 w. destruct (H1 w) as (w1 & E1 & S1), (H2 w1) as (w2 & E2 & S2). exists w2. unfold bind. rewrite E1.
  split; [done|]. by eapply same_trans.
Qed.
Create HintDb slamp.
#[local] Hint Resolve neutral_ret neutral_when neutral_bind same_refl : slamp.
#[local] Hint Extern 2 (neutral _) => apply neutral_modify; intros ?; done : slamp.

(** What a hook does is what its dependence module does. *)
Definition logs (c : M Slamp unit) (w : Slamp) (Q : KEY → Prop) : Prop := ∃ w', c w = Ok tt w' ∧ logged w w' Q.
Definition stores (c : M Slamp unit) (w : Slamp) (l : list Z) (ts : Z) : Prop := ∃ w', c w = Ok tt w' ∧ stored w w' l ts.

Lemma logs_pre c1 c w Q : neutral c1 → (∀ w1, same w w1 → logs c w1 Q) → logs (c1 ;;; c) w Q.
Proof.
  intros H1 Hc. destruct (H1 w) as (w1 & E1 & S1). destruct (Hc w1 S1) as (w2 & E2 & [L1 L2 L3 L4]). exists w2. unfold bind. rewrite E1.
  split; [done|]. destruct S1 as (A1 & A2 & A3 & A4). constructor; [congruence..|]. intros k. by rewrite L4, A4.
Qed.
Lemma logs_post c c2 w Q : logs c w Q → neutral c2 → logs (c ;;; c2) w Q.
Proof.
  intros (w2 & E2 & [L1 L2 L3 L4]) H2. destruct (H2 w2) as (w3 & E3 & (T1 & T2 & T3 & T4)). exists w3. unfold bind. rewrite E2.
  split; [done|]. constructor; [congruence..|]. intros k. by rewrite T4, L4.
Qed.
Lemma stores_pre c1 c w l ts : neutral c1 → (∀ w1, same w w1 → stores c w1 l ts) → stores (c1 ;;; c) w l ts.
Proof.
  intros H1 Hc. destruct (H1 w) as (w1 & E1 & S1). destruct (Hc w1 S1) as (w2 & E2 & [L1 L2 L3 L4 L5 L6 L7]). exists w2. unfold bind. rewrite E1.
  split; [done|]. destruct S1 as (A1 & A2 & A3 & A4). constructor; [congruence..|]. intros x. by rewrite L7, A2.
Qed.
Lemma stores_post c c2 w l ts : stores c w l ts → neutral c2 → stores (c ;;; c2) w l ts.
Proof.
  intros (w2 & E2 & [L1 L2 L3 L4 L5 L6 L7]) H2. destruct (H2 w2) as (w3 & E3 & (T1 & T2 & T3 & T4)). exists w3. unfold bind. rewrite E2.
  split; [done|]. constructor; [congruence..|]. intros x. by rewrite T2, L7.
Qed.

Section Hooks.
Context (cfg : Config).

(** The dependence module is on, and distinguishes the bytes of an access. *)
Record dependence_profiling : Prop := {
  dp_dep : DEPENDENCE_MODULE cfg = true;
  dp_pts : POINTS_TO_MODULE cfg = false;
  dp_one : ASSUME_ONE_ADDR cfg = false }.
Context (Hcfg : dependence_profiling).

(** Accesses that the profiler looks at. *)
Definition tracks (w : Slamp) (addr : Z) : bool := negb (SLAMP_isBadAlloc addr w) && LOCALWRITE cfg addr.

Definition words_mapped (w : Slamp) (addr n : Z) : Prop := ∀ x, x ∈ word_addrs (shadow_of addr) n → mapped (smmap w) x = true.
Definition load_reports (w : Slamp) (instr bare addr n : Z) (k : KEY) : Prop :=
  ∃ x, x ∈ word_addrs (shadow_of addr) n ∧ reports (s_loop w) (in_context instr (s_loop w)) bare (word_at (smmap w) x) k.

Lemma untracked_load size instr addr bare value w : tracks w addr = false →
  ∃ w', SLAMP_load cfg size instr addr bare value w = Ok tt w' ∧ same w w'.
Proof.
  unfold tracks, SLAMP_load. intros Ht. unfold bind at 1, gets at 1. unfold bind at 1, gets at 1.
  destruct (SLAMP_isBadAlloc addr w); [by exists w|]. cbn in Ht. rewrite Ht. cbn [when].
  assert (neutral (count_load cfg ;;; ret tt)) as H by (unfold count_load; auto with slamp). apply H.
Qed.

Lemma untracked_loadn instr addr bare n w : tracks w addr = false →
  ∃ w', SLAMP_loadn cfg instr addr bare n w = Ok tt w' ∧ same w w'.
Proof.
  unfold tracks, SLAMP_loadn. intros Ht. unfold bind at 1, gets at 1. destruct (SLAMP_isBadAlloc addr w); [by exists w|].
  unfold bind at 1, gets at 1. cbn in Ht. rewrite Ht. cbn [when].
  assert (neutral (count_load cfg ;;; ret tt)) as H by (unfold count_load; auto with slamp). apply H.
Qed.

Lemma untracked_store size instr bare addr w : tracks w addr = false →
  ∃ w', SLAMP_store cfg size instr bare addr w = Ok tt w' ∧ same w w'.
Proof.
  unfold tracks, SLAMP_store. intros Ht. unfold bind at 1, gets at 1. destruct (SLAMP_isBadAlloc addr w); [by exists w|].
  unfold bind at 1, gets at 1. cbn in Ht. rewrite Ht. cbn [when].
  match goal with |- ∃ w', ?c w = _ ∧ _ => assert (neutral c) as H by (unfold count_store, updateInstruction; auto 10 with slamp) end. apply H.
Qed.

Lemma untracked_storen instr addr n w : tracks w addr = false →
  ∃ w', SLAMP_storen cfg instr addr n w = Ok tt w' ∧ same w w'.
Proof.
  unfold tracks, SLAMP_storen. intros Ht. unfold bind at 1, gets at 1. destruct (SLAMP_isBadAlloc addr w); [by exists w|].
  unfold bind at 1, gets at 1. cbn in Ht. rewrite Ht. cbn [when].
  match goal with |- ∃ w', ?c w = _ ∧ _ => assert (neutral c) as H by (unfold count_store, updateInstruction; auto 10 with slamp) end. apply H.
Qed.

(** The words of an access, as the list of their addresses. *)
Lemma load_log_run size instr bare addr w : words_mapped w addr size →
  logs (SLAMP_dependence_module_load_log cfg size instr bare addr) w
    (λ k, ∃ x, x ∈ word_addrs (shadow_of addr) size ∧ reports (s_loop w) instr bare (word_at (smmap w) x) k).
Proof.
  intros Hm. unfold SLAMP_dependence_module_load_log. rewrite (dp_one Hcfg). unfold logs, bind at 1. rewrite read_all_run by done.
  destruct (for_distinct_run instr bare (word_at (smmap w) <$> word_addrs (shadow_of addr) size) [] w) as (w' & E & L).
  exists w'. split; [done|]. eapply logged_iff; [exact L|]. intros k. cbn beta. split.
  - intros (ts & (x & -> & Hx)%list_elem_of_fmap & _ & Hr). by exists x.
  - intros (x & Hx & Hr). exists (word_at (smmap w) x). split; [by apply list_elem_of_fmap_2|]. split; [apply not_elem_of_nil|done].
Qed.

Lemma load_log_n_run instr addr n w : words_mapped w addr (u32 n) →
  logs (SLAMP_dependence_module_load_log_n instr addr n) w
    (λ k, ∃ x, x ∈ word_addrs (shadow_of addr) (u32 n) ∧ reports (s_loop w) instr 0 (word_at (smmap w) x) k).
Proof.
  intros Hm. unfold SLAMP_dependence_module_load_log_n. destruct (for_words_run instr 0 (word_addrs (shadow_of addr) (u32 n)) ∅ w Hm) as (w' & E & L).
  exists w'. split; [done|]. eapply logged_iff; [exact L|]. intros k. cbn beta. split.
  - intros (x & Hx & _ & Hr). by exists x.
  - intros (x & Hx & Hr). exists x. split; [done|]. split; [apply not_elem_of_empty|done].
Qed.

Lemma tracks_inv w addr : tracks w addr = true → SLAMP_isBadAlloc addr w = false ∧ LOCALWRITE cfg addr = true.
Proof. unfold tracks. rewrite andb_true_iff, negb_true_iff. done. Qed.

(** The steps before the dependence module, and what they leave alone. *)
Ltac neutral_steps lem := repeat (eapply lem;
  [unfold count_load, count_store, updateInstruction, run_callbacks, TURN_OFF_CUSTOM_MALLOC; solve [auto 6 with slamp]|]; intros ? ?).
Ltac same_as w v := assert (same w v) as (Eloop & Emap & _ & _) by (repeat (eapply same_trans; [eassumption|]); apply same_refl).

Lemma load_run size instr addr bare value w : tracks w addr = true → words_mapped w addr size →
  logs (SLAMP_load cfg size instr addr bare value) w (load_reports w instr bare addr size).
Proof.
  intros [Hb Hl]%tracks_inv Hm. unfold SLAMP_load, logs. unfold bind at 1, gets at 1. unfold bind at 1, gets at 1.
  rewrite Hb, Hl, (dp_dep Hcfg), (dp_pts Hcfg). cbn [when]. change (∃ w', ?c w = Ok tt w' ∧ logged w w' ?Q) with (logs c w Q).
  neutral_steps logs_pre. match goal with |- logs _ ?v _ => same_as w v end.
  apply logs_post; [|unfold TURN_ON_CUSTOM_MALLOC; auto with slamp]. unfold load_reports. rewrite <-Emap, <-Eloop.
  apply load_log_run. unfold words_mapped. by rewrite Emap.
Qed.

Lemma loadn_run instr addr bare n w : tracks w addr = true → words_mapped w addr (u32 n) →
  logs (SLAMP_loadn cfg instr addr bare n) w (load_reports w instr 0 addr (u32 n)).
Proof.
  intros [Hb Hl]%tracks_inv Hm. unfold SLAMP_loadn, logs. unfold bind at 1, gets at 1. rewrite Hb. unfold bind at 1, gets at 1.
  rewrite Hl, (dp_dep Hcfg), (dp_pts Hcfg). cbn [when]. change (∃ w', ?c w = Ok tt w' ∧ logged w w' ?Q) with (logs c w Q).
  neutral_steps logs_pre. match goal with |- logs _ ?v _ => same_as w v end.
  apply logs_post; [|unfold TURN_ON_CUSTOM_MALLOC; auto with slamp]. unfold load_reports. rewrite <-Emap, <-Eloop.
  apply load_log_n_run. unfold words_mapped. by rewrite Emap.
Qed.

Lemma store_run size instr bare addr w : tracks w addr = true → words_mapped w addr size →
  stores (SLAMP_store cfg size instr bare addr) w (word_addrs (shadow_of addr) size)
    (timestamp (in_context instr (s_loop w)) (s_loop w)).
Proof.
  intros [Hb Hl]%tracks_inv Hm. unfold SLAMP_store, stores. unfold bind at 1, gets at 1. rewrite Hb. unfold bind at 1, gets at 1.
  rewrite Hl, (dp_dep Hcfg), (dp_pts Hcfg). cbn [when]. change (∃ w', ?c w = Ok tt w' ∧ stored w w' ?l ?ts) with (stores c w l ts).
  neutral_steps stores_pre. match goal with |- stores _ ?v _ _ => same_as w v end.
  apply stores_post; [|unfold TURN_ON_CUSTOM_MALLOC; auto with slamp].
  unfold SLAMP_dependence_module_store_log. rewrite (dp_one Hcfg). unfold stores, bind, gets. rewrite Eloop.
  apply write_words_run. intros x Hx. rewrite Emap. by apply Hm.
Qed.

Lemma storen_run instr addr n w : tracks w addr = true → words_mapped w addr (u32 n) →
  stores (SLAMP_storen cfg instr addr n) w (word_addrs (shadow_of addr) (u32 n))
    (timestamp (in_context instr (s_loop w)) (s_loop w)).
Proof.
  intros [Hb Hl]%tracks_inv Hm. unfold SLAMP_storen, stores. unfold bind at 1, gets at 1. rewrite Hb. unfold bind at 1, gets at 1.
  rewrite Hl, (dp_dep Hcfg), (dp_pts Hcfg). cbn [when]. change (∃ w', ?c w = Ok tt w' ∧ stored w w' ?l ?ts) with (stores c w l ts).
  neutral_steps stores_pre. match goal with |- stores _ ?v _ _ => same_as w v end.
  apply stores_post; [|unfold TURN_ON_CUSTOM_MALLOC; auto with slamp].
  unfold SLAMP_dependence_module_store_log_n, stores, bind, gets. rewrite Eloop.
  apply write_words_run. intros x Hx. rewrite Emap. by apply Hm.
Qed.
End Hooks.

(** ** Flow dependences of a trace *)

(** An access that the profiler looks at, with the counters of the loop. *)
Record Access := MkAccess {
  a_store : bool; a_instr : Z; a_bare : Z; a_addr : Z; a_n : Z; a_iter : Z; a_invoc : Z }.
Definition covers (x : Access) (b : Z) : Prop := a_addr x ≤ b < a_addr x + a_n x.
#[global] Instance covers_dec x b : Decision (covers x b).
Proof. unfold covers. apply _. Defined.

(** A load depends on the last store to one of its bytes, if it is from the same
    invocation; the dependence is loop-carried if it is from another iteration. *)
Definition dependence (s l : Access) : KEY :=
  MkKey (a_instr s) (a_instr l) (a_bare l) (Z.b2z (negb (a_iter s =? a_iter l))).
Definition flow (hist : list Access) (k : KEY) : Prop :=
  ∃ h1 s h2 l h3 b, hist = h1 ++ s :: h2 ++ l :: h3 ∧ a_store s = true ∧ a_store l = false ∧ covers s b ∧ covers l b ∧
    (∀ x, x ∈ h2 → a_store x = true → ¬ covers x b) ∧ a_invoc s = a_invoc l ∧ k = dependence s l.

Definition store_to (b : Z) (x : Access) : Prop := a_store x = true ∧ covers x b.
#[global] Instance store_to_dec b x : Decision (store_to b x).
Proof. unfold store_to. apply _. Defined.
Definition last_store (hist : list Access) (b : Z) : option Access := last (filter (store_to b) hist).

Lemma last_store_snoc hist x b : last_store (hist ++ [x]) b = if decide (store_to b x) then Some x else last_store hist b.
Proof.
  unfold last_store. rewrite filter_app, filter_cons, filter_nil. destruct (decide (store_to b x)); [by rewrite last_snoc|by rewrite app_nil_r].
Qed.

Lemma last_store_iff hist b s : last_store hist b = Some s ↔
  ∃ h1 h2, hist = h1 ++ s :: h2 ∧ store_to b s ∧ ∀ x, x ∈ h2 → ¬ store_to b x.
Proof.
  induction hist as [|x hist IH] using rev_ind.
  - split; [done|]. intros ([|] & h2 & [=] & _).
  - rewrite last_store_snoc. destruct (decide (store_to b x)) as [Hx|Hx].
    + split.
      * intros [= ->]. exists hist, []. split; [done|]. split; [done|]. by intros ? ?%elem_of_nil.
      * intros (h1 & h2 & E & Hs & Hn). destruct h2 as [|y h2 _] using rev_ind.
        -- by apply app_inj_tail in E as [_ ->].
        -- rewrite app_comm_cons, app_assoc in E. apply app_inj_tail in E as [_ ->]. destruct (Hn y); [|done].
           apply elem_of_app. right. by apply list_elem_of_singleton.
    + rewrite IH. split.
      * intros (h1 & h2 & -> & Hs & Hn). exists h1, (h2 ++ [x]). split; [by rewrite <-app_assoc|]. split; [done|].
        intros y [Hy| ->%list_elem_of_singleton]%elem_of_app; [by apply Hn|done].
      * intros (h1 & h2 & E & Hs & Hn). destruct h2 as [|y h2 _] using rev_ind; [by apply app_inj_tail in E as [_ ->]|].
        rewrite app_comm_cons, app_assoc in E. apply app_inj_tail in E as [-> ->]. exists h1, h2. split; [done|]. split; [done|].
        intros z Hz. apply Hn, elem_of_app. by left.
Qed.

Lemma last_store_elem hist b s : last_store hist b = Some s → s ∈ hist ∧ store_to b s.
Proof. intros (h1 & h2 & -> & Hs & _)%last_store_iff. split; [|done]. apply elem_of_app. right. apply elem_of_cons. by left. Qed.

(** The dependences that the last access adds. *)
Lemma flow_snoc hist l k : flow (hist ++ [l]) k ↔ flow hist k ∨
  a_store l = false ∧ ∃ b s, covers l b ∧ last_store hist b = Some s ∧ a_invoc s = a_invoc l ∧ k = dependence s l.
Proof.
  split.
  - intros (h1 & s & h2 & l' & h3 & b & E & Hs & Hl & Hcs & Hcl & Hn & Hv & Hk). destruct h3 as [|y h3 _] using rev_ind.
    + right. change (hist ++ [l] = h1 ++ (s :: h2) ++ [l']) in E. rewrite app_assoc in E.
      apply app_inj_tail in E as [E ->]. split; [done|]. exists b, s. split; [done|]. split; [|done]. apply last_store_iff.
      exists h1, h2. split; [done|]. split; [done|]. intros x Hx [? ?]. by eapply Hn.
    + left. exists h1, s, h2, l', h3, b. split; [|done].
      replace (h1 ++ s :: h2 ++ l' :: h3 ++ [y]) with ((h1 ++ s :: h2 ++ l' :: h3) ++ [y]) in E by (rewrite <-!app_assoc; cbn; by rewrite <-app_assoc).
      by apply app_inj_tail in E as [-> _].
  - intros [(h1 & s & h2 & l' & h3 & b & -> & H)|(Hl & b & s & Hcl & (h1 & h2 & -> & [Hs Hcs] & Hn)%last_store_iff & Hv & Hk)].
    + exists h1, s, h2, l', (h3 ++ [l]), b. split; [|done]. rewrite <-!app_assoc. cbn. by rewrite <-app_assoc.
    + exists h1, s, h2, l, [], b. split; [by rewrite <-app_assoc|]. do 4 (split; [done|]). split; [|done].
      intros x Hx Hst Hc. by apply (Hn x).
Qed.

Lemma flow_nil k : ¬ flow [] k.
Proof. intros (h1 & s & h2 & l & h3 & b & E & _). by destruct h1. Qed.

(** ** Shadow pages *)

Lemma word_at_clear s n m x : default 0 (clear_words s n m !! x) = if decide (s ≤ x < s + n) then 0 else default 0 (m !! x).
Proof.
  unfold clear_words. rewrite map_lookup_filter. destruct (m !! x) as [v|]; cbn; [|by destruct (decide _)].
  destruct (decide (s ≤ x < s + n)) as [H|H].
  - by rewrite option_guard_False by (intros Hn; by apply Hn).
  - by rewrite option_guard_True by done.
Qed.

(** The shadow of a byte is in the region of its page. *)
Lemma in_region p n b : page_aligned p → user_span p (PAGE_SIZE * n) → user_addr b →
  shadow_of p ≤ shadow_of b < shadow_of p + REGION_SIZE * n ↔ p ≤ page_of b < p + PAGE_SIZE * n ∧ 0 < n.
Proof.
  intros Hp Hu Hb. destruct (user_page b Hb) as [Hq Hin].
  assert (page_aligned (page_of b)) as Ha by (apply page_of_aligned; unfold user_addr, user_span in Hb; lia).
  destruct (decide (0 < n)) as [Hn|Hn]; [|unfold REGION_SIZE, TIMESTAMP_SIZE_IN_BYTES, PAGE_SIZE; lia].
  rewrite (shadow_of_user p), (shadow_of_user b) by (done || unfold user_addr, user_span, PAGE_SIZE in *; lia).
  assert (p ≤ page_of b < p + PAGE_SIZE * n ↔ p ≤ b < p + PAGE_SIZE * n) as ->.
  { unfold page_aligned, PAGE_SIZE in *. Z.to_euclidean_division_equations; lia. }
  unfold user_addr, user_span, REGION_SIZE, TIMESTAMP_SIZE_IN_BYTES, PAGE_SIZE in *.
  repeat match goal with |- context [?x <? ?y] => destruct (Z.ltb_spec x y) end; lia.
Qed.

(** The pages that are not mapped yet get regions of zeros. *)
Record mapped_pages (l : list Z) (mm mm' : MemoryMap) : Prop := {
  mp_pages : pages mm' = pages mm;
  mp_start : heapStart mm' = heapStart mm;
  mp_regions : ∀ x, x ∈ regions mm' ↔ x ∈ regions mm ∨ ∃ p, p ∈ l ∧ (p ∉ pages mm) ∧ x = shadow_of p;
  mp_words : ∀ x, (word_at mm' x = word_at mm x ∧ (∀ p, p ∈ l → (p ∉ pages mm) → ¬ (shadow_of p ≤ x < shadow_of p + REGION_SIZE)))
    ∨ (word_at mm' x = 0 ∧ ∃ p, p ∈ l ∧ (p ∉ pages mm) ∧ shadow_of p ≤ x < shadow_of p + REGION_SIZE) }.

Lemma mapped_pages_cons p l mm mm1 mm' : pages mm1 = pages mm → mapped_pages [p] mm mm1 → mapped_pages l mm1 mm' → mapped_pages (p :: l) mm mm'.
Proof.
  intros Ep [_ A2 A3 A4] [B1 B2 B3 B4]. constructor; [congruence..| |].
  - intros x. rewrite B3, A3, Ep. setoid_rewrite list_elem_of_singleton. setoid_rewrite elem_of_cons. split.
    + intros [[?|(q & -> & ?)]|(q & ? & ?)]; [by left|right; exists p; tauto|right; exists q; tauto].
    + intros [?|(q & [->|?] & ?)]; [tauto|left; right; exists p; tauto|right; exists q; tauto].
  - intros x. rewrite Ep in B4. setoid_rewrite elem_of_cons. destruct (B4 x) as [[E1 H1]|[E1 (q & Hq & H1)]].
    + destruct (A4 x) as [[E2 H2]|[E2 (q & Hq & H2)]].
      * left. split; [congruence|]. intros q [->|Hq]; [apply H2; by apply list_elem_of_singleton|by apply H1].
      * right. split; [congruence|]. apply list_elem_of_singleton in Hq as ->. exists p. split; [by left|done].
    + right. split; [done|]. exists q. split; [by right|done].
Qed.

Section Mapping.
Context (mmap_fails : Z → bool) (Hmmap : ∀ x, mmap_fails x = false).

Lemma map_pages_run l : ∀ acc mm, ∃ acc' mm', map_pages mmap_fails l acc mm = (true, acc', mm') ∧ mapped_pages l mm mm'.
Proof.
  induction l as [|p l IH]; intros acc mm; cbn [map_pages].
  - exists acc, mm. split; [done|]. constructor; try done.
    + intros x. split; [by left|]. by intros [?|(? & ?%elem_of_nil & _)].
    + intros x. left. split; [done|]. by intros ? ?%elem_of_nil.
  - destruct (decide (p ∈ pages mm)) as [Hp|Hp].
    + destruct (IH acc mm) as (acc' & mm' & E & Hm). exists acc', mm'. split; [done|]. eapply mapped_pages_cons; [done| |done].
      constructor; try done; intros x; setoid_rewrite list_elem_of_singleton.
      * split; [by left|]. intros [?|(q & -> & ? & _)]; done.
      * left. split; [done|]. by intros q ->.
    + rewrite Hmmap. destruct (IH (shadow_of p :: acc) (mmap_region (shadow_of p) mm)) as (acc' & mm' & E & Hm). exists acc', mm'. split; [done|].
      apply (mapped_pages_cons p l mm (mmap_region (shadow_of p) mm)); [done| |done].
      constructor; try done; intros x; setoid_rewrite list_elem_of_singleton.
      * cbn. rewrite elem_of_gset_insert. split.
        -- intros [->|?]; [right; by exists p|by left].
        -- intros [?|(q & -> & _ & ->)]; [by right|by left].
      * unfold word_at. cbn. rewrite word_at_clear. destruct (decide _) as [Hx|Hx]; [right; split; [done|]; by exists p|left; split; [done|]; by intros q ->].
Qed.

Lemma allocate_run addr size mm : ∃ mm', allocate mmap_fails addr size mm =
    (Some (shadow_of addr), set_pages (gset_insert_all (pages_between (page_of addr) (page_of (addr + size - 1))) (pages mm)) mm') ∧
  mapped_pages (pages_between (page_of addr) (page_of (addr + size - 1))) mm mm'.
Proof.
  unfold allocate. destruct (map_pages_run (pages_between (page_of addr) (page_of (addr + size - 1))) [] mm) as (acc & mm' & -> & Hm).
  exists mm'. split; [by rewrite (mp_pages _ _ _ Hm)|done].
Qed.
End Mapping.

(** ** Runs of the profiler *)

Inductive Event :=
| Invocation | Iteration | Exit | Push (instr : Z) | Pop | ExtPush (instr : Z) | ExtPop
| Load (size instr addr bare value : Z) | LoadN (instr addr bare n : Z)
| Store (size instr addr : Z) | StoreN (instr addr n : Z)
| LoadExt (size addr bare value : Z) | LoadNExt (addr bare n : Z)
| StoreExt (size addr bare : Z) | StoreNExt (addr bare n : Z)
| Global (addr size : Z) | Alloc (size j : Z) | Free (ptr : Z).

Section Runs.
Context (cfg : Config) (mmap_fails : Z → bool).

Definition run_event (e : Event) : M Slamp Z :=
  match e with
  | Invocation => SLAMP_loop_invocation ;;; ret 0
  | Iteration => SLAMP_loop_iteration ;;; ret 0
  | Exit => SLAMP_loop_exit ;;; ret 0
  | Push instr => SLAMP_push instr ;;; ret 0
  | Pop => SLAMP_pop ;;; ret 0
  | ExtPush instr => SLAMP_ext_push instr ;;; ret 0
  | ExtPop => SLAMP_ext_pop ;;; ret 0
  | Load size instr addr bare value => SLAMP_load cfg size instr addr bare value ;;; ret 0
  | LoadN instr addr bare n => SLAMP_loadn cfg instr addr bare n ;;; ret 0
  | Store size instr addr => SLAMP_store cfg size instr instr addr ;;; ret 0
  | StoreN instr addr n => SLAMP_storen cfg instr addr n ;;; ret 0
  | LoadExt size addr bare value => SLAMP_load_ext cfg size addr bare value ;;; ret 0
  | LoadNExt addr bare n => SLAMP_loadn_ext cfg addr bare n ;;; ret 0
  | StoreExt size addr bare => SLAMP_store_ext cfg size addr bare ;;; ret 0
  | StoreNExt addr bare n => SLAMP_storen_ext cfg addr bare n ;;; ret 0
  | Global addr size => SLAMP_init_global_vars mmap_fails addr size ;;; ret 0
  | Alloc size j => SLAMP_memalign_hook cfg mmap_fails (2 ^ j) size
  | Free ptr => SLAMP_free_hook cfg ptr ;;; ret 0
  end.

(** The access of an event: whether it is a store, instruction, second instruction,
    address and number of bytes.  Long loads have no second instruction. *)
Definition raw_access (l : LoopState) (e : Event) : option (bool * Z * Z * Z * Z) :=
  match e with
  | Load size instr addr bare _ => Some (false, in_context instr l, bare, addr, size)
  | LoadN instr addr _ n => Some (false, in_context instr l, 0, addr, u32 n)
  | Store size instr addr => Some (true, in_context instr l, 0, addr, size)
  | StoreN instr addr n => Some (true, in_context instr l, 0, addr, u32 n)
  | LoadExt size addr bare _ => if context l =? 0 then None else Some (false, in_context (context l) l, bare, addr, size)
  | LoadNExt addr _ n => if context l =? 0 then None else Some (false, in_context (context l) l, 0, addr, u32 n)
  | StoreExt size addr _ => if context l =? 0 then None else Some (true, in_context (context l) l, 0, addr, size)
  | StoreNExt addr _ n => if context l =? 0 then None else Some (true, in_context (context l) l, 0, addr, u32 n)
  | _ => None
  end.
Definition access_of (w : Slamp) (e : Event) : option Access :=
  '(st, instr, bare, addr, n) ← raw_access (s_loop w) e;
  if tracks cfg w addr then Some (MkAccess st instr bare addr n (slamp_iteration (s_loop w)) (slamp_invocation (s_loop w))) else None.

(** What a program may do: access memory that has a shadow, declare objects outside of
    the heap, allocate while there is room, and free live objects once.  Instructions have 20 bits, and there are less
    than 16 invocations and [2^40] iterations. *)
Definition legal (live : list Obj) (w : Slamp) (e : Event) : bool :=
  match access_of w e with
  | Some x =>
      (0 <=? a_n x) && bool_decide (user_span (a_addr x) (a_n x)) && forallb (mapped (smmap w)) (word_addrs (shadow_of (a_addr x)) (a_n x)) &&
      (0 <=? a_iter x) && (a_iter x <? 2 ^ 40) && (0 <=? a_invoc x) && (a_invoc x <? 16) &&
      (negb (a_store x) || (0 <? a_instr x) && (a_instr x <? 2 ^ 20))
  | None =>
      match e with
      | Push _ => (1 <? invokedepth (s_loop w)) || (context (s_loop w) =? 0)
      | ExtPush _ => ext_context (s_loop w) =? 0
      | Global addr size =>
          (0 <=? size) && (16 <=? addr) && bool_decide (user_span addr size) &&
          ((addr + size <=? heap_begin (s_heap w)) || (heap_end (s_heap w) <=? addr))
      | Alloc size j =>
          (0 <=? size) && (4 <=? j) && (j <=? 12) && (heap_next (s_heap w) + size + 2 ^ j * 2 + 8 <? heap_end (s_heap w)) &&
          (Z.of_nat (length live) + 1 <? 2 ^ 32)
      | Free ptr => existsb (λ o, o_ptr o =? ptr) live
      | _ => true
      end
  end.

(** A run: the live objects, the accesses so far, and the state. *)
Record Run := MkRun { r_live : list Obj; r_hist : list Access; r_state : Slamp }.
Definition live_after (e : Event) (result : Z) (live : list Obj) : list Obj :=
  match e with
  | Alloc size j => MkObj result size (ROUND_UP size (2 ^ j)) :: live
  | Free ptr => filter (λ o, o_ptr o ≠ ptr) live
  | _ => live
  end.
Definition run_step (e : Event) (r : Run) : option Run :=
  match run_event e (r_state r) with
  | Ok result w => Some (MkRun (live_after e result (r_live r)) (r_hist r ++ option_list (access_of (r_state r) e)) w)
  | Stop _ _ => None
  end.
Fixpoint run_trace (evs : list Event) (r : Run) : option Run :=
  match evs with
  | [] => Some r
  | e :: evs' => match run_step e r with Some r' => run_trace evs' r' | None => None end
  end.
Fixpoint legal_trace (evs : list Event) (r : Run) : bool :=
  match evs with
  | [] => true
  | e :: evs' => legal (r_live r) (r_state r) e && match run_step e r with Some r' => legal_trace evs' r' | None => true end
  end.

(** *** The invariant *)

Definition stamp (s : option Access) : Z :=
  match s with Some s => CREATE_TS (a_instr s) (a_iter s) (a_invoc s) | None => 0 end.

Definition ranged (s : Access) : Prop := 0 < a_instr s < 2 ^ 20 ∧ 0 ≤ a_iter s < 2 ^ 40 ∧ 0 ≤ a_invoc s < 16.

Record traced (r : Run) : Prop := {
  tr_heap : heap_ok (r_live r) (s_heap (r_state r));
  tr_end : heap_end (s_heap (r_state r)) ≤ 2 ^ 40;
  tr_pages : ∀ p, p ∈ pages (smmap (r_state r)) → page_aligned p ∧ user_addr p;
  tr_regions : ∀ b, user_addr b → mapped (smmap (r_state r)) (shadow_of b) = true ↔ page_of b ∈ pages (smmap (r_state r));
  tr_words : ∀ b, user_addr b → page_of b ∈ pages (smmap (r_state r)) →
    word_at (smmap (r_state r)) (shadow_of b) = stamp (last_store (r_hist r) b);
  tr_stored : ∀ b s, user_addr b → last_store (r_hist r) b = Some s →
    page_of b ∈ pages (smmap (r_state r)) ∨ page_of b ∈ unmapped (s_heap (r_state r));
  tr_ranged : ∀ s, s ∈ r_hist r → a_store s = true → ranged s;
  tr_log : ∀ k, k ∈ deplog_set (r_state r) ↔ flow (r_hist r) k;
  tr_live : ∀ o b, o ∈ r_live r → o_ptr o ≤ b < o_ptr o + o_size o → page_of b ∈ pages (smmap (r_state r)) }.

(** Steps that change neither shadow, heap nor log. *)
Lemma traced_same live hist w w' : traced (MkRun live hist w) → smmap w' = smmap w → s_heap w' = s_heap w →
  deplog_set w' = deplog_set w → traced (MkRun live hist w').
Proof.
  intros [H1 H2 H3 H4 H5 H6 H7 H8 H9] E1 E2 E3. constructor; cbn [r_live r_hist r_state] in *; rewrite ?E1, ?E2, ?E3; done.
Qed.

(** The word of a byte of an access. *)
Lemma elem_of_word_addrs a n x : user_span a n → x ∈ word_addrs (shadow_of a) n ↔ ∃ b, a ≤ b < a + n ∧ x = shadow_of b.
Proof.
  intros Hu. rewrite word_addrs_user by done. rewrite list_elem_of_fmap. setoid_rewrite elem_of_seqZ. split.
  - intros (i & -> & Hi). exists (a + i). split; [lia|done].
  - intros (b & Hb & ->). exists (b - a). split; [f_equal; lia|lia].
Qed.

(** A load adds what it depends on. *)
Lemma traced_load live hist w w' x : traced (MkRun live hist w) → user_span (a_addr x) (a_n x) →
  words_mapped w (a_addr x) (a_n x) → a_store x = false → 0 ≤ a_invoc x < 16 →
  slamp_iteration (s_loop w) = a_iter x → slamp_invocation (s_loop w) = a_invoc x →
  logged w w' (λ k, ∃ y, y ∈ word_addrs (shadow_of (a_addr x)) (a_n x) ∧
    reports (s_loop w) (a_instr x) (a_bare x) (word_at (smmap w) y) k) →
  traced (MkRun live (hist ++ [x]) w').
Proof.
  intros [H1 H2 H3 H4 H5 H6 H7 H8 H9] Hu Hm Hst Hv Ei Ev [_ L2 L3 L4]. cbn [r_live r_hist r_state] in *.
  assert (∀ b, last_store (hist ++ [x]) b = last_store hist b) as Hls.
  { intros b. rewrite last_store_snoc, decide_False; [done|]. intros [? _]. congruence. }
  constructor; cbn [r_live r_hist r_state]; rewrite ?L2, ?L3; try done.
  - intros b Hb Hp. rewrite Hls. by apply H5.
  - intros b s Hb. rewrite Hls. by apply H6.
  - intros s [Hs| ->%list_elem_of_singleton]%elem_of_app; [by apply H7|congruence].
  - intros k. rewrite L4, H8, flow_snoc. apply or_iff_compat_l. split.
    + intros (y & (b & Hb & ->)%elem_of_word_addrs & Hr); [|done]. split; [done|]. exists b.
      assert (user_addr b) as Hub by (eapply user_span_addr; [exact Hu|done]).
      assert (page_of b ∈ pages (smmap w)) as Hpb by (apply H4; [done|]; apply Hm, elem_of_word_addrs; [done|by exists b]).
      rewrite (H5 b Hub Hpb) in Hr. destruct (last_store hist b) as [s|] eqn:Es; [|by destruct Hr].
      destruct (last_store_elem _ _ _ Es) as [Hs [Hss _]]. destruct (H7 s Hs Hss) as (R1 & R2 & R3).
      destruct Hr as (_ & Hinv & ->). destruct (timestamp_fields (a_instr s) (a_iter s) (a_invoc s)) as (F1 & F2 & F3); [lia..|].
      exists s. split; [done|]. split; [done|]. cbn [stamp] in *. rewrite F3, Ev in Hinv.
      change 0xf with (Z.ones 4) in Hinv. unfold GET_INVOC in Hinv. change 0xf with (Z.ones 4) in Hinv. rewrite Z.land_ones, Z.mod_small in Hinv by lia.
      split; [done|]. unfold dependence. by rewrite F1, F2, Ei.
    + intros (_ & b & s & Hb & Es & Hinv & ->). exists (shadow_of b). split; [apply elem_of_word_addrs; [done|by exists b]|].
      assert (user_addr b) as Hub by (eapply user_span_addr; [exact Hu|done]).
      assert (page_of b ∈ pages (smmap w)) as Hpb by (apply H4; [done|]; apply Hm, elem_of_word_addrs; [done|by exists b]).
      rewrite (H5 b Hub Hpb), Es. destruct (last_store_elem _ _ _ Es) as [Hs [Hss _]]. destruct (H7 s Hs Hss) as (R1 & R2 & R3).
      destruct (timestamp_fields (a_instr s) (a_iter s) (a_invoc s)) as (F1 & F2 & F3); [lia..|]. cbn [stamp]. unfold reports.
      rewrite F1, F2, F3. split; [apply timestamp_nonzero; lia|]. rewrite Ev, Ei. split; [|done].
      unfold GET_INVOC. change 0xf with (Z.ones 4). rewrite Z.land_ones, Z.mod_small by lia. done.
Qed.

(** A store becomes the last one to its bytes. *)
Lemma traced_store live hist w w' x : traced (MkRun live hist w) → user_span (a_addr x) (a_n x) →
  words_mapped w (a_addr x) (a_n x) → a_store x = true → ranged x →
  stored w w' (word_addrs (shadow_of (a_addr x)) (a_n x)) (CREATE_TS (a_instr x) (a_iter x) (a_invoc x)) →
  traced (MkRun live (hist ++ [x]) w').
Proof.
  intros [H1 H2 H3 H4 H5 H6 H7 H8 H9] Hu Hm Hst Hr [_ S2 S3 S4 S5 _ S7]. cbn [r_live r_hist r_state] in *.
  assert (∀ y, mapped (smmap w') y = mapped (smmap w) y) as Hmap by (intros y; unfold mapped; by rewrite S5).
  assert (∀ b, user_addr b → shadow_of b ∈ word_addrs (shadow_of (a_addr x)) (a_n x) ↔ store_to b x) as Hin.
  { intros b Hb. rewrite elem_of_word_addrs by done. split.
    - intros (b' & Hb' & E). apply shadow_of_inj in E as ->; [by split|done|by apply (user_span_addr (a_addr x) (a_n x))].
    - intros [_ Hc]. by exists b. }
  constructor; cbn [r_live r_hist r_state]; rewrite ?S2, ?S3, ?S4; try done.
  - intros b Hb. rewrite Hmap. by apply H4.
  - intros b Hb Hp. rewrite S7, last_store_snoc. destruct (decide (store_to b x)) as [Hs|Hs].
    + rewrite decide_True by by apply Hin. done.
    + rewrite decide_False by (rewrite Hin; done). by apply H5.
  - intros b s Hb. rewrite last_store_snoc. destruct (decide (store_to b x)) as [[_ Hc]|]; [|by apply H6].
    intros _. left. apply H4; [done|]. apply Hm, elem_of_word_addrs; [done|by exists b].
  - intros s [Hs| ->%list_elem_of_singleton]%elem_of_app; [by apply H7|done].
  - intros k. rewrite H8, flow_snoc. split; [by left|]. intros [?|[? _]]; [done|congruence].
Qed.

(** *** Steps *)

Context (Hcfg : dependence_profiling cfg) (Hmmap : ∀ x, mmap_fails x = false).

Lemma page_span q : page_aligned q → user_addr q → user_span q (PAGE_SIZE * 1).
Proof. unfold user_addr, user_span, page_aligned, PAGE_SIZE. intros. Z.to_euclidean_division_equations; lia. Qed.

Lemma other_region q b : page_aligned q → user_addr q → user_addr b → q ≠ page_of b →
  ¬ (shadow_of q ≤ shadow_of b < shadow_of q + REGION_SIZE).
Proof.
  intros Hq Hu Hb Hne Hin. destruct (proj1 (in_region q 1 b Hq (page_span q Hq Hu) Hb)) as [Hin' _]; [by rewrite Z.mul_1_r|].
  assert (page_aligned (page_of b)) as Hab by (apply page_of_aligned; unfold user_addr, user_span in Hb; lia).
  pose proof (aligned_gap q (page_of b) Hq Hab). lia.
Qed.

(** New pages have no stores. *)
Lemma traced_map live hist w l mm' w' : traced (MkRun live hist w) →
  (∀ q, q ∈ l → page_aligned q ∧ user_addr q ∧ (q ∉ unmapped (s_heap w))) → mapped_pages l (smmap w) mm' →
  s_heap w' = s_heap w → smmap w' = set_pages (gset_insert_all l (pages (smmap w))) mm' → deplog_set w' = deplog_set w →
  traced (MkRun live hist w').
Proof.
  intros [H1 H2 H3 H4 H5 H6 H7 H8 H9] Hl [M1 _ M3 M4] Eh Em Ed. cbn [r_live r_hist r_state] in *.
  assert (∀ q, q ∈ pages (smmap w') ↔ q ∈ l ∨ q ∈ pages (smmap w)) as Hpg.
  { intros q. rewrite Em. apply elem_of_gset_insert_all. }
  constructor; cbn [r_live r_hist r_state]; rewrite ?Eh, ?Ed; try done.
  - intros q [Hq|Hq]%Hpg; [by apply Hl in Hq as (? & ? & _)|by apply H3].
  - intros b Hb. rewrite Hpg. unfold mapped. rewrite Em. cbn. rewrite bool_decide_eq_true, region_of_user, M3 by done.
    specialize (H4 b Hb). unfold mapped in H4. rewrite bool_decide_eq_true, region_of_user in H4 by done. rewrite H4. split.
    + intros [?|(q & Hq & _ & E)]; [by right|left]. apply shadow_of_inj in E as ->; [done|by apply user_page|by apply Hl].
    + intros [Hq|?]; [|by left]. destruct (decide (page_of b ∈ pages (smmap w))); [by left|right]. by exists (page_of b).
  - intros b Hb Hp%Hpg. rewrite Em. change (word_at (set_pages ?P mm') ?x) with (word_at mm' x).
    destruct (decide (page_of b ∈ pages (smmap w))) as [Hold|Hnew].
    + destruct (M4 (shadow_of b)) as [[-> _]|[_ (q & (Hq & Hu & _)%Hl & Hnq & Hin)]]; [by apply H5|]. exfalso.
      by apply (other_region q b Hq Hu Hb); [intros ->|].
    + destruct Hp as [Hp|?]; [|done]. destruct (M4 (shadow_of b)) as [[_ Hno]|[-> _]].
      * exfalso. apply (Hno _ Hp Hnew). apply Hl in Hp as (Ha & Hu & _).
        rewrite <-(Z.mul_1_r REGION_SIZE). apply in_region; [done|by apply page_span|done|unfold PAGE_SIZE; lia].
      * destruct (last_store hist b) as [s|] eqn:Es; [|done]. destruct (H6 b s Hb Es) as [?|Hgone]; [done|]. by apply Hl in Hp as (_ & _ & ?).
  - intros b s Hb Es. destruct (H6 b s Hb Es) as [?|?]; [left; apply Hpg; by right|by right].
  - intros o b Ho Hb. apply Hpg. right. by eapply H9.
Qed.

(** Another heap, with the same pages given back. *)
Lemma traced_heap live live' hist w h' w' : traced (MkRun live hist w) → heap_ok live' h' → heap_end h' ≤ 2 ^ 40 →
  unmapped h' = unmapped (s_heap w) → s_heap w' = h' → smmap w' = smmap w → deplog_set w' = deplog_set w →
  (∀ o b, o ∈ live' → o_ptr o ≤ b < o_ptr o + o_size o → page_of b ∈ pages (smmap w)) → traced (MkRun live' hist w').
Proof.
  intros [H1 H2 H3 H4 H5 H6 H7 H8 H9] Hh He Hu Eh Em Ed Hl. cbn [r_live r_hist r_state] in *.
  constructor; cbn [r_live r_hist r_state]; rewrite ?Eh, ?Em, ?Ed, ?Hu; done.
Qed.

(** The pages of a span of addresses. *)
Lemma span_pages a n q : 0 ≤ n → user_span a n → 16 ≤ a → q ∈ pages_between (page_of a) (page_of (a + n - 1)) →
  page_aligned q ∧ user_addr q ∧ page_of a ≤ q ≤ a + n - 1.
Proof.
  intros Hn Hu Ha Hq. assert (0 ≤ a ≤ 2 ^ 47 ∧ a + n ≤ 2 ^ 47) as Hr by (unfold user_span in *; lia).
  apply elem_of_pages_between in Hq as [Hq Hb]; [|apply page_of_aligned; lia..].
  destruct (proj1 (page_of_iff a _ ltac:(lia)) eq_refl) as [Hpa H1]. destruct (proj1 (page_of_iff (a + n - 1) _ ltac:(lia)) eq_refl) as [_ H2].
  split; [done|]. split; [|lia]. unfold user_addr, user_span, page_aligned, PAGE_SIZE in *. Z.to_euclidean_division_equations; lia.
Qed.

(** The shadow of the pages that are given back. *)
Definition purge_shadow (r : option (Z * Z)) (mm : MemoryMap) : MemoryMap :=
  match r with Some (first, cnt) => deallocate_pages first cnt mm | None => mm end.

Lemma purge_shadow_run r mm : (∀ p, p ∈ purged_pages r → page_aligned p ∧ 0 ≤ p ∧ p + PAGE_SIZE ≤ 2 ^ 40) →
  (∀ p, p ∈ pages (purge_shadow r mm) ↔ p ∈ pages mm ∧ (p ∉ purged_pages r)) ∧
  (∀ b, user_addr b → mapped (purge_shadow r mm) (shadow_of b) = true ↔ mapped mm (shadow_of b) = true ∧ (page_of b ∉ purged_pages r)) ∧
  ∀ b, user_addr b → (page_of b ∉ purged_pages r) → word_at (purge_shadow r mm) (shadow_of b) = word_at mm (shadow_of b).
Proof.
  intros Hp. destruct r as [[first cnt]|]; cbn [purge_shadow purged_pages] in *.
  2:{ split_and!; [intros p|intros b Hb|done]; (split; [intros Hx; split; [done|apply not_elem_of_nil]|by intros [? _]]). }
  destruct (decide (0 < cnt)) as [Hc|Hc].
  2:{ unfold deallocate_pages, munmap_regions. rewrite seqZ_nil by lia. cbn. split_and!.
      - intros p. rewrite difference_empty_L. split; [intros; split; [done|apply not_elem_of_nil]|tauto].
      - intros b Hb. unfold mapped. cbn. rewrite difference_empty_L. split; [intros; split; [done|apply not_elem_of_nil]|tauto].
      - intros b Hb _. unfold word_at. cbn. rewrite word_at_clear, decide_False; [done|]. unfold REGION_SIZE, TIMESTAMP_SIZE_IN_BYTES, PAGE_SIZE. lia. }
  assert (page_aligned first ∧ 0 ≤ first ∧ first + PAGE_SIZE * cnt ≤ 2 ^ 40) as (Ha & H0 & He).
  { destruct (Hp first) as (? & ? & _); [apply list_elem_of_fmap; exists 0; rewrite elem_of_seqZ; lia|].
    destruct (Hp (first + PAGE_SIZE * (cnt - 1))) as (_ & _ & ?); [apply list_elem_of_fmap; exists (cnt - 1); rewrite elem_of_seqZ; split; [done|lia]|].
    split_and!; [done..|unfold PAGE_SIZE in *; lia]. }
  assert (user_span first (PAGE_SIZE * cnt)) as Hs by (left; done).
  set (l := (λ k, first + PAGE_SIZE * k) <$> seqZ 0 cnt) in *.
  assert (∀ b, user_addr b → page_of b ∈ l ↔ first ≤ page_of b < first + PAGE_SIZE * cnt) as Hl.
  { intros b Hb. unfold l. rewrite list_elem_of_fmap. setoid_rewrite elem_of_seqZ.
    assert (page_aligned (page_of b)) as Hab by (apply page_of_aligned; unfold user_addr, user_span in Hb; lia). unfold page_aligned, PAGE_SIZE in *. split.
    - intros (k & -> & Hk). lia.
    - intros Hin. exists ((page_of b - first) / (4 * 1024)). Z.to_euclidean_division_equations. lia. }
  split_and!.
  - intros p. cbn. by rewrite elem_of_difference, elem_of_list_to_set.
  - intros b Hb. unfold mapped. cbn. rewrite !bool_decide_eq_true, elem_of_difference, region_of_user, elem_of_list_to_set by done.
    apply and_iff_compat_l. f_equiv. unfold l. rewrite !list_elem_of_fmap. setoid_rewrite elem_of_seqZ. destruct (user_page b Hb) as [Hub _].
    assert (∀ k, 0 ≤ k < cnt → shadow_of (first + PAGE_SIZE * k) = shadow_of first + REGION_SIZE * k) as Hsh.
    { intros k Hk. rewrite (shadow_of_next first (PAGE_SIZE * cnt)) by (done || unfold PAGE_SIZE; lia). unfold REGION_SIZE, TIMESTAMP_SIZE_IN_BYTES. lia. }
    split; intros (k & E & Hk); exists k; (split; [|done]).
    + rewrite <-Hsh in E by lia. apply shadow_of_inj in E; [done..|left; unfold PAGE_SIZE in *; lia].
    + rewrite E, Hsh by lia. done.
  - intros b Hb Hn. unfold word_at. cbn. rewrite word_at_clear, decide_False; [done|]. intros [Hin _]%in_region; [|done..]. by apply Hn, Hl.
Qed.

Lemma traced_free live hist w o r h' w' : traced (MkRun live hist w) → o ∈ live → freed_from live (s_heap w) o r h' →
  s_heap w' = h' → smmap w' = purge_shadow r (smmap w) → deplog_set w' = deplog_set w → traced (MkRun (without o live) hist w').
Proof.
  intros [H1 H2 H3 H4 H5 H6 H7 H8 H9] Ho [F1 (F2 & F3 & F4) F5 F6] Eh Em Ed. cbn [r_live r_hist r_state] in *.
  pose proof (hk_begin _ _ H1) as [B1 B2]. pose proof (hk_end _ _ H1) as [E1 E2].
  destruct (obj_pages_ends _ o (hk_objs _ _ H1 o Ho) B1 ltac:(lia)) as (A1 & A2 & Ht & _ & _).
  pose proof (ob_begin _ _ (hk_objs _ _ H1 o Ho)) as Hob.
  assert (∀ p, p ∈ purged_pages r → page_aligned p ∧ 0 ≤ p ∧ p + PAGE_SIZE ≤ 2 ^ 40) as Hpur.
  { intros p [[_ Hn] [Hp [Hlo _]]%Ht]%F5. split; [done|]. split; [|lia].
    assert (0 ≤ page_of (o_ptr o - 16)); [|lia]. pose proof (ob_next _ _ (hk_objs _ _ H1 o Ho)). pose proof (ob_size _ _ (hk_objs _ _ H1 o Ho)).
    rewrite page_of_spec by lia. unfold PAGE_SIZE. Z.to_euclidean_division_equations. lia. }
  destruct (purge_shadow_run r (smmap w) Hpur) as (P1 & P2 & P3). rewrite <-Em in P1, P2, P3.
  constructor; cbn [r_live r_hist r_state]; rewrite ?Eh, ?Ed, ?F3, ?F4; try done.
  - intros p [Hp _]%P1. by apply H3.
  - intros b Hb. rewrite P1, P2, H4 by done. done.
  - intros b Hb [Hp Hn]%P1. rewrite P3 by done. by apply H5.
  - intros b s Hb Es. rewrite P1. destruct (decide (page_of b ∈ purged_pages r)) as [Hin|Hn]; [right; apply F6; by left|].
    destruct (H6 b s Hb Es); [by left|right; apply F6; by right].
  - intros x b [Hne Hx]%list_elem_of_filter Hb. apply P1. split; [by eapply H9|]. intros Hpu.
    assert (page_of b ∈ unmapped h') as Hu by (apply F6; by left). destruct (hk_gone _ _ F1 _ Hu) as (_ & _ & Hz).
    assert (0 < alive (without o live) (page_of b)); [|lia]. apply alive_pos. exists x. split; [by apply list_elem_of_filter|].
    destruct (obj_pages_ends _ x (hk_objs _ _ H1 x Hx) B1 ltac:(lia)) as (_ & _ & Htx & _). pose proof (hk_objs _ _ H1 x Hx) as [X1 _ X3 X4 _ _].
    apply Htx. split; [apply page_of_aligned; lia|]. split; apply page_of_le; lia.
Qed.

(** The three ways in which an access hook ends. *)
Lemma ret_after (c : M Slamp unit) w w' : c w = Ok tt w' → (c ;;; ret 0) w = Ok 0 w'.
Proof. intros E. unfold bind. by rewrite E. Qed.

Lemma context_run f w : context (s_loop w) ≠ 0 → with_context f w = f (context (s_loop w)) w.
Proof. intros Hc. unfold with_context, bind, gets. by rewrite (proj2 (Z.eqb_neq _ _) Hc). Qed.

Lemma access_untracked w e st instr bare addr n : raw_access (s_loop w) e = Some (st, instr, bare, addr, n) →
  tracks cfg w addr = false → ∃ w', run_event e w = Ok 0 w' ∧ same w w'.
Proof.
  assert (∀ c : M Slamp unit, (∃ w', c w = Ok tt w' ∧ same w w') → ∃ w', (c ;;; ret 0) w = Ok 0 w' ∧ same w w') as H.
  { intros c (w' & E & Hs). exists w'. split; [by apply ret_after|done]. }
  destruct e; cbn [raw_access run_event]; try discriminate; try (destruct (Z.eqb_spec (context (s_loop w)) 0); [discriminate|]);
    intros [= <- <- <- <- <-] Ht; apply H;
    unfold SLAMP_load_ext, SLAMP_loadn_ext, SLAMP_store_ext, SLAMP_storen_ext; rewrite ?context_run by done;
    lazymatch goal with
    | |- context [SLAMP_load] => by apply untracked_load
    | |- context [SLAMP_loadn] => by apply untracked_loadn
    | |- context [SLAMP_store] => by apply untracked_store
    | |- context [SLAMP_storen] => by apply untracked_storen
    end.
Qed.

Lemma access_load w e instr bare addr n : raw_access (s_loop w) e = Some (false, instr, bare, addr, n) →
  tracks cfg w addr = true → words_mapped w addr n →
  ∃ w', run_event e w = Ok 0 w' ∧ logged w w' (λ k, ∃ y, y ∈ word_addrs (shadow_of addr) n ∧
    reports (s_loop w) instr bare (word_at (smmap w) y) k).
Proof.
  assert (∀ c Q, logs c w Q → ∃ w', (c ;;; ret 0) w = Ok 0 w' ∧ logged w w' Q) as H.
  { intros c Q (w' & E & Hs). exists w'. split; [by apply ret_after|done]. }
  destruct e; cbn [raw_access run_event]; try discriminate; try (destruct (Z.eqb_spec (context (s_loop w)) 0); [discriminate|]);
    intros [= <- <- <- <-] Ht Hm; apply H; unfold logs, SLAMP_load_ext, SLAMP_loadn_ext; rewrite ?context_run by done;
    lazymatch goal with
    | |- context [SLAMP_load] => by apply load_run
    | |- context [SLAMP_loadn] => by apply loadn_run
    end.
Qed.

Lemma access_store w e instr bare addr n : raw_access (s_loop w) e = Some (true, instr, bare, addr, n) →
  tracks cfg w addr = true → words_mapped w addr n →
  ∃ w', run_event e w = Ok 0 w' ∧ stored w w' (word_addrs (shadow_of addr) n) (timestamp instr (s_loop w)).
Proof.
  assert (∀ c l ts, stores c w l ts → ∃ w', (c ;;; ret 0) w = Ok 0 w' ∧ stored w w' l ts) as H.
  { intros c l ts (w' & E & Hs). exists w'. split; [by apply ret_after|done]. }
  destruct e; cbn [raw_access run_event]; try discriminate; try (destruct (Z.eqb_spec (context (s_loop w)) 0); [discriminate|]);
    intros [= <- <- <- <-] Ht Hm; apply H; unfold stores, SLAMP_store_ext, SLAMP_storen_ext; rewrite ?context_run by done;
    lazymatch goal with
    | |- context [SLAMP_store] => by apply store_run
    | |- context [SLAMP_storen] => by apply storen_run
    end.
Qed.

Lemma traced_access live hist w e x : traced (MkRun live hist w) → access_of w e = Some x → legal live w e = true →
  ∃ w', run_event e w = Ok 0 w' ∧ live_after e 0 live = live ∧ traced (MkRun live (hist ++ [x]) w').
Proof.
  intros Ht Ha Hl. unfold legal in Hl. rewrite Ha in Hl. unfold access_of in Ha.
  destruct (raw_access (s_loop w) e) as [[[[[st instr] bare] addr] n]|] eqn:Er; [|done]. cbn [mbind option_bind] in Ha.
  destruct (tracks cfg w addr) eqn:Htr; [|done]. injection Ha as <-. cbn [a_n a_addr a_iter a_invoc a_store a_instr] in Hl.
  rewrite !andb_true_iff, !Z.leb_le, !Z.ltb_lt, forallb_forall, bool_decide_eq_true in Hl. destruct Hl as [[[[[[[Hn Hu] Hm] I1] I2] V1] V2] Hi].
  assert (words_mapped w addr n) as Hw by (intros y Hy; by apply Hm, list_elem_of_In).
  assert (live_after e 0 live = live) as El by by destruct e.
  destruct st.
  - cbn [negb orb] in Hi. rewrite andb_true_iff, !Z.ltb_lt in Hi.
    destruct (access_store w e instr bare addr n Er Htr Hw) as (w' & E & Hs). exists w'. split; [done|]. split; [done|].
    eapply traced_store; [done|done|done|done| |exact Hs]. unfold ranged. cbn. lia.
  - destruct (access_load w e instr bare addr n Er Htr Hw) as (w' & E & Hs). exists w'. split; [done|]. split; [done|].
    by eapply traced_load; try done.
Qed.

(** Loop events only change the counters. *)
Definition loop_event (e : Event) : bool :=
  match e with Invocation | Iteration | Exit | Push _ | Pop | ExtPush _ | ExtPop => true | _ => false end.

Lemma loop_event_run live w e : loop_event e = true → legal live w e = true →
  ∃ w', run_event e w = Ok 0 w' ∧ smmap w' = smmap w ∧ s_heap w' = s_heap w ∧ deplog_set w' = deplog_set w.
Proof.
  destruct e; try done; intros _; cbn [legal access_of raw_access mbind option_bind run_event];
    unfold SLAMP_loop_invocation, SLAMP_loop_iteration, SLAMP_loop_exit, SLAMP_push, SLAMP_pop, SLAMP_ext_push, SLAMP_ext_pop,
      modify_loop, bind, gets, modify, ret, assert_; cbn.
  - intros _. destruct (1 <? u32 (invokedepth (s_loop w) + 1)); by eexists.
  - intros _. destruct (1 <? invokedepth (s_loop w)); by eexists.
  - intros _. destruct (invokedepth (s_loop w) =? 0); by eexists.
  - destruct (1 <? invokedepth (s_loop w)); cbn; [by eexists|]. intros ->. by eexists.
  - intros _. destruct (1 <? invokedepth (s_loop w)); by eexists.
  - intros ->. by eexists.
  - intros _. by eexists.
Qed.

Lemma alloc_run live hist w size j : traced (MkRun live hist w) → legal live w (Alloc size j) = true →
  ∃ p w', run_event (Alloc size j) w = Ok p w' ∧ traced (MkRun (MkObj p size (ROUND_UP size (2 ^ j)) :: live) hist w').
Proof.
  intros Ht Hl. cbn in Hl. rewrite !andb_true_iff, !Z.leb_le, !Z.ltb_lt in Hl. destruct Hl as [[[[Hs J1] J2] Hroom] Hlen].
  pose proof (tr_heap _ Ht) as Hh. pose proof (tr_end _ Ht) as He. cbn in Hh, He.
  destruct (bound_malloc_run live (s_heap w) size j Hh Hs (conj J1 J2) Hroom Hlen) as (p & h' & E & [A1 A2 A3 (A4 & A5 & A6) A7]).
  pose proof (hk_begin _ _ Hh) as [B1 _]. pose proof (hk_next _ _ Hh) as [N1 _]. pose proof (hk_end _ _ A1) as [E1 _].
  pose proof (ob_size _ _ (hk_objs _ _ A1 _ ltac:(apply elem_of_cons; by left))) as Hroom'. cbn in Hroom'.
  destruct (allocate_run mmap_fails Hmmap p size (smmap w)) as (mm' & Em & Hm).
  assert (user_span p size) as Hu by (left; lia).
  match type of Em with _ = (_, ?mm) => assert (traced (MkRun live hist (set_smmap mm w))) as Ht1 end.
  { eapply traced_map; try done. intros q Hq. destruct (span_pages p size q Hs Hu ltac:(lia) Hq) as (Hq1 & Hq2 & Hq3 & _).
    do 2 (split; [done|]). intros (_ & Hlt & _)%(hk_gone _ _ Hh). destruct (proj1 (page_of_iff p _ ltac:(lia)) eq_refl). lia. }
  cbn [run_event]. unfold SLAMP_memalign_hook, SLAMP_malloc, TURN_OFF_CUSTOM_MALLOC. unfold bind at 1, gets at 1. unfold bind at 1. unfold bind at 1, modify at 1.
  unfold bind at 1, heap_op. cbn [s_heap set_custom_malloc]. rewrite E. cbn [malloc_loop]. rewrite (proj2 (Z.eqb_neq p 0)) by lia.
  rewrite (dp_dep _ Hcfg), (dp_pts _ Hcfg). cbn [orb]. unfold bind at 1, allocate_shadow. unfold bind at 1, gets at 1. cbn [smmap set_heap set_custom_malloc].
  rewrite Em. unfold bind at 1, modify at 1, ret at 1. unfold bind, gets, when, ret, TURN_ON_CUSTOM_MALLOC, count_malloc, modify.
  eexists _, _. split; [done|]. eapply (traced_heap live _ hist _ h'); [exact Ht1|done|lia|done..|].
  intros o b [->|Ho]%elem_of_cons Hb; cbn [o_ptr o_size smmap set_smmap set_pages pages] in *; apply elem_of_gset_insert_all; [left|right; by eapply (tr_live _ Ht)].
  apply elem_of_pages_between; [apply page_of_aligned; lia..|]. split; [apply page_of_aligned; lia|]. split; apply page_of_le; lia.
Qed.

Lemma global_run live hist w addr size : traced (MkRun live hist w) → legal live w (Global addr size) = true →
  ∃ w', run_event (Global addr size) w = Ok 0 w' ∧ traced (MkRun live hist w').
Proof.
  intros Ht Hl. cbn in Hl. rewrite !andb_true_iff, orb_true_iff, !Z.leb_le, bool_decide_eq_true in Hl. destruct Hl as [[[Hs Ha] Hu] Hout].
  pose proof (tr_heap _ Ht) as Hh. cbn in Hh.
  destruct (allocate_run mmap_fails Hmmap addr size (smmap w)) as (mm' & Em & Hm). cbn [run_event].
  unfold SLAMP_init_global_vars, allocate_shadow, bind, gets, modify, ret. rewrite Em. eexists. split; [done|].
  eapply traced_map; try done. intros q Hq. destruct (span_pages addr size q Hs Hu Ha Hq) as (Hq1 & Hq2 & Hq3).
  do 2 (split; [done|]). intros (Hge & Hlt & _)%(hk_gone _ _ Hh).
  pose proof (hk_end _ _ Hh). assert (0 ≤ addr < 2 ^ 64) as Hr by (unfold user_span in Hu; lia).
  destruct (proj1 (page_of_iff addr _ Hr) eq_refl). lia.
Qed.

Lemma free_run live hist w ptr : traced (MkRun live hist w) → legal live w (Free ptr) = true →
  ∃ w', run_event (Free ptr) w = Ok 0 w' ∧ traced (MkRun (filter (λ o, o_ptr o ≠ ptr) live) hist w').
Proof.
  intros Ht Hl. cbn in Hl. apply existsb_exists in Hl as (o & Ho%list_elem_of_In & Ep%Z.eqb_eq). subst ptr.
  pose proof (tr_heap _ Ht) as Hh. cbn in Hh. destruct (bound_free_run live (s_heap w) o Hh Ho) as (r & h' & E & Hf).
  assert (filter (λ x, o_ptr x ≠ o_ptr o) live = without o live) as ->.
  { apply filter_same. intros x Hx. destruct (hk_apart _ _ Hh x o Hx Ho) as [->|Ha]; [done|].
    pose proof (ob_size _ _ (hk_objs _ _ Hh x Hx)). pose proof (ob_size _ _ (hk_objs _ _ Hh o Ho)). unfold apart in Ha.
    split; intros Hne; [intros ->; lia|lia]. }
  cbn [run_event]. unfold SLAMP_free_hook, SLAMP_free, TURN_OFF_CUSTOM_MALLOC, TURN_ON_CUSTOM_MALLOC, heap_op, bind, modify, ret. cbn [s_heap set_custom_malloc].
  rewrite E, (dp_dep _ Hcfg). cbn [orb when].
  destruct r as [[first cnt]|]; (eexists; split; [done|]); by eapply traced_free.
Qed.

(** A step of a legal trace returns and keeps the invariant. *)
Lemma step_run e r : traced r → legal (r_live r) (r_state r) e = true → ∃ r', run_step e r = Some r' ∧ traced r'.
Proof.
  destruct r as [live hist w]. cbn [r_live r_state]. intros Ht Hl. unfold run_step. cbn [r_live r_hist r_state].
  destruct (access_of w e) as [x|] eqn:Ea.
  { destruct (traced_access live hist w e x Ht Ea Hl) as (w' & -> & -> & Ht'). by eexists. }
  cbn [option_list]. rewrite app_nil_r.
  assert (∀ w', run_event e w = Ok 0 w' → live_after e 0 live = live → smmap w' = smmap w → s_heap w' = s_heap w →
    deplog_set w' = deplog_set w → ∃ r', match run_event e w with
      Ok result w => Some (MkRun (live_after e result live) hist w) | Stop _ _ => None end = Some r' ∧ traced r') as Hkeep.
  { intros w' -> -> E1 E2 E3. eexists. split; [done|]. by eapply traced_same. }
  destruct (loop_event e) eqn:Ee.
  { destruct (loop_event_run live w e Ee Hl) as (w' & E & E1 & E2 & E3). apply (Hkeep w'); try done. by destruct e. }
  unfold access_of in Ea. destruct (raw_access (s_loop w) e) as [[[[[st instr] bare] addr] n]|] eqn:Er; cbn [mbind option_bind] in Ea.
  { destruct (tracks cfg w addr) eqn:Htr; [done|]. destruct (access_untracked w e st instr bare addr n Er Htr) as (w' & E & _ & E1 & E2 & E3).
    apply (Hkeep w'); try done. by destruct e. }
  destruct e; try done;
    try (cbn in Er; destruct (context (s_loop w) =? 0) eqn:Ec; [|done]; apply (Hkeep w); try done; cbn [run_event];
      apply ret_after; unfold SLAMP_load_ext, SLAMP_loadn_ext, SLAMP_store_ext, SLAMP_storen_ext, with_context, bind, gets; by rewrite Ec).
  - destruct (global_run live hist w addr size Ht Hl) as (w' & -> & Ht'). by eexists.
  - destruct (alloc_run live hist w size j Ht Hl) as (p & w' & -> & Ht'). by eexists.
  - destruct (free_run live hist w ptr Ht Hl) as (w' & -> & Ht'). by eexists.
Qed.

Lemma trace_run evs : ∀ r, traced r → legal_trace evs r = true → ∃ r', run_trace evs r = Some r' ∧ traced r'.
Proof.
  induction evs as [|e evs IH]; intros r Ht Hl; [by exists r|]. cbn in Hl. apply andb_true_iff in Hl as [H1 H2].
  destruct (step_run e r Ht H1) as (r1 & E & Ht1). cbn [run_trace]. rewrite E in *. by apply IH.
Qed.

(** The start of the profiler. *)
Definition start (brk heap_start stack_end : Z) (libc : list (Z * Z)) : Run :=
  MkRun [] [] (SLAMP_init mmap_fails brk heap_start stack_end libc).
Record good_start (brk stack_end : Z) (libc : list (Z * Z)) : Prop := {
  gs_brk : 0 < brk ∧ brk + unit_sz < HEAP_BOUND_LOWER;
  gs_stack : user_span (stack_end - SIZE_8M) SIZE_8M ∧ 16 ≤ stack_end - SIZE_8M;
  gs_libc : ∀ a, a ∈ libc → 0 ≤ a.2 ∧ user_span a.1 a.2 ∧ 16 ≤ a.1 }.

Lemma start_traced brk heap_start stack_end libc : good_start brk stack_end libc → traced (start brk heap_start stack_end libc).
Proof.
  intros [[B1 B2] [S1 S2] Hl]. unfold start, SLAMP_init. set (h := init_bound_malloc brk HEAP_BOUND_LOWER mmap_fails).
  assert (heap_ok [] h) as Hh by (apply init_heap_ok; done).
  assert (heap_end h ≤ 2 ^ 40 ∧ unmapped h = ∅) as [He Hu].
  { unfold h, init_bound_malloc. rewrite filter_none by (intros a _; by rewrite Hmmap). done. }
  set (W := λ mm, MkSlamp (MkLoop 0 0 0 0 0) (MkCounts 0 0 0 0 0) (MkModules ∅ ∅ ∅ ∅ ∅ ∅) ∅ mm h false).
  assert (∀ l mm, (∀ a, a ∈ l → 0 ≤ a.2 ∧ user_span a.1 a.2 ∧ 16 ≤ a.1) → traced (MkRun [] [] (W mm)) →
    traced (MkRun [] [] (W (foldl (λ mm a, (allocate mmap_fails a.1 a.2 mm).2) mm l)))) as Hfold.
  { induction l as [|[a n] l IH]; intros mm Ha Ht; [done|]. cbn [foldl fst snd]. apply IH; [intros x Hx; apply Ha, elem_of_cons; by right|].
    destruct (Ha (a, n)) as (H1 & H2 & H3); [apply elem_of_cons; by left|]. cbn in H1, H2, H3.
    destruct (allocate_run mmap_fails Hmmap a n mm) as (mm' & -> & Hm). eapply traced_map; try done.
    intros q Hq. destruct (span_pages a n q H1 H2 H3 Hq) as (? & ? & _). change (s_heap (W mm)) with h. rewrite Hu. split_and!; [done..|apply not_elem_of_empty]. }
  apply Hfold.
  - intros a [->|Ha]%elem_of_cons; [|by apply Hl]. by cbn.
  - constructor; cbn [r_live r_hist r_state W smmap s_heap deplog_set pages]; try done.
    + by intros s ?%elem_of_nil.
    + intros k. split; [by intros ?%elem_of_empty|]. by intros ?%flow_nil.
    + by intros o b ?%elem_of_nil.
Qed.

(** [C4] The dependences that the profiler logs are exactly the flow dependences of
    the accesses it looks at: a key is in the log if and only if some load reads a byte
    that the store of the key wrote last, in the same invocation of the loop, and it
    says correctly whether the two are in different iterations.  The hooks return for
    every legal trace, with allocations and deallocations in between. *)
Theorem slamp_log_exact brk heap_start stack_end libc evs : good_start brk stack_end libc →
  legal_trace evs (start brk heap_start stack_end libc) = true →
  ∃ r, run_trace evs (start brk heap_start stack_end libc) = Some r ∧ ∀ k, k ∈ deplog_set (r_state r) ↔ flow (r_hist r) k.
Proof.
  intros Hg Hl. destruct (trace_run evs _ (start_traced brk heap_start stack_end libc Hg) Hl) as (r & E & Ht).
  exists r. split; [done|]. apply (tr_log _ Ht).
Qed.

(** [C5] At every point of a run the live objects are aligned, lie inside the heap and
    do not overlap, no page of them has been given back, and all their bytes have a
    shadow. *)
Theorem slamp_objects_kept brk heap_start stack_end libc evs : good_start brk stack_end libc →
  legal_trace evs (start brk heap_start stack_end libc) = true →
  ∃ r, run_trace evs (start brk heap_start stack_end libc) = Some r ∧
    (∀ o1 o2, o1 ∈ r_live r → o2 ∈ r_live r → o1 = o2 ∨ o_ptr o1 + o_size o1 ≤ o_ptr o2 ∨ o_ptr o2 + o_size o2 ≤ o_ptr o1) ∧
    ∀ o, o ∈ r_live r → o_ptr o mod 16 = 0 ∧ heap_begin (s_heap (r_state r)) ≤ o_ptr o ∧
      o_ptr o + o_size o ≤ heap_end (s_heap (r_state r)) ∧
      ∀ b, o_ptr o ≤ b < o_ptr o + o_size o →
        (page_of b ∉ unmapped (s_heap (r_state r))) ∧ mapped (smmap (r_state r)) (shadow_of b) = true.
Proof.
  intros Hg Hl. destruct (trace_run evs _ (start_traced brk heap_start stack_end libc Hg) Hl) as (r & E & Ht).
  exists r. split; [done|]. pose proof (tr_heap _ Ht) as Hh. pose proof (tr_end _ Ht) as He40.
  destruct (hk_end _ _ Hh) as [He _]. destruct (hk_begin _ _ Hh) as [Hb0 _]. split.
  - intros o1 o2 H1 H2. pose proof (ob_size _ _ (hk_objs _ _ Hh o1 H1)). pose proof (ob_size _ _ (hk_objs _ _ Hh o2 H2)).
    destruct (hk_apart _ _ Hh o1 o2 H1 H2) as [|[?|?]]; [by left|right; left; lia|right; right; lia].
  - intros o Ho. pose proof (hk_objs _ _ Hh o Ho) as Hok. pose proof Hok as [O1 O2 O3 O4 _ _]. split; [done|]. do 2 (split; [lia|]).
    intros b Hb. assert (user_addr b) as Hu by (left; lia). split; [|apply (tr_regions _ Ht); [done|by eapply (tr_live _ Ht)]].
    intros (_ & _ & Hz)%(hk_gone _ _ Hh). assert (0 < alive (r_live r) (page_of b)); [|lia]. apply alive_pos. exists o. split; [done|].
    destruct (obj_pages_ends _ o Hok Hb0 ltac:(lia)) as (_ & _ & Htx & _). apply Htx.
    split; [apply page_of_aligned; lia|]. split; apply page_of_le; lia.
Qed.
End Runs.

(** ** Examples *)

Definition demo_config : Config := MkConfig true false true false true true false false false 0 0 false.
Definition demo_start : Run := start (λ _, false) 0x1000000 0x1000000 0x7ffffffff000 [(0x601000, 16)].
Lemma demo_profiling : dependence_profiling demo_config.
Proof. by constructor. Qed.
Lemma demo_good_start : good_start 0x1000000 0x7ffffffff000 [(0x601000, 16)].
Proof.
  constructor; [done|unfold user_span, SIZE_8M; lia|]. intros a ->%list_elem_of_singleton. unfold user_span. cbn. lia.
Qed.

(** A static object and two on the heap, one of which is freed; a store in one
    iteration is read in the same and in the next one, a copy belongs to a call. *)
Definition demo_trace : list Event :=
  [Global 0x600000 64; Alloc 5000 4; Alloc 32 6; Invocation; Store 8 5 0x600000; Load 4 6 0x600002 7 1; Iteration;
   Load 8 6 0x600000 7 1; Push 9; StoreNExt 0x100000010 0 100; LoadExt 2 0x100000010 3 0; Pop; Free 0x100000010; Exit].

(** The keys of the log of a run. *)
Definition log_of (r : option Run) : list KEY := match r with Some r => elements (deplog_set (r_state r)) | None => [] end.

Lemma demo_log : log_of (run_trace demo_config (λ _, false) demo_trace demo_start) = [MkKey 9 9 3 0; MkKey 5 6 7 0; MkKey 5 6 7 1].
Proof. vm_compute. reflexivity. Qed.

Lemma slamp_log_exact_witness : ∃ r, run_trace demo_config (λ _, false) demo_trace demo_start = Some r ∧
  ∀ k, k ∈ deplog_set (r_state r) ↔ flow (r_hist r) k.
Proof.
  apply (slamp_log_exact demo_config (λ _, false) demo_profiling (λ _, eq_refl) 0x1000000 0x1000000 0x7ffffffff000 [(0x601000, 16)]).
  - exact demo_good_start.
  - vm_compute. reflexivity.
Defined.

Lemma slamp_objects_kept_witness : ∃ r, run_trace demo_config (λ _, false) demo_trace demo_start = Some r ∧
  (∀ o1 o2, o1 ∈ r_live r → o2 ∈ r_live r → o1 = o2 ∨ o_ptr o1 + o_size o1 ≤ o_ptr o2 ∨ o_ptr o2 + o_size o2 ≤ o_ptr o1) ∧
  ∀ o, o ∈ r_live r → o_ptr o mod 16 = 0 ∧ heap_begin (s_heap (r_state r)) ≤ o_ptr o ∧
    o_ptr o + o_size o ≤ heap_end (s_heap (r_state r)) ∧
    ∀ b, o_ptr o ≤ b < o_ptr o + o_size o →
      (page_of b ∉ unmapped (s_heap (r_state r))) ∧ mapped (smmap (r_state r)) (shadow_of b) = true.
Proof.
  apply (slamp_objects_kept demo_config (λ _, false) demo_profiling (λ _, eq_refl) 0x1000000 0x1000000 0x7ffffffff000 [(0x601000, 16)]).
  - exact demo_good_start.
  - vm_compute. reflexivity.
Defined.

(** The counter of invocations in a timestamp has four bits: a load in the seventeenth
    invocation is reported to depend on a store in the first one. *)
Definition alias_trace : list Event :=
  [Invocation; Store 8 5 0x601000; Exit] ++ concat (replicate 15 [Invocation; Exit]) ++ [Invocation; Load 8 6 0x601000 7 0].
Theorem invocations_alias : ∃ r, run_trace demo_config (λ _, false) alias_trace demo_start = Some r ∧
  MkKey 5 6 7 1 ∈ deplog_set (r_state r) ∧ ¬ flow (r_hist r) (MkKey 5 6 7 1).
Proof.
  set (o := run_trace demo_config (λ _, false) alias_trace demo_start).
  assert (r_hist <$> o = Some [MkAccess true 5 0 0x601000 8 1 1; MkAccess false 6 7 0x601000 8 17 17]) as Eh by (vm_compute; reflexivity).
  assert (log_of o = [MkKey 5 6 7 1]) as El by (vm_compute; reflexivity).
  destruct o as [r|]; [|done]. exists r. split; [done|]. cbn in Eh, El. injection Eh as Eh. split.
  - apply elem_of_elements. rewrite El. by apply list_elem_of_singleton.
  - rewrite Eh. change [?x; ?y] with ([x] ++ [y]). rewrite flow_snoc. intros [Hf|(_ & b & s & _ & Es & Ev & _)].
    + change [MkAccess true 5 0 0x601000 8 1 1] with ([] ++ [MkAccess true 5 0 0x601000 8 1 1]) in Hf.
      apply flow_snoc in Hf as [?%flow_nil|[? _]]; done.
    + apply last_store_elem in Es as [->%list_elem_of_singleton _]. done.
Qed.

(** When the shadow of a block cannot be mapped, the block that is tried instead has the
    default alignment. *)
Theorem retry_loses_alignment : ∃ w p w',
  SLAMP_memalign_hook demo_config (λ x, x =? shadow_of 0x100001000) 4096 100 w = Ok p w' ∧ p mod 4096 ≠ 0.
Proof.
  exists (r_state demo_start). set (o := SLAMP_memalign_hook _ _ _ _ _).
  assert (match o with Ok p _ => negb (p mod 4096 =? 0) | Stop _ _ => false end = true) as H by (vm_compute; reflexivity).
  destruct o as [p w'|]; [|done]. exists p, w'. split; [done|]. by apply Z.eqb_neq, negb_true_iff.
Qed.
