(* ===== verification/SlampValues.v ===== *)
(** Constant and linear loads: the access modules of the memory profiler.

    The modules of [Slamp] keep one entry for every load instruction; here the
    entries are compared with the values that were loaded. *)
From S2P Require Import Prelude Machine BoundMalloc Slamp.
#[local] Open Scope Z_scope.

(** ** Constant values *)

(** A load: its key, address, value and size. *)
Record LoadEvent := MkLoad { ld_key : Z * Z; ld_addr : Z; ld_value : Z; ld_size : Z }.
Definition run_constants (m : AccessModules) (l : list LoadEvent) : AccessModules :=
  foldl (λ m x, slamp_access_callback_constant_value true (ld_key x).1 (ld_key x).2 (ld_addr x) (ld_value x) (ld_size x) m) m l.
Definition values_of (key : Z * Z) (l : list LoadEvent) : list Z := ld_value <$> filter (λ x, ld_key x = key) l.

Lemma values_of_snoc key l x : values_of key (l ++ [x]) = values_of key l ++ (if decide (ld_key x = key) then [ld_value x] else []).
Proof. unfold values_of. rewrite filter_app, filter_cons, filter_nil, fmap_app. by destruct (decide _). Qed.

(** What an entry says about the values of its load. *)
Definition constant_entry (vs : list Z) (e : option Constant) : Prop :=
  match vs, e with
  | [], None => True
  | v0 :: vs', Some cp => c_valueinit cp = true ∧ (c_valid cp = true → c_value cp = v0) ∧ (c_valid cp = true ↔ ∀ v, v ∈ vs' → v = v0)
  | _, _ => False
  end.

Lemma constant_entry_update vs e v addr size : constant_entry vs e →
  constant_entry (vs ++ [v]) (Some (match e with Some cp => update_const cp v addr | None => MkConst true true size addr v end)).
Proof.
  destruct vs as [|v0 vs], e as [cp|]; cbn [constant_entry app]; try done.
  - intros _. split_and!; [done..|]. split; [|done]. by intros _ u ?%elem_of_nil.
  - intros (Hi & Hc & Hv). unfold update_const. rewrite Hi. cbn [andb].
    assert ((∀ u, u ∈ vs ++ [v] → u = v0) ↔ (∀ u, u ∈ vs → u = v0) ∧ v = v0) as ->.
    { setoid_rewrite elem_of_app. setoid_rewrite list_elem_of_singleton. split; [intros H; split; [auto|by apply H; right]|].
      intros [H ->] u [Hu| ->]; auto. }
    destruct (c_valid cp) eqn:Ev.
    + specialize (Hc eq_refl). destruct (Z.eqb_spec (c_value cp) v) as [E|E]; cbn; split_and!; try done.
      * congruence.
      * split; [intros _; split; [by apply Hv|congruence]|done].
      * split; [done|]. intros [_ ->]. congruence.
    + rewrite Ev. split_and!; try done. rewrite <-Hv. split; [done|by intros [? _]].
Qed.

(** After any loads, the module has an entry for exactly the instructions that
    loaded; the entry is valid if and only if all their values were equal, and then has
    this value. *)
Theorem constant_values_exact m l key : constmap_value m !! key = None →
  constant_entry (values_of key l) (constmap_value (run_constants m l) !! key).
Proof.
  intros Hm. induction l as [|x l IH] using rev_ind; [by cbn; rewrite Hm|].
  unfold run_constants in *. rewrite foldl_app, values_of_snoc. cbn [foldl]. set (m' := foldl _ m l) in *.
  destruct x as [[i b] addr v size]. cbn [ld_key ld_addr ld_value ld_size fst snd].
  unfold slamp_access_callback_constant_value. cbn [negb constmap_value]. destruct (decide ((i, b) = key)) as [->|Hne].
  - rewrite lookup_insert_eq. by apply constant_entry_update.
  - rewrite lookup_insert_ne, app_nil_r by done. exact IH.
Qed.

Lemma constant_values_exact_witness : constant_entry [7; 7; 8]
  (constmap_value (run_constants (MkModules ∅ ∅ ∅ ∅ ∅ ∅)
    [MkLoad (1, 2) 64 7 8; MkLoad (3, 4) 64 9 8; MkLoad (1, 2) 72 7 8; MkLoad (1, 2) 64 8 8]) !! (1, 2)).
Proof.
  apply (constant_values_exact (MkModules ∅ ∅ ∅ ∅ ∅ ∅)
    [MkLoad (1, 2) 64 7 8; MkLoad (3, 4) 64 9 8; MkLoad (1, 2) 72 7 8; MkLoad (1, 2) 64 8 8] (1, 2)).
  reflexivity.
Defined.

(** ** Linear values *)

Definition run_samples (lp : LinearPredictor) (l : list (Z * Z)) : LinearPredictor :=
  foldl (λ lp s, add_sample lp s.1 s.2) lp l.
Definition on_line (lp : LinearPredictor) (s : Z * Z) : Prop := i64 (i64 (ia lp * s.1) + ib lp) = s.2.

(** A predictor that has its line checks every sample against it. *)
Lemma checked_sample lp s : init lp = true → ready lp = true →
  let lp' := add_sample lp s.1 s.2 in
  init lp' = true ∧ ready lp' = true ∧ ia lp' = ia lp ∧ ib lp' = ib lp ∧
  (valid_as_int lp' = true ↔ valid_as_int lp = true ∧ on_line lp s).
Proof.
  intros Hi Hr. cbv zeta. unfold add_sample, on_line. rewrite Hi, Hr. cbn [negb].
  destruct (valid_as_int lp) eqn:Ev; destruct (valid_as_double lp) eqn:Ed; cbn [negb andb valid_as_int]; split_and!; try done;
    rewrite ?Ev, ?Z.eqb_eq; split; (done || by intros [? ?]).
Qed.

(** From the sample that gives it its line on, a predictor is valid for integers if
    and only if it was and all later samples are on the line. *)
Theorem linear_later_samples lp l : init lp = true → ready lp = true →
  valid_as_int (run_samples lp l) = true ↔ valid_as_int lp = true ∧ ∀ s, s ∈ l → on_line lp s.
Proof.
  revert lp. induction l as [|s l IH]; intros lp Hi Hr.
  - cbn. split; [|tauto]. intros ?. split; [done|]. by intros s ?%elem_of_nil.
  - destruct (checked_sample lp s Hi Hr) as (H1 & H2 & H3 & H4 & H5). unfold run_samples in *. cbn [foldl]. rewrite IH, H5 by done.
    unfold on_line. rewrite H3, H4. setoid_rewrite elem_of_cons. split.
    + intros [[Hv Hs] Hl]. split; [done|]. by intros t [->|Ht]; [|apply Hl].
    + intros [Hv Hl]. split; [split; [done|apply Hl; by left]|]. intros t Ht. apply Hl. by right.
Qed.

(** The line ignores the first sample, and the slope is rounded, so that the sample it
    comes from is not on the line either. *)
Theorem linear_ignores_samples : ∃ s0 s1 s2 s3,
  let lp := run_samples (new_predictor s0.1 s0.2 64) [s1; s2; s3] in
  stable lp = true ∧ valid_as_int lp = true ∧ ¬ on_line lp s0 ∧ ¬ on_line lp s2.
Proof. exists (1, 100), (2, 0), (4, 3), (5, 3). split_and!; [vm_compute; congruence..|done|done]. Qed.
